(* ===== verification/_CoqProject ===== *)
-Q . S2P
Prelude.v
PyDict.v
PyStr.v
PyNum.v
Topology.v
CpModel.v
HumanAllocator.v
Changeover.v
Types.v
VariableSpace.v
EventBus.v
ResourceManager.v
ConditionEvaluator.v
StepRegistry.v
CircuitBreaker.v
EdgeBreakpoints.v
UutSync.v
StateSnapshot.v
Scheduler.v
Dispatch.v
Dsl.v
PlanTopology.v
Cpsat.v
CompiledPlan.v
Compiler.v
CompilerScopes.v
LoopExecutor.v
LoopStep.v
Parser.v
PlanFiles.v
Validation.v
ParsedPlans.v
PlanSerializer.v
PlanRoundTrip.v
WirePlans.v
Fixture.v
PlanDispatcher.v
Checkpoint.v
ContextProxy.v
Watchdog.v
System.v
Starts.v
Bootstrap.v
DryRun.v
AdaptiveSkip.v
FaultInjector.v
Recovery.v
Worker.v
Divergences.v
Sql.v
UploadQueue.v
CacheStore.v
VersionLock.v
ScriptCache.v
Heartbeat.v
ResultCache.v
Resume.v
ProcessExecutor.v
CapacityGuard.v
Reconciliation.v
WaitCycles.v
Contention.v
TopologyState.v
FaultLocalizer.v
Stations.v
CloudBreakpoints.v
