(* ===== verification/Prelude.v ===== *)
(** * ATE Studio: an automatic test station, verified

    This library models the core of ATE Studio, from the YAML file of a test plan to the
    execution of its steps on a station and the upload of the results, and proves what makes
    it correct. Paths are those of the repository: [scheduler/x.py], [executor/x.py] and the
    like stand for files of src/src/ate_platform. Definitions keep the names of the source
    where they can, follow its control flow and evaluate by [vm_compute].

    ** The program

    A plan is written as YAML or drawn in a graph editor. It is parsed, validated, checked
    against the wiring of the fixture and compiled into a flat graph; the cloud materializes
    it into a message, and a worker decodes the message and boots a scheduler for it.

    The plan's steps are in the step registry, each with its precondition. The
    scanner scheduler starts a PENDING step once its precondition holds, by publishing
    STEP_STARTED on the event bus; executors run the step and report its status to the
    registry, which publishes STEP_STATUS_CHANGED; [handle_step_result] then retries, repeats
    or settles the step. Two paths lead to a start: a reactive dispatch task per step,
    requested by the handlers of status, variable and resource events, and a periodic scan
    over the ready steps. Both go through the same gate (pause, single-step modes,
    breakpoints), skip rules and fault injection. Barrier steps wait for all the units under
    test. Every status change saves a snapshot, from which a new process resumes. A watchdog
    shuts the scheduler down when its scan loop stops beating. Plans of the v3.2 format run
    item by item in the plan dispatcher instead, with fixtures and operator checkpoints.

    Results are cached and uploaded; a station cut off from the cloud goes on with cached
    sequences, pinned versions and scripts and a queue of uploads, reconciled on reconnect.

    ** The files

    Shared:
    - Prelude.v: exceptions, the monad [M S A] (state passing in which the mutations made
      before an exception stay), its laws, the [preserves] and [ensures] rules.
    - PyDict.v: dicts in insertion order; PyStr.v: the string methods used and [pyval], the
      values of test variables; PyNum.v: numbers; Sql.v: tables as lists of rows.
    - Types.v (shared/types.py, shared/events.py): statuses, events, and the class
      [EventSink], what a publisher relies on. Dsl.v (shared/dsl.py): plans.

    Plans:
    - Parser.v, PlanFiles.v, Validation.v (dsl/parser.py): parsing, which files describe which
      plans, the validator. ParsedPlans.v: parsed plans in the compiler.
    - PlanSerializer.v (serialization/plan_serializer.py): graphs of the editor to and from
      files; PlanRoundTrip.v: what survives a round trip.
    - Topology.v (shared/fixture_topology.py), PlanTopology.v (scheduler/topology_validator.py):
      wiring, and plans against it.
    - CompiledPlan.v, Compiler.v, CompilerScopes.v (scheduler/compiler.py): the flat graph and
      its cycle check, the two passes, the scopes of names.
    - CpModel.v: constraint models and the solver's interface; Cpsat.v, HumanAllocator.v,
      Changeover.v (scheduler/cpsat.py, human_resource_allocator.py,
      changeover_optimizer.py): the three schedulers built on it.
    - WirePlans.v (ate_cloud/services/plan_materializer.py and execution_dispatch.py, decoding
      of scheduler/jetstream_worker.py): a plan on its way to a worker.

    The scheduler:
    - VariableSpace.v, EventBus.v, ResourceManager.v, ConditionEvaluator.v, StepRegistry.v,
      CircuitBreaker.v, EdgeBreakpoints.v, UutSync.v, StateSnapshot.v: a file per module of
      scheduler/ (and common/circuit_breaker.py), with threads interleaved where there are any.
    - Scheduler.v, Dispatch.v (scanner_scheduler.py): the record [World] of everything the
      scheduler owns or shares, registrations, gates, results, barriers; handlers, both
      dispatch paths, tasks, scan loop, life cycle. [SchedulerEnv] is what it is given.
    - LoopExecutor.v, LoopStep.v (executor/loop_executor.py, [execute_loop_step]): loops, alone
      and on the scheduler's own state; [LoopEnv] is what the step executor promises.
    - AdaptiveSkip.v, FaultInjector.v (adaptive_skip.py, simulation/fault_injector.py):
      instances of the scheduler's interfaces.
    - Watchdog.v; System.v: scheduler, bus, registry and executors interleaved ([sys_step])
      and the invariant [good]; Starts.v, Recovery.v, Divergences.v: starts, crash recovery,
      behaviours at odds with the code's intent.
    - Bootstrap.v, Worker.v (jetstream_worker.py): from a plan to a booted scheduler; the
      worker over all the schedulers it has booted.
    - DryRun.v (simulation/dry_run_scheduler.py): the walk over a plan without executing it.

    Execution of plans and steps:
    - Fixture.v, PlanDispatcher.v, Checkpoint.v, ContextProxy.v, ProcessExecutor.v
      (fixture/fixture_controller.py, executor/v32_dispatcher.py, checkpoint_handler.py,
      context_proxy.py, process_executor.py and step_executor.py).

    Station, topology and debugging:
    - WaitCycles.v, Contention.v (simulation/contention.py): the wait-for cycles of a log of
      locks, and its analysis.
    - TopologyState.v, FaultLocalizer.v (runtime/topology_state.py, fault_localizer.py): the
      state of the wiring during a run, and where a failure comes from.
    - Stations.v (scheduler/station_orchestrator.py, shared/multi_station.py): hand-offs
      between stations through a key-value bucket.
    - CloudBreakpoints.v (ate_cloud/services/breakpoint_registry.py): breakpoints matched by the
      cloud, as messages to the worker of Worker.v.

    Data and offline runs:
    - ResultCache.v, Resume.v (data/cache.py, data/resume.py): results on their way up.
    - UploadQueue.v, CacheStore.v, VersionLock.v, ScriptCache.v, Heartbeat.v, CapacityGuard.v,
      Reconciliation.v: the modules of offline/ of these names.

    ** What is proved

    - Plans: the parser reads back every plan a file can describe, the validator reports exactly
      the defects it means to, loading a saved plan gives it back; topology checks accept
      exactly the consistent wirings; the compiler's result, its cycle check against the
      reference relation, the names of compiled steps; a materialized plan arrives unchanged.
    - Schedules: what the solver accepts is a valid schedule, in the plan's own terms.
    - Starting steps: without barrier steps and fault injectors, a step is not started while an
      earlier execution of it is in flight ([single_flight]; Divergences.v has what happens
      with them); nothing starts while paused; a dispatch starts
      only its own ready step ([dispatch_starts_only_ready]); a step with [skip_if] never
      starts in a worker ([skip_if_never_starts]); when adaptive rules skip, and when they raise;
      a dry run against a walk through the plan.
    - Results: the decision matrix of [handle_step_result], the retry budget.
    - Recovery: atomic saving, the crash round trip, whose snapshot a worker resumes.
    - Components: the registry's invariant, mutual exclusion of resources, no event lost or
      doubled, the variable space's refinement, barriers, the watchdog's refinement, the
      breaker's invariant and admissions, one response per wait; what a call of the executor
      reports, that it can end by itself, and batches.
    - Debugging: all wait-for cycles are found ([find_cycles_exact]), deadlocks and accounts of
      a log; an event pauses the run whose breakpoint it hits ([event_pauses_run]); located
      faults are on the routes that were searched; a hand-off that was put is read back.
    - Loops and dispatcher: a loop step ends with a sound stored result within its bound;
      a plan's items run in order of their dependencies.
    - Offline: the queue loses no unacknowledged record, what a reconciliation leaves, result rows stay
      until they are published.

    Findings (code at odds with its documentation or intent) have examples beside the
    theorems of their file.

    ** Concurrency, time, bounds

    The scheduler runs on one asyncio loop: the code between two suspension points is one
    step, and the tasks waiting at them are values ([task], [loop_pc]). Threads (resource
    locks, barriers, calls of the executor, answers of operators) step at each locked
    section. Times are integer ticks read from the clock in the state.
    Python integers are unbounded, so [Z] is exact. A float is held by its [repr], or is a
    parameter with its operations.

    Recursion is structural where the code's is. Fuel, with the theorem or lemma that it is
    enough: the polling loops of ConditionEvaluator.v (timeout / interval + 2 rounds,
    [wait_loop_terminates]); [process_events] of EventBus.v (the number of turns
    observed); a WHILE loop (the iterations to its limit, as the code counts them); Kahn's
    algorithm (the number of identifiers, [check_cycles_exact]); reachability in a
    topology (the number of links plus one); the waves of Cpsat.v (the number of steps, for
    any schedule of the solver); the rounds of the dispatcher (the number of items); the
    parsers of Parser.v and WirePlans.v (the depth of the value); the serializer (the number
    of nodes); the search for cycles among n nodes ((2 + n) ^ (n + 1) + 1 rounds).

    ** Parameters

    Third-party or standard-library code the source calls is a parameter: [simpleeval],
    Python's [eval], JSON codecs, [json_extract], the YAML loader and dumper, [ast.parse],
    SHA-256, temporary names, float formatting and arithmetic, random choices, the CP-SAT
    solver. So are the order in which a set is iterated over, ISO time stamps, the
    comparison and text of measured numbers. A law about floats says only what is
    documented: [float] may raise OverflowError, and skip rules may therefore raise. What
    the environment answers is a parameter, too: database rows, the bucket of the stations,
    the SSE bridge, NATS messages, uploader, transport and publisher, the proxy client of
    fixtures, the SPC processor and the fault predictor, the clock at a poll, the injected
    script executor and pause hook, and what a script, or a task of a batch, does.

    ** Not modelled

    Client and server I/O with little state of its own: drivers and the instrument proxy, NATS
    connections, the publisher and event buffer, the worker's registration and heartbeat,
    file watching. The cloud's web, database and authentication layers, code generation and
    retrieval by language models, and the front end. Adapters to OpenHTF. Floating-point
    statistics (fault prediction and penalties, [schedule_pareto]). Recording and replay, and
    the rest of simulation/. Logging is not modelled; the wall-clock time stamps of events
    and [run_id] are not carried. *)

From stdpp Require Export base tactics list gmap strings pretty.
From Stdlib Require Export ZArith Lia.

#[global] Set Default Goal Selector "!".

(** ** Notations and automation of the development *)

Declare Scope ate_scope.
Delimit Scope ate_scope with ate.

Create HintDb ate discriminated.
Create Rewrite HintDb pydict.
Create Rewrite HintDb pymonad.

(** Case analysis on every [match]/[if]/[decide] left in a goal or hypothesis. *)
Ltac case_all :=
  repeat (case_match || case_decide; simplify_eq/=).


(** ** Exceptions

    The exception classes the modelled code raises and catches, with the
    message it formats. *)
Inductive exc : Type :=
  | KeyError (msg : string)
  | ValueError (msg : string)
  | TypeError (msg : string)
  | RuntimeError (msg : string)
  | ResourceAcquireError (msg : string)
  | ConditionTimeoutError (msg : string)
  | CircuitBreakerOpenError (msg : string)
  | SchedulerFaultError (msg : string)
  | ExecutionAborted (msg : string)
  | CustomError (cls msg : string)  (* an exception class of one module, by its name *)
  | OtherError (msg : string).

#[export] Instance exc_eq_dec : EqDecision exc.
Proof. solve_decision. Defined.

Inductive res (A : Type) : Type :=
  | Ok (a : A)
  | Raise (e : exc).
Arguments Ok {A} _.
Arguments Raise {A} _.

#[export] Instance res_eq_dec {A} `{EqDecision A} : EqDecision (res A).
Proof. solve_decision. Defined.

Definition is_ok {A} (r : res A) : bool :=
  match r with Ok _ => true | Raise _ => false end.

Definition res_bind {A B} (r : res A) (k : A → res B) : res B :=
  match r with Ok a => k a | Raise e => Raise e end.

#[export] Instance res_mret : MRet res := λ A a, Ok a.
#[export] Instance res_mbind : MBind res := λ A B k r, res_bind r k.
#[export] Instance res_fmap : FMap res := λ A B f r, match r with Ok a => Ok (f a) | Raise e => Raise e end.

Lemma res_bind_Ok {A B} (r : res A) (k : A → res B) b :
  r ≫= k = Ok b ↔ ∃ a, r = Ok a ∧ k a = Ok b.
Proof. destruct r; simpl; naive_solver. Qed.

Lemma res_bind_Raise {A B} (r : res A) (k : A → res B) e :
  r ≫= k = Raise e ↔ r = Raise e ∨ ∃ a, r = Ok a ∧ k a = Raise e.
Proof. destruct r; simpl; naive_solver. Qed.

(** A comprehension whose body may raise: all its results, or the first exception. *)
Lemma res_mapM_Ok {A B} (f : A → res B) l k :
  mapM f l = Ok k ↔ Forall2 (λ x y, f x = Ok y) l k.
Proof.
  revert k. induction l as [|x l IH]; intros k; simpl.
  - split; [intros [= <-]; constructor|by intros ->%Forall2_nil_inv_l].
  - rewrite res_bind_Ok. setoid_rewrite res_bind_Ok. split.
    + intros (y & Hy & k' & Hk & [= <-]). constructor; [done|]. by apply IH.
    + intros (y & k' & Hy & Hk & ->)%Forall2_cons_inv_l.
      exists y. split; [done|]. exists k'. split; [by apply IH|done].
Qed.

Lemma res_mapM_Raise {A B} (f : A → res B) l e :
  mapM f l = Raise e → ∃ x, x ∈ l ∧ f x = Raise e.
Proof.
  induction l as [|x l IH]; simpl; [done|].
  rewrite res_bind_Raise. intros [H|(y & _ & [H|(k & _ & H)]%res_bind_Raise)]; [| |done].
  - exists x. split; [left|done].
  - destruct (IH H) as (x' & Hx & H'). exists x'. split; [by right|done].
Qed.

(** ** The state-and-exception monad

    A Python statement sequence mutates its objects and may raise; mutations
    made before the exception stay. Hence the state is returned in both cases. *)
Definition M (S A : Type) : Type := S → res A * S.

Definition ret {S A} (a : A) : M S A := λ s, (Ok a, s).
Definition raise {S A} (e : exc) : M S A := λ s, (Raise e, s).
Definition bind {S A B} (m : M S A) (k : A → M S B) : M S B := λ s,
  match m s with
  | (Ok a, s') => k a s'
  | (Raise e, s') => (Raise e, s')
  end.
Definition get {S} : M S S := λ s, (Ok s, s).
Definition put {S} (s : S) : M S unit := λ _, (Ok tt, s).
Definition modify {S} (f : S → S) : M S unit := λ s, (Ok tt, f s).
Definition gets {S A} (f : S → A) : M S A := λ s, (Ok (f s), s).

(** A pure computation that may raise. *)
Definition lift {S A} (r : res A) : M S A := match r with Ok a => ret a | Raise e => raise e end.

(** [try: m except <class>: h], where [h] answers only the caught classes. *)
Definition try_except {S A} (m : M S A) (h : exc → option (M S A)) : M S A := λ s,
  match m s with
  | (Ok a, s') => (Ok a, s')
  | (Raise e, s') =>
      match h e with
      | Some m' => m' s'
      | None => (Raise e, s')
      end
  end.

(** [try: m finally: f], with [f] a pure state change. *)
Definition try_finally {S A} (m : M S A) (f : S → S) : M S A := λ s,
  let '(r, s') := m s in (r, f s').

(** Run a computation on a component of a larger state. *)
Definition zoom {S T A} (pr : S → T) (up : T → S → S) (m : M T A) : M S A := λ s,
  let '(r, t') := m (pr s) in (r, up t' s).

Notation "x <- m ;; k" := (bind m (λ x, k))
  (at level 100, m at next level, right associativity) : ate_scope.
Notation "m ;;; k" := (bind m (λ _, k))
  (at level 100, right associativity) : ate_scope.
Notation "'when' b 'do' m" := (if b then m else ret tt)
  (at level 95, b at level 90, m at level 95) : ate_scope.

Open Scope ate_scope.

(** [for x in l: body], stopping at the first exception. *)
Fixpoint for_each {S A} (l : list A) (body : A → M S unit) : M S unit :=
  match l with
  | [] => ret tt
  | x :: l' => body x ;;; for_each l' body
  end.

Section monad_laws.
Context {S A B C : Type}.

Lemma bind_ret_l (a : A) (k : A → M S B) s : bind (ret a) k s = k a s.
Proof. done. Qed.

Lemma bind_lift (r : res A) (k : A → M S B) s :
  bind (lift r) k s = match r with Ok a => k a s | Raise e => (Raise e, s) end.
Proof. by destruct r. Qed.
Lemma bind_get (k : S → M S B) s : bind get k s = k s s.
Proof. done. Qed.

Lemma bind_ok (m : M S A) (k : A → M S B) s a s' :
  m s = (Ok a, s') → bind m k s = k a s'.
Proof. unfold bind. by intros ->. Qed.

Lemma bind_unit (m : M S unit) (k : unit → M S B) s :
  (m s).1 = Ok tt → bind m k s = k tt (m s).2.
Proof. unfold bind. destruct (m s) as [[[]|e] s']; [done|by intros [=]]. Qed.

Lemma bind_raise (m : M S A) (k : A → M S B) s e s' :
  m s = (Raise e, s') → bind m k s = (Raise e, s').
Proof. unfold bind. by intros ->. Qed.

Lemma bind_inv_ok (m : M S A) (k : A → M S B) s b s'' :
  bind m k s = (Ok b, s'') → ∃ a s', m s = (Ok a, s') ∧ k a s' = (Ok b, s'').
Proof. unfold bind. destruct (m s) as [[a|e] s'] eqn:E; intros; simplify_eq; eauto. Qed.

Lemma bind_inv_raise (m : M S A) (k : A → M S B) s e s'' :
  bind m k s = (Raise e, s'') →
  m s = (Raise e, s'') ∨ ∃ a s', m s = (Ok a, s') ∧ k a s' = (Raise e, s'').
Proof. unfold bind. destruct (m s) as [[a|e'] s'] eqn:E; intros; simplify_eq; eauto. Qed.

Lemma bind_assoc (m : M S A) (f : A → M S B) (g : B → M S C) s :
  bind (bind m f) g s = bind m (λ a, bind (f a) g) s.
Proof. unfold bind. by destruct (m s) as [[a|e] s']. Qed.

Lemma try_except_ok (m : M S A) h s a s' : m s = (Ok a, s') → try_except m h s = (Ok a, s').
Proof. unfold try_except. by intros ->. Qed.

Lemma try_except_caught (m : M S A) h m' s e s' :
  m s = (Raise e, s') → h e = Some m' → try_except m h s = m' s'.
Proof. unfold try_except. by intros -> ->. Qed.
End monad_laws.

(** An assertion kept by a computation, whatever way it ends. *)
Definition preserves {S A} (I : S → Prop) (m : M S A) : Prop :=
  ∀ s, I s → I (m s).2.

Section preserves.
Context {S : Type} (I : S → Prop).

Lemma preserves_ret {A} (a : A) : preserves I (ret a).
Proof. by intros s. Qed.
Lemma preserves_raise {A} e : preserves I (raise (A := A) e).
Proof. by intros s. Qed.
Lemma preserves_lift {A} (r : res A) : preserves I (lift r).
Proof. by intros s; destruct r. Qed.
Lemma preserves_get : preserves I get.
Proof. by intros s. Qed.
Lemma preserves_gets {A} (f : S → A) : preserves I (gets f).
Proof. by intros s. Qed.
Lemma preserves_modify f : (∀ s, I s → I (f s)) → preserves I (modify f).
Proof. intros H s. apply H. Qed.
Lemma preserves_bind {A B} (m : M S A) (k : A → M S B) :
  preserves I m → (∀ a, preserves I (k a)) → preserves I (bind m k).
Proof.
  intros Hm Hk s Hs. unfold bind. specialize (Hm s Hs).
  destruct (m s) as [[a|e] s']; [by apply Hk|done].
Qed.
Lemma preserves_if {A} (b : bool) (m1 m2 : M S A) :
  preserves I m1 → preserves I m2 → preserves I (if b then m1 else m2).
Proof. by destruct b. Qed.
Lemma preserves_for_each {A} (l : list A) body :
  (∀ x, preserves I (body x)) → preserves I (for_each l body).
Proof.
  intros Hb. induction l; simpl; [apply preserves_ret|].
  apply preserves_bind; auto.
Qed.
Lemma preserves_try_except {A} (m : M S A) h :
  preserves I m → (∀ e m', h e = Some m' → preserves I m') →
  preserves I (try_except m h).
Proof.
  intros Hm Hh s Hs. unfold try_except. specialize (Hm s Hs).
  destruct (m s) as [[a|e] s']; [done|].
  destruct (h e) eqn:E; [by eapply Hh|done].
Qed.
Lemma preserves_try_finally {A} (m : M S A) f :
  preserves I m → (∀ s, I s → I (f s)) → preserves I (try_finally m f).
Proof.
  intros Hm Hf s Hs. unfold try_finally. specialize (Hm s Hs).
  destruct (m s) as [r s']; simpl in *; auto.
Qed.
Lemma preserves_zoom {T A} (J : T → Prop) (pr : S → T) up (m : M T A) :
  (∀ s, I s → J (pr s)) → (∀ s t, I s → J t → I (up t s)) →
  preserves J m → preserves I (zoom pr up m).
Proof.
  intros Hpr Hup Hm s Hs. unfold zoom.
  specialize (Hm (pr s) (Hpr s Hs)). destruct (m (pr s)); simpl in *; auto.
Qed.
End preserves.

#[export] Hint Resolve preserves_ret preserves_raise preserves_get preserves_gets
  preserves_bind preserves_if preserves_for_each : ate.

(** ** Triples

    An assertion on the state kept throughout, a property of the results and one of the
    exceptions. *)
Definition ensures {S A} (I : S → Prop) (Q : A → Prop) (R : exc → Prop) (m : M S A) : Prop :=
  ∀ s, I s → I (m s).2 ∧ match (m s).1 with Ok a => Q a | Raise e => R e end.

Section ensures.
Context {S : Type} (I : S → Prop) (R : exc → Prop).

Lemma ensures_ret {A} (Q : A → Prop) a : Q a → ensures I Q R (ret a).
Proof. by intros ? s. Qed.
Lemma ensures_raise {A} (Q : A → Prop) e : R e → ensures I Q R (raise e).
Proof. by intros ? s. Qed.
Lemma ensures_modify (Q : unit → Prop) f : (∀ s, I s → I (f s)) → Q tt → ensures I Q R (modify f).
Proof. intros H ? s ?. split; [by apply H|done]. Qed.
Lemma ensures_bind {A B} (Q : A → Prop) (Q' : B → Prop) (m : M S A) k :
  ensures I Q R m → (∀ a, Q a → ensures I Q' R (k a)) → ensures I Q' R (bind m k).
Proof.
  intros Hm Hk s Hs. destruct (Hm s Hs) as [Hs' Hr]. unfold bind.
  destruct (m s) as [[a|e] s']; [by apply Hk|done].
Qed.
Lemma ensures_weaken {A} (Q Q' : A → Prop) m :
  (∀ a, Q a → Q' a) → ensures I Q R m → ensures I Q' R m.
Proof.
  intros HQ Hm s Hs. destruct (Hm s Hs) as [? Hr]. split; [done|].
  destruct (m s).1; auto.
Qed.
End ensures.

(** Filters that agree on the elements of the list. *)
Lemma list_filter_iff_strong {A} (P Q : A → Prop) `{∀ x, Decision (P x), ∀ x, Decision (Q x)} (l : list A) :
  (∀ x, x ∈ l → P x ↔ Q x) → base.filter P l = base.filter Q l.
Proof.
  induction l as [|x l IH]; intros HPQ; [done|]. rewrite !filter_cons.
  rewrite IH by (intros y ?; apply HPQ; by right).
  assert (P x ↔ Q x) by (apply HPQ; by left). repeat case_decide; tauto.
Qed.

Lemma list_filter_fmap {A B} (P : B → Prop) `{∀ x, Decision (P x)} (f : A → B) (l : list A) :
  base.filter P (f <$> l) = f <$> base.filter (λ x, P (f x)) l.
Proof.
  induction l as [|x l IH]; [done|]. rewrite fmap_cons, !filter_cons, IH. by case_decide.
Qed.

Lemma list_filter_empty {A} (P : A → Prop) `{∀ x, Decision (P x)} (l : list A) :
  base.filter P l = [] ↔ ∀ x, x ∈ l → ¬ P x.
Proof.
  split; [intros Hl x Hx Hp; by eapply filter_nil_not_elem_of|].
  intros Hl. destruct (base.filter P l) as [|x k] eqn:E; [done|].
  assert (x ∈ base.filter P l) as [? ?]%list_elem_of_filter by (rewrite E; left).
  by destruct (Hl x).
Qed.

Lemma list_forall_filter {A} (P Q : A → Prop) `{∀ x, Decision (Q x)} (l : list A) :
  Forall P l → Forall P (base.filter Q l).
Proof. rewrite !Forall_forall. intros Hl x [_ Hx]%list_elem_of_filter. by apply Hl. Qed.

Lemma list_filter_all {A} (P : A → Prop) `{∀ x, Decision (P x)} (l : list A) :
  (∀ x, x ∈ l → P x) → base.filter P l = l.
Proof.
  induction l as [|x l IH]; intros Hl; [done|]. rewrite filter_cons_True by (apply Hl; left).
  by rewrite IH by (intros y ?; apply Hl; by right).
Qed.

Lemma foldl_append {A B} (f : A → B) (l : list A) (acc : list B) :
  foldl (λ acc x, acc ++ [f x]) acc l = acc ++ (f <$> l).
Proof.
  revert acc. induction l as [|x l IH]; intros acc; cbn; [by rewrite app_nil_r|].
  by rewrite IH, <-(assoc (++)).
Qed.

(** A stronger condition keeps fewer elements. *)
Lemma list_filter_length_le {A} (P Q : A → Prop) `{∀ x, Decision (P x), ∀ x, Decision (Q x)} (l : list A) :
  (∀ x, x ∈ l → P x → Q x) → length (base.filter P l) ≤ length (base.filter Q l).
Proof.
  induction l as [|x l IH]; intros HPQ; [done|]. rewrite !filter_cons.
  assert (length (base.filter P l) ≤ length (base.filter Q l))
    by (apply IH; intros y Hy; apply HPQ; by right).
  assert (P x → Q x) by (apply HPQ; left).
  repeat case_decide; cbn [length]; [lia|tauto|lia|lia].
Qed.

(** A comprehension is empty when each of its parts is. *)
Lemma list_bind_empty {A B} (f : A → list B) (l : list A) :
  l ≫= f = [] ↔ ∀ x, x ∈ l → f x = [].
Proof.
  induction l as [|x l IH]; [split; [intros _ ? []%elem_of_nil|done]|].
  change ((x :: l) ≫= f) with (f x ++ (l ≫= f)). split.
  - intros [H1 H2]%app_nil y [->|Hy]%elem_of_cons; [done|]. by apply IH.
  - intros H. rewrite (H x) by left. apply IH. intros y Hy. apply H. by right.
Qed.

(** [acc = body(x, acc)] over a list, the loop of a code with local accumulators. *)
Fixpoint fold_m {S A B} (body : A → B → M S B) (l : list A) (acc : B) : M S B :=
  match l with
  | [] => ret acc
  | x :: l' => bind (body x acc) (fold_m body l')
  end.
