(* ===== verification/PyDict.v ===== *)
(** * Python dictionaries

    A [dict] keeps its keys in insertion order, and the code under study depends
    on that order (the scheduler scans the registry in it, the UUT pool hands out
    the first idle unit). [pydict K V] is the list of its items, oldest first,
    with stdpp's map notations: [d !! k] is [d.get(k)], [<[k:=v]> d] is
    [d[k] = v] (an existing key keeps its place), [delete k d] is [del d[k]]. *)

From S2P Require Import Prelude.

Record pydict (K V : Type) : Type := PyDict { items : list (K * V) }.
Arguments PyDict {K V} _.
Arguments items {K V} _.

#[export] Instance pydict_eq_dec {K V} `{EqDecision K, EqDecision V} :
  EqDecision (pydict K V).
Proof. solve_decision. Defined.

Section operations.
Context {K V : Type} `{EqDecision K}.

Fixpoint assoc_get (k : K) (l : list (K * V)) : option V :=
  match l with
  | [] => None
  | (k', v) :: l' => if decide (k = k') then Some v else assoc_get k l'
  end.

Fixpoint assoc_set (k : K) (v : V) (l : list (K * V)) : list (K * V) :=
  match l with
  | [] => [(k, v)]
  | (k', v') :: l' =>
      if decide (k = k') then (k', v) :: l' else (k', v') :: assoc_set k v l'
  end.

#[export] Instance dict_lookup : Lookup K V (pydict K V) :=
  λ k d, assoc_get k (items d).
#[export] Instance dict_insert : Insert K V (pydict K V) :=
  λ k v d, PyDict (assoc_set k v (items d)).
#[export] Instance dict_delete : Delete K (pydict K V) :=
  λ k d, PyDict (base.filter (λ kv, kv.1 ≠ k) (items d)).
#[export] Instance dict_empty : Empty (pydict K V) := PyDict [].

(** [list(d.keys())], [list(d.values())], [k in d], [len(d)]. *)
Definition keys (d : pydict K V) : list K := (items d).*1.
Definition values (d : pydict K V) : list V := (items d).*2.
Definition has_key (k : K) (d : pydict K V) : bool := bool_decide (is_Some (d !! k)).
Definition dict_len (d : pydict K V) : nat := length (items d).

(** [d.get(k, default)] and [d.setdefault(k, v)]. *)
Definition get_default (k : K) (v : V) (d : pydict K V) : V := default v (d !! k).
Definition set_default (k : K) (v : V) (d : pydict K V) : pydict K V :=
  match d !! k with Some _ => d | None => <[k := v]> d end.

(** [d.update(d')]: the items of [d'] are assigned in order. *)
Definition dict_update (d d' : pydict K V) : pydict K V :=
  foldl (λ acc kv, <[kv.1 := kv.2]> acc) d (items d').

(** The invariant of the representation: no key occurs twice. *)
Definition dict_wf (d : pydict K V) : Prop := NoDup (keys d).
End operations.

#[global] Arguments get_default : simpl never.
#[global] Arguments set_default : simpl never.
#[global] Arguments has_key : simpl never.

(** [{k: f(v) for k, v in d.items()}] *)
Definition dict_map {K V W} (f : V → W) (d : pydict K V) : pydict K W :=
  PyDict (prod_map id f <$> items d).

Section laws.
Context {K V : Type} `{EqDecision K}.
  Implicit Types (d : pydict K V) (k : K) (v : V).

Lemma dict_ext d d' : items d = items d' → d = d'.
Proof. destruct d, d'. simpl. congruence. Qed.

Lemma dict_lookup_empty k : (∅ : pydict K V) !! k = None.
Proof. done. Qed.

Lemma dict_lookup_insert d k k' v :
  <[k := v]> d !! k' = if decide (k = k') then Some v else d !! k'.
Proof.
  destruct d as [l]. unfold lookup, insert, dict_lookup, dict_insert; simpl.
  induction l as [|[k1 v1] l IH]; simpl; [case_all; congruence|].
  repeat (case_decide; simpl); simplify_eq; rewrite ?IH;
    repeat case_decide; congruence.
Qed.

Lemma dict_lookup_insert_eq d k v : <[k := v]> d !! k = Some v.
Proof. rewrite dict_lookup_insert. by case_decide. Qed.

Lemma dict_lookup_insert_ne d k k' v : k ≠ k' → <[k := v]> d !! k' = d !! k'.
Proof. intros. rewrite dict_lookup_insert. by case_decide. Qed.

Lemma dict_lookup_delete d k k' :
  delete k d !! k' = if decide (k = k') then None else d !! k'.
Proof.
  destruct d as [l]. unfold lookup, delete, dict_lookup, dict_delete; simpl.
  induction l as [|[k1 v1] l IH]; simpl; [by case_decide|].
  rewrite filter_cons; simpl.
  repeat (case_decide; simpl); simplify_eq; rewrite ?IH;
    repeat case_decide; congruence.
Qed.

Lemma dict_lookup_delete_eq d k : delete k d !! k = None.
Proof. rewrite dict_lookup_delete. by case_decide. Qed.

Lemma dict_lookup_delete_ne d k k' : k ≠ k' → delete k d !! k' = d !! k'.
Proof. intros. rewrite dict_lookup_delete. by case_decide. Qed.

Lemma elem_of_keys d k : k ∈ keys d ↔ is_Some (d !! k).
Proof.
  destruct d as [l]. unfold keys, lookup, dict_lookup; simpl.
  induction l as [|[k1 v1] l IH]; simpl.
  - split; [by intros ?%elem_of_nil|by intros [? ?]].
  - rewrite elem_of_cons. case_decide; subst; [naive_solver|].
    rewrite IH. naive_solver.
Qed.

Lemma has_key_spec d k : has_key k d = true ↔ k ∈ keys d.
Proof. unfold has_key. by rewrite bool_decide_eq_true, elem_of_keys. Qed.

Lemma not_elem_of_keys d k : k ∉ keys d ↔ d !! k = None.
Proof. by rewrite elem_of_keys, eq_None_not_Some. Qed.

Lemma elem_of_items d k v : dict_wf d → (k, v) ∈ items d ↔ d !! k = Some v.
Proof.
  destruct d as [l]. unfold dict_wf, keys, lookup, dict_lookup; simpl.
  induction l as [|[k1 v1] l IH]; simpl; intros Hwf.
  - split; [by intros ?%elem_of_nil|done].
  - apply NoDup_cons in Hwf as [Hn Hwf].
    rewrite elem_of_cons, IH by done. case_decide as Hk; subst.
    + split; [|intros [= ->]; by left].
      intros [[= ->]|Hl]; [done|]. exfalso. apply Hn.
      apply IH in Hl; [|done]. apply list_elem_of_fmap. by exists (k1, v).
    + naive_solver.
Qed.

Lemma keys_insert_Some d k v : is_Some (d !! k) → keys (<[k := v]> d) = keys d.
Proof.
  destruct d as [l]. unfold keys, lookup, insert, dict_lookup, dict_insert; simpl.
  induction l as [|[k1 v1] l IH]; csimpl; [by intros [? ?]|].
  case_decide; csimpl; [done|]. intros. by rewrite IH.
Qed.

Lemma keys_insert_None d k v : d !! k = None → keys (<[k := v]> d) = keys d ++ [k].
Proof.
  destruct d as [l]. unfold keys, lookup, insert, dict_lookup, dict_insert; simpl.
  induction l as [|[k1 v1] l IH]; csimpl; [done|].
  case_decide; csimpl; [done|]. intros. by rewrite IH.
Qed.

Lemma keys_delete d k : keys (delete k d) = base.filter (λ k', k' ≠ k) (keys d).
Proof.
  destruct d as [l]. unfold keys, delete, dict_delete; simpl.
  induction l as [|[k1 v1] l IH]; csimpl; [done|].
  rewrite !filter_cons; simpl. case_decide; csimpl; by rewrite IH.
Qed.

Lemma dict_wf_empty : dict_wf (∅ : pydict K V).
Proof. apply NoDup_nil_2. Qed.

Lemma dict_wf_insert d k v : dict_wf d → dict_wf (<[k := v]> d).
Proof.
  unfold dict_wf. intros Hwf. destruct (d !! k) eqn:E.
  - by rewrite keys_insert_Some by eauto.
  - rewrite keys_insert_None by done. apply NoDup_app; split_and!; [done| |].
    + intros x Hx ->%list_elem_of_singleton. by apply not_elem_of_keys in E.
    + apply NoDup_singleton.
Qed.

Lemma dict_wf_delete d k : dict_wf d → dict_wf (delete k d).
Proof. unfold dict_wf. rewrite keys_delete. by apply NoDup_filter. Qed.

(** Reassigning the value a key already has changes nothing. *)
Lemma dict_insert_id d k v : d !! k = Some v → <[k := v]> d = d.
Proof.
  intros E. apply dict_ext. destruct d as [l].
  unfold lookup, insert, dict_lookup, dict_insert in *; simpl in *.
  induction l as [|[k1 v1] l IH]; simpl in *; [done|].
  case_decide; simplify_eq; [done|]. by rewrite IH.
Qed.

Lemma dict_insert_insert d k v w : <[k := v]> (<[k := w]> d) = <[k := v]> d.
Proof.
  apply dict_ext. destruct d as [l].
  unfold insert, dict_insert; simpl.
  induction l as [|[k1 v1] l IH]; simpl; [by rewrite decide_True|].
  case_decide; simpl; [by rewrite decide_True|]. rewrite decide_False by done.
  by rewrite IH.
Qed.

Lemma get_default_insert d k k' v w :
  get_default k' w (<[k := v]> d) = if decide (k = k') then v else get_default k' w d.
Proof. unfold get_default. rewrite dict_lookup_insert. by case_decide. Qed.

Lemma dict_lookup_set_default d k k' v :
  set_default k v d !! k' =
  if decide (k = k') then Some (get_default k v d) else d !! k'.
Proof.
  unfold set_default, get_default. destruct (d !! k) eqn:E; simpl.
  - case_decide; by subst.
  - by rewrite dict_lookup_insert.
Qed.

Lemma dict_wf_set_default d k v : dict_wf d → dict_wf (set_default k v d).
Proof. unfold set_default. case_match; auto using dict_wf_insert. Qed.

Lemma dict_wf_update d d' : dict_wf d → dict_wf (dict_update d d').
Proof.
  unfold dict_update. destruct d' as [l]; simpl. revert d.
  induction l as [|[k v] l IH]; simpl; auto using dict_wf_insert.
Qed.

Lemma dict_lookup_map {W} (f : V → W) d k : dict_map f d !! k = f <$> d !! k.
Proof.
  destruct d as [l]. unfold dict_map, lookup, dict_lookup; simpl.
  induction l as [|[k1 v1] l IH]; simpl; [done|]. by case_decide.
Qed.

Lemma keys_map {W} (f : V → W) d : keys (dict_map f d) = keys d.
Proof.
  unfold keys, dict_map; simpl. rewrite <- list_fmap_compose.
  by apply list_fmap_ext.
Qed.
End laws.

#[export] Hint Rewrite @dict_lookup_insert_eq @dict_lookup_delete_eq
  @dict_lookup_empty @dict_insert_insert : pydict.
#[export] Hint Rewrite @dict_lookup_insert_ne @dict_lookup_delete_ne
  using (congruence || done) : pydict.
#[export] Hint Resolve dict_wf_empty dict_wf_insert dict_wf_delete
  dict_wf_set_default dict_wf_update : ate.

(** Simplify lookups in updated dictionaries. *)
Ltac dict_simp := autorewrite with pydict in *; simplify_eq/=.

(** ** Building a dictionary from its items ([dict(pairs)] and comprehensions) *)

Definition dict_of_list {K V} `{EqDecision K} (l : list (K * V)) : pydict K V :=
  dict_update ∅ (PyDict l).

Section of_list.
Context {K V : Type} `{EqDecision K}.

Lemma dict_insert_fresh (d : pydict K V) k v :
  d !! k = None → items (<[k := v]> d) = items d ++ [(k, v)].
Proof.
  destruct d as [l]. unfold lookup, insert, dict_lookup, dict_insert; simpl.
  induction l as [|[k1 v1] l IH]; csimpl; [done|].
  case_decide; csimpl; [done|]. intros. by rewrite IH.
Qed.

Lemma dict_of_list_go (l : list (K * V)) (d : pydict K V) :
  NoDup (keys d ++ l.*1) → items (dict_update d (PyDict l)) = items d ++ l.
Proof.
  unfold dict_update; simpl.
  revert d. induction l as [|[k v] l IH]; intros d Hnd; csimpl in *.
  { by rewrite app_nil_r. }
  assert (d !! k = None) as Hk.
  { apply not_elem_of_keys. intros Hin. apply NoDup_app in Hnd as (_ & Hd & _).
    apply (Hd k Hin). left. }
  rewrite IH.
  - rewrite dict_insert_fresh by done. by rewrite <-(assoc (++)).
  - rewrite keys_insert_None by done. by rewrite <-(assoc (++)).
Qed.

(** Copying a well-formed dictionary item by item gives it back. *)
Lemma dict_of_items (d : pydict K V) : dict_wf d → dict_of_list (items d) = d.
Proof.
  intros Hwf. apply dict_ext. destruct d as [l]. apply dict_of_list_go. apply Hwf.
Qed.

Lemma dict_wf_of_list (l : list (K * V)) : dict_wf (dict_of_list l).
Proof. apply dict_wf_update, dict_wf_empty. Qed.
End of_list.

#[export] Hint Resolve dict_wf_of_list : ate.

(** ** Grouping

    [for x in l: add(x, d.setdefault(key(x), []))], where the key may be absent. *)
Definition group_by {A K V} `{EqDecision K} (key : A → option K) (add : A → list V → list V)
    (l : list A) : pydict K (list V) :=
  foldl (λ d x, match key x with
                | Some k => <[k := add x (default [] (d !! k))]> d
                | None => d
                end) ∅ l.

Section group_by.
Context {A K V : Type} `{EqDecision K} (key : A → option K) (add : A → list V → list V).

Lemma group_by_snoc l x :
  group_by key add (l ++ [x]) =
  match key x with
  | Some k => <[k := add x (default [] (group_by key add l !! k))]> (group_by key add l)
  | None => group_by key add l
  end.
Proof. unfold group_by. by rewrite foldl_app. Qed.

Lemma group_by_wf l : dict_wf (group_by key add l).
Proof.
  induction l as [|x l IH] using rev_ind; [apply dict_wf_empty|].
  rewrite group_by_snoc. destruct (key x); [by apply dict_wf_insert|done].
Qed.

(** A group holds what was added under its key, in order. *)
Lemma group_by_lookup l k :
  default [] (group_by key add l !! k) =
  foldl (λ acc x, add x acc) [] (base.filter (λ x, key x = Some k) l).
Proof.
  induction l as [|x l IH] using rev_ind; [done|].
  rewrite group_by_snoc, filter_app, foldl_app, <-IH, filter_cons, filter_nil.
  destruct (key x) as [k'|] eqn:E; [|by rewrite decide_False by done].
  rewrite dict_lookup_insert. case_decide; subst.
  - by rewrite decide_True.
  - by rewrite decide_False by congruence.
Qed.

(** What holds of the groups in the dictionary. *)
Lemma group_by_all (P : K → list V → Prop) l :
  (∀ k, P k []) →
  (∀ kv, kv ∈ items (group_by key add l) → P kv.1 kv.2) ↔
  ∀ k, P k (foldl (λ acc x, add x acc) [] (base.filter (λ x, key x = Some k) l)).
Proof.
  intros Hnil. setoid_rewrite <-group_by_lookup. split.
  - intros H k. destruct (group_by key add l !! k) as [v|] eqn:E; [|apply Hnil].
    apply (H (k, v)). apply elem_of_items; [apply group_by_wf|done].
  - intros H [k v] Hkv. apply elem_of_items in Hkv; [|apply group_by_wf].
    specialize (H k). by rewrite Hkv in H.
Qed.
End group_by.

(** No repetition: every value comes at most once. *)
Lemma NoDup_filter_length {A B} `{EqDecision B} (f : A → B) (l : list A) :
  NoDup (f <$> l) ↔ ∀ k, length (base.filter (λ x, Some (f x) = Some k) l) ≤ 1.
Proof.
  induction l as [|x l IH].
  - split; [intros _ k; cbn; lia|constructor].
  - rewrite fmap_cons, NoDup_cons, IH. split.
    + intros [Hx H] k. rewrite filter_cons. case_decide as Hk; [|done].
      injection Hk as <-. rewrite (proj2 (list_filter_empty _ _)); [cbn; lia|].
      intros y Hy [= Hk]. apply Hx. rewrite <-Hk. by apply list_elem_of_fmap_2.
    + intros H. split.
      * intros (y & Hy & Hin)%list_elem_of_fmap. specialize (H (f x)).
        rewrite filter_cons, decide_True in H by done. cbn in H.
        assert (y ∈ base.filter (λ x0, Some (f x0) = Some (f x)) l) as Hf
          by (apply list_elem_of_filter; split; [by rewrite Hy|done]).
        destruct (base.filter _ l); [by apply elem_of_nil in Hf|cbn in H; lia].
      * intros k. specialize (H k). rewrite filter_cons in H. case_decide; cbn in H; lia.
Qed.

(** [d[k]]; the key of the exception is its representation. *)
Definition d_get {S K V} `{EqDecision K} (repr : K → string) (d : pydict K V) (k : K) : M S V :=
  match d !! k with Some v => ret v | None => raise (KeyError (repr k)) end.

Section of_list_lookup.
Context {K V : Type} `{EqDecision K}.

Lemma dict_of_list_items (l : list (K * V)) : NoDup l.*1 → items (dict_of_list l) = l.
Proof. intros Hnd. unfold dict_of_list. by rewrite dict_of_list_go. Qed.
Lemma dict_of_list_keys (l : list (K * V)) : NoDup l.*1 → keys (dict_of_list l) = l.*1.
Proof. intros. unfold keys. by rewrite dict_of_list_items. Qed.
Lemma dict_of_list_lookup (l : list (K * V)) k v :
  NoDup l.*1 → dict_of_list l !! k = Some v ↔ (k, v) ∈ l.
Proof.
  intros Hnd. rewrite <-elem_of_items by apply dict_wf_of_list. by rewrite dict_of_list_items.
Qed.
Lemma dict_update_lookup_inv (l : list (K * V)) d k v :
  dict_update d (PyDict l) !! k = Some v → (k, v) ∈ l ∨ d !! k = Some v.
Proof.
  unfold dict_update. cbn [items]. revert d. induction l as [|[k' v'] l IH]; intros d; cbn [foldl].
  - by right.
  - intros [?|E]%IH; [left; by right|]. cbn [fst snd] in E. rewrite dict_lookup_insert in E.
    case_decide; simplify_eq; [left; left|by right].
Qed.
Lemma keys_of_list (l : list (K * V)) k :
  k ∈ keys (dict_of_list l) ↔ k ∈ l.*1.
Proof.
  unfold dict_of_list, dict_update. cbn [items].
  assert (∀ d : pydict K V, k ∈ keys (foldl (λ acc kv, <[kv.1:=kv.2]> acc) d l) ↔
    k ∈ keys d ∨ k ∈ l.*1) as H.
  { induction l as [|[k' v] l IH]; intros d; cbn [foldl].
    - rewrite fmap_nil, elem_of_nil. tauto.
    - rewrite IH, fmap_cons, elem_of_cons, !elem_of_keys, dict_lookup_insert. cbn [fst].
      case_decide as Hk; [subst; naive_solver|]. naive_solver. }
  rewrite H. unfold keys. cbn. rewrite elem_of_nil. tauto.
Qed.

Lemma dict_of_list_lookup_inv (l : list (K * V)) k v : dict_of_list l !! k = Some v → (k, v) ∈ l.
Proof. intros [?|?]%dict_update_lookup_inv; [done|]. by rewrite dict_lookup_empty in *. Qed.
End of_list_lookup.

(** Items filtered out of a list with distinct keys have distinct keys. *)
Lemma NoDup_omap_keys {A K V} (key : A → K) (g : A → option (K * V)) (l : list A) :
  (∀ x k v, g x = Some (k, v) → k = key x) → NoDup (key <$> l) → NoDup (omap g l).*1.
Proof.
  intros Hg. assert (Hin : ∀ l k, k ∈ (omap g l).*1 → k ∈ key <$> l).
  { clear l. intros l k ([k' v] & -> & (x & Hx & Hgx)%list_elem_of_omap)%list_elem_of_fmap.
    cbn. rewrite (Hg x k' v Hgx). by apply list_elem_of_fmap_2. }
  induction l as [|x l IH]; [constructor|]. rewrite fmap_cons. intros [Hn Hnd]%NoDup_cons.
  cbn [omap list_omap]. destruct (g x) as [[k v]|] eqn:Hx; [|by apply IH].
  rewrite fmap_cons. apply NoDup_cons. split; [|by apply IH]. cbn [fst].
  rewrite (Hg x k v Hx). intros H. by apply Hn, Hin.
Qed.
