(* ===== verification/PyStr.v ===== *)
(** * Python strings and values

    The string methods the modelled code calls ([split], [join], [strip],
    [startswith]) and [pyval], the values a test script may store in a variable:
    [str()], [repr()] and [bool()] follow CPython. A float is held by its
    [repr], which determines it; an object of any other class by its [str()].
    Characters are 8-bit: the code only inspects ASCII characters. *)

From Stdlib Require Export Ascii.
From Stdlib Require String.
From stdpp Require Export sorting.
From S2P Require Import Prelude.

(** ** String methods *)

Definition ascii_in (c lo hi : nat) : bool := (lo <=? c)%nat && (c <=? hi)%nat.
Definition is_digit (a : ascii) : bool := ascii_in (nat_of_ascii a) 48 57.
Definition is_alpha (a : ascii) : bool :=
  ascii_in (nat_of_ascii a) 65 90 || ascii_in (nat_of_ascii a) 97 122.
(** [str.isspace] on one ASCII character. *)
Definition is_space (a : ascii) : bool :=
  ascii_in (nat_of_ascii a) 9 13 || ascii_in (nat_of_ascii a) 28 32.

(** [s.split(c, n)] with the separator a single character. *)
Fixpoint split_max (c : ascii) (n : nat) (s : string) : list string :=
  match s with
  | EmptyString => [""]
  | String a s' =>
      match n with
      | O => [s]
      | S n' =>
          if Ascii.eqb a c then "" :: split_max c n' s'
          else match split_max c n s' with
               | h :: t => String a h :: t
               | [] => [String a ""]
               end
      end
  end.

(** [c.join(l)] *)
Fixpoint str_join (c : string) (l : list string) : string :=
  match l with
  | [] => ""
  | [s] => s
  | s :: l' => s +:+ c +:+ str_join c l'
  end.

(** [c not in s], for a character. *)
Fixpoint free_of (c : ascii) (s : string) : bool :=
  match s with
  | EmptyString => true
  | String a s' => negb (Ascii.eqb a c) && free_of c s'
  end.

Fixpoint lstrip (s : string) : string :=
  match s with
  | String a s' => if is_space a then lstrip s' else s
  | EmptyString => ""
  end.
Fixpoint rstrip (s : string) : string :=
  match s with
  | String a s' =>
      match rstrip s' with
      | EmptyString => if is_space a then "" else String a ""
      | r => String a r
      end
  | EmptyString => ""
  end.
(** [s.strip()] *)
Definition py_strip (s : string) : string := rstrip (lstrip s).

(** [not s or not s.strip()] *)
Definition is_blank (s : string) : bool :=
  bool_decide (s = "") || bool_decide (py_strip s = "").

(** [s.upper()] on ASCII. *)
Definition ascii_upper (a : ascii) : ascii :=
  if ascii_in (nat_of_ascii a) 97 122 then ascii_of_nat (nat_of_ascii a - 32) else a.
Fixpoint py_upper (s : string) : string :=
  match s with
  | EmptyString => ""
  | String a s' => String (ascii_upper a) (py_upper s')
  end.

(** [str.lower] on ASCII. *)
Definition ascii_lower (a : ascii) : ascii :=
  if ascii_in (nat_of_ascii a) 65 90 then ascii_of_nat (nat_of_ascii a + 32) else a.
Fixpoint py_lower (s : string) : string :=
  match s with EmptyString => "" | String a s' => String (ascii_lower a) (py_lower s') end.

Definition str_in (s : string) (l : list string) : bool := bool_decide (s ∈ l).

(** [bool(s)] of a string or None. *)
Definition truthy (s : option string) : bool :=
  match s with Some s => negb (bool_decide (s = "")) | None => false end.

(** [a in b] on strings. *)
Fixpoint str_contains (a b : string) : bool :=
  String.prefix a b || match b with EmptyString => false | String _ b' => str_contains a b' end.

(** [sorted(l)] on strings, by code point. *)
Definition py_sorted (l : list string) : list string := merge_sort String.le l.

Lemma py_sorted_perm l : py_sorted l ≡ₚ l.
Proof. apply merge_sort_Permutation. Qed.

Lemma elem_of_py_sorted x l : x ∈ py_sorted l ↔ x ∈ l.
Proof. by rewrite py_sorted_perm. Qed.

(** [sorted(l, key=...)] keeps equal keys in their order. *)
Section stable_sort.
Context {A : Type} (R : A → A → Prop) `{HR : !RelDecision R}.

Fixpoint insert_sorted (x : A) (l : list A) : list A :=
  match l with
  | [] => [x]
  | y :: l' => if decide (R x y) then x :: l else y :: insert_sorted x l'
  end.
Definition stable_sort (l : list A) : list A := foldr insert_sorted [] l.

Lemma insert_sorted_perm x l : insert_sorted x l ≡ₚ x :: l.
Proof. induction l as [|y l IH]; [done|]. cbn. case_decide; [done|]. rewrite IH. apply Permutation_swap. Qed.
Lemma stable_sort_perm l : stable_sort l ≡ₚ l.
Proof. induction l as [|x l IH]; [done|]. cbn. by rewrite insert_sorted_perm, IH. Qed.
Lemma elem_of_stable_sort x l : x ∈ stable_sort l ↔ x ∈ l.
Proof. by rewrite stable_sort_perm. Qed.

Lemma insert_sorted_ok `{!Transitive R, !Total R} x l : StronglySorted R l → StronglySorted R (insert_sorted x l).
Proof.
  induction 1 as [|y l Hl IH Hy]; cbn; [repeat constructor|]. case_decide as Hxy.
  - constructor; [by constructor|]. constructor; [done|]. eapply Forall_impl; [exact Hy|]. intros z. by transitivity y.
  - constructor; [done|]. destruct (total R x y) as [?|Hyx]; [done|]. rewrite insert_sorted_perm. by constructor.
Qed.
Lemma stable_sort_sorted `{!Transitive R, !Total R} l : StronglySorted R (stable_sort l).
Proof. induction l as [|x l IH]; [constructor|]. by apply insert_sorted_ok. Qed.
(** What is in order already stays as it is. *)
Lemma stable_sort_id l : StronglySorted R l → stable_sort l = l.
Proof.
  induction 1 as [|x l Hl IH Hx]; [done|]. change (stable_sort (x :: l)) with (insert_sorted x (stable_sort l)). rewrite IH. destruct l as [|y l]; [done|]. cbn.
  apply Forall_cons in Hx as [Hxy _]. by rewrite decide_True.
Qed.
End stable_sort.

(** ** Values *)

Inductive pyval : Type :=
  | PyNone
  | PyBool (b : bool)
  | PyInt (z : Z)
  | PyFloat (repr : string)
  | PyStr (s : string)
  | PyList (l : list pyval)
  | PyMap (l : list (pyval * pyval))
  | PyObj (str : string).

Definition is_none (v : pyval) : bool := match v with PyNone => true | _ => false end.

(** [bool(v)]; objects of other classes are true, as by default. *)
Definition py_bool (v : pyval) : bool :=
  match v with
  | PyNone => false
  | PyBool b => b
  | PyInt z => negb (z =? 0)%Z
  | PyFloat r => negb (str_in r ["0.0"; "-0.0"])
  | PyStr s => negb (bool_decide (s = ""))
  | PyList l => match l with [] => false | _ => true end
  | PyMap l => match l with [] => false | _ => true end
  | PyObj _ => true
  end.

(** [type(v).__name__]; values of other classes do not come out of YAML or JSON. *)
Definition type_name (v : pyval) : string :=
  match v with
  | PyNone => "NoneType" | PyBool _ => "bool" | PyInt _ => "int" | PyFloat _ => "float"
  | PyStr _ => "str" | PyList _ => "list" | PyMap _ => "dict" | PyObj _ => "object"
  end.

(** [for x in v], over a YAML value. *)
Definition py_iter (v : pyval) : res (list pyval) :=
  match v with
  | PyList l => Ok l
  | PyMap l => Ok l.*1
  | PyStr s => Ok ((λ a, PyStr (String a "")) <$> String.list_ascii_of_string s)
  | _ => Raise (TypeError ("'" +:+ type_name v +:+ "' object is not iterable"))
  end.

(** [v or w] *)
Definition py_or (v w : pyval) : pyval := if py_bool v then v else w.
Definition as_str (v : pyval) : option string := match v with PyStr s => Some s | _ => None end.

(** [d.get(k, default)] on a dict; its keys are distinct *)
Fixpoint map_get_default (k : string) (d : pyval) (l : list (pyval * pyval)) : pyval :=
  match l with
  | [] => d
  | (PyStr k', v) :: l' => if decide (k = k') then v else map_get_default k d l'
  | _ :: l' => map_get_default k d l'
  end.

Definition hex_digit (n : nat) : ascii :=
  ascii_of_nat (if (n <? 10)%nat then 48 + n else 87 + n).

(** [repr] of a string: the quote CPython picks, and its escapes. *)
Definition repr_char (q a : ascii) : string :=
  let n := nat_of_ascii a in
  if (n =? 92)%nat || Ascii.eqb a q then String (ascii_of_nat 92) (String a "")
  else if (n =? 10)%nat then "\n"
  else if (n =? 13)%nat then "\r"
  else if (n =? 9)%nat then "\t"
  else if (n <? 32)%nat || (n =? 127)%nat
       then "\x" +:+ String (hex_digit (n / 16)) (String (hex_digit (n mod 16)) "")
  else String a "".
Fixpoint repr_chars (q : ascii) (s : string) : string :=
  match s with
  | EmptyString => ""
  | String a s' => repr_char q a +:+ repr_chars q s'
  end.
Definition quote1 : ascii := ascii_of_nat 39.
Definition quote2 : ascii := ascii_of_nat 34.
Definition repr_str (s : string) : string :=
  let q := if negb (free_of quote1 s) && free_of quote2 s then quote2 else quote1 in
  String q (repr_chars q s +:+ String q "").

Fixpoint py_repr (v : pyval) : string :=
  match v with
  | PyNone => "None"
  | PyBool b => if b then "True" else "False"
  | PyInt z => pretty z
  | PyFloat r => r
  | PyStr s => repr_str s
  | PyList l => "[" +:+ str_join ", " (map py_repr l) +:+ "]"
  | PyMap l =>
      "{" +:+ str_join ", " (map (λ kv, py_repr kv.1 +:+ ": " +:+ py_repr kv.2) l) +:+ "}"
  | PyObj s => s
  end.

(** [str(v)] *)
Definition py_str (v : pyval) : string :=
  match v with PyStr s => s | _ => py_repr v end.

(** [str] of a list of strings, as an f-string prints it. *)
Definition repr_strs (l : list string) : string := py_repr (PyList (PyStr <$> l)).

Example py_str_list :
  py_str (PyList [PyInt (-3); PyStr "a\b"; PyNone; PyFloat "3.3"])
  = "[-3, 'a\\b', None, 3.3]".
Proof. vm_compute. reflexivity. Qed.

(** ** Splitting *)

Lemma str_app_nil_l (b : string) : "" +:+ b = b.
Proof. done. Qed.

Lemma str_app_cons x (a b : string) : String x a +:+ b = String x (a +:+ b).
Proof. done. Qed.

(** Simplify appends (stdpp keeps [+:+] from reducing). *)
Ltac str_simp := rewrite ?str_app_nil_l, ?str_app_cons in *; cbn [free_of] in *.

Lemma str_app_assoc (a b c : string) : (a +:+ b) +:+ c = a +:+ (b +:+ c).
Proof. induction a; str_simp; congruence. Qed.

Lemma str_app_nil_r (a : string) : a +:+ "" = a.
Proof. induction a; str_simp; congruence. Qed.

Lemma str_app_inj_l (a b c : string) : a +:+ b = a +:+ c → b = c.
Proof. induction a; str_simp; intros; simplify_eq; auto. Qed.

Lemma free_of_app c a b : free_of c (a +:+ b) = free_of c a && free_of c b.
Proof. induction a; str_simp; [done|]. rewrite IHa. by rewrite andb_assoc. Qed.

Lemma split_max_0 c s : split_max c 0 s = [s].
Proof. by destruct s. Qed.

Lemma split_max_free c n s : free_of c s = true → split_max c n s = [s].
Proof.
  intros Hf. destruct n; [apply split_max_0|].
  induction s as [|a s IH]; simpl in *; [done|].
  apply andb_true_iff in Hf as [Ha Hf]. apply negb_true_iff in Ha.
  by rewrite Ha, (IH Hf).
Qed.

Lemma split_max_app c n a b :
  free_of c a = true → split_max c (S n) (a +:+ String c b) = a :: split_max c n b.
Proof.
  induction a as [|x a IH]; str_simp; simpl; intros Hf.
  - by rewrite Ascii.eqb_refl.
  - apply andb_true_iff in Hf as [Ha Hf]. apply negb_true_iff in Ha.
    by rewrite Ha, (IH Hf).
Qed.

(** A string either misses the separator or is cut at its first occurrence. *)
Lemma split_first c s :
  free_of c s = true ∨ ∃ a b, s = a +:+ String c b ∧ free_of c a = true.
Proof.
  induction s as [|x s IH]; simpl; [by left|].
  destruct (Ascii.eqb x c) eqn:E.
  - apply Ascii.eqb_eq in E as ->. right. by exists "", s.
  - destruct IH as [Hf|(a & b & -> & Hf)]; [by left|].
    right. exists (String x a), b. str_simp. by rewrite E.
Qed.

Lemma split_max_1_inv c s a b :
  split_max c 1 s = [a; b] → s = a +:+ String c b ∧ free_of c a = true.
Proof.
  destruct (split_first c s) as [Hf|(a' & b' & -> & Hf)].
  - by rewrite split_max_free.
  - rewrite split_max_app, split_max_0 by done. intros; by simplify_eq.
Qed.

Lemma split_max_not_nil c n s : split_max c n s ≠ [].
Proof. destruct s, n; simpl; try done; repeat case_match; done. Qed.

(** [c.join(s.split(c, n)) == s] *)
Lemma join_split c n s : str_join (String c "") (split_max c n s) = s.
Proof.
  revert s. induction n as [|n IH]; intros s; [by rewrite split_max_0|].
  destruct (split_first c s) as [Hf|(a & b & -> & Hf)].
  - by rewrite split_max_free.
  - rewrite split_max_app by done.
    destruct (split_max c n b) as [|x l] eqn:E; [by apply split_max_not_nil in E|].
    specialize (IH b). rewrite E in IH. cbn [str_join] in *. rewrite IH. done.
Qed.

Lemma split_max_length c n s : length (split_max c n s) ≤ S n.
Proof.
  revert s. induction n as [|n IH]; intros s; [by rewrite split_max_0|].
  destruct (split_first c s) as [Hf|(a & b & -> & Hf)].
  - rewrite split_max_free by done. simpl; lia.
  - rewrite split_max_app by done. simpl. specialize (IH b). lia.
Qed.

(** Cutting at the first separator determines the two parts. *)
Lemma cut_inj c a b a' b' :
  free_of c a = true → free_of c a' = true →
  a +:+ String c b = a' +:+ String c b' → a = a' ∧ b = b'.
Proof.
  intros Hf Hf' E.
  assert (split_max c 1 (a +:+ String c b) = split_max c 1 (a' +:+ String c b'))
    as Hs by congruence.
  rewrite !split_max_app, !split_max_0 in Hs by done. by simplify_eq.
Qed.
