(* ===== verification/PyNum.v ===== *)
(** * Python numbers

    Floats are a parameter: their type, [float(v)], which may raise (TypeError, ValueError,
    OverflowError for an int beyond the floats), and comparison. So are the generators of
    [random].
    Comparison is partial, as for nan. *)

From S2P Require Import Prelude PyDict PyStr.

Class PyFloats : Type := {
  F : Type;
  py_float : pyval → res F;
  f_cmp : F → F → option comparison;
  py_int : pyval → res Z;   (* int(v) *)
  py_int_int z : py_int (PyInt z) = Ok z
}.

(** [random.Random(seed)] and [rng.random()]. *)
Class PyRandom `{PyFloats} : Type := {
  Rng : Type;
  seeded : pyval → Rng;
  random : Rng → F * Rng
}.

(** The comparison operators by their names; with nan only [!=] holds. *)
Section comparators.
Context `{PF : PyFloats}.

Definition f_eqb (x y : F) : bool := bool_decide (f_cmp x y = Some Eq).
Definition f_ltb (x y : F) : bool := bool_decide (f_cmp x y = Some Lt).
Definition f_gtb (x y : F) : bool := bool_decide (f_cmp x y = Some Gt).

Definition COMPARATORS : pydict string (F → F → bool) :=
  PyDict [("==", f_eqb); ("!=", λ x y, negb (f_eqb x y)); (">", f_gtb);
          (">=", λ x y, f_gtb x y || f_eqb x y); ("<", f_ltb);
          ("<=", λ x y, f_ltb x y || f_eqb x y)].
End comparators.

(** What [except (TypeError, ValueError)] catches; an OverflowError is neither. *)
Definition is_number_error (e : exc) : bool :=
  match e with TypeError _ | ValueError _ => true | _ => false end.

Lemma is_number_error_false e : is_number_error e = false ↔ ∀ m, e ≠ TypeError m ∧ e ≠ ValueError m.
Proof. destruct e; cbn; naive_solver. Qed.

(** A string that counts as true. *)
Definition true_str (v : pyval) : option string :=
  match v with PyStr s => if decide (s = "") then None else Some s | _ => None end.

(** Whole numbers as floats, for examples. *)
Definition whole_float (v : pyval) : res Z :=
  match v with
  | PyInt z => Ok z
  | PyBool b => Ok (if b then 1 else 0)%Z
  | PyStr _ | PyFloat _ => Raise (ValueError "could not convert string to float")
  | _ => Raise (TypeError "float() argument must be a string or a real number")
  end.
Definition whole_floats : PyFloats := {|
  F := Z; py_float := whole_float; f_cmp x y := Some (Z.compare x y); py_int := whole_float;
  py_int_int z := eq_refl
|}.
