(* ===== verification/Topology.v ===== *)
(** * Fixture topologies (src/src/shared/fixture_topology.py)

    Instruments, fixtures and devices under test, the links between their ports, and the
    wiring checks. The models are Pydantic's: [topology_wf] is what their field constraints
    guarantee of a value. Reading and writing YAML is left to the libraries. *)

From S2P Require Import Prelude PyDict PyStr PyNum.

Inductive InstrumentType : Type := PSU | DMM | ELOAD | OSCILLOSCOPE | GPIB_GATEWAY | TCP_DEVICE | CustomInstrument.
Inductive CommunicationType : Type := GPIB | TCP | SERIAL_PORT | USB | CustomCommunication.
Inductive ChannelType : Type := VOLTAGE | CURRENT | RESISTANCE | DIGITAL_IO | RF | THERMAL.
Inductive ChannelDirection : Type := INPUT | OUTPUT | BIDIRECTIONAL.
Inductive DeviceStatus : Type := DevOnline | DevOffline | DevBusy | DevFault | DevSimulated.
Inductive RelayType : Type := SPST | SPDT | DPDT | MATRIX.
Inductive ActuatorType : Type := CYLINDER | MOTOR | VALVE.
Inductive SensorType : Type := POSITION | TEMPERATURE | PRESSURE | PROXIMITY | OPTICAL.
Inductive FixtureStatus : Type := FixIdle | FixClamped | FixBusy | FixFault.
(** Of a device under test and of its test points. *)
Inductive DUTStatus : Type := DutIdle | DutTesting | DutPass | DutFail | DutSkip.
Inductive TestPointStatus : Type := TpIdle | TpMeasuring | TpPass | TpFail | TpSkip.
Inductive LinkSignalType : Type := SigPower | SigSignal | SigGround | SigRf | SigThermal | SigAir.
Inductive LinkStatus : Type := LinkIdle | LinkActive | LinkFault | LinkWarning.
Inductive LinkEndpointType : Type := INSTRUMENT_CHANNEL | FIXTURE_TERMINAL | DUT_TESTPOINT | RELAY_CONTACT.

#[export] Instance CommunicationType_eq_dec : EqDecision CommunicationType.
Proof. solve_decision. Defined.
#[export] Instance ChannelType_eq_dec : EqDecision ChannelType.
Proof. solve_decision. Defined.
#[export] Instance ChannelDirection_eq_dec : EqDecision ChannelDirection.
Proof. solve_decision. Defined.
#[export] Instance LinkSignalType_eq_dec : EqDecision LinkSignalType.
Proof. solve_decision. Defined.
#[export] Instance LinkEndpointType_eq_dec : EqDecision LinkEndpointType.
Proof. solve_decision. Defined.

Definition channel_type_value (t : ChannelType) : string :=
  match t with
  | VOLTAGE => "voltage" | CURRENT => "current" | RESISTANCE => "resistance"
  | DIGITAL_IO => "digital_io" | RF => "rf" | THERMAL => "thermal"
  end.
Definition signal_type_value (t : LinkSignalType) : string :=
  match t with
  | SigPower => "power" | SigSignal => "signal" | SigGround => "ground"
  | SigRf => "rf" | SigThermal => "thermal" | SigAir => "air"
  end.
(** [f"{t}"]: since Python 3.12 the class and the member. *)
Definition endpoint_type_str (t : LinkEndpointType) : string :=
  "LinkEndpointType." +:+
  match t with
  | INSTRUMENT_CHANNEL => "INSTRUMENT_CHANNEL" | FIXTURE_TERMINAL => "FIXTURE_TERMINAL"
  | DUT_TESTPOINT => "DUT_TESTPOINT" | RELAY_CONTACT => "RELAY_CONTACT"
  end.
Definition actuator_value (t : ActuatorType) : string :=
  match t with CYLINDER => "cylinder" | MOTOR => "motor" | VALVE => "valve" end.
Definition relay_value (t : RelayType) : string :=
  match t with SPST => "spst" | SPDT => "spdt" | DPDT => "dpdt" | MATRIX => "matrix" end.

(** ** Results *)

Inductive Level : Type := LError | LWarning.
Record ValidationIssue : Type := mkIssue {
  vi_level : Level; vi_code : string; vi_message : string; vi_path : string
}.
Record ValidationResult : Type := mkResult {
  vr_errors : list ValidationIssue; vr_warnings : list ValidationIssue
}.
Definition no_issues : ValidationResult := mkResult [] [].
Definition result_valid (r : ValidationResult) : bool := (length (vr_errors r) =? 0)%nat.
Definition summary (r : ValidationResult) : string :=
  pretty (length (vr_errors r)) +:+ " 错误, " +:+ pretty (length (vr_warnings r)) +:+ " 警告".

(** [_add], for the issues of one check in their order. *)
Definition add_issue (r : ValidationResult) (i : ValidationIssue) : ValidationResult :=
  match vi_level i with
  | LError => mkResult (vr_errors r ++ [i]) (vr_warnings r)
  | LWarning => mkResult (vr_errors r) (vr_warnings r ++ [i])
  end.
Definition add_issues (r : ValidationResult) (l : list ValidationIssue) : ValidationResult :=
  foldl add_issue r l.

(** ** Issues and levels *)

Definition at_level (lv : Level) (i : ValidationIssue) : Prop := vi_level i = lv.
#[export] Instance Level_eq_dec : EqDecision Level.
Proof. solve_decision. Defined.
#[export] Instance at_level_dec lv i : Decision (at_level lv i).
Proof. unfold at_level. apply _. Defined.

Lemma add_issues_spec r l :
  add_issues r l = mkResult (vr_errors r ++ base.filter (at_level LError) l)
                            (vr_warnings r ++ base.filter (at_level LWarning) l).
Proof.
  revert r. induction l as [|i l IH]; intros r.
  - cbn. rewrite !app_nil_r. by destruct r.
  - cbn [add_issues foldl]. unfold add_issues in IH. rewrite IH, !filter_cons.
    unfold at_level, add_issue. destruct i as [[] c m p];
      cbn [vi_level vr_errors vr_warnings]; repeat case_decide; try done;
      by rewrite <-(assoc (++)).
Qed.

(** A check all of whose issues have the level [s]. *)
Definition all_at (s : Level) (l : list ValidationIssue) : Prop := ∀ i, i ∈ l → at_level s i.

Lemma all_at_bind {A} s (f : A → list ValidationIssue) l :
  (∀ x, all_at s (f x)) → all_at s (l ≫= f).
Proof. intros H i (x & Hi & _)%list_elem_of_bind. by eapply H. Qed.
Lemma all_at_app s l k : all_at s l → all_at s k → all_at s (l ++ k).
Proof. intros H1 H2 i [?|?]%elem_of_app; auto. Qed.
Lemma all_at_nil s : all_at s [].
Proof. by intros i ?%elem_of_nil. Qed.
Lemma all_at_one s i : vi_level i = s → all_at s [i].
Proof. by intros H j ->%list_elem_of_singleton. Qed.

Ltac at_level :=
  repeat first
    [ apply all_at_nil | by apply all_at_one
    | apply all_at_bind; intros ? | apply all_at_app | case_match | case_decide ].

Lemma filter_all_at s l : all_at s l → base.filter (at_level s) l = l.
Proof.
  intros H. induction l as [|i l IH]; [done|]. rewrite filter_cons, decide_True.
  - f_equal. apply IH. intros j Hj. apply H. by right.
  - apply H. left.
Qed.
Lemma filter_other_level s s' l : s ≠ s' → all_at s l → base.filter (at_level s') l = [].
Proof.
  intros Hs H. apply list_filter_empty. intros i Hi Hi'. apply H in Hi. unfold at_level in *.
  congruence.
Qed.

Lemma truthy_spec o : truthy o = true ↔ ∃ x, o = Some x ∧ x ≠ "".
Proof.
  destruct o as [x|]; cbn [truthy]; [|naive_solver].
  rewrite negb_true_iff, bool_decide_eq_false. naive_solver.
Qed.

Section topology.
Context `{PF : PyFloats} (float_str : F → string).

(** ** The models *)

Record CommunicationConfig : Type := mkComm {
  cc_type : CommunicationType;
  cc_address : option string;
  cc_port : option Z;
  cc_config : pydict string pyval
}.
Record Channel : Type := mkChannel {
  ch_id : string; ch_name : string; ch_type : ChannelType; ch_direction : ChannelDirection;
  ch_specs : pydict string pyval; ch_status : string
}.
Record Instrument : Type := mkInstrument {
  in_id : string; in_name : string; in_type : InstrumentType; in_model : string;
  in_manufacturer : string; in_communication : CommunicationConfig; in_channels : list Channel;
  in_status : DeviceStatus; in_position : pydict string F; in_simulation_profile : option string
}.
Record Relay : Type := mkRelay {
  re_id : string; re_type : RelayType; re_control_signal : string;
  re_contacts : pydict string (option string); re_closed : bool
}.
Inductive ControlMethod : Type := ByGpio | ByModbus | ByTcp.
Inductive ActuatorState : Type := ActIdle | ActMoving | ActActive.
Record Actuator : Type := mkActuator {
  ac_id : string; ac_type : ActuatorType; ac_control_method : ControlMethod; ac_state : ActuatorState
}.
Record Sensor : Type := mkSensor {
  se_id : string; se_type : SensorType; se_unit : string; se_value : option F;
  se_range : option (pydict string F)
}.
Record Terminal : Type := mkTerminal {
  te_id : string; te_name : string; te_type : ChannelType; te_direction : ChannelDirection;
  te_specs : pydict string pyval
}.
Record Fixture : Type := mkFixture {
  fx_id : string; fx_name : string; fx_version : string; fx_terminals : list Terminal;
  fx_relays : list Relay; fx_sensors : list Sensor; fx_actuators : list Actuator;
  fx_status : FixtureStatus; fx_dut_slot_count : Z; fx_position : pydict string F
}.
Record TestPoint : Type := mkTestPoint {
  tp_id : string; tp_net : string; tp_type : ChannelType; tp_expected_range : option (pydict string F);
  tp_measured_value : option F; tp_status : TestPointStatus
}.
Record PowerPin : Type := mkPowerPin {
  pp_id : string; pp_net : string; pp_voltage : option F; pp_max_current : option F
}.
Record DUT : Type := mkDUT {
  du_id : string; du_product_model : string; du_serial_number : option string;
  du_test_points : list TestPoint; du_power_pins : list PowerPin; du_uut_index : Z; du_slot_index : Z;
  du_status : DUTStatus; du_measurements : pydict string pyval
}.
Record LinkEndpoint : Type := mkEndpoint {
  ep_entity_type : LinkEndpointType; ep_entity_id : string; ep_port_id : string
}.
Inductive FaultType : Type :=
  | OPEN_CIRCUIT | SHORT_CIRCUIT | OVER_VOLTAGE | OVER_CURRENT | COMMUNICATION
  | MEASUREMENT_OUT_OF_RANGE | RELAY_FAULT.
Inductive Severity : Type := SevWarning | SevError | SevCritical.
Record FaultInfo : Type := mkFault {
  ft_type : FaultType; ft_severity : Severity; ft_message : string; ft_detected_at : F;
  ft_detected_by : string; ft_suggestion : option string
}.
Record Link : Type := mkLink {
  li_id : string; li_from : LinkEndpoint; li_to : LinkEndpoint; li_signal_type : LinkSignalType;
  li_wire_gauge : option string; li_max_current : option F; li_route_id : option string;
  li_status : LinkStatus; li_fault_info : option FaultInfo
}.
Record Route : Type := mkRoute {
  ro_id : string; ro_name : string; ro_links : list string; ro_relays : list string;
  ro_active : bool; ro_associated_step : option string
}.
(** Creation and update times are not kept. *)
Record FixtureTopology : Type := mkTopology {
  ft_id : string; ft_name : string; ft_version : string; ft_product_model : string;
  ft_instruments : list Instrument; ft_fixtures : list Fixture; ft_duts : list DUT;
  ft_links : list Link; ft_routes : list Route; ft_tags : list string
}.

(** ** Ports *)

(** What an endpoint resolves to, the [channel] of [_resolve_endpoint]'s answer. *)
Inductive Port : Type := PChannel (c : Channel) | PTerminal (t : Terminal) | PTestPoint (t : TestPoint).

(** The relay contacts have no branch. *)
Definition resolve_endpoint (topo : FixtureTopology) (ep : LinkEndpoint) : option Port :=
  match ep_entity_type ep with
  | INSTRUMENT_CHANNEL =>
      head (i ← base.filter (λ i, in_id i = ep_entity_id ep) (ft_instruments topo);
            PChannel <$> base.filter (λ c, ch_id c = ep_port_id ep) (in_channels i))
  | FIXTURE_TERMINAL =>
      head (f ← base.filter (λ f, fx_id f = ep_entity_id ep) (ft_fixtures topo);
            PTerminal <$> base.filter (λ t, te_id t = ep_port_id ep) (fx_terminals f))
  | DUT_TESTPOINT =>
      head (d ← base.filter (λ d, du_id d = ep_entity_id ep) (ft_duts topo);
            PTestPoint <$> base.filter (λ t, tp_id t = ep_port_id ep) (du_test_points d))
  | RELAY_CONTACT => None
  end.

Definition signal_type_of (p : Port) : ChannelType :=
  match p with PChannel c => ch_type c | PTerminal t => te_type t | PTestPoint t => tp_type t end.
Definition direction_of (p : Port) : option ChannelDirection :=
  match p with
  | PChannel c => Some (ch_direction c)
  | PTerminal t => Some (te_direction t)
  | PTestPoint _ => None
  end.
Definition is_output_port (p : Port) : bool :=
  match direction_of p with Some (OUTPUT | BIDIRECTIONAL) => true | _ => false end.
Definition is_input_port (p : Port) : bool :=
  match direction_of p with None | Some (INPUT | BIDIRECTIONAL) => true | _ => false end.

(** [specs["max_current"]] or else [specs["rated_current"]], when a number. *)
Definition is_number (v : pyval) : bool :=
  match v with PyInt _ | PyBool _ | PyFloat _ => true | _ => false end.
Definition port_specs (p : Port) : pydict string pyval :=
  match p with PChannel c => ch_specs c | PTerminal t => te_specs t | PTestPoint _ => ∅ end.
Definition channel_rated_current (p : Port) : res (option F) :=
  match base.filter is_number (omap (λ k, port_specs p !! k) ["max_current"; "rated_current"]) with
  | v :: _ => f ← py_float v; Ok (Some f)
  | [] => Ok None
  end.

Definition SIGNAL_TYPE_COMPAT (t : LinkSignalType) : list ChannelType :=
  match t with
  | SigPower => [VOLTAGE; CURRENT]
  | SigSignal => [VOLTAGE; CURRENT; RESISTANCE; DIGITAL_IO]
  | SigGround => [VOLTAGE]
  | SigRf => [RF]
  | SigThermal => [THERMAL]
  | SigAir => []
  end.

(** ** The checks

    Each is the list of the issues it adds, in their order. *)
Section checks.
Context (strictness : Level) (topo : FixtureTopology).

Definition port_name (ep : LinkEndpoint) : string := ep_entity_id ep +:+ "." +:+ ep_port_id ep.
Definition link_issue (code : string) (l : Link) (msg : string) : ValidationIssue :=
  mkIssue strictness code msg ("link:" +:+ li_id l).

Definition check_port_type_match : list ValidationIssue :=
  link ← ft_links topo;
  let compatible := SIGNAL_TYPE_COMPAT (li_signal_type link) in
  let sig := signal_type_value (li_signal_type link) in
  match resolve_endpoint topo (li_from link), resolve_endpoint topo (li_to link) with
  | Some src, Some dst =>
      (if decide (signal_type_of src ∈ compatible) then [] else
        [link_issue "port_type" link
           ("Link " +:+ li_id link +:+ ": 起点 " +:+ port_name (li_from link) +:+ " 类型 " +:+
            channel_type_value (signal_type_of src) +:+ " 与连线信号类型 " +:+ sig +:+ " 不匹配")]) ++
      (if decide (signal_type_of dst ∈ compatible) then [] else
        [link_issue "port_type" link
           ("Link " +:+ li_id link +:+ ": 终点 " +:+ port_name (li_to link) +:+ " 类型 " +:+
            channel_type_value (signal_type_of dst) +:+ " 与连线信号类型 " +:+ sig +:+ " 不匹配")])
  | _, _ => []
  end.

Definition unresolved (link : Link) (side : string) (ep : LinkEndpoint) : ValidationIssue :=
  link_issue "direction" link
    ("Link " +:+ li_id link +:+ ": " +:+ side +:+ "端点无法解析 (" +:+
     endpoint_type_str (ep_entity_type ep) +:+ ":" +:+ port_name ep +:+ ")").

Definition check_signal_direction : list ValidationIssue :=
  link ← ft_links topo;
  match resolve_endpoint topo (li_from link), resolve_endpoint topo (li_to link) with
  | None, _ => [unresolved link "起点" (li_from link)]
  | Some _, None => [unresolved link "终点" (li_to link)]
  | Some src, Some dst =>
      (if is_output_port src then [] else
        [link_issue "direction" link
           ("Link " +:+ li_id link +:+ ": 起点 " +:+ port_name (li_from link) +:+ " 不是输出端口")]) ++
      (if is_input_port dst then [] else
        [link_issue "direction" link
           ("Link " +:+ li_id link +:+ ": 终点 " +:+ port_name (li_to link) +:+ " 不是输入端口")])
  end.

Definition endpoint_key (ep : LinkEndpoint) : string * string := (ep_entity_id ep, ep_port_id ep).

Definition target_counts : pydict (string * string) (list string) :=
  group_by (λ link, Some (endpoint_key (li_to link))) (λ link ids, ids ++ [li_id link])
    (ft_links topo).

Definition check_short_circuit_conflict : list ValidationIssue :=
  '((entity, port), link_ids) ← items target_counts;
  if (1 <? length link_ids)%nat then
    [mkIssue strictness "channel_conflict"
       ("端口 " +:+ entity +:+ "." +:+ port +:+ " 被多条连线连接（短路风险）: " +:+
        str_join ", " link_ids)
       ("port:" +:+ entity +:+ "." +:+ port)]
  else [].

Definition check_ground_integrity : list ValidationIssue :=
  match base.filter (λ l, li_signal_type l = SigPower) (ft_links topo) with
  | [] => []
  | _ :: _ =>
      match base.filter (λ l, li_signal_type l = SigGround) (ft_links topo) with
      | [] =>
          [mkIssue LWarning "ground_integrity"
             "存在电源连线但无地线连接，电源回路接地完整性缺失" "topology"]
      | _ :: _ => []
      end
  end.

(** The sets list their elements in the order they came. *)
Definition set_add {A} `{EqDecision A} (x : A) (l : list A) : list A :=
  if decide (x ∈ l) then l else l ++ [x].

Definition probe_channel (link : Link) : option (string * string) :=
  if decide (ep_entity_type (li_from link) = INSTRUMENT_CHANNEL ∧
             ep_entity_type (li_to link) = DUT_TESTPOINT)
  then Some (endpoint_key (li_from link)) else None.
Definition channel_targets : pydict (string * string) (list (string * string)) :=
  group_by probe_channel (λ link, set_add (endpoint_key (li_to link))) (ft_links topo).

(** [sorted] on pairs of strings. *)
Definition pair_le (x y : string * string) : Prop :=
  if decide (x.1 = y.1) then String.le x.2 y.2 else String.le x.1 y.1.
#[export] Instance pair_le_dec : RelDecision pair_le.
Proof. intros x y. unfold pair_le. destruct (decide _); apply _. Defined.
Definition sort_pairs (l : list (string * string)) : list (string * string) :=
  merge_sort pair_le l.

Definition has_matrix (key : string * string) : bool :=
  existsb (λ link, bool_decide (endpoint_key (li_from link) = key) && truthy (li_route_id link))
    (ft_links topo).

Definition check_channel_occupancy : list ValidationIssue :=
  '(key, targets) ← items channel_targets;
  if (1 <? length targets)%nat && negb (has_matrix key) then
    [mkIssue strictness "channel_occupancy"
       ("仪器通道 " +:+ key.1 +:+ "." +:+ key.2 +:+
        " 同时接多个 DUT 测试点且无矩阵开关隔离: " +:+
        str_join ", " ((λ t, t.1 +:+ "." +:+ t.2) <$> sort_pairs targets))
       ("channel:" +:+ key.1 +:+ "." +:+ key.2)]
  else [].

(** [{r.id: r for r in topo.routes}] and the set of the relays' ids. *)
Definition routes : pydict string Route :=
  foldl (λ d r, <[ro_id r := r]> d) ∅ (ft_routes topo).
Definition all_relay_ids : list string := f ← ft_fixtures topo; re_id <$> fx_relays f.

Definition check_route_reachable : list ValidationIssue :=
  (route ← ft_routes topo;
   relay_id ← ro_relays route;
   if decide (relay_id ∈ all_relay_ids) then [] else
     [mkIssue strictness "route_reachable"
        ("路由 " +:+ ro_name route +:+ " 引用的继电器 " +:+ relay_id +:+ " 在拓扑中不存在")
        ("route:" +:+ ro_id route)]) ++
  (link ← ft_links topo;
   if negb (truthy (li_route_id link)) then [] else
   let id := default "" (li_route_id link) in
   match routes !! id with
   | None =>
       [link_issue "route_reachable" link
          ("Link " +:+ li_id link +:+ " 声明路由 " +:+ id +:+ " 但拓扑中不存在该路由")]
   | Some declared_route =>
       if decide (li_id link ∈ ro_links declared_route) then [] else
       [link_issue "route_reachable" link
          ("Link " +:+ li_id link +:+ " 声明的路由 " +:+ ro_name declared_route +:+
           " 未包含该连线")]
   end).

(** The control method is one of three non-empty strings. *)
Definition control_method_value (m : ControlMethod) : string :=
  match m with ByGpio => "gpio" | ByModbus => "modbus" | ByTcp => "tcp" end.

Definition check_fixture_control : list ValidationIssue :=
  fixture ← ft_fixtures topo;
  (relay ← fx_relays fixture;
   if decide (re_control_signal relay = "") then
     [mkIssue strictness "fixture_control"
        ("夹具 " +:+ fx_id fixture +:+ " 继电器 " +:+ re_id relay +:+
         " 缺少控制信号 (control_signal)")
        ("fixture:" +:+ fx_id fixture +:+ ".relay:" +:+ re_id relay)]
   else []) ++
  (actuator ← fx_actuators fixture;
   if decide (control_method_value (ac_control_method actuator) = "") then
     [mkIssue strictness "fixture_control"
        ("夹具 " +:+ fx_id fixture +:+ " 执行器 " +:+ ac_id actuator +:+
         " 缺少控制方式 (controlMethod)")
        ("fixture:" +:+ fx_id fixture +:+ ".actuator:" +:+ ac_id actuator)]
   else []).

Definition connected_points : list (string * string) :=
  endpoint_key ∘ li_to <$>
    base.filter (λ l, ep_entity_type (li_to l) = DUT_TESTPOINT) (ft_links topo).

Definition check_dut_coverage : list ValidationIssue :=
  dut ← ft_duts topo;
  tp ← du_test_points dut;
  if bool_decide (is_Some (tp_expected_range tp)) &&
     negb (bool_decide ((du_id dut, tp_id tp) ∈ connected_points)) then
    [mkIssue LWarning "dut_coverage"
       ("DUT " +:+ du_id dut +:+ " 规格测试点 " +:+ tp_id tp +:+ " (net=" +:+ tp_net tp +:+
        ") 未接线")
       ("dut:" +:+ du_id dut +:+ ".testpoint:" +:+ tp_id tp)]
  else [].

(** A rated current too large for a float raises. *)
Definition check_power_link (link : Link) : res (list ValidationIssue) :=
  match decide (li_signal_type link = SigPower), li_max_current link,
        resolve_endpoint topo (li_from link) with
  | left _, Some max_current, Some src =>
      rated ← channel_rated_current src;
      match rated with
      | Some rated =>
          if f_gtb max_current rated then
            Ok [mkIssue LWarning "power_capacity"
                  ("Link " +:+ li_id link +:+ " 载流 " +:+ float_str max_current +:+
                   "A 超过通道 " +:+ port_name (li_from link) +:+ " 额定 " +:+
                   float_str rated +:+ "A")
                  ("link:" +:+ li_id link)]
          else Ok []
      | None => Ok []
      end
  | _, _, _ => Ok []
  end.
Definition check_power_capacity : res (list ValidationIssue) :=
  issues ← mapM check_power_link (ft_links topo); Ok (concat issues).

(** The addresses seen so far, and the issues. *)
Definition check_gpib_instrument (st : pydict string string * list ValidationIssue)
    (inst : Instrument) : pydict string string * list ValidationIssue :=
  let comm := in_communication inst in
  if bool_decide (cc_type comm = GPIB) && truthy (cc_address comm) then
    let addr := default "" (cc_address comm) in
    match st.1 !! addr with
    | Some other =>
        (st.1, st.2 ++
          [mkIssue strictness "gpib_conflict"
             ("仪器 " +:+ in_id inst +:+ " 与 " +:+ other +:+ " GPIB 地址冲突: " +:+ addr)
             ("instrument:" +:+ in_id inst)])
    | None => (<[addr := in_id inst]> st.1, st.2)
    end
  else st.
Definition check_gpib_conflict : list ValidationIssue :=
  (foldl check_gpib_instrument (∅, []) (ft_instruments topo)).2.

Definition validate_topology : res ValidationResult :=
  power ← check_power_capacity;
  Ok (add_issues no_issues
        (check_port_type_match ++ check_signal_direction ++ check_short_circuit_conflict ++
         check_ground_integrity ++ check_channel_occupancy ++ check_route_reachable ++
         check_fixture_control ++ check_dut_coverage ++ power ++ check_gpib_conflict)).
End checks.

(** ** What Pydantic guarantees of a topology *)

Definition nonempty (s : string) : Prop := s ≠ "".

Record topology_wf (topo : FixtureTopology) : Prop := {
  wf_name : nonempty (ft_name topo);
  wf_instruments i : i ∈ ft_instruments topo →
    nonempty (in_id i) ∧ ∀ c, c ∈ in_channels i → nonempty (ch_id c);
  wf_fixtures f : f ∈ ft_fixtures topo →
    nonempty (fx_id f) ∧ (1 ≤ fx_dut_slot_count f)%Z ∧
    (∀ t, t ∈ fx_terminals f → nonempty (te_id t)) ∧
    (∀ r, r ∈ fx_relays f → nonempty (re_id r) ∧ nonempty (re_control_signal r)) ∧
    (∀ x, x ∈ fx_sensors f → nonempty (se_id x)) ∧
    (∀ a, a ∈ fx_actuators f → nonempty (ac_id a));
  wf_duts d : d ∈ ft_duts topo →
    nonempty (du_id d) ∧ nonempty (du_product_model d) ∧
    (∀ t, t ∈ du_test_points d → nonempty (tp_id t) ∧ nonempty (tp_net t)) ∧
    (∀ p, p ∈ du_power_pins d → nonempty (pp_id p) ∧ nonempty (pp_net p));
  wf_links l : l ∈ ft_links topo →
    nonempty (li_id l) ∧ nonempty (ep_entity_id (li_from l)) ∧ nonempty (ep_port_id (li_from l)) ∧
    nonempty (ep_entity_id (li_to l)) ∧ nonempty (ep_port_id (li_to l));
  wf_routes r : r ∈ ft_routes topo → nonempty (ro_id r)
}.

(** ** The contract: sound wiring *)

Definition link_sound (topo : FixtureTopology) (l : Link) : Prop :=
  ∃ src dst, resolve_endpoint topo (li_from l) = Some src ∧
    resolve_endpoint topo (li_to l) = Some dst ∧
    is_output_port src = true ∧ is_input_port dst = true ∧
    signal_type_of src ∈ SIGNAL_TYPE_COMPAT (li_signal_type l) ∧
    signal_type_of dst ∈ SIGNAL_TYPE_COMPAT (li_signal_type l).

Definition is_probe (l : Link) : Prop :=
  ep_entity_type (li_from l) = INSTRUMENT_CHANNEL ∧ ep_entity_type (li_to l) = DUT_TESTPOINT.

Definition gpib_address (i : Instrument) : option string :=
  let comm := in_communication i in
  if bool_decide (cc_type comm = GPIB) && truthy (cc_address comm) then cc_address comm else None.

Record wiring_sound (topo : FixtureTopology) : Prop := {
  ws_links l : l ∈ ft_links topo → link_sound topo l;
  ws_inputs : NoDup (endpoint_key ∘ li_to <$> ft_links topo);
  ws_channels l l' : l ∈ ft_links topo → l' ∈ ft_links topo → is_probe l → is_probe l' →
    endpoint_key (li_from l) = endpoint_key (li_from l') →
    endpoint_key (li_to l) ≠ endpoint_key (li_to l') →
    ∃ sw, sw ∈ ft_links topo ∧ endpoint_key (li_from sw) = endpoint_key (li_from l) ∧
      truthy (li_route_id sw) = true;
  ws_relays r i : r ∈ ft_routes topo → i ∈ ro_relays r → i ∈ all_relay_ids topo;
  ws_routes l i : l ∈ ft_links topo → li_route_id l = Some i → i ≠ "" →
    ∃ r, routes topo !! i = Some r ∧ li_id l ∈ ro_links r;
  ws_gpib : NoDup (omap gpib_address (ft_instruments topo))
}.

(** Issues added at the strictness, and the ones that are warnings at any. *)
Definition strict_checks (s : Level) (topo : FixtureTopology) : list ValidationIssue :=
  check_port_type_match s topo ++ check_signal_direction s topo ++
  check_short_circuit_conflict s topo ++ check_channel_occupancy s topo ++
  check_route_reachable s topo ++ check_fixture_control s topo ++ check_gpib_conflict s topo.

Lemma strict_checks_level s topo : all_at s (strict_checks s topo).
Proof.
  unfold strict_checks.
  apply all_at_app; [unfold check_port_type_match; at_level|].
  apply all_at_app; [unfold check_signal_direction; at_level|].
  apply all_at_app; [unfold check_short_circuit_conflict; at_level|].
  apply all_at_app; [unfold check_channel_occupancy; at_level|].
  apply all_at_app; [unfold check_route_reachable; at_level|].
  apply all_at_app; [unfold check_fixture_control; at_level|].
  unfold check_gpib_conflict.
  generalize (∅ : pydict string string). generalize (all_at_nil s).
  generalize (@nil ValidationIssue). induction (ft_instruments topo) as [|i l IH];
    intros k Hk d; [done|]. cbn [foldl].
  destruct (check_gpib_instrument s (d, k) i) as [d' k'] eqn:E. apply IH.
  unfold check_gpib_instrument in E. cbn in E. repeat case_match; simplify_eq; try done.
  apply all_at_app; [done|]. by apply all_at_one.
Qed.

Definition advice (topo : FixtureTopology) (power : list ValidationIssue) : list ValidationIssue :=
  check_ground_integrity topo ++ check_dut_coverage topo ++ power.

Lemma advice_level topo power :
  check_power_capacity topo = Ok power → all_at LWarning (advice topo power).
Proof.
  intros Hp. unfold advice. apply all_at_app; [unfold check_ground_integrity; at_level|].
  apply all_at_app; [unfold check_dut_coverage; at_level|].
  unfold check_power_capacity in Hp. apply res_bind_Ok in Hp as (ls & Hls & [= <-]).
  apply res_mapM_Ok in Hls.
  intros i (l & Hl & Hi)%list_elem_of_In%in_concat.
  apply list_elem_of_In, list_elem_of_lookup in Hl as [n Hn].
  destruct (Forall2_lookup_r _ _ _ _ _ Hls Hn) as (link & _ & E).
  apply list_elem_of_In in Hi. revert i Hi. fold (all_at LWarning l).
  unfold check_power_link in E. repeat case_match; simplify_eq; try apply all_at_nil.
  apply res_bind_Ok in E as (rated & _ & E). repeat case_match; simplify_eq; at_level.
Qed.

(** All the issues, but for the order of the checks, and the two lists they go to. *)
Lemma validate_issues s topo r :
  validate_topology s topo = Ok r →
  ∃ power issues, check_power_capacity topo = Ok power ∧
    issues ≡ₚ strict_checks s topo ++ advice topo power ∧
    vr_errors r = base.filter (at_level LError) issues ∧
    vr_warnings r = base.filter (at_level LWarning) issues.
Proof.
  intros (power & Hp & [= <-])%res_bind_Ok. rewrite add_issues_spec.
  eexists power, _. split_and!; [done| |reflexivity|reflexivity].
  unfold strict_checks, advice. solve_Permutation.
Qed.

Lemma valid_iff_strict topo r :
  validate_topology LError topo = Ok r →
  result_valid r = true ↔ strict_checks LError topo = [].
Proof.
  intros (power & issues & Hp & Hperm & He & _)%validate_issues.
  unfold result_valid. rewrite Nat.eqb_eq, He, Hperm, filter_app.
  rewrite (filter_all_at LError) by apply strict_checks_level.
  rewrite (filter_other_level LWarning) by (done || by apply advice_level).
  rewrite app_nil_r. split; [apply nil_length_inv|by intros ->].
Qed.

Lemma link_checks_empty s topo :
  check_port_type_match s topo = [] ∧ check_signal_direction s topo = [] ↔
  ∀ l, l ∈ ft_links topo → link_sound topo l.
Proof.
  unfold check_port_type_match, check_signal_direction. rewrite !list_bind_empty. split.
  - intros [Ht Hd] l Hl. specialize (Ht l Hl). specialize (Hd l Hl). cbn zeta in Ht, Hd.
    unfold link_sound. repeat case_match; try done. simplify_list_eq. eauto 10.
  - intros H. split; intros l Hl; destruct (H l Hl) as (src & dst & E1 & E2 & Ho & Hi & Hs & Hd);
      rewrite E1, E2, ?Ho, ?Hi; [|done]. by rewrite !decide_True.
Qed.

Lemma conflict_empty s topo :
  check_short_circuit_conflict s topo = [] ↔ NoDup (endpoint_key ∘ li_to <$> ft_links topo).
Proof.
  rewrite NoDup_filter_length. unfold check_short_circuit_conflict. rewrite list_bind_empty.
  transitivity (∀ kv, kv ∈ items (target_counts topo) → length kv.2 ≤ 1).
  - split; intros H [[e p] ids] Hkv; specialize (H _ Hkv); cbv beta iota in *; cbn [snd] in *.
    + destruct (Nat.ltb_spec 1 (length ids)); [done|lia].
    + by destruct (Nat.ltb_spec 1 (length ids)); [lia|].
  - unfold target_counts. rewrite (group_by_all _ _ (λ _ ids, length ids ≤ 1)) by (cbn; lia).
    setoid_rewrite foldl_append. setoid_rewrite length_app. setoid_rewrite length_fmap. done.
Qed.

(** The targets of a channel: at most one unless two links reach different points. *)
Lemma elem_of_set_add {A} `{EqDecision A} (x y : A) l : x ∈ set_add y l ↔ x = y ∨ x ∈ l.
Proof.
  unfold set_add. case_decide; [naive_solver|]. rewrite elem_of_app, list_elem_of_singleton. tauto.
Qed.
Lemma NoDup_set_add {A} `{EqDecision A} (y : A) l : NoDup l → NoDup (set_add y l).
Proof.
  unfold set_add. case_decide as Hy; [done|]. intros H. apply NoDup_app; split_and!; [done| |].
  - by intros x Hx ->%list_elem_of_singleton.
  - apply NoDup_singleton.
Qed.
Lemma foldl_set_add {A B} `{EqDecision B} (f : A → B) (l : list A) (acc : list B) :
  NoDup acc →
  NoDup (foldl (λ acc x, set_add (f x) acc) acc l) ∧
  ∀ y, y ∈ foldl (λ acc x, set_add (f x) acc) acc l ↔ y ∈ acc ∨ y ∈ f <$> l.
Proof.
  revert acc. induction l as [|x l IH]; intros acc Hacc; cbn [foldl].
  - split; [done|]. intros y. rewrite fmap_nil, elem_of_nil. tauto.
  - destruct (IH (set_add (f x) acc)) as [H1 H2]; [by apply NoDup_set_add|].
    split; [done|]. intros y. rewrite H2, elem_of_set_add, fmap_cons, elem_of_cons. tauto.
Qed.

Lemma NoDup_length_1 {A} (l : list A) :
  NoDup l → length l ≤ 1 ↔ ∀ x y, x ∈ l → y ∈ l → x = y.
Proof.
  intros Hnd. destruct l as [|x [|y l]]; cbn.
  - split; [by intros _ x y ?%elem_of_nil|lia].
  - split; [by intros _ y z ->%list_elem_of_singleton ->%list_elem_of_singleton|lia].
  - split; [lia|]. intros H. exfalso. apply NoDup_cons in Hnd as [Hn _]. apply Hn.
    rewrite (H x y); [left|left|right; left].
Qed.

Lemma has_matrix_spec topo key :
  has_matrix topo key = true ↔
  ∃ sw, sw ∈ ft_links topo ∧ endpoint_key (li_from sw) = key ∧ truthy (li_route_id sw) = true.
Proof.
  unfold has_matrix. rewrite existsb_exists.
  setoid_rewrite andb_true_iff. setoid_rewrite bool_decide_eq_true.
  by setoid_rewrite <-list_elem_of_In.
Qed.

Lemma probe_channel_spec l key :
  probe_channel l = Some key ↔ is_probe l ∧ endpoint_key (li_from l) = key.
Proof. unfold probe_channel, is_probe. case_decide; naive_solver. Qed.

Lemma occupancy_empty s topo :
  check_channel_occupancy s topo = [] ↔
  ∀ l l', l ∈ ft_links topo → l' ∈ ft_links topo → is_probe l → is_probe l' →
    endpoint_key (li_from l) = endpoint_key (li_from l') →
    endpoint_key (li_to l) ≠ endpoint_key (li_to l') →
    ∃ sw, sw ∈ ft_links topo ∧ endpoint_key (li_from sw) = endpoint_key (li_from l) ∧
      truthy (li_route_id sw) = true.
Proof.
  unfold check_channel_occupancy. rewrite list_bind_empty.
  transitivity (∀ kv, kv ∈ items (channel_targets topo) →
    has_matrix topo kv.1 = true ∨ length kv.2 ≤ 1).
  { split; intros H [k ts] Hkv; specialize (H _ Hkv); cbv beta iota in *; cbn [fst snd] in *;
      destruct (Nat.ltb_spec 1 (length ts)), (has_matrix topo k); naive_solver lia. }
  unfold channel_targets.
  rewrite (group_by_all _ _ (λ k ts, has_matrix topo k = true ∨ length ts ≤ 1)) by (cbn; lia).
  split.
  - intros H l l' Hl Hl' Hp Hp' Hfrom Hto. apply has_matrix_spec.
    destruct (H (endpoint_key (li_from l))) as [|Hlen]; [done|]. exfalso. apply Hto.
    destruct (foldl_set_add (λ l, endpoint_key (li_to l))
      (base.filter (λ x, probe_channel x = Some (endpoint_key (li_from l))) (ft_links topo)) [])
      as [Hnd Hin]; [constructor|].
    apply (NoDup_length_1 _ Hnd); [done| |]; apply Hin; right;
      apply (list_elem_of_fmap_2 (λ l, endpoint_key (li_to l))), list_elem_of_filter;
      (split; [by apply probe_channel_spec|done]).
  - intros H k.
    destruct (foldl_set_add (λ l, endpoint_key (li_to l))
      (base.filter (λ x, probe_channel x = Some k) (ft_links topo)) []) as [Hnd Hin];
      [constructor|].
    destruct (has_matrix topo k) eqn:Hm; [by left|right].
    apply (NoDup_length_1 _ Hnd). intros x y Hx Hy.
    apply Hin in Hx as [?%elem_of_nil|(l & -> & [[Hp Hf]%probe_channel_spec Hl]%list_elem_of_filter)%list_elem_of_fmap]; [done|].
    apply Hin in Hy as [?%elem_of_nil|(l' & -> & [[Hp' Hf']%probe_channel_spec Hl']%list_elem_of_filter)%list_elem_of_fmap]; [done|].
    destruct (decide (endpoint_key (li_to l) = endpoint_key (li_to l'))) as [|Hne]; [done|].
    destruct (H l l') as (sw & Hsw); [done..|congruence|done|].
    rewrite Hf in Hsw. apply not_true_iff_false in Hm. destruct Hm. apply has_matrix_spec. eauto.
Qed.

Lemma route_empty s topo :
  check_route_reachable s topo = [] ↔
  (∀ r i, r ∈ ft_routes topo → i ∈ ro_relays r → i ∈ all_relay_ids topo) ∧
  ∀ l i, l ∈ ft_links topo → li_route_id l = Some i → i ≠ "" →
    ∃ r, routes topo !! i = Some r ∧ li_id l ∈ ro_links r.
Proof.
  unfold check_route_reachable. split.
  - intros [Hr Hl]%app_nil. rewrite list_bind_empty in Hr. rewrite list_bind_empty in Hl. split.
    + intros r i Hin Hi. specialize (Hr r Hin). rewrite list_bind_empty in Hr.
      specialize (Hr i Hi). by case_decide.
    + intros l i Hin Hi Hne. specialize (Hl l Hin). rewrite Hi in Hl.
      assert (truthy (Some i) = true) as Ht by (apply truthy_spec; eauto).
      rewrite Ht in Hl. cbn [negb default id] in Hl.
      destruct (routes topo !! i) as [r|]; [|done]. exists r. split; [done|].
      by case_decide.
  - intros [Hr Hl]. apply app_nil. rewrite !list_bind_empty. split.
    + intros r Hin. apply list_bind_empty. intros i Hi. by rewrite decide_True by eauto.
    + intros l Hin. destruct (truthy (li_route_id l)) eqn:Ht; [|done].
      apply truthy_spec in Ht as (i & Hi & Hne). rewrite Hi. cbn [negb default id].
      destruct (Hl l i Hin Hi Hne) as (r & -> & ?). by rewrite decide_True.
Qed.

(** Pydantic already refuses a relay without a control signal. *)
Lemma fixture_control_empty s topo : topology_wf topo → check_fixture_control s topo = [].
Proof.
  intros Hwf. apply list_bind_empty. intros f Hf.
  destruct (wf_fixtures _ Hwf f Hf) as (_ & _ & _ & Hr & _).
  apply app_nil. rewrite !list_bind_empty. split.
  - intros r Hin. rewrite decide_False; [done|]. by apply Hr.
  - intros a _. by destruct (ac_control_method a).
Qed.

Lemma gpib_step s st i :
  match gpib_address i with
  | Some a =>
      match st.1 !! a with
      | Some _ => ∃ issue, check_gpib_instrument s st i = (st.1, st.2 ++ [issue])
      | None => check_gpib_instrument s st i = (<[a := in_id i]> st.1, st.2)
      end
  | None => check_gpib_instrument s st i = st
  end.
Proof.
  unfold gpib_address, check_gpib_instrument. destruct (bool_decide _ && truthy _) eqn:Hc; [|done].
  apply andb_true_iff in Hc as [_ (a & Ha & _)%truthy_spec]. rewrite Ha. cbn [default id].
  destruct (st.1 !! a); eauto.
Qed.

(** The addresses seen and the issues of the instruments so far. *)
Lemma gpib_fold s l d k :
  (foldl (check_gpib_instrument s) (d, k) l).2 = [] ↔
  k = [] ∧ NoDup (omap gpib_address l) ∧ ∀ a, a ∈ omap gpib_address l → d !! a = None.
Proof.
  revert d k. induction l as [|i l IH]; intros d k; cbn [foldl].
  - cbn. split; [intros ->|tauto]. split_and!; [done|constructor|by intros a ?%elem_of_nil].
  - change (omap gpib_address (i :: l)) with
      (match gpib_address i with
       | Some a => a :: omap gpib_address l
       | None => omap gpib_address l
       end).
    generalize (gpib_step s (d, k) i). destruct (gpib_address i) as [a|]; [|by intros ->].
    cbn [fst snd].
    rewrite NoDup_cons. setoid_rewrite elem_of_cons.
    destruct (d !! a) as [other|] eqn:Hd; [intros [issue ->]|intros ->]; rewrite IH.
    + split; [by intros [[_ ?]%app_nil _]|]. intros (_ & _ & H). rewrite H in Hd; [done|by left].
    + split.
      * intros (-> & Hnd & H). split_and!; [done| |done|].
        { intros Hin. apply H in Hin. by rewrite dict_lookup_insert_eq in Hin. }
        intros b [->|Hb]; [done|]. apply H in Hb. rewrite dict_lookup_insert in Hb.
        by case_decide.
      * intros (-> & [Hn Hnd] & H). split_and!; [done|done|].
        intros b Hb. rewrite dict_lookup_insert_ne by (intros ->; done). apply H. by right.
Qed.

Lemma gpib_empty s topo :
  check_gpib_conflict s topo = [] ↔ NoDup (omap gpib_address (ft_instruments topo)).
Proof. unfold check_gpib_conflict. rewrite gpib_fold. naive_solver. Qed.

Lemma strict_checks_sound topo :
  topology_wf topo → strict_checks LError topo = [] ↔ wiring_sound topo.
Proof.
  intros Hwf. unfold strict_checks. rewrite fixture_control_empty by done. split.
  - intros [Ht [Hd [Hc [Ho [Hr [_ Hg]%app_nil]%app_nil]%app_nil]%app_nil]%app_nil]%app_nil.
    apply route_empty in Hr as [Hr1 Hr2]. split; [|by eapply conflict_empty| | | |].
    + by apply (link_checks_empty LError).
    + by eapply occupancy_empty.
    + done.
    + done.
    + by eapply gpib_empty.
  - intros [Hl Hi Hch Hr1 Hr2 Hg].
    destruct (proj2 (link_checks_empty LError topo) Hl) as [-> ->].
    rewrite (proj2 (conflict_empty _ _)), (proj2 (occupancy_empty _ _)),
      (proj2 (route_empty _ _)), (proj2 (gpib_empty _ _)) by done. done.
Qed.

(** C26. A topology passes validation exactly when its wiring is sound: every link
    goes from an output to an input and carries what both ports take, no input has two
    links, a channel probing several points goes through a matrix, the routes exist and the
    GPIB addresses are distinct. *)
Theorem topology_valid_iff topo r :
  topology_wf topo → validate_topology LError topo = Ok r →
  result_valid r = true ↔ wiring_sound topo.
Proof. intros Hwf Hr. rewrite (valid_iff_strict topo r Hr). by apply strict_checks_sound. Qed.

(** Issues at another level. *)
Definition relevel (s : Level) (i : ValidationIssue) : ValidationIssue :=
  mkIssue s (vi_code i) (vi_message i) (vi_path i).

Lemma relevel_bind {A} s (f g : A → list ValidationIssue) l :
  (∀ x, relevel s <$> f x = g x) → relevel s <$> (l ≫= f) = l ≫= g.
Proof.
  intros H. induction l as [|x l IH]; [done|].
  change ((x :: l) ≫= f) with (f x ++ (l ≫= f)). by rewrite fmap_app, H, IH.
Qed.

Ltac relevel :=
  repeat first
    [ reflexivity | apply relevel_bind; intros ? | rewrite fmap_app; f_equal
    | case_match | case_decide ].

Lemma strict_checks_relevel s s' topo :
  relevel s <$> strict_checks s' topo = strict_checks s topo.
Proof.
  unfold strict_checks. rewrite !fmap_app. repeat f_equal.
  - unfold check_port_type_match. relevel.
  - unfold check_signal_direction. relevel.
  - unfold check_short_circuit_conflict. relevel.
  - unfold check_channel_occupancy. relevel.
  - unfold check_route_reachable. relevel.
  - unfold check_fixture_control. relevel.
  - unfold check_gpib_conflict.
    enough (H : ∀ l d k, relevel s <$> (foldl (check_gpib_instrument s') (d, k) l).2 =
      (foldl (check_gpib_instrument s) (d, relevel s <$> k) l).2) by apply H.
    induction l as [|i l IH]; intros d k; [done|]. cbn [foldl].
    unfold check_gpib_instrument at 2 4. cbn [fst snd].
    destruct (_ && _); [|apply IH].
    destruct (d !! _); rewrite IH; [|done]. by rewrite fmap_app.
Qed.

(** Strictness "warning" only moves the issues: it never finds an error, and
    its warnings are the errors and warnings of the strict validator. *)
Theorem lenient_only_relevels topo r r' :
  validate_topology LError topo = Ok r → validate_topology LWarning topo = Ok r' →
  vr_errors r' = [] ∧
  vr_warnings r' ≡ₚ (relevel LWarning <$> vr_errors r) ++ vr_warnings r.
Proof.
  intros (p & k & Hp & Hperm & -> & ->)%validate_issues.
  intros (p' & k' & Hp' & Hperm' & -> & ->)%validate_issues.
  assert (p' = p) as -> by congruence. pose proof (advice_level topo p Hp) as Ha.
  pose proof (strict_checks_level LError topo) as He.
  pose proof (strict_checks_level LWarning topo) as Hw. split.
  - apply Permutation_nil. rewrite Hperm', filter_app.
    by rewrite !(filter_other_level LWarning).
  - rewrite Hperm, Hperm', !filter_app, fmap_app.
    rewrite !filter_all_at, (filter_other_level LWarning LError), (filter_other_level LError)
      by done.
    by rewrite strict_checks_relevel, app_nil_r.
Qed.

(** A link to a relay contact, or one that carries air, makes the topology
    invalid whatever its ports: contacts never resolve, and no port type suits air. *)
Theorem unwirable_links topo l r :
  l ∈ ft_links topo →
  ep_entity_type (li_to l) = RELAY_CONTACT ∨ ep_entity_type (li_from l) = RELAY_CONTACT ∨
    li_signal_type l = SigAir →
  validate_topology LError topo = Ok r → result_valid r = false.
Proof.
  intros Hl Hbad Hr. apply not_true_iff_false. rewrite (valid_iff_strict topo r Hr).
  intros [Ht [Hd _]%app_nil]%app_nil.
  destruct (proj1 (link_checks_empty _ _) (conj Ht Hd) l Hl)
    as (src & dst & E1 & E2 & _ & _ & Hs & _).
  unfold resolve_endpoint in E1, E2.
  destruct Hbad as [H|[H|H]]; rewrite H in *; [done..|]. by apply elem_of_nil in Hs.
Qed.
End topology.

(** ** A bench *)

#[local] Existing Instance whole_floats.

Definition bench_channel (id : string) : Channel :=
  mkChannel id "" VOLTAGE OUTPUT (PyDict [("max_current", PyInt 5)]) "idle".
Definition bench_psu : Instrument :=
  mkInstrument "PSU" "" PSU "" "" (mkComm GPIB (Some "GPIB0::5") None ∅)
    [bench_channel "CH1"; bench_channel "GND"] DevOnline ∅ None.
Definition bench_relay : Relay := mkRelay "K1" SPST "GPIO1" ∅ false.
Definition bench_fixture : Fixture :=
  mkFixture "FX" "" "1.0" [] [bench_relay] [] [mkActuator "CYL" CYLINDER ByGpio ActIdle] FixIdle 1 ∅.
Definition bench_point (id : string) : TestPoint := mkTestPoint id "net" VOLTAGE None None TpIdle.
Definition bench_dut : DUT :=
  mkDUT "UUT1" "board" None [bench_point "TP1"; bench_point "TP2"] [] 0 0 DutIdle ∅.
Definition bench_link (id ch tp : string) (t : LinkSignalType) : Link :=
  mkLink id (mkEndpoint INSTRUMENT_CHANNEL "PSU" ch) (mkEndpoint DUT_TESTPOINT "UUT1" tp) t
    None (Some 3%Z) None LinkIdle None.
Definition bench (links : list Link) : FixtureTopology :=
  mkTopology "T" "bench" "1.0" "" [bench_psu] [bench_fixture] [bench_dut] links [] [].
Definition bench_links : list Link :=
  [bench_link "L1" "CH1" "TP1" SigPower; bench_link "L2" "GND" "TP2" SigGround].
Definition relay_link : Link :=
  mkLink "L3" (mkEndpoint INSTRUMENT_CHANNEL "PSU" "CH1") (mkEndpoint RELAY_CONTACT "K1" "no")
    SigPower None None None LinkIdle None.
Definition no_float_str (f : F) : string := "".

Ltac each_elem :=
  repeat match goal with
  | |- ∀ _, _ => intro
  | H : _ ∈ _ :: _ |- _ => apply elem_of_cons in H as [->|H]
  | H : _ ∈ [] |- _ => by apply elem_of_nil in H
  end.

Lemma bench_wf links :
  (∀ l, l ∈ links → nonempty (li_id l) ∧
    nonempty (ep_entity_id (li_from l)) ∧ nonempty (ep_port_id (li_from l)) ∧
    nonempty (ep_entity_id (li_to l)) ∧ nonempty (ep_port_id (li_to l))) →
  topology_wf (bench links).
Proof.
  intros Hl. split; [done|..]; cbn [ft_instruments ft_fixtures ft_duts ft_links ft_routes bench];
    [| | |exact Hl|]; each_elem; cbn; split_and?; each_elem; done.
Qed.

Definition bench_result (links : list Link) : ValidationResult :=
  match validate_topology no_float_str LError (bench links) with Ok r => r | Raise _ => no_issues end.

Example bench_valid : result_valid (bench_result bench_links) = true.
Proof. vm_compute. reflexivity. Qed.
Example bench_miswired :
  summary (bench_result [bench_link "L1" "CH1" "TP1" SigPower; bench_link "L2" "CH1" "TP2" SigRf]) =
  "3 错误, 1 警告".
Proof. vm_compute. reflexivity. Qed.

Lemma topology_valid_iff_witness : wiring_sound (bench bench_links).
Proof.
  apply (topology_valid_iff no_float_str (bench bench_links) (bench_result bench_links)).
  - apply bench_wf. intros l Hl. unfold bench_links in Hl. each_elem; cbn; split_and?; done.
  - vm_compute. reflexivity.
  - vm_compute. reflexivity.
Defined.

Lemma lenient_only_relevels_witness :
  vr_errors (match validate_topology no_float_str LWarning (bench [relay_link]) with
             | Ok r => r | Raise _ => no_issues end) = [].
Proof.
  refine (proj1 (lenient_only_relevels no_float_str (bench [relay_link]) (bench_result [relay_link])
    _ _ _)); vm_compute; reflexivity.
Defined.

Lemma unwirable_links_witness : result_valid (bench_result [relay_link]) = false.
Proof.
  apply (unwirable_links no_float_str (bench [relay_link]) relay_link).
  - left.
  - by left.
  - vm_compute. reflexivity.
Defined.
