(* ===== verification/CpModel.v ===== *)
(** * Constraint models for OR-Tools' CP-SAT

    The scheduling code builds models call by call and hands them to the solver, a library.
    A model is the list of its calls; [holds] is the documented meaning of each, [CpSolver]
    what the solver promises of its answers. [builds] is a logic for code that builds models:
    what every solution of the model says of the variables it returns. *)

From S2P Require Import Prelude PyDict.

(** ** Variables, expressions, constraints *)

Definition var := nat.
Definition assignment := var → Z.

Inductive lexpr : Type :=
  | Const (z : Z)
  | Var (v : var)
  | Plus (a b : lexpr)
  | Times (c : Z) (a : lexpr).

Fixpoint leval (σ : assignment) (e : lexpr) : Z :=
  match e with
  | Const z => z
  | Var v => σ v
  | Plus a b => leval σ a + leval σ b
  | Times c a => c * leval σ a
  end.

(** [sum(...)] of a comprehension. *)
Definition lsum (es : list lexpr) : lexpr := foldl Plus (Const 0) es.

(** [b] and [b.Not()] *)
Record lit : Type := mkLit { lit_var : var; lit_pos : bool }.
Definition pos_lit (v : var) : lit := mkLit v true.
Definition neg_lit (v : var) : lit := mkLit v false.
Definition lit_true (σ : assignment) (l : lit) : bool :=
  Bool.eqb (lit_pos l) (negb (σ (lit_var l) =? 0)%Z).

Inductive cmp : Type := CLe | CGe | CEq | CNe | CGt.
Definition cmp_holds (op : cmp) (a b : Z) : bool :=
  match op with
  | CLe => a <=? b | CGe => b <=? a | CEq => a =? b | CNe => negb (a =? b) | CGt => b <? a
  end%Z.

Record interval : Type := mkInterval {
  iv_start : lexpr; iv_size : lexpr; iv_end : lexpr; iv_presence : option lit
}.

Inductive constraint : Type :=
  | Linear (a : lexpr) (op : cmp) (b : lexpr) (only_if : list lit)
  | AnInterval (iv : interval)
  | ExactlyOne (ls : list lit)
  | BoolAnd (ls : list lit) (only_if : list lit)
  | BoolOr (ls : list lit) (only_if : list lit)
  | AllDifferent (vs : list var)
  | Cumulative (ivs : list interval) (demands : list Z) (capacity : Z).

(** ** Their meaning *)

Section meaning.
Context (σ : assignment).

Definition present (iv : interval) : bool :=
  match iv_presence iv with Some l => lit_true σ l | None => true end.

(** An interval covers its start and not its end. *)
Definition active (t : Z) (iv : interval) : bool :=
  present iv && (leval σ (iv_start iv) <=? t)%Z && (t <? leval σ (iv_end iv))%Z.

Fixpoint load (t : Z) (ivs : list interval) (demands : list Z) : Z :=
  match ivs, demands with
  | iv :: ivs', d :: demands' => (if active t iv then d else 0) + load t ivs' demands'
  | _, _ => 0
  end.

Definition count_true (ls : list lit) : nat := length (base.filter (λ l, lit_true σ l = true) ls).

(** A cumulative constraint bounds the load everywhere; the starts are enough
    ([cumulative_everywhere]). *)
Definition holds (c : constraint) : bool :=
  match c with
  | Linear a op b only_if =>
      implb (forallb (lit_true σ) only_if) (cmp_holds op (leval σ a) (leval σ b))
  | AnInterval iv =>
      implb (present iv) (leval σ (iv_start iv) + leval σ (iv_size iv) =? leval σ (iv_end iv))%Z
  | ExactlyOne ls => (count_true ls =? 1)%nat
  | BoolAnd ls only_if => implb (forallb (lit_true σ) only_if) (forallb (lit_true σ) ls)
  | BoolOr ls only_if => implb (forallb (lit_true σ) only_if) (existsb (lit_true σ) ls)
  | AllDifferent vs => bool_decide (NoDup (σ <$> vs))
  | Cumulative ivs demands capacity =>
      (0 <=? capacity)%Z &&
      forallb (λ iv, load (leval σ (iv_start iv)) ivs demands <=? capacity)%Z ivs
  end.
End meaning.

Record cp_model : Type := mkModel {
  cm_domains : list (Z * Z);          (* of the variables, in the order they were made *)
  cm_constraints : list constraint;
  cm_objective : option lexpr         (* to minimise *)
}.
Definition empty_model : cp_model := mkModel [] [] None.

Fixpoint in_domains (σ : assignment) (v : var) (ds : list (Z * Z)) : bool :=
  match ds with
  | [] => true
  | (lo, hi) :: ds' => (lo <=? σ v)%Z && (σ v <=? hi)%Z && in_domains σ (S v) ds'
  end.
Definition satisfies (m : cp_model) (σ : assignment) : bool :=
  in_domains σ 0 (cm_domains m) && forallb (holds σ) (cm_constraints m).

(** ** The calls *)

Definition new_int_var (lo hi : Z) : M cp_model var := λ m,
  (Ok (length (cm_domains m)),
   mkModel (cm_domains m ++ [(lo, hi)]) (cm_constraints m) (cm_objective m)).
Definition new_bool_var : M cp_model var := new_int_var 0 1.
Definition add (c : constraint) : M cp_model unit :=
  modify (λ m, mkModel (cm_domains m) (cm_constraints m ++ [c]) (cm_objective m)).
Definition minimize (e : lexpr) : M cp_model unit :=
  modify (λ m, mkModel (cm_domains m) (cm_constraints m) (Some e)).
Definition new_interval (s d e : lexpr) (p : option lit) : M cp_model interval :=
  let iv := mkInterval s d e p in add (AnInterval iv) ;;; ret iv.

(** ** The solver *)

Inductive status : Type := OPTIMAL | FEASIBLE | INFEASIBLE | UNKNOWN | MODEL_INVALID.
#[export] Instance status_eq_dec : EqDecision status.
Proof. solve_decision. Defined.

Definition optimal_or_feasible (s : status) : bool :=
  match s with OPTIMAL | FEASIBLE => true | _ => false end.

Definition objective_value (m : cp_model) (σ : assignment) : Z :=
  match cm_objective m with Some e => leval σ e | None => 0 end.

(** [Solve] and [Value]. Its answers are solutions, its optima are optimal, and
    "infeasible" means that there is none; it may give up (UNKNOWN). The number tells the
    calls of one computation apart: the time limit makes their answers differ. *)
Class CpSolver : Type := {
  solve : nat → cp_model → status * assignment;
  solve_sound n m s σ :
    solve n m = (s, σ) → optimal_or_feasible s = true → satisfies m σ = true;
  solve_optimal n m σ σ' :
    solve n m = (OPTIMAL, σ) → satisfies m σ' = true →
    (objective_value m σ <= objective_value m σ')%Z;
  solve_infeasible n m σ σ' :
    solve n m = (INFEASIBLE, σ) → satisfies m σ' = false
}.

(** A solver that knows one answer, for examples. *)
#[refine] Definition knowing (σ : assignment) : CpSolver := {|
  solve _ m := if satisfies m σ then (FEASIBLE, σ) else (UNKNOWN, σ)
|}.
Proof.
  - intros _ m s τ. destruct (satisfies m σ) eqn:E; intros [= <- <-]; [done|discriminate].
  - intros _ m τ τ'. by destruct (satisfies m σ).
  - intros _ m τ τ'. by destruct (satisfies m σ).
Defined.

(** ** What a builder guarantees of the solutions *)

Definition extends (m m' : cp_model) : Prop :=
  ∃ ds cs, cm_domains m' = cm_domains m ++ ds ∧ cm_constraints m' = cm_constraints m ++ cs.

#[export] Instance extends_preorder : PreOrder extends.
Proof.
  split.
  - intros m. exists [], []. by rewrite !app_nil_r.
  - intros m1 m2 m3 (d1 & c1 & E1 & E2) (d2 & c2 & E3 & E4).
    exists (d1 ++ d2), (c1 ++ c2). by rewrite E3, E4, E1, E2, <-!(assoc (++)).
Qed.

Lemma in_domains_app σ v ds ds' :
  in_domains σ v (ds ++ ds') = in_domains σ v ds && in_domains σ (v + length ds) ds'.
Proof.
  revert v. induction ds as [|[lo hi] ds IH]; intros v; cbn [in_domains app length].
  - by rewrite Nat.add_0_r.
  - by rewrite IH, <-!andb_assoc, <-plus_n_Sm.
Qed.

Lemma satisfies_extends m m' σ : extends m m' → satisfies m' σ = true → satisfies m σ = true.
Proof.
  intros (ds & cs & E1 & E2). unfold satisfies. rewrite E1, E2, in_domains_app, forallb_app.
  rewrite !andb_true_iff. tauto.
Qed.

Definition builds {A} (b : M cp_model A) (Q : A → assignment → Prop) : Prop :=
  ∀ m a m', b m = (Ok a, m') → extends m m' ∧ ∀ σ, satisfies m' σ = true → Q a σ.

Section builds.
Context {A B : Type}.

Lemma builds_ret (a : A) : builds (ret a) (λ b _, b = a).
Proof. intros m b m' [= -> ->]. split; [reflexivity|done]. Qed.
Lemma builds_raise e (Q : A → assignment → Prop) : builds (raise e) Q.
Proof. by intros m a m'. Qed.
Lemma builds_weaken (b : M cp_model A) (Q Q' : A → assignment → Prop) :
  builds b Q → (∀ a σ, Q a σ → Q' a σ) → builds b Q'.
Proof. intros Hb HQ m a m' E. destruct (Hb _ _ _ E). split; [done|]. auto. Qed.
Lemma builds_bind (b : M cp_model A) (k : A → M cp_model B) Q (Q' : A → B → assignment → Prop) :
  builds b Q → (∀ a, builds (k a) (Q' a)) →
  builds (bind b k) (λ y σ, ∃ a, Q a σ ∧ Q' a y σ).
Proof.
  intros Hb Hk m y m' (a & m1 & E1 & E2)%bind_inv_ok.
  destruct (Hb _ _ _ E1) as [X1 S1], (Hk _ _ _ _ E2) as [X2 S2].
  split; [by etrans|]. intros σ Hσ. exists a. split; [|by apply S2].
  apply S1. by eapply satisfies_extends.
Qed.
Lemma builds_if (c : bool) (b1 b2 : M cp_model A) Q :
  builds b1 Q → builds b2 Q → builds (if c then b1 else b2) Q.
Proof. by destruct c. Qed.
End builds.

Lemma builds_int_var lo hi : builds (new_int_var lo hi) (λ v σ, (lo <= σ v <= hi)%Z).
Proof.
  intros m v m' [= <- <-]. split.
  - exists [(lo, hi)], []. by rewrite app_nil_r.
  - intros σ. unfold satisfies. cbn [cm_domains cm_constraints]. rewrite in_domains_app.
    cbn [in_domains Nat.add]. rewrite !andb_true_iff. lia.
Qed.
Lemma builds_bool_var : builds new_bool_var (λ v σ, (σ v = 0 ∨ σ v = 1)%Z).
Proof. eapply builds_weaken; [apply builds_int_var|]. cbn. intros. lia. Qed.
Lemma builds_add c : builds (add c) (λ _ σ, holds σ c = true).
Proof.
  intros m [] m' [= <-]. split.
  - exists [], [c]. by rewrite app_nil_r.
  - intros σ. unfold satisfies. cbn [cm_domains cm_constraints].
    rewrite forallb_app, !andb_true_iff. cbn. rewrite andb_true_iff. tauto.
Qed.
Lemma builds_minimize e : builds (minimize e) (λ _ _, True).
Proof. intros m [] m' [= <-]. split; [|done]. exists [], []. by rewrite !app_nil_r. Qed.
Lemma builds_interval s d e p :
  builds (new_interval s d e p)
    (λ iv σ, iv = mkInterval s d e p ∧
       (present σ iv = true → leval σ s + leval σ d = leval σ e)%Z).
Proof.
  eapply builds_weaken; [apply builds_bind; [apply builds_add|intros; apply builds_ret]|].
  cbn beta. intros iv σ ([] & H & ->). split; [done|]. intros Hp. unfold holds in H.
  rewrite Hp in H. cbn in H. lia.
Qed.

Definition is_bool (σ : assignment) (b : var) : Prop := (σ b = 0 ∨ σ b = 1)%Z.

Lemma lit_true_pos σ b : is_bool σ b → lit_true σ (pos_lit b) = true ↔ σ b = 1%Z.
Proof. unfold is_bool, lit_true. cbn [lit_pos lit_var pos_lit]. intros [-> | ->]; done. Qed.

Lemma builds_d_get {K V} `{EqDecision K} repr (d : pydict K V) k :
  builds (d_get repr d k) (λ v _, d !! k = Some v).
Proof.
  unfold d_get. destruct (d !! k) as [v|]; [|apply builds_raise].
  eapply builds_weaken; [apply builds_ret|]. by intros ? σ ->.
Qed.

(** [[body(x) for x in l]], with effects. *)
Fixpoint map_m {S A B} (body : A → M S B) (l : list A) : M S (list B) :=
  match l with
  | [] => ret []
  | x :: l' => y <- body x ;; ys <- map_m body l' ;; ret (y :: ys)
  end.

Lemma builds_map_m {A B} (body : A → M cp_model B) (Q : A → B → assignment → Prop) l :
  (∀ x, x ∈ l → builds (body x) (Q x)) →
  builds (map_m body l) (λ ys σ, Forall2 (λ x y, Q x y σ) l ys).
Proof.
  induction l as [|x l IH]; intros Hb; cbn [map_m].
  - eapply builds_weaken; [apply builds_ret|]. intros ys σ ->. constructor.
  - eapply builds_weaken.
    + apply builds_bind; [apply Hb; left|]. intros y.
      apply builds_bind; [apply IH; intros; apply Hb; by right|]. intros ys. apply builds_ret.
    + intros ys σ (y & Hy & ys' & Hys & ->). by constructor.
Qed.

Lemma builds_for_each {A} (body : A → M cp_model unit) (Q : A → assignment → Prop) l :
  (∀ x, x ∈ l → builds (body x) (λ _, Q x)) →
  builds (for_each l body) (λ _ σ, ∀ x, x ∈ l → Q x σ).
Proof.
  induction l as [|x l IH]; intros Hb; cbn [for_each].
  - eapply builds_weaken; [apply builds_ret|]. by intros _ σ _ x ?%elem_of_nil.
  - eapply builds_weaken.
    + apply builds_bind; [apply Hb; left|]. intros ?. apply IH. intros. apply Hb. by right.
    + intros _ σ (_ & Hx & Hl) y [->|Hy]%elem_of_cons; auto.
Qed.

(** The solutions of a model that was built, when the solver finds one. *)
Lemma builds_solved `{CpSolver} {A} (b : M cp_model A) Q m a m' n s σ :
  builds b Q → b m = (Ok a, m') → solve n m' = (s, σ) → optimal_or_feasible s = true → Q a σ.
Proof. intros Hb E Hs Ho. apply (Hb _ _ _ E). by eapply solve_sound. Qed.

(** ** Sums *)

Lemma leval_lsum σ es : leval σ (lsum es) = foldr (λ e acc, leval σ e + acc)%Z 0%Z es.
Proof.
  unfold lsum.
  enough (H : ∀ a, leval σ (foldl Plus a es) = (leval σ a + foldr (λ e acc, leval σ e + acc) 0 es)%Z)
    by (rewrite H; cbn; lia).
  induction es as [|e es IH]; intros a; cbn [foldl foldr leval]; [lia|]. rewrite IH. cbn [leval]. lia.
Qed.

Lemma count_true_cons σ b bs :
  is_bool σ b →
  Z.of_nat (count_true σ (pos_lit <$> b :: bs)) = (σ b + Z.of_nat (count_true σ (pos_lit <$> bs)))%Z.
Proof.
  intros Hb. unfold count_true. rewrite fmap_cons, filter_cons. pose proof (lit_true_pos σ b Hb).
  case_decide as Hd; destruct Hb as [E|E]; rewrite E in *; cbn [length]; naive_solver lia.
Qed.

(** Of variables one of which is true, a weighted sum is the weight of that one. *)
Lemma exactly_one_sum {X} σ (xs : list X) bs :
  Forall2 (λ _ b, is_bool σ b) xs bs → count_true σ (pos_lit <$> bs) = 1 →
  ∃ n x b, xs !! n = Some x ∧ bs !! n = Some b ∧ σ b = 1%Z ∧
    ∀ f : X → Z, leval σ (lsum (zip_with (λ b x, Times (f x) (Var b)) bs xs)) = f x.
Proof.
  intros Hall Hc. assert (Z.of_nat (count_true σ (pos_lit <$> bs)) = 1%Z) as Hz by lia.
  clear Hc. setoid_rewrite leval_lsum.
  assert (Hzero : ∀ xs bs, Forall2 (λ (_ : X) b, is_bool σ b) xs bs →
    Z.of_nat (count_true σ (pos_lit <$> bs)) = 0%Z → ∀ f : X → Z,
    foldr (λ e acc, leval σ e + acc)%Z 0%Z (zip_with (λ b x, Times (f x) (Var b)) bs xs) = 0%Z).
  { clear. induction 1 as [|x b xs bs Hb _ IH]; [done|]. rewrite count_true_cons by done.
    intros Hz f. cbn [zip_with foldr leval]. rewrite IH; destruct Hb; nia. }
  induction Hall as [|x b xs bs Hb Hall IH]; [done|]. rewrite count_true_cons in Hz by done.
  destruct Hb as [E|E].
  - destruct IH as (n & y & c & Hx & Hy & Hc & Hf); [lia|]. exists (S n), y, c.
    split_and!; [done..|]. intros f. cbn [zip_with foldr leval]. rewrite Hf. lia.
  - exists 0, x, b. split_and!; [done..|]. intros f. cbn [zip_with foldr leval].
    rewrite Hzero; [lia|done|lia].
Qed.

(** ** Loads *)

Section loads.
Context (σ : assignment).
Implicit Types (ivs : list interval) (demands : list Z).

Lemma load_le ivs demands t t' :
  Forall (λ d, 0 <= d)%Z demands →
  (∀ iv, iv ∈ ivs → active σ t iv = true → active σ t' iv = true) →
  (load σ t ivs demands <= load σ t' ivs demands)%Z.
Proof.
  intros Hd. revert ivs. induction Hd as [|d demands Hd _ IH]; intros [|iv ivs] Ha; cbn; try lia.
  assert (load σ t ivs demands <= load σ t' ivs demands)%Z
    by (apply IH; intros; apply Ha; [by right|done]).
  assert (active σ t iv = true → active σ t' iv = true) as Hi by (apply Ha; left).
  destruct (active σ t iv); [rewrite Hi by done; lia|]. destruct (active σ t' iv); lia.
Qed.

Lemma load_idle ivs demands t :
  (∀ iv, iv ∈ ivs → active σ t iv = false) → load σ t ivs demands = 0%Z.
Proof.
  revert demands. induction ivs as [|iv ivs IH]; intros [|d demands] Ha; cbn; [done..|].
  rewrite Ha by left. rewrite IH; [done|]. intros. apply Ha. by right.
Qed.

(** The active interval that starts last. *)
Lemma last_active t ivs :
  (∀ iv, iv ∈ ivs → active σ t iv = false) ∨
  ∃ iv, iv ∈ ivs ∧ active σ t iv = true ∧
    ∀ iv', iv' ∈ ivs → active σ t iv' = true → (leval σ (iv_start iv') <= leval σ (iv_start iv))%Z.
Proof.
  induction ivs as [|iv ivs IH]; [left; by intros ? ?%elem_of_nil|].
  setoid_rewrite elem_of_cons. destruct (active σ t iv) eqn:Ha; destruct IH as [IH|(jv & Hj & Hja & Hm)].
  - right. exists iv. split_and!; [by left|done|]. intros iv' [->|Hi] Ht; [lia|].
    by rewrite IH in Ht.
  - right. destruct (Z.le_gt_cases (leval σ (iv_start iv)) (leval σ (iv_start jv))).
    + exists jv. split_and!; [by right|done|]. intros iv' [->|Hi] Ht; [done|auto].
    + exists iv. split_and!; [by left|done|]. intros iv' [->|Hi] Ht; [lia|].
      specialize (Hm iv' Hi Ht). lia.
  - left. intros iv' [->|Hi]; [done|auto].
  - right. exists jv. split_and!; [by right|done|]. intros iv' [->|Hi] Ht; [congruence|auto].
Qed.

Lemma cumulative_everywhere ivs demands capacity t :
  Forall (λ d, 0 <= d)%Z demands → holds σ (Cumulative ivs demands capacity) = true →
  (load σ t ivs demands <= capacity)%Z.
Proof.
  intros Hd. cbn [holds]. rewrite andb_true_iff, forallb_forall. intros [Hc Hs].
  destruct (last_active t ivs) as [Ha|(iv & Hi & Ha & Hm)].
  - rewrite load_idle by done. by apply Z.leb_le.
  - specialize (Hs iv (proj1 (list_elem_of_In _ _) Hi)).
    enough (load σ t ivs demands <= load σ (leval σ (iv_start iv)) ivs demands)%Z by lia.
    apply load_le; [done|]. intros jv Hj Hja. specialize (Hm jv Hj Hja).
    unfold active in *. rewrite !andb_true_iff in *. destruct Hja as [[? ?] ?].
    split_and!; [done|lia..].
Qed.
End loads.

(** ** Building does not fail *)

Definition runs {S A} (b : M S A) (P : A → Prop) : Prop := ∀ m, ∃ a m', b m = (Ok a, m') ∧ P a.

Section runs.
Context {S : Type}.

Lemma runs_ret {A} (a : A) (P : A → Prop) : P a → runs (S := S) (ret a) P.
Proof. intros H m. by exists a, m. Qed.
Lemma runs_bind {A B} (b : M S A) (k : A → M S B) P Q :
  runs b P → (∀ a, P a → runs (k a) Q) → runs (bind b k) Q.
Proof.
  intros Hb Hk m. destruct (Hb m) as (a & m1 & E & Ha). rewrite (bind_ok _ _ _ _ _ E). by apply Hk.
Qed.
Lemma runs_modify (f : S → S) : runs (modify f) (λ _, True).
Proof. intros m. by exists tt, (f m). Qed.
Lemma runs_map_m {A B} (body : A → M S B) (R : A → B → Prop) l :
  (∀ x, x ∈ l → runs (body x) (R x)) → runs (map_m body l) (λ ys, Forall2 R l ys).
Proof.
  induction l as [|x l IH]; intros H; cbn [map_m]; [apply runs_ret; constructor|].
  eapply runs_bind; [apply H; left|]. intros y Hy.
  eapply runs_bind; [apply IH; intros; apply H; by right|]. intros ys Hys.
  apply runs_ret. by constructor.
Qed.
Lemma runs_for_each {A} (body : A → M S unit) l :
  (∀ x, x ∈ l → runs (body x) (λ _, True)) → runs (for_each l body) (λ _, True).
Proof.
  induction l as [|x l IH]; intros H; cbn [for_each]; [by apply runs_ret|].
  eapply runs_bind; [apply H; left|]. intros ? _. apply IH. intros. apply H. by right.
Qed.
Lemma runs_d_get {K V} `{EqDecision K} repr (d : pydict K V) k (P : V → Prop) :
  (∃ v, d !! k = Some v ∧ P v) → runs (S := S) (d_get repr d k) P.
Proof. intros (v & E & Hv). unfold d_get. rewrite E. by apply runs_ret. Qed.
Lemma runs_true {A} (b : M S A) P : runs b P → runs b (λ _, True).
Proof. intros H m. destruct (H m) as (a & m' & E & _). by exists a, m'. Qed.
End runs.

Lemma runs_int_var lo hi : runs (new_int_var lo hi) (λ _, True).
Proof. intros m. eexists _, _. done. Qed.
Lemma runs_interval s d e p : runs (new_interval s d e p) (λ _, True).
Proof. eapply runs_bind; [apply runs_modify|]. intros ? _. by apply runs_ret. Qed.

#[export] Hint Resolve runs_int_var runs_interval runs_modify : ate.
