(* ===== verification/HumanAllocator.v ===== *)
(** * Operators and robots (src/src/ate_platform/scheduler/human_resource_allocator.py)

    Tasks are given an operator, a robot and a start by the constraint solver: one eligible
    worker each, inside its hours, never more tasks at a time than it can take.
    [build_model] records the calls of [_build_model]; the solver is the parameter of
    CpModel.v. *)

From S2P Require Import Prelude PyDict PyStr CpModel.

Record OperatorSpec : Type := mkOperator {
  op_id : string; op_skills : list string; op_max_concurrent_tasks : Z;
  op_available_from : Z; op_available_to : Z
}.
(** The speed, a float, is stored and not used. *)
Record RobotSpec : Type := mkRobot {
  rb_id : string; rb_robot_type : string; rb_capabilities : list string; rb_speed : pyval;
  rb_max_concurrent_tasks : Z; rb_available_from : Z; rb_available_to : Z
}.
Record TaskSpec : Type := mkTask {
  tk_id : string; tk_required_skill : string; tk_required_capability : string;
  tk_base_duration : Z; tk_requires_operator : bool; tk_requires_robot : bool; tk_priority : Z
}.
Record AllocationResult : Type := mkAllocation {
  al_task_id : string; al_operator_id : option string; al_robot_id : option string;
  al_start_time : Z; al_end_time : Z; al_duration : Z
}.

(** What the model asks of an operator or a robot; the source repeats the code for the two. *)
Record Worker : Type := mkWorker { wk_id : string; wk_capacity : Z; wk_from : Z; wk_to : Z }.
Definition op_worker (o : OperatorSpec) : Worker :=
  mkWorker (op_id o) (op_max_concurrent_tasks o) (op_available_from o) (op_available_to o).
Definition rb_worker (r : RobotSpec) : Worker :=
  mkWorker (rb_id r) (rb_max_concurrent_tasks r) (rb_available_from r) (rb_available_to r).

Definition eligible_operators (t : TaskSpec) (ops : list OperatorSpec) : list OperatorSpec :=
  if decide (tk_required_skill t = "") then ops
  else base.filter (λ o, tk_required_skill t ∈ op_skills o) ops.
Definition eligible_robots (t : TaskSpec) (rbs : list RobotSpec) : list RobotSpec :=
  if decide (tk_required_capability t = "") then rbs
  else base.filter (λ r, tk_required_capability t ∈ rb_capabilities r) rbs.

Definition check_feasibility (ops : list OperatorSpec) (rbs : list RobotSpec)
    (tasks : list TaskSpec) : list string :=
  t ← tasks;
  (if tk_requires_operator t && bool_decide (eligible_operators t ops = []) then
     ["Task '" +:+ tk_id t +:+ "': no operator with skill '" +:+ tk_required_skill t +:+ "'"]
   else []) ++
  (if tk_requires_robot t && bool_decide (eligible_robots t rbs = []) then
     ["Task '" +:+ tk_id t +:+ "': no robot with capability '" +:+ tk_required_capability t +:+ "'"]
   else []).

(** ** The model *)

(** One variable per eligible worker, exactly one true, and the hours of the chosen one. *)
Definition pick (eligible : list Worker) (start finish : var) : M cp_model (pydict string var) :=
  vars <- map_m (λ w, b <- new_bool_var ;; ret (wk_id w, b)) eligible ;;
  let assign := dict_of_list vars in
  add (ExactlyOne (pos_lit <$> values assign)) ;;;
  for_each eligible (λ w,
    b <- d_get repr_str assign (wk_id w) ;;
    add (Linear (Var start) CGe (Const (wk_from w)) [pos_lit b]) ;;;
    add (Linear (Var finish) CLe (Const (wk_to w)) [pos_lit b])) ;;;
  ret assign.

(** [None] when the task needs none. *)
Definition pick_if (needed : bool) (eligible : list Worker) (error : exc) (start finish : var) :
    M cp_model (option (pydict string var)) :=
  if negb needed then ret None
  else match eligible with
       | [] => raise error
       | _ => assign <- pick eligible start finish ;; ret (Some assign)
       end.

Record TaskVars : Type := mkTaskVars {
  tv_start : var; tv_end : var; tv_duration : var;
  tv_operators : option (pydict string var); tv_robots : option (pydict string var)
}.

Definition horizon_of (tasks : list TaskSpec) : Z :=
  foldr (λ t acc, tk_base_duration t + acc)%Z 0%Z tasks + Z.of_nat (length tasks) * 10 + 1.
Definition duration_of (t : TaskSpec) : Z := Z.max 1 (tk_base_duration t).

Definition task_vars (ops : list OperatorSpec) (rbs : list RobotSpec) (horizon : Z) (t : TaskSpec) :
    M cp_model TaskVars :=
  start <- new_int_var 0 horizon ;;
  finish <- new_int_var 0 horizon ;;
  duration <- new_int_var (duration_of t) (duration_of t) ;;
  new_interval (Var start) (Var duration) (Var finish) None ;;;
  operators <- pick_if (tk_requires_operator t) (op_worker <$> eligible_operators t ops)
    (ValueError ("No eligible operator for task '" +:+ tk_id t +:+ "' (required_skill='" +:+
                 tk_required_skill t +:+ "')")) start finish ;;
  robots <- pick_if (tk_requires_robot t) (rb_worker <$> eligible_robots t rbs)
    (ValueError ("No eligible robot for task '" +:+ tk_id t +:+ "' (required_capability='" +:+
                 tk_required_capability t +:+ "')")) start finish ;;
  ret (mkTaskVars start finish duration operators robots).

(** The dictionaries by task, the later of two tasks with one id winning. *)
Record ModelState : Type := mkState {
  ms_starts : pydict string var; ms_ends : pydict string var; ms_durations : pydict string var;
  ms_operators : pydict string (pydict string var);
  ms_robots : pydict string (pydict string var)
}.
Definition by_id {A} (f : TaskVars → A) (rows : list (TaskSpec * TaskVars)) : pydict string A :=
  dict_of_list (fmap (M:=list) (λ p, (tk_id p.1, f p.2)) rows).
Definition by_id_given (f : TaskVars → option (pydict string var))
    (rows : list (TaskSpec * TaskVars)) : pydict string (pydict string var) :=
  dict_of_list (omap (λ p, pair (tk_id p.1) <$> f p.2) rows).
Definition state_of (tasks : list TaskSpec) (tvs : list TaskVars) : ModelState :=
  let rows := zip tasks tvs in
  mkState (by_id tv_start rows) (by_id tv_end rows) (by_id tv_duration rows)
    (by_id_given tv_operators rows) (by_id_given tv_robots rows).

(** The tasks that may fall to a worker, as optional intervals. *)
Definition worker_interval (st : ModelState) (needed : TaskSpec → bool)
    (assign : pydict string (pydict string var)) (w : Worker) (t : TaskSpec) :
    M cp_model (list interval) :=
  match (if needed t then default ∅ (assign !! tk_id t) !! wk_id w else None) with
  | Some b =>
      start <- d_get repr_str (ms_starts st) (tk_id t) ;;
      duration <- d_get repr_str (ms_durations st) (tk_id t) ;;
      finish <- d_get repr_str (ms_ends st) (tk_id t) ;;
      iv <- new_interval (Var start) (Var duration) (Var finish) (Some (pos_lit b)) ;;
      ret [iv]
  | None => ret []
  end.
Definition limit_worker (st : ModelState) (needed : TaskSpec → bool)
    (assign : pydict string (pydict string var)) (tasks : list TaskSpec) (w : Worker) :
    M cp_model unit :=
  ivs <- map_m (worker_interval st needed assign w) tasks ;;
  match concat ivs with
  | [] => ret tt
  | l => add (Cumulative l ((λ _, 1%Z) <$> l) (wk_capacity w))
  end.

Definition build_model (ops : list OperatorSpec) (rbs : list RobotSpec) (tasks : list TaskSpec) :
    M cp_model ModelState :=
  let horizon := horizon_of tasks in
  tvs <- map_m (task_vars ops rbs horizon) tasks ;;
  let st := state_of tasks tvs in
  for_each (op_worker <$> ops) (limit_worker st tk_requires_operator (ms_operators st) tasks) ;;;
  for_each (rb_worker <$> rbs) (limit_worker st tk_requires_robot (ms_robots st) tasks) ;;;
  makespan <- new_int_var 0 horizon ;;
  for_each (values (ms_ends st)) (λ e, add (Linear (Var makespan) CGe (Var e) [])) ;;;
  minimize (Var makespan) ;;;
  ret st.

(** ** The answer *)

Definition chosen (σ : assignment) (assign : pydict string var) : option string :=
  fst <$> head (base.filter (λ p : string * var, σ p.2 = 1%Z) (items assign)).

Definition extract_one (σ : assignment) (st : ModelState) (t : TaskSpec) : M unit AllocationResult :=
  start <- d_get repr_str (ms_starts st) (tk_id t) ;;
  finish <- d_get repr_str (ms_ends st) (tk_id t) ;;
  let given (needed : bool) (assign : pydict string (pydict string var)) :=
    if needed then assign !! tk_id t ≫= chosen σ else None in
  ret (mkAllocation (tk_id t)
    (given (tk_requires_operator t) (ms_operators st))
    (given (tk_requires_robot t) (ms_robots st))
    (σ start) (σ finish) (σ finish - σ start)).
Definition extract_results (σ : assignment) (st : ModelState) (tasks : list TaskSpec) :
    res (pydict string AllocationResult) :=
  match map_m (extract_one σ st) tasks tt with
  | (Ok l, _) => Ok (dict_of_list (zip (tk_id <$> tasks) l))
  | (Raise e, _) => Raise e
  end.

(** [available]: whether OR-Tools could be imported. *)
Definition allocate `{CS : CpSolver} (available : bool) (ops : list OperatorSpec) (rbs : list RobotSpec)
    (tasks : list TaskSpec) : res (option (pydict string AllocationResult)) :=
  match tasks with
  | [] => Ok (Some ∅)
  | _ =>
      if negb available then Ok None
      else match build_model ops rbs tasks empty_model with
           | (Raise e, _) => Raise e
           | (Ok st, m) =>
               let '(s, σ) := solve 0 m in
               if optimal_or_feasible s then r ← extract_results σ st tasks; Ok (Some r)
               else Ok None
           end
  end.

(** ** Choosing one worker *)

(** What a solution says of the variables of one task's eligible workers. *)
Definition picked (eligible : list Worker) (assign : pydict string var) (start finish : var)
    (σ : assignment) : Prop :=
  dict_wf assign ∧ (∀ k, k ∈ keys assign ↔ k ∈ wk_id <$> eligible) ∧
  (∀ k b, assign !! k = Some b → is_bool σ b) ∧
  count_true σ (pos_lit <$> values assign) = 1 ∧
  ∀ w b, w ∈ eligible → assign !! wk_id w = Some b → σ b = 1%Z →
    (wk_from w <= σ start)%Z ∧ (σ finish <= wk_to w)%Z.

Lemma builds_pick eligible start finish :
  builds (pick eligible start finish) (λ a σ, picked eligible a start finish σ).
Proof.
  eapply builds_weaken.
  - apply builds_bind; [apply (builds_map_m _ (λ w p σ, p.1 = wk_id w ∧ is_bool σ p.2))|].
    + intros w _. eapply builds_weaken;
        [apply builds_bind; [apply builds_bool_var|intros b; apply builds_ret]|].
      by intros p σ (b & Hb & ->).
    + intros vars. apply builds_bind; [apply builds_add|]. intros ?. apply builds_bind.
      * apply (builds_for_each _ (λ w σ, ∀ b, dict_of_list vars !! wk_id w = Some b → σ b = 1%Z →
          (wk_from w <= σ start)%Z ∧ (σ finish <= wk_to w)%Z)).
        intros w _. eapply builds_weaken.
        -- apply builds_bind; [apply builds_d_get|]. intros b.
           apply builds_bind; [apply builds_add|]. intros ?. apply builds_add.
        -- cbn beta. intros [] σ (b & Hb & _ & Hs & He) b' Hb' H1.
           assert (b' = b) as -> by congruence.
           cbn [holds forallb leval cmp_holds] in Hs, He. unfold lit_true in Hs, He.
           cbn [lit_pos lit_var pos_lit] in Hs, He. rewrite H1 in Hs, He. cbn in Hs, He. lia.
      * intros ?. apply builds_ret.
  - cbn beta. intros a σ (vars & Hv & _ & Hone & _ & Hw & ->).
    assert (vars.*1 = wk_id <$> eligible) as Hk.
    { clear -Hv. induction Hv as [|w p eligible vars [Hp _] _ IH]; [done|].
      rewrite !fmap_cons. by f_equal. }
    unfold picked. split_and!; [apply dict_wf_of_list| | | |].
    + intros k. by rewrite keys_of_list, Hk.
    + intros k b Hb%dict_of_list_lookup_inv. apply list_elem_of_lookup in Hb as [n Hn].
      destruct (Forall2_lookup_r _ _ _ _ _ Hv Hn) as (w & _ & _ & ?). done.
    + cbn [holds] in Hone. by apply Nat.eqb_eq in Hone.
    + intros w b Hin Hb. by apply Hw.
Qed.

(** The solver's choice: the one worker whose variable is true. *)
Lemma chosen_spec eligible a start finish σ :
  picked eligible a start finish σ →
  ∃ w b, w ∈ eligible ∧ a !! wk_id w = Some b ∧ σ b = 1%Z ∧ chosen σ a = Some (wk_id w) ∧
    ∀ k b', a !! k = Some b' → lit_true σ (pos_lit b') = true → k = wk_id w.
Proof.
  intros (Hwf & Hk & Hb & Hone & _). unfold chosen.
  assert (Hlen : length (base.filter (λ p : string * var, σ p.2 = 1%Z) (items a)) = 1).
  { rewrite <-Hone. unfold count_true, values. rewrite <-list_fmap_compose, list_filter_fmap, length_fmap.
    f_equal. apply list_filter_iff_strong. intros [k b] Hin. cbn.
    apply elem_of_items in Hin; [|done]. symmetry. apply lit_true_pos. by eapply Hb. }
  destruct (base.filter _ (items a)) as [|[k b] [|]] eqn:E; [done| |done]. cbn.
  assert ((k, b) ∈ base.filter (λ p : string * var, σ p.2 = 1%Z) (items a)) as Hin
    by (rewrite E; left).
  apply list_elem_of_filter in Hin as [H1 Hin]. cbn in H1. apply elem_of_items in Hin as Hl; [|done].
  assert (k ∈ wk_id <$> eligible) as (w & -> & Hw)%list_elem_of_fmap
    by (apply Hk, elem_of_keys; eauto).
  exists w, b. split_and!; [done|done|done|done|]. intros k' b' Hk' Ht.
  assert ((k', b') ∈ base.filter (λ p : string * var, σ p.2 = 1%Z) (items a)) as Hin'.
  { apply list_elem_of_filter. cbn. split; [|by apply elem_of_items].
    apply lit_true_pos; [by eapply Hb|done]. }
  rewrite E in Hin'. apply list_elem_of_singleton in Hin'. congruence.
Qed.

(** ** One task *)

Definition picked_if (needed : bool) (eligible : list Worker) (a : option (pydict string var))
    (start finish : var) (σ : assignment) : Prop :=
  if needed then ∃ d, a = Some d ∧ picked eligible d start finish σ else a = None.

Lemma builds_pick_if needed eligible e start finish :
  builds (pick_if needed eligible e start finish)
    (λ a σ, picked_if needed eligible a start finish σ).
Proof.
  unfold pick_if, picked_if. destruct needed; cbn [negb].
  - destruct eligible; [apply builds_raise|].
    eapply builds_weaken; [apply builds_bind; [apply builds_pick|intros d; apply builds_ret]|].
    intros a σ (d & Hd & ->). eauto.
  - eapply builds_weaken; [apply builds_ret|]. by intros a σ ->.
Qed.

(** What a solution says of the variables of a task. *)
Definition task_ok (ops : list OperatorSpec) (rbs : list RobotSpec) (t : TaskSpec) (tv : TaskVars)
    (σ : assignment) : Prop :=
  (0 <= σ (tv_start tv))%Z ∧
  (σ (tv_end tv) = σ (tv_start tv) + duration_of t)%Z ∧
  picked_if (tk_requires_operator t) (op_worker <$> eligible_operators t ops) (tv_operators tv)
    (tv_start tv) (tv_end tv) σ ∧
  picked_if (tk_requires_robot t) (rb_worker <$> eligible_robots t rbs) (tv_robots tv)
    (tv_start tv) (tv_end tv) σ.

Lemma builds_task_vars ops rbs horizon t :
  builds (task_vars ops rbs horizon t)
    (λ tv σ, task_ok ops rbs t tv σ ∧ (σ (tv_end tv) <= horizon)%Z).
Proof.
  eapply builds_weaken.
  - apply builds_bind; [apply builds_int_var|intros start].
    apply builds_bind; [apply builds_int_var|intros finish].
    apply builds_bind; [apply builds_int_var|intros duration].
    apply builds_bind; [apply builds_interval|intros iv].
    apply builds_bind; [apply builds_pick_if|intros os].
    apply builds_bind; [apply builds_pick_if|intros rs]. apply builds_ret.
  - cbn beta. intros tv σ (s & Hs & f & Hf & d & Hd & iv & [-> Hiv] & os & Ho & rs & Hr & ->).
    specialize (Hiv eq_refl). cbn [leval] in Hiv. unfold task_ok.
    cbn [tv_start tv_end tv_operators tv_robots]. split_and!; [lia|lia|done|done|lia].
Qed.

(** ** One worker *)

(** Is the worker at the task at this time? *)
Definition on_worker (σ : assignment) (st : ModelState) (needed : TaskSpec → bool)
    (assign : pydict string (pydict string var)) (w : Worker) (time : Z) (t : TaskSpec) : bool :=
  match (if needed t then default ∅ (assign !! tk_id t) !! wk_id w else None),
        ms_starts st !! tk_id t, ms_ends st !! tk_id t with
  | Some b, Some s, Some e => lit_true σ (pos_lit b) && (σ s <=? time)%Z && (time <? σ e)%Z
  | _, _, _ => false
  end.
Definition tasks_on (σ : assignment) st needed assign w time (tasks : list TaskSpec) : nat :=
  length (base.filter (λ t, on_worker σ st needed assign w time t = true) tasks).

Definition ones (ivs : list interval) : list Z := (λ _, 1%Z) <$> ivs.

Lemma ones_nonneg ivs : Forall (λ d, 0 <= d)%Z (ones ivs).
Proof. apply Forall_forall. by intros d (iv & -> & _)%list_elem_of_fmap. Qed.

Lemma load_app σ t (a b : list interval) :
  load σ t (a ++ b) (ones (a ++ b)) = (load σ t a (ones a) + load σ t b (ones b))%Z.
Proof.
  induction a as [|iv a IH]; [done|]. cbn [app].
  change (ones (iv :: a ++ b)) with (1%Z :: ones (a ++ b)).
  change (ones (iv :: a)) with (1%Z :: ones a). cbn [load]. rewrite IH. lia.
Qed.

Lemma builds_worker_interval st needed assign w t :
  builds (worker_interval st needed assign w t)
    (λ ivs σ, ∀ time, load σ time ivs (ones ivs) =
       if on_worker σ st needed assign w time t then 1%Z else 0%Z).
Proof.
  unfold worker_interval, on_worker.
  destruct (if needed t then default ∅ (assign !! tk_id t) !! wk_id w else None) as [b|].
  - eapply builds_weaken.
    + apply builds_bind; [apply builds_d_get|intros s].
      apply builds_bind; [apply builds_d_get|intros d].
      apply builds_bind; [apply builds_d_get|intros e].
      apply builds_bind; [apply builds_interval|intros iv]. apply builds_ret.
    + cbn beta. intros ivs σ (s & -> & d & _ & e & -> & iv & [-> _] & ->) time.
      cbn [ones fmap list_fmap load]. rewrite Z.add_0_r. done.
  - eapply builds_weaken; [apply builds_ret|]. by intros ivs σ ->.
Qed.

Lemma builds_limit_worker st needed assign tasks w :
  builds (limit_worker st needed assign tasks w)
    (λ _ σ, ∀ time, (Z.of_nat (tasks_on σ st needed assign w time tasks) <= Z.max 0 (wk_capacity w))%Z).
Proof.
  eapply builds_weaken.
  - apply builds_bind; [apply builds_map_m; intros t _; apply builds_worker_interval|].
    intros ivs. instantiate (1 := λ ivs _ σ, ∀ time,
      (load σ time (concat ivs) (ones (concat ivs)) <= Z.max 0 (wk_capacity w))%Z). cbn beta.
    destruct (concat ivs) as [|iv l].
    + eapply builds_weaken; [apply builds_ret|]. intros [] σ _ time. cbn. lia.
    + eapply builds_weaken; [apply builds_add|]. intros [] σ Hc time.
      pose proof (cumulative_everywhere σ _ _ _ time (ones_nonneg _) Hc) as Hl.
      etrans; [exact Hl|lia].
  - cbn beta. intros [] σ (ivs & Hivs & Hl) time. specialize (Hl time).
    enough (load σ time (concat ivs) (ones (concat ivs)) =
      Z.of_nat (tasks_on σ st needed assign w time tasks)) by lia.
    clear Hl. unfold tasks_on. induction Hivs as [|t iv tasks ivs Ht _ IH]; [done|].
    cbn [concat]. rewrite load_app, Ht, IH, filter_cons.
    destruct (on_worker σ st needed assign w time t);
      [rewrite decide_True by done; cbn [length]|rewrite decide_False by done]; lia.
Qed.

(** ** The whole model *)

Definition model_ok (ops : list OperatorSpec) (rbs : list RobotSpec) (tasks : list TaskSpec)
    (st : ModelState) (σ : assignment) : Prop :=
  ∃ tvs, st = state_of tasks tvs ∧ Forall2 (λ t tv, task_ok ops rbs t tv σ) tasks tvs ∧
    (∀ o time, o ∈ ops →
       (Z.of_nat (tasks_on σ st tk_requires_operator (ms_operators st) (op_worker o) time tasks)
        <= Z.max 0 (op_max_concurrent_tasks o))%Z) ∧
    (∀ r time, r ∈ rbs →
       (Z.of_nat (tasks_on σ st tk_requires_robot (ms_robots st) (rb_worker r) time tasks)
        <= Z.max 0 (rb_max_concurrent_tasks r))%Z) ∧
    Forall (λ tv, (σ (tv_end tv) <= horizon_of tasks)%Z) tvs.

Lemma builds_model ops rbs tasks :
  builds (build_model ops rbs tasks) (model_ok ops rbs tasks).
Proof.
  eapply builds_weaken.
  - apply builds_bind; [apply builds_map_m; intros; apply builds_task_vars|intros tvs].
    apply builds_bind; [apply builds_for_each; intros; apply builds_limit_worker|intros ?].
    apply builds_bind; [apply builds_for_each; intros; apply builds_limit_worker|intros ?].
    apply builds_bind; [apply builds_int_var|intros ?].
    apply builds_bind; [apply builds_for_each; intros; apply builds_add|intros ?].
    apply builds_bind; [apply builds_minimize|intros ?]. apply builds_ret.
  - cbn beta. intros st σ (tvs & Ht & _ & Ho & _ & Hr & _ & _ & _ & _ & _ & _ & ->).
    exists tvs. split_and!; [done| | | |].
    + eapply Forall2_impl; [exact Ht|]. by intros ? ? [].
    + intros o time Hin. apply (Ho (op_worker o)). by apply list_elem_of_fmap_2.
    + intros r time Hin. apply (Hr (rb_worker r)). by apply list_elem_of_fmap_2.
    + apply Forall_forall. intros tv [n Hn]%list_elem_of_lookup.
      destruct (Forall2_lookup_r _ _ _ _ _ Ht Hn) as (t & _ & _ & ?). done.
Qed.

(** ** Looking tasks up *)

Section lookups.
Context (tasks : list TaskSpec) (tvs : list TaskVars).
Context (Hlen : length tasks = length tvs) (Hnd : NoDup (tk_id <$> tasks)).

Lemma zip_tasks : (zip tasks tvs).*1 = tasks.
Proof. apply fst_zip. lia. Qed.

Lemma by_id_lookup {A} (f : TaskVars → A) n t tv :
  tasks !! n = Some t → tvs !! n = Some tv → by_id f (zip tasks tvs) !! tk_id t = Some (f tv).
Proof.
  intros Ht Htv. unfold by_id. apply dict_of_list_lookup.
  - rewrite <-list_fmap_compose. change (fst ∘ _) with (tk_id ∘ @fst TaskSpec TaskVars).
    by rewrite list_fmap_compose, zip_tasks.
  - apply list_elem_of_fmap. exists (t, tv). split; [done|].
    apply (list_elem_of_lookup_2 _ n). by apply lookup_zip_with_Some; eauto.
Qed.

Lemma given_ids (f : TaskVars → option (pydict string var)) rows :
  NoDup ((λ p : TaskSpec * TaskVars, tk_id p.1) <$> rows) →
  NoDup (omap (λ p, pair (tk_id p.1) <$> f p.2) rows).*1 ∧
  (∀ k, k ∈ (omap (λ p : TaskSpec * TaskVars, pair (tk_id p.1) <$> f p.2) rows).*1 →
     k ∈ (λ p : TaskSpec * TaskVars, tk_id p.1) <$> rows).
Proof.
  induction rows as [|[t tv] rows IH]; cbn; [done|].
  intros [Hn Hd]%NoDup_cons. destruct (IH Hd) as [IH1 IH2].
  destruct (f tv); cbn; [|split; [done|intros k Hk; right; by apply IH2]].
  split; [apply NoDup_cons; split; [|done]; intros H; by apply Hn, IH2|].
  intros k [->|Hk]%elem_of_cons; [left|right; by apply IH2].
Qed.

Lemma by_id_given_lookup (f : TaskVars → option (pydict string var)) n t tv :
  tasks !! n = Some t → tvs !! n = Some tv → by_id_given f (zip tasks tvs) !! tk_id t = f tv.
Proof.
  intros Ht Htv. unfold by_id_given.
  assert (Hids : NoDup ((λ p : TaskSpec * TaskVars, tk_id p.1) <$> zip tasks tvs)).
  { change (λ p : TaskSpec * TaskVars, tk_id p.1) with (tk_id ∘ @fst TaskSpec TaskVars).
    by rewrite list_fmap_compose, zip_tasks. }
  destruct (given_ids f _ Hids) as [Hg _].
  assert (Hin : (t, tv) ∈ zip tasks tvs)
    by (apply (list_elem_of_lookup_2 _ n); apply lookup_zip_with_Some; eauto).
  destruct (f tv) as [a|] eqn:Hf.
  - apply dict_of_list_lookup; [done|]. apply list_elem_of_omap.
    exists (t, tv). split; [done|]. cbn. by rewrite Hf.
  - apply eq_None_not_Some. intros [a Ha]. apply dict_of_list_lookup in Ha; [|done].
    apply list_elem_of_omap in Ha as ([t' tv'] & Hin' & Ha). cbn in Ha.
    destruct (f tv') eqn:Hf'; [|done]. injection Ha as Hid _.
    enough (tv' = tv) by congruence.
    apply list_elem_of_lookup in Hin' as [n' Hn'].
    apply lookup_zip_with_Some in Hn' as (? & ? & [= <- <-] & Ht' & Htv').
    enough (n' = n) by congruence. eapply (NoDup_lookup _ _ _ (tk_id t)); [exact Hnd| |].
    + rewrite list_lookup_fmap, Ht'. cbn. by rewrite Hid.
    + by rewrite list_lookup_fmap, Ht.
Qed.
End lookups.

(** ** The contract *)

Definition fits (needed : bool) (eligible : list Worker) (who : option string)
    (a : AllocationResult) : Prop :=
  if needed then
    ∃ w, w ∈ eligible ∧ who = Some (wk_id w) ∧
      (wk_from w <= al_start_time a)%Z ∧ (al_end_time a <= wk_to w)%Z
  else who = None.

(** Is this worker at the task at this time? *)
Definition at_work (who : AllocationResult → option string) (r : pydict string AllocationResult)
    (id : string) (time : Z) (t : TaskSpec) : bool :=
  match r !! tk_id t with
  | Some a => bool_decide (who a = Some id) && (al_start_time a <=? time)%Z &&
              (time <? al_end_time a)%Z
  | None => false
  end.
Definition workload who r id time (tasks : list TaskSpec) : Z :=
  Z.of_nat (length (base.filter (λ t, at_work who r id time t = true) tasks)).

Record sound_allocation (ops : list OperatorSpec) (rbs : list RobotSpec) (tasks : list TaskSpec)
    (r : pydict string AllocationResult) : Prop := {
  sa_keys : keys r = tk_id <$> tasks;
  sa_task t : t ∈ tasks → ∃ a, r !! tk_id t = Some a ∧ al_task_id a = tk_id t ∧
    (0 <= al_start_time a)%Z ∧ al_duration a = duration_of t ∧
    (al_end_time a = al_start_time a + al_duration a)%Z ∧
    fits (tk_requires_operator t) (op_worker <$> eligible_operators t ops) (al_operator_id a) a ∧
    fits (tk_requires_robot t) (rb_worker <$> eligible_robots t rbs) (al_robot_id a) a;
  sa_operators o time : o ∈ ops →
    (workload al_operator_id r (op_id o) time tasks <= Z.max 0 (op_max_concurrent_tasks o))%Z;
  sa_robots b time : b ∈ rbs →
    (workload al_robot_id r (rb_id b) time tasks <= Z.max 0 (rb_max_concurrent_tasks b))%Z
}.

Lemma map_m_Forall2 {S A B} (body : A → M S B) l ys s :
  Forall2 (λ x y, body x s = (Ok y, s)) l ys → map_m body l s = (Ok ys, s).
Proof.
  induction 1 as [|x y l ys Hx _ IH]; [done|]. cbn [map_m].
  by rewrite (bind_ok _ _ _ _ _ Hx), (bind_ok _ _ _ _ _ IH).
Qed.

Section extraction.
Context (ops : list OperatorSpec) (rbs : list RobotSpec) (tasks : list TaskSpec).
Context (tvs : list TaskVars) (σ : assignment) (st : ModelState).
Context (Hst : st = state_of tasks tvs) (Hnd : NoDup (tk_id <$> tasks)).
Context (Hok : Forall2 (λ t tv, task_ok ops rbs t tv σ) tasks tvs).

Definition allocation_of (t : TaskSpec) (tv : TaskVars) : AllocationResult :=
  let given (needed : bool) (a : option (pydict string var)) :=
    if needed then a ≫= chosen σ else None in
  mkAllocation (tk_id t) (given (tk_requires_operator t) (tv_operators tv))
    (given (tk_requires_robot t) (tv_robots tv)) (σ (tv_start tv)) (σ (tv_end tv))
    (σ (tv_end tv) - σ (tv_start tv)).

Lemma extract_one_ok n t tv :
  tasks !! n = Some t → tvs !! n = Some tv → extract_one σ st t tt = (Ok (allocation_of t tv), tt).
Proof.
  intros Ht Htv. pose proof (Forall2_length _ _ _ Hok) as Hlen.
  unfold extract_one, d_get. rewrite Hst. cbn [state_of ms_starts ms_ends ms_operators ms_robots].
  rewrite !(by_id_lookup tasks tvs Hlen Hnd _ n t tv Ht Htv).
  by rewrite !(by_id_given_lookup tasks tvs Hlen Hnd _ n t tv Ht Htv).
Qed.

Lemma extract_results_ok :
  extract_results σ st tasks =
  Ok (dict_of_list (zip (tk_id <$> tasks) (zip_with allocation_of tasks tvs))).
Proof.
  unfold extract_results.
  rewrite (map_m_Forall2 _ _ (zip_with allocation_of tasks tvs)); [done|].
  pose proof (Forall2_length _ _ _ Hok). apply Forall2_same_length_lookup. split.
  - rewrite length_zip_with. lia.
  - intros n t a Ht Ha. apply lookup_zip_with_Some in Ha as (t' & tv & -> & Ht' & Htv).
    assert (t' = t) as -> by congruence. by eapply extract_one_ok.
Qed.

Lemma results_lookup n t tv :
  tasks !! n = Some t → tvs !! n = Some tv →
  dict_of_list (zip (tk_id <$> tasks) (zip_with allocation_of tasks tvs)) !! tk_id t =
    Some (allocation_of t tv).
Proof.
  intros Ht Htv. pose proof (Forall2_length _ _ _ Hok). apply dict_of_list_lookup.
  - rewrite fst_zip; [done|]. rewrite length_zip_with, length_fmap. lia.
  - apply (list_elem_of_lookup_2 _ n), lookup_zip_with_Some.
    exists (tk_id t), (allocation_of t tv). split_and!; [done| |].
    + by rewrite list_lookup_fmap, Ht.
    + apply lookup_zip_with_Some. eauto.
Qed.

Lemma picked_fits needed eligible a tv who :
  picked_if needed eligible a (tv_start tv) (tv_end tv) σ →
  who = (if needed then a ≫= chosen σ else None) →
  ∀ al, al_start_time al = σ (tv_start tv) → al_end_time al = σ (tv_end tv) →
  fits needed eligible who al.
Proof.
  unfold picked_if, fits. intros Hp -> al Hs He. destruct needed; [|done].
  destruct Hp as (d & -> & Hp). destruct (chosen_spec _ _ _ _ _ Hp) as (w & b & Hw & Hb & H1 & Hc & _).
  exists w. split_and!; [done|done|..]; destruct Hp as (_ & _ & _ & _ & Hwin);
    rewrite ?Hs, ?He; by eapply Hwin.
Qed.

(** A task is at a worker in the result only if it is in the solution. *)
Lemma at_work_on_worker (who : AllocationResult → option string) (needed : TaskSpec → bool)
    (assign : pydict string (pydict string var)) (f : TaskVars → option (pydict string var))
    (eligible : TaskSpec → list Worker) w time t :
  (∀ tv, who (allocation_of t tv) = if needed t then f tv ≫= chosen σ else None) →
  (∀ n t tv, tasks !! n = Some t → tvs !! n = Some tv → assign !! tk_id t = f tv) →
  (∀ n tv, tasks !! n = Some t → tvs !! n = Some tv →
     picked_if (needed t) (eligible t) (f tv) (tv_start tv) (tv_end tv) σ) →
  t ∈ tasks →
  at_work who (dict_of_list (zip (tk_id <$> tasks) (zip_with allocation_of tasks tvs)))
    (wk_id w) time t = true →
  on_worker σ st needed assign w time t = true.
Proof.
  intros Hwho Hassign Hpick [n Ht]%list_elem_of_lookup. pose proof (Forall2_length _ _ _ Hok) as Hlen.
  destruct (Forall2_lookup_l _ _ _ _ _ Hok Ht) as (tv & Htv & _).
  unfold at_work, on_worker. rewrite (results_lookup n t tv Ht Htv), Hwho, Hst.
  cbn [state_of ms_starts ms_ends].
  rewrite !(by_id_lookup tasks tvs Hlen Hnd _ n t tv Ht Htv), (Hassign n t tv Ht Htv).
  specialize (Hpick n tv Ht Htv). unfold picked_if in Hpick.
  rewrite !andb_true_iff, bool_decide_eq_true. intros [[Hid Hs] He].
  destruct (needed t); [|done]. destruct Hpick as (d & Hd & Hp). rewrite Hd in *. cbn in Hid.
  destruct (chosen_spec _ _ _ _ _ Hp) as (w' & b & Hw' & Hb & H1 & Hc & _).
  assert (wk_id w' = wk_id w) as <- by congruence.
  cbn [default id]. rewrite Hb, !andb_true_iff. split_and!; [|done|done].
  apply lit_true_pos; [|done]. right. done.
Qed.
End extraction.

(** ** The theorems *)

Section contract.
Context `{CS : CpSolver} (ops : list OperatorSpec) (rbs : list RobotSpec) (tasks : list TaskSpec).

(** An answer comes from a solution. *)
Lemma allocate_solution available r :
  tasks ≠ [] → allocate available ops rbs tasks = Ok (Some r) →
  ∃ st σ, model_ok ops rbs tasks st σ ∧ extract_results σ st tasks = Ok r.
Proof.
  intros Hne. unfold allocate. destruct tasks as [|t0 tl]; [done|]. clear Hne.
  destruct available; [|done]. cbn [negb].
  destruct (build_model ops rbs (t0 :: tl) empty_model) as [[st|e] m] eqn:Hb; [|done].
  destruct (solve 0 m) as [s σ] eqn:Hs. destruct (optimal_or_feasible s) eqn:Ho; [|done].
  intros (r' & Hr & [= ->])%res_bind_Ok. exists st, σ. split; [|done].
  by eapply builds_solved; [apply builds_model|..].
Qed.

Lemma solution_sound st σ r :
  NoDup (tk_id <$> tasks) → model_ok ops rbs tasks st σ → extract_results σ st tasks = Ok r →
  sound_allocation ops rbs tasks r.
Proof.
  intros Hnd (tvs & Hst & Hok & Ho & Hr & _) He.
  rewrite (extract_results_ok ops rbs tasks tvs σ st Hst Hnd Hok) in He. injection He as <-.
  pose proof (Forall2_length _ _ _ Hok) as Hlen.
  assert (Hgiven : ∀ (f : TaskVars → option (pydict string var)) n t tv,
    tasks !! n = Some t → tvs !! n = Some tv → by_id_given f (zip tasks tvs) !! tk_id t = f tv)
    by (intros; by eapply by_id_given_lookup).
  split.
  - rewrite dict_of_list_keys; rewrite fst_zip; rewrite ?length_zip_with, ?length_fmap; done || lia.
  - intros t [n Ht]%list_elem_of_lookup.
    destruct (Forall2_lookup_l _ _ _ _ _ Hok Ht) as (tv & Htv & Hs & Hd & Hpo & Hpr).
    exists (allocation_of σ t tv). split; [by eapply results_lookup|]. cbn.
    split_and!; [done|done|lia|lia|..]; by eapply picked_fits.
  - intros o time Hin. etrans; [|by apply (Ho o time)]. unfold workload, tasks_on.
    apply inj_le, list_filter_length_le. intros t Ht.
    apply (at_work_on_worker ops rbs tasks tvs σ st Hst Hnd Hok _ tk_requires_operator _
      tv_operators (λ t, op_worker <$> eligible_operators t ops) (op_worker o)); [done| | |done].
    + rewrite Hst. apply Hgiven.
    + intros n tv Hn Htv. destruct (Forall2_lookup_lr _ _ _ _ _ _ Hok Hn Htv) as (_ & _ & ? & _). done.
  - intros b time Hin. etrans; [|by apply (Hr b time)]. unfold workload, tasks_on.
    apply inj_le, list_filter_length_le. intros t Ht.
    apply (at_work_on_worker ops rbs tasks tvs σ st Hst Hnd Hok _ tk_requires_robot _
      tv_robots (λ t, rb_worker <$> eligible_robots t rbs) (rb_worker b)); [done| | |done].
    + rewrite Hst. apply Hgiven.
    + intros n tv Hn Htv. destruct (Forall2_lookup_lr _ _ _ _ _ _ Hok Hn Htv) as (_ & _ & _ & ?). done.
Qed.

(** C39. Every allocation that is returned is sound: each task has its nominal duration, an
    eligible operator and robot where it asks for them, inside their hours, and at no time does
    a worker have more tasks than it can take. *)
Theorem allocation_sound available r :
  NoDup (tk_id <$> tasks) → allocate available ops rbs tasks = Ok (Some r) →
  sound_allocation ops rbs tasks r.
Proof.
  intros Hnd Hr. destruct tasks as [|t0 tl] eqn:E.
  - injection Hr as <-. split; [done|by intros t ?%elem_of_nil|..]; intros; unfold workload; rewrite filter_nil; cbn [length]; lia.
  - rewrite <-E in *. destruct (allocate_solution available r) as (st & σ & Hm & He);
      [by rewrite E|done|]. by eapply solution_sound.
Qed.

(** The horizon counts durations only: a task whose eligible operators all start too late
    for it is never allocated, however much time they have. *)
Theorem late_operators_never_allocated available t r :
  t ∈ tasks → tk_requires_operator t = true →
  (∀ o, o ∈ eligible_operators t ops → (horizon_of tasks < op_available_from o + duration_of t)%Z) →
  allocate available ops rbs tasks ≠ Ok (Some r).
Proof.
  intros [n Ht]%list_elem_of_lookup Hreq Hlate Hr.
  destruct (allocate_solution available r) as (st & σ & (tvs & _ & Hok & _ & _ & Hh) & _);
    [by intros ->|done|].
  destruct (Forall2_lookup_l _ _ _ _ _ Hok Ht) as (tv & Htv & Hs & Hd & Hp & _).
  rewrite Hreq in Hp. destruct Hp as (d & _ & Hp).
  destruct (chosen_spec _ _ _ _ _ Hp) as (w & b & Hw & Hb & H1 & _ & _).
  destruct Hp as (_ & _ & _ & _ & Hwin). destruct (Hwin w b Hw Hb H1) as [Hfrom _].
  apply list_elem_of_fmap in Hw as (o & -> & Ho). specialize (Hlate o Ho). cbn in Hfrom.
  apply (Forall_lookup_1 _ _ _ _ Hh) in Htv. cbn in Htv. lia.
Qed.
End contract.

(** ** Errors *)

Section errors.
Context (ops : list OperatorSpec) (rbs : list RobotSpec).

(** Someone can take the task. *)
Definition feasible (t : TaskSpec) : Prop :=
  (tk_requires_operator t = true → eligible_operators t ops ≠ []) ∧
  (tk_requires_robot t = true → eligible_robots t rbs ≠ []).

Lemma check_feasibility_spec tasks :
  check_feasibility ops rbs tasks = [] ↔ ∀ t, t ∈ tasks → feasible t.
Proof.
  unfold check_feasibility. rewrite list_bind_empty. unfold feasible.
  assert (∀ t, (if tk_requires_operator t && bool_decide (eligible_operators t ops = []) then
     ["Task '" +:+ tk_id t +:+ "': no operator with skill '" +:+ tk_required_skill t +:+ "'"]
     else []) = [] ↔ (tk_requires_operator t = true → eligible_operators t ops ≠ [])) as H1.
  { intros t. destruct (tk_requires_operator t); [|done]. cbn. case_bool_decide; naive_solver. }
  assert (∀ t, (if tk_requires_robot t && bool_decide (eligible_robots t rbs = []) then
     ["Task '" +:+ tk_id t +:+ "': no robot with capability '" +:+ tk_required_capability t +:+ "'"]
     else []) = [] ↔ (tk_requires_robot t = true → eligible_robots t rbs ≠ [])) as H2.
  { intros t. destruct (tk_requires_robot t); [|done]. cbn. case_bool_decide; naive_solver. }
  setoid_rewrite app_nil. setoid_rewrite H1. setoid_rewrite H2. done.
Qed.

Lemma runs_pick eligible start finish : runs (pick eligible start finish) (λ _, True).
Proof.
  eapply runs_bind; [apply (runs_map_m _ (λ w p, p.1 = wk_id w))|].
  - intros w _. eapply runs_bind; [apply runs_int_var|]. intros b _. by apply runs_ret.
  - intros vars Hv. eapply runs_bind; [apply runs_modify|]. intros ? _.
    eapply runs_bind; [|intros ? _; by apply runs_ret]. apply runs_for_each. intros w Hw.
    eapply runs_bind; [apply (runs_d_get _ _ _ (λ _, True))|].
    + assert (is_Some (dict_of_list vars !! wk_id w)) as [b Hb]; [|by exists b].
      apply elem_of_keys, keys_of_list.
      apply list_elem_of_lookup in Hw as [n Hn].
      destruct (Forall2_lookup_l _ _ _ _ _ Hv Hn) as (p & Hp & <-).
      apply (list_elem_of_fmap_2 fst). by eapply list_elem_of_lookup_2.
    + intros b _. eapply runs_bind; [apply runs_modify|]. intros ? _. apply runs_modify.
Qed.

Lemma runs_pick_if needed eligible e start finish :
  (needed = true → eligible ≠ []) → runs (pick_if needed eligible e start finish) (λ _, True).
Proof.
  unfold pick_if. intros H. destruct needed; [|by apply runs_ret]. cbn [negb].
  destruct eligible; [by specialize (H eq_refl)|].
  eapply runs_bind; [apply runs_pick|]. intros ? _. by apply runs_ret.
Qed.

Lemma runs_task_vars horizon t : feasible t → runs (task_vars ops rbs horizon t) (λ _, True).
Proof.
  intros [Ho Hr]. unfold task_vars. do 4 (eapply runs_bind; [auto with ate|intros ? _]).
  eapply runs_bind; [apply runs_pick_if; intros Hn ?%fmap_nil_inv; by apply Ho|intros ? _].
  eapply runs_bind; [apply runs_pick_if; intros Hn ?%fmap_nil_inv; by apply Hr|intros ? _].
  by apply runs_ret.
Qed.

Lemma task_vars_fails horizon t m :
  ¬ feasible t → ∃ e m', task_vars ops rbs horizon t m = (Raise (ValueError e), m').
Proof.
  intros Hf. unfold task_vars.
  do 4 (erewrite bind_ok by reflexivity). unfold feasible in Hf.
  unfold pick_if at 1. destruct (tk_requires_operator t) eqn:Ho; cbn [negb].
  - destruct (eligible_operators t ops) as [|o l] eqn:Eo; cbn [fmap list_fmap].
    { erewrite bind_raise by reflexivity. eauto. }
    match goal with |- context [bind (pick ?a ?b ?c) ?k] =>
      edestruct (runs_pick a b c) as (x & m1 & E & _) end.
    erewrite bind_ok by (erewrite bind_ok by exact E; reflexivity).
    unfold pick_if. destruct (tk_requires_robot t) eqn:Hr; cbn [negb].
    + destruct (eligible_robots t rbs) eqn:Er; cbn [fmap list_fmap].
      { erewrite bind_raise by reflexivity. eauto. }
      exfalso. by apply Hf.
    + exfalso. by apply Hf.
  - erewrite bind_ok by reflexivity. unfold pick_if.
    destruct (tk_requires_robot t) eqn:Hr; cbn [negb]; [|exfalso; by apply Hf].
    destruct (eligible_robots t rbs) eqn:Er; cbn [fmap list_fmap].
    { erewrite bind_raise by reflexivity. eauto. }
    exfalso. by apply Hf.
Qed.

Lemma runs_by_id {S A} (f : TaskVars → A) tasks tvs t :
  length tasks = length tvs → t ∈ tasks →
  runs (S := S) (d_get repr_str (by_id f (zip tasks tvs)) (tk_id t)) (λ _, True).
Proof.
  intros Hlen Ht. apply runs_d_get.
  enough (tk_id t ∈ keys (by_id f (zip tasks tvs))) as [v ?]%elem_of_keys by eauto.
  apply keys_of_list. rewrite <-list_fmap_compose.
  change (fst ∘ _) with (tk_id ∘ @fst TaskSpec TaskVars).
  rewrite list_fmap_compose, fst_zip by lia. by apply list_elem_of_fmap_2.
Qed.

Lemma runs_worker_interval tasks tvs needed assign w t :
  length tasks = length tvs → t ∈ tasks →
  runs (worker_interval (state_of tasks tvs) needed assign w t) (λ _, True).
Proof.
  intros Hlen Ht. unfold worker_interval. case_match; [|by apply runs_ret].
  eapply runs_bind; [by apply (runs_by_id tv_start)|intros ? _].
  eapply runs_bind; [by apply (runs_by_id tv_duration)|intros ? _].
  eapply runs_bind; [by apply (runs_by_id tv_end)|intros ? _].
  eapply runs_bind; [apply runs_interval|]. intros ? _. by apply runs_ret.
Qed.

Lemma runs_limit_worker tasks tvs needed assign w :
  length tasks = length tvs →
  runs (limit_worker (state_of tasks tvs) needed assign tasks w) (λ _, True).
Proof.
  intros Hlen. eapply runs_bind.
  - apply (runs_map_m _ (λ _ _, True)). intros t Ht. by apply runs_worker_interval.
  - intros ivs _. destruct (concat ivs); [by apply runs_ret|apply runs_modify].
Qed.

Lemma runs_build_model tasks :
  (∀ t, t ∈ tasks → feasible t) →
  runs (build_model ops rbs tasks)
    (λ st, ∃ tvs, length tasks = length tvs ∧ st = state_of tasks tvs).
Proof.
  intros Hf. eapply runs_bind; [apply (runs_map_m _ (λ _ _, True)); intros; by apply runs_task_vars, Hf|].
  intros tvs Hlen%Forall2_length.
  do 2 (eapply runs_bind; [apply runs_for_each; intros; by apply runs_limit_worker|intros ? _]).
  eapply runs_bind; [apply runs_int_var|intros ? _].
  eapply runs_bind; [apply runs_for_each; intros; apply runs_modify|intros ? _].
  eapply runs_bind; [apply runs_modify|intros ? _]. apply runs_ret. eauto.
Qed.

Lemma map_task_vars_fails horizon tasks m :
  ¬ (∀ t, t ∈ tasks → feasible t) →
  ∃ e m', map_m (task_vars ops rbs horizon) tasks m = (Raise (ValueError e), m').
Proof.
  revert m. induction tasks as [|t tasks IH]; intros m Hf.
  { exfalso. apply Hf. by intros t ?%elem_of_nil. }
  cbn [map_m]. assert (Decision (feasible t)) as [Ht|Ht] by (unfold feasible; apply _).
  - destruct (runs_task_vars horizon t Ht m) as (tv & m1 & E & _).
    erewrite bind_ok by exact E. destruct (IH m1) as (e & m2 & E2).
    { intros H. apply Hf. by intros t' [->|Ht']%elem_of_cons; [|apply H]. }
    erewrite bind_raise by exact E2. eauto.
  - destruct (task_vars_fails horizon t m Ht) as (e & m1 & E).
    erewrite bind_raise by exact E. eauto.
Qed.

(** The allocator answers, with an allocation or with None, exactly when the feasibility
    check finds no task without a worker; otherwise it raises ValueError. *)
Theorem allocate_answers `{CS : CpSolver} tasks :
  if decide (check_feasibility ops rbs tasks = [])
  then ∃ r, allocate true ops rbs tasks = Ok r
  else ∃ e, allocate true ops rbs tasks = Raise (ValueError e).
Proof.
  case_decide as Hc.
  - pose proof (proj1 (check_feasibility_spec tasks) Hc) as Hf.
    unfold allocate. destruct tasks as [|t0 tl] eqn:E; [eauto|]. rewrite <-E in *. cbn [negb].
    destruct (runs_build_model tasks Hf empty_model) as (st & m & Eb & tvs & Hlen & ->).
    rewrite Eb. destruct (solve 0 m) as [s σ]. destruct (optimal_or_feasible s); [|eauto].
    enough (∃ r, extract_results σ (state_of tasks tvs) tasks = Ok r) as [r ->] by (cbn; eauto).
    unfold extract_results.
    destruct (runs_map_m (extract_one σ (state_of tasks tvs)) (λ _ _, True) tasks) with (m := tt)
      as (l & [] & -> & _); [|eauto].
    intros t Ht. unfold extract_one.
    eapply runs_bind; [by apply (runs_by_id tv_start)|intros ? _].
    eapply runs_bind; [by apply (runs_by_id tv_end)|intros ? _].
    by apply runs_ret.
  - assert (Hf : ¬ ∀ t, t ∈ tasks → feasible t) by (by rewrite <-check_feasibility_spec).
    unfold allocate. destruct tasks as [|t0 tl] eqn:E; [done|]. rewrite <-E in *. cbn [negb].
    destruct (map_task_vars_fails (horizon_of tasks) tasks empty_model Hf) as (e & m & Em).
    exists e. unfold build_model. by rewrite (bind_raise _ _ _ _ _ Em).
Qed.
End errors.

(** ** A shift *)

Definition ann (from : Z) : OperatorSpec := mkOperator "ann" ["solder"] 1 from 10000.
Definition solder : TaskSpec := mkTask "t1" "solder" "" 3 true false 0.
Definition inspect : TaskSpec := mkTask "t2" "" "" 2 true false 0.
Definition from_list (l : list Z) : assignment := λ v, nth v l 0%Z.
Definition ann_solves : CpSolver := knowing (from_list [0; 3; 3; 1; 3; 5; 2; 1; 5]%Z).

Example ann_works :
  allocate (CS := ann_solves) true [ann 0] [] [solder; inspect] =
  Ok (Some (PyDict [("t1", mkAllocation "t1" (Some "ann") None 0 3 3);
                    ("t2", mkAllocation "t2" (Some "ann") None 3 5 2)])).
Proof. vm_compute. reflexivity. Qed.

Lemma allocation_sound_witness :
  (workload al_operator_id (PyDict [("t1", mkAllocation "t1" (Some "ann") None 0 3 3);
     ("t2", mkAllocation "t2" (Some "ann") None 3 5 2)]) "ann" 2 [solder; inspect] <= 1)%Z.
Proof.
  apply (sa_operators [ann 0] [] _ _ (allocation_sound (CS := ann_solves) [ann 0] []
    [solder; inspect] true _ ltac:(repeat constructor; set_solver) ltac:(vm_compute; reflexivity))
    (ann 0) 2). left.
Defined.

(** An operator who comes at 100 could solder then; the model ends at 14. *)
Lemma late_shift_is_sound :
  sound_allocation [ann 100] [] [solder] (PyDict [("t1", mkAllocation "t1" (Some "ann") None 100 103 3)]).
Proof.
  split; [done| | |by intros b time ?%elem_of_nil].
  - intros t ->%list_elem_of_singleton. eexists. split; [done|]. cbn. split_and!; try done; try lia.
    unfold fits. cbn. exists (op_worker (ann 100)). split_and!; [left|done|cbn; lia|cbn; lia].
  - intros o time ->%list_elem_of_singleton. unfold workload. cbn.
    destruct (decide _); cbn; lia.
Qed.
Lemma late_operators_never_allocated_witness :
  allocate (CS := ann_solves) true [ann 100] [] [solder] ≠ Ok (Some ∅).
Proof.
  apply (late_operators_never_allocated [ann 100] [] [solder] true solder).
  - left.
  - done.
  - intros o Ho. vm_compute in Ho. apply list_elem_of_singleton in Ho as ->. vm_compute. done.
Defined.
