(* ===== verification/Changeover.v ===== *)
(** * Product change-overs (src/src/ate_platform/scheduler/changeover_optimizer.py)

    A matrix of costs between products, and the order of production of least cost, which the
    constraint solver looks for. The positions of the sequence are variables over the indices
    of the product list. *)

From S2P Require Import Prelude PyDict PyStr CpModel.

Record ChangeoverCost : Type := mkCost {
  cc_from : string; cc_to : string; cc_cost : Z; cc_time_minutes : Z
}.
(** [ChangeoverTransition] has the same fields. *)
Definition ChangeoverTransition : Type := ChangeoverCost.
Record ChangeoverResult : Type := mkChangeover {
  cr_sequence : list string; cr_total_cost : Z; cr_total_time_minutes : Z;
  cr_transitions : list ChangeoverTransition
}.

(** [_products] lists a set in the order its members came. *)
Record ChangeoverOptimizer : Type := mkOptimizer {
  co_matrix : pydict (string * string) ChangeoverCost; co_products : list string
}.
Definition new_optimizer : ChangeoverOptimizer := mkOptimizer ∅ [].

Definition add_product (p : string) (l : list string) : list string :=
  if decide (p ∈ l) then l else l ++ [p].

Definition add_changeover_cost (a b : string) (cost time_minutes : Z) : M ChangeoverOptimizer unit :=
  if decide (a = b) then
    raise (ValueError ("Cannot add changeover cost between identical products: '" +:+ a +:+ "'"))
  else if (cost <? 0)%Z then
    raise (ValueError ("Cost must be non-negative, got " +:+ pretty cost))
  else if (time_minutes <? 0)%Z then
    raise (ValueError ("time_minutes must be non-negative, got " +:+ pretty time_minutes))
  else modify (λ o, mkOptimizer (<[(a, b) := mkCost a b cost time_minutes]> (co_matrix o))
                      (add_product b (add_product a (co_products o)))).

Definition get_changeover_cost (o : ChangeoverOptimizer) (a b : string) : option ChangeoverCost :=
  co_matrix o !! (a, b).
Definition get_products (o : ChangeoverOptimizer) : list string := py_sorted (co_products o).
Definition get_changeover_matrix (o : ChangeoverOptimizer) :
    pydict string (pydict string (option ChangeoverCost)) :=
  let ps := get_products o in
  dict_of_list ((λ a, (a, dict_of_list ((λ b,
    (b, if decide (a = b) then None else co_matrix o !! (a, b))) <$> ps : list _))) <$> ps : list _).
Definition remove_changeover_cost (a b : string) : M ChangeoverOptimizer bool :=
  o <- get ;;
  modify (λ o, mkOptimizer (delete (a, b) (co_matrix o)) (co_products o)) ;;;
  ret (has_key (a, b) (co_matrix o)).

(** [[(a, b), ...]], printed. *)
Definition repr_pair (p : string * string) : string :=
  "(" +:+ repr_str p.1 +:+ ", " +:+ repr_str p.2 +:+ ")".
Definition repr_pairs (l : list (string * string)) : string :=
  "[" +:+ str_join ", " (repr_pair <$> l) +:+ "]".

(** The consecutive pairs of a sequence. *)
Fixpoint steps_of {A} (l : list A) : list (A * A) :=
  match l with
  | a :: (b :: _) as l' => (a, b) :: steps_of l'
  | _ => []
  end.

Definition total (f : ChangeoverTransition → Z) (l : list ChangeoverTransition) : Z :=
  foldr (λ t acc, f t + acc)%Z 0%Z l.

Section optimizer.
Context (o : ChangeoverOptimizer).

Definition compute_sequence_cost (sequence : list string) : res ChangeoverResult :=
  match sequence with
  | [] => Raise (ValueError "Cannot compute cost of empty sequence")
  | _ =>
      transitions ← mapM (λ p : string * string,
        match co_matrix o !! p with
        | Some c => Ok (mkCost p.1 p.2 (cc_cost c) (cc_time_minutes c))
        | None => Raise (ValueError ("Missing changeover cost for transition: " +:+ p.1 +:+ "→" +:+ p.2))
        end) (steps_of sequence);
      Ok (mkChangeover sequence (total cc_cost transitions) (total cc_time_minutes transitions)
            transitions)
  end.

(** ** The constraint model *)

Section model.
Context (products : list string).

(** [{p: i for i, p in enumerate(products)}]: the last index of a product. *)
Definition product_to_idx : pydict string nat := dict_of_list (imap (λ i p, (p, i)) products).

(** The ordered pairs of distinct indices with a known cost. *)
Definition known_pairs : list (nat * nat * ChangeoverCost) :=
  from_idx ← seq 0 (length products);
  to_idx ← seq 0 (length products);
  if decide (from_idx = to_idx) then []
  else match products !! from_idx, products !! to_idx with
       | Some from_p, Some to_p =>
           match co_matrix o !! (from_p, to_p) with
           | Some c => [(from_idx, to_idx, c)]
           | None => []
           end
       | _, _ => []
       end.

(** The variable that says that positions [p] and [q] hold this pair. *)
Definition pair_var (p q : var) (x : nat * nat * ChangeoverCost) : M cp_model var :=
  let '(from_idx, to_idx, _) := x in
  b <- new_bool_var ;;
  is_from <- new_bool_var ;;
  is_to <- new_bool_var ;;
  add (Linear (Var p) CEq (Const (Z.of_nat from_idx)) [pos_lit is_from]) ;;;
  add (Linear (Var p) CNe (Const (Z.of_nat from_idx)) [neg_lit is_from]) ;;;
  add (Linear (Var q) CEq (Const (Z.of_nat to_idx)) [pos_lit is_to]) ;;;
  add (Linear (Var q) CNe (Const (Z.of_nat to_idx)) [neg_lit is_to]) ;;;
  add (BoolAnd [pos_lit is_from; pos_lit is_to] [pos_lit b]) ;;;
  add (BoolOr [neg_lit is_from; neg_lit is_to] [neg_lit b]) ;;;
  ret b.

Definition weighted (f : ChangeoverCost → Z) (vars : list var) : lexpr :=
  lsum (zip_with (λ b (x : nat * nat * ChangeoverCost), Times (f x.2) (Var b)) vars known_pairs).
Definition sum_of (f : ChangeoverCost → Z) : Z :=
  foldr (λ (x : nat * nat * ChangeoverCost) acc, f x.2 + acc)%Z 0%Z known_pairs.

Definition transition_vars (pq : var * var) : M cp_model (var * var) :=
  bs <- map_m (pair_var pq.1 pq.2) known_pairs ;;
  match bs with
  | [] => tc <- new_int_var 0 0 ;; tt' <- new_int_var 0 0 ;; ret (tc, tt')
  | _ =>
      add (ExactlyOne (pos_lit <$> bs)) ;;;
      tc <- new_int_var 0 (sum_of cc_cost) ;;
      add (Linear (Var tc) CEq (weighted cc_cost bs) []) ;;;
      tt' <- new_int_var 0 (sum_of cc_time_minutes) ;;
      add (Linear (Var tt') CEq (weighted cc_time_minutes bs) []) ;;;
      ret (tc, tt')
  end.

Definition matrix_sum (f : ChangeoverCost → Z) : Z :=
  foldr (λ c acc, f c + acc)%Z 0%Z (values (co_matrix o)).

(** The positions and the two totals. *)
Definition build_changeover (start_product : option string) : M cp_model (list var * var * var) :=
  let n := Z.of_nat (length products) in
  position <- map_m (λ _, new_int_var 0 (n - 1)) products ;;
  add (AllDifferent position) ;;;
  match start_product with
  | Some start =>
      match position, product_to_idx !! start with
      | p :: _, Some i => add (Linear (Var p) CEq (Const (Z.of_nat i)) [])
      | _, _ => raise (KeyError (repr_str start))
      end
  | None => ret tt
  end ;;;
  ts <- map_m transition_vars (steps_of position) ;;
  total_cost <- new_int_var 0 (matrix_sum cc_cost) ;;
  add (Linear (Var total_cost) CEq (lsum ((λ t : var * var, Var t.1) <$> ts)) []) ;;;
  total_time <- new_int_var 0 (matrix_sum cc_time_minutes) ;;
  add (Linear (Var total_time) CEq (lsum ((λ t : var * var, Var t.2) <$> ts)) []) ;;;
  minimize (Var total_cost) ;;;
  ret (position, total_cost, total_time).

(** [idx_to_product[solver.Value(p)]] *)
Definition product_at (σ : assignment) (p : var) : res string :=
  match (if (0 <=? σ p)%Z then products !! Z.to_nat (σ p) else None) with
  | Some x => Ok x
  | None => Raise (KeyError (pretty (σ p)))
  end.
Definition read_changeover (σ : assignment) (position : list var) (total_cost total_time : var) :
    res ChangeoverResult :=
  sequence ← mapM (product_at σ) position;
  transitions ← mapM (λ p : string * string,
    match co_matrix o !! p with
    | Some c => Ok (mkCost p.1 p.2 (cc_cost c) (cc_time_minutes c))
    | None => Raise (KeyError (repr_pair p))
    end) (steps_of sequence);
  Ok (mkChangeover sequence (σ total_cost) (σ total_time) transitions).

Definition solve_cpsat `{CS : CpSolver} (start_product : option string) : res (option ChangeoverResult) :=
  match build_changeover start_product empty_model with
  | (Raise e, _) => Raise e
  | (Ok (position, total_cost, total_time), m) =>
      let '(s, σ) := solve 0 m in
      if optimal_or_feasible s
      then r ← read_changeover σ position total_cost total_time; Ok (Some r)
      else Ok None
  end.

Definition missing_transitions : list (string * string) :=
  let unique := keys (dict_of_list ((λ p, (p, tt)) <$> products : list _)) in
  a ← unique; b ← unique;
  if bool_decide (a = b) || has_key (a, b) (co_matrix o) then [] else [(a, b)].
End model.

Definition optimize_sequence `{CS : CpSolver} (available : bool) (products : list string)
    (start_product : option string) : res (option ChangeoverResult) :=
  match products with
  | [] => Raise (ValueError "Cannot optimize an empty product list")
  | _ =>
      match start_product with
      | Some start =>
          if decide (start ∈ products) then Ok tt
          else Raise (ValueError ("start_product '" +:+ start +:+ "' not in products list: " +:+
                                  repr_strs products))
      | None => Ok tt
      end ≫= λ _,
      match products with
      | [_] => Ok (Some (mkChangeover products 0 0 []))
      | _ =>
          match missing_transitions products with
          | [] => if available then solve_cpsat products start_product else Ok None
          | missing =>
              Raise (ValueError ("Missing changeover costs for transitions: " +:+ repr_pairs missing))
          end
      end
  end.
End optimizer.

(** ** Consecutive pairs *)

Lemma steps_of_fmap {A B} (f : A → B) (l : list A) :
  steps_of (f <$> l) = (λ p : A * A, (f p.1, f p.2)) <$> steps_of l.
Proof.
  induction l as [|a [|b l] IH]; [done..|].
  rewrite !fmap_cons in *. cbn [steps_of fmap list_fmap fst snd] in *. by rewrite IH.
Qed.

Lemma steps_of_distinct {A} (l : list A) p : NoDup l → p ∈ steps_of l → p.1 ≠ p.2 ∧ p.1 ∈ l ∧ p.2 ∈ l.
Proof.
  induction l as [|a [|b l] IH]; cbn [steps_of]; [by intros _ ?%elem_of_nil..|].
  intros [Ha Hnd]%NoDup_cons [->|Hp]%elem_of_cons.
  - cbn. split_and!; [intros ->; apply Ha; left|left|right; left].
  - destruct (IH Hnd Hp) as (? & ? & ?). split_and!; [done|by right..].
Qed.

(** ** What the solutions say *)

Section solutions.
Context (o : ChangeoverOptimizer) (products : list string).

Lemma known_pairs_spec i j c :
  (i, j, c) ∈ known_pairs o products ↔
  i ≠ j ∧ ∃ a b, products !! i = Some a ∧ products !! j = Some b ∧ co_matrix o !! (a, b) = Some c.
Proof.
  unfold known_pairs. rewrite list_elem_of_bind. setoid_rewrite list_elem_of_bind.
  setoid_rewrite elem_of_seq. split.
  - intros (i' & (j' & Hin & _) & _). case_decide; [by apply elem_of_nil in Hin|].
    repeat case_match; try by apply elem_of_nil in Hin.
    apply list_elem_of_singleton in Hin. simplify_eq. eauto 10.
  - intros (Hij & a & b & Ha & Hb & Hc). exists i.
    pose proof (lookup_lt_Some _ _ _ Ha). pose proof (lookup_lt_Some _ _ _ Hb).
    split; [|lia]. exists j. split; [|lia]. rewrite decide_False, Ha, Hb, Hc by done. left.
Qed.

Lemma builds_pair_var p q x :
  builds (pair_var p q x)
    (λ b σ, is_bool σ b ∧ (σ b = 1 → σ p = Z.of_nat x.1.1 ∧ σ q = Z.of_nat x.1.2)%Z).
Proof.
  destruct x as [[i j] c]. eapply builds_weaken.
  - apply builds_bind; [apply builds_bool_var|intros b].
    apply builds_bind; [apply builds_bool_var|intros f].
    apply builds_bind; [apply builds_bool_var|intros t].
    do 6 (apply builds_bind; [apply builds_add|intros ?]). apply builds_ret.
  - cbn beta.
    intros b' σ (b & Hb & f & Hf & t & Ht & _ & H1 & _ & _ & _ & H3 & _ & _ & _ & Hand & _ & _ & ->).
    split; [done|]. intros Hb1. cbn [holds forallb leval cmp_holds fst snd] in *.
    rewrite (proj2 (lit_true_pos σ b Hb) Hb1) in Hand.
    destruct (lit_true σ (pos_lit f)); [|done]. destruct (lit_true σ (pos_lit t)); [|done].
    cbn in H1, H3. lia.
Qed.

Lemma builds_transition_vars pq :
  builds (transition_vars o products pq)
    (λ t σ, known_pairs o products = [] ∨
       ∃ i j c, (i, j, c) ∈ known_pairs o products ∧ σ pq.1 = Z.of_nat i ∧ σ pq.2 = Z.of_nat j ∧
         σ t.1 = cc_cost c ∧ σ t.2 = cc_time_minutes c).
Proof.
  eapply builds_weaken.
  - apply builds_bind; [apply builds_map_m; intros; apply builds_pair_var|intros bs].
    instantiate (1 := λ bs t σ, bs = [] ∨ (count_true σ (pos_lit <$> bs) = 1 ∧
      σ t.1 = leval σ (weighted o products cc_cost bs) ∧
      σ t.2 = leval σ (weighted o products cc_time_minutes bs))). cbn beta.
    destruct bs as [|b bs].
    + eapply builds_weaken; [|by left].
      apply builds_bind; [apply builds_int_var|intros tc].
      apply builds_bind; [apply builds_int_var|intros tm]. apply builds_ret.
    + eapply builds_weaken.
      * apply builds_bind; [apply builds_add|intros ?].
        apply builds_bind; [apply builds_int_var|intros tc].
        apply builds_bind; [apply builds_add|intros ?].
        apply builds_bind; [apply builds_int_var|intros tm].
        apply builds_bind; [apply builds_add|intros ?]. apply builds_ret.
      * cbn beta. intros t σ (_ & H1 & tc & _ & _ & H2 & tm & _ & _ & H3 & ->). right.
        cbn [holds forallb implb leval cmp_holds fst snd] in *.
        apply Nat.eqb_eq in H1. apply Z.eqb_eq in H2, H3. done.
  - cbn beta. intros t σ (bs & Hbs & [->|(Hone & Hc & Ht)]).
    + left. by apply Forall2_nil_inv_r in Hbs.
    + right. destruct (exactly_one_sum σ (known_pairs o products) bs) as (n & x & b & Hx & Hb & H1 & Hsum).
      { eapply Forall2_impl; [exact Hbs|]. by intros ? ? []. }
      { done. }
      destruct (Forall2_lookup_lr _ _ _ _ _ _ Hbs Hx Hb) as [_ Hpq].
      destruct (Hpq H1) as [Hp Hq]. destruct x as [[i j] c]. exists i, j, c.
      split_and!; [by eapply list_elem_of_lookup_2|done|done|..].
      * rewrite Hc. apply (Hsum (λ x, cc_cost x.2)).
      * rewrite Ht. apply (Hsum (λ x, cc_time_minutes x.2)).
Qed.

Definition step_known (σ : assignment) (pq t : var * var) : Prop :=
  known_pairs o products = [] ∨
  ∃ i j c, (i, j, c) ∈ known_pairs o products ∧ σ pq.1 = Z.of_nat i ∧ σ pq.2 = Z.of_nat j ∧
    σ t.1 = cc_cost c ∧ σ t.2 = cc_time_minutes c.

(** The positions are a permutation of the indices, and the totals add up. *)
Definition changeover_ok (start : option string) (r : list var * var * var) (σ : assignment) : Prop :=
  let '(position, tc, tm) := r in
  length position = length products ∧ NoDup (σ <$> position) ∧
  (∀ p, p ∈ position → 0 <= σ p < Z.of_nat (length products))%Z ∧
  (∀ s, start = Some s → ∃ p l i, position = p :: l ∧ product_to_idx products !! s = Some i ∧
     σ p = Z.of_nat i) ∧
  ∃ ts, Forall2 (step_known σ) (steps_of position) ts ∧
    σ tc = foldr (λ t acc, σ t.1 + acc)%Z 0%Z ts ∧ σ tm = foldr (λ t acc, σ t.2 + acc)%Z 0%Z ts.

Lemma foldr_leval (f : var * var → var) σ ts :
  leval σ (lsum ((λ t, Var (f t)) <$> ts)) = foldr (λ t acc, σ (f t) + acc)%Z 0%Z ts.
Proof. rewrite leval_lsum. by induction ts; cbn; congruence. Qed.

Lemma builds_changeover start : builds (build_changeover o products start) (changeover_ok start).
Proof.
  eapply builds_weaken.
  - apply builds_bind; [apply builds_map_m; intros; apply builds_int_var|intros position].
    apply builds_bind; [apply builds_add|intros ?].
    apply builds_bind.
    + instantiate (1 := λ _ σ, ∀ s, start = Some s → ∃ p l i, position = p :: l ∧
        product_to_idx products !! s = Some i ∧ σ p = Z.of_nat i).
      destruct start as [s|]; [|eapply builds_weaken; [apply builds_ret|]; done].
      destruct position as [|p l]; [apply builds_raise|].
      destruct (product_to_idx products !! s) as [i|] eqn:Ei; [|apply builds_raise].
      eapply builds_weaken; [apply builds_add|]. intros [] σ Hs s' [= <-].
      cbn [holds forallb implb leval cmp_holds] in Hs. exists p, l, i.
      split_and!; [done|done|lia].
    + intros ?. apply builds_bind; [apply builds_map_m; intros; apply builds_transition_vars|intros ts].
      apply builds_bind; [apply builds_int_var|intros tc].
      apply builds_bind; [apply builds_add|intros ?].
      apply builds_bind; [apply builds_int_var|intros tm].
      apply builds_bind; [apply builds_add|intros ?].
      apply builds_bind; [apply builds_minimize|intros ?]. apply builds_ret.
  - cbn beta. intros r σ (position & Hdom & _ & Hdiff & _ & Hstart & ts & Hts & tc & _ & _ & Hc
      & tm & _ & _ & Ht & _ & _ & ->).
    cbn [holds forallb implb leval cmp_holds] in Hdiff, Hc, Ht.
    apply bool_decide_eq_true in Hdiff. apply Z.eqb_eq in Hc, Ht.
    rewrite (foldr_leval fst) in Hc. rewrite (foldr_leval snd) in Ht.
    pose proof (Forall2_length _ _ _ Hdom). unfold changeover_ok. split_and!; [done|done| |done|].
    + intros p [n Hn]%list_elem_of_lookup.
      destruct (Forall2_lookup_r _ _ _ _ _ Hdom Hn) as (x & _ & Hx). lia.
    + exists ts. split_and!; [exact Hts|done|done].
Qed.
End solutions.

(** ** Reading the answer *)

Lemma lookup_seq_default (l : list string) : (λ i, default "" (l !! i)) <$> seq 0 (length l) = l.
Proof.
  induction l as [|x l IH] using rev_ind; [done|].
  rewrite length_app, Nat.add_comm, seq_S, fmap_app. cbn [Nat.add]. f_equal.
  - etrans; [|apply IH]. apply list_fmap_ext. intros n i Hi%lookup_seq.
    rewrite lookup_app_l by lia. done.
  - cbn. by rewrite lookup_app_r, Nat.sub_diag by lia.
Qed.

(** Distinct indices below the length, as many as the list is long, are all the indices. *)
Lemma indices_permutation (l : list nat) :
  NoDup l → (∀ i, i ∈ l → i < length l) → l ≡ₚ seq 0 (length l).
Proof.
  intros Hnd Hb. apply submseteq_length_Permutation; [|by rewrite length_seq].
  apply NoDup_submseteq; [done|]. intros i Hi. apply elem_of_seq. split; [lia|]. by apply Hb.
Qed.

Section reading.
Context (o : ChangeoverOptimizer) (products : list string) (σ : assignment).

Definition value_at (p : var) : string := default "" (products !! Z.to_nat (σ p)).

Lemma product_at_value p :
  (0 <= σ p < Z.of_nat (length products))%Z →
  product_at products σ p = Ok (value_at p) ∧ products !! Z.to_nat (σ p) = Some (value_at p).
Proof.
  intros H. unfold product_at, value_at. rewrite (proj2 (Z.leb_le _ _)) by lia.
  destruct (lookup_lt_is_Some_2 products (Z.to_nat (σ p))) as [x Hx]; [lia|]. by rewrite Hx.
Qed.

Lemma read_sequence position :
  (∀ p, p ∈ position → 0 <= σ p < Z.of_nat (length products))%Z →
  mapM (product_at products σ) position = Ok (value_at <$> position).
Proof.
  intros H. apply res_mapM_Ok. apply Forall2_fmap_r, Forall2_same_length_lookup. split; [done|].
  intros n p p' Hp Hp'. assert (p' = p) as -> by congruence.
  apply product_at_value, H. by eapply list_elem_of_lookup_2.
Qed.

Lemma sequence_permutation position :
  length position = length products → NoDup (σ <$> position) →
  (∀ p, p ∈ position → 0 <= σ p < Z.of_nat (length products))%Z →
  value_at <$> position ≡ₚ products.
Proof.
  intros Hlen Hnd Hb.
  set (idx := (λ p, Z.to_nat (σ p)) <$> position).
  assert (length idx = length products) as Hidx by (unfold idx; by rewrite length_fmap).
  assert (idx ≡ₚ seq 0 (length products)) as Hp.
  { rewrite <-Hidx. apply indices_permutation.
    - unfold idx. change (λ p, Z.to_nat (σ p)) with (Z.to_nat ∘ σ). rewrite list_fmap_compose.
      apply NoDup_fmap_2_strong; [|done].
      intros x y (p & -> & Hp)%list_elem_of_fmap (q & -> & Hq)%list_elem_of_fmap E.
      pose proof (Hb p Hp). pose proof (Hb q Hq). lia.
    - intros i (p & -> & Hin)%list_elem_of_fmap. specialize (Hb p Hin). lia. }
  transitivity ((λ i, default "" (products !! i)) <$> idx).
  - unfold idx. by rewrite <-list_fmap_compose.
  - by rewrite Hp, lookup_seq_default.
Qed.

(** The costs of the solution are those of the matrix. *)
Definition cost_of {E} (error : string * string → res E) (mk : string * string → ChangeoverCost → E)
    (p : string * string) : res E :=
  match co_matrix o !! p with Some c => Ok (mk p c) | None => error p end.
Definition transition_of (p : string * string) (c : ChangeoverCost) : ChangeoverTransition :=
  mkCost p.1 p.2 (cc_cost c) (cc_time_minutes c).

Lemma step_cost position pq t error x :
  NoDup (σ <$> position) → (∀ p, p ∈ position → 0 <= σ p < Z.of_nat (length products))%Z →
  pq ∈ steps_of position → step_known o products σ pq t → (∀ p, is_ok (error p) = false) →
  cost_of error transition_of (value_at pq.1, value_at pq.2) = Ok x →
  σ t.1 = cc_cost x ∧ σ t.2 = cc_time_minutes x.
Proof.
  intros Hnd Hb Hin Hk He Hx.
  destruct (steps_of_distinct position pq) as (_ & H1 & H2); [by eapply NoDup_fmap_1|done|].
  destruct (steps_of_distinct (σ <$> position) (σ pq.1, σ pq.2) Hnd) as (Hne & _).
  { rewrite steps_of_fmap. by apply (list_elem_of_fmap_2 (λ p : var * var, (σ p.1, σ p.2))). }
  cbn in Hne. pose proof (Hb _ H1). pose proof (Hb _ H2).
  destruct (product_at_value pq.1) as [_ E1]; [done|].
  destruct (product_at_value pq.2) as [_ E2]; [done|].
  unfold cost_of in Hx. destruct (co_matrix o !! (value_at pq.1, value_at pq.2)) as [c|] eqn:Ec;
    [|specialize (He (value_at pq.1, value_at pq.2)); by rewrite Hx in He].
  injection Hx as <-. cbn. destruct Hk as [Hk|(i & j & c' & Hc' & Hi & Hj & -> & ->)].
  - assert ((Z.to_nat (σ pq.1), Z.to_nat (σ pq.2), c) ∈ known_pairs o products) as Hkn.
    { apply known_pairs_spec. split; [lia|]. eauto. }
    rewrite Hk in Hkn. by apply elem_of_nil in Hkn.
  - apply known_pairs_spec in Hc' as (_ & a & b & Ha & Hb' & Hab).
    rewrite Hi, Nat2Z.id in E1. rewrite Hj, Nat2Z.id in E2. naive_solver.
Qed.

Lemma total_costs position error l ts trs :
  NoDup (σ <$> position) → (∀ p, p ∈ position → 0 <= σ p < Z.of_nat (length products))%Z →
  (∀ p, is_ok (error p) = false) → (∀ pq, pq ∈ l → pq ∈ steps_of position) →
  Forall2 (step_known o products σ) l ts →
  Forall2 (λ pq x, cost_of error transition_of (value_at pq.1, value_at pq.2) = Ok x) l trs →
  foldr (λ t acc, σ t.1 + acc)%Z 0%Z ts = total cc_cost trs ∧
  foldr (λ t acc, σ t.2 + acc)%Z 0%Z ts = total cc_time_minutes trs.
Proof.
  intros Hnd Hb He Hin Hts. revert trs.
  induction Hts as [|pq t l ts Hk _ IH]; intros trs Htrs.
  - by apply Forall2_nil_inv_l in Htrs as ->.
  - apply Forall2_cons_inv_l in Htrs as (x & trs' & Hx & Htrs & ->).
    destruct (step_cost position pq t error x) as [H1 H2]; [done|done|apply Hin; left|done..|].
    destruct (IH (λ q H, Hin q (list_elem_of_further _ _ _ H)) trs' Htrs) as [H3 H4].
    unfold total in *. cbn [foldr]. by rewrite H1, H2, H3, H4.
Qed.

Lemma read_changeover_spec start position tc tm r :
  position ≠ [] → changeover_ok o products start (position, tc, tm) σ →
  read_changeover o products σ position tc tm = Ok r →
  cr_sequence r = value_at <$> position ∧ compute_sequence_cost o (cr_sequence r) = Ok r.
Proof.
  intros Hne (Hlen & Hnd & Hb & _ & ts & Hts & Hc & Ht) Hr.
  unfold read_changeover in Hr. rewrite read_sequence in Hr by done.
  cbn [mbind res_mbind res_bind] in Hr. apply res_bind_Ok in Hr as (trs & Htrs & [= <-]).
  cbn [cr_sequence]. split; [done|]. rewrite Hc, Ht.
  pose proof Htrs as Hf. apply res_mapM_Ok in Hf. rewrite steps_of_fmap in Hf.
  apply Forall2_fmap_l in Hf.
  destruct (total_costs position (λ p, Raise (KeyError (repr_pair p))) (steps_of position) ts trs)
    as [-> ->]; [done..|].
  unfold compute_sequence_cost. destruct position as [|p l]; [done|]. rewrite fmap_cons.
  erewrite (proj2 (res_mapM_Ok _ _ trs)); [done|].
  rewrite <-fmap_cons, steps_of_fmap. apply Forall2_fmap_l. eapply Forall2_impl; [exact Hf|].
  intros pq x Hx. cbn in *. by destruct (co_matrix o !! _).
Qed.
End reading.

(** ** The cost matrix *)

(** Costs are filed under their products, are not negative and never join a product to itself. *)
Definition matrix_wf (o : ChangeoverOptimizer) : Prop :=
  dict_wf (co_matrix o) ∧
  ∀ a b c, co_matrix o !! (a, b) = Some c →
    a ≠ b ∧ cc_from c = a ∧ cc_to c = b ∧ (0 <= cc_cost c)%Z ∧ (0 <= cc_time_minutes c)%Z ∧
    a ∈ co_products o ∧ b ∈ co_products o.

Lemma new_optimizer_wf : matrix_wf new_optimizer.
Proof. split; [apply dict_wf_empty|done]. Qed.

Lemma elem_of_add_product p q l : p ∈ add_product q l ↔ p = q ∨ p ∈ l.
Proof.
  unfold add_product. case_decide; [naive_solver|].
  rewrite elem_of_app, list_elem_of_singleton. tauto.
Qed.

Lemma add_changeover_cost_wf a b cost time : preserves matrix_wf (add_changeover_cost a b cost time).
Proof.
  intros o [Hd Hm]. unfold add_changeover_cost.
  case_decide; [done|]. destruct (Z.ltb_spec cost 0); [done|]. destruct (Z.ltb_spec time 0); [done|].
  split; [by apply dict_wf_insert|]. cbn [modify snd co_matrix co_products]. intros x y c.
  rewrite dict_lookup_insert, !elem_of_add_product. case_decide as Hk.
  - injection Hk as <- <-. intros [= <-]. cbn. tauto.
  - intros (? & ? & ? & ? & ? & ? & ?)%Hm. tauto.
Qed.

Lemma remove_changeover_cost_wf a b : preserves matrix_wf (remove_changeover_cost a b).
Proof.
  intros o [Hd Hm]. unfold remove_changeover_cost. rewrite bind_get. cbn.
  split; [by apply dict_wf_delete|]. cbn. intros x y c. rewrite dict_lookup_delete.
  by case_decide; [|apply Hm].
Qed.

(** ** The theorems *)

Section theorems.
Context `{CS : CpSolver} (o : ChangeoverOptimizer).

Lemma solve_cpsat_spec products start r :
  products ≠ [] → solve_cpsat o products start = Ok (Some r) →
  cr_sequence r ≡ₚ products ∧ (∀ s, start = Some s → head (cr_sequence r) = Some s) ∧
  compute_sequence_cost o (cr_sequence r) = Ok r.
Proof.
  intros Hne. unfold solve_cpsat.
  destruct (build_changeover o products start empty_model) as [[[[position tc] tm]|e] m] eqn:Hb; [|done].
  destruct (solve 0 m) as [s σ] eqn:Hs. destruct (optimal_or_feasible s) eqn:Ho; [|done].
  intros (r' & Hr & [= ->])%res_bind_Ok.
  assert (changeover_ok o products start (position, tc, tm) σ) as Hok
    by (eapply builds_solved; [apply builds_changeover|..]; done).
  pose proof Hok as (Hlen & Hnd & Hdom & Hstart & _).
  assert (position ≠ []) as Hp by (intros ->; by destruct products).
  destruct (read_changeover_spec o products σ start position tc tm r Hp Hok Hr) as [Hseq Hcost].
  split_and!; [rewrite Hseq; by apply sequence_permutation| |done].
  intros s' ->. destruct (Hstart s' eq_refl) as (p & l & i & -> & Hi & Hpi). rewrite Hseq.
  cbn. f_equal. unfold value_at. rewrite Hpi, Nat2Z.id.
  apply dict_of_list_lookup_inv, elem_of_lookup_imap in Hi as (j & q & [= -> ->] & Hq). by rewrite Hq.
Qed.

Lemma optimize_sequence_spec available products start r :
  optimize_sequence o available products start = Ok (Some r) →
  cr_sequence r ≡ₚ products ∧ (∀ s, start = Some s → head (cr_sequence r) = Some s) ∧
  compute_sequence_cost o (cr_sequence r) = Ok r.
Proof.
  unfold optimize_sequence. destruct products as [|p ps]; [done|].
  intros ([] & Hstart & Hr)%res_bind_Ok. destruct ps as [|q ps].
  - injection Hr as <-. cbn. split_and!; [done| |done]. intros s ->.
    case_decide as Hs; [|done]. apply list_elem_of_singleton in Hs as ->. done.
  - destruct (missing_transitions o (p :: q :: ps)); [|done]. destruct available; [|done].
    by apply solve_cpsat_spec.
Qed.

(** C40. The sequence that is returned is an order of the products, begins with the start
    product if one is given, and its costs, total and transitions are those that
    [compute_sequence_cost] computes for it. *)
Theorem optimized_sequence_sound available products start r :
  optimize_sequence o available products start = Ok (Some r) →
  cr_sequence r ≡ₚ products ∧ (∀ s, start = Some s → head (cr_sequence r) = Some s) ∧
  compute_sequence_cost o (cr_sequence r) = Ok r.
Proof. apply optimize_sequence_spec. Qed.

Lemma computed_steps sequence r :
  compute_sequence_cost o sequence = Ok r → ∀ p, p ∈ steps_of sequence → is_Some (co_matrix o !! p).
Proof.
  unfold compute_sequence_cost. destruct sequence as [|x l]; [done|].
  intros (trs & Htrs & _)%res_bind_Ok p [n Hn]%list_elem_of_lookup. apply res_mapM_Ok in Htrs.
  destruct (Forall2_lookup_l _ _ _ _ _ Htrs Hn) as (t & _ & Ht). by destruct (co_matrix o !! p).
Qed.

(** Batches of one product are never put next to each other, although the change-over
    between them would cost nothing: in a sequence that is returned neighbours differ. *)
Theorem batches_kept_apart available products start r a b :
  matrix_wf o → optimize_sequence o available products start = Ok (Some r) →
  (a, b) ∈ steps_of (cr_sequence r) → a ≠ b.
Proof.
  intros [_ Hm] (_ & _ & Hc)%optimize_sequence_spec Hin.
  destruct (computed_steps _ _ Hc _ Hin) as [c Hc']. by destruct (Hm a b c Hc').
Qed.
End theorems.

(** ** Two products *)

Definition two_products : ChangeoverOptimizer :=
  ((add_changeover_cost "A" "B" 5 10 ;;; add_changeover_cost "B" "A" 3 4) new_optimizer).2.

Lemma two_products_wf : matrix_wf two_products.
Proof.
  unfold two_products. apply (preserves_bind matrix_wf); [apply add_changeover_cost_wf| |].
  - intros ?. apply add_changeover_cost_wf.
  - apply new_optimizer_wf.
Qed.

Definition first_try (l : list Z) : CpSolver := knowing (λ v, nth v l 0%Z).
(** The solution B, A: positions 1 and 0; of the pairs (0, 1) and (1, 0) the second. *)
Definition b_then_a : CpSolver := first_try [1; 0; 0; 0; 0; 1; 1; 1; 3; 4; 3; 4]%Z.

Example b_then_a_found :
  optimize_sequence (CS := b_then_a) two_products true ["A"; "B"] None =
  Ok (Some (mkChangeover ["B"; "A"] 3 4 [mkCost "B" "A" 3 4])).
Proof. vm_compute. reflexivity. Qed.

(** Two batches of one product: the model has a solution, reading it raises KeyError. *)
Example equal_batches_crash :
  optimize_sequence (CS := first_try [0; 1]%Z) two_products true ["A"; "A"] None =
  Raise (KeyError (repr_pair ("A", "A"))).
Proof. vm_compute. reflexivity. Qed.

Lemma optimized_sequence_sound_witness :
  compute_sequence_cost two_products ["B"; "A"] =
  Ok (mkChangeover ["B"; "A"] 3 4 [mkCost "B" "A" 3 4]).
Proof.
  exact (proj2 (proj2 (optimized_sequence_sound (CS := b_then_a) two_products true ["A"; "B"] None
    (mkChangeover ["B"; "A"] 3 4 [mkCost "B" "A" 3 4]) ltac:(vm_compute; reflexivity)))).
Defined.
Lemma batches_kept_apart_witness : "B" ≠ "A".
Proof.
  apply (batches_kept_apart (CS := b_then_a) two_products true ["A"; "B"] None
    (mkChangeover ["B"; "A"] 3 4 [mkCost "B" "A" 3 4])).
  - apply two_products_wf.
  - vm_compute. reflexivity.
  - left.
Defined.
