(* ===== verification/Types.v ===== *)
(** * Shared types and events (src/src/shared/types.py, src/src/shared/events.py)

    Step statuses, preconditions, event types with their category, and the typed
    event payloads the modelled components publish. The fields [run_id],
    [unit] and [instrument_id], which those components always leave at [None], and
    the wall-clock [timestamp] of [Event] are not carried. *)

From S2P Require Import Prelude PyDict PyStr.

Inductive StepStatus : Type :=
  | PENDING | RUNNING | PASSED | FAILED | SKIPPED | ERROR.

#[export] Instance StepStatus_eq_dec : EqDecision StepStatus.
Proof. solve_decision. Defined.

(** [status.value], which is also the member's name. *)
Definition status_value (s : StepStatus) : string :=
  match s with
  | PENDING => "PENDING" | RUNNING => "RUNNING" | PASSED => "PASSED"
  | FAILED => "FAILED" | SKIPPED => "SKIPPED" | ERROR => "ERROR"
  end.

Definition all_statuses : list StepStatus :=
  [PENDING; RUNNING; PASSED; FAILED; SKIPPED; ERROR].

(** [StepStatus[name]] and [StepStatus(value)]: [None] is the exception. *)
Definition status_of_name (name : string) : option StepStatus :=
  head (base.filter (λ s, status_value s = name) all_statuses).

(** [_TERMINAL_STATES], as statuses. *)
Definition is_terminal (s : StepStatus) : bool :=
  match s with PASSED | FAILED | SKIPPED | ERROR => true | _ => false end.

(** A precondition; [None] fields are not tested. *)
Record Condition : Type := mkCondition {
  cond_step : option string;
  cond_status : option string;
  cond_expression : option string;
  cond_resource_available : option (list string)
}.

#[export] Instance Condition_eq_dec : EqDecision Condition.
Proof. solve_decision. Defined.

Definition no_condition : Condition := mkCondition None None None None.

Definition opt_repr (o : option string) : string :=
  match o with Some s => repr_str s | None => "None" end.

(** [str(condition)]: the representation a dataclass generates. *)
Definition condition_str (c : Condition) : string :=
  "Condition(step=" +:+ opt_repr (cond_step c)
  +:+ ", status=" +:+ opt_repr (cond_status c)
  +:+ ", expression=" +:+ opt_repr (cond_expression c)
  +:+ ", resource_available="
  +:+ (match cond_resource_available c with
       | Some l => py_repr (PyList (PyStr <$> l))
       | None => "None"
       end) +:+ ")".

Inductive EventCategory : Type := CAT_EVENT | CAT_MEASUREMENT | CAT_ALARM.

#[export] Instance EventCategory_eq_dec : EqDecision EventCategory.
Proof. solve_decision. Defined.

(** [VARIABLE_CHANGED] is an alias of [MEASUREMENT_RECORDED] (same value), hence
    not a member of its own. *)
Inductive EventType : Type :=
  | STEP_STATUS_CHANGED | STEP_STARTED | STEP_COMPLETED | STEP_FAILED
  | STEP_SKIPPED | LOOP_ITERATION_STARTED | LOOP_ITERATION_COMPLETED
  | EXECUTION_STARTED | EXECUTION_COMPLETED | EXECUTION_PAUSED
  | BREAKPOINT_HIT | RESOURCE_RELEASED | TIMER_EXPIRED | EXTERNAL_CMD
  | MEASUREMENT_RECORDED
  | STEP_TIMEOUT | CONDITION_TIMEOUT | RESOURCE_TIMEOUT | DEADLOCK_DETECTED
  | WORKER_EXHAUSTED | HEARTBEAT_LOST | ALARM_RAISED.

#[export] Instance EventType_eq_dec : EqDecision EventType.
Proof. solve_decision. Defined.

(** [EVENT_TYPE_CATEGORIES] and [get_event_category]. *)
Definition get_event_category (t : EventType) : EventCategory :=
  match t with
  | MEASUREMENT_RECORDED => CAT_MEASUREMENT
  | STEP_TIMEOUT | CONDITION_TIMEOUT | RESOURCE_TIMEOUT | DEADLOCK_DETECTED
  | WORKER_EXHAUSTED | HEARTBEAT_LOST | ALARM_RAISED => CAT_ALARM
  | _ => CAT_EVENT
  end.

(** The payload dataclasses ([asdict] of them is what is published), and [PlainData]
    for a dictionary published as it is. Durations are whole ticks; [severity] and
    [recoverable] are omitted where every publisher passes the class's default. *)
Inductive EventData : Type :=
  | StepStatusChangedData (step_id : string) (old_status new_status : string)
  | StepStartedData (step_id : string) (condition : option string)
  | StepCompletedData (step_id status : string) (error : option string)
  | StepFailedData (step_id : string) (error : option string)
  | StepSkippedData (step_id : string) (reason : option string)
  | MeasurementRecordedData (name : string) (old_value new_value : pyval) (timestamp : Z)
  | ResourceReleasedData (resource_id owner_id : string)
  | TimerExpiredData (timer_id : string) (duration : Z)
  | ExternalCmdData (command : string) (payload : pydict string pyval)
  | LoopIterationStartedData (loop_id : string) (iteration : Z) (total_iterations : option Z)
  | LoopIterationCompletedData (loop_id : string) (iteration : Z) (total_iterations : option Z)
  | ExecutionStartedData (run_id : string) (plan_name sequence_id : option string)
  | ExecutionCompletedData (run_id : string) (plan_name : option string) (status : string)
      (duration : Z)
  | ExecutionPausedData (run_id : string) (reason : option string)
  | BreakpointHitData (breakpoint_id kind target step_id : string)
      (variables : list (string * pyval))
  | StepTimeoutData (step_id : string) (timeout : Z)
  | ConditionTimeoutData (step_id : string) (condition : option string) (timeout : Z)
  | ResourceTimeoutData (resource_id : string) (owner_id : option string) (timeout : Z)
  | DeadlockDetectedData (pending_steps : list string) (consecutive_scans : Z)
  | WorkerExhaustedData (active_workers max_workers : Z)
      (blocked_resources holding_workers : list string)
  | HeartbeatLostData (last_heartbeat missed_checks scan_interval : Z)
  | AlarmRaisedData (alarm_id product_type measurement_name rule severity message : string)
      (value : option pyval) (sample_count : Z)
  | PlainData (d : pydict string pyval).

(** [EVENT_DATA_CLASSES]: is the payload of the class registered for the event type? *)
Definition payload_class_ok (t : EventType) (d : EventData) : bool :=
  match t, d with
  | STEP_STATUS_CHANGED, StepStatusChangedData _ _ _
  | STEP_STARTED, StepStartedData _ _ | STEP_COMPLETED, StepCompletedData _ _ _
  | STEP_FAILED, StepFailedData _ _ | STEP_SKIPPED, StepSkippedData _ _
  | RESOURCE_RELEASED, ResourceReleasedData _ _ | TIMER_EXPIRED, TimerExpiredData _ _
  | EXTERNAL_CMD, ExternalCmdData _ _
  | LOOP_ITERATION_STARTED, LoopIterationStartedData _ _ _
  | LOOP_ITERATION_COMPLETED, LoopIterationCompletedData _ _ _
  | EXECUTION_STARTED, ExecutionStartedData _ _ _
  | EXECUTION_COMPLETED, ExecutionCompletedData _ _ _ _
  | EXECUTION_PAUSED, ExecutionPausedData _ _ | BREAKPOINT_HIT, BreakpointHitData _ _ _ _ _
  | MEASUREMENT_RECORDED, MeasurementRecordedData _ _ _ _
  | STEP_TIMEOUT, StepTimeoutData _ _ | CONDITION_TIMEOUT, ConditionTimeoutData _ _ _
  | RESOURCE_TIMEOUT, ResourceTimeoutData _ _ _
  | DEADLOCK_DETECTED, DeadlockDetectedData _ _
  | WORKER_EXHAUSTED, WorkerExhaustedData _ _ _ _ | HEARTBEAT_LOST, HeartbeatLostData _ _ _
  | ALARM_RAISED, AlarmRaisedData _ _ _ _ _ _ _ _ => true
  | _, _ => false
  end.

(** [data.get("step_id")], when it is a string. *)
Definition data_step_id (d : EventData) : option string :=
  match d with
  | StepStatusChangedData s _ _ | StepStartedData s _ | StepCompletedData s _ _
  | StepFailedData s _ | StepTimeoutData s _ | ConditionTimeoutData s _ _
  | StepSkippedData s _ | BreakpointHitData _ _ _ s _ => Some s
  | PlainData d => match d !! "step_id" with Some (PyStr s) => Some s | _ => None end
  | _ => None
  end.

Record Event : Type := mkEvent {
  ev_type : EventType;
  ev_data : EventData;
  ev_category : EventCategory
}.

(** ** What a publisher relies on

    A component that is handed an event bus relies on [publish_sync] accepting
    the event: it is kept for delivery, once, and nothing already accepted is
    lost. [EventBus.v] discharges it for the real bus. *)
Class EventSink (B : Type) : Type := {
  publish_sync : EventType → EventData → B → B;
  sink_events : B → list (EventType * EventData);
  publish_sync_accepts : ∀ t d b,
    sink_events (publish_sync t d b) ≡ₚ (t, d) :: sink_events b
}.

(** Publish if a bus is configured ([if self._event_bus is not None]). *)
Definition notify {B} `{EventSink B} (has_bus : bool) (t : EventType) (d : EventData)
    (b : B) : B :=
  if has_bus then publish_sync t d b else b.

(** A plain log, the simplest sink: used by witnesses and unit examples. *)
#[export] Program Instance log_sink : EventSink (list (EventType * EventData)) := {|
  publish_sync t d b := b ++ [(t, d)];
  sink_events b := b
|}.
Next Obligation. intros t d b. apply Permutation_sym, Permutation_cons_append. Defined.

Lemma status_value_inj s s' : status_value s = status_value s' → s = s'.
Proof. by destruct s, s'. Qed.

Lemma status_of_value s : status_of_name (status_value s) = Some s.
Proof. by destruct s. Qed.

Lemma status_of_name_Some name s : status_of_name name = Some s → status_value s = name.
Proof.
  unfold status_of_name. intros Hh.
  assert (s ∈ base.filter (λ s, status_value s = name) all_statuses) as He.
  { destruct (base.filter _ _) eqn:E; simpl in Hh; simplify_eq. left. }
  by apply list_elem_of_filter in He as [? _].
Qed.
