(* ===== verification/VariableSpace.v ===== *)
(** * The variable space (scheduler/variable_space.py)

    Four scopes of variables addressed by dotted names. [set], [get] and [resolve]
    are written as the code has them, with its [split] calls; the section
    [refinement] gives the abstract view (a map from addresses) they implement. *)

From S2P Require Import Prelude PyDict PyStr Types.

Definition dot : ascii := ".".

Record VariableSpace : Type := mkVS {
  vs_scope : pydict string pyval;
  vs_steps : pydict string (pydict string pyval);
  vs_loop : pydict string (pydict string pyval);
  vs_global : pydict string pyval;
  vs_has_bus : bool
}.

Definition vs_init (has_bus : bool) : VariableSpace := mkVS ∅ ∅ ∅ ∅ has_bus.

Definition set_scope d (vs : VariableSpace) :=
  mkVS d (vs_steps vs) (vs_loop vs) (vs_global vs) (vs_has_bus vs).
Definition set_steps d (vs : VariableSpace) :=
  mkVS (vs_scope vs) d (vs_loop vs) (vs_global vs) (vs_has_bus vs).
Definition set_loop d (vs : VariableSpace) :=
  mkVS (vs_scope vs) (vs_steps vs) d (vs_global vs) (vs_has_bus vs).
Definition set_globals d (vs : VariableSpace) :=
  mkVS (vs_scope vs) (vs_steps vs) (vs_loop vs) d (vs_has_bus vs).

Definition WRITABLE_SCOPES : list string := ["scope"; "steps"; "loop"].

(** [get(name, default)] *)
Definition vs_get (vs : VariableSpace) (name : string) (default : pyval) : pyval :=
  match split_max dot 1 name with
  | [scope_prefix; var_path] =>
      if decide (scope_prefix = "scope") then get_default var_path default (vs_scope vs)
      else if decide (scope_prefix = "steps") then
        match split_max dot 1 var_path with
        | [step_id; key] =>
            match vs_steps vs !! step_id with
            | None => default
            | Some step_vars => get_default key default step_vars
            end
        | _ => default
        end
      else if decide (scope_prefix = "loop") then
        match split_max dot 2 var_path with
        | loop_id :: ((_ :: _) as rest) =>
            match vs_loop vs !! loop_id with
            | None => default
            | Some loop_vars => get_default (str_join "." rest) default loop_vars
            end
        | _ => default
        end
      else if decide (scope_prefix = "global") then
        get_default var_path default (vs_global vs)
      else default
  | _ => default
  end.

(** [d.setdefault(id, {})[key] = value], with the value replaced (or [None]). *)
Definition nested_set (id key : string) (value : pyval)
    (d : pydict string (pydict string pyval)) :
    pyval * pydict string (pydict string pyval) :=
  match d !! id with
  | None => (PyNone, <[id := <[key := value]> ∅]> d)
  | Some inner => (get_default key PyNone inner, <[id := <[key := value]> inner]> d)
  end.

(** The locked part of [set]: the replaced value and the new state. (The message
    of the second error also lists the writable scopes, in the unspecified order
    of a [frozenset]; that list is left out.) *)
Definition vs_write (name : string) (value : pyval) (vs : VariableSpace) :
    res (pyval * VariableSpace) :=
  match split_max dot 1 name with
  | [scope_prefix; var_path] =>
      if negb (str_in scope_prefix WRITABLE_SCOPES) then
        Raise (ValueError ("Cannot write to '" +:+ scope_prefix +:+ "' scope."))
      else if decide (scope_prefix = "scope") then
        Ok (get_default var_path PyNone (vs_scope vs),
            set_scope (<[var_path := value]> (vs_scope vs)) vs)
      else if decide (scope_prefix = "steps") then
        match split_max dot 1 var_path with
        | [step_id; key] =>
            let '(old, d) := nested_set step_id key value (vs_steps vs) in
            Ok (old, set_steps d vs)
        | _ => Raise (ValueError ("Invalid steps variable name '" +:+ name
                 +:+ "'. Must be 'steps.<step_id>.<key>'"))
        end
      else if decide (scope_prefix = "loop") then
        match split_max dot 1 var_path with
        | [loop_id; remaining] =>
            let '(old, d) := nested_set loop_id remaining value (vs_loop vs) in
            Ok (old, set_loop d vs)
        | _ => Raise (ValueError ("Invalid loop variable name '" +:+ name
                 +:+ "'. Must be 'loop.<loop_id>.<path>'"))
        end
      else Ok (PyNone, vs)
  | _ => Raise (ValueError ("Invalid variable name '" +:+ name
           +:+ "'. Must be '<scope>.<name>'"))
  end.

(** [set(name, value)]: write under the lock, then publish. *)
Definition vs_set {B} `{EventSink B} (now : Z) (name : string) (value : pyval) :
    M (VariableSpace * B) unit := λ '(vs, b),
  match vs_write name value vs with
  | Raise e => (Raise e, (vs, b))
  | Ok (old, vs') =>
      (Ok tt, (vs', notify (vs_has_bus vs) MEASUREMENT_RECORDED
                      (MeasurementRecordedData name old value now) b))
  end.

Definition set_global (key : string) (value : pyval) (vs : VariableSpace) :=
  set_globals (<[key := value]> (vs_global vs)) vs.
Definition clear_scope (vs : VariableSpace) := set_scope ∅ vs.
Definition clear_steps (vs : VariableSpace) := set_steps ∅ vs.
Definition clear_loop (vs : VariableSpace) := set_loop ∅ vs.
Definition get_all_scope_vars (vs : VariableSpace) := vs_scope vs.
Definition get_step_vars (vs : VariableSpace) (step_id : string) :=
  get_default step_id ∅ (vs_steps vs).

Definition loop_var_name (loop_id : string) (iteration : Z) (key : string) : string :=
  "loop." +:+ loop_id +:+ "." +:+ pretty iteration +:+ "." +:+ key.
Definition set_loop_variable {B} `{EventSink B} (now : Z) (loop_id : string)
    (iteration : Z) (key : string) (value : pyval) : M (VariableSpace * B) unit :=
  vs_set now (loop_var_name loop_id iteration key) value.
Definition get_loop_variable (vs : VariableSpace) (loop_id : string) (iteration : Z)
    (key : string) (default : pyval) : pyval :=
  vs_get vs (loop_var_name loop_id iteration key) default.
Definition get_loop_result (vs : VariableSpace) (loop_id : string) : pyval :=
  vs_get vs ("loop." +:+ loop_id +:+ ".result") PyNone.

(** ** [resolve]: substitution of [${a.b}] references *)

Definition is_name_start (a : ascii) : bool := is_alpha a || Ascii.eqb a "_".
Definition is_word (a : ascii) : bool := is_alpha a || is_digit a || Ascii.eqb a "_".

(** The regular expression [[a-zA-Z_][a-zA-Z0-9_]*(?:\.[a-zA-Z0-9_]+)*\}] as the
    automaton it compiles to: its classes are disjoint, so that the greedy match
    is the only one. The result is the name, and the closing brace is consumed. *)
Inductive name_state : Type := AtStart | InWord | AfterDot.

Fixpoint match_name (st : name_state) (s : string) : option string :=
  match s with
  | EmptyString => None
  | String a s' =>
      match st with
      | AtStart => if is_name_start a then String a <$> match_name InWord s' else None
      | AfterDot => if is_word a then String a <$> match_name InWord s' else None
      | InWord =>
          if is_word a then String a <$> match_name InWord s'
          else if Ascii.eqb a dot then String a <$> match_name AfterDot s'
          else if Ascii.eqb a "}" then Some ""
          else None
      end
  end.

(** The whole pattern [\$\{(...)\}] at the head of the string. *)
Definition match_ref (s : string) : option string :=
  match s with
  | String a (String b s') =>
      if Ascii.eqb a "$" && Ascii.eqb b "{" then match_name AtStart s' else None
  | _ => None
  end.

(** [match.group(0)] of a reference to [name]. *)
Definition ref_text (name : string) : string := "${" +:+ name +:+ "}".
Arguments ref_text : simpl never.

Definition replace_var (vs : VariableSpace) (name : string) : string :=
  let value := vs_get vs name PyNone in
  if is_none value then ref_text name else py_str value.

(** [re.sub]: leftmost matches, left to right; [skip] counts the characters of
    the current match still to drop. *)
Fixpoint sub_refs (f : string → string) (skip : nat) (s : string) : string :=
  match s with
  | EmptyString => ""
  | String a s' =>
      match skip with
      | S k => sub_refs f k s'
      | O =>
          match match_ref s with
          | Some name => f name +:+ sub_refs f (String.length name + 2) s'
          | None => String a (sub_refs f 0 s')
          end
      end
  end.

Definition vs_resolve (vs : VariableSpace) (expression : string) : string :=
  sub_refs (replace_var vs) 0 expression.

(** [re.finditer] with the same pattern: the names referenced, left to right. *)
Fixpoint find_refs (skip : nat) (s : string) : list string :=
  match s with
  | EmptyString => []
  | String a s' =>
      match skip with
      | S k => find_refs k s'
      | O =>
          match match_ref s with
          | Some name => name :: find_refs (String.length name + 2) s'
          | None => find_refs 0 s'
          end
      end
  end.

Example resolve_ex :
  vs_resolve (set_scope (<["voltage" := PyFloat "3.3"]> ∅) (vs_init false))
    "${scope.voltage} > ${scope.lim} and $x"
  = "3.3 > ${scope.lim} and $x".
Proof. vm_compute. reflexivity. Qed.

(** ** Snapshot and restore *)

Definition dict_val (d : pydict string pyval) : pyval :=
  PyMap ((λ kv, (PyStr kv.1, kv.2)) <$> items d).
Definition nested_val (d : pydict string (pydict string pyval)) : pyval :=
  PyMap ((λ kv, (PyStr kv.1, dict_val kv.2)) <$> items d).

Definition vs_snapshot (vs : VariableSpace) : pyval :=
  PyMap [(PyStr "scope", dict_val (vs_scope vs));
         (PyStr "steps", nested_val (vs_steps vs));
         (PyStr "loop", nested_val (vs_loop vs))].

(** [state.get(k)] for a string key. *)
Fixpoint map_get (k : string) (l : list (pyval * pyval)) : pyval :=
  match l with
  | [] => PyNone
  | (PyStr k', v) :: l' => if decide (k = k') then v else map_get k l'
  | _ :: l' => map_get k l'
  end.
Definition state_get (k : string) (state : pyval) : pyval :=
  match state with PyMap l => map_get k l | _ => PyNone end.

(** [dict(v)], whose keys are strings (they come from JSON). *)
Definition val_dict (l : list (pyval * pyval)) : pydict string pyval :=
  dict_of_list ((λ kv, (py_str kv.1, kv.2)) <$> l).
Definition val_nested (l : list (pyval * pyval)) : pydict string (pydict string pyval) :=
  dict_of_list ((λ kv, (py_str kv.1,
    match kv.2 with PyMap l' => val_dict l' | _ => ∅ end)) <$> l).

Definition vs_restore (state : pyval) (vs : VariableSpace) : VariableSpace :=
  let vs1 := match state_get "scope" state with
             | PyMap l => set_scope (val_dict l) vs | _ => vs end in
  let vs2 := match state_get "steps" state with
             | PyMap l => set_steps (val_nested l) vs1 | _ => vs1 end in
  match state_get "loop" state with
  | PyMap l => set_loop (val_nested l) vs2 | _ => vs2
  end.

(** Well-formed dictionaries at both levels. *)
Definition vs_wf (vs : VariableSpace) : Prop :=
  dict_wf (vs_scope vs) ∧ dict_wf (vs_global vs) ∧
  dict_wf (vs_steps vs) ∧ Forall dict_wf (values (vs_steps vs)) ∧
  dict_wf (vs_loop vs) ∧ Forall dict_wf (values (vs_loop vs)).

(** ** The abstract view: a map from addresses *)

Inductive addr : Type :=
  | AScope (path : string)
  | ASteps (step_id key : string)
  | ALoop (loop_id path : string)
  | AGlobal (path : string).

#[export] Instance addr_eq_dec : EqDecision addr.
Proof. solve_decision. Defined.

Definition cut (s : string) : option (string * string) :=
  match split_max dot 1 s with [a; b] => Some (a, b) | _ => None end.

Definition parse_addr (name : string) : option addr :=
  '(prefix, path) ← cut name;
  if decide (prefix = "scope") then Some (AScope path)
  else if decide (prefix = "steps") then '(i, k) ← cut path; Some (ASteps i k)
  else if decide (prefix = "loop") then '(i, k) ← cut path; Some (ALoop i k)
  else if decide (prefix = "global") then Some (AGlobal path)
  else None.

Definition read_addr (vs : VariableSpace) (a : addr) : option pyval :=
  match a with
  | AScope p => vs_scope vs !! p
  | ASteps i k => vs_steps vs !! i ≫= λ d, d !! k
  | ALoop i k => vs_loop vs !! i ≫= λ d, d !! k
  | AGlobal p => vs_global vs !! p
  end.

(** [set] accepts the addresses of the three writable scopes. *)
Definition writable (a : addr) : bool :=
  match a with AGlobal _ => false | _ => true end.

Section refinement.
Implicit Types vs : VariableSpace.

Lemma cut_spec s a b : cut s = Some (a, b) ↔ s = a +:+ String dot b ∧ free_of dot a = true.
Proof.
  unfold cut. split.
  - intros Hc. apply split_max_1_inv.
    destruct (split_max dot 1 s) as [|? [|? [|? ?]]]; by simplify_eq.
  - intros [-> Hf]. by rewrite split_max_app, split_max_0.
Qed.

Lemma cut_None s : cut s = None ↔ free_of dot s = true.
Proof.
  unfold cut. destruct (split_first dot s) as [Hf|(a & b & -> & Hf)].
  - by rewrite split_max_free.
  - rewrite split_max_app, split_max_0 by done. split; [done|].
    rewrite free_of_app. intros [_ Hd]%andb_true_iff. done.
Qed.

Lemma cut_inj_name s s' p : cut s = Some p → cut s' = Some p → s = s'.
Proof. destruct p. intros [-> _]%cut_spec [-> _]%cut_spec. done. Qed.

Lemma parse_addr_inj n n' a : parse_addr n = Some a → parse_addr n' = Some a → n = n'.
Proof.
  unfold parse_addr. intros H1 H2.
  apply bind_Some in H1 as ([p q] & Hc & H1).
  apply bind_Some in H2 as ([p' q'] & Hc' & H2).
  assert (p = p' ∧ q = q') as [-> ->]; [|by eapply cut_inj_name].
  repeat case_decide; simplify_eq; try done;
    repeat match goal with
    | H : (_ ≫= _) = Some _ |- _ => apply bind_Some in H as ([? ?] & ? & ?)
    end; simplify_eq; eauto using cut_inj_name.
Qed.

(** The [split(".", 2)] of [get] addresses the same entry as the
    [split(".", 1)] of [set]. *)
Lemma split2_cut s :
  match split_max dot 2 s with
  | i :: ((_ :: _) as l) => cut s = Some (i, str_join "." l)
  | _ => cut s = None
  end.
Proof.
  destruct (split_first dot s) as [Hf|(a & b & -> & Hf)].
  - rewrite split_max_free by done. by apply cut_None.
  - rewrite split_max_app by done.
    destruct (split_max dot 1 b) as [|x l] eqn:E.
    { by apply split_max_not_nil in E. }
    apply cut_spec. split; [|done].
    rewrite <-E. by rewrite (join_split dot).
Qed.

Lemma vs_get_read vs n d :
  vs_get vs n d = default d (parse_addr n ≫= read_addr vs).
Proof.
  unfold vs_get, parse_addr, cut.
  destruct (split_max dot 1 n) as [|p [|q [|? ?]]]; try done; cbn [mbind option_bind].
  repeat case_decide; subst; try done.
  - destruct (split_max dot 1 q) as [|i [|k [|? ?]]]; try done.
    cbn. by destruct (vs_steps vs !! i).
  - pose proof (split2_cut q) as Hs. fold (cut q).
    destruct (split_max dot 2 q) as [|i [|k l]]; rewrite Hs; try done.
    cbn. by destruct (vs_loop vs !! i).
Qed.

Lemma nested_set_spec id key v d old d' :
  nested_set id key v d = (old, d') →
  old = default PyNone (d !! id ≫= λ m, m !! key) ∧
  ∀ i k, (d' !! i ≫= λ m, m !! k)
       = if decide (i = id ∧ k = key) then Some v else d !! i ≫= λ m, m !! k.
Proof.
  unfold nested_set. intros Hn.
  destruct (d !! id) as [inner|] eqn:E; simplify_eq; split; try done;
    intros i k; rewrite dict_lookup_insert; case_decide as Hi; subst.
  - cbn. rewrite dict_lookup_insert, E. cbn.
    repeat case_decide; naive_solver.
  - rewrite decide_False by naive_solver. done.
  - cbn. rewrite dict_lookup_insert, E, dict_lookup_empty.
    repeat case_decide; naive_solver.
  - rewrite decide_False by naive_solver. done.
Qed.

(** [set] writes exactly the addressed variable, and reports the old value. *)
Lemma vs_write_ok n v vs a :
  parse_addr n = Some a → writable a = true →
  ∃ vs', vs_write n v vs = Ok (default PyNone (read_addr vs a), vs')
    ∧ vs_has_bus vs' = vs_has_bus vs
    ∧ ∀ a', read_addr vs' a' = if decide (a' = a) then Some v else read_addr vs a'.
Proof.
  unfold parse_addr, vs_write, cut. intros Hp Hw.
  destruct (split_max dot 1 n) as [|p [|q [|? ?]]]; try done; cbn in Hp.
  repeat case_decide; subst; simplify_eq; cbn [str_in negb].
  - eexists; split_and!; [done|done|]. intros [p|?|?|?]; cbn;
      rewrite ?dict_lookup_insert; repeat case_decide; naive_solver.
  - apply bind_Some in Hp as ([i k] & Hc & [= <-]).
    destruct (split_max dot 1 q) as [|? [|? [|? ?]]]; simplify_eq.
    destruct (nested_set _ _ _ _) as [old d] eqn:Hn.
    apply nested_set_spec in Hn as [-> Hr].
    eexists; split_and!; [done|done|]. intros [?|? ?|? ?|?]; cbn; rewrite ?Hr;
      repeat case_decide; naive_solver.
  - apply bind_Some in Hp as ([i k] & Hc & [= <-]).
    destruct (split_max dot 1 q) as [|? [|? [|? ?]]]; simplify_eq.
    destruct (nested_set _ _ _ _) as [old d] eqn:Hn.
    apply nested_set_spec in Hn as [-> Hr].
    eexists; split_and!; [done|done|]. intros [?|? ?|? ?|?]; cbn; rewrite ?Hr;
      repeat case_decide; naive_solver.
Qed.

Lemma vs_write_refused n v vs :
  (parse_addr n ≫= λ a, if writable a then Some a else None) = None →
  ∃ msg, vs_write n v vs = Raise (ValueError msg).
Proof.
  unfold parse_addr, vs_write, cut. intros Hp.
  destruct (split_max dot 1 n) as [|p [|q [|? ?]]]; eauto; cbn in Hp.
  destruct (str_in p WRITABLE_SCOPES) eqn:Es; [|by eauto]. cbn [negb].
  apply bool_decide_eq_true in Es.
  repeat case_decide; subst; simplify_eq/=; try set_solver;
    destruct (split_max dot 1 q) as [|? [|? [|? ?]]];
    simplify_eq/=; eauto.
Qed.
End refinement.

(** ** Templates: what [resolve] computes *)

(** A variable name of the pattern: a word that starts with a letter or an
    underscore, then words separated by dots. *)
Fixpoint all_word (s : string) : bool :=
  match s with EmptyString => true | String a s' => is_word a && all_word s' end.
Definition word_part (s : string) : Prop := s ≠ "" ∧ all_word s = true.
Fixpoint dotted (ps : list string) : string :=
  match ps with [] => "" | p :: ps' => String dot (p +:+ dotted ps') end.
Definition valid_name (n : string) : Prop :=
  ∃ a w ps, n = String a (w +:+ dotted ps) ∧ is_name_start a = true ∧
    all_word w = true ∧ Forall word_part ps.

Inductive segment : Type :=
  | Lit (s : string)
  | Ref (name : string).

Definition segment_ok (g : segment) : Prop :=
  match g with Lit s => free_of "$" s = true | Ref n => valid_name n end.
Definition segment_text (g : segment) : string :=
  match g with Lit s => s | Ref n => ref_text n end.
Definition segment_subst (f : string → string) (g : segment) : string :=
  match g with Lit s => s | Ref n => f n end.
Definition str_concat (l : list string) : string := foldr String.append "" l.
Definition segment_refs (g : segment) : list string :=
  match g with Lit _ => [] | Ref n => [n] end.

Section templates.
Lemma match_word w s :
  all_word w = true → match_name InWord (w +:+ s) = String.append w <$> match_name InWord s.
Proof.
  induction w as [|a w IH]; rewrite ?str_app_nil_l, ?str_app_cons; intros Hw.
  - destruct (match_name InWord s); done.
  - cbn in Hw. apply andb_true_iff in Hw as [Ha Hw].
    cbn [match_name]. rewrite Ha, IH by done.
    destruct (match_name InWord s); done.
Qed.

Lemma match_after_dot p s :
  word_part p → match_name AfterDot (p +:+ s) = match_name InWord (p +:+ s).
Proof.
  intros [Hne Hw]. destruct p as [|a p]; [done|]. rewrite str_app_cons. cbn.
  cbn in Hw. apply andb_true_iff in Hw as [-> _]. done.
Qed.

Lemma match_dotted ps s :
  Forall word_part ps → match_name InWord (dotted ps +:+ String "}" s) = Some (dotted ps).
Proof.
  induction 1 as [|p ps Hp Hps IH]; [done|]. cbn [dotted].
  rewrite str_app_cons, str_app_assoc. cbn [match_name].
  replace (is_word dot) with false by done. cbn.
  rewrite match_after_dot by done. destruct Hp as [_ Hw].
  rewrite match_word by done. by rewrite IH.
Qed.

Lemma ref_text_app n s :
  ref_text n +:+ s = String "$" (String "{" (n +:+ String "}" s)).
Proof.
  change (ref_text n +:+ s) with (String "$" (String "{" ((n +:+ "}") +:+ s))).
  by rewrite str_app_assoc.
Qed.

Lemma match_ref_text n s : valid_name n → match_ref (ref_text n +:+ s) = Some n.
Proof.
  intros (a & w & ps & -> & Ha & Hw & Hps).
  rewrite ref_text_app, str_app_cons, str_app_assoc. cbn.
  rewrite Ha, match_word by done. by rewrite match_dotted.
Qed.

Lemma length_str_app a b : String.length (a +:+ b) = (String.length a + String.length b)%nat.
Proof. induction a; [done|]. rewrite str_app_cons; simpl; lia. Qed.

Lemma sub_refs_skip f a s : sub_refs f (String.length a) (a +:+ s) = sub_refs f 0 s.
Proof. induction a; [done|]. rewrite str_app_cons. done. Qed.
Lemma find_refs_skip a s : find_refs (String.length a) (a +:+ s) = find_refs 0 s.
Proof. induction a; [done|]. rewrite str_app_cons. done. Qed.

(** The text of a reference, past its first character. *)
Lemma ref_text_tail n s :
  ∃ t, ref_text n +:+ s = String "$" (t +:+ s) ∧ String.length t = (String.length n + 2)%nat.
Proof.
  exists ("{" +:+ n +:+ "}"). split.
  - by rewrite ref_text_app, !str_app_assoc.
  - rewrite !length_str_app. simpl. lia.
Qed.

Lemma sub_refs_ref f n s :
  valid_name n → sub_refs f 0 (ref_text n +:+ s) = f n +:+ sub_refs f 0 s.
Proof.
  intros Hn. pose proof (match_ref_text n s Hn) as Hm.
  destruct (ref_text_tail n s) as (t & Ht & Hl). rewrite Ht in *.
  cbn [sub_refs]. rewrite Hm, <-Hl. by rewrite sub_refs_skip.
Qed.
Lemma find_refs_ref n s :
  valid_name n → find_refs 0 (ref_text n +:+ s) = n :: find_refs 0 s.
Proof.
  intros Hn. pose proof (match_ref_text n s Hn) as Hm.
  destruct (ref_text_tail n s) as (t & Ht & Hl). rewrite Ht in *.
  cbn [find_refs]. rewrite Hm, <-Hl. by rewrite find_refs_skip.
Qed.

Lemma match_ref_no_dollar a s : Ascii.eqb a "$" = false → match_ref (String a s) = None.
Proof. intros Ha. destruct s; cbn; [done|]. by rewrite Ha. Qed.

Lemma sub_refs_lit f l s :
  free_of "$" l = true → sub_refs f 0 (l +:+ s) = l +:+ sub_refs f 0 s.
Proof.
  induction l as [|a l IH]; intros Hf; [done|].
  cbn in Hf. apply andb_true_iff in Hf as [Ha%negb_true_iff Hf].
  rewrite !str_app_cons. cbn [sub_refs].
  rewrite match_ref_no_dollar by done. by rewrite IH.
Qed.
Lemma find_refs_lit l s :
  free_of "$" l = true → find_refs 0 (l +:+ s) = find_refs 0 s.
Proof.
  induction l as [|a l IH]; intros Hf; [done|].
  cbn in Hf. apply andb_true_iff in Hf as [Ha%negb_true_iff Hf].
  rewrite !str_app_cons. cbn [find_refs].
  rewrite match_ref_no_dollar by done. by rewrite IH.
Qed.

Lemma sub_refs_template f gs :
  Forall segment_ok gs →
  sub_refs f 0 (str_concat (segment_text <$> gs)) = str_concat (segment_subst f <$> gs).
Proof.
  induction 1 as [|[l|n] gs Hg Hgs IH]; [done| |].
  - etrans; [by apply sub_refs_lit|]. exact (f_equal (String.append l) IH).
  - etrans; [by apply sub_refs_ref|]. exact (f_equal (String.append (f n)) IH).
Qed.

(** The names [find_refs] collects in a template are its references. *)
Lemma find_refs_template gs :
  Forall segment_ok gs →
  find_refs 0 (str_concat (segment_text <$> gs)) = gs ≫= segment_refs.
Proof.
  induction 1 as [|[l|n] gs Hg Hgs IH]; [done| |].
  - etrans; [by apply find_refs_lit|]. apply IH.
  - etrans; [by apply find_refs_ref|]. exact (f_equal (cons n) IH).
Qed.
End templates.

(** ** Restoring a snapshot *)

Section snapshot.
Lemma val_dict_of d : dict_wf d → val_dict ((λ kv, (PyStr kv.1, kv.2)) <$> items d) = d.
Proof.
  intros Hwf. unfold val_dict. rewrite <-list_fmap_compose.
  rewrite <-(dict_of_items d Hwf) at 2. f_equal.
  etrans; [|apply list_fmap_id]. apply list_fmap_ext. by intros ? [? ?].
Qed.

Lemma val_nested_of d :
  dict_wf d → Forall dict_wf (values d) →
  val_nested ((λ kv, (PyStr kv.1, dict_val kv.2)) <$> items d) = d.
Proof.
  intros Hwf Hin. unfold val_nested. rewrite <-list_fmap_compose.
  rewrite <-(dict_of_items d Hwf) at 2. f_equal.
  etrans; [|apply list_fmap_id]. apply list_fmap_ext. intros i [k v] Hi.
  change ((k, val_dict ((λ kv, (PyStr kv.1, kv.2)) <$> items v)) = id (k, v)).
  rewrite val_dict_of; [done|].
  rewrite Forall_forall in Hin. apply Hin.
  apply list_elem_of_fmap. exists (k, v). split; [done|].
  by eapply list_elem_of_lookup_2.
Qed.

Lemma restore_snapshot_eq vs vs0 :
  vs_wf vs →
  vs_restore (vs_snapshot vs) vs0
  = mkVS (vs_scope vs) (vs_steps vs) (vs_loop vs) (vs_global vs0) (vs_has_bus vs0).
Proof.
  intros (Hs & _ & Ht & Htv & Hl & Hlv). unfold vs_restore.
  change (state_get "scope" (vs_snapshot vs)) with (dict_val (vs_scope vs)).
  change (state_get "steps" (vs_snapshot vs)) with (nested_val (vs_steps vs)).
  change (state_get "loop" (vs_snapshot vs)) with (nested_val (vs_loop vs)).
  unfold nested_val. cbv beta iota zeta.
  rewrite !val_nested_of by done. unfold dict_val. by rewrite val_dict_of.
Qed.

Lemma nested_set_wf id key v d old d' :
  nested_set id key v d = (old, d') →
  dict_wf d → Forall dict_wf (values d) → dict_wf d' ∧ Forall dict_wf (values d').
Proof.
  unfold nested_set, values. intros Hn Hwf Hall.
  assert (Hv : ∀ i m, dict_wf m → Forall dict_wf ((items (<[i := m]> d)).*2)).
  { intros i m Hm. destruct d as [l]. cbn in *. clear Hwf Hn.
    induction l as [|[k1 m1] l IH]; csimpl; [by repeat constructor|].
    inversion Hall; subst.
    case_decide; csimpl; constructor; eauto. }
  destruct (d !! id) as [inner|] eqn:E; simplify_eq;
    (split; [by apply dict_wf_insert|]); apply Hv; auto with ate.
  apply dict_wf_insert. rewrite Forall_forall in Hall. apply Hall.
  apply elem_of_items in E; [|done]. apply list_elem_of_fmap. by exists (id, inner).
Qed.

Lemma vs_write_wf n v vs old vs' :
  vs_write n v vs = Ok (old, vs') → vs_wf vs → vs_wf vs'.
Proof.
  unfold vs_write, vs_wf. intros Hw (? & ? & ? & ? & ? & ?).
  repeat case_match; simplify_eq;
    try (match goal with Hn : nested_set _ _ _ _ = _ |- _ =>
           apply nested_set_wf in Hn as [? ?]; [|done..] end);
    cbn; split_and!; auto with ate.
Qed.
End snapshot.

(** ** Properties *)

(** [set] implements a map update. On a name of a writable scope it succeeds:
    every later [get] of that name returns the value, [get] of every other name
    (in every scope, with every default) is unchanged, and exactly one
    MEASUREMENT_RECORDED event with the old and new value is handed to a
    configured bus. On every other name it raises ValueError and neither the
    variables nor the bus change. *)
Theorem set_then_get {B} `{EventSink B} (now : Z) (n : string) (v : pyval)
    (vs : VariableSpace) (b : B) :
  let '(r, (vs', b')) := vs_set now n v (vs, b) in
  match (parse_addr n ≫= λ a, if writable a then Some a else None) with
  | Some _ =>
      r = Ok tt
      ∧ (∀ n' d, vs_get vs' n' d = if decide (n' = n) then v else vs_get vs n' d)
      ∧ sink_events b' ≡ₚ
          (if vs_has_bus vs
           then [(MEASUREMENT_RECORDED,
                  MeasurementRecordedData n (vs_get vs n PyNone) v now)]
           else []) ++ sink_events b
  | None => (∃ msg, r = Raise (ValueError msg)) ∧ vs' = vs ∧ b' = b
  end.
Proof.
  unfold vs_set.
  destruct (parse_addr n ≫= _) as [a|] eqn:Ha.
  - apply bind_Some in Ha as (a' & Hp & Hw). destruct (writable a') eqn:Hwr; simplify_eq.
    destruct (vs_write_ok n v vs a Hp Hwr) as (vs' & -> & Hbus & Hr).
    split_and!; [done| |].
    + intros n' d. rewrite !vs_get_read. case_decide as Hn; subst.
      * rewrite Hp. cbn. by rewrite Hr, decide_True.
      * destruct (parse_addr n') as [a'|] eqn:Hp'; [|done]. cbn.
        rewrite Hr, decide_False; [done|]. intros ->. by eapply Hn, parse_addr_inj.
    + rewrite vs_get_read, Hp. cbn. unfold notify.
      destruct (vs_has_bus vs); [apply publish_sync_accepts|done].
  - destruct (vs_write_refused n v vs Ha) as [msg ->]. eauto.
Qed.

(** [resolve] substitutes simultaneously: on a text made of dollar-free
    literals and [${name}] references it returns the literals with every reference
    replaced by [str(value)] of its variable (its own text when the variable is
    missing or [None]); substituted text is not scanned again. *)
Theorem resolve_template (vs : VariableSpace) (gs : list segment)
    (Hok : Forall segment_ok gs) :
  vs_resolve vs (str_concat (segment_text <$> gs))
  = str_concat (segment_subst (replace_var vs) <$> gs).
Proof. by apply sub_refs_template. Qed.

Definition resolve_witness_segments : list segment :=
  [Lit "v = "; Ref "scope.v"; Lit "{}"; Ref "steps.s1.out"].

Lemma resolve_template_witness :
  Forall segment_ok resolve_witness_segments ∧
  vs_resolve (set_scope (<["v" := PyStr "${scope.v}"]> ∅) (vs_init false))
    "v = ${scope.v}{}${steps.s1.out}" = "v = ${scope.v}{}${steps.s1.out}".
Proof.
  assert (Forall segment_ok resolve_witness_segments) as Hok.
  { repeat constructor;
      [exists "s"%char, "cope", ["v"]|exists "s"%char, "teps", ["s1"; "out"]];
      repeat constructor; done. }
  split; [exact Hok|].
  exact (resolve_template
    (set_scope (<["v" := PyStr "${scope.v}"]> ∅) (vs_init false)) _ Hok).
Defined.

(** Crash recovery loses no test variable: restoring the snapshot of a
    well-formed space rebuilds the sequence, step and loop scopes exactly, and
    leaves the read-only globals of the restoring process as they were. *)
Theorem restore_of_snapshot (vs vs0 : VariableSpace) (Hwf : vs_wf vs) :
  let vs' := vs_restore (vs_snapshot vs) vs0 in
  vs_scope vs' = vs_scope vs ∧ vs_steps vs' = vs_steps vs ∧ vs_loop vs' = vs_loop vs
  ∧ vs_global vs' = vs_global vs0
  ∧ ∀ n d, vs_get vs' n d =
      match parse_addr n with
      | Some (AGlobal _) => vs_get vs0 n d
      | _ => vs_get vs n d
      end.
Proof.
  cbn zeta. rewrite restore_snapshot_eq by done. split_and!; [done..|].
  intros n d. rewrite !vs_get_read. by destruct (parse_addr n) as [[]|].
Qed.

Lemma restore_of_snapshot_witness :
  ∃ vs, vs_wf vs ∧
    vs_get (vs_restore (vs_snapshot vs) (vs_init false)) "steps.s1.v" PyNone = PyInt 7.
Proof.
  exists (set_steps (<["s1" := <["v" := PyInt 7]> ∅]> ∅) (vs_init false)).
  assert (vs_wf (set_steps (<["s1" := <["v" := PyInt 7]> ∅]> ∅) (vs_init false))) as Hwf.
  { unfold vs_wf, dict_wf. cbn. split_and!; repeat constructor; set_solver. }
  split; [exact Hwf|].
  destruct (restore_of_snapshot _ (vs_init false) Hwf) as (_ & _ & _ & _ & Hg).
  rewrite Hg. reflexivity.
Defined.
