(* ===== verification/EventBus.v ===== *)
(** * The event bus (scheduler/event_bus.py)

    The queue between publishers and subscribers. The asyncio environment a call
    of [publish_sync] sees (does the bound loop run, is the caller inside a running
    loop) is part of the state, and changes by environment steps; coroutines handed
    to the loop wait in [eb_scheduled] until the loop runs them. Callbacks are
    names; what calling one does to the world is the parameter [call]. *)

From S2P Require Import Prelude PyDict PyStr Types.

Record EventBus : Type := mkBus {
  eb_subscribers : pydict (option EventType) (list string);
  eb_queue : list (option Event);            (* [None] is the stop sentinel *)
  eb_running : bool;
  eb_loop : bool;                            (* [self._loop is not None] *)
  eb_pending_queue : list (EventType * EventData);
  eb_published : nat;
  eb_delivered : nat;
  eb_dropped : nat;
  eb_scheduled : list (EventType * EventData);
  env_loop_running : bool;                   (* [loop.is_running()] *)
  env_in_loop : bool                         (* [get_running_loop()] succeeds *)
}.

Definition bus_init : EventBus := mkBus ∅ [] false false [] 0 0 0 [] false false.

Definition set_queue q b := mkBus (eb_subscribers b) q (eb_running b) (eb_loop b)
  (eb_pending_queue b) (eb_published b) (eb_delivered b) (eb_dropped b)
  (eb_scheduled b) (env_loop_running b) (env_in_loop b).
Definition set_subscribers s b := mkBus s (eb_queue b) (eb_running b) (eb_loop b)
  (eb_pending_queue b) (eb_published b) (eb_delivered b) (eb_dropped b)
  (eb_scheduled b) (env_loop_running b) (env_in_loop b).
Definition set_running r b := mkBus (eb_subscribers b) (eb_queue b) r (eb_loop b)
  (eb_pending_queue b) (eb_published b) (eb_delivered b) (eb_dropped b)
  (eb_scheduled b) (env_loop_running b) (env_in_loop b).
Definition set_pending l p b := mkBus (eb_subscribers b) (eb_queue b) (eb_running b) l
  p (eb_published b) (eb_delivered b) (eb_dropped b)
  (eb_scheduled b) (env_loop_running b) (env_in_loop b).
Definition set_scheduled s b := mkBus (eb_subscribers b) (eb_queue b) (eb_running b)
  (eb_loop b) (eb_pending_queue b) (eb_published b) (eb_delivered b) (eb_dropped b)
  s (env_loop_running b) (env_in_loop b).
Definition set_counters p d x b := mkBus (eb_subscribers b) (eb_queue b) (eb_running b)
  (eb_loop b) (eb_pending_queue b) p d x
  (eb_scheduled b) (env_loop_running b) (env_in_loop b).
Definition set_env r i b := mkBus (eb_subscribers b) (eb_queue b) (eb_running b)
  (eb_loop b) (eb_pending_queue b) (eb_published b) (eb_delivered b) (eb_dropped b)
  (eb_scheduled b) r i.

(** [subscribe(event_type, callback)]; a non-callable callback has no model. *)
Definition subscribe (t : option EventType) (cb : string) (b : EventBus) : EventBus :=
  set_subscribers (<[t := get_default t [] (eb_subscribers b) ++ [cb]]> (eb_subscribers b)) b.

(** [list.remove]: the first occurrence, [None] for ValueError. *)
Fixpoint remove_first (x : string) (l : list string) : option (list string) :=
  match l with
  | [] => None
  | y :: l' => if decide (x = y) then Some l' else cons y <$> remove_first x l'
  end.

Definition unsubscribe (t : option EventType) (cb : string) (b : EventBus) : bool * EventBus :=
  match eb_subscribers b !! t with
  | None => (false, b)
  | Some cbs =>
      match remove_first cb cbs with
      | Some cbs' => (true, set_subscribers (<[t := cbs']> (eb_subscribers b)) b)
      | None => (false, b)
      end
  end.

(** [publish]: count, build the event with its category, enqueue. *)
Definition publish (t : EventType) (d : EventData) (b : EventBus) : EventBus :=
  let b1 := set_counters (S (eb_published b)) (eb_delivered b) (eb_dropped b) b in
  set_queue (eb_queue b1 ++ [Some (mkEvent t d (get_event_category t))]) b1.

(** [set_event_loop]: bind the loop and hand it the pending events in order. *)
Definition set_event_loop (b : EventBus) : EventBus :=
  let pending := eb_pending_queue b in
  let b1 := set_pending true [] b in
  set_scheduled (eb_scheduled b1 ++ pending) b1.

Definition bus_publish_sync (t : EventType) (d : EventData) (b : EventBus) : EventBus :=
  if eb_loop b && env_loop_running b then
    set_scheduled (eb_scheduled b ++ [(t, d)]) b
  else if env_in_loop b then
    set_scheduled (eb_scheduled b ++ [(t, d)]) b
  else set_pending (eb_loop b) (eb_pending_queue b ++ [(t, d)]) b.

(** The loop runs the oldest scheduled [publish] coroutine. *)
Definition run_scheduled (b : EventBus) : EventBus :=
  match eb_scheduled b with
  | [] => b
  | (t, d) :: l => publish t d (set_scheduled l b)
  end.

Definition bus_start (b : EventBus) : EventBus :=
  if eb_running b then b else set_running true b.

(** [stop], up to the wait for the processing task: clear the flag and enqueue
    the sentinel behind the accepted events. *)
Definition bus_stop (b : EventBus) : EventBus :=
  if eb_running b then
    let b1 := set_running false b in set_queue (eb_queue b1 ++ [None]) b1
  else b.

Definition bus_stats (b : EventBus) : nat * nat * nat * nat :=
  (eb_published b, eb_delivered b, eb_dropped b, length (eb_pending_queue b)).

(** ** Delivery *)

Section dispatch.
Context {W : Type} (bus : W → EventBus) (set_bus : EventBus → W → W).
Context (call : string → Event → M W unit).

Definition callbacks (ev : Event) (b : EventBus) : list string :=
  get_default (Some (ev_type ev)) [] (eb_subscribers b)
  ++ get_default None [] (eb_subscribers b).

Definition bump_delivered (w : W) : W :=
  let b := bus w in
  set_bus (set_counters (eb_published b) (S (eb_delivered b)) (eb_dropped b) b) w.
Definition bump_dropped (w : W) : W :=
  let b := bus w in
  set_bus (set_counters (eb_published b) (eb_delivered b) (S (eb_dropped b)) b) w.

Definition call_one (ev : Event) (cb : string) : M W unit :=
  try_except (call cb ev ;;; modify bump_delivered)
    (λ _, Some (modify bump_dropped)).

(** [_dispatch_event]: the subscriber lists are read once, before any call. *)
Definition dispatch_event (ev : Event) : M W unit :=
  cbs <- gets (λ w, callbacks ev (bus w)) ;;
  for_each cbs (call_one ev).

(** One turn of [_process_events]: the event it dispatched, if any, and whether
    the loop goes on. An empty queue blocks the task. *)
Inductive turn : Type := Blocked | Dispatched (ev : Event) | Stopped.

Definition process_one (w : W) : turn * W :=
  match eb_queue (bus w) with
  | [] => (Blocked, w)
  | None :: q => (Stopped, set_bus (set_queue q (bus w)) w)
  | Some ev :: q =>
      (Dispatched ev, (dispatch_event ev (set_bus (set_queue q (bus w)) w)).2)
  end.

(** [_process_events], at most [fuel] turns: the events dispatched, in order. *)
Fixpoint process_events (fuel : nat) (w : W) : list Event * W :=
  match fuel with
  | O => ([], w)
  | S fuel' =>
      match process_one w with
      | (Dispatched ev, w') =>
          let '(evs, w'') := process_events fuel' w' in (ev :: evs, w'')
      | (_, w') => ([], w')
      end
  end.
End dispatch.

(** ** The bus as an event sink *)

Definition queued (b : EventBus) : list (EventType * EventData) :=
  omap (λ o, (λ ev, (ev_type ev, ev_data ev)) <$> o) (eb_queue b).

#[export] Program Instance bus_sink : EventSink EventBus := {|
  publish_sync := bus_publish_sync;
  sink_events b := queued b ++ eb_scheduled b ++ eb_pending_queue b
|}.
Next Obligation.
  intros t d b. unfold bus_publish_sync, queued.
  repeat case_match; cbn; solve_Permutation.
Defined.

(** ** Histories of a bus: every API call, loop turn and environment change *)

Inductive bus_op : Type :=
  | OpPublish (t : EventType) (d : EventData)
  | OpPublishSync (t : EventType) (d : EventData)
  | OpSetLoop | OpRunScheduled | OpStart | OpStop
  | OpSubscribe (t : option EventType) (cb : string)
  | OpUnsubscribe (t : option EventType) (cb : string)
  | OpEnv (loop_running in_loop : bool)
  | OpTurn.

(** The bus with two ghost lists: what publishers handed over, what was dispatched.
    The callbacks of a dispatched event act by the operations that follow it. *)
Record history : Type := mkHistory {
  h_bus : EventBus;
  h_accepted : list (EventType * EventData);
  h_dispatched : list (EventType * EventData)
}.

Definition bus_exec (o : bus_op) (h : history) : history :=
  let b := h_bus h in
  match o with
  | OpPublish t d => mkHistory (publish t d b) (h_accepted h ++ [(t, d)]) (h_dispatched h)
  | OpPublishSync t d =>
      mkHistory (bus_publish_sync t d b) (h_accepted h ++ [(t, d)]) (h_dispatched h)
  | OpSetLoop => mkHistory (set_event_loop b) (h_accepted h) (h_dispatched h)
  | OpRunScheduled => mkHistory (run_scheduled b) (h_accepted h) (h_dispatched h)
  | OpStart => mkHistory (bus_start b) (h_accepted h) (h_dispatched h)
  | OpStop => mkHistory (bus_stop b) (h_accepted h) (h_dispatched h)
  | OpSubscribe t cb => mkHistory (subscribe t cb b) (h_accepted h) (h_dispatched h)
  | OpUnsubscribe t cb =>
      mkHistory (unsubscribe t cb b).2 (h_accepted h) (h_dispatched h)
  | OpEnv r i => mkHistory (set_env r i b) (h_accepted h) (h_dispatched h)
  | OpTurn =>
      match process_one id (λ b' _, b') (λ _ _, ret tt) b with
      | (Dispatched ev, b') =>
          mkHistory b' (h_accepted h) (h_dispatched h ++ [(ev_type ev, ev_data ev)])
      | (_, b') => mkHistory b' (h_accepted h) (h_dispatched h)
      end
  end.

Definition bus_run (ops : list bus_op) (h : history) : history :=
  foldl (λ h o, bus_exec o h) h ops.

Arguments publish : simpl never.
Arguments queued : simpl never.

Section lemmas.
Lemma queued_set_queue_cons ev q b :
  eb_queue b = Some ev :: q →
  queued b = (ev_type ev, ev_data ev) :: queued (set_queue q b).
Proof. unfold queued. by intros ->. Qed.

Lemma queued_publish t d b : queued (publish t d b) = queued b ++ [(t, d)].
Proof. unfold queued, publish; cbn. by rewrite omap_app. Qed.

(** The bus without its counters of calls: what dispatching leaves alone. *)
Lemma dispatch_quiet (ev : Event) (b : EventBus) :
  let b' := (dispatch_event id (λ b' _, b') (λ _ _, ret tt) ev b).2 in
  eb_queue b' = eb_queue b ∧ eb_scheduled b' = eb_scheduled b ∧
  eb_pending_queue b' = eb_pending_queue b ∧ eb_published b' = eb_published b.
Proof.
  unfold dispatch_event, bind, gets. cbn. generalize (callbacks ev b).
  intros l. revert b. induction l as [|cb l IH]; intros b; [done|].
  cbn [for_each]. unfold bind at 1. cbn. destruct (IH (bump_delivered id (λ b' _, b') b))
    as (Hq & Hs & Hp & Hn). by rewrite Hq, Hs, Hp, Hn.
Qed.

Definition history_ok (h : history) : Prop :=
  h_accepted h ≡ₚ h_dispatched h ++ sink_events (h_bus h) ∧
  eb_published (h_bus h) = (length (h_dispatched h) + length (queued (h_bus h)))%nat.

Lemma bus_exec_ok o h : history_ok h → history_ok (bus_exec o h).
Proof.
  unfold history_ok. intros [Hacc Hn]. destruct o; cbn [bus_exec h_bus h_accepted h_dispatched].
  - split.
    + rewrite Hacc. cbn. rewrite queued_publish. cbn. solve_Permutation.
    + rewrite queued_publish, length_app. unfold publish. cbn. rewrite Hn. lia.
  - split.
    + rewrite Hacc, (publish_sync_accepts t d (h_bus h)). solve_Permutation.
    + unfold bus_publish_sync, queued in *. repeat case_match; done.
  - split; [|done]. rewrite Hacc. cbn. unfold queued. cbn. solve_Permutation.
  - unfold run_scheduled. destruct (eb_scheduled (h_bus h)) as [|[t d] l] eqn:E; [done|].
    split.
    + rewrite Hacc. cbn. rewrite E, queued_publish. cbn. unfold queued. cbn.
      solve_Permutation.
    + rewrite queued_publish, length_app. unfold publish. cbn. rewrite Hn.
      unfold queued. cbn. lia.
  - unfold bus_start. case_match; done.
  - unfold bus_stop. case_match; [|done]. unfold queued in *. cbn in *.
    unfold queued in *. cbn. by rewrite omap_app, app_nil_r.
  - done.
  - unfold unsubscribe. repeat case_match; done.
  - done.
  - unfold process_one. change (id (h_bus h)) with (h_bus h).
    destruct (eb_queue (h_bus h)) as [|[ev|] q] eqn:E; [done| |].
    + destruct (dispatch_quiet ev (set_queue q (h_bus h))) as (Hq & Hs & Hp & Hpub).
      cbn [fst snd h_bus h_accepted h_dispatched id] in *.
      rewrite (queued_set_queue_cons ev q) in Hn by done. cbn in Hn.
      cbn [sink_events bus_sink] in *.
      rewrite (queued_set_queue_cons ev q) in Hacc by done.
      split.
      * rewrite Hacc. unfold queued. rewrite Hq, Hs, Hp. cbn. solve_Permutation.
      * rewrite Hpub, length_app. unfold queued in *. rewrite Hq. cbn in *. lia.
    + assert (queued (set_queue q (h_bus h)) = queued (h_bus h)) as Hq.
      { unfold queued. by rewrite E. }
      cbn. by rewrite Hq.
Qed.

Lemma bus_run_ok ops h : history_ok h → history_ok (bus_run ops h).
Proof. revert h. induction ops; cbn; eauto using bus_exec_ok. Qed.
End lemmas.

(** ** Properties *)

(** C34. No accepted event is lost or duplicated: after every sequence of publishes
    (from coroutines or threads, with or without a loop), loop bindings, loop turns,
    starts, stops and subscription changes, the events handed to the bus are exactly
    those dispatched plus those still queued, scheduled or pending, and the
    [published] counter counts the events that ever reached the queue. This includes the
    events of [publish_sync] without a loop: its documentation says that they are dropped, the
    code keeps them pending until there is a loop. *)
Theorem bus_conservation (ops : list bus_op) :
  let h := bus_run ops (mkHistory bus_init [] []) in
  h_accepted h ≡ₚ h_dispatched h ++ queued (h_bus h) ++ eb_scheduled (h_bus h)
                  ++ eb_pending_queue (h_bus h)
  ∧ eb_published (h_bus h) = (length (h_dispatched h) + length (queued (h_bus h)))%nat.
Proof. cbn zeta. by apply bus_run_ok. Qed.

Section delivery.
Context {W : Type} (bus : W → EventBus) (set_bus : EventBus → W → W)
    (call : string → Event → M W unit).
Hypothesis (bus_set : ∀ b w, bus (set_bus b w) = b).

(** One callback, whatever it raises. *)
Definition after_call (ev : Event) (w : W) (cb : string) : W :=
  match call cb ev w with
  | (Ok _, w') => bump_delivered bus set_bus w'
  | (Raise _, w') => bump_dropped bus set_bus w'
  end.

Lemma call_one_eq ev cb w :
  call_one bus set_bus call ev cb w = (Ok tt, after_call ev w cb).
Proof.
  unfold call_one, try_except, bind, after_call, modify.
  by destruct (call cb ev w) as [[[]|e] w'].
Qed.

Lemma dispatch_event_eq ev w :
  dispatch_event bus set_bus call ev w
  = (Ok tt, foldl (after_call ev) w (callbacks ev (bus w))).
  Proof using bus set_bus call.
  unfold dispatch_event, bind, gets. generalize (callbacks ev (bus w)).
  intros l. revert w. induction l as [|cb l IH]; intros w; [done|].
  cbn [for_each]. unfold bind. by rewrite call_one_eq, IH.
Qed.

Definition counters (b : EventBus) : nat := (eb_delivered b + eb_dropped b)%nat.

Lemma fold_counters ev l w :
  (∀ cb w, counters (bus (call cb ev w).2) = counters (bus w)) →
  counters (bus (foldl (after_call ev) w l)) = (counters (bus w) + length l)%nat.
  Proof using bus_set.
  intros Hc. revert w. induction l as [|cb l IH]; intros w; cbn; [lia|].
  rewrite IH. specialize (Hc cb w). unfold after_call.
  destruct (call cb ev w) as [[|] w']; cbn in Hc;
    unfold bump_delivered, bump_dropped; rewrite bus_set, <-Hc;
    unfold counters; cbn; lia.
Qed.

(** Callbacks only add to the queue. *)
Definition only_enqueues (ev : Event) : Prop :=
  ∀ cb w, ∃ new, eb_queue (bus (call cb ev w).2) = eb_queue (bus w) ++ new.

Lemma dispatch_enqueues ev w :
  only_enqueues ev →
  ∃ new, eb_queue (bus (dispatch_event bus set_bus call ev w).2) = eb_queue (bus w) ++ new.
  Proof using bus_set.
  intros Hc. rewrite dispatch_event_eq. cbn. generalize (callbacks ev (bus w)).
  intros l. revert w. induction l as [|cb l IH]; intros w; cbn.
  { exists []. by rewrite app_nil_r. }
  destruct (IH (after_call ev w cb)) as [n2 ->]. destruct (Hc cb w) as [n1 Hn].
  exists (n1 ++ n2). rewrite (assoc (++)), <-Hn. f_equal. unfold after_call.
  destruct (call cb ev w) as [[|] w']; cbn; unfold bump_delivered, bump_dropped;
    by rewrite bus_set.
Qed.

Lemma process_events_go evs : ∀ fuel w rest,
  (∀ ev, only_enqueues ev) → (length evs < fuel)%nat →
  eb_queue (bus w) = (Some <$> evs) ++ None :: rest →
  ∃ w' new, process_events bus set_bus call fuel w = (evs, w')
  ∧ eb_queue (bus w') = rest ++ new.
  Proof using bus_set.
  induction evs as [|ev evs IH]; intros fuel w rest Hc Hf Hq;
    (destruct fuel as [|fuel]; [cbn in Hf; lia|]);
    cbn [process_events]; unfold process_one; rewrite Hq; cbn [fmap list_fmap app].
  - eexists _, []. split; [done|]. rewrite bus_set, app_nil_r. done.
  - destruct (dispatch_enqueues ev
      (set_bus (set_queue ((Some <$> evs) ++ None :: rest) (bus w)) w) (Hc ev))
      as [n1 Hn1].
    rewrite bus_set in Hn1. cbn [eb_queue set_queue] in Hn1.
    rewrite <-(assoc (++)) in Hn1. cbn [app] in Hn1.
    destruct (IH fuel _ (rest ++ n1) Hc ltac:(cbn in Hf; lia) Hn1) as (w' & n2 & He & Hq').
    eexists w', (n1 ++ n2). rewrite He. split; [done|]. by rewrite Hq', (assoc (++)).
Qed.

(** A failing subscriber never stops the others: dispatching an event always
    completes without an exception, calls every callback registered for its type
    and then every wildcard callback, each once and in subscription order, on the
    world the previous ones left, and counts each of them as delivered or dropped. *)
Theorem dispatch_isolates_callbacks (ev : Event) (w : W)
  (Hcounters : ∀ cb w, counters (bus (call cb ev w).2) = counters (bus w)) :
  let '(r, w') := dispatch_event bus set_bus call ev w in
  r = Ok tt
  ∧ w' = foldl (after_call ev) w (callbacks ev (bus w))
  ∧ counters (bus w') = (counters (bus w) + length (callbacks ev (bus w)))%nat.
Proof using bus_set. rewrite dispatch_event_eq. split_and!; [done..|]. by apply fold_counters. Qed.

(** Stopping drains in order: the processing task dispatches the events
    accepted before [stop], each exactly once and in publication order (also when
    callbacks publish more meanwhile), and then ends at the sentinel, leaving the
    later events queued. *)
Theorem stop_drains_fifo (evs : list Event) (rest : list (option Event)) (fuel : nat) (w : W)
  (Hcalls : ∀ ev, only_enqueues ev) (Hfuel : (length evs < fuel)%nat)
  (Hqueue : eb_queue (bus w) = (Some <$> evs) ++ None :: rest) :
  ∃ w' new, process_events bus set_bus call fuel w = (evs, w')
  ∧ eb_queue (bus w') = rest ++ new.
Proof using bus_set. by apply process_events_go. Qed.
End delivery.

(** A subscriber that publishes an alarm and then fails, on the bare bus. *)
Definition noisy_callback (cb : string) (ev : Event) : M EventBus unit :=
  modify (publish ALARM_RAISED (PlainData ∅)) ;;; raise (RuntimeError cb).

Definition witness_bus : EventBus :=
  bus_stop (publish STEP_STARTED (StepStartedData "s1" None)
    (bus_start (subscribe None "b" (subscribe (Some STEP_STARTED) "a" bus_init)))).

Lemma dispatch_isolates_callbacks_witness :
  ∃ ev, eb_queue witness_bus = [Some ev; None] ∧
  let '(r, b') := dispatch_event id (λ b _, b) noisy_callback ev witness_bus in
  r = Ok tt ∧ eb_dropped b' = 2%nat ∧ counters b' = 2%nat.
Proof.
  eexists. split; [vm_compute; reflexivity|].
  pose proof (dispatch_isolates_callbacks id (λ b _, b) noisy_callback (λ _ _, eq_refl)
    (mkEvent STEP_STARTED (StepStartedData "s1" None) CAT_EVENT) witness_bus
    (λ _ _, eq_refl)) as H.
  vm_compute. vm_compute in H. tauto.
Defined.

Lemma stop_drains_fifo_witness :
  ∃ evs w' new, eb_queue witness_bus = (Some <$> evs) ++ [None]
    ∧ process_events id (λ b _, b) noisy_callback 2 witness_bus = (evs, w')
    ∧ eb_queue w' = new ∧ length new = 2%nat.
Proof.
  destruct (stop_drains_fifo id (λ b _, b) noisy_callback (λ _ _, eq_refl)
    [mkEvent STEP_STARTED (StepStartedData "s1" None) CAT_EVENT] [] 2 witness_bus)
    as (w' & new & Hp & Hq).
  - intros ev cb w. eexists. reflexivity.
  - simpl. lia.
  - reflexivity.
  - exists [mkEvent STEP_STARTED (StepStartedData "s1" None) CAT_EVENT], w', new.
    split_and!; [reflexivity|exact Hp|exact Hq|].
    vm_compute in Hp. injection Hp as <-. vm_compute in Hq. subst new. reflexivity.
Defined.
