(* ===== verification/ResourceManager.v ===== *)
(** * The resource manager (scheduler/resource_manager.py)

    [acquire] and [release] each run in three pieces: a section under the manager's
    own lock, the operation on the resource's [threading.Lock], and (for [acquire])
    a second section. The pieces are the atomic steps of the thread model; run back
    to back they are the methods. *)

From S2P Require Import Prelude PyDict PyStr Types.

Record ResourceManager : Type := mkRM {
  rm_locks : pydict string bool;          (* is the resource's Lock held? *)
  rm_owners : pydict string string;
  rm_has_bus : bool
}.

Definition rm_init (has_bus : bool) : ResourceManager := mkRM ∅ ∅ has_bus.
Definition set_locks l (s : ResourceManager) := mkRM l (rm_owners s) (rm_has_bus s).
Definition set_owners o (s : ResourceManager) := mkRM (rm_locks s) o (rm_has_bus s).

(** First section of [acquire]: create the lock, refuse the current owner. *)
Definition acquire_check (r o : string) : M ResourceManager unit :=
  modify (λ s, set_locks (set_default r false (rm_locks s)) s) ;;;
  s <- get ;;
  if decide (rm_owners s !! r = Some o) then
    raise (ResourceAcquireError ("Owner '" +:+ o +:+ "' already holds resource '" +:+ r +:+ "'"))
  else ret tt.

(** [resource_lock.acquire(blocking=False)] *)
Definition try_lock (r : string) : M ResourceManager bool :=
  s <- get ;;
  if get_default r false (rm_locks s) then ret false
  else modify (λ s, set_locks (<[r := true]> (rm_locks s)) s) ;;; ret true.

(** Second section of [acquire]. *)
Definition acquire_commit (r o : string) : M ResourceManager unit :=
  modify (λ s, set_owners (<[r := o]> (rm_owners s)) s).

(** The call waits when a positive timeout is given. *)
Definition blocking (timeout : option Z) : bool :=
  match timeout with Some t => negb (t <=? 0)%Z | None => false end.

(** [acquire] run without interference: then no other thread can free the lock, so
    that a timed wait ends like the non-blocking attempt. *)
Definition acquire (r o : string) (timeout : option Z) : M ResourceManager bool :=
  acquire_check r o ;;;
  acquired <- try_lock r ;;
  (when acquired do acquire_commit r o) ;;;
  ret acquired.

(** Section of [release]: check the caller is the owner and forget it. *)
Definition release_check (r o : string) : M ResourceManager unit :=
  s <- get ;;
  match rm_locks s !! r with
  | None => raise (ResourceAcquireError ("Resource '" +:+ r +:+ "' not found"))
  | Some _ =>
      let current := rm_owners s !! r in
      if decide (current = Some o) then
        modify (λ s, set_owners (delete r (rm_owners s)) s)
      else raise (ResourceAcquireError ("Cannot release '" +:+ r +:+ "': owner is '"
             +:+ default "None" current +:+ "', not '" +:+ o +:+ "'"))
  end.

(** [Lock.release]: releasing an unlocked lock is a RuntimeError. *)
Definition unlock (r : string) : M ResourceManager unit :=
  s <- get ;;
  match rm_locks s !! r with
  | None => raise (KeyError r)
  | Some false => raise (RuntimeError "release unlocked lock")
  | Some true => modify (λ s, set_locks (<[r := false]> (rm_locks s)) s)
  end.

Definition release {B} `{EventSink B} (r o : string) : M (ResourceManager * B) unit :=
  zoom fst (λ s w, (s, w.2)) (release_check r o) ;;;
  zoom fst (λ s w, (s, w.2)) (unlock r) ;;;
  modify (λ '(s, b), (s, notify (rm_has_bus s) RESOURCE_RELEASED (ResourceReleasedData r o) b)).

Definition is_available (s : ResourceManager) (r : string) : bool :=
  if has_key r (rm_locks s) then negb (has_key r (rm_owners s)) else true.

Definition get_owner (s : ResourceManager) (r : string) : option string := rm_owners s !! r.

(** resource id to owner, in the order of acquisition. *)
Definition get_active_locks (s : ResourceManager) : pydict string string := rm_owners s.

(** ** Threads *)

Inductive pc : Type :=
  | Idle
  | TryLock (r o : string) (timed : bool)     (* before the lock operation *)
  | Commit (r o : string)                     (* lock taken, owner not recorded *)
  | Unlock (r o : string).                    (* owner forgotten, lock still held *)

Abbreviation threads := (list pc).

Inductive rm_step : ResourceManager * threads → ResourceManager * threads → Prop :=
  | Step_check s ts i r o timed s' :
      ts !! i = Some Idle → acquire_check r o s = (Ok tt, s') →
      rm_step (s, ts) (s', <[i := TryLock r o timed]> ts)
  | Step_check_refused s ts i r o e s' :
      ts !! i = Some Idle → acquire_check r o s = (Raise e, s') →
      rm_step (s, ts) (s', ts)
  | Step_lock s ts i r o timed s' :
      ts !! i = Some (TryLock r o timed) → try_lock r s = (Ok true, s') →
      rm_step (s, ts) (s', <[i := Commit r o]> ts)
  | Step_give_up s ts i r o timed s' :
      (* a non-blocking attempt on a held lock, or the end of a timed wait *)
      ts !! i = Some (TryLock r o timed) → try_lock r s = (Ok false, s') →
      rm_step (s, ts) (s', <[i := Idle]> ts)
  | Step_commit s ts i r o s' :
      ts !! i = Some (Commit r o) → acquire_commit r o s = (Ok tt, s') →
      rm_step (s, ts) (s', <[i := Idle]> ts)
  | Step_release s ts i r o s' :
      ts !! i = Some Idle → release_check r o s = (Ok tt, s') →
      rm_step (s, ts) (s', <[i := Unlock r o]> ts)
  | Step_release_refused s ts i r o e s' :
      ts !! i = Some Idle → release_check r o s = (Raise e, s') →
      rm_step (s, ts) (s', ts)
  | Step_unlock s ts i r o x s' :
      ts !! i = Some (Unlock r o) → unlock r s = (x, s') →
      rm_step (s, ts) (s', <[i := Idle]> ts).

(** The states of [n] threads sharing a fresh manager. *)
Definition rm_reachable (n : nat) (has_bus : bool) (w : ResourceManager * threads) : Prop :=
  rtc rm_step (rm_init has_bus, replicate n Idle) w.

(** Is the thread between taking and releasing the lock of [r]? *)
Definition in_transit (r : string) (p : pc) : bool :=
  match p with
  | Commit r' _ | Unlock r' _ => bool_decide (r' = r)
  | _ => false
  end.

Definition b2n (b : bool) : nat := if b then 1 else 0.
Fixpoint transit_count (r : string) (ts : threads) : nat :=
  match ts with [] => 0 | p :: ts' => b2n (in_transit r p) + transit_count r ts' end.

(** Every held lock has exactly one holder: the recorded owner, or one thread in
    transit; and the lock exists before it is used. *)
Definition rm_inv (w : ResourceManager * threads) : Prop :=
  let '(s, ts) := w in
  (∀ r, (transit_count r ts + b2n (has_key r (rm_owners s)))%nat
        = b2n (get_default r false (rm_locks s)))
  ∧ (∀ i r o t, ts !! i = Some (TryLock r o t) → is_Some (rm_locks s !! r)).

Section lemmas.
Lemma transit_count_insert r ts i p q :
  ts !! i = Some p →
  (transit_count r (<[i := q]> ts) + b2n (in_transit r p))%nat
  = (transit_count r ts + b2n (in_transit r q))%nat.
Proof.
  revert i. induction ts as [|p' ts IH]; intros [|i] Hi; simplify_eq/=; [lia|].
  specialize (IH i Hi). lia.
Qed.

Lemma transit_count_pos r ts i p :
  ts !! i = Some p → in_transit r p = true → (0 < transit_count r ts)%nat.
Proof.
  revert i. induction ts as [|p' ts IH]; intros [|i] Hi Hp; simplify_eq/=.
  - rewrite Hp. cbn. lia.
  - specialize (IH i Hi Hp). lia.
Qed.

Lemma transit_count_two r ts i j p q :
  i ≠ j → ts !! i = Some p → ts !! j = Some q →
  in_transit r p = true → in_transit r q = true → (2 ≤ transit_count r ts)%nat.
Proof.
  revert i j. induction ts as [|p' ts IH]; intros [|i] [|j]; cbn; intros Hij Hi Hj Hp Hq;
    simplify_eq.
  - rewrite Hp. pose proof (transit_count_pos r ts j q Hj Hq).
    cbn. lia.
  - rewrite Hq. pose proof (transit_count_pos r ts i p Hi Hp).
    cbn. lia.
  - specialize (IH i j ltac:(congruence) Hi Hj Hp Hq). cbn. lia.
Qed.

Lemma transit_count_init r n : transit_count r (replicate n Idle) = 0%nat.
Proof. induction n; cbn in *; auto. Qed.

Lemma has_key_insert {V} (d : pydict string V) k k' v :
  has_key k (<[k' := v]> d) = bool_decide (k' = k) || has_key k d.
Proof.
  unfold has_key. rewrite dict_lookup_insert. case_decide; subst.
  - by rewrite !bool_decide_true by eauto.
  - by rewrite (bool_decide_false (k' = k)).
Qed.
Lemma has_key_delete {V} (d : pydict string V) k k' :
  has_key k (delete k' d) = negb (bool_decide (k' = k)) && has_key k d.
Proof.
  unfold has_key. rewrite dict_lookup_delete. case_decide; subst.
  - by rewrite (bool_decide_true (k = k)).
  - by rewrite (bool_decide_false (k' = k)).
Qed.
Lemma has_key_Some {V} (d : pydict string V) k v : d !! k = Some v → has_key k d = true.
Proof. intros E. apply bool_decide_true. eauto. Qed.

(** What each atomic piece does. *)
Lemma acquire_check_spec r o s x s' :
  acquire_check r o s = (x, s') →
  s' = set_locks (set_default r false (rm_locks s)) s ∧
  (x = Ok tt ∧ rm_owners s !! r ≠ Some o
   ∨ (∃ m, x = Raise (ResourceAcquireError m)) ∧ rm_owners s !! r = Some o).
Proof.
  unfold acquire_check, bind, modify, get, ret, raise. cbn.
  case_decide; intros; simplify_eq/=; (split; [done|]); [right|left]; eauto.
Qed.

Lemma try_lock_spec r s b s' :
  try_lock r s = (Ok b, s') →
  b = negb (get_default r false (rm_locks s)) ∧
  s' = if b then set_locks (<[r := true]> (rm_locks s)) s else s.
Proof.
  unfold try_lock, bind, modify, get, ret. cbn.
  destruct (get_default r false (rm_locks s)) eqn:E; intros; by simplify_eq/=.
Qed.

Lemma release_check_spec r o s x s' :
  release_check r o s = (x, s') →
  (x = Ok tt ∧ rm_owners s !! r = Some o ∧ is_Some (rm_locks s !! r)
     ∧ s' = set_owners (delete r (rm_owners s)) s)
  ∨ ((∃ m, x = Raise (ResourceAcquireError m)) ∧ s' = s
     ∧ (rm_locks s !! r = None ∨ rm_owners s !! r ≠ Some o)).
Proof.
  unfold release_check, bind, modify, get, raise. cbn. intros Hx.
  destruct (rm_locks s !! r) eqn:El; [|simplify_eq; eauto 8].
  case_decide; simplify_eq; eauto 8.
Qed.

Lemma get_default_set_default (d : pydict string bool) k k' :
  get_default k false (set_default k' false d) = get_default k false d.
Proof.
  unfold get_default at 1. rewrite dict_lookup_set_default.
  case_decide; by subst.
Qed.

Lemma is_Some_set_default {V} (d : pydict string V) k k' v :
  is_Some (d !! k) → is_Some (set_default k' v d !! k).
Proof. intros [x E]. rewrite dict_lookup_set_default. case_decide; eauto. Qed.

Lemma is_Some_insert {V} (d : pydict string V) k k' v :
  is_Some (d !! k) → is_Some (<[k' := v]> d !! k).
Proof. intros [x E]. rewrite dict_lookup_insert. case_decide; eauto. Qed.

Lemma lookup_insert_try (ts : threads) (i j : nat) (p : pc) r o t :
  (∀ r o t, p ≠ TryLock r o t) →
  <[i := p]> ts !! j = Some (TryLock r o t) → ts !! j = Some (TryLock r o t).
Proof.
  intros Hp Hj. destruct (decide (i = j)) as [->|].
  - apply list_lookup_insert_Some in Hj as [(_ & -> & _)|[? _]]; [|done].
    by destruct (Hp r o t).
  - by rewrite list_lookup_insert_ne in Hj.
Qed.
End lemmas.

Section invariant.
Lemma rm_inv_init n has_bus : rm_inv (rm_init has_bus, replicate n Idle).
Proof.
  split; cbn.
  - intros r. by rewrite transit_count_init.
  - intros i r o t Hi. apply lookup_replicate in Hi as [? _]. done.
Qed.

Ltac thread_step Hi r' q :=
  pose proof (transit_count_insert r' _ _ _ q Hi) as Hcount; cbn [in_transit] in Hcount.

Lemma rm_inv_step w w' : rm_step w w' → rm_inv w → rm_inv w'.
Proof.
  destruct 1 as [s ts i r o t s' Hi Hc|s ts i r o e s' Hi Hc|s ts i r o t s' Hi Hc
    |s ts i r o t s' Hi Hc|s ts i r o s' Hi Hc|s ts i r o s' Hi Hc
    |s ts i r o e s' Hi Hc|s ts i r o x s' Hi Hc]; intros [Hcnt Htry].
  - apply acquire_check_spec in Hc as [-> _]. split.
    + intros r'. thread_step Hi r' (TryLock r o t). specialize (Hcnt r').
      cbn in *. rewrite get_default_set_default. lia.
    + intros j r' o' t' Hj. destruct (decide (i = j)) as [->|Hne].
      * apply list_lookup_insert_Some in Hj as [(_ & Hj & _)|[? _]]; [|done].
        simplify_eq. cbn. rewrite dict_lookup_set_default, decide_True by done. eauto.
      * rewrite list_lookup_insert_ne in Hj by done.
        apply is_Some_set_default. eauto.
  - apply acquire_check_spec in Hc as [-> _]. split.
    + intros r'. cbn. rewrite get_default_set_default. apply Hcnt.
    + intros j r' o' t' Hj. apply is_Some_set_default. eauto.
  - apply try_lock_spec in Hc as [Hl ->]. symmetry in Hl. apply negb_true_iff in Hl.
    split.
    + intros r'. thread_step Hi r' (Commit r o). specialize (Hcnt r'). cbn in *.
      rewrite get_default_insert. destruct (decide (r = r')) as [->|Hne].
      * rewrite bool_decide_true in Hcount by done. rewrite Hl in Hcnt. cbn in *. lia.
      * rewrite bool_decide_false in Hcount by done. cbn in *. lia.
    + intros j r' o' t' Hj. apply lookup_insert_try in Hj; [|done].
      apply is_Some_insert. eauto.
  - apply try_lock_spec in Hc as [_ ->]. split.
    + intros r'. thread_step Hi r' Idle. specialize (Hcnt r'). cbn in *. lia.
    + intros j r' o' t' Hj. apply lookup_insert_try in Hj; [|done]. eauto.
  - injection Hc as <-. split.
    + intros r'. thread_step Hi r' Idle. pose proof (Hcnt r') as Hr'. cbn in *.
      rewrite has_key_insert. destruct (decide (r = r')) as [->|Hne].
      * rewrite bool_decide_true in * by done. cbn in *.
        destruct (get_default r' false (rm_locks s)), (has_key r' (rm_owners s));
          cbn in *; lia.
      * rewrite bool_decide_false in * by done. cbn in *. lia.
    + intros j r' o' t' Hj. apply lookup_insert_try in Hj; [|done]. eauto.
  - apply release_check_spec in Hc as [(_ & Ho & _ & ->)|([m ?] & _)]; [|done]. split.
    + intros r'. thread_step Hi r' (Unlock r o). specialize (Hcnt r'). cbn in *.
      rewrite has_key_delete. destruct (decide (r = r')) as [->|Hne].
      * rewrite bool_decide_true in * by done.
        rewrite (has_key_Some _ _ _ Ho) in Hcnt. cbn in *. lia.
      * rewrite bool_decide_false in * by done. cbn in *. lia.
    + intros j r' o' t' Hj. apply lookup_insert_try in Hj; [|done]. eauto.
  - apply release_check_spec in Hc as [(? & _)|(_ & -> & _)]; [done|]. by split.
  - pose proof (transit_count_pos r ts i _ Hi) as Hpos. cbn in Hpos.
    rewrite bool_decide_true in Hpos by done. specialize (Hpos eq_refl).
    pose proof (Hcnt r) as Hr. unfold get_default in Hr.
    unfold unlock, bind, get, modify in Hc. cbn in Hc.
    destruct (rm_locks s !! r) as [[]|] eqn:El; cbn in *; [|lia..]. simplify_eq.
    split.
    + intros r'. thread_step Hi r' Idle. specialize (Hcnt r'). cbn in *.
      rewrite get_default_insert. destruct (decide (r = r')) as [->|Hne].
      * rewrite bool_decide_true in * by done. unfold get_default in Hcnt.
        rewrite El in Hcnt. cbn in *. lia.
      * rewrite bool_decide_false in * by done. cbn in *. lia.
    + intros j r' o' t' Hj. apply lookup_insert_try in Hj; [|done].
      apply is_Some_insert. eauto.
Qed.

Lemma rm_inv_reachable n has_bus w : rm_reachable n has_bus w → rm_inv w.
Proof.
  intros Hr. unfold rm_reachable in Hr.
  remember (rm_init has_bus, replicate n Idle) as w0 eqn:E.
  assert (rm_inv w0) as H0 by (subst; apply rm_inv_init). clear E.
  induction Hr; eauto using rm_inv_step.
Qed.
End invariant.

(** ** Properties *)

(** C21. Mutual exclusion under every interleaving of threads: whenever a thread
    holds a resource's lock on its way in or out, no owner is recorded and no other
    thread is on its way in or out; a recorded owner means the lock is held and
    nobody is in transit. Hence recording an owner never overwrites another, and
    releasing never meets an unlocked lock (no RuntimeError). *)
Theorem rm_mutual_exclusion (n : nat) (has_bus : bool) (s : ResourceManager) (ts : threads)
    (Hreach : rm_reachable n has_bus (s, ts)) :
  (∀ r o, rm_owners s !! r = Some o →
     rm_locks s !! r = Some true ∧
     ∀ i p, ts !! i = Some p → in_transit r p = false)
  ∧ (∀ r i j p q, ts !! i = Some p → ts !! j = Some q →
       in_transit r p = true → in_transit r q = true → i = j)
  ∧ (∀ r i o, ts !! i = Some (Commit r o) → rm_owners s !! r = None)
  ∧ (∀ r i o, ts !! i = Some (Unlock r o) →
       unlock r s = (Ok tt, set_locks (<[r := false]> (rm_locks s)) s)).
Proof.
  apply rm_inv_reachable in Hreach as [Hcnt _].
  assert (Htransit : ∀ r i p, ts !! i = Some p → in_transit r p = true →
    rm_locks s !! r = Some true ∧ has_key r (rm_owners s) = false).
  { intros r i p Hi Hp. pose proof (transit_count_pos r ts i p Hi Hp).
    specialize (Hcnt r). unfold get_default in Hcnt.
    destruct (rm_locks s !! r) as [[]|], (has_key r (rm_owners s)); cbn in *;
      first [done|lia]. }
  split_and!.
  - intros r o Ho. specialize (Hcnt r). rewrite (has_key_Some _ _ _ Ho) in Hcnt.
    unfold get_default in Hcnt. split.
    + destruct (rm_locks s !! r) as [[]|]; cbn in *; [done|lia..].
    + intros i p Hi. destruct (in_transit r p) eqn:Hp; [|done].
      destruct (Htransit r i p Hi Hp) as [_ Hn]. by rewrite (has_key_Some _ _ _ Ho) in Hn.
  - intros r i j p q Hi Hj Hp Hq. destruct (decide (i = j)) as [|Hne]; [done|].
    pose proof (transit_count_two r ts i j p q Hne Hi Hj Hp Hq).
    specialize (Hcnt r). unfold b2n in Hcnt. repeat case_match; lia.
  - intros r i o Hi. destruct (Htransit r i _ Hi) as [_ Hn]; [by apply bool_decide_true|].
    apply not_elem_of_keys. by rewrite <-has_key_spec, Hn.
  - intros r i o Hi. destruct (Htransit r i _ Hi) as [Hl _]; [by apply bool_decide_true|].
    unfold unlock, bind, get. cbn. by rewrite Hl.
Qed.

Lemma rm_mutual_exclusion_witness :
  ∃ s, rm_reachable 2 false (s, [Commit "DMM" "step1"; TryLock "DMM" "step2" true])
    ∧ rm_owners s !! "DMM" = None.
Proof.
  exists (mkRM (<["DMM" := true]> ∅) ∅ false).
  assert (rm_reachable 2 false (mkRM (<["DMM" := true]> ∅) ∅ false,
            [Commit "DMM" "step1"; TryLock "DMM" "step2" true])) as Hr.
  { unfold rm_reachable.
    eapply rtc_l; [apply (Step_check _ _ 0 "DMM" "step1" false); reflexivity|].
    eapply rtc_l; [apply (Step_check _ _ 1 "DMM" "step2" true); reflexivity|].
    eapply rtc_l; [apply (Step_lock _ _ 0 "DMM" "step1" false); reflexivity|].
    apply rtc_refl. }
  split; [exact Hr|].
  destruct (rm_mutual_exclusion 2 false _ _ Hr) as (_ & _ & Hc & _).
  exact (Hc "DMM" 0 "step1" eq_refl).
Defined.

(** The sequential states: a lock is held exactly while an owner is recorded. *)
Definition rm_quiet (s : ResourceManager) : Prop :=
  ∀ r, get_default r false (rm_locks s) = has_key r (rm_owners s).

(** Contract of [acquire], on every branch: the owner itself is refused with
    ResourceAcquireError, another owner's resource is not acquired, a free one is
    acquired and recorded; nothing else changes owner, and the locks stay in step
    with the owners. *)
Theorem acquire_contract (r o : string) (timeout : option Z) (s : ResourceManager)
    (Hq : rm_quiet s) :
  let '(x, s') := acquire r o timeout s in
  rm_quiet s' ∧
  match rm_owners s !! r with
  | None => x = Ok true ∧ rm_owners s' = <[r := o]> (rm_owners s)
  | Some o' =>
      rm_owners s' = rm_owners s ∧
      if decide (o' = o)
      then x = Raise (ResourceAcquireError
             ("Owner '" +:+ o +:+ "' already holds resource '" +:+ r +:+ "'"))
      else x = Ok false
  end.
Proof.
  unfold acquire, acquire_check, try_lock, acquire_commit, bind, modify, get, ret, raise. cbn.
  pose proof (Hq r) as Hr. unfold has_key in Hr.
  destruct (rm_owners s !! r) as [o'|] eqn:Eo.
  - destruct (decide (Some o' = Some o)) as [E|E].
    + simplify_eq. rewrite decide_True by done. split_and!; [|done..].
      intros r'. cbn. rewrite get_default_set_default. apply Hq.
    + rewrite bool_decide_true in Hr by eauto. cbn. rewrite get_default_set_default, Hr.
      rewrite decide_False by congruence. split_and!; [|done..].
      intros r'. cbn. rewrite get_default_set_default. apply Hq.
  - rewrite decide_False by done. cbn. rewrite get_default_set_default, Hr. cbn.
    split_and!; [|done..]. intros r'. cbn.
    rewrite get_default_insert, get_default_set_default, has_key_insert.
    case_decide; subst; [by rewrite bool_decide_true|].
    rewrite bool_decide_false by done. apply Hq.
Qed.

Lemma acquire_contract_witness :
  rm_quiet (rm_init false) ∧
  ∃ s', acquire "DMM" "step1" None (rm_init false) = (Ok true, s')
    ∧ rm_quiet s' ∧ get_owner s' "DMM" = Some "step1".
Proof.
  assert (rm_quiet (rm_init false)) as Hq by (intros r; reflexivity).
  split; [exact Hq|].
  exists (mkRM (<["DMM" := true]> ∅) (<["DMM" := "step1"]> ∅) false).
  split; [reflexivity|].
  split; [exact (proj1 (acquire_contract "DMM" "step1" None (rm_init false) Hq))|reflexivity].
Defined.

Lemma release_eq {B} `{EventSink B} r o s (b : B) :
  release r o (s, b) =
  match release_check r o s with
  | (Ok _, s1) =>
      match unlock r s1 with
      | (Ok _, s2) =>
          (Ok tt, (s2, notify (rm_has_bus s2) RESOURCE_RELEASED (ResourceReleasedData r o) b))
      | (Raise e, s2) => (Raise e, (s2, b))
      end
  | (Raise e, s1) => (Raise e, (s1, b))
  end.
Proof.
  unfold release, bind at 1, zoom at 1. cbn [fst snd].
  destruct (release_check r o s) as [[[]|e] s1]; [|done].
  unfold bind, zoom, modify. cbn [fst snd]. by destruct (unlock r s1) as [[[]|e] s2].
Qed.

Lemma unlock_held r s :
  rm_locks s !! r = Some true → unlock r s = (Ok tt, set_locks (<[r := false]> (rm_locks s)) s).
Proof. intros E. unfold unlock, bind, get, modify. cbn. by rewrite E. Qed.

(** Contract of [release]: only the recorded owner releases, and then the
    resource is free again, every other resource keeps its owner and one
    RESOURCE_RELEASED event is published; any other caller gets
    ResourceAcquireError and nothing changes. *)
Theorem release_contract {B} `{EventSink B} (r o : string) (s : ResourceManager) (b : B)
    (Hq : rm_quiet s) :
  let '(x, (s', b')) := release r o (s, b) in
  rm_quiet s' ∧
  if decide (rm_owners s !! r = Some o) then
    x = Ok tt ∧ rm_owners s' = delete r (rm_owners s) ∧ is_available s' r = true ∧
    b' = notify (rm_has_bus s) RESOURCE_RELEASED (ResourceReleasedData r o) b
  else (∃ m, x = Raise (ResourceAcquireError m)) ∧ s' = s ∧ b' = b.
Proof.
  rewrite release_eq. destruct (release_check r o s) as [x s'] eqn:Hc.
  apply release_check_spec in Hc as [(-> & Ho & [l Hl] & ->)|([m ->] & -> & Hno)].
  - pose proof (Hq r) as Hr. rewrite (has_key_Some _ _ _ Ho) in Hr.
    unfold get_default in Hr. rewrite Hl in Hr. cbn in Hr. subst l.
    rewrite unlock_held by done. rewrite decide_True by done.
    split_and!; [|done|done| |done].
    + intros r'. cbn. rewrite get_default_insert, has_key_delete.
      case_decide; subst; [by rewrite bool_decide_true|].
      rewrite bool_decide_false by done. apply Hq.
    + unfold is_available. cbn. rewrite has_key_insert, has_key_delete.
      by rewrite !(bool_decide_true (r = r)).
  - split; [done|]. rewrite decide_False; [eauto|].
    intros Ho. destruct Hno as [Hn|Hn]; [|done].
    specialize (Hq r). rewrite (has_key_Some _ _ _ Ho) in Hq.
    unfold get_default in Hq. by rewrite Hn in Hq.
Qed.

Lemma release_contract_witness :
  ∃ s, rm_quiet s ∧ rm_owners s !! "DMM" = Some "step1" ∧
    rm_quiet (release "DMM" "step1" (s, ([] : list (EventType * EventData)))).2.1 ∧
    (release "DMM" "step1" (s, [])).2.2
    = [(RESOURCE_RELEASED, ResourceReleasedData "DMM" "step1")].
Proof.
  exists (mkRM (<["DMM" := true]> ∅) (<["DMM" := "step1"]> ∅) true).
  assert (rm_quiet (mkRM (<["DMM" := true]> ∅) (<["DMM" := "step1"]> ∅) true)) as Hq.
  { intros r. cbn [rm_locks rm_owners]. rewrite get_default_insert, has_key_insert.
    case_decide; subst; [by rewrite bool_decide_true|].
    by rewrite bool_decide_false. }
  split; [exact Hq|]. split; [reflexivity|]. split; [|reflexivity].
  exact (proj1 (release_contract "DMM" "step1" _ ([] : list (EventType * EventData)) Hq)).
Defined.
