(* ===== verification/ConditionEvaluator.v ===== *)
(** * Preconditions (scheduler/condition_evaluator.py)

    Expressions are evaluated by the third-party [simpleeval] package: [simple_eval]
    stands for it, given the functions and names the evaluator registers, and
    answers [None] when it raises. *)

From S2P Require Import Prelude PyDict PyStr Types VariableSpace ResourceManager.

(** A recorded step result: a [StepResult] object or a dictionary with optional
    "status" (a member, a member's name, or some other value) and "outputs". *)
Inductive status_val : Type := SVStatus (s : StepStatus) | SVName (s : string) | SVOther.
Inductive step_result : Type :=
  | ResultObj (status : StepStatus) (outputs : pydict string pyval)
  | ResultDict (status : option status_val) (outputs : option (pydict string pyval)).

(** What an expression may use besides literals and operators. *)
Record eval_env : Type := mkEnv {
  fn_time_since : string → option Z;
  fn_step_outputs : string → string → pyval;
  env_names : pydict string pyval
}.

Record ConditionEvaluator : Type := mkCE {
  ce_step_results : pydict string step_result;
  ce_resource_manager : option ResourceManager;
  ce_variable_space : option VariableSpace;
  ce_completion_times : pydict string Z;
  ce_names : pydict string pyval
}.

(** [ConditionEvaluator(step_results, resource_manager, variable_space)] *)
Definition new_evaluator (results : pydict string step_result)
    (rm : option ResourceManager) (vs : option VariableSpace) : ConditionEvaluator :=
  mkCE results rm vs ∅ ∅.

Definition time_since (ce : ConditionEvaluator) (now : Z) (step_id : string) : option Z :=
  (λ t, (now - t)%Z) <$> ce_completion_times ce !! step_id.

Definition step_outputs (ce : ConditionEvaluator) (step_id key : string) : pyval :=
  match ce_step_results ce !! step_id with
  | None => PyNone
  | Some (ResultObj _ outs) => get_default key PyNone outs
  | Some (ResultDict _ outs) => get_default key PyNone (default ∅ outs)
  end.

Definition get_step_status (ce : ConditionEvaluator) (step_id : string) : option StepStatus :=
  match ce_step_results ce !! step_id with
  | None => None
  | Some (ResultObj s _) => Some s
  | Some (ResultDict None _) => None
  | Some (ResultDict (Some (SVStatus s)) _) => Some s
  | Some (ResultDict (Some (SVName n)) _) => status_of_name n
  | Some (ResultDict (Some SVOther) _) => None
  end.

Definition update_step_completion_time (step_id : string) (completion_time : option Z)
    (now : Z) (ce : ConditionEvaluator) : ConditionEvaluator :=
  (* [completion_time or time.time()]: zero counts as missing *)
  let t := match completion_time with Some t => if (t =? 0)%Z then now else t | None => now end in
  mkCE (ce_step_results ce) (ce_resource_manager ce) (ce_variable_space ce)
    (<[step_id := t]> (ce_completion_times ce)) (ce_names ce).

Definition set_names (names : pydict string pyval) (ce : ConditionEvaluator) :=
  mkCE (ce_step_results ce) (ce_resource_manager ce) (ce_variable_space ce)
    (ce_completion_times ce) (dict_update (ce_names ce) names).

(** [all(f(x) for x in l)] and [any(...)]: left to right, stopping early; an
    exception of [f] escapes. *)
Fixpoint all_res {A} (f : A → res bool) (l : list A) : res bool :=
  match l with
  | [] => Ok true
  | x :: l' => match f x with Ok true => all_res f l' | r => r end
  end.
Fixpoint any_res {A} (f : A → res bool) (l : list A) : res bool :=
  match l with
  | [] => Ok false
  | x :: l' => match f x with Ok false => any_res f l' | r => r end
  end.

Section evaluator.
Context (simple_eval : eval_env → string → option pyval).
  Implicit Types ce : ConditionEvaluator.

Definition ce_env ce (now : Z) : eval_env :=
  mkEnv (time_since ce now) (step_outputs ce) (ce_names ce).

(** Resolve the variables, evaluate, take the truth value. *)
Definition eval_bool ce (now : Z) (expression : string) : option bool :=
  let expr := match ce_variable_space ce with
  | Some vs => vs_resolve vs expression | None => expression end in
  py_bool <$> simple_eval (ce_env ce now) expr.

Definition check_step ce (step status : string) : res bool :=
  match get_step_status ce step with
  | None => Ok false
  | Some step_status =>
      match status_of_name status with
      | None => Raise (KeyError status)        (* [StepStatus[condition.status]] *)
      | Some expected =>
          if decide (step_status = SKIPPED) then Ok true
          else Ok (bool_decide (step_status = expected))
      end
  end.

Definition check_resources ce (rs : list string) : bool :=
  match ce_resource_manager ce with
  | None => false
  | Some rm => forallb (is_available rm) rs
  end.

(** [evaluate]: collect one Boolean per part that is present, then [all]. *)
Definition evaluate ce (now : Z) (c : Condition) : res bool :=
  res_bind
  (match cond_step c, cond_status c with
  | Some step, Some status => res_bind (check_step ce step status) (λ b, Ok [b])
  | _, _ => Ok []
  end)
  (λ r1,
    let r2 := match cond_expression c with
    | Some expr => [default false (eval_bool ce now expr)]
    | None => []
    end in
    let r3 := match cond_resource_available c with
    | Some rs => [check_resources ce rs]
    | None => []
    end in
    let results := r1 ++ r2 ++ r3 in
    match results with [] => Ok true | _ => Ok (forallb id results) end).

Definition evaluate_all ce (now : Z) (cs : list Condition) : res bool :=
  all_res (evaluate ce now) cs.
Definition evaluate_any ce (now : Z) (cs : list Condition) : res bool :=
  any_res (evaluate ce now) cs.

(** [evaluate_skip_condition]: never raises; failure means "do not skip". *)
Definition evaluate_skip_condition ce (now : Z) (expression : string) : bool :=
  if is_blank expression then false
  else default false (eval_bool ce now expression).
End evaluator.

(** ** Waiting

    [wait_for_condition], [wait_for_all] and [wait_for_any] are one polling loop,
    differing in what a poll evaluates. [poll k] is the outcome of the k-th poll and
    [clock k] the time read after it; [None] means the fuel ran out. *)
Section wait.
Context (poll : nat → res bool) (clock : nat → Z).

Fixpoint wait_loop (fuel : nat) (start_time timeout : Z) (msg : string) (k : nat) :
    option (res bool) :=
  match fuel with
  | O => None
  | S fuel' =>
      match poll k with
      | Raise e => Some (Raise e)
      | Ok true => Some (Ok true)
      | Ok false =>
          let elapsed := (clock k - start_time)%Z in
          if (timeout <=? elapsed)%Z then Some (Raise (ConditionTimeoutError msg))
          else wait_loop fuel' start_time timeout msg (S k)
      end
  end.
End wait.

Definition within (what : string) (timeout : Z) : string :=
  what +:+ " within " +:+ pretty timeout +:+ " seconds".

Definition wait_for_condition (simple_eval : eval_env → string → option pyval)
    (ces : nat → ConditionEvaluator) (clock : nat → Z) (c : Condition)
    (start_time timeout : Z) (fuel : nat) : option (res bool) :=
  wait_loop (λ k, evaluate simple_eval (ces k) (clock k) c) clock fuel start_time timeout
    (within "Condition not met" timeout) 0.
Definition wait_for_all (simple_eval : eval_env → string → option pyval)
    (ces : nat → ConditionEvaluator) (clock : nat → Z) (cs : list Condition)
    (start_time timeout : Z) (fuel : nat) : option (res bool) :=
  wait_loop (λ k, evaluate_all simple_eval (ces k) (clock k) cs) clock fuel start_time timeout
    (within "Conditions not all met" timeout) 0.
Definition wait_for_any (simple_eval : eval_env → string → option pyval)
    (ces : nat → ConditionEvaluator) (clock : nat → Z) (cs : list Condition)
    (start_time timeout : Z) (fuel : nat) : option (res bool) :=
  wait_loop (λ k, evaluate_any simple_eval (ces k) (clock k) cs) clock fuel start_time timeout
    (within "No conditions met" timeout) 0.

Section lemmas.
(** The polling loop answers for the first poll that is not [False], or reports
    the time-out of the first poll past the deadline. *)
Definition poll_done poll (clock : nat → Z) (start timeout : Z) (k : nat) : bool :=
  match poll k with Ok false => (timeout <=? clock k - start)%Z | _ => true end.

Lemma wait_loop_result poll clock start timeout msg n : ∀ fuel k,
  (∀ j, (k ≤ j < k + n)%nat → poll_done poll clock start timeout j = false) →
  poll_done poll clock start timeout (k + n)%nat = true → (n < fuel)%nat →
  wait_loop poll clock fuel start timeout msg k =
  Some (match poll (k + n)%nat with
    | Ok false => Raise (ConditionTimeoutError msg) | r => r end).
Proof.
  induction n as [|n IH]; intros fuel k Hbefore Hend Hf;
    (destruct fuel as [|fuel]; [lia|]); cbn [wait_loop].
  - rewrite Nat.add_0_r in *. unfold poll_done in Hend.
    destruct (poll k) as [[]|]; [done| |done]. by rewrite Hend.
  - pose proof (Hbefore k ltac:(lia)) as Hk. unfold poll_done in Hk.
    destruct (poll k) as [[]|]; [done| |done]. rewrite Hk.
    replace (k + S n)%nat with (S k + n)%nat in * by lia.
    apply IH; [intros; apply Hbefore; lia|done|lia].
Qed.

Lemma first_done (f : nat → bool) n :
  f n = true → ∃ m, (m ≤ n)%nat ∧ f m = true ∧ ∀ j, (j < m)%nat → f j = false.
Proof.
  intros Hn.
  assert (Hall : ∀ k, (∃ m, (m < k)%nat ∧ f m = true ∧ ∀ j, (j < m)%nat → f j = false)
    ∨ ∀ j, (j < k)%nat → f j = false).
  { induction k as [|k [(m & Hm & ?)|IH]]; [right; lia|left; exists m; split; [lia|done]|].
    destruct (f k) eqn:E; [left; exists k; split_and!; [lia|done|done]|].
    right. intros j Hj. destruct (decide (j = k)) as [->|]; [done|]. apply IH. lia. }
  destruct (Hall (S n)) as [(m & Hm & ?)|Hno]; [exists m; split; [lia|done]|].
  specialize (Hno n ltac:(lia)). congruence.
Qed.

Lemma clock_advances (clock : nat → Z) (start interval : Z) (k : nat) :
  (start ≤ clock 0%nat)%Z → (∀ j, clock j + interval ≤ clock (S j))%Z →
  (start + interval * Z.of_nat k ≤ clock k)%Z.
Proof. intros H0 Hs. induction k as [|k IH]; [lia|]. specialize (Hs k). lia. Qed.
End lemmas.

(** ** Properties *)

(** The meaning of each part of a condition, for parts that do not raise. *)
Definition step_part_holds (ce : ConditionEvaluator) (c : Condition) : Prop :=
  ∀ step status, cond_step c = Some step → cond_status c = Some status →
    get_step_status ce step = Some SKIPPED
    ∨ ∃ st, get_step_status ce step = Some st ∧ status_of_name status = Some st.
Definition expression_part_holds (sev : eval_env → string → option pyval)
    (ce : ConditionEvaluator) (now : Z) (c : Condition) : Prop :=
  ∀ e, cond_expression c = Some e → eval_bool sev ce now e = Some true.
Definition resource_part_holds (ce : ConditionEvaluator) (c : Condition) : Prop :=
  ∀ rs, cond_resource_available c = Some rs →
    ∃ rm, ce_resource_manager ce = Some rm ∧ ∀ r, r ∈ rs → is_available rm r = true.

(** A condition whose status names a member of the enumeration. *)
Definition status_ok (c : Condition) : Prop :=
  ∀ n, cond_status c = Some n → is_Some (status_of_name n).

Section spec.
Context (sev : eval_env → string → option pyval).

Lemma check_step_spec ce step status :
  is_Some (status_of_name status) →
  ∃ b, check_step ce step status = Ok b ∧
  (b = true ↔ get_step_status ce step = Some SKIPPED
    ∨ ∃ st, get_step_status ce step = Some st ∧ status_of_name status = Some st).
Proof.
  intros [expected He]. unfold check_step. rewrite He.
  destruct (get_step_status ce step) as [st|]; [|eexists; split; [done|]; naive_solver].
  case_decide; subst; [eexists; split; [done|]; naive_solver|].
  eexists; split; [done|]. rewrite bool_decide_eq_true. naive_solver.
Qed.

Lemma check_resources_spec ce rs :
  check_resources ce rs = true ↔
  ∃ rm, ce_resource_manager ce = Some rm ∧ ∀ r, r ∈ rs → is_available rm r = true.
Proof.
  unfold check_resources. destruct (ce_resource_manager ce) as [rm|]; [|naive_solver].
  rewrite forallb_forall. setoid_rewrite <-list_elem_of_In. naive_solver.
Qed.

Lemma default_false (o : option bool) : default false o = true ↔ o = Some true.
Proof. destruct o as [[]|]; naive_solver. Qed.
End spec.

(** Meaning of a precondition: for a condition whose status is a member name,
    [evaluate] returns normally, and returns true exactly when every part that is
    present holds: the named step has the required status or was SKIPPED, the
    resolved expression evaluates to a true value (an evaluation error counts as
    false), and every listed resource is available. *)
Theorem evaluate_meaning (sev : eval_env → string → option pyval)
    (ce : ConditionEvaluator) (now : Z) (c : Condition) (Hc : status_ok c) :
  ∃ b, evaluate sev ce now c = Ok b ∧
  (b = true ↔ step_part_holds ce c ∧ expression_part_holds sev ce now c
              ∧ resource_part_holds ce c).
Proof.
  unfold evaluate, step_part_holds, expression_part_holds, resource_part_holds.
  destruct c as [st stat ex rs]; cbn in *.
  set (r2 := match ex with Some e => [default false (eval_bool sev ce now e)] | None => [] end).
  set (r3 := match rs with Some l => [check_resources ce l] | None => [] end).
  assert (H2 : forallb id r2 = true ↔
    ∀ e, ex = Some e → eval_bool sev ce now e = Some true).
  { subst r2. destruct ex; cbn; [|naive_solver]. rewrite andb_true_r, default_false.
    naive_solver. }
  assert (H3 : forallb id r3 = true ↔ ∀ l, rs = Some l →
    ∃ rm, ce_resource_manager ce = Some rm ∧ ∀ r, r ∈ l → is_available rm r = true).
  { subst r3. destruct rs; cbn; [|naive_solver].
    rewrite andb_true_r, check_resources_spec. naive_solver. }
  assert (Hres : ∀ r1 : list bool,
    match r1 ++ r2 ++ r3 with [] => Ok true | _ => Ok (forallb id (r1 ++ r2 ++ r3)) end
    = Ok (forallb id r1 && (forallb id r2 && forallb id r3))).
  { intros r1. rewrite <-!forallb_app. by destruct (r1 ++ r2 ++ r3). }
  assert (∃ r1, (match st, stat with
       | Some step, Some status => res_bind (check_step ce step status) (λ b, Ok [b])
       | _, _ => Ok [] end) = Ok r1 ∧
     (forallb id r1 = true ↔ ∀ step status, st = Some step → stat = Some status →
        get_step_status ce step = Some SKIPPED
        ∨ ∃ st', get_step_status ce step = Some st' ∧ status_of_name status = Some st'))
    as (r1 & -> & H1).
  { destruct st as [step|], stat as [status|]; try (eexists; split; [done|]; naive_solver).
    destruct (check_step_spec ce step status) as (b & -> & Hb); [by apply Hc|].
    eexists; split; [done|]. cbn. rewrite andb_true_r. naive_solver. }
  cbn [res_bind]. rewrite Hres. eexists; split; [done|].
  rewrite !andb_true_iff, H1, H2, H3. done.
Qed.

Lemma evaluate_meaning_witness :
  let ce := new_evaluator (<["s1" := ResultDict (Some (SVStatus SKIPPED)) None]> ∅)
              (Some (rm_init false)) None in
  let c := mkCondition (Some "s1") (Some "PASSED") None (Some ["DMM"]) in
  status_ok c ∧ evaluate (λ _ _, None) ce 0 c = Ok true.
Proof.
  assert (status_ok (mkCondition (Some "s1") (Some "PASSED") None (Some ["DMM"]))) as Hc.
  { intros n [= <-]. eexists. reflexivity. }
  split; [exact Hc|].
  destruct (evaluate_meaning (λ _ _, None)
    (new_evaluator (<["s1" := ResultDict (Some (SVStatus SKIPPED)) None]> ∅)
       (Some (rm_init false)) None) 0 _ Hc) as (b & Hb & Hiff).
  rewrite Hb. f_equal. apply Hiff. split_and!.
  - intros step status [= <-] [= <-]. left. reflexivity.
  - intros e [=].
  - intros rs [= <-]. exists (rm_init false). split; [reflexivity|].
    intros r ->%list_elem_of_singleton. reflexivity.
Defined.

(** Waiting terminates: when every sleep advances the clock by at least the
    poll interval, the loop of [wait_for_condition] (and of [wait_for_all] and
    [wait_for_any]) ends within [timeout / interval + 1] polls, with the outcome of
    the first poll that is true or raises if it comes no later than the deadline
    poll, and with ConditionTimeoutError otherwise. *)
Theorem wait_loop_terminates (poll : nat → res bool) (clock : nat → Z)
    (start timeout interval : Z) (msg : string) (fuel : nat)
    (Hinterval : (0 < interval)%Z)
    (Hstart : (start ≤ clock 0%nat)%Z)
    (Hsleep : ∀ k, (clock k + interval ≤ clock (S k))%Z)
    (Hfuel : (Z.to_nat (timeout / interval) + 1 < fuel)%nat) :
  ∃ n, (n ≤ Z.to_nat (timeout / interval) + 1)%nat
    ∧ (∀ j, (j < n)%nat → poll j = Ok false ∧ (clock j - start < timeout)%Z)
    ∧ wait_loop poll clock fuel start timeout msg 0 =
        Some (match poll n with Ok false => Raise (ConditionTimeoutError msg) | r => r end)
    ∧ (poll n = Ok false → (timeout ≤ clock n - start)%Z).
Proof.
  set (N := (Z.to_nat (timeout / interval) + 1)%nat).
  assert (poll_done poll clock start timeout N = true) as HN.
  { unfold poll_done. destruct (poll N) as [[]|]; try done. apply Z.leb_le.
    pose proof (clock_advances clock start interval N Hstart Hsleep).
    pose proof (Z.mul_succ_div_gt timeout interval Hinterval).
    assert (timeout / interval + 1 ≤ Z.of_nat N)%Z by (subst N; lia). nia. }
  destruct (first_done _ _ HN) as (n & Hn & Hdone & Hbefore).
  exists n. split_and!; [done| | |].
  - intros j Hj. specialize (Hbefore j Hj). unfold poll_done in Hbefore.
    destruct (poll j) as [[]|]; try done. split; [done|]. lia.
  - apply (wait_loop_result poll clock start timeout msg n fuel 0); [|done|lia].
    intros j Hj. apply Hbefore. lia.
  - intros Hp. unfold poll_done in Hdone. rewrite Hp in Hdone. lia.
Qed.

Lemma wait_loop_terminates_witness :
  wait_loop (λ k, Ok (bool_decide (k = 2%nat))) (λ k, Z.of_nat k) 9 0 5 "late" 0
  = Some (Ok true)
  ∧ ∃ n, wait_loop (λ _, Ok false) (λ k, Z.of_nat k) 9 0 5 "late" 0
         = Some (Raise (ConditionTimeoutError "late")) ∧ (n ≤ 6)%nat.
Proof.
  split; [reflexivity|].
  destruct (wait_loop_terminates (λ _, Ok false) (λ k, Z.of_nat k) 0 5 1 "late" 9)
    as (n & Hn & _ & Hw & _); [lia|lia|lia|vm_compute; lia|].
  exists n. split; [exact Hw|exact Hn].
Defined.
