(* ===== verification/StepRegistry.v ===== *)
(** * The step registry (scheduler/step_registry.py)

    Every method takes the registry's lock for its whole body, so that a method is
    one step; [update_status] publishes after releasing it. *)

From S2P Require Import Prelude PyDict PyStr Types VariableSpace ResourceManager ConditionEvaluator.

Record StepExecutionConfig : Type := mkConfig {
  max_retries : Z;
  retry_delay_ms : Z;
  repeat_on_measurement_fail : bool;
  repeat_limit : Z;
  force_repeat : bool;
  skip_if : option string;
  on_failure : string
}.

Definition VALID_ON_FAILURE : list string := ["abort"; "continue"; "skip"].

Definition default_config : StepExecutionConfig := mkConfig 0 0 false 0 false None "continue".

(** The constructor: [__post_init__] rejects an unknown [on_failure]. *)
Definition new_config (c : StepExecutionConfig) : res StepExecutionConfig :=
  if str_in (on_failure c) VALID_ON_FAILURE then Ok c
  else Raise (ValueError ("on_failure must be one of ('abort', 'continue', 'skip'), got "
                          +:+ repr_str (on_failure c))).

Record StepRegistry : Type := mkReg {
  sr_steps : pydict string StepStatus;
  sr_conditions : pydict string Condition;
  sr_configs : pydict string StepExecutionConfig;
  sr_retry_counts : pydict string Z;
  sr_repeat_counts : pydict string Z;
  sr_has_bus : bool
}.

Definition reg_init (has_bus : bool) : StepRegistry := mkReg ∅ ∅ ∅ ∅ ∅ has_bus.

Definition set_status_dict d (s : StepRegistry) := mkReg d (sr_conditions s) (sr_configs s)
  (sr_retry_counts s) (sr_repeat_counts s) (sr_has_bus s).
Definition set_retries d (s : StepRegistry) := mkReg (sr_steps s) (sr_conditions s)
  (sr_configs s) d (sr_repeat_counts s) (sr_has_bus s).
Definition set_repeats d (s : StepRegistry) := mkReg (sr_steps s) (sr_conditions s)
  (sr_configs s) (sr_retry_counts s) d (sr_has_bus s).

Definition not_registered (step_id : string) : exc :=
  KeyError ("Step '" +:+ step_id +:+ "' is not registered").

(** [if step_id not in self._steps: raise KeyError(...)] *)
Definition require {A} (step_id : string) (k : M StepRegistry A) : M StepRegistry A :=
  s <- get ;;
  if has_key step_id (sr_steps s) then k else raise (not_registered step_id).

Definition opt_set {V} (k : string) (o : option V) (d : pydict string V) : pydict string V :=
  match o with Some v => <[k := v]> d | None => d end.

Definition register (step_id : string) (condition : option Condition)
    (config : option StepExecutionConfig) : M StepRegistry unit :=
  if is_blank step_id then raise (ValueError "step_id cannot be empty")
  else
    s <- get ;;
    if has_key step_id (sr_steps s) then
      raise (ValueError ("Step '" +:+ step_id +:+ "' is already registered"))
    else put (mkReg (<[step_id := PENDING]> (sr_steps s))
                (opt_set step_id condition (sr_conditions s))
                (opt_set step_id config (sr_configs s))
                (<[step_id := 0%Z]> (sr_retry_counts s))
                (<[step_id := 0%Z]> (sr_repeat_counts s)) (sr_has_bus s)).

Definition update_status {B} `{EventSink B} (step_id : string) (status : StepStatus) :
    M (StepRegistry * B) unit := λ '(s, b),
  match sr_steps s !! step_id with
  | None => (Raise (not_registered step_id), (s, b))
  | Some old_status =>
      let s' := set_status_dict (<[step_id := status]> (sr_steps s)) s in
      (Ok tt, (s', notify (sr_has_bus s && bool_decide (old_status ≠ status))
                 STEP_STATUS_CHANGED
                 (StepStatusChangedData step_id (status_value old_status) (status_value status))
                 b))
  end.

Definition get_status (s : StepRegistry) (step_id : string) : res StepStatus :=
  match sr_steps s !! step_id with
  | Some st => Ok st | None => Raise (not_registered step_id)
  end.

(** The result table [get_ready_steps] gives each evaluator. *)
Definition status_results (s : StepRegistry) : pydict string step_result :=
  dict_map (λ st, ResultDict (Some (SVStatus st)) (Some ∅)) (sr_steps s).

Section ready.
Context (simple_eval : eval_env → string → option pyval).

(** Is one registered step ready? *)
Definition step_ready (s : StepRegistry) (vs : option VariableSpace)
    (rm : option ResourceManager) (now : Z) (step_id : string) (st : StepStatus) : res bool :=
  if decide (st = PENDING) then
    match sr_conditions s !! step_id with
    | None => Ok true
    | Some c => evaluate simple_eval (new_evaluator (status_results s) rm vs) now c
    end
  else Ok false.

(** [filter] with a predicate that may raise. *)
Fixpoint filter_res {A} (f : A → res bool) (l : list A) : res (list A) :=
  match l with
  | [] => Ok []
  | x :: l' => res_bind (f x) (λ b, res_bind (filter_res f l') (λ r,
    Ok (if b : bool then x :: r else r)))
  end.

Definition get_ready_steps (s : StepRegistry) (vs : option VariableSpace)
    (rm : option ResourceManager) (now : Z) : res (list string) :=
  res_bind (filter_res (λ kv, step_ready s vs rm now kv.1 kv.2) (items (sr_steps s)))
  (λ l, Ok l.*1).
End ready.

Definition unregister (step_id : string) : M StepRegistry bool :=
  s <- get ;;
  if has_key step_id (sr_steps s) then
    put (mkReg (delete step_id (sr_steps s)) (delete step_id (sr_conditions s))
           (delete step_id (sr_configs s)) (delete step_id (sr_retry_counts s))
           (delete step_id (sr_repeat_counts s)) (sr_has_bus s)) ;;; ret true
  else ret false.

Definition has_step (s : StepRegistry) (step_id : string) : bool := has_key step_id (sr_steps s).
Definition get_all_steps (s : StepRegistry) : pydict string StepStatus := sr_steps s.

Definition get_condition (step_id : string) : M StepRegistry (option Condition) :=
  require step_id (gets (λ s, sr_conditions s !! step_id)).
Definition get_config (step_id : string) : M StepRegistry StepExecutionConfig :=
  require step_id (gets (λ s, get_default step_id default_config (sr_configs s))).
Definition get_retry_count (step_id : string) : M StepRegistry Z :=
  require step_id (gets (λ s, get_default step_id 0%Z (sr_retry_counts s))).
Definition increment_retry_count (step_id : string) : M StepRegistry Z :=
  require step_id
    (modify (λ s, set_retries
       (<[step_id := (get_default step_id 0 (sr_retry_counts s) + 1)%Z]> (sr_retry_counts s)) s) ;;;
     gets (λ s, get_default step_id 0%Z (sr_retry_counts s))).
Definition reset_retry_count (step_id : string) : M StepRegistry unit :=
  require step_id (modify (λ s, set_retries (<[step_id := 0%Z]> (sr_retry_counts s)) s)).
Definition get_repeat_count (step_id : string) : M StepRegistry Z :=
  require step_id (gets (λ s, get_default step_id 0%Z (sr_repeat_counts s))).
Definition increment_repeat_count (step_id : string) : M StepRegistry Z :=
  require step_id
    (modify (λ s, set_repeats
       (<[step_id := (get_default step_id 0 (sr_repeat_counts s) + 1)%Z]> (sr_repeat_counts s)) s) ;;;
     gets (λ s, get_default step_id 0%Z (sr_repeat_counts s))).
Definition reset_repeat_count (step_id : string) : M StepRegistry unit :=
  require step_id (modify (λ s, set_repeats (<[step_id := 0%Z]> (sr_repeat_counts s)) s)).

Definition clear (s : StepRegistry) : StepRegistry := mkReg ∅ ∅ ∅ ∅ ∅ (sr_has_bus s).

(** ** The registry invariant

    The five dictionaries are well formed, conditions and configurations belong to
    registered steps, and exactly the registered steps have counters, which are
    never negative. *)
Definition counts_ok (steps : pydict string StepStatus) (d : pydict string Z) : Prop :=
  dict_wf d ∧ ∀ k, match d !! k with
                   | Some n => k ∈ keys steps ∧ (0 ≤ n)%Z
                   | None => k ∉ keys steps
                   end.
Definition reg_wf (s : StepRegistry) : Prop :=
  dict_wf (sr_steps s) ∧ dict_wf (sr_conditions s) ∧ dict_wf (sr_configs s)
  ∧ (∀ k, k ∈ keys (sr_conditions s) → k ∈ keys (sr_steps s))
  ∧ (∀ k, k ∈ keys (sr_configs s) → k ∈ keys (sr_steps s))
  ∧ counts_ok (sr_steps s) (sr_retry_counts s)
  ∧ counts_ok (sr_steps s) (sr_repeat_counts s).

(** Every operation that changes the registry, as data. *)
Inductive reg_op : Type :=
  | OpRegister (step_id : string) (c : option Condition) (cfg : option StepExecutionConfig)
  | OpUpdate (step_id : string) (st : StepStatus)
  | OpUnregister (step_id : string)
  | OpIncRetry (step_id : string) | OpResetRetry (step_id : string)
  | OpIncRepeat (step_id : string) | OpResetRepeat (step_id : string)
  | OpClear.

Definition reg_exec {B} `{EventSink B} (o : reg_op) (w : StepRegistry * B) : StepRegistry * B :=
  let '(s, b) := w in
  match o with
  | OpRegister i c cfg => ((register i c cfg s).2, b)
  | OpUpdate i st => (update_status i st w).2
  | OpUnregister i => ((unregister i s).2, b)
  | OpIncRetry i => ((increment_retry_count i s).2, b)
  | OpResetRetry i => ((reset_retry_count i s).2, b)
  | OpIncRepeat i => ((increment_repeat_count i s).2, b)
  | OpResetRepeat i => ((reset_repeat_count i s).2, b)
  | OpClear => (clear s, b)
  end.

Section lemmas.
Lemma elem_of_keys_insert {V} (d : pydict string V) k k' v :
  k ∈ keys (<[k' := v]> d) ↔ k = k' ∨ k ∈ keys d.
Proof.
  rewrite !elem_of_keys, dict_lookup_insert. case_decide; naive_solver.
Qed.
Lemma elem_of_keys_delete {V} (d : pydict string V) k k' :
  k ∈ keys (delete k' d) ↔ k ≠ k' ∧ k ∈ keys d.
Proof.
  rewrite !elem_of_keys, dict_lookup_delete. case_decide; subst; [|naive_solver].
  split; [by intros [? ?]|naive_solver].
Qed.

Lemma counts_ok_init steps d k st :
  counts_ok steps d → counts_ok (<[k := st]> steps) (<[k := 0%Z]> d).
Proof.
  intros [Hwf Hd]. split; [by apply dict_wf_insert|]. intros k'.
  rewrite dict_lookup_insert. specialize (Hd k').
  case_decide as E; subst; [split; [rewrite elem_of_keys_insert; by left|lia]|].
  case_match; rewrite elem_of_keys_insert; [split; [right; tauto|tauto]|].
  intros [->|?]; done.
Qed.
Lemma counts_ok_status steps d k st :
  k ∈ keys steps → counts_ok steps d → counts_ok (<[k := st]> steps) d.
Proof.
  intros Hk [Hwf Hd]. split; [done|]. intros k'. specialize (Hd k').
  case_match; rewrite elem_of_keys_insert; [tauto|]. intros [->|?]; done.
Qed.
Lemma counts_ok_set steps d k n :
  k ∈ keys steps → (0 ≤ n)%Z → counts_ok steps d → counts_ok steps (<[k := n]> d).
Proof.
  intros Hk Hn [Hwf Hd]. split; [by apply dict_wf_insert|]. intros k'.
  rewrite dict_lookup_insert. case_decide; subst; [done|apply Hd].
Qed.
Lemma counts_ok_delete steps d k :
  counts_ok steps d → counts_ok (delete k steps) (delete k d).
Proof.
  intros [Hwf Hd]. split; [by apply dict_wf_delete|]. intros k'.
  rewrite dict_lookup_delete. specialize (Hd k').
  case_decide; subst; [rewrite elem_of_keys_delete; naive_solver|].
  case_match; rewrite elem_of_keys_delete; naive_solver.
Qed.
Lemma counts_ok_get steps d k : counts_ok steps d → (0 ≤ get_default k 0 d)%Z.
Proof.
  intros [_ Hd]. specialize (Hd k). unfold get_default. case_match; cbn; [tauto|lia].
Qed.

Lemma keys_opt_set {V} k (o : option V) d k' :
  k' ∈ keys (opt_set k o d) → k' = k ∨ k' ∈ keys d.
Proof. destruct o; cbn; [by rewrite elem_of_keys_insert|auto]. Qed.
Lemma dict_wf_opt_set {V} k (o : option V) d : dict_wf d → dict_wf (opt_set k o d).
Proof. destruct o; cbn; auto with ate. Qed.

Lemma require_ok {A} step_id (k : M StepRegistry A) s :
  step_id ∈ keys (sr_steps s) → require step_id k s = k s.
Proof.
  intros Hk%has_key_spec. unfold require, bind, get. by rewrite Hk.
Qed.
Lemma require_raise {A} step_id (k : M StepRegistry A) s :
  step_id ∉ keys (sr_steps s) → require step_id k s = (Raise (not_registered step_id), s).
Proof.
  intros Hk. unfold require, bind, get.
  destruct (has_key step_id (sr_steps s)) eqn:E; [by apply has_key_spec in E|done].
Qed.

Lemma reg_wf_set_retries s k n :
  k ∈ keys (sr_steps s) → (0 ≤ n)%Z → reg_wf s →
  reg_wf (set_retries (<[k := n]> (sr_retry_counts s)) s).
Proof. unfold reg_wf; cbn. intros ??. intuition auto using counts_ok_set. Qed.
Lemma reg_wf_set_repeats s k n :
  k ∈ keys (sr_steps s) → (0 ≤ n)%Z → reg_wf s →
  reg_wf (set_repeats (<[k := n]> (sr_repeat_counts s)) s).
Proof. unfold reg_wf; cbn. intros ??. intuition auto using counts_ok_set. Qed.
Lemma reg_wf_set_status s k st :
  k ∈ keys (sr_steps s) → reg_wf s →
  reg_wf (set_status_dict (<[k := st]> (sr_steps s)) s).
Proof.
  unfold reg_wf; cbn. setoid_rewrite elem_of_keys_insert.
  intuition auto using counts_ok_status, dict_wf_insert.
Qed.

Lemma register_wf i c cfg s : reg_wf s → reg_wf (register i c cfg s).2.
Proof.
  unfold register, bind, get, put. intros Hwf.
  destruct (is_blank i); [done|].
  destruct (has_key i (sr_steps s)) eqn:E; [done|].
  unfold reg_wf in *; cbn. setoid_rewrite elem_of_keys_insert.
  destruct Hwf as (H1 & H2 & H3 & H4 & H5 & H6 & H7).
  split_and!; auto using dict_wf_insert, dict_wf_opt_set, counts_ok_init;
    intros k Hk%keys_opt_set; destruct Hk; auto.
Qed.

Lemma unregister_wf i s : reg_wf s → reg_wf (unregister i s).2.
Proof.
  unfold unregister, bind, get, put. intros Hwf.
  destruct (has_key i (sr_steps s)); [|done].
  unfold reg_wf in *; cbn. setoid_rewrite elem_of_keys_delete.
  destruct Hwf as (H1 & H2 & H3 & H4 & H5 & H6 & H7).
  split_and!; auto using dict_wf_delete, counts_ok_delete; naive_solver.
Qed.

Lemma require_wf {A} i (k : M StepRegistry A) s :
  reg_wf s → (i ∈ keys (sr_steps s) → reg_wf (k s).2) → reg_wf (require i k s).2.
Proof.
  intros Hwf Hk. destruct (decide (i ∈ keys (sr_steps s))).
  - rewrite require_ok by done. auto.
  - by rewrite require_raise by done.
Qed.

Lemma reg_exec_wf {B} `{EventSink B} o (w : StepRegistry * B) :
  reg_wf w.1 → reg_wf (reg_exec o w).1.
Proof.
  destruct w as [s b]. cbn [fst]. intros Hwf. destruct o; cbn [reg_exec fst snd].
  - by apply register_wf.
  - unfold update_status. destruct (sr_steps s !! step_id) eqn:E; [|done]. cbn.
    apply reg_wf_set_status; [|done]. apply elem_of_keys. eauto.
  - by apply unregister_wf.
  - apply require_wf; [done|]. intros Hi. apply reg_wf_set_retries; [done| |done].
    destruct Hwf as (_ & _ & _ & _ & _ & Hc & _). pose proof (counts_ok_get _ _ step_id Hc). lia.
  - apply require_wf; [done|]. intros Hi. by apply reg_wf_set_retries.
  - apply require_wf; [done|]. intros Hi. apply reg_wf_set_repeats; [done| |done].
    destruct Hwf as (_ & _ & _ & _ & _ & _ & Hc). pose proof (counts_ok_get _ _ step_id Hc). lia.
  - apply require_wf; [done|]. intros Hi. by apply reg_wf_set_repeats.
  - unfold reg_wf, clear; cbn. split_and!; auto with ate; try set_solver;
      (split; [auto with ate|]; intros k; cbn; set_solver).
Qed.

Lemma reg_wf_init has_bus : reg_wf (reg_init has_bus).
Proof.
  unfold reg_wf, reg_init; cbn. split_and!; auto with ate; try set_solver;
    (split; [auto with ate|]; intros k; cbn; set_solver).
Qed.

Lemma reg_run_wf {B} `{EventSink B} ops (w : StepRegistry * B) :
  reg_wf w.1 → reg_wf (foldl (λ w o, reg_exec o w) w ops).1.
Proof. revert w. induction ops as [|o ops IH]; cbn; eauto using reg_exec_wf. Qed.

Lemma filter_res_spec {A} (f : A → res bool) (g : A → bool) l :
  (∀ x, x ∈ l → f x = Ok (g x)) → filter_res f l = Ok (base.filter (λ x, g x = true) l).
Proof.
  induction l as [|x l IH]; intros Hf; [done|]. cbn [filter_res].
  rewrite Hf by left. cbn [res_bind]. rewrite IH by (intros; apply Hf; by right).
  cbn [res_bind]. rewrite filter_cons. destruct (g x); done.
Qed.
End lemmas.

(** ** Properties *)

(** C36. Registry invariant: after every sequence of operations on a fresh registry
    (registrations with valid or invalid names, status updates, counter updates and
    removals of registered or unknown steps), step names are unique, conditions and
    configurations belong to registered steps, and exactly the registered steps have
    retry and repeat counters, none of them negative. *)
Theorem registry_invariant {B} `{EventSink B} (has_bus : bool) (b : B) (ops : list reg_op) :
  reg_wf (foldl (λ w o, reg_exec o w) (reg_init has_bus, b) ops).1.
Proof. apply reg_run_wf, reg_wf_init. Qed.

(** [update_status] on every branch: an unknown step raises KeyError and
    nothing changes; a registered one gets the status and every other step keeps
    its own; one STEP_STATUS_CHANGED event with the old and new values is handed to
    a configured bus if and only if the status really changes. *)
Theorem update_status_contract {B} `{EventSink B} (i : string) (st : StepStatus)
    (s : StepRegistry) (b : B) :
  let '(x, (s', b')) := update_status i st (s, b) in
  match sr_steps s !! i with
  | None => x = Raise (not_registered i) ∧ s' = s ∧ b' = b
  | Some old =>
      x = Ok tt ∧ get_status s' i = Ok st
      ∧ (∀ j, j ≠ i → get_status s' j = get_status s j)
      ∧ keys (sr_steps s') = keys (sr_steps s)
      ∧ sink_events b' ≡ₚ
          (if sr_has_bus s && bool_decide (old ≠ st)
           then [(STEP_STATUS_CHANGED,
                  StepStatusChangedData i (status_value old) (status_value st))]
           else []) ++ sink_events b
  end.
Proof.
  unfold update_status. destruct (sr_steps s !! i) as [old|] eqn:E; [|done].
  unfold get_status; cbn. split_and!; [done| | | |].
  - by rewrite dict_lookup_insert_eq.
  - intros j Hj. by rewrite dict_lookup_insert_ne.
  - by rewrite keys_insert_Some by eauto.
  - unfold notify. case_match; [apply publish_sync_accepts|done].
Qed.

(** The meaning of "ready", without exceptions. *)
Definition ready_now (sev : eval_env → string → option pyval) (s : StepRegistry)
    (vs : option VariableSpace) (rm : option ResourceManager) (now : Z) (i : string) : Prop :=
  sr_steps s !! i = Some PENDING ∧
  ∀ c, sr_conditions s !! i = Some c →
    let ce := new_evaluator (status_results s) rm vs in
    step_part_holds ce c ∧ expression_part_holds sev ce now c ∧ resource_part_holds ce c.

(** [get_ready_steps] is exact: in a well-formed registry whose conditions name
    member statuses, it returns normally the PENDING steps whose condition is absent
    or holds (dependencies met or SKIPPED, expression true, resources available),
    all of them, each once, in registration order. *)
Theorem get_ready_steps_exact (sev : eval_env → string → option pyval) (s : StepRegistry)
    (vs : option VariableSpace) (rm : option ResourceManager) (now : Z)
    (Hwf : reg_wf s) (Hconds : ∀ i c, sr_conditions s !! i = Some c → status_ok c) :
  ∃ l, get_ready_steps sev s vs rm now = Ok l
    ∧ l `sublist_of` keys (sr_steps s) ∧ NoDup l
    ∧ ∀ i, i ∈ l ↔ ready_now sev s vs rm now i.
Proof.
  destruct Hwf as (Hsteps & _).
  set (f := λ kv : string * StepStatus, step_ready sev s vs rm now kv.1 kv.2).
  set (g := λ kv, match f kv with Ok b => b | Raise _ => false end).
  assert (Hf : ∀ kv, kv ∈ items (sr_steps s) → f kv = Ok (g kv)).
  { intros [i st] _. subst g f; cbn. unfold step_ready. case_decide; [|done].
    destruct (sr_conditions s !! i) as [c|] eqn:Ec; [|done].
    destruct (evaluate_meaning sev (new_evaluator (status_results s) rm vs) now c) as (b & -> & _);
      eauto. }
  unfold get_ready_steps. fold f. rewrite (filter_res_spec f g _ Hf). cbn [res_bind].
  eexists; split; [done|]. split_and!.
  - apply fmap_sublist, sublist_filter.
  - eapply sublist_NoDup; [exact Hsteps|]. apply fmap_sublist, sublist_filter.
  - intros i. rewrite list_elem_of_fmap. unfold ready_now. split.
    + intros ([i' st] & -> & [Hg Hin]%list_elem_of_filter). cbn.
      apply elem_of_items in Hin as Hl; [|done]. subst g f; cbn in Hg.
      unfold step_ready in Hg. case_decide; subst; [|done]. split; [done|].
      intros c Hc. rewrite Hc in Hg.
      destruct (evaluate_meaning sev (new_evaluator (status_results s) rm vs) now c)
        as (b & Hb & Hiff); [by eapply Hconds|]. rewrite Hb in Hg. by apply Hiff.
    + intros [Hl Hc]. exists (i, PENDING). split; [done|]. apply list_elem_of_filter.
      split; [|by apply elem_of_items]. subst g f; cbn. unfold step_ready.
      rewrite decide_True by done. destruct (sr_conditions s !! i) as [c|] eqn:Ec; [|done].
      destruct (evaluate_meaning sev (new_evaluator (status_results s) rm vs) now c)
        as (b & -> & Hiff); [by eapply Hconds|]. by apply Hiff, Hc.
Qed.

(** Two steps, the second waiting for the first to pass. *)
Definition two_steps : StepRegistry :=
  (foldl (λ w o, reg_exec o w) (reg_init false, ([] : list (EventType * EventData)))
    [OpRegister "a" None None;
     OpRegister "b" (Some (mkCondition (Some "a") (Some "PASSED") None None)) None;
     OpUpdate "a" SKIPPED]).1.

Lemma get_ready_steps_exact_witness :
  reg_wf two_steps ∧ "b" ∈ (match get_ready_steps (λ _ _, None) two_steps None None 0 with
                            | Ok l => l | Raise _ => [] end).
Proof.
  assert (reg_wf two_steps) as Hwf.
  { apply reg_run_wf, reg_wf_init. }
  split; [exact Hwf|].
  destruct (get_ready_steps_exact (λ _ _, None) two_steps None None 0 Hwf)
    as (l & -> & _ & _ & Hl).
  { intros i c.
    change (sr_conditions two_steps)
      with (<["b" := mkCondition (Some "a") (Some "PASSED") None None]>
              (∅ : pydict string Condition)).
    rewrite dict_lookup_insert, dict_lookup_empty. case_decide; [|done].
    intros [= <-] n [= <-]. eexists. reflexivity. }
  apply Hl. split; [reflexivity|]. intros c [= <-]. split_and!.
  - intros step status [= <-] [= <-]. left. reflexivity.
  - intros e [=].
  - intros rs [=].
Defined.
