(* ===== verification/CircuitBreaker.v ===== *)
(** * The circuit breaker (common/circuit_breaker.py)

    The three-state machine, its two locked sections ([__aenter__], [__aexit__]),
    [call] and [reset]. Inside the asyncio lock nothing waits, so a locked section is
    one step; between the two sections of a call other callers run. Times are
    readings of the monotonic clock in ticks. *)

From S2P Require Import Prelude.

Inductive CircuitState : Type := CLOSED | OPEN | HALF_OPEN.

#[export] Instance CircuitState_eq_dec : EqDecision CircuitState.
Proof. solve_decision. Defined.

Record CircuitBreaker : Type := mkBreaker {
  cb_threshold : Z;
  cb_timeout : Z;
  cb_name : string;
  cb_state : CircuitState;
  cb_failures : Z;
  cb_last_failure : Z
}.

(** [__init__]; [default_name] is the name made of the object's identity. *)
Definition new_breaker (default_name : string) (failure_threshold timeout : Z)
    (name : string) : res CircuitBreaker :=
  if (failure_threshold <? 1)%Z then
    Raise (ValueError ("failure_threshold must be >= 1, got " +:+ pretty failure_threshold))
  else if (timeout <=? 0)%Z then
    Raise (ValueError ("timeout must be > 0, got " +:+ pretty timeout))
  else
    Ok (mkBreaker failure_threshold timeout
          (if decide (name = "") then default_name else name) CLOSED 0 0).

Definition transition_to (new_state : CircuitState) (cb : CircuitBreaker) : CircuitBreaker :=
  mkBreaker (cb_threshold cb) (cb_timeout cb) (cb_name cb) new_state (cb_failures cb)
    (cb_last_failure cb).
Definition set_failures (n : Z) (cb : CircuitBreaker) : CircuitBreaker :=
  mkBreaker (cb_threshold cb) (cb_timeout cb) (cb_name cb) (cb_state cb) n
    (cb_last_failure cb).
Definition set_last_failure (t : Z) (cb : CircuitBreaker) : CircuitBreaker :=
  mkBreaker (cb_threshold cb) (cb_timeout cb) (cb_name cb) (cb_state cb) (cb_failures cb) t.

Definition on_success (cb : CircuitBreaker) : CircuitBreaker :=
  let cb1 := set_failures 0 cb in
  if decide (cb_state cb1 = HALF_OPEN) then transition_to CLOSED cb1 else cb1.

Definition on_failure (now : Z) (cb : CircuitBreaker) : CircuitBreaker :=
  let cb1 := set_last_failure now (set_failures (cb_failures cb + 1) cb) in
  match cb_state cb1 with
  | CLOSED =>
      if (cb_threshold cb1 <=? cb_failures cb1)%Z then transition_to OPEN cb1 else cb1
  | HALF_OPEN => transition_to OPEN cb1
  | OPEN => cb1
  end.

(** [reset] *)
Definition breaker_reset (cb : CircuitBreaker) : CircuitBreaker :=
  let cb1 := set_failures 0 cb in
  if decide (cb_state cb1 = CLOSED) then cb1 else transition_to CLOSED cb1.

Section breaker.
(** [f"{x:.1f}"] *)
Variable fmt1 : Z → string.

Definition open_error (now : Z) (cb : CircuitBreaker) : exc :=
  CircuitBreakerOpenError ("Circuit breaker '" +:+ cb_name cb +:+ "' is OPEN. Try again in "
    +:+ fmt1 (cb_timeout cb - (now - cb_last_failure cb)) +:+ "s.").

Definition before_call (now : Z) : M CircuitBreaker unit :=
  cb <- get ;;
  if decide (cb_state cb = OPEN) then
    if (cb_timeout cb <=? now - cb_last_failure cb)%Z then modify (transition_to HALF_OPEN)
    else raise (open_error now cb)
  else ret tt.

Definition aenter : Z → M CircuitBreaker unit := before_call.

(** [__aexit__] never swallows the exception. *)
Definition aexit (failed : bool) (now : Z) : M CircuitBreaker bool :=
  modify (if failed then on_failure now else on_success) ;;; ret false.

(** ** A protected call

    The breaker, the clock, and the world the protected function works on. The
    function may take time and, with other callers, use the breaker itself. *)
Section call.
Context {W A : Type}.

Record Site : Type := mkSite { site_breaker : CircuitBreaker; site_clock : Z; site_world : W }.
Definition set_breaker cb (s : Site) : Site := mkSite cb (site_clock s) (site_world s).

(** [async with self: result = await fn()] *)
Definition call (fn : M Site A) : M Site A :=
  s <- get ;;
  zoom site_breaker set_breaker (aenter (site_clock s)) ;;;
  λ s1,
  let '(r, s2) := fn s1 in
  let s3 := (zoom site_breaker set_breaker
    (aexit (negb (is_ok r)) (site_clock s2)) s2).2 in
  (r, s3).
End call.
Arguments Site : clear implicits.

(** ** All interleavings

    Callers are numbered; [in_flight] holds those between the two locked sections. The
    trace records, newest first, what each step did to the breaker. *)
Inductive mark : Type := Entered (i : nat) | Rejected (i : nat) | Succeeded (i : nat)
                       | Failed (i : nat) | WasReset.

Record Runs : Type := mkRuns {
  rn_breaker : CircuitBreaker; rn_clock : Z; rn_flight : gset nat; rn_trace : list mark
}.

Inductive breaker_step : Runs → Runs → Prop :=
  | step_tick cb t t' fl tr :
    (t ≤ t')%Z →
    breaker_step (mkRuns cb t fl tr) (mkRuns cb t' fl tr)
  | step_enter cb cb' t fl tr i :
    i ∉ fl → aenter t cb = (Ok tt, cb') →
    breaker_step (mkRuns cb t fl tr) (mkRuns cb' t ({[ i ]} ∪ fl) (Entered i :: tr))
  | step_reject cb cb' t fl tr i e :
    i ∉ fl → aenter t cb = (Raise e, cb') →
    breaker_step (mkRuns cb t fl tr) (mkRuns cb' t fl (Rejected i :: tr))
  | step_exit cb t fl tr i (failed : bool) :
    i ∈ fl →
    breaker_step (mkRuns cb t fl tr)
    (mkRuns (aexit failed t cb).2 t (fl ∖ {[ i ]})
    ((if failed then Failed i else Succeeded i) :: tr))
  | step_reset cb t fl tr :
    breaker_step (mkRuns cb t fl tr) (mkRuns (breaker_reset cb) t fl (WasReset :: tr)).

(** The calls that failed since the last success or reset. *)
Fixpoint failed_in_a_row (tr : list mark) : Z :=
  match tr with
  | [] => 0
  | Failed _ :: tr' => failed_in_a_row tr' + 1
  | (Succeeded _ | WasReset) :: _ => 0
  | (Entered _ | Rejected _) :: tr' => failed_in_a_row tr'
  end.

(** What holds of a breaker, given what happened to it. *)
Record breaker_ok (threshold timeout : Z) (s : Runs) : Prop := {
  ok_threshold : cb_threshold (rn_breaker s) = threshold;
  ok_timeout : cb_timeout (rn_breaker s) = timeout;
  ok_failures : cb_failures (rn_breaker s) = failed_in_a_row (rn_trace s);
  ok_closed : cb_state (rn_breaker s) = CLOSED → (failed_in_a_row (rn_trace s) < threshold)%Z;
  ok_tripped : cb_state (rn_breaker s) ≠ CLOSED →
  ∃ later before, rn_trace s = later ++ before
    ∧ (threshold ≤ failed_in_a_row before)%Z ∧ WasReset ∉ later;
  ok_half_open : cb_state (rn_breaker s) = HALF_OPEN →
  (timeout ≤ rn_clock s - cb_last_failure (rn_breaker s))%Z;
  ok_clock : (cb_last_failure (rn_breaker s) ≤ rn_clock s)%Z
}.

Lemma tripped_more threshold (tr : list mark) (m : mark) :
  m ≠ WasReset → (∃ later before, tr = later ++ before
    ∧ (threshold ≤ failed_in_a_row before)%Z ∧ WasReset ∉ later) →
  ∃ later before, m :: tr = later ++ before
  ∧ (threshold ≤ failed_in_a_row before)%Z ∧ WasReset ∉ later.
Proof.
  intros Hm (later & before & -> & Hb & Hl). exists (m :: later), before.
  split_and!; [done..|]. by rewrite not_elem_of_cons.
Qed.

Lemma tripped_now threshold (tr : list mark) :
  (threshold ≤ failed_in_a_row tr)%Z →
  ∃ later before, tr = later ++ before
  ∧ (threshold ≤ failed_in_a_row before)%Z ∧ WasReset ∉ later.
Proof. intros Hb. exists [], tr. split_and!; [done..|]. apply not_elem_of_nil. Qed.

Lemma before_call_spec now cb :
  before_call now cb =
  if decide (cb_state cb = OPEN) then
  if (cb_timeout cb <=? now - cb_last_failure cb)%Z
    then (Ok tt, transition_to HALF_OPEN cb) else (Raise (open_error now cb), cb)
    else (Ok tt, cb).
Proof. unfold before_call. rewrite bind_get. by repeat case_match. Qed.

Lemma breaker_step_ok threshold timeout s s' :
  (1 ≤ threshold)%Z → breaker_step s s' → breaker_ok threshold timeout s →
  breaker_ok threshold timeout s'.
Proof.
  intros Hth Hs [H1 H2 H3 H4 H5 H6 H7].
  destruct Hs as [cb t t' fl tr Ht|cb cb' t fl tr i Hi He|cb cb' t fl tr i e Hi He
    |cb t fl tr i failed Hi|cb t fl tr]; simpl in *.
  - split; simpl; auto; [|lia]. intros Hh. specialize (H6 Hh). lia.
  - unfold aenter in He. rewrite before_call_spec in He.
    repeat case_match; simplify_eq; split; simpl; auto using tripped_more; try done.
    + intros _. by apply tripped_more, H5; congruence.
    + intros _. by apply Z.leb_le.
  - unfold aenter in He. rewrite before_call_spec in He.
    repeat case_match; simplify_eq; split; simpl; auto using tripped_more.
  - destruct cb as [th to nm st n lf]; simpl in *; subst.
    destruct failed, st; cbn; repeat case_match; split; simpl; auto; try done; try lia;
      try (intros _; first [apply tripped_now; simpl; lia | apply tripped_more; [done|auto]]).
    all: intros; first [lia | by apply tripped_more; auto].
  - unfold breaker_reset. repeat case_match; split; simpl in *; auto; try done; lia.
Qed.

(** An attempt of caller [i] to enter: the step that puts its mark on the trace. *)
Definition attempt (i : nat) (s s' : Runs) : Prop :=
  breaker_step s s' ∧ (rn_trace s' = Entered i :: rn_trace s ∨ rn_trace s' = Rejected i :: rn_trace s).

Lemma cons_not_self {A} (x : A) l : x :: l ≠ l.
Proof. intros Hl. apply (f_equal length) in Hl. simpl in Hl. lia. Qed.

(** It has one end, which the locked section decides. *)
Lemma attempt_spec i s s' :
  i ∉ rn_flight s →
  attempt i s s' ↔
  s' = match aenter (rn_clock s) (rn_breaker s) with
       | (Ok _, cb') => mkRuns cb' (rn_clock s) ({[ i ]} ∪ rn_flight s) (Entered i :: rn_trace s)
       | (Raise _, cb') => mkRuns cb' (rn_clock s) (rn_flight s) (Rejected i :: rn_trace s)
       end.
Proof.
  intros Hi. split.
  - intros [Hs Ht]. destruct Hs as [cb t t' fl tr Hle|cb cb' t fl tr k Hk He|cb cb' t fl tr k e Hk He
      |cb t fl tr k failed Hk|cb t fl tr]; cbn in *.
    + exfalso. by destruct Ht as [Ht|Ht]; symmetry in Ht; apply cons_not_self in Ht.
    + destruct Ht as [[= ->]|[=]]. by rewrite He.
    + destruct Ht as [[=]|[= ->]]. by rewrite He.
    + by destruct failed, Ht.
    + by destruct Ht.
  - intros ->. destruct s as [b t fl tr]. cbn [rn_breaker rn_clock rn_flight rn_trace] in *.
    destruct (aenter t b) as [[[]|e] cb'] eqn:He.
    + split; [by apply step_enter|by left].
    + split; [by eapply step_reject|by right].
Qed.

Lemma new_breaker_ok d threshold timeout name cb t0 :
  new_breaker d threshold timeout name = Ok cb → (0 ≤ t0)%Z →
  (1 ≤ threshold)%Z ∧ (0 < timeout)%Z ∧
  breaker_ok threshold timeout (mkRuns cb t0 ∅ []).
Proof.
  unfold new_breaker. intros Hn Ht. repeat case_match; simplify_eq; try lia;
    split_and!; try lia; split; simpl; try done; lia.
Qed.

(** A call is admitted unless the breaker is OPEN and its time-out has not passed. *)
Definition admits (cb : CircuitBreaker) (now : Z) : bool :=
  negb (bool_decide (cb_state cb = OPEN)) || (cb_timeout cb <=? now - cb_last_failure cb)%Z.

Lemma before_call_admits now cb :
  before_call now cb =
  if admits cb now then
  (Ok tt, if decide (cb_state cb = OPEN) then transition_to HALF_OPEN cb else cb)
    else (Raise (open_error now cb), cb).
Proof.
  rewrite before_call_spec. unfold admits.
  destruct (decide (cb_state cb = OPEN)) as [Ho|Ho].
  - rewrite bool_decide_true by done. simpl. by case_match.
  - by rewrite bool_decide_false.
Qed.

(** The whole of [call]. *)
Lemma call_spec {W A} (fn : M (Site W) A) (s : Site W) :
  call fn s =
  if admits (site_breaker s) (site_clock s) then
  let b := site_breaker s in
  let '(r, s') := fn (set_breaker (if decide (cb_state b = OPEN)
        then transition_to HALF_OPEN b else b) s) in
  (r, set_breaker (if is_ok r then on_success (site_breaker s')
        else on_failure (site_clock s') (site_breaker s')) s')
    else (Raise (open_error (site_clock s) (site_breaker s)), s).
Proof.
  unfold call. rewrite bind_get. unfold bind, zoom at 1, aenter.
  rewrite before_call_admits. destruct (admits _ _).
  - destruct (fn _) as [[a|e] s2]; done.
  - by destruct s.
Qed.

(** C30. The circuit breaker in every interleaving of its callers. Whatever calls
    enter, fail, succeed or are cancelled in between, and whenever it is reset: the
    failure counter is the number of failed calls since the last success or reset; a
    closed breaker has seen fewer than the threshold of them; a breaker that is not
    closed was tripped, that is at some moment since the last reset the threshold of
    consecutive failures had been reached; and it is HALF_OPEN only after the full
    time-out since the last failure. A new call to a closed breaker is let in and leaves it as it is;
    one to an open breaker is rejected, without a trace on the breaker, until the time-out has
    passed since the last failure, and after it is let in as a probe, which makes the breaker
    HALF_OPEN. (How many probes HALF_OPEN lets in is another matter: see
    [half_open_lets_two_in].) *)
Theorem circuit_breaker_safety d threshold timeout name cb t0 s i :
  new_breaker d threshold timeout name = Ok cb → (0 ≤ t0)%Z →
  rtc breaker_step (mkRuns cb t0 ∅ []) s → i ∉ rn_flight s →
  let b := rn_breaker s in
  let waited := (rn_clock s - cb_last_failure b)%Z in
  let entered b' := mkRuns b' (rn_clock s) ({[ i ]} ∪ rn_flight s) (Entered i :: rn_trace s) in
  breaker_ok threshold timeout s
  ∧ (cb_state b = CLOSED → ∀ s', attempt i s s' ↔ s' = entered b)
  ∧ (cb_state b = OPEN → (waited < timeout)%Z → ∀ s', attempt i s s' ↔
      s' = mkRuns b (rn_clock s) (rn_flight s) (Rejected i :: rn_trace s))
  ∧ (cb_state b = OPEN → (timeout ≤ waited)%Z → ∀ s', attempt i s s' ↔
      s' = entered (mkBreaker threshold timeout (cb_name b) HALF_OPEN (cb_failures b) (cb_last_failure b))).
Proof.
  intros Hn Ht Hs Hi. destruct (new_breaker_ok _ _ _ _ _ _ Hn Ht) as (Hth & _ & Hok). cbn zeta.
  assert (breaker_ok threshold timeout s) as Hok'.
  { clear Hi. induction Hs as [|x y z Hxy _ IH]; [done|]. by apply IH, (breaker_step_ok _ _ _ _ Hth Hxy). }
  split; [done|]. pose proof (ok_threshold _ _ _ Hok') as E1. pose proof (ok_timeout _ _ _ Hok') as E2.
  split_and!; intros Hst; [|intros Hw..]; intros s'; rewrite attempt_spec by done;
    unfold aenter; rewrite before_call_spec, Hst; cbn [decide]; rewrite ?E2.
  - by rewrite decide_False.
  - by rewrite decide_True, (proj2 (Z.leb_gt _ _)) by (done || lia).
  - rewrite decide_True, (proj2 (Z.leb_le _ _)) by (done || lia).
    unfold transition_to. by rewrite E1, E2.
Qed.

(** ** Calls one after another *)

Section attempts.
Context {W A : Type}.

Fixpoint attempts (n : nat) (fn : M (Site W) A) (s : Site W) : list (res A) * Site W :=
  match n with
  | O => ([], s)
  | S n' =>
      let '(r, s1) := call fn s in
      let '(l, s2) := attempts n' fn s1 in (r :: l, s2)
  end.

(** A function that takes [d] ticks, does [f] to the world and raises. *)
Definition failing (d : Z) (f : W → W) (e : exc) : M (Site W) A := λ s,
  (Raise e, mkSite (site_breaker s) (site_clock s + d) (f (site_world s))).

Definition later (d : Z) (s : Site W) : Site W :=
  mkSite (site_breaker s) (site_clock s + d) (site_world s).

Lemma attempts_closed k d f e cb t w :
  cb_state cb = CLOSED → (cb_failures cb + Z.of_nat k < cb_threshold cb)%Z →
  attempts k (failing d f e) (mkSite cb t w) =
  (replicate k (Raise e),
    mkSite (mkBreaker (cb_threshold cb) (cb_timeout cb) (cb_name cb) CLOSED
      (cb_failures cb + Z.of_nat k)
      (if decide (k = 0) then cb_last_failure cb else t + Z.of_nat k * d))
    (t + Z.of_nat k * d) (Nat.iter k f w)).
Proof.
  revert cb t w. induction k as [|k IH]; intros cb t w Hc Hk.
  { destruct cb; simpl in *; subst. repeat f_equal; lia. }
  simpl attempts. rewrite call_spec. unfold admits; simpl. rewrite Hc. simpl.
  unfold on_failure; simpl. rewrite Hc.
  rewrite (proj2 (Z.leb_gt _ _)) by lia. unfold set_breaker; simpl.
  rewrite IH; [|done|simpl; lia]. simpl.
  replace (t + d + Z.of_nat k * d)%Z with (t + Z.of_nat (S k) * d)%Z by lia.
  replace (cb_failures cb + 1 + Z.of_nat k)%Z with (cb_failures cb + Z.of_nat (S k))%Z by lia.
  rewrite <- Nat.iter_succ_r. repeat case_decide; subst; try done.
  by replace (t + d)%Z with (t + Z.of_nat 1 * d)%Z by lia.
Qed.

Lemma attempts_app a b fn s :
  attempts (a + b) fn s =
  ((attempts a fn s).1 ++ (attempts b fn (attempts a fn s).2).1,
    (attempts b fn (attempts a fn s).2).2).
Proof.
  revert s. induction a as [|a IH]; intros s; simpl; [by destruct (attempts b fn s)|].
  destruct (call fn s) as [r s1]. rewrite IH. by destruct (attempts a fn s1).
Qed.

Lemma attempts_trip m to nm d f e t w :
  let n := Z.of_nat (S m) in
  attempts (S m) (failing d f e) (mkSite (mkBreaker n to nm CLOSED 0 0) t w) =
  (replicate (S m) (Raise e),
    mkSite (mkBreaker n to nm OPEN n (t + n * d)) (t + n * d) (Nat.iter (S m) f w)).
Proof.
  intros n. replace (S m) with (m + 1) by lia. rewrite attempts_app.
  rewrite attempts_closed; [|done|simpl; lia]. cbn [fst snd attempts].
  rewrite call_spec. unfold admits. simpl.
  unfold on_failure. simpl. rewrite (proj2 (Z.leb_le _ _)) by lia.
  unfold set_breaker, transition_to. simpl.
  replace (t + Z.of_nat m * d + d)%Z with (t + n * d)%Z by lia.
  replace (0 + Z.of_nat m + 1)%Z with n by lia.
  by rewrite replicate_add, (Nat.add_comm m 1).
Qed.

(** Tripping and recovering. From a fresh breaker, calls of a function that keeps
    raising reach the function and see its exception; with fewer than [failure_threshold]
    of them the breaker stays closed, and the call number [failure_threshold] opens it.
    From then on, for [timeout] ticks after the last failure, every call is rejected with
    [CircuitBreakerOpenError] and the function is not run at all; the first call after
    that runs, and closes the breaker with a zero counter if it succeeds, or opens it
    again, from its own time on, if it raises. *)
Theorem circuit_trips_and_recovers dn threshold timeout name cb t d f e (w : W)
  (fn : M (Site W) A) δ :
  new_breaker dn threshold timeout name = Ok cb → (0 ≤ δ)%Z →
  let run k := attempts k (failing d f e) (mkSite cb t w) in
  let n := Z.to_nat threshold in
  let s := (run n).2 in
  (∀ k, k < n → (run k).1 = replicate k (Raise e)
    ∧ cb_state (site_breaker (run k).2) = CLOSED) ∧
  (run n).1 = replicate n (Raise e) ∧ site_world s = Nat.iter n f w ∧
  cb_state (site_breaker s) = OPEN ∧ cb_failures (site_breaker s) = threshold ∧
  ((δ < timeout)%Z → call fn (later δ s)
    = (Raise (open_error (site_clock s + δ) (site_breaker s)), later δ s)) ∧
  ((timeout ≤ δ)%Z → ∀ r s',
    let probing := set_breaker (transition_to HALF_OPEN (site_breaker s)) (later δ s) in
    fn probing = (r, s') → site_breaker s' = site_breaker probing →
    (call fn (later δ s)).1 = r ∧
    site_world (call fn (later δ s)).2 = site_world s' ∧
    let b := site_breaker (call fn (later δ s)).2 in
    if is_ok r then cb_state b = CLOSED ∧ cb_failures b = 0%Z
      else cb_state b = OPEN ∧ cb_last_failure b = site_clock s').
Proof.
  intros Hn Hd run n.
  unfold new_breaker in Hn. destruct (Z.ltb_spec threshold 1); [done|].
  destruct (Z.leb_spec timeout 0); [done|]. simplify_eq.
  assert (threshold = Z.of_nat (S (Nat.pred n))) as Hth by lia.
  pose proof (attempts_trip (Nat.pred n) timeout (if decide (name = "") then dn else name)
    d f e t w) as Hrun. cbv zeta in Hrun. rewrite <- Hth in Hrun.
  replace (S (Nat.pred n)) with n in Hrun by lia.
  fold (run n) in Hrun.
  rewrite Hrun. cbn [fst snd]. cbv zeta. split_and!; try done.
  - intros k Hk. unfold run. rewrite attempts_closed; [done|done|simpl; lia].
  - intros Hlt. rewrite call_spec. unfold admits. simpl.
    by rewrite (proj2 (Z.leb_gt _ _)) by lia.
  - intros Hge r s' Hfn Hb. rewrite call_spec. unfold admits. simpl.
    rewrite (proj2 (Z.leb_le _ _)) by lia. simpl.
    unfold set_breaker, later in *. simpl in *. rewrite Hfn.
    split_and!; [done..|]. simpl. rewrite Hb. by destruct r.
Qed.
End attempts.
End breaker.

(** ** Concrete runs *)

Definition fresh : CircuitBreaker := mkBreaker 2 10 "psu" CLOSED 0 0.
Definition probing : CircuitBreaker := mkBreaker 2 10 "psu" HALF_OPEN 2 5.

(** Callers 1 and 2 enter, fail, and trip the breaker; ten ticks later 3 and 4 enter. *)
Definition two_probes : Runs := mkRuns probing 15 {[ 3; 4 ]}
  [Entered 4; Entered 3; Failed 2; Failed 1; Entered 2; Entered 1].

Lemma two_probes_reached : rtc (breaker_step pretty) (mkRuns fresh 0 ∅ []) two_probes.
Proof.
  eapply rtc_l; [apply (step_enter _ _ fresh 0 ∅ _ 1); [set_solver|done]|].
  eapply rtc_l; [apply (step_enter _ _ fresh _ _ _ 2); [set_solver|done]|].
  eapply rtc_l; [apply (step_tick _ _ _ 5); lia|].
  eapply rtc_l; [apply (step_exit _ _ _ _ _ 1 true); set_solver|].
  eapply rtc_l; [apply (step_exit _ _ _ _ _ 2 true); set_solver|].
  eapply rtc_l; [apply (step_tick _ _ _ 15); lia|].
  eapply rtc_l; [apply (step_enter _ _ probing _ _ _ 3); [set_solver|done]|].
  eapply rtc_l; [apply (step_enter _ _ probing _ _ _ 4); [set_solver|done]|].
  simpl. unfold two_probes.
  replace ({[4]} ∪ ({[3]} ∪ ({[2]} ∪ ({[1]} ∪ ∅)) ∖ {[1]} ∖ {[2]})) with ({[3; 4]} : gset nat)
    by set_solver.
  apply rtc_refl.
Qed.

(** Tripped at 5, the breaker rejects a third call at 5 and lets it in at 15. *)
Definition tripped_at (t : Z) : Runs :=
  mkRuns (mkBreaker 2 10 "psu" OPEN 2 5) t ∅ [Failed 2; Failed 1; Entered 2; Entered 1].
Lemma tripped_reached t : (5 ≤ t)%Z → rtc (breaker_step pretty) (mkRuns fresh 0 ∅ []) (tripped_at t).
Proof.
  intros Ht.
  eapply rtc_l; [apply (step_enter _ _ fresh 0 ∅ _ 1); [set_solver|done]|].
  eapply rtc_l; [apply (step_enter _ _ fresh _ _ _ 2); [set_solver|done]|].
  eapply rtc_l; [apply (step_tick _ _ _ 5); lia|].
  eapply rtc_l; [apply (step_exit _ _ _ _ _ 1 true); set_solver|].
  eapply rtc_l; [apply (step_exit _ _ _ _ _ 2 true); set_solver|].
  eapply rtc_l; [apply (step_tick _ _ _ t); lia|].
  unfold tripped_at. replace (({[2]} ∪ ({[1]} ∪ ∅)) ∖ {[1]} ∖ {[2]}) with (∅ : gset nat) by set_solver.
  apply rtc_refl.
Qed.
Lemma circuit_breaker_safety_witness :
  (∀ s', attempt pretty 3 (tripped_at 5) s' ↔
     s' = mkRuns (mkBreaker 2 10 "psu" OPEN 2 5) 5 ∅ [Rejected 3; Failed 2; Failed 1; Entered 2; Entered 1])
  ∧ (∀ s', attempt pretty 3 (tripped_at 15) s' ↔
     s' = mkRuns (mkBreaker 2 10 "psu" HALF_OPEN 2 5) 15 ({[ 3 ]} ∪ ∅)
            [Entered 3; Failed 2; Failed 1; Entered 2; Entered 1]).
Proof.
  split.
  - apply (circuit_breaker_safety pretty "cb" 2 10 "psu" fresh 0 (tripped_at 5) 3);
      [reflexivity|lia|apply tripped_reached; lia|set_solver|reflexivity|cbn; lia].
  - apply (circuit_breaker_safety pretty "cb" 2 10 "psu" fresh 0 (tripped_at 15) 3);
      [reflexivity|lia|apply tripped_reached; lia|set_solver|reflexivity|cbn; lia].
Defined.

Lemma circuit_trips_and_recovers_witness :
  let s := (attempts pretty 2 (failing (A := Z) 1 S (ValueError "no reply"))
              (mkSite fresh 0 0)).2 in
  (call pretty (ret 7%Z) (later 10 s)).1 = Ok 7%Z.
Proof.
  apply (circuit_trips_and_recovers pretty "cb" 2 10 "psu" fresh 0 1 S
           (ValueError "no reply") 0 (ret 7%Z) 10) with (s' := mkSite
           (mkBreaker 2 10 "psu" HALF_OPEN 2 2) 12%Z 2); [done|lia..|done|done].
Defined.

(** A half-open breaker does not hold back a second caller while its probe runs: two
calls are under way at once. *)
Lemma half_open_lets_two_in :
  ∃ s, rtc (breaker_step pretty) (mkRuns fresh 0 ∅ []) s ∧
       cb_state (rn_breaker s) = HALF_OPEN ∧ {[ 3; 4 ]} ⊆ rn_flight s.
Proof. exists two_probes. split; [apply two_probes_reached|done]. Qed.
