(* ===== verification/EdgeBreakpoints.v ===== *)
(** * Edge breakpoints (scheduler/edge_breakpoints.py)

    Parsing of breakpoint definitions, the JSON-safe variable snapshot, and the
    engine that decides whether a step may be dispatched. [ast_nodes] stands for
    [ast.walk(ast.parse(s, mode="eval"))] (the class names of the nodes, [None] for a
    SyntaxError) and [simple_eval_names] for the third-party [simple_eval]. *)

From S2P Require Import Prelude PyDict PyStr Types VariableSpace.

Definition EDGE_BREAKPOINT_KINDS : list string :=
  ["step"; "instrument_call"; "variable_change"; "condition"].
Definition STEP_GATE_KINDS : list string := ["step"; "condition"].

Definition ALLOWED_CONDITION_NODES : list string :=
  ["Expression"; "BoolOp"; "And"; "Or"; "BinOp"; "Add"; "Sub"; "Mult"; "Div"; "FloorDiv";
   "Mod"; "UnaryOp"; "Not"; "USub"; "UAdd"; "Compare"; "Eq"; "NotEq"; "Lt"; "LtE"; "Gt";
   "GtE"; "In"; "NotIn"; "Name"; "Load"; "Constant"].

Record EdgeBreakpoint : Type := mkBp {
  bp_id : string;
  bp_kind : string;
  bp_target : string;
  bp_condition : option string;
  bp_enabled : bool
}.

#[export] Instance EdgeBreakpoint_eq_dec : EqDecision EdgeBreakpoint.
Proof. solve_decision. Defined.

Section parse.
Context (ast_nodes : string → option (list string)).

Definition condition_is_safe (expression : string) : bool :=
  match ast_nodes (py_strip expression) with
  | None => false
  | Some nodes => forallb (λ n, str_in n ALLOWED_CONDITION_NODES) nodes
  end.

(** [isinstance(v, str) and v.strip()] *)
Definition nonblank_str (v : pyval) : option string :=
  match v with
  | PyStr s => if decide (py_strip s = "") then None else Some s
  | _ => None
  end.

(** The condition of a definition: required, and safe, exactly for the kind
    "condition"; [None] rejects the definition. *)
Definition parse_condition (kind : string) (condition : pyval) : option (option string) :=
  if decide (kind = "condition") then
    s ← nonblank_str condition;
    if condition_is_safe s then Some (Some s) else None
  else if negb (is_none condition) && negb (bool_decide (py_strip (py_str condition) = ""))
  then None
  else Some None.

Definition parse_one (item : pyval) : option EdgeBreakpoint :=
  match item with
  | PyMap l =>
      id ← nonblank_str (map_get_default "id" PyNone l);
      match map_get_default "kind" PyNone l with
      | PyStr kind =>
          if negb (str_in kind EDGE_BREAKPOINT_KINDS) then None
          else
            target ← nonblank_str (map_get_default "target" PyNone l);
            match map_get_default "enabled" (PyBool true) l with
            | PyBool enabled =>
                cond ← parse_condition kind (map_get_default "condition" PyNone l);
                Some (mkBp id kind target cond enabled)
            | _ => None
            end
      | _ => None
      end
  | _ => None
  end.

(** The valid breakpoints in order, and the number of dropped definitions. *)
Definition parse_breakpoint_defs (raw : pyval) : list EdgeBreakpoint * nat :=
  match raw with
  | PyList l =>
      (omap parse_one l, length (base.filter (λ i, parse_one i = None) l))
  | _ => ([], 0)
  end.
End parse.

Fixpoint json_safe (v : pyval) : pyval :=
  match v with
  | PyMap l =>
      PyMap ((λ kv, (PyStr kv.1, kv.2))
               <$> items (dict_of_list (map (λ kv, (py_str kv.1, json_safe kv.2)) l)))
  | PyList l => PyList (map json_safe l)
  | PyObj s => PyStr s
  | _ => v
  end.

(** The payload of a breakpoint hit: the scopes, by name. *)
Definition build_variable_snapshot (vs : option VariableSpace) : list (string * pyval) :=
  match vs with
  | None => [("scope", PyMap []); ("steps", PyMap []); ("loop", PyMap [])]
  | Some vs =>
      let snapshot := vs_snapshot vs in
      let scope_of k := match state_get k snapshot with PyNone => PyMap [] | v => v end in
      [("scope", json_safe (scope_of "scope")); ("steps", json_safe (scope_of "steps"));
       ("loop", json_safe (scope_of "loop"))]
  end.

Record EdgeBreakpointEngine : Type := mkEngine {
  en_breakpoints : list EdgeBreakpoint;
  en_fired : gset string
}.

Definition new_engine (bps : list EdgeBreakpoint) : EdgeBreakpointEngine := mkEngine bps ∅.
Definition engine_replace (bps : list EdgeBreakpoint) (_ : EdgeBreakpointEngine) :
    EdgeBreakpointEngine := mkEngine bps ∅.

(** [_condition_names]: conditions see the sequence scope only. *)
Definition condition_names (variables : list (string * pyval)) : pydict string pyval :=
  match base.filter (λ kv, kv.1 = "scope") variables with
  | (_, PyMap l) :: _ => val_dict l
  | _ => ∅
  end.

Section engine.
Context (simple_eval_names : pydict string pyval → string → option pyval).

Definition evaluate_condition (expression : string) (names : pydict string pyval) : bool :=
  default false (py_bool <$> simple_eval_names names expression).

(** Does this breakpoint stop this step now? *)
Definition bp_hits (fired : gset string) (step_id : string) (names : pydict string pyval)
    (bp : EdgeBreakpoint) : bool :=
  if negb (bp_enabled bp) || bool_decide (bp_id bp ∈ fired) then false
  else if negb (str_in (bp_kind bp) STEP_GATE_KINDS) then false
  else if bool_decide (bp_kind bp = "step") && bool_decide (bp_target bp ≠ step_id) then false
  else if bool_decide (bp_kind bp = "condition")
          && negb (evaluate_condition (default "" (bp_condition bp)) names) then false
  else true.

Definition check_step_bp (step_id : string) (variables : list (string * pyval))
    (en : EdgeBreakpointEngine) : option EdgeBreakpoint * EdgeBreakpointEngine :=
  let names := condition_names variables in
  match base.filter (λ bp, bp_hits (en_fired en) step_id names bp = true)
          (en_breakpoints en) with
  | [] => (None, en)
  | bp :: _ => (Some bp, mkEngine (en_breakpoints en) ({[ bp_id bp ]} ∪ en_fired en))
  end.

(** A run of checks: the breakpoints that stopped a step, in order. *)
Fixpoint check_run (reqs : list (string * list (string * pyval))) (en : EdgeBreakpointEngine) :
    list EdgeBreakpoint * EdgeBreakpointEngine :=
  match reqs with
  | [] => ([], en)
  | (step_id, vars) :: reqs' =>
      let '(o, en') := check_step_bp step_id vars en in
      let '(hits, en'') := check_run reqs' en' in
      (match o with Some bp => bp :: hits | None => hits end, en'')
  end.

Lemma check_step_bp_spec step_id vars en o en' :
  check_step_bp step_id vars en = (o, en') →
  en_breakpoints en' = en_breakpoints en ∧
  match o with
  | None => en' = en
  | Some bp =>
    bp ∈ en_breakpoints en ∧ bp_enabled bp = true ∧ bp_id bp ∉ en_fired en
    ∧ ((bp_kind bp = "step" ∧ bp_target bp = step_id) ∨ bp_kind bp = "condition")
    ∧ en_fired en' = {[ bp_id bp ]} ∪ en_fired en
  end.
Proof.
  unfold check_step_bp. destruct (base.filter _ _) as [|bp l] eqn:E; intros [= <- <-]; [done|].
  cbn. split; [done|].
  assert (bp ∈ base.filter (λ bp, bp_hits (en_fired en) step_id (condition_names vars) bp = true)
    (en_breakpoints en)) as [Hh Hin]%list_elem_of_filter by (rewrite E; left).
  unfold bp_hits in Hh. destruct (bp_enabled bp) eqn:Een; [|done]. cbn in Hh.
  destruct (decide (bp_id bp ∈ en_fired en)) as [Hf|Hf].
  { by rewrite bool_decide_true in Hh. }
  rewrite bool_decide_false in Hh by done.
  destruct (str_in (bp_kind bp) STEP_GATE_KINDS) eqn:Ek; [|done]. cbn [negb] in Hh.
  apply bool_decide_eq_true in Ek. split_and!; [done..| |done].
  unfold STEP_GATE_KINDS in Ek.
  apply elem_of_cons in Ek as [Ek|Ek%list_elem_of_singleton]; [left|by right].
  rewrite bool_decide_true in Hh by done. cbn in Hh. case_bool_decide as Ht; [done|].
  done.
Qed.

Lemma check_run_fired reqs : ∀ en hits en',
  check_run reqs en = (hits, en') →
  en_breakpoints en' = en_breakpoints en
  ∧ NoDup (bp_id <$> hits)
  ∧ (∀ bp, bp ∈ hits → bp ∈ en_breakpoints en ∧ bp_enabled bp = true
                       ∧ bp_id bp ∉ en_fired en).
Proof.
  induction reqs as [|[sid vars] reqs IH]; intros en hits en'; cbn.
  { intros [= <- <-]. split_and!; [done|apply NoDup_nil_2|set_solver]. }
  destruct (check_step_bp sid vars en) as [o en1] eqn:E1.
  destruct (check_run reqs en1) as [h2 en2] eqn:E2. intros [= <- <-].
  apply check_step_bp_spec in E1 as [Hb1 H1].
  destruct (IH _ _ _ E2) as (Hb2 & Hnd & Hin). rewrite Hb1 in Hb2.
  destruct o as [bp|]; subst; [|by split_and!].
  destruct H1 as (Hbp & Hen & Hnf & _ & Hf). split_and!; [done| |].
  - csimpl. apply NoDup_cons. split; [|done].
    intros (bp' & Hid & [_ [_ Hn]]%Hin)%list_elem_of_fmap. rewrite Hf in Hn. set_solver.
  - intros bp' [->|Hb']%elem_of_cons; [done|].
    destruct (Hin bp' Hb') as (? & ? & Hn). rewrite Hb1 in *. rewrite Hf in Hn. set_solver.
Qed.
End engine.

(** ** Properties *)

(** A breakpoint stops a run at most once: over any sequence of dispatch gates
    (any steps, any variables, any behaviour of the expression evaluator), the
    breakpoints that fire have pairwise different ids, are enabled and come from the
    configured list, and the list itself never changes. *)
Theorem breakpoints_fire_once (sev : pydict string pyval → string → option pyval)
    (bps : list EdgeBreakpoint) (reqs : list (string * list (string * pyval))) :
  let '(hits, en) := check_run sev reqs (new_engine bps) in
  NoDup (bp_id <$> hits) ∧ (∀ bp, bp ∈ hits → bp ∈ bps ∧ bp_enabled bp = true)
  ∧ en_breakpoints en = bps.
Proof.
  destruct (check_run sev reqs (new_engine bps)) as [hits en] eqn:E.
  destruct (check_run_fired sev reqs _ _ _ E) as (Hb & Hnd & Hin).
  split_and!; [done|naive_solver|done].
Qed.

(** A definition that cannot harm: a known kind, non-blank names, and a condition
    exactly when the kind is "condition", made of whitelisted nodes only. *)
Definition bp_valid (ast_nodes : string → option (list string)) (bp : EdgeBreakpoint) : Prop :=
  bp_kind bp ∈ EDGE_BREAKPOINT_KINDS ∧ py_strip (bp_id bp) ≠ "" ∧ py_strip (bp_target bp) ≠ ""
  ∧ match bp_condition bp with
    | None => bp_kind bp ≠ "condition"
    | Some s => bp_kind bp = "condition" ∧ py_strip s ≠ ""
        ∧ ∃ nodes, ast_nodes (py_strip s) = Some nodes
                   ∧ ∀ n, n ∈ nodes → n ∈ ALLOWED_CONDITION_NODES
    end.

Lemma nonblank_str_Some v s : nonblank_str v = Some s → v = PyStr s ∧ py_strip s ≠ "".
Proof. destruct v; cbn; try done. case_decide; [done|]. by intros [= ->]. Qed.

Lemma parse_one_valid ast_nodes item bp :
  parse_one ast_nodes item = Some bp → bp_valid ast_nodes bp.
Proof.
  destruct item; try done. cbn [parse_one]. intros Hp.
  apply bind_Some in Hp as (id & [_ Hid]%nonblank_str_Some & Hp).
  destruct (map_get_default "kind" _ _) as [| | | |kind| | |]; try done.
  destruct (str_in kind EDGE_BREAKPOINT_KINDS) eqn:Ek; [|done]. cbn [negb] in Hp.
  apply bool_decide_eq_true in Ek.
  apply bind_Some in Hp as (target & [_ Ht]%nonblank_str_Some & Hp).
  destruct (map_get_default "enabled" _ _) as [|en| | | | | |]; try done.
  apply bind_Some in Hp as (cond & Hc & [= <-]).
  unfold bp_valid; cbn. split_and!; [done..|]. unfold parse_condition in Hc.
  case_decide as Hk.
  - apply bind_Some in Hc as (s & [_ Hs]%nonblank_str_Some & Hc).
    unfold condition_is_safe in Hc.
    destruct (ast_nodes (py_strip s)) as [nodes|] eqn:En; [|done].
    destruct (forallb _ nodes) eqn:Ef; simplify_eq. split_and!; [done..|].
    exists nodes. split; [done|]. rewrite forallb_forall in Ef.
    intros n Hn%list_elem_of_In. specialize (Ef n Hn). by apply bool_decide_eq_true in Ef.
  - case_match; by simplify_eq.
Qed.

(** Parsing breakpoint definitions filters: every accepted definition is valid
    (known kind, non-blank id and target, a condition exactly for kind "condition"
    and built from whitelisted syntax nodes only), the accepted ones keep their
    order, and accepted plus dropped is the number of definitions given. *)
Theorem parse_breakpoints_safe (ast_nodes : string → option (list string)) (raw : pyval) :
  let '(parsed, dropped) := parse_breakpoint_defs ast_nodes raw in
  Forall (bp_valid ast_nodes) parsed ∧
  match raw with
  | PyList l => parsed = omap (parse_one ast_nodes) l ∧ (length parsed + dropped)%nat = length l
  | _ => parsed = [] ∧ dropped = 0
  end.
Proof.
  destruct raw; try (split; [by constructor|done]). cbn. split.
  - apply Forall_forall. intros bp (item & _ & Hp)%list_elem_of_omap.
    by eapply parse_one_valid.
  - split; [done|]. induction l as [|x l IH]; [done|].
    rewrite filter_cons. csimpl. destruct (parse_one ast_nodes x) eqn:E;
      (case_decide; [|congruence || (csimpl; lia)]; csimpl; first [congruence|lia]).
Qed.
