(* ===== verification/UutSync.v ===== *)
(** * Units under test and synchronisation barriers (scheduler/uut_sync.py)

    Barriers are shared objects: the manager's table maps a name to a reference and
    several waiting threads hold the same reference, so barriers live in a store
    indexed by number ([barrier is self._barriers.get(name)] compares numbers). A
    waiting thread runs under the barrier's condition variable: its steps are the
    arrival and every later evaluation of the loop guard (after a notification, or
    once the deadline has passed). *)

From S2P Require Import Prelude PyDict PyStr Types.

Inductive UUTState : Type := UUT_IDLE | UUT_TESTING | UUT_PASSED | UUT_FAILED.

#[export] Instance UUTState_eq_dec : EqDecision UUTState.
Proof. solve_decision. Defined.

Record UUT : Type := mkUUT {
  uut_fixture_id : option string;
  uut_variables : pydict string pyval;
  uut_state : UUTState;
  uut_last_error : option string
}.

Definition new_uut (fixture_id : option string) : UUT := mkUUT fixture_id ∅ UUT_IDLE None.

Definition busy (u : UUT) : bool := bool_decide (uut_state u = UUT_TESTING).
Definition start_test (u : UUT) : UUT :=
  mkUUT (uut_fixture_id u) (uut_variables u) UUT_TESTING (uut_last_error u).
Definition finish (passed : bool) (u : UUT) : UUT :=
  mkUUT (uut_fixture_id u) (uut_variables u) (if passed then UUT_PASSED else UUT_FAILED)
    (uut_last_error u).
Definition reset (u : UUT) : UUT :=
  mkUUT (uut_fixture_id u) (uut_variables u) UUT_IDLE None.
Definition with_error (e : string) (u : UUT) : UUT :=
  mkUUT (uut_fixture_id u) (uut_variables u) (uut_state u) (Some e).
Definition with_fixture (f : string) (u : UUT) : UUT :=
  mkUUT (Some f) (uut_variables u) (uut_state u) (uut_last_error u).

(** ** The barrier *)

Record SyncBarrier : Type := mkBarrier {
  sb_name : string;
  sb_participants : gset string;
  sb_arrived : gset string;
  sb_released : bool;
  sb_release_reason : option string
}.

Record BarrierResult : Type := mkResult {
  br_barrier_name : string;
  br_reached : gset string;
  br_missing : gset string;
  br_timed_out : bool
}.

Definition all_reached (r : BarrierResult) : bool := bool_decide (br_missing r = ∅).

Definition new_barrier (name : string) (participants : gset string) : SyncBarrier :=
  mkBarrier name participants ∅ false None.

Definition force_release (reason : string) (b : SyncBarrier) : SyncBarrier :=
  mkBarrier (sb_name b) (sb_participants b) (sb_arrived b) true (Some reason).

(** [release()]: the external way out. *)
Definition barrier_release (b : SyncBarrier) : SyncBarrier := force_release "external" b.

Definition arrive (uut_id : string) (b : SyncBarrier) : SyncBarrier :=
  mkBarrier (sb_name b) (sb_participants b) ({[ uut_id ]} ∪ sb_arrived b)
    (sb_released b) (sb_release_reason b).

(** The code after the loop: open a full barrier, and build the result. *)
Definition leave (b : SyncBarrier) : BarrierResult * SyncBarrier :=
  let b' := if negb (sb_released b) && bool_decide (sb_arrived b = sb_participants b)
            then mkBarrier (sb_name b) (sb_participants b) (sb_arrived b) true
                   (sb_release_reason b)
            else b in
  (mkResult (sb_name b') (sb_arrived b') (sb_participants b' ∖ sb_arrived b')
     (bool_decide (sb_release_reason b' = Some "timeout")), b').

(** One evaluation of the loop guard; [expired] says the deadline has passed.
    [None]: the thread goes back to wait on the condition. *)
Definition wait_turn (expired : bool) (b : SyncBarrier) :
    option BarrierResult * SyncBarrier :=
  if sb_released b || bool_decide (sb_arrived b = sb_participants b) then
    let '(r, b') := leave b in (Some r, b')
  else if expired then
    let '(r, b') := leave (force_release "timeout" b) in (Some r, b')
  else (None, b).

(** Threads at one barrier, and the results handed out so far; [external] says
    whether somebody may call [release()]. *)
Inductive barrier_step (external : bool) :
    SyncBarrier * list BarrierResult → SyncBarrier * list BarrierResult → Prop :=
  | Bs_arrive u b rs : barrier_step external (b, rs) (arrive u b, rs)
  | Bs_turn expired b r b' rs :
      wait_turn expired b = (Some r, b') → barrier_step external (b, rs) (b', rs ++ [r])
  | Bs_wait expired b b' rs :
      wait_turn expired b = (None, b') → barrier_step external (b, rs) (b', rs)
  | Bs_release b rs :
      external = true → barrier_step external (b, rs) (barrier_release b, rs).

(** ** The manager *)

Record UUTManager : Type := mkMgr {
  um_uuts : pydict string UUT;
  um_barriers : pydict string nat;
  um_store : list SyncBarrier
}.

Definition default_ids (count : nat) : list string :=
  (λ i, "UUT_" +:+ pretty i) <$> seq 0 count.

Definition new_manager (count : nat) (uut_ids : option (list string))
    (fixture_ids : pydict string string) : UUTManager :=
  let ids := default (default_ids count) uut_ids in
  mkMgr (dict_of_list ((λ uid, (uid, new_uut (fixture_ids !! uid))) <$> ids)) ∅ [].

Definition set_uuts d (m : UUTManager) := mkMgr d (um_barriers m) (um_store m).
Definition alter_uut (f : UUT → UUT) (uid : string) (m : UUTManager) : UUTManager :=
  match um_uuts m !! uid with
  | Some u => set_uuts (<[uid := f u]> (um_uuts m)) m
  | None => m
  end.

Definition mgr_uut_ids (m : UUTManager) : list string := keys (um_uuts m).
Definition mgr_get (m : UUTManager) (uid : string) : option UUT := um_uuts m !! uid.

(** The first unit that is not testing, with its id. *)
Definition get_idle (m : UUTManager) : option (string * UUT) :=
  head (base.filter (λ kv, busy kv.2 = false) (items (um_uuts m))).

Definition allocate (fixture_id : option string) (m : UUTManager) :
    option string * UUTManager :=
  match get_idle m with
  | None => (None, m)
  | Some (uid, u) =>
      let u1 := start_test u in
      let u2 := match fixture_id with Some f => with_fixture f u1 | None => u1 end in
      (Some uid, set_uuts (<[uid := u2]> (um_uuts m)) m)
  end.

Definition mgr_release (uid : string) (passed : bool) (m : UUTManager) : UUTManager :=
  alter_uut (finish passed) uid m.
Definition reset_all (m : UUTManager) : UUTManager :=
  set_uuts (dict_map reset (um_uuts m)) m.
Definition busy_uuts (m : UUTManager) : list string :=
  (base.filter (λ kv, busy kv.2 = true) (items (um_uuts m))).*1.

(** First part of [wait_barrier]: the KeyError, and the barrier to wait on (a new
    one if the name is free or its barrier is already released). *)
Definition barrier_for (barrier_name uut_id : string) : M UUTManager nat :=
  m <- get ;;
  if negb (has_key uut_id (um_uuts m)) then raise (KeyError ("Unknown UUT: " +:+ uut_id))
  else
    let fresh := length (um_store m) in
    let create := put (mkMgr (um_uuts m) (<[barrier_name := fresh]> (um_barriers m))
                   (um_store m ++ [new_barrier barrier_name (list_to_set (mgr_uut_ids m))])) ;;;
                  ret fresh in
    match um_barriers m !! barrier_name with
    | None => create
    | Some ref =>
        match um_store m !! ref with
        | Some b => if sb_released b then create else ret ref
        | None => create
        end
    end.

(** The middle part waits on the barrier itself. *)
Definition manager_wait (ref : nat) (expired : bool) (m : UUTManager) :
    option BarrierResult * UUTManager :=
  match um_store m !! ref with
  | None => (None, m)
  | Some b =>
      let '(r, b') := wait_turn expired b in
      (r, mkMgr (um_uuts m) (um_barriers m) (<[ref := b']> (um_store m)))
  end.
Definition manager_arrive (ref : nat) (uut_id : string) (m : UUTManager) : UUTManager :=
  match um_store m !! ref with
  | None => m
  | Some b => mkMgr (um_uuts m) (um_barriers m) (<[ref := arrive uut_id b]> (um_store m))
  end.

(** One missing unit after a time-out: marked FAILED unless it is testing. *)
Definition mark_missing (barrier_name uid : string) (m : UUTManager) : UUTManager :=
  alter_uut (λ u, if busy u then u
                  else with_error ("Barrier '" +:+ barrier_name +:+ "' timeout")
                         (finish false u)) uid m.

(** Last part: mark the missing units after a time-out, drop a released barrier. *)
Definition settle_barrier (barrier_name : string) (ref : nat) (r : BarrierResult)
    (m : UUTManager) : UUTManager :=
  let m1 := if br_timed_out r
            then foldr (mark_missing barrier_name) m (elements (br_missing r)) else m in
  match um_barriers m1 !! barrier_name, um_store m1 !! ref with
  | Some ref', Some b =>
      if bool_decide (ref' = ref) && sb_released b
      then mkMgr (um_uuts m1) (delete barrier_name (um_barriers m1)) (um_store m1)
      else m1
  | _, _ => m1
  end.

Section lemmas.
Lemma list_filter_first {A} (P : A → Prop) `{∀ x, Decision (P x)} l x l' :
  base.filter P l = x :: l' →
  ∃ before after, l = before ++ x :: after ∧ ∀ y, y ∈ before → ¬ P y.
Proof.
  induction l as [|y l IH]; [done|]. rewrite filter_cons. case_decide as Hy.
  - intros [= -> _]. exists [], l. split; [done|]. by intros ? ?%elem_of_nil.
  - intros (bf & af & -> & Hbf)%IH. exists (y :: bf), af. split; [done|].
    intros z [->|Hz]%elem_of_cons; auto.
Qed.

Lemma um_uuts_alter f uid m uid' :
  um_uuts (alter_uut f uid m) !! uid'
  = if decide (uid = uid') then f <$> um_uuts m !! uid' else um_uuts m !! uid'.
Proof.
  unfold alter_uut. destruct (um_uuts m !! uid) as [u|] eqn:E; cbn.
  - rewrite dict_lookup_insert. case_decide; subst; [by rewrite E|done].
  - case_decide; subst; [by rewrite E|done].
Qed.

Lemma keys_alter f uid m : keys (um_uuts (alter_uut f uid m)) = keys (um_uuts m).
Proof.
  unfold alter_uut. destruct (um_uuts m !! uid) eqn:E; [|done]. cbn.
  by rewrite keys_insert_Some by eauto.
Qed.

(** What holds of a barrier nobody releases from outside. *)
Definition barrier_inv (w : SyncBarrier * list BarrierResult) : Prop :=
  let '(b, rs) := w in
  (sb_released b = true → sb_release_reason b = None → sb_participants b ⊆ sb_arrived b)
    ∧ (is_Some (sb_release_reason b) →
      sb_released b = true ∧ sb_release_reason b = Some "timeout")
    ∧ (∀ r, r ∈ rs → br_timed_out r = false → br_missing r = ∅).

Lemma leave_inv b rs r b' :
  leave b = (r, b') →
  (sb_released b = true ∨ sb_arrived b = sb_participants b) →
  barrier_inv (b, rs) → barrier_inv (b', rs ++ [r]).
Proof.
  unfold leave. intros [= <- <-] Hopen (H1 & H2 & H3).
  set (b' := if _ : bool then _ else b).
  assert (sb_participants b' = sb_participants b ∧ sb_arrived b' = sb_arrived b
    ∧ sb_release_reason b' = sb_release_reason b ∧ sb_released b' = true) as (Hp & Ha & Hr & Ht).
  { subst b'. destruct (sb_released b) eqn:E; cbn; [done|].
    rewrite bool_decide_true; [done|]. by destruct Hopen. }
  assert (sb_release_reason b = None → sb_participants b ⊆ sb_arrived b) as Hsub.
  { intros Hn. destruct Hopen as [Ho|Ho]; [by apply H1|by rewrite Ho]. }
  split_and!.
  - rewrite Hp, Ha, Hr. auto.
  - rewrite Hr, Ht. intros Hs. by destruct (H2 Hs).
  - intros r' [Hin| ->%list_elem_of_singleton]%elem_of_app Hto; [by apply H3|].
    cbn in *. rewrite Hp, Ha. rewrite Hr in Hto. apply bool_decide_eq_false in Hto.
    destruct (sb_release_reason b) as [x|] eqn:Ex.
    + destruct (H2 ltac:(eauto)) as [_ ?]. done.
    + specialize (Hsub eq_refl). set_solver.
Qed.

Lemma barrier_step_inv w w' : barrier_step false w w' → barrier_inv w → barrier_inv w'.
Proof.
  destruct 1 as [u b rs|expired b r b' rs Ht|expired b b' rs Ht|]; [| | |done].
  - intros (H1 & H2 & H3). split_and!; cbn; [set_solver|done|done].
  - unfold wait_turn in Ht. intros Hinv.
    destruct (sb_released b || bool_decide (sb_arrived b = sb_participants b)) eqn:Eo.
    + destruct (leave b) eqn:El. simplify_eq. eapply leave_inv; [done| |done].
      apply orb_true_iff in Eo as [?|?%bool_decide_eq_true]; auto.
    + destruct expired; [|done]. destruct (leave _) eqn:El. simplify_eq.
      eapply leave_inv; [done|by left|]. destruct Hinv as (H1 & H2 & H3).
      split_and!; [by intros ? [=]|by split|done].
  - unfold wait_turn in Ht. destruct (_ || _); [by destruct (leave b)|].
    destruct expired; [by destruct (leave _)|]. by simplify_eq.
Qed.

Lemma barrier_inv_reachable name ps w :
  rtc (barrier_step false) (new_barrier name ps, []) w → barrier_inv w.
Proof.
  intros Hr. remember (new_barrier name ps, []) as w0 eqn:E.
  assert (barrier_inv w0) as H0.
  { subst. split_and!; cbn; [done|by intros [? ?]|set_solver]. }
  clear E. induction Hr; eauto using barrier_step_inv.
Qed.

Lemma um_uuts_mark name uid m uid' :
  um_uuts (mark_missing name uid m) !! uid' =
  (λ u, if decide (uid = uid') then
    if busy u then u
      else with_error ("Barrier '" +:+ name +:+ "' timeout") (finish false u)
      else u) <$> um_uuts m !! uid'.
Proof.
  unfold mark_missing. rewrite um_uuts_alter. case_decide; [done|].
  by destruct (um_uuts m !! uid').
Qed.

Lemma um_uuts_mark_all name l m uid :
  um_uuts (foldr (mark_missing name) m l) !! uid =
  (λ u, if decide (uid ∈ l) then
    if busy u then u
      else with_error ("Barrier '" +:+ name +:+ "' timeout") (finish false u)
      else u) <$> um_uuts m !! uid.
Proof.
  induction l as [|x l IH]; cbn.
  { destruct (um_uuts m !! uid); cbn; [|done]. rewrite decide_False by set_solver. done. }
  rewrite um_uuts_mark, IH, <-option_fmap_compose.
  destruct (um_uuts m !! uid) as [u|]; [|done]. cbn. f_equal.
  destruct (decide (uid ∈ l)) as [Hl|Hl].
  - rewrite (decide_True (P := uid ∈ x :: l)) by (by right).
    destruct (decide (x = uid)); [|done].
    destruct (busy u) eqn:Eb; [by rewrite Eb|done].
  - destruct (decide (x = uid)) as [->|].
    + by rewrite decide_True by left.
    + rewrite decide_False; [done|]. set_solver.
Qed.

Lemma settle_uuts name ref r m :
  um_uuts (settle_barrier name ref r m) =
  um_uuts (if br_timed_out r
      then foldr (mark_missing name) m (elements (br_missing r)) else m).
Proof. unfold settle_barrier. repeat case_match; done. Qed.
End lemmas.

(** ** Properties *)

(** C35. A barrier does not open early: as long as nobody releases it from outside,
    under every interleaving of arrivals, wake-ups and time-outs, a thread whose
    result is not marked as timed out has an empty set of missing units. *)
Theorem barrier_safety (name : string) (participants : gset string) (b : SyncBarrier)
    (rs : list BarrierResult) (r : BarrierResult)
    (Hreach : rtc (barrier_step false) (new_barrier name participants, []) (b, rs))
    (Hr : r ∈ rs) (Hintime : br_timed_out r = false) :
  br_missing r = ∅ ∧ all_reached r = true.
Proof.
  destruct (barrier_inv_reachable _ _ _ Hreach) as (_ & _ & H3).
  specialize (H3 r Hr Hintime). split; [done|]. unfold all_reached. by rewrite bool_decide_true.
Qed.

Definition pair_results : list BarrierResult :=
  [mkResult "sync" {["U0"; "U1"]} (({["U0"; "U1"]} : gset string) ∖ {["U0"; "U1"]}) false].

Lemma barrier_safety_witness :
  ∃ b, rtc (barrier_step false) (new_barrier "sync" {["U0"; "U1"]}, []) (b, pair_results)
    ∧ br_missing (hd (mkResult "" ∅ ∅ true) pair_results) = ∅.
Proof.
  set (b1 := arrive "U1" (arrive "U0" (new_barrier "sync" {["U0"; "U1"]}))).
  destruct (wait_turn false b1) as [[r|] b2] eqn:E; [|vm_compute in E; discriminate].
  assert (rtc (barrier_step false) (new_barrier "sync" {["U0"; "U1"]}, []) (b2, [r])) as Hr.
  { eapply rtc_l; [apply (Bs_arrive _ "U0")|]. eapply rtc_l; [apply (Bs_arrive _ "U1")|].
    eapply rtc_l; [eapply Bs_turn; exact E|]. apply rtc_refl. }
  assert (pair_results = [r]) as Hp by (vm_compute in E; injection E as <- <-; reflexivity).
  exists b2. rewrite Hp. split; [exact Hr|].
  assert (br_timed_out r = false) as Ht by (vm_compute in E; injection E as <- <-; reflexivity).
  exact (proj1 (barrier_safety _ _ _ _ r Hr (list_elem_of_here _ _) Ht)).
Defined.

(** No thread stays at a barrier past its deadline, and one time-out frees
    everybody: once the deadline has passed the next turn returns a result, the
    barrier is then released, and every later turn of any other thread returns a
    result at once; a full barrier returns complete results without any time-out. *)
Theorem barrier_progress (b : SyncBarrier) :
  (∃ r b', wait_turn true b = (Some r, b') ∧ sb_released b' = true
     ∧ ∀ u expired, ∃ r', (wait_turn expired (arrive u b')).1 = Some r')
  ∧ (sb_arrived b = sb_participants b → ∀ expired, ∃ r,
       (wait_turn expired b).1 = Some r ∧ br_missing r = ∅).
Proof.
  assert (Hleave : ∀ b, sb_released b = true ∨ sb_arrived b = sb_participants b →
    sb_released (leave b).2 = true).
  { intros b0 Ho. unfold leave. cbn. destruct (sb_released b0) eqn:E; [done|]. cbn.
    rewrite bool_decide_true; [done|]. by destruct Ho. }
  assert (Hrel : ∀ b, sb_released b = true → ∀ u expired,
    ∃ r', (wait_turn expired (arrive u b)).1 = Some r').
  { intros b0 H0 u e. unfold wait_turn, arrive; cbn. rewrite H0. cbn. eauto. }
  split.
  - unfold wait_turn.
    destruct (sb_released b || bool_decide (sb_arrived b = sb_participants b)) eqn:Eo.
    + destruct (leave b) as [r b'] eqn:El. exists r, b'.
      assert (sb_released b' = true) as Hb.
      { pose proof (Hleave b) as Hl. rewrite El in Hl. apply Hl.
        apply orb_true_iff in Eo as [?|?%bool_decide_eq_true]; auto. }
      split_and!; [done|done|]. by apply Hrel.
    + destruct (leave (force_release "timeout" b)) as [r b'] eqn:El. exists r, b'.
      assert (sb_released b' = true) as Hb.
      { pose proof (Hleave (force_release "timeout" b)) as Hl. rewrite El in Hl.
        apply Hl. by left. }
      split_and!; [done|done|]. by apply Hrel.
  - intros Ha expired. unfold wait_turn. rewrite (bool_decide_true (_ = _)) by done.
    rewrite orb_true_r. unfold leave. cbn. eexists; split; [done|]. cbn.
    case_match; cbn; rewrite Ha; set_solver.
Qed.

(** What a barrier time-out does to the pool: exactly the missing units that are
    not testing become FAILED with the barrier named in their error; a missing unit
    that is testing keeps its state, and so does every other unit. *)
Theorem timeout_marks_missing (name : string) (ref : nat) (r : BarrierResult) (m : UUTManager)
    (uid : string) (u : UUT)
    (Hu : mgr_get m uid = Some u) (Hto : br_timed_out r = true) :
  mgr_get (settle_barrier name ref r m) uid =
    Some (if decide (uid ∈ br_missing r) then
            if busy u then u
            else with_error ("Barrier '" +:+ name +:+ "' timeout") (finish false u)
          else u).
Proof.
  unfold mgr_get in *. rewrite settle_uuts, Hto, um_uuts_mark_all, Hu. cbn.
  f_equal. destruct (decide (uid ∈ br_missing r)).
  - rewrite decide_True by (by apply elem_of_elements). done.
  - rewrite decide_False; [done|]. by rewrite elem_of_elements.
Qed.

Definition busy_pool : UUTManager := alter_uut start_test "UUT_1" (new_manager 2 None ∅).

Lemma timeout_marks_missing_witness :
  let r := mkResult "sync" {["UUT_0"]} {["UUT_1"]} true in
  uut_state <$> mgr_get (settle_barrier "sync" 0 r busy_pool) "UUT_1" = Some UUT_TESTING.
Proof.
  cbn zeta.
  assert (mgr_get busy_pool "UUT_1" = Some (start_test (new_uut None))) as Hu
    by (vm_compute; reflexivity).
  rewrite (timeout_marks_missing "sync" 0 (mkResult "sync" {["UUT_0"]} {["UUT_1"]} true)
    busy_pool "UUT_1" _ Hu eq_refl).
  reflexivity.
Defined.

(** Allocation hands out free units only: it returns the first unit of the pool
    that is not testing, puts exactly that unit in TESTING (with the given fixture)
    and leaves the others; it returns nothing, and changes nothing, exactly when every
    unit is testing. Hence two allocations without a release return different units. *)
Theorem allocate_exclusive (fixture : option string) (m : UUTManager)
    (Hwf : dict_wf (um_uuts m)) :
  match allocate fixture m with
  | (Some uid, m') =>
      ∃ u u', mgr_get m uid = Some u ∧ busy u = false
        ∧ mgr_get m' uid = Some u' ∧ busy u' = true
        ∧ uut_fixture_id u' = match fixture with Some f => Some f | None => uut_fixture_id u end
        ∧ (∀ uid', uid' ≠ uid → mgr_get m' uid' = mgr_get m uid')
        ∧ (∃ before after, mgr_uut_ids m = before ++ uid :: after
             ∧ ∀ x, x ∈ before → busy <$> mgr_get m x = Some true)
        ∧ (allocate fixture m').1 ≠ Some uid
  | (None, m') => m' = m ∧ ∀ uid u, mgr_get m uid = Some u → busy u = true
  end.
Proof.
  unfold allocate, get_idle, mgr_get.
  destruct (base.filter (λ kv, busy kv.2 = false) (items (um_uuts m))) as [|[uid u] l] eqn:E;
    cbn [head].
  - split; [done|]. intros uid u Hu. destruct (busy u) eqn:Eb; [done|].
    apply elem_of_items in Hu; [|done].
    assert ((uid, u) ∈ base.filter (λ kv, busy kv.2 = false) (items (um_uuts m))) as Hin
      by (by apply list_elem_of_filter).
    rewrite E in Hin. by apply elem_of_nil in Hin.
  - assert ((uid, u) ∈ base.filter (λ kv, busy kv.2 = false) (items (um_uuts m)))
      as [Hb Hin]%list_elem_of_filter by (rewrite E; left).
    cbn in Hb. apply elem_of_items in Hin as Hl; [|done].
    set (u2 := match fixture with Some f => with_fixture f (start_test u) | None => start_test u end).
    assert (busy u2 = true ∧ uut_fixture_id u2 =
      match fixture with Some f => Some f | None => uut_fixture_id u end) as [Hb2 Hf2].
    { subst u2. destruct fixture; split; done. }
    exists u, u2. cbn. split_and!; [done|done| |done|done| | |].
    + by rewrite dict_lookup_insert_eq.
    + intros uid' Hne. by rewrite dict_lookup_insert_ne.
    + destruct (list_filter_first _ _ _ _ E) as (bf & af & Heq & Hbf).
      exists bf.*1, af.*1. unfold mgr_uut_ids, keys. rewrite Heq, fmap_app. split; [done|].
      intros x ([x' ux] & -> & Hx)%list_elem_of_fmap. cbn.
      assert (um_uuts m !! x' = Some ux) as ->.
      { apply elem_of_items; [done|]. rewrite Heq. apply elem_of_app. by left. }
      cbn. f_equal. specialize (Hbf _ Hx). cbn in Hbf. by destruct (busy ux).
    + destruct (base.filter _ (items (<[uid := u2]> (um_uuts m)))) as [|[x ux] l'] eqn:E';
        cbn; [done|]. intros [= ->].
      assert ((uid, ux) ∈ base.filter (λ kv, busy kv.2 = false)
        (items (<[uid := u2]> (um_uuts m)))) as [Hbx Hinx]%list_elem_of_filter
        by (rewrite E'; left).
      apply elem_of_items in Hinx; [|by apply dict_wf_insert].
      rewrite dict_lookup_insert_eq in Hinx. cbn in Hbx. congruence.
Qed.

Lemma allocate_exclusive_witness :
  dict_wf (um_uuts (new_manager 2 None ∅)) ∧
  (allocate None (allocate None (new_manager 2 None ∅)).2).1 = Some "UUT_1" ∧
  (allocate None (allocate None (new_manager 2 None ∅)).2).1 ≠ Some "UUT_0".
Proof.
  assert (dict_wf (um_uuts (new_manager 2 None ∅))) as Hwf by apply dict_wf_of_list.
  split; [exact Hwf|]. split; [vm_compute; reflexivity|].
  destruct (allocate_exclusive None (new_manager 2 None ∅) Hwf)
    as (u & u' & _ & _ & _ & _ & _ & _ & _ & Hno).
  exact Hno.
Defined.
