(* ===== verification/StateSnapshot.v ===== *)
(** * The crash-recovery file (scheduler/state_snapshot.py)

    The directory is a map from paths to file contents. [json_dump] and [json_load]
    stand for the standard library's codec ([None]: TypeError, JSONDecodeError). The
    two places where the operating system may refuse are arguments of [save]. *)

From S2P Require Import Prelude PyDict PyStr VariableSpace.

Abbreviation Disk := (gmap string string).

Definition RESUME_MARKER : string := "step_states".

(** The file name inside the snapshot directory. *)
Definition snapshot_path : string := "ate_scheduler_snapshot.json".

Section snapshot.
Context (json_dump : pyval → option string) (json_load : string → option pyval).

(** [save]: [tmp] is the name [mkstemp] chose, [replaced] says whether
    [os.replace] succeeds. *)
Definition save (tmp : string) (replaced : bool) (state : pyval) : M Disk unit :=
  modify (insert tmp "") ;;;
  try_except
  (match json_dump state with
  | None => raise (TypeError "Object is not JSON serializable")
  | Some text =>
      modify (insert tmp text) ;;;
      if replaced then modify (λ d, <[snapshot_path := text]> (delete tmp d))
      else raise (OtherError "OSError")
  end)
  (λ e, Some (modify (delete tmp) ;;; raise e)).

Definition load (d : Disk) : option pyval :=
  text ← d !! snapshot_path;
  data ← json_load text;
  match data with PyMap _ => Some data | _ => None end.

(** The non-empty dictionary of step states, if the snapshot has one. *)
Definition can_resume (d : Disk) : bool :=
  match load d with
  | Some data =>
      py_bool data && match state_get RESUME_MARKER data with
      | PyMap steps => py_bool (PyMap steps) | _ => false end
  | None => false
  end.

Definition cleanup (d : Disk) : Disk := delete snapshot_path d.

(** The disks a crash inside [save] can leave: the temporary file may hold any
    part of the text, and the replacement has happened or not. *)
Inductive crash_disk (tmp : string) (state : pyval) (d : Disk) : Disk → Prop :=
  | Cd_before : crash_disk tmp state d d
  | Cd_writing part : crash_disk tmp state d (<[tmp := part]> d)
  | Cd_unlinked : crash_disk tmp state d (delete tmp d)
  | Cd_replaced text : json_dump state = Some text →
    crash_disk tmp state d (<[snapshot_path := text]> (delete tmp d)).

Lemma load_other tmp d d' :
  (∀ p, p ≠ tmp → d' !! p = d !! p) → tmp ≠ snapshot_path → load d' = load d.
Proof. intros H Hne. unfold load. by rewrite H. Qed.

Lemma save_spec tmp replaced state d :
  (save tmp replaced state d) =
  match json_dump state, replaced with
  | Some text, true =>
    (Ok tt, <[snapshot_path := text]> (delete tmp (<[tmp := text]> (<[tmp := ""]> d))))
  | Some text, false =>
    (Raise (OtherError "OSError"), delete tmp (<[tmp := text]> (<[tmp := ""]> d)))
  | None, _ =>
    (Raise (TypeError "Object is not JSON serializable"), delete tmp (<[tmp := ""]> d))
  end.
Proof. unfold save, bind, try_except, modify, raise. destruct (json_dump state), replaced; done. Qed.
End snapshot.

(** ** Properties *)

(** Saving is atomic: a [save] that succeeds makes [load] return exactly what the
    codec makes of the written text and leaves no temporary file; a [save] that raises
    (state not serialisable, replacement refused) leaves the earlier snapshot readable;
    and a crash at any point of it leaves either the earlier snapshot or the new one,
    never a mixture. *)
Theorem save_is_atomic (dump : pyval → option string) (ld : string → option pyval)
    (tmp : string) (replaced : bool) (state : pyval) (d : Disk)
    (Hfresh : d !! tmp = None) (Htmp : tmp ≠ snapshot_path) :
  let new := text ← dump state; data ← ld text;
             match data with PyMap _ => Some data | _ => None end in
  let '(r, d') := save dump tmp replaced state d in
  (match r with
   | Ok _ => load ld d' = new
   | Raise _ => load ld d' = load ld d ∧ d' = d
   end)
  ∧ d' !! tmp = None
  ∧ ∀ d'', crash_disk dump tmp state d d'' → load ld d'' = load ld d ∨ load ld d'' = new.
Proof.
  cbn zeta. rewrite save_spec.
  assert (∀ text, d = delete tmp (<[tmp:=text]> (<[tmp:=""]> d))) as Hd.
  { intros text. by rewrite insert_insert_eq, delete_insert_id. }
  assert (d = delete tmp (<[tmp:=""]> d)) as Hd0 by (by rewrite delete_insert_id).
  assert (∀ d'', crash_disk dump tmp state d d'' →
    load ld d'' = load ld d ∨
    load ld d'' = (text ← dump state; data ← ld text;
                   match data with PyMap _ => Some data | _ => None end)) as Hc.
  { intros d'' [|part| |text Ht]; [by left|left|left|right].
    - eapply load_other; [|done]. intros p Hp. by rewrite lookup_insert_ne.
    - eapply load_other; [|done]. intros p Hp. by rewrite lookup_delete_ne.
    - unfold load. by rewrite lookup_insert_eq, Ht. }
  destruct (dump state) as [text|] eqn:Et; [destruct replaced|]; cbn.
  - split_and!; [|by rewrite lookup_insert_ne, lookup_delete_eq by done|done].
    unfold load. by rewrite lookup_insert_eq.
  - by rewrite <-Hd.
  - by rewrite <-Hd0.
Qed.

(** A codec for one state. *)
Definition one_state : pyval := PyMap [(PyStr "step_states", PyMap [(PyStr "a", PyStr "PASSED")])].
Definition one_dump (v : pyval) : option string :=
  match v with PyMap _ => Some "text" | _ => None end.
Definition one_load (s : string) : option pyval :=
  if decide (s = "text") then Some one_state else None.

Lemma save_is_atomic_witness :
  load one_load (save one_dump ".snapshot-1.tmp" true one_state ∅).2 = Some one_state
  ∧ load one_load (save one_dump ".snapshot-1.tmp" true (PyInt 1) ∅).2 = None.
Proof.
  split.
  - exact (proj1 (save_is_atomic one_dump one_load ".snapshot-1.tmp" true one_state ∅
             eq_refl ltac:(done))).
  - exact (proj1 (proj1 (save_is_atomic one_dump one_load ".snapshot-1.tmp" true (PyInt 1) ∅
             eq_refl ltac:(done)))).
Defined.

(** [can_resume] answers true exactly when there is a snapshot with at least one
    recorded step state, and never after [cleanup]. *)
Theorem can_resume_meaning (ld : string → option pyval) (d : Disk) :
  (can_resume ld d = true ↔
     ∃ data s rest, load ld d = Some data
       ∧ state_get RESUME_MARKER data = PyMap (s :: rest))
  ∧ can_resume ld (cleanup d) = false.
Proof.
  split.
  - unfold can_resume. destruct (load ld d) as [data|] eqn:El; [|naive_solver].
    assert (∀ x y, state_get RESUME_MARKER data = PyMap (x :: y) → py_bool data = true) as Hb.
    { intros x y. destruct data as [| | | | | |[|? ?]|]; done. }
    split.
    + intros [_ Hm]%andb_true_iff.
      destruct (state_get RESUME_MARKER data) as [| | | | | |[|x l]|] eqn:Em; try done.
      by exists data, x, l.
    + intros (? & x & l & [= <-] & Hm). by rewrite (Hb _ _ Hm), Hm.
  - unfold can_resume, load, cleanup. by rewrite lookup_delete_eq.
Qed.
