(* ===== verification/Scheduler.v ===== *)
(** * The scanner scheduler: state, registrations, gates, results
    (scheduler/scanner_scheduler.py)

    What the scheduler keeps, its configuration methods, the pause and debugger
    gate, the skip rules, the handling of step results and of barriers. The dispatch
    paths and the tasks built from these are in [Dispatch.v].

    The scheduler runs on one asyncio loop: what happens between two suspension
    points is one computation in the monad [M World]. The suspension points are the
    wait on the pause event, the wait for a barrier's threads, the yield of the scan
    loop, and the delay before a retry. A pause event remembers which tasks wait on
    it: setting it wakes them even if it is cleared again before they run. *)

From stdpp Require Import sorting.
From S2P Require Import Prelude PyDict PyStr Types VariableSpace EventBus ResourceManager ConditionEvaluator StepRegistry EdgeBreakpoints UutSync StateSnapshot.

(** ** What the scheduler is given

    The third-party expression evaluators and codec, and two collaborators it only
    sees through an interface: the adaptive skip evaluator and the fault injector. *)
Class SchedulerEnv : Type := {
  simple_eval : eval_env → string → option pyval;
  simple_eval_names : pydict string pyval → string → option pyval;
  json_dump : pyval → option string;
  json_load : string → option pyval;
  temp_name : Disk → string;
  SkipConditions : Type;
  AdaptiveEvaluator : Type;
  should_skip : AdaptiveEvaluator → pydict string step_result → VariableSpace →
                SkipConditions → res bool;
  skip_reason_of : AdaptiveEvaluator → pydict string step_result → VariableSpace →
                   SkipConditions → res (option string);
  FaultInjector : Type;
  (* the message of the SchedulerFaultError, if a rule fires *)
  check_scheduler_raise : string → FaultInjector → option string * FaultInjector
}.

Record StepPosition : Type := mkPos {
  pos_parent : option string;
  pos_order : Z;
  pos_depth : Z
}.

Definition STEP_MODES : list string := ["over"; "into"; "out"; "run_to_cursor"].

(** The pause event and the tasks that wait for something. *)
Inductive wait_phase : Type := NotStarted | Waiting | Woken.

#[export] Instance wait_phase_eq_dec : EqDecision wait_phase.
Proof. solve_decision. Defined.

(** A coroutine on the loop: a dispatch of a step at its first pause wait, one held
    at a breakpoint, or one (a dispatch, or with the rest of its list a scan) that
    waits for the threads of a barrier; a forced scan not yet started. *)
Inductive task : Type :=
  | TDispatch (step_id : string) (ph : wait_phase)
  | THeld (step_id : string) (ph : wait_phase)
  | TBarrier (step_id barrier_name : string) (idle_ids : list string)
      (rest : option (bool * list string))     (* (scan loop?, remaining steps) *)
  | TScan.

#[export] Instance task_eq_dec : EqDecision task.
Proof. solve_decision. Defined.

(** Where the scan-loop task is. *)
Inductive loop_pc : Type :=
  | LoopNone | LoopTop | LoopYielded (current_dispatch_time : Z) | LoopBarrier | LoopSleeping.

#[export] Instance loop_pc_eq_dec : EqDecision loop_pc.
Proof. solve_decision. Defined.

Section state.
Context {E : SchedulerEnv}.

(** The compiled plan. *)
Record Plan : Type := mkPlan {
  dependency_index : pydict string (gset string);
  skip_conditions : pydict string (string * option string);
  adaptive_skip_conditions : pydict string SkipConditions;
  uut_affinities : pydict string string;
  barrier_steps : pydict string string;
  barrier_default_timeout : Z;
  step_positions : pydict string StepPosition
}.

(** Dispatch bookkeeping. *)
Record Disp : Type := mkDisp {
  notified_ready : gset string;
  pending_dispatch : gset string;
  last_dispatch_time : Z;                       (* 0: never *)
  affinity_claims : pydict string string;
  consecutive_no_progress : Z
}.

(** Pause, single steps, forced step. *)
Record Gate : Type := mkGate {
  paused : bool;
  pause_event : bool;
  force_next_pending : bool;
  step_mode : option string;
  step_mode_target : option string;
  step_mode_origin : option string;
  last_dispatched_step : option string
}.

Record Life : Type := mkLife {
  running : bool;
  stop_event : bool;
  heartbeat : Z;
  watchdog : bool;
  loop_at : loop_pc;
  resumed_from_snapshot : bool
}.

(** The operating system: the clock, the worker pool, whether a file can be
    replaced. *)
Record Os : Type := mkOs {
  os_now : Z;
  os_active : Z;
  os_max : Z;
  os_saturated : bool;                          (* utilization >= 1.0 *)
  os_replace_ok : bool
}.

Record World : Type := mkWorld {
  w_plan : Plan;
  w_disp : Disp;
  w_gate : Gate;
  w_life : Life;
  w_reg : StepRegistry;
  w_vs : VariableSpace;
  w_rm : ResourceManager;
  w_uuts : option UUTManager;
  w_bps : option EdgeBreakpointEngine;
  w_injector : option FaultInjector;
  w_adaptive : option AdaptiveEvaluator;
  w_snapshot : option Disk;
  w_bus : EventBus;
  w_tasks : list task;
  w_os : Os
}.

Definition plan_init : Plan := mkPlan ∅ ∅ ∅ ∅ ∅ 60000 ∅.
Definition disp_init : Disp := mkDisp ∅ ∅ 0 ∅ 0.
Definition gate_init : Gate := mkGate false true false None None None None.
Definition life_init : Life := mkLife false false 0 false LoopNone false.

(** The constructor: everything the scheduler is handed, nothing done yet. *)
Definition new_scheduler (reg : StepRegistry) (vs : VariableSpace) (rm : ResourceManager)
    (uuts : option UUTManager) (bps : option EdgeBreakpointEngine)
    (injector : option FaultInjector) (adaptive : option AdaptiveEvaluator)
    (snapshot : option Disk) (bus : EventBus) (os : Os) : World :=
  mkWorld plan_init disp_init gate_init life_init reg vs rm uuts bps injector adaptive
  snapshot bus [] os.

Definition set_plan x w := mkWorld x (w_disp w) (w_gate w) (w_life w) (w_reg w) (w_vs w)
  (w_rm w) (w_uuts w) (w_bps w) (w_injector w) (w_adaptive w) (w_snapshot w) (w_bus w)
  (w_tasks w) (w_os w).
Definition set_disp x w := mkWorld (w_plan w) x (w_gate w) (w_life w) (w_reg w) (w_vs w)
  (w_rm w) (w_uuts w) (w_bps w) (w_injector w) (w_adaptive w) (w_snapshot w) (w_bus w)
  (w_tasks w) (w_os w).
Definition set_gate x w := mkWorld (w_plan w) (w_disp w) x (w_life w) (w_reg w) (w_vs w)
  (w_rm w) (w_uuts w) (w_bps w) (w_injector w) (w_adaptive w) (w_snapshot w) (w_bus w)
  (w_tasks w) (w_os w).
Definition set_life x w := mkWorld (w_plan w) (w_disp w) (w_gate w) x (w_reg w) (w_vs w)
  (w_rm w) (w_uuts w) (w_bps w) (w_injector w) (w_adaptive w) (w_snapshot w) (w_bus w)
  (w_tasks w) (w_os w).
Definition set_reg x w := mkWorld (w_plan w) (w_disp w) (w_gate w) (w_life w) x (w_vs w)
  (w_rm w) (w_uuts w) (w_bps w) (w_injector w) (w_adaptive w) (w_snapshot w) (w_bus w)
  (w_tasks w) (w_os w).
Definition set_vs x w := mkWorld (w_plan w) (w_disp w) (w_gate w) (w_life w) (w_reg w) x
  (w_rm w) (w_uuts w) (w_bps w) (w_injector w) (w_adaptive w) (w_snapshot w) (w_bus w)
  (w_tasks w) (w_os w).
Definition set_rm x w := mkWorld (w_plan w) (w_disp w) (w_gate w) (w_life w) (w_reg w) (w_vs w)
  x (w_uuts w) (w_bps w) (w_injector w) (w_adaptive w) (w_snapshot w) (w_bus w)
  (w_tasks w) (w_os w).
Definition set_mgr x w := mkWorld (w_plan w) (w_disp w) (w_gate w) (w_life w) (w_reg w) (w_vs w)
  (w_rm w) x (w_bps w) (w_injector w) (w_adaptive w) (w_snapshot w) (w_bus w)
  (w_tasks w) (w_os w).
Definition set_bps x w := mkWorld (w_plan w) (w_disp w) (w_gate w) (w_life w) (w_reg w) (w_vs w)
  (w_rm w) (w_uuts w) x (w_injector w) (w_adaptive w) (w_snapshot w) (w_bus w)
  (w_tasks w) (w_os w).
Definition set_injector x w := mkWorld (w_plan w) (w_disp w) (w_gate w) (w_life w) (w_reg w)
  (w_vs w) (w_rm w) (w_uuts w) (w_bps w) x (w_adaptive w) (w_snapshot w) (w_bus w)
  (w_tasks w) (w_os w).
Definition set_snapshot x w := mkWorld (w_plan w) (w_disp w) (w_gate w) (w_life w) (w_reg w)
  (w_vs w) (w_rm w) (w_uuts w) (w_bps w) (w_injector w) (w_adaptive w) x (w_bus w)
  (w_tasks w) (w_os w).
Definition set_bus x w := mkWorld (w_plan w) (w_disp w) (w_gate w) (w_life w) (w_reg w)
  (w_vs w) (w_rm w) (w_uuts w) (w_bps w) (w_injector w) (w_adaptive w) (w_snapshot w) x
  (w_tasks w) (w_os w).
Definition set_tasks x w := mkWorld (w_plan w) (w_disp w) (w_gate w) (w_life w) (w_reg w)
  (w_vs w) (w_rm w) (w_uuts w) (w_bps w) (w_injector w) (w_adaptive w) (w_snapshot w)
  (w_bus w) x (w_os w).

Definition set_notified x d := mkDisp x (pending_dispatch d) (last_dispatch_time d)
  (affinity_claims d) (consecutive_no_progress d).
Definition set_pending_dispatch x d := mkDisp (notified_ready d) x (last_dispatch_time d)
  (affinity_claims d) (consecutive_no_progress d).
Definition set_dispatch_time x d := mkDisp (notified_ready d) (pending_dispatch d) x
  (affinity_claims d) (consecutive_no_progress d).
Definition set_claims x d := mkDisp (notified_ready d) (pending_dispatch d)
  (last_dispatch_time d) x (consecutive_no_progress d).

Definition on_disp (f : Disp → Disp) : M World unit := modify (λ w, set_disp (f (w_disp w)) w).
Definition on_gate (f : Gate → Gate) : M World unit := modify (λ w, set_gate (f (w_gate w)) w).
Definition on_reg {A} (m : M StepRegistry A) : M World A := zoom w_reg set_reg m.

(** [self._registry.update_status(...)], which publishes through [publish_sync]. *)
Definition reg_update (step_id : string) (st : StepStatus) : M World unit :=
  zoom (λ w, (w_reg w, w_bus w)) (λ p w, set_reg p.1 (set_bus p.2 w))
    (update_status step_id st).

(** [await self._event_bus.publish(...)]: the queue is unbounded, it never waits. *)
Definition bus_pub (t : EventType) (d : EventData) : M World unit :=
  modify (λ w, set_bus (publish t d (w_bus w)) w).

(** [try: update_status(...) except KeyError: register(...); update_status(...)] *)
Definition update_or_register (step_id : string) (st : StepStatus) : M World unit :=
  try_except (reg_update step_id st)
    (λ e, match e with
          | KeyError _ => Some (on_reg (register step_id None None) ;;; reg_update step_id st)
          | _ => None
          end).
End state.


(** ** Registration of the plan *)

Section registration.
Context {E : SchedulerEnv}.

(** [self._dependency_index.setdefault(key, set()).add(step_id)] *)
Definition index_add (step_id key : string) (idx : pydict string (gset string)) :
    pydict string (gset string) :=
  <[key := {[ step_id ]} ∪ get_default key ∅ idx]> idx.

(** What a condition depends on: a step, the variables its expression refers to,
    resources. *)
Definition condition_keys (c : Condition) : list string :=
  option_list (cond_step c)
  ++ match cond_expression c with Some e => find_refs 0 e | None => [] end
  ++ default [] (cond_resource_available c).

Definition index_step (idx : pydict string (gset string))
    (sc : string * option Condition) : pydict string (gset string) :=
  match sc.2 with
  | None => idx
  | Some c => foldl (λ idx k, index_add sc.1 k idx) idx (condition_keys c)
  end.

Definition build_index (steps : list (string * option Condition)) :
    pydict string (gset string) := foldl index_step ∅ steps.

Definition set_index idx p := mkPlan idx (skip_conditions p) (adaptive_skip_conditions p)
  (uut_affinities p) (barrier_steps p) (barrier_default_timeout p) (step_positions p).
Definition set_affinities a p := mkPlan (dependency_index p) (skip_conditions p)
  (adaptive_skip_conditions p) a (barrier_steps p) (barrier_default_timeout p)
  (step_positions p).

Definition compile_plan (steps : list (string * option Condition)) (w : World) : World :=
  set_plan (set_index (build_index steps) (w_plan w)) w.

Definition register_skip_conditions (s : pydict string (string * option string))
    (w : World) : World :=
  let p := w_plan w in
  set_plan (mkPlan (dependency_index p) s (adaptive_skip_conditions p) (uut_affinities p)
              (barrier_steps p) (barrier_default_timeout p) (step_positions p)) w.
Definition register_adaptive_skip_conditions (s : pydict string SkipConditions)
    (w : World) : World :=
  let p := w_plan w in
  set_plan (mkPlan (dependency_index p) (skip_conditions p) s (uut_affinities p)
              (barrier_steps p) (barrier_default_timeout p) (step_positions p)) w.
Definition register_step_hierarchy (positions : pydict string StepPosition)
    (w : World) : World :=
  let p := w_plan w in
  set_plan (mkPlan (dependency_index p) (skip_conditions p) (adaptive_skip_conditions p)
              (uut_affinities p) (barrier_steps p) (barrier_default_timeout p) positions) w.

(** [affinity and affinity != "any"] *)
Definition bound_affinity (a : string) : bool := negb (str_in a [""; "any"]).

Definition sorted_repr (l : list string) : string :=
  repr_strs (py_sorted l).

Definition register_uut_affinities (affinities : pydict string string) : M World unit :=
  w <- get ;;
  match w_uuts w with
  | None => ret tt
  | Some m =>
      let known := mgr_uut_ids m in
      for_each (items affinities) (λ '(step_id, affinity),
        if bound_affinity affinity && negb (str_in affinity known) then
          raise (ValueError ("Step '" +:+ step_id +:+ "' declares uut_affinity '"
                   +:+ affinity +:+ "' but no such UUT exists in the pool "
                   +:+ sorted_repr known))
        else ret tt)
  end ;;;
  modify (λ w, set_plan (set_affinities (dict_update (uut_affinities (w_plan w)) affinities)
                           (w_plan w)) w).

Definition register_barrier_steps (barriers : pydict string string) (default_timeout : Z) :
    M World unit :=
  for_each (items barriers) (λ '(step_id, name),
    if is_blank name then
      raise (ValueError ("Step '" +:+ step_id +:+ "' declares an empty barrier_name"))
    else ret tt) ;;;
  modify (λ w, let p := w_plan w in
    set_plan (mkPlan (dependency_index p) (skip_conditions p) (adaptive_skip_conditions p)
                (uut_affinities p) barriers default_timeout (step_positions p)) w).

(** ** Affinity of steps to units *)

Definition can_schedule (w : World) (step_id : string) : bool :=
  match uut_affinities (w_plan w) !! step_id with
  | None => true
  | Some affinity =>
      if negb (bound_affinity affinity) then true
      else
        match w_uuts w with
        | None => true
        | Some manager =>
            match mgr_get manager affinity with
            | None => true
            | Some uut =>
                if busy uut then false
                else match affinity_claims (w_disp w) !! affinity with
                     | None => true
                     | Some occupant => bool_decide (occupant = step_id)
                     end
            end
        end
  end.

Definition claim_uut (step_id : string) : M World unit :=
  w <- get ;;
  match uut_affinities (w_plan w) !! step_id, w_uuts w with
  | Some affinity, Some _ =>
      when bound_affinity affinity do
        on_disp (λ d, set_claims (set_default affinity step_id (affinity_claims d)) d)
  | _, _ => ret tt
  end.

Definition release_uut_claim (step_id : string) : M World unit :=
  w <- get ;;
  match uut_affinities (w_plan w) !! step_id with
  | Some affinity =>
      when bound_affinity affinity
           && bool_decide (affinity_claims (w_disp w) !! affinity = Some step_id) do
        on_disp (λ d, set_claims (delete affinity (affinity_claims d)) d)
  | None => ret tt
  end.

(** ** Pause, resume, single steps *)

Definition set_paused p ev g := mkGate p ev (force_next_pending g) (step_mode g)
  (step_mode_target g) (step_mode_origin g) (last_dispatched_step g).
Definition set_force f g := mkGate (paused g) (pause_event g) f (step_mode g)
  (step_mode_target g) (step_mode_origin g) (last_dispatched_step g).
Definition set_mode m t o g := mkGate (paused g) (pause_event g) (force_next_pending g) m t o
  (last_dispatched_step g).
Definition set_last s g := mkGate (paused g) (pause_event g) (force_next_pending g)
  (step_mode g) (step_mode_target g) (step_mode_origin g) s.

(** [self._pause_event.set()]: every waiting task becomes runnable. *)
Definition wake_phase (ph : wait_phase) : wait_phase :=
  match ph with Waiting => Woken | _ => ph end.
Definition wake (t : task) : task :=
  match t with
  | TDispatch s ph => TDispatch s (wake_phase ph)
  | THeld s ph => THeld s (wake_phase ph)
  | _ => t
  end.
Definition open_gate (w : World) : World :=
  set_tasks (wake <$> w_tasks w) (set_gate (set_paused false true (w_gate w)) w).

Definition pause : M World unit := on_gate (set_paused true false).
Definition consume_step_mode : M World unit := on_gate (set_mode None None None).
Definition resume : M World unit := modify open_gate ;;; consume_step_mode.
Definition force_next : M World unit := on_gate (set_force true).

Definition arm_step_mode (mode : string) (target_step_id : option string) : M World unit :=
  if negb (str_in mode STEP_MODES) then
    raise (ValueError ("unknown step mode " +:+ repr_str mode +:+ " — expected one of "
             +:+ "('over', 'into', 'out', 'run_to_cursor')"))
  else
    on_gate (λ g, set_mode (Some mode) target_step_id (last_dispatched_step g) g) ;;;
    modify open_gate.

Definition should_pause_for_step_mode (w : World) (step_id : string) : bool :=
  match step_mode (w_gate w) with
  | None => false
  | Some mode =>
      if decide (mode = "run_to_cursor") then
        bool_decide (step_mode_target (w_gate w) = Some step_id)
      else
        let positions := step_positions (w_plan w) in
        match step_mode_origin (w_gate w) ≫= (λ o, positions !! o), positions !! step_id with
        | Some origin, Some candidate =>
            let later_sibling := bool_decide (pos_parent candidate = pos_parent origin)
                                 && (pos_order origin <? pos_order candidate)%Z in
            if decide (mode = "over") then later_sibling
            else if decide (mode = "into") then
              (pos_depth origin <? pos_depth candidate)%Z || later_sibling
            else if decide (mode = "out") then (pos_depth candidate <? pos_depth origin)%Z
            else false
        | _, _ => true
        end
  end.

Inductive gate_result : Type := GateDispatch | GatePaused | StepModeStop | PausedAtBreakpoint.

Definition gate_before_dispatch (step_id : string) : M World gate_result :=
  w <- get ;;
  if paused (w_gate w) then ret GatePaused
  else if should_pause_for_step_mode w step_id then
    consume_step_mode ;;; pause ;;; ret StepModeStop
  else
    match w_bps w with
    | None => ret GateDispatch
    | Some engine =>
        let snapshot := build_variable_snapshot (Some (w_vs w)) in
        let '(hit, engine') := check_step_bp simple_eval_names step_id snapshot engine in
        modify (set_bps (Some engine')) ;;;
        match hit with
        | None => ret GateDispatch
        | Some bp =>
            bus_pub BREAKPOINT_HIT
              (BreakpointHitData (bp_id bp) (bp_kind bp) (bp_target bp) step_id snapshot) ;;;
            pause ;;; ret PausedAtBreakpoint
        end
    end.

(** ** Skip rules *)

Definition evaluate_skip_expression (w : World) (expression : string) : bool :=
  evaluate_skip_condition simple_eval
    (new_evaluator (status_results (w_reg w)) (Some (w_rm w)) (Some (w_vs w)))
    (os_now (w_os w)) expression.

(** The configured [skip_if], when it is set and not empty. *)
Definition config_skip_if (w : World) (step_id : string) : option string :=
  match (get_config step_id (w_reg w)).1 with
  | Ok config => match skip_if config with
                 | Some e => if decide (e = "") then None else Some e
                 | None => None
                 end
  | Raise _ => None
  end.

Definition adaptive_rule (w : World) (step_id : string) :
    option (AdaptiveEvaluator * SkipConditions) :=
  match adaptive_skip_conditions (w_plan w) !! step_id, w_adaptive w with
  | Some c, Some a => Some (a, c)
  | _, _ => None
  end.

(** The basic rules, which never raise. *)
Definition basic_skip (w : World) (step_id : string) : bool :=
  match skip_conditions (w_plan w) !! step_id with
  | Some (skip_expr, _) => evaluate_skip_expression w skip_expr
  | None =>
      match config_skip_if w step_id with
      | Some e => evaluate_skip_expression w e
      | None => false
      end
  end.

(** [_evaluate_step_skip]: the adaptive evaluator may raise. *)
Definition evaluate_step_skip (w : World) (step_id : string) : res bool :=
  match adaptive_rule w step_id with
  | Some (a, c) =>
      skip ← should_skip a (status_results (w_reg w)) (w_vs w) c;
      Ok (skip || basic_skip w step_id)
  | None => Ok (basic_skip w step_id)
  end.

(** A string that counts as true. *)
Definition nonempty (o : option string) : option string :=
  match o with Some s => if decide (s = "") then None else Some s | None => None end.

(** The reason of the basic rules. *)
Definition basic_reason (w : World) (step_id : string) : string :=
  match skip_conditions (w_plan w) !! step_id with
  | Some (skip_expr, skip_reason) =>
      default ("skip_if: " +:+ skip_expr) (nonempty skip_reason)
  | None =>
      match config_skip_if w step_id with
      | Some e => "skip_if: " +:+ e
      | None => "Adaptive skip condition met"
      end
  end.

(** [_get_skip_reason] *)
Definition get_skip_reason (w : World) (step_id : string) : res string :=
  match adaptive_rule w step_id with
  | Some (a, c) =>
      reason ← skip_reason_of a (status_results (w_reg w)) (w_vs w) c;
      Ok (default (basic_reason w step_id) (nonempty reason))
  | None => Ok (basic_reason w step_id)
  end.
End registration.

(** ** Step results *)

Section results.
Context {E : SchedulerEnv}.

Definition execution_aborted (step_id : string) (failed_status : StepStatus) : exc :=
  ExecutionAborted ("Step '" +:+ step_id +:+ "' settled " +:+ status_value failed_status
                    +:+ " with on_failure=abort").

Definition settle_terminal_failure (step_id : string) (config : StepExecutionConfig)
    (failed_status : StepStatus) : M World unit :=
  if decide (on_failure config = "abort") then
    reg_update step_id failed_status ;;;
    raise (execution_aborted step_id failed_status)
  else if decide (on_failure config = "skip") then reg_update step_id SKIPPED
  else reg_update step_id failed_status.

(** [handle_step_result]: the Boolean it returns, and the milliseconds it sleeps
    just before returning. *)
Definition handle_step_result (step_id : string) (status : StepStatus) :
    M World (bool * Z) :=
  w <- get ;;
  match (get_config step_id (w_reg w)).1 with
  | Raise _ => ret (false, 0%Z)
  | Ok config =>
      match status with
      | ERROR =>
          retries <- on_reg (get_retry_count step_id) ;;
          if (0 <? max_retries config)%Z && (retries <? max_retries config)%Z then
            on_reg (increment_retry_count step_id) ;;;
            reg_update step_id PENDING ;;;
            ret (true, Z.max 0 (retry_delay_ms config))
          else
            settle_terminal_failure step_id config ERROR ;;; ret (false, 0%Z)
      | FAILED =>
          if negb (repeat_on_measurement_fail config) then
            settle_terminal_failure step_id config FAILED ;;; ret (false, 0%Z)
          else
            repeats <- on_reg (get_repeat_count step_id) ;;
            if force_repeat config || (repeat_limit config =? 0)%Z
               || (repeats <? repeat_limit config)%Z then
              on_reg (increment_repeat_count step_id) ;;;
              reg_update step_id PENDING ;;;
              ret (true, 0%Z)
            else
              settle_terminal_failure step_id config FAILED ;;; ret (false, 0%Z)
      | PASSED =>
          on_reg (reset_retry_count step_id) ;;;
          on_reg (reset_repeat_count step_id) ;;;
          ret (false, 0%Z)
      | _ => ret (false, 0%Z)
      end
  end.

(** A fault injected before a dispatch fails the step; true if one fired. *)
Definition check_scheduler_fault (step_id : string) : M World bool :=
  w <- get ;;
  match w_injector w with
  | None => ret false
  | Some injector =>
      let '(fault, injector') := check_scheduler_raise step_id injector in
      modify (set_injector (Some injector')) ;;;
      match fault with
      | None => ret false
      | Some msg =>
          update_or_register step_id FAILED ;;;
          bus_pub STEP_FAILED (StepFailedData step_id (Some msg)) ;;;
          handle_step_result step_id FAILED ;;;
          ret true
      end
  end.

(** ** Reactive dispatch requests *)

(** Can [_schedule_dispatch_for_key] hand a coroutine to a loop? *)
Definition can_spawn (b : EventBus) : bool :=
  (eb_loop b && env_loop_running b) || env_in_loop b.

Definition spawn (t : task) : M World unit := modify (λ w, set_tasks (w_tasks w ++ [t]) w).
Definition discard_pending (step_id : string) : M World unit :=
  on_disp (λ d, set_pending_dispatch (pending_dispatch d ∖ {[ step_id ]}) d).

(** One dependent step. *)
Definition schedule_dispatch (step_id : string) : M World unit :=
  w <- get ;;
  if bool_decide (step_id ∈ notified_ready (w_disp w))
     || bool_decide (step_id ∈ pending_dispatch (w_disp w)) then ret tt
  else
    on_disp (λ d, set_pending_dispatch ({[ step_id ]} ∪ pending_dispatch d) d) ;;;
    if can_spawn (w_bus w) then spawn (TDispatch step_id NotStarted)
    else discard_pending step_id.

(** The dependents are a Python set: its iteration order is an accident, here the
    order [elements] picks. *)
Definition schedule_dispatch_for_key (source_key : string) : M World unit :=
  w <- get ;;
  for_each (elements (get_default source_key ∅ (dependency_index (w_plan w))))
    schedule_dispatch.

Definition handle_step_skipped (step_id reason : string) : M World unit :=
  update_or_register step_id SKIPPED ;;;
  w <- get ;;
  on_disp (λ d, set_dispatch_time (os_now (w_os w))
                  (set_notified (notified_ready d ∖ {[ step_id ]}) d)) ;;;
  bus_pub STEP_SKIPPED (StepSkippedData step_id (Some reason)) ;;;
  schedule_dispatch_for_key step_id.

(** ** Barrier steps *)

(** What the task does next: it is finished with the barrier, or waits for one
    thread per idle unit. *)
Inductive barrier_start : Type := BarrierDone | BarrierWait (name : string) (idle : list string).

Definition barrier_error (name : string) (missing : gset string) : string :=
  "Barrier '" +:+ name +:+ "' timeout: missing " +:+ sorted_repr (elements missing).

(** The units the barrier failed to gather; a unit already FAILED keeps its error. *)
Definition fail_missing (name uid : string) (m : UUTManager) : UUTManager :=
  alter_uut (λ u, if bool_decide (uut_state u = UUT_FAILED) then u
                  else with_error ("Barrier '" +:+ name +:+ "' timeout") (finish false u)) uid m.

(** After the gather: [missing] is the union over the threads' results. *)
Definition barrier_settle (step_id name : string) (missing : gset string) : M World unit :=
  if decide (missing = ∅) then
    reg_update step_id PASSED ;;; handle_step_result step_id PASSED ;;; ret tt
  else
    modify (λ w, set_mgr ((λ m, foldl (λ m uid, fail_missing name uid m) m
                            (merge_sort String.le (elements missing))) <$> w_uuts w) w) ;;;
    update_or_register step_id FAILED ;;;
    bus_pub STEP_FAILED (StepFailedData step_id (Some (barrier_error name missing))) ;;;
    handle_step_result step_id FAILED ;;;
    ret tt.

Definition run_barrier_step (step_id : string) : M World barrier_start :=
  w <- get ;;
  match w_uuts w, nonempty (barrier_steps (w_plan w) !! step_id) with
  | Some manager, Some barrier_name =>
      let is_busy uid := default false (busy <$> mgr_get manager uid) in
      let idle_ids := base.filter (λ uid, is_busy uid = false) (mgr_uut_ids manager) in
      match idle_ids with
      | [] => barrier_settle step_id barrier_name (list_to_set (mgr_uut_ids manager)) ;;;
              ret BarrierDone
      | _ => ret (BarrierWait barrier_name idle_ids)
      end
  | _, _ =>
      reg_update step_id PASSED ;;; handle_step_result step_id PASSED ;;; ret BarrierDone
  end.

(** ** Alarms *)

(** The blocked resources of a list, and the distinct owners that hold them, in
    order. *)
Definition blocked_by (locks : pydict string string) (required : list string) :
    list string * list string :=
  foldl (λ '(blocked, holding) r,
    match locks !! r with
    | Some owner =>
        (blocked ++ [r], if bool_decide (owner ∈ holding) then holding else holding ++ [owner])
    | None => (blocked, holding)
    end) ([], []) required.

Definition check_pool_exhaustion (condition : option Condition) : M World unit :=
  w <- get ;;
  if negb (os_saturated (w_os w)) then ret tt
  else
    let required := default [] (condition ≫= cond_resource_available) in
    let '(blocked_resources, holding_workers) :=
      blocked_by (get_active_locks (w_rm w)) required in
    match blocked_resources with
    | [] => ret tt
    | _ => bus_pub WORKER_EXHAUSTED
             (WorkerExhaustedData (os_active (w_os w)) (os_max (w_os w))
                blocked_resources holding_workers)
    end.

Definition handle_potential_deadlock : M World unit :=
  w <- get ;;
  let pending_steps := (base.filter (λ kv, kv.2 = PENDING) (items (sr_steps (w_reg w)))).*1 in
  on_disp (λ d, mkDisp (notified_ready d) (pending_dispatch d) (last_dispatch_time d)
                  (affinity_claims d) 0) ;;;
  w' <- get ;;
  bus_pub DEADLOCK_DETECTED
    (DeadlockDetectedData pending_steps (consecutive_no_progress (w_disp w'))).
End results.

(** ** Lemmas *)

Section lemmas.
Context {E : SchedulerEnv}.

Lemma index_add_lookup s k idx s' k' :
  s' ∈ get_default k' ∅ (index_add s k idx)
  ↔ (s' = s ∧ k' = k) ∨ s' ∈ get_default k' ∅ idx.
Proof.
  unfold index_add. rewrite get_default_insert. case_decide; set_solver.
Qed.

Lemma index_keys_lookup s ks idx s' k' :
  s' ∈ get_default k' ∅ (foldl (λ idx k, index_add s k idx) idx ks)
  ↔ (s' = s ∧ k' ∈ ks) ∨ s' ∈ get_default k' ∅ idx.
Proof.
  revert idx. induction ks as [|k ks IH]; intros idx; cbn [foldl]; [set_solver|].
  rewrite IH, index_add_lookup. set_solver.
Qed.

Lemma build_index_lookup steps idx s k :
  s ∈ get_default k ∅ (foldl index_step idx steps)
  ↔ (∃ c, (s, Some c) ∈ steps ∧ k ∈ condition_keys c) ∨ s ∈ get_default k ∅ idx.
Proof.
  revert idx. induction steps as [|[s' [c|]] steps IH]; intros idx; cbn [foldl].
  - set_solver.
  - rewrite IH. unfold index_step; cbn. rewrite index_keys_lookup.
    split; [|set_solver]. intros [?|[[-> ?]|?]]; [set_solver|left; exists c; set_solver|by right].
  - rewrite IH. unfold index_step; cbn. set_solver.
Qed.

Lemma reg_update_registered i st w :
  i ∈ keys (sr_steps (w_reg w)) →
  ∃ b, reg_update i st w
       = (Ok tt, set_reg (set_status_dict (<[i := st]> (sr_steps (w_reg w))) (w_reg w))
                   (set_bus b w)).
Proof.
  intros Hi. unfold reg_update, zoom, update_status. apply elem_of_keys in Hi as [old Ho].
  rewrite Ho. eauto.
Qed.
End lemmas.

Section matrix.
Context {E : SchedulerEnv}.

(** The decision matrix of [handle_step_result], as data. *)
Inductive verdict : Type :=
  | Retry (delay : Z)             (* ERROR with attempts left *)
  | Repeat                        (* FAILED, repetition wanted *)
  | Settle (st : StepStatus)      (* retries or repetitions exhausted *)
  | ResetCounters                 (* PASSED *)
  | NoDecision.

Definition judge (config : StepExecutionConfig) (retries repeats : Z) (status : StepStatus) :
    verdict :=
  match status with
  | ERROR => if decide (retries < max_retries config)%Z
             then Retry (Z.max 0 (retry_delay_ms config)) else Settle ERROR
  | FAILED =>
      if repeat_on_measurement_fail config
         && (force_repeat config || bool_decide (repeat_limit config = 0%Z)
             || bool_decide (repeats < repeat_limit config)%Z)
      then Repeat else Settle FAILED
  | PASSED => ResetCounters
  | _ => NoDecision
  end.

Definition settled_status (config : StepExecutionConfig) (st : StepStatus) : StepStatus :=
  if decide (on_failure config = "skip") then SKIPPED else st.

(** What a verdict makes of the result, the status and the two counters. *)
Definition obeys (v : verdict) (config : StepExecutionConfig) (i : string)
    (w w' : World) (r : res (bool * Z)) : Prop :=
  let retries := get_default i 0%Z (sr_retry_counts (w_reg w)) in
  let repeats := get_default i 0%Z (sr_repeat_counts (w_reg w)) in
  let retries' := get_default i 0%Z (sr_retry_counts (w_reg w')) in
  let repeats' := get_default i 0%Z (sr_repeat_counts (w_reg w')) in
  let status' := sr_steps (w_reg w') !! i in
  match v with
  | Retry delay => r = Ok (true, delay) ∧ status' = Some PENDING
                   ∧ retries' = (retries + 1)%Z ∧ repeats' = repeats
  | Repeat => r = Ok (true, 0%Z) ∧ status' = Some PENDING
              ∧ retries' = retries ∧ repeats' = (repeats + 1)%Z
  | Settle st =>
      r = (if decide (on_failure config = "abort") then Raise (execution_aborted i st)
           else Ok (false, 0%Z))
      ∧ status' = Some (settled_status config st) ∧ retries' = retries ∧ repeats' = repeats
  | ResetCounters => r = Ok (false, 0%Z) ∧ status' = sr_steps (w_reg w) !! i
                     ∧ retries' = 0%Z ∧ repeats' = 0%Z
  | NoDecision => r = Ok (false, 0%Z) ∧ w' = w
  end.

(** Worlds that agree on everything but one step's registry entry and the bus. *)
Definition same_but (i : string) (w w' : World) : Prop :=
  w' = set_reg (w_reg w') (set_bus (w_bus w') w)
  ∧ (∀ j, j ≠ i → sr_steps (w_reg w') !! j = sr_steps (w_reg w) !! j
          ∧ sr_retry_counts (w_reg w') !! j = sr_retry_counts (w_reg w) !! j
          ∧ sr_repeat_counts (w_reg w') !! j = sr_repeat_counts (w_reg w) !! j)
  ∧ sr_configs (w_reg w') = sr_configs (w_reg w)
  ∧ sr_conditions (w_reg w') = sr_conditions (w_reg w)
  ∧ keys (sr_steps (w_reg w')) = keys (sr_steps (w_reg w)).
End matrix.

Section results_lemmas.
Context {E : SchedulerEnv}.

Lemma set_reg_same w : set_reg (w_reg w) w = w.
Proof. by destruct w. Qed.

Lemma same_but_refl i w : same_but i w w.
Proof. split_and!; try done. by destruct w. Qed.

Lemma same_but_trans i w1 w2 w3 : same_but i w1 w2 → same_but i w2 w3 → same_but i w1 w3.
Proof.
  intros (H1 & H2 & H3 & H4 & H5) (G1 & G2 & G3 & G4 & G5). split_and!; try congruence.
  - rewrite G1, H1. by destruct w1.
  - intros j Hj. destruct (H2 j Hj) as (? & ? & ?), (G2 j Hj) as (? & ? & ?).
    split_and!; congruence.
Qed.

Lemma reg_update_same_but i st w :
  i ∈ keys (sr_steps (w_reg w)) →
  ∃ w', reg_update i st w = (Ok tt, w') ∧ same_but i w w'
    ∧ sr_steps (w_reg w') !! i = Some st
    ∧ sr_retry_counts (w_reg w') = sr_retry_counts (w_reg w)
    ∧ sr_repeat_counts (w_reg w') = sr_repeat_counts (w_reg w).
Proof.
  intros Hi. destruct (reg_update_registered i st w Hi) as [b ->]. eexists; split; [done|].
  cbn. split_and!; try done.
  - split; [by destruct w|]. split_and!; try done.
    + intros j Hj. cbn. by rewrite dict_lookup_insert_ne.
    + cbn. apply keys_insert_Some, elem_of_keys, Hi.
  - by rewrite dict_lookup_insert_eq.
Qed.

(** A counter update of a registered step: [up] writes the counters. *)
Lemma on_reg_get {A} (f : StepRegistry → A) i w :
  i ∈ keys (sr_steps (w_reg w)) → on_reg (require i (gets f)) w = (Ok (f (w_reg w)), w).
Proof.
  intros Hi. unfold on_reg, zoom. rewrite require_ok by done. cbn. by rewrite set_reg_same.
Qed.

Lemma on_reg_increment {A} (up : StepRegistry → StepRegistry) (f : StepRegistry → A) i w :
  i ∈ keys (sr_steps (w_reg w)) →
  on_reg (require i (modify up ;;; gets f)) w = (Ok (f (up (w_reg w))), set_reg (up (w_reg w)) w).
Proof. intros Hi. unfold on_reg, zoom. by rewrite require_ok. Qed.

Lemma on_reg_modify (up : StepRegistry → StepRegistry) i w :
  i ∈ keys (sr_steps (w_reg w)) →
  on_reg (require i (modify up)) w = (Ok tt, set_reg (up (w_reg w)) w).
Proof. intros Hi. unfold on_reg, zoom. by rewrite require_ok. Qed.

Lemma set_retries_same_but i n w :
  same_but i w (set_reg (set_retries (<[i := n]> (sr_retry_counts (w_reg w))) (w_reg w)) w).
Proof. split_and!; try done. intros j Hj. cbn. by rewrite dict_lookup_insert_ne. Qed.
Lemma set_repeats_same_but i n w :
  same_but i w (set_reg (set_repeats (<[i := n]> (sr_repeat_counts (w_reg w))) (w_reg w)) w).
Proof. split_and!; try done. intros j Hj. cbn. by rewrite dict_lookup_insert_ne. Qed.

(** Settling a registered step. *)
Lemma settle_spec i config st w :
  i ∈ keys (sr_steps (w_reg w)) →
  ∃ w', (settle_terminal_failure i config st ;;; ret (false, 0%Z)) w
        = (if decide (on_failure config = "abort") then Raise (execution_aborted i st)
           else Ok (false, 0%Z), w')
    ∧ same_but i w w'
    ∧ sr_steps (w_reg w') !! i = Some (settled_status config st)
    ∧ sr_retry_counts (w_reg w') = sr_retry_counts (w_reg w)
    ∧ sr_repeat_counts (w_reg w') = sr_repeat_counts (w_reg w).
Proof.
  intros Hi. destruct (reg_update_same_but i (settled_status config st) w Hi)
    as (w' & Hu & Hs & Hst & Hr & Hp). exists w'. split_and!; try done.
  unfold settle_terminal_failure, settled_status in *.
  destruct (decide (on_failure config = "abort")) as [Ha|Ha].
  - rewrite decide_False in Hu by (rewrite Ha; done). unfold bind. by rewrite Hu.
  - revert Hu. case_decide; intros Hu; unfold bind; by rewrite Hu.
Qed.

(** Increment a counter, then go back to PENDING. *)
Lemma again_spec {A B} (up : StepRegistry → StepRegistry) (f : StepRegistry → A) (x : B) i w :
  i ∈ keys (sr_steps (w_reg w)) → sr_steps (up (w_reg w)) = sr_steps (w_reg w) →
  same_but i w (set_reg (up (w_reg w)) w) →
  ∃ w', (on_reg (require i (modify up ;;; gets f)) ;;; reg_update i PENDING ;;; ret x) w
        = (Ok x, w')
    ∧ same_but i w w' ∧ sr_steps (w_reg w') !! i = Some PENDING
    ∧ sr_retry_counts (w_reg w') = sr_retry_counts (up (w_reg w))
    ∧ sr_repeat_counts (w_reg w') = sr_repeat_counts (up (w_reg w)).
Proof.
  intros Hi Hup Hsame. rewrite (bind_ok _ _ _ _ _ (on_reg_increment up f i w Hi)).
  destruct (reg_update_same_but i PENDING (set_reg (up (w_reg w)) w)) as (w' & Hu & Hs & Hst & Hr & Hp).
  { cbn. by rewrite Hup. }
  rewrite (bind_ok _ _ _ _ _ Hu).
  exists w'. split_and!; try done. by eapply same_but_trans.
Qed.

Lemma handle_step_result_spec i status w :
  (0 ≤ get_default i 0 (sr_retry_counts (w_reg w)))%Z → i ∈ keys (sr_steps (w_reg w)) →
  let '(r, w') := handle_step_result i status w in
  obeys (judge (get_default i default_config (sr_configs (w_reg w)))
           (get_default i 0%Z (sr_retry_counts (w_reg w)))
           (get_default i 0%Z (sr_repeat_counts (w_reg w))) status)
    (get_default i default_config (sr_configs (w_reg w))) i w w' r
  ∧ same_but i w w'.
Proof.
  intros Hn Hi. unfold handle_step_result, get_config.
  unfold bind at 1, get at 1. rewrite require_ok by done. cbn [fst gets].
  set (config := get_default i default_config (sr_configs (w_reg w))).
  destruct status; cbn [judge obeys].
  1, 2, 5: by (split; [split|apply same_but_refl]).
  - (* PASSED *)
    unfold reset_retry_count, reset_repeat_count.
    rewrite (bind_ok _ _ _ _ _ (on_reg_modify _ i w Hi)).
    erewrite bind_ok by (apply on_reg_modify; exact Hi).
    cbn. split; [split_and!; try done; by rewrite get_default_insert, decide_True|].
    eapply same_but_trans; [apply (set_retries_same_but i 0)|].
    match goal with |- same_but _ ?w1 _ => exact (set_repeats_same_but i 0 w1) end.
  - (* FAILED *)
    destruct (repeat_on_measurement_fail config); cbn [negb andb].
    2: { destruct (settle_spec i config FAILED w Hi) as (w' & -> & ? & ? & ? & ?).
         split; [|done]. cbn. split_and!; congruence. }
    unfold get_repeat_count. rewrite (bind_ok _ _ _ _ _ (on_reg_get _ i w Hi)).
    assert ((force_repeat config || bool_decide (repeat_limit config = 0%Z)
       || bool_decide (get_default i 0 (sr_repeat_counts (w_reg w)) < repeat_limit config)%Z)
      = (force_repeat config || (repeat_limit config =? 0)%Z
         || (get_default i 0 (sr_repeat_counts (w_reg w)) <? repeat_limit config)%Z)) as ->.
    { f_equal; [f_equal|]; apply eq_true_iff_eq; rewrite ?bool_decide_eq_true; lia. }
    destruct (_ || _).
    + destruct (again_spec (λ s, set_repeats (<[i := (get_default i 0 (sr_repeat_counts s) + 1)%Z]>
        (sr_repeat_counts s)) s) (λ s, get_default i 0%Z (sr_repeat_counts s)) (true, 0%Z) i w)
        as (w' & Hw & ? & ? & Hr & Hp); [done|done|apply set_repeats_same_but|].
      unfold increment_repeat_count. rewrite Hw. cbn. rewrite Hr, Hp. cbn.
      split_and!; try done. by rewrite get_default_insert, decide_True.
    + destruct (settle_spec i config FAILED w Hi) as (w' & -> & ? & ? & ? & ?).
      split; [|done]. cbn. split_and!; congruence.
  - (* ERROR *)
    unfold get_retry_count. rewrite (bind_ok _ _ _ _ _ (on_reg_get _ i w Hi)).
    case_decide as Hlt.
    + replace (_ && _) with true by lia.
      destruct (again_spec (λ s, set_retries (<[i := (get_default i 0 (sr_retry_counts s) + 1)%Z]>
        (sr_retry_counts s)) s) (λ s, get_default i 0%Z (sr_retry_counts s))
        (true, Z.max 0 (retry_delay_ms config)) i w)
        as (w' & Hw & ? & ? & Hr & Hp); [done|done|apply set_retries_same_but|].
      unfold increment_retry_count. rewrite Hw. cbn. rewrite Hr, Hp. cbn.
      split_and!; try done. by rewrite get_default_insert, decide_True.
    + replace (_ && _) with false by lia.
      destruct (settle_spec i config ERROR w Hi) as (w' & -> & ? & ? & ? & ?).
      split; [|done]. cbn. split_and!; congruence.
Qed.
End results_lemmas.

(** ** Properties *)

Section properties.
Context {E : SchedulerEnv}.

(** C2. The decision matrix of step results: for a registered step with a
    non-negative retry counter, [handle_step_result] does what the matrix says (an
    ERROR is retried while attempts are left, with its delay; a FAILED is repeated by
    policy; otherwise the step settles on its status, on SKIPPED for the policy
    "skip", or raises ExecutionAborted after settling for "abort"; a PASSED resets
    both counters; other statuses change nothing), it touches no other step and
    nothing outside the registry and the bus; for an unregistered step it returns
    False and changes nothing. *)
Theorem handle_step_result_matrix (i : string) (status : StepStatus) (w : World)
    (Hn : (0 ≤ get_default i 0 (sr_retry_counts (w_reg w)))%Z) :
  let '(r, w') := handle_step_result i status w in
  match sr_steps (w_reg w) !! i with
  | None => r = Ok (false, 0%Z) ∧ w' = w
  | Some _ =>
      let config := get_default i default_config (sr_configs (w_reg w)) in
      obeys (judge config (get_default i 0%Z (sr_retry_counts (w_reg w)))
               (get_default i 0%Z (sr_repeat_counts (w_reg w))) status) config i w w' r
      ∧ same_but i w w'
  end.
Proof.
  destruct (sr_steps (w_reg w) !! i) as [st|] eqn:Ei.
  - apply handle_step_result_spec; [done|]. apply elem_of_keys. eauto.
  - unfold handle_step_result, get_config, bind, get. rewrite require_raise; [done|].
    by apply not_elem_of_keys.
Qed.

(** [n] results in a row of the same status: the answers, until an exception. *)
Fixpoint feed (n : nat) (i : string) (status : StepStatus) (w : World) : list bool * World :=
  match n with
  | O => ([], w)
  | S n' =>
      match handle_step_result i status w with
      | (Ok (again, _), w1) => let '(l, w2) := feed n' i status w1 in (again :: l, w2)
      | (Raise _, w1) => ([], w1)
      end
  end.

Lemma feed_errors n i : ∀ w (k : nat),
  i ∈ keys (sr_steps (w_reg w)) →
  (0 ≤ get_default i 0 (sr_retry_counts (w_reg w)))%Z →
  on_failure (get_default i default_config (sr_configs (w_reg w))) ≠ "abort" →
  k = Z.to_nat (max_retries (get_default i default_config (sr_configs (w_reg w)))
                - get_default i 0 (sr_retry_counts (w_reg w)))%Z →
  (feed n i ERROR w).1 = replicate (n `min` k) true ++ replicate (n - k) false.
Proof.
  induction n as [|n IH]; intros w k Hi Hn Ha Hk; [done|]. cbn [feed].
  pose proof (handle_step_result_spec i ERROR w Hn Hi) as H.
  destruct (handle_step_result i ERROR w) as [r w1].
  set (c := get_default i default_config (sr_configs (w_reg w))) in *.
  destruct H as [Hob (_ & _ & Hcfg & _ & Hkeys)]. cbn [judge] in Hob.
  assert (get_default i default_config (sr_configs (w_reg w1)) = c) as Hc by by rewrite Hcfg.
  assert (i ∈ keys (sr_steps (w_reg w1))) as Hi1 by by rewrite Hkeys.
  case_decide as Hlt; cbn [obeys] in Hob.
  - destruct Hob as (-> & _ & Hr & _). destruct k as [|k]; [lia|].
    specialize (IH w1 k). rewrite Hc, Hr in IH.
    specialize (IH Hi1 ltac:(lia) Ha ltac:(lia)).
    destruct (feed n i ERROR w1) as [l w2]. cbn in *. by rewrite IH.
  - destruct Hob as (-> & _ & Hr & _). rewrite decide_False by done.
    specialize (IH w1 0). rewrite Hc, Hr in IH.
    specialize (IH Hi1 Hn Ha ltac:(lia)).
    destruct (feed n i ERROR w1) as [l w2]. cbn in *.
    replace k with 0 by lia. rewrite IH. cbn. by rewrite Nat.min_0_r, Nat.sub_0_r.
Qed.

(** The retry budget: whatever the number of ERROR results reported for a step in
    a row, exactly the first [max_retries - retries used] of them are answered with
    "retry" and every later one settles the step, so that a failing step cannot be
    retried for ever. *)
Theorem retry_budget (n : nat) (i : string) (w : World)
    (Hi : i ∈ keys (sr_steps (w_reg w)))
    (Hn : (0 ≤ get_default i 0 (sr_retry_counts (w_reg w)))%Z)
    (Ha : on_failure (get_default i default_config (sr_configs (w_reg w))) ≠ "abort") :
  let budget := Z.to_nat (max_retries (get_default i default_config (sr_configs (w_reg w)))
                          - get_default i 0%Z (sr_retry_counts (w_reg w)))%Z in
  (feed n i ERROR w).1 = replicate (n `min` budget) true ++ replicate (n - budget) false.
Proof. by apply feed_errors. Qed.

(** The dependency index is exact: after [compile_plan], a step is listed under a
    key if and only if its own condition waits for that step, refers to that variable
    in its expression, or needs that resource; an earlier plan leaves no trace. *)
Theorem compile_plan_index (steps : list (string * option Condition)) (w : World)
    (i key : string) :
  i ∈ get_default key ∅ (dependency_index (w_plan (compile_plan steps w)))
  ↔ ∃ c, (i, Some c) ∈ steps
         ∧ (cond_step c = Some key
            ∨ (∃ e, cond_expression c = Some e ∧ key ∈ find_refs 0 e)
            ∨ (∃ l, cond_resource_available c = Some l ∧ key ∈ l)).
Proof.
  cbn. unfold build_index. rewrite build_index_lookup.
  assert (∀ c, key ∈ condition_keys c ↔ cond_step c = Some key
            ∨ (∃ e, cond_expression c = Some e ∧ key ∈ find_refs 0 e)
            ∨ (∃ l, cond_resource_available c = Some l ∧ key ∈ l)) as Hk.
  { intros c. unfold condition_keys. rewrite !elem_of_app.
    destruct (cond_step c), (cond_expression c), (cond_resource_available c);
      cbn; rewrite ?elem_of_nil, ?list_elem_of_singleton; naive_solver. }
  setoid_rewrite Hk. split; [intros [?|Hn]; [done|]|by left].
  exfalso. revert Hn. unfold get_default. rewrite dict_lookup_empty. set_solver.
Qed.

#[local] Arguments build_variable_snapshot : simpl never.
#[local] Arguments check_step_bp : simpl never.

(** What the gate may find. *)
Definition gate_open (w : World) (i : string) : Prop :=
  paused (w_gate w) = false ∧ should_pause_for_step_mode w i = false
  ∧ ∀ en, w_bps w = Some en →
      (check_step_bp simple_eval_names i (build_variable_snapshot (Some (w_vs w))) en).1 = None.

Lemma gate_spec i w :
  ∃ g w', gate_before_dispatch i w = (Ok g, w')
    ∧ w_disp w' = w_disp w ∧ w_reg w' = w_reg w ∧ w_plan w' = w_plan w
    ∧ w_tasks w' = w_tasks w ∧ w_vs w' = w_vs w ∧ w_rm w' = w_rm w ∧ w_uuts w' = w_uuts w
    ∧ w_injector w' = w_injector w ∧ w_adaptive w' = w_adaptive w ∧ w_os w' = w_os w
    ∧ w_life w' = w_life w ∧ w_snapshot w' = w_snapshot w
    ∧ match g with
      | GateDispatch => gate_open w i ∧ w_gate w' = w_gate w ∧ w_bus w' = w_bus w
      | GatePaused => paused (w_gate w) = true ∧ w' = w
      | StepModeStop =>
          paused (w_gate w) = false ∧ should_pause_for_step_mode w i = true
          ∧ paused (w_gate w') = true ∧ pause_event (w_gate w') = false
          ∧ step_mode (w_gate w') = None ∧ w_bus w' = w_bus w
      | PausedAtBreakpoint =>
          paused (w_gate w) = false ∧ should_pause_for_step_mode w i = false
          ∧ paused (w_gate w') = true ∧ pause_event (w_gate w') = false
          ∧ ∃ en bp en', w_bps w = Some en
              ∧ check_step_bp simple_eval_names i (build_variable_snapshot (Some (w_vs w))) en
                = (Some bp, en') ∧ w_bps w' = Some en'
              ∧ w_bus w' = publish BREAKPOINT_HIT
                  (BreakpointHitData (bp_id bp) (bp_kind bp) (bp_target bp) i
                     (build_variable_snapshot (Some (w_vs w)))) (w_bus w)
      end.
Proof.
  unfold gate_before_dispatch, gate_open, bind, get.
  destruct (paused (w_gate w)) eqn:Ep.
  { exists GatePaused, w. by split_and!. }
  destruct (should_pause_for_step_mode w i) eqn:Es.
  { exists StepModeStop. eexists. split; [reflexivity|]. cbn. by split_and!. }
  destruct (w_bps w) as [en|] eqn:Eb.
  2: { exists GateDispatch, w. split_and!; try done. }
  destruct (check_step_bp _ _ _ en) as [[bp|] en'] eqn:Ec.
  - exists PausedAtBreakpoint. eexists. split; [reflexivity|]. cbn. split_and!; try done.
    exists en, bp, en'. by split_and!.
  - exists GateDispatch. eexists. split; [reflexivity|]. cbn. split_and!; try done.
    intros en0 [= <-]. by rewrite Ec.
Qed.
End properties.

Section gates.
Context {E : SchedulerEnv}.

(** The gate in front of every dispatch: it lets a step through exactly when the
    scheduler is not paused, the armed single-step mode does not stop there and no
    breakpoint fires, and then it changes nothing but the breakpoint engine; in every
    other case the scheduler ends up paused (with its event cleared unless it was
    paused before), the step-mode stop disarms the mode, and a BREAKPOINT_HIT is
    published exactly for the breakpoint that fired. *)
Theorem gate_contract (i : string) (w : World) :
  ∃ g w', gate_before_dispatch i w = (Ok g, w')
  ∧ (g = GateDispatch ↔ gate_open w i)
  ∧ (g = GateDispatch → w_gate w' = w_gate w ∧ w_bus w' = w_bus w)
  ∧ (g ≠ GateDispatch → paused (w_gate w') = true
    ∧ (paused (w_gate w) = false → pause_event (w_gate w') = false))
  ∧ (g = StepModeStop → step_mode (w_gate w') = None)
  ∧ (w_bus w' ≠ w_bus w → g = PausedAtBreakpoint)
  ∧ w_disp w' = w_disp w ∧ w_reg w' = w_reg w ∧ w_tasks w' = w_tasks w.
Proof.
  destruct (gate_spec i w) as (g & w' & Hg & Hd & Hr & Hp & Ht & Hvs & _ & _ & _ & _ & _ & _ & _ & H).
  exists g, w'. split; [done|]. unfold gate_open in *. destruct g.
  - destruct H as (Ho & HG & HB). split_and!; done.
  - destruct H as [Hpa ->]. split_and!; try done.
    + split; [done|]. intros (? & _); congruence.
    + intros _. split; [done|congruence].
  - destruct H as (Hpa & Hs & Hp1 & He & Hm & Hb). split_and!; try done.
    split; [done|]. intros (_ & ? & _); congruence.
  - destruct H as (Hpa & Hs & Hp1 & He & en & bp & en' & Hen & Hc & _ & Hb).
    split_and!; try done. split; [done|]. intros (_ & _ & Hn). specialize (Hn en Hen).
    by rewrite Hc in Hn.
Qed.

(** The pause flag and the pause event never disagree. *)
Definition pause_coherent (g : Gate) : bool := bool_decide (pause_event g = negb (paused g)).

(** Pausing and resuming: from a coherent state, [pause], [resume],
    [arm_step_mode] and the gate keep the event equal to the negated flag; [resume]
    also disarms the single-step mode and wakes every waiting dispatch; an unknown
    mode is refused without touching the state, and a known one releases the
    scheduler with the last dispatched step as its origin. *)
Theorem pause_resume_contract (w : World) (mode : string) (target : option string) (i : string)
  (Hc : pause_coherent (w_gate w) = true) :
  pause_coherent (w_gate (pause w).2) = true
  ∧ pause_coherent (w_gate (gate_before_dispatch i w).2) = true
  ∧ (let w' := (resume w).2 in
    pause_coherent (w_gate w') = true ∧ paused (w_gate w') = false
    ∧ step_mode (w_gate w') = None
    ∧ ∀ t, t ∈ w_tasks w' → match t with TDispatch _ ph | THeld _ ph => ph ≠ Waiting | _ => True end)
  ∧ (let '(r, w') := arm_step_mode mode target w in
    if str_in mode STEP_MODES
      then r = Ok tt ∧ pause_coherent (w_gate w') = true ∧ paused (w_gate w') = false
    ∧ step_mode (w_gate w') = Some mode
    ∧ step_mode_origin (w_gate w') = last_dispatched_step (w_gate w)
      else w' = w ∧ ∃ m, r = Raise (ValueError m)).
Proof.
  split_and!.
  - done.
  - destruct (gate_spec i w) as (g & w' & -> & _ & _ & _ & _ & _ & _ & _ & _ & _ & _ & _ & _ & H).
    cbn. destruct g.
    + by destruct H as (_ & -> & _).
    + by destruct H as [_ ->].
    + destruct H as (_ & _ & Hp & He & _). unfold pause_coherent. by rewrite Hp, He.
    + destruct H as (_ & _ & Hp & He & _). unfold pause_coherent. by rewrite Hp, He.
  - cbn. split_and!; try done. intros t (t' & -> & _)%list_elem_of_fmap.
    by destruct t' as [? []|? []| |].
  - unfold arm_step_mode. destruct (str_in mode STEP_MODES); cbn; [done|].
    split; [done|by eexists].
Qed.
End gates.

(** ** Witnesses *)

(** A scheduler without skip rules, faults or expressions. *)
Definition plain_env : SchedulerEnv := {|
  simple_eval _ _ := None;
  simple_eval_names _ _ := None;
  json_dump _ := None;
  json_load _ := None;
  temp_name _ := ".snapshot-1.tmp";
  SkipConditions := unit;
  AdaptiveEvaluator := unit;
  should_skip _ _ _ _ := Ok false;
  skip_reason_of _ _ _ _ := Ok None;
  FaultInjector := unit;
  check_scheduler_raise _ i := (None, i)
|}.
#[local] Existing Instance plain_env.

Definition plain_os : Os := mkOs 1 0 4 false true.

(** One step "a" with one retry. *)
Definition retry_world : World :=
  new_scheduler
    (register "a" None (Some (mkConfig 1 250 false 0 false None "skip")) (reg_init false)).2
    (vs_init false) (rm_init false) None None None None None bus_init plain_os.

Lemma handle_step_result_matrix_witness :
  (handle_step_result "a" ERROR retry_world).1 = Ok (true, 250%Z).
Proof.
  pose proof (handle_step_result_matrix "a" ERROR retry_world ltac:(done)) as H.
  destruct (handle_step_result "a" ERROR retry_world) as [r w'].
  exact (proj1 (proj1 H)).
Defined.

Lemma retry_budget_witness : (feed 3 "a" ERROR retry_world).1 = [true; false; false].
Proof.
  exact (retry_budget 3 "a" retry_world ltac:(left) ltac:(done) ltac:(done)).
Defined.

Lemma pause_resume_contract_witness :
  paused (w_gate (resume (pause retry_world).2).2) = false.
Proof.
  refine (proj1 (proj2 (proj1 (proj2 (proj2 (pause_resume_contract _ "over" None "a" _)))))).
  reflexivity.
Defined.
