(* ===== verification/Dispatch.v ===== *)
(** * The scanner scheduler: dispatch, scan loop, life cycle
    (scheduler/scanner_scheduler.py)

    The two dispatch paths (a reactive task per step, the scan over all ready steps),
    the bus handlers that request them, crash recovery, and the tasks of the event
    loop as a step relation. *)

From S2P Require Import Prelude PyDict PyStr Types VariableSpace EventBus ResourceManager ConditionEvaluator StepRegistry EdgeBreakpoints UutSync StateSnapshot Scheduler.

Section dispatch.
Context {E : SchedulerEnv}.

(** ** Crash recovery *)

Definition get_state (w : World) : pyval :=
  PyMap [(PyStr "step_states",
    PyMap ((λ kv, (PyStr kv.1, PyStr (status_value kv.2))) <$> items (sr_steps (w_reg w))));
    (PyStr "variables", vs_snapshot (w_vs w));
    (PyStr "timestamp", PyFloat (pretty (os_now (w_os w))))].

(** A failure to save is logged and forgotten. *)
Definition maybe_snapshot : M World unit :=
  w <- get ;;
  match w_snapshot w with
  | None => ret tt
  | Some disk =>
      modify (set_snapshot (Some
        (save json_dump (temp_name disk) (os_replace_ok (w_os w)) (get_state w) disk).2))
  end.

Definition all_steps_terminal (w : World) : bool :=
  match items (sr_steps (w_reg w)) with
  | [] => false
  | l => forallb (λ kv, is_terminal kv.2) l
  end.

(** The status a recorded state is restored to: unfinished steps run again. *)
Definition resume_target (raw : string) : StepStatus :=
  match status_of_name raw with
  | Some st => if is_terminal st then st else PENDING
  | None => PENDING
  end.

Definition restore_one (kv : pyval * pyval) : M World unit :=
  match kv.2 with
  | PyStr raw => reg_update (py_str kv.1) (resume_target raw)
  | _ => ret tt
  end.

(** [_maybe_resume]. The instrument reset it awaits acts on hardware only, and its
    exceptions are logged and dropped. A KeyError of [update_status] is not caught. *)
Definition maybe_resume : M World unit :=
  w <- get ;;
  match w_snapshot w with
  | None => ret tt
  | Some disk =>
      if negb (can_resume json_load disk) then ret tt
      else
        match load json_load disk with
        | None => ret tt
        | Some snapshot =>
            match state_get "step_states" snapshot with
            | PyMap step_states =>
                for_each step_states restore_one
            | _ => ret tt
            end ;;;
            match state_get "variables" snapshot with
            | PyMap l => modify (λ w, set_vs (vs_restore (PyMap l) (w_vs w)) w)
            | _ => ret tt
            end ;;;
            modify (λ w, let l := w_life w in
              set_life (mkLife (running l) (stop_event l) (heartbeat l) (watchdog l)
                (loop_at l) true) w)
        end
  end.

(** ** Handlers *)

Definition ON_VARIABLE : string := "scheduler.on_variable_changed".
Definition ON_STATUS : string := "scheduler.on_step_status_changed".
Definition ON_RESOURCE : string := "scheduler.on_resource_released".

Definition data_str (k : string) (d : EventData) : option string :=
  match d with
  | PlainData p => match p !! k with Some (PyStr s) => Some s | _ => None end
  | _ => None
  end.

Definition on_variable_changed (ev : Event) : M World unit :=
  schedule_dispatch_for_key
  (match ev_data ev with
  | MeasurementRecordedData name _ _ _ => name
  | d => default "unknown" (data_str "name" d)
  end).

Definition data_new_status (d : EventData) : option string :=
  match d with
  | StepStatusChangedData _ _ new_status => Some new_status
  | d => data_str "new_status" d
  end.

(** A step that reached a terminal status may be dispatched again later. *)
Definition settle_bookkeeping (step_id : string) : M World unit :=
  on_disp (λ d, set_notified (notified_ready d ∖ {[ step_id ]}) d) ;;;
  discard_pending step_id ;;;
  release_uut_claim step_id.

Definition on_step_status_changed (ev : Event) : M World unit :=
  let step_id := data_step_id (ev_data ev) in
  match data_new_status (ev_data ev), step_id with
  | Some new_status, Some s =>
      when str_in new_status ["PASSED"; "FAILED"; "SKIPPED"; "ERROR"] do settle_bookkeeping s
  | _, _ => ret tt
  end ;;;
  maybe_snapshot ;;;
  match step_id with
  | Some s => schedule_dispatch_for_key s
  | None => ret tt
  end.

Definition on_resource_released (ev : Event) : M World unit :=
  schedule_dispatch_for_key
  (match ev_data ev with
  | ResourceReleasedData resource_id _ => resource_id
  | d => default "unknown" (data_str "resource_id" d)
  end).

(** What the bus runs for a subscribed name; other subscribers do not act on the
    scheduler. *)
Definition call_handler (cb : string) (ev : Event) : M World unit :=
  if decide (cb = ON_VARIABLE) then on_variable_changed ev
  else if decide (cb = ON_STATUS) then on_step_status_changed ev
  else if decide (cb = ON_RESOURCE) then on_resource_released ev
  else ret tt.

Definition handlers : list (EventType * string) :=
  [(MEASUREMENT_RECORDED, ON_VARIABLE); (STEP_STATUS_CHANGED, ON_STATUS);
    (RESOURCE_RELEASED, ON_RESOURCE)].

Definition setup_event_handlers (w : World) : World :=
  set_bus (foldl (λ b h, subscribe (Some h.1) h.2 b) (w_bus w) handlers) w.
Definition teardown_event_handlers (w : World) : World :=
  set_bus (foldl (λ b h, (unsubscribe (Some h.1) h.2 b).2) (w_bus w) handlers) w.

(** ** The reactive path *)

(** How a computation of a task ends: done, or waiting again. *)
Inductive outcome : Type :=
  | Finished | Held | AtBarrier (name : string) (idle : list string).

Definition ready_steps : M World (list string) :=
  w <- get ;;
  match get_ready_steps simple_eval (w_reg w) (Some (w_vs w)) (Some (w_rm w))
      (os_now (w_os w)) with
  | Ok l => ret l
  | Raise e => raise e
  end.

Definition start_barrier (step_id : string) : M World outcome :=
  w <- get ;;
  if has_key step_id (barrier_steps (w_plan w)) then
    b <- run_barrier_step step_id ;;
    ret (match b with
    | BarrierDone => Finished
    | BarrierWait name idle => AtBarrier name idle
    end)
  else ret Finished.

(** The last part of [_dispatch_step]: every check has passed. *)
Definition start_step (step_id : string) : M World outcome :=
  w <- get ;;
  on_disp (λ d, set_dispatch_time (os_now (w_os w))
    (set_notified ({[ step_id ]} ∪ notified_ready d) d)) ;;;
  condition <- on_reg (get_condition step_id) ;;
  check_pool_exhaustion condition ;;;
  claim_uut step_id ;;;
  bus_pub STEP_STARTED (StepStartedData step_id (condition_str <$> condition)) ;;;
  on_gate (set_last (Some step_id)) ;;;
  start_barrier step_id.

(** Read and clear the one-shot flag. *)
Definition take_force_next : M World bool :=
  w <- get ;;
  if force_next_pending (w_gate w) then on_gate (set_force false) ;;; ret true else ret false.

(** [_dispatch_step] past the readiness check. *)
Definition dispatch_ready (step_id : string) : M World outcome :=
  w <- get ;;
  if negb (can_schedule w step_id) then ret Finished
  else
    faulted <- check_scheduler_fault step_id ;;
    if faulted : bool then ret Finished else start_step step_id.

(** A step whose skip rule holds in [w]. *)
Definition skip_step (step_id : string) (w : World) : M World unit :=
  match get_skip_reason w step_id with
  | Ok reason => handle_step_skipped step_id reason
  | Raise e => raise e
  end.

(** [_dispatch_step] past the gate. *)
Definition dispatch_open (step_id : string) : M World outcome :=
  w <- get ;;
  match sr_steps (w_reg w) !! step_id with
  | None => ret Finished
  | Some status =>
      if negb (bool_decide (status = PENDING)) then ret Finished
      else
        forced <- take_force_next ;;
        w1 <- get ;;
        skip <- lift (if forced : bool then Ok false else evaluate_step_skip w1 step_id) ;;
        if skip : bool then
          skip_step step_id w1 ;;; ret Finished
        else if bool_decide (step_id ∈ notified_ready (w_disp w1)) then ret Finished
        else
          ready <- ready_steps ;;
          if negb (str_in step_id ready) then ret Finished
          else dispatch_ready step_id
  end.

(** [_dispatch_step] past its first wait on the pause event. *)
Definition dispatch_body (step_id : string) : M World outcome :=
  gated <- gate_before_dispatch step_id ;;
  match gated with
  | StepModeStop | GatePaused => ret Finished
  | PausedAtBreakpoint => ret Held
  | GateDispatch => dispatch_open step_id
  end.

(** The [try]/[except Exception]/[finally] around it: an exception is logged and
    dropped, and the step leaves the pending set once the task is over. *)
Definition dispatch_step (step_id : string) (w : World) : World :=
  match dispatch_body step_id w with
  | (Ok Held, w') => (spawn (THeld step_id Waiting) w').2
  | (Ok (AtBarrier name idle), w') => (spawn (TBarrier step_id name idle None) w').2
  | (Ok Finished, w') | (Raise _, w') => (discard_pending step_id w').2
  end.

(** ** The scan *)

(** Where a scan stands: over, or waiting in a barrier with steps left. *)
Inductive scan_end : Type :=
  | ScanOver | ScanWaits (step_id name : string) (idle rest : list string).

(** The dispatch of one step by the scan; [None] stops the scan. *)
Definition scan_start (step_id : string) : M World (option outcome) :=
  gated <- gate_before_dispatch step_id ;;
  match gated with
  | GateDispatch =>
      condition <- on_reg (get_condition step_id) ;;
      on_disp (λ d, set_pending_dispatch ({[ step_id ]} ∪ pending_dispatch d) d) ;;;
      claim_uut step_id ;;;
      bus_pub STEP_STARTED (StepStartedData step_id (condition_str <$> condition)) ;;;
      w <- get ;;
      on_disp (λ d, set_dispatch_time (os_now (w_os w))
        (set_notified ({[ step_id ]} ∪ notified_ready d) d)) ;;;
      o <- start_barrier step_id ;;
      ret (Some o)
  | _ => ret None
  end.

(** One step of the list: [Some Finished] goes on with the next one. *)
Definition scan_one (step_id : string) : M World (option outcome) :=
  w <- get ;;
  if bool_decide (step_id ∈ notified_ready (w_disp w))
      || bool_decide (step_id ∈ pending_dispatch (w_disp w)) then ret (Some Finished)
  else
    skip <- lift (evaluate_step_skip w step_id) ;;
    if skip : bool then skip_step step_id w ;;; ret (Some Finished)
    else if negb (can_schedule w step_id) then ret (Some Finished)
    else
      faulted <- check_scheduler_fault step_id ;;
      if faulted : bool then ret (Some Finished) else scan_start step_id.

Fixpoint scan_steps (l : list string) : M World scan_end :=
  match l with
  | [] => ret ScanOver
  | step_id :: l' =>
      o <- scan_one step_id ;;
      match o with
      | None => ret ScanOver
      | Some (AtBarrier name idle) => ret (ScanWaits step_id name idle l')
      | Some _ => scan_steps l'
      end
  end.

Definition emergency_scan : M World scan_end :=
  w <- get ;;
  if paused (w_gate w) then ret ScanOver
  else ready <- ready_steps ;; scan_steps ready.

Definition set_loop_at pc (w : World) : World :=
  let l := w_life w in
  set_life (mkLife (running l) (stop_event l) (heartbeat l) (watchdog l) pc
    (resumed_from_snapshot l)) w.

(** The end of a (piece of a) scan run by the loop task ([in_loop]) or by a forced
    scan: an exception ends the scan, the loop task logs it and goes on. *)
Definition after_scan (in_loop : bool) (r : res scan_end * World) : World :=
  let '(o, w) := r in
  match o with
  | Ok (ScanWaits step_id name idle rest) =>
      let w1 := (spawn (TBarrier step_id name idle (Some (in_loop, rest))) w).2 in
      if in_loop then set_loop_at LoopBarrier w1 else w1
  | _ => if in_loop then set_loop_at LoopSleeping w else w
  end.

(** ** The scan loop *)

(** The top of the loop: a beat of the heart, the dispatch time, then a yield. *)
Definition loop_top (w : World) : World :=
  let l := w_life w in
  if running l && negb (stop_event l) then
    set_life (mkLife (running l) (stop_event l) (heartbeat l + 1) (watchdog l)
      (LoopYielded (last_dispatch_time (w_disp w))) (resumed_from_snapshot l)) w
  else set_loop_at LoopNone w.

(** Back from the yield: scan unless a reactive dispatch happened meanwhile. *)
Definition loop_scan (current : Z) (w : World) : World :=
  let last := last_dispatch_time (w_disp w) in
  if ((current =? last) && (0 <? current))%Z || (current =? 0)%Z
  then after_scan true (emergency_scan w)
  else set_loop_at LoopSleeping w.

(** The wait for the stop event or the scan interval is over. *)
Definition loop_wake (w : World) : World :=
  if stop_event (w_life w) then set_loop_at LoopNone w else loop_top w.

Definition loop_step (w : World) : option World :=
  match loop_at (w_life w) with
  | LoopTop => Some (loop_top w)
  | LoopYielded current => Some (loop_scan current w)
  | LoopSleeping => Some (loop_wake w)
  | LoopNone | LoopBarrier => None
  end.

(** ** Tasks *)

(** Run a task taken off the list; [missing] is what the barrier's threads report. *)
Definition run_task (t : task) (missing : gset string) (w : World) : option World :=
  match t with
  | TDispatch step_id NotStarted =>
      Some (if pause_event (w_gate w) then dispatch_step step_id w
      else (spawn (TDispatch step_id Waiting) w).2)
  | TDispatch step_id Woken => Some (dispatch_step step_id w)
  | THeld step_id Woken => Some (discard_pending step_id w).2
  | TDispatch _ Waiting | THeld _ _ => None
  | TBarrier step_id name _ None =>
      Some (discard_pending step_id (barrier_settle step_id name missing w).2).2
  | TBarrier step_id name _ (Some (in_loop, rest)) =>
      Some (after_scan in_loop ((barrier_settle step_id name missing ;;; scan_steps rest) w))
  | TScan => Some (after_scan false (emergency_scan w))
  end.

(** [force_scan] *)
Definition force_scan (w : World) : World :=
  if can_spawn (w_bus w) then (spawn TScan w).2 else w.

(** ** Life cycle *)

(** The scan task is cancelled, wherever it waits. *)
Definition is_scan_task (t : task) : bool :=
  match t with TBarrier _ _ _ (Some (true, _)) => true | _ => false end.
Definition end_scan_task (w : World) : World :=
  set_loop_at LoopNone
  (set_tasks (base.filter (λ t, is_scan_task t = false) (w_tasks w)) w).

Definition scheduler_start : M World unit :=
  w <- get ;;
  if running (w_life w) then ret tt
  else
    modify (λ w, set_life (mkLife true false 0 true (loop_at (w_life w))
      (resumed_from_snapshot (w_life w))) w) ;;;
    maybe_resume ;;;
    modify setup_event_handlers ;;;
    modify (set_loop_at LoopTop).

(** [stop]: what precedes the wait for the scan task, its end (by itself within
    five seconds, or cancelled), and the cleanup. *)
Definition scheduler_stop (w : World) : World :=
  if negb (running (w_life w)) then w
  else
    let w1 := set_life (mkLife false true (heartbeat (w_life w)) false (loop_at (w_life w))
      (resumed_from_snapshot (w_life w))) w in
    let w2 := end_scan_task (teardown_event_handlers (consume_step_mode w1).2) in
    if all_steps_terminal w2 then set_snapshot (cleanup <$> w_snapshot w2) w2 else w2.

Definition emergency_shutdown (w : World) : World :=
  let l := w_life w in
  end_scan_task (set_life (mkLife false true (heartbeat l) (watchdog l) (loop_at l)
    (resumed_from_snapshot l)) w).

(** [get_status], the counters of it. *)
Definition scheduler_status (w : World) : bool * Z * nat * nat * nat * Z * bool * bool :=
  (running (w_life w), heartbeat (w_life w), size (notified_ready (w_disp w)),
    size (pending_dispatch (w_disp w)), dict_len (dependency_index (w_plan w)),
    last_dispatch_time (w_disp w), paused (w_gate w), force_next_pending (w_gate w)).

(** [execute_loop_step], around the loop executor's run: [result] is the status the
    executor returns; [update_status] on the way out tolerates a missing step. *)
Definition loop_step_begin (loop_id : string) : M World unit :=
  update_or_register loop_id RUNNING.
Definition loop_step_end (loop_id : string) (result : StepStatus) : M World unit :=
  try_except (reg_update loop_id result)
  (λ e, match e with KeyError _ => Some (ret tt) | _ => None end).
End dispatch.
