(* ===== verification/Dsl.v ===== *)
(** * Test plans (src/src/shared/dsl.py)

    Steps, loops and plans as the YAML DSL has them, shared by the compiler, the loop
    executor and the topology validator. The steps of a subsequence sit in the
    dictionary [params] of the step, under "steps": they are the second argument of
    [StepNode], and [ys_params] holds the other entries. *)

From S2P Require Import Prelude PyDict PyStr Types.

Inductive LoopType : Type := FOR | WHILE | FOREACH.
Inductive ExecutionMode : Type := SERIAL | PARALLEL.
Inductive StepType : Type :=
  | SCRIPT | ACTION | LOOP | BRANCH | BARRIER | FIXTURE_CONTROL | CALL | SUBSEQUENCE | BREAKPOINT.

#[export] Instance LoopType_eq_dec : EqDecision LoopType.
Proof. solve_decision. Defined.
#[export] Instance ExecutionMode_eq_dec : EqDecision ExecutionMode.
Proof. solve_decision. Defined.
#[export] Instance StepType_eq_dec : EqDecision StepType.
Proof. solve_decision. Defined.

Definition loop_type_value (t : LoopType) : string :=
  match t with FOR => "FOR" | WHILE => "WHILE" | FOREACH => "FOREACH" end.
Definition execution_mode_value (m : ExecutionMode) : string :=
  match m with SERIAL => "SERIAL" | PARALLEL => "PARALLEL" end.

Definition step_type_value (t : StepType) : string :=
  match t with
  | SCRIPT => "script" | ACTION => "action" | LOOP => "loop" | BRANCH => "branch"
  | BARRIER => "barrier" | FIXTURE_CONTROL => "fixture_control" | CALL => "call"
  | SUBSEQUENCE => "subsequence" | BREAKPOINT => "breakpoint"
  end.

Record YamlStep : Type := mkStep {
  ys_id : string;
  ys_type : option StepType;
  ys_script : string;
  ys_params : pydict string pyval;
  ys_preconditions : list string;
  ys_depends_on : list string;
  ys_resources : pydict string pyval;
  ys_timeout : Z;
  ys_retry : Z;
  ys_on_fail : option string;
  ys_on_failure : option string;
  ys_uut_affinity : option string;
  ys_barrier_name : option string;
  ys_action : option string;
  ys_fixture_id : option string;
  ys_export_outputs : bool;
  ys_skip_if : option string;
  ys_skip_reason : option string;
  ys_condition : option string
}.

Record LoopSpec : Type := mkLoop {
  yl_id : string;
  yl_type : LoopType;
  yl_count : option Z;
  yl_condition : option string;
  yl_collection : option string;
  yl_iterator_var : option string;
  yl_mode : ExecutionMode;
  yl_max_iterations : Z;
  yl_skip_if : option string;
  yl_skip_reason : option string;
  yl_depends_on : list string
}.

(** [YamlStep | YamlLoop] *)
Inductive YamlNode : Type :=
  | StepNode (s : YamlStep) (inner : list YamlNode)
  | LoopNode (spec : LoopSpec) (steps : list YamlNode).

(** The ids of a step or loop and of what is nested in it. *)
Fixpoint node_ids (n : YamlNode) : list string :=
  match n with
  | StepNode s _ => [ys_id s]
  | LoopNode spec steps => yl_id spec :: concat (map node_ids steps)
  end.

Record YamlPlan : Type := mkPlanDsl {
  yp_name : string;
  yp_version : string;
  yp_scope : pydict string pyval;
  yp_max_concurrency : Z;
  yp_uut_count : Z;
  yp_fixture_id : option string;
  yp_steps : list YamlNode
}.

(** Dataclass defaults. *)
Definition default_step (id : string) : YamlStep :=
  mkStep id None "" ∅ [] [] ∅ 60 0 None None None None None None false None None None.
Definition default_loop (id : string) (t : LoopType) : LoopSpec :=
  mkLoop id t None None None None SERIAL 1000 None None [].

Definition is_breakpoint (s : YamlStep) : bool := bool_decide (ys_type s = Some BREAKPOINT).

(** [x or default] *)
Definition or_int (z : Z) (default : Z) : Z := if (z =? 0)%Z then default else z.
Definition or_str (s : option string) (default : string) : string :=
  match s with Some s => if decide (s = "") then default else s | None => default end.
Definition or_list {A} (l l' : list A) : list A := match l with [] => l' | _ => l end.

(** Induction over nodes and their nested lists. *)
Section node_ind.
Context (P : YamlNode → Prop)
  (Hstep : ∀ s inner, Forall P inner → P (StepNode s inner))
  (Hloop : ∀ spec steps, Forall P steps → P (LoopNode spec steps)).

Fixpoint YamlNode_ind' (n : YamlNode) : P n :=
  let fix go l : Forall P l :=
    match l return Forall P l with
    | [] => @List.Forall_nil _ P
    | m :: l' => @List.Forall_cons _ P m l' (YamlNode_ind' m) (go l')
    end in
  match n with
  | StepNode s inner => Hstep s inner (go inner)
  | LoopNode spec steps => Hloop spec steps (go steps)
  end.
End node_ind.
