(* ===== verification/PlanTopology.v ===== *)
(** * Plans against topologies (src/src/ate_platform/scheduler/topology_validator.py)

    Before a plan runs, its instruments, units and fixtures are looked up in the fixture
    topology: they must exist, an instrument must reach the unit of the step, steps that may
    run in parallel must not share an instrument without a matrix switch, and a fixture must
    offer the action asked of it. The constructor's conversion of dictionaries is left out. *)

From S2P Require Import Prelude PyDict PyStr PyNum Types Dsl Topology.

Definition get_val (k : string) (d : pydict string pyval) : pyval := default PyNone (d !! k).

(** ** What a step refers to *)

(** The steps, those of loops included; the steps inside a subsequence are not visited. *)
Fixpoint walk_node (n : YamlNode) : list YamlStep :=
  match n with
  | StepNode s _ => [s]
  | LoopNode _ steps => concat (walk_node <$> steps)
  end.
Definition iter_steps (plan : YamlPlan) : list YamlStep := concat (walk_node <$> yp_steps plan).

Definition entry_instruments (kv : string * pyval) : list string :=
  if str_in kv.1 ["instrument"; "instrument_id"] then
    match kv.2 with PyStr s => [s] | _ => [] end
  else if str_in kv.1 ["instruments"] then
    match kv.2 with
    | PyList l => omap as_str l
    | PyMap l => omap as_str l.*2
    | _ => []
    end
  else [].
Definition step_instruments (s : YamlStep) : list string :=
  items (ys_resources s) ≫= entry_instruments.

Definition step_uut (s : YamlStep) : option string :=
  match py_or (get_val "uut_affinity" (ys_resources s)) (get_val "uut" (ys_resources s)) with
  | PyStr uut => Some uut
  | _ => as_str (get_val "uut" (ys_params s))
  end.
Definition step_fixture (s : YamlStep) : option string :=
  match get_val "fixture_id" (ys_params s) with
  | PyStr f => Some f
  | _ => as_str (get_val "fixture" (ys_resources s))
  end.
Definition step_fixture_action (s : YamlStep) : option string :=
  as_str (py_or (get_val "action" (ys_params s)) (get_val "operation" (ys_params s))).

Section validator.
Context `{PF : PyFloats} (topo : FixtureTopology) (plan : YamlPlan).

(** ** Parallel groups *)

Definition top_steps : list YamlStep :=
  omap (λ n, match n with StepNode s _ => Some s | LoopNode _ _ => None end) (yp_steps plan).

Definition depends_on (s : YamlStep) (ids : list string) : bool :=
  existsb (λ p, str_in p ids) (ys_preconditions s).

(** One round over the steps that remain: the group's new members, and those left. (A step
    equal to one left behind is left behind too, so [remaining.remove] removes the step.) *)
Fixpoint split_group (ids : list string) (l : list YamlStep) : list YamlStep * list YamlStep :=
  match l with
  | [] => ([], [])
  | other :: l' =>
      if depends_on other ids
      then let '(group, rest) := split_group ids l' in (group, other :: rest)
      else let '(group, rest) := split_group (ids ++ [ys_id other]) l' in (other :: group, rest)
  end.

(** [while remaining:]; one step of fuel per group. *)
Fixpoint group_loop (fuel : nat) (remaining : list YamlStep) : list (list YamlStep) :=
  match fuel, remaining with
  | S fuel', first :: rest =>
      let '(group, kept) := split_group [ys_id first] rest in
      (first :: group) :: group_loop fuel' kept
  | _, _ => []
  end.
Definition all_groups : list (list YamlStep) := group_loop (length top_steps) top_steps.

Definition is_parallel_loop (n : YamlNode) : bool :=
  match n with LoopNode spec _ => bool_decide (yl_mode spec = PARALLEL) | StepNode _ _ => false end.
Definition parallel_enabled : bool :=
  (1 <? yp_max_concurrency plan)%Z || existsb is_parallel_loop (yp_steps plan).
Definition is_group (g : list YamlStep) : bool := (1 <? length g)%nat.

Definition parallel_groups : list (list YamlStep) :=
  if (length top_steps <? 2)%nat then []
  else if negb parallel_enabled then []
  else base.filter is_group all_groups.

(** The instruments two steps of a group name; a set, listed in the order they come. *)
Fixpoint shared_from (per_step : list (list string)) : list string :=
  match per_step with
  | [] => []
  | insts :: later =>
      base.filter (λ i, existsb (str_in i) later = true) insts ++ shared_from later
  end.
Definition shared_resources (group : list YamlStep) : list string :=
  remove_dups (shared_from (step_instruments <$> group)).

(** ** What the topology offers *)

Definition has_mutex_switch (id : string) : bool :=
  existsb (λ link, truthy (li_route_id link) ||
    bool_decide (ep_entity_id (li_from link) = id ∧ ep_entity_type (li_to link) = RELAY_CONTACT))
    (ft_links topo).

(** One pass over the links, adding the far end of those that touch the set. *)
Definition visit_link (st : list string * bool) (link : Link) : list string * bool :=
  let src := ep_entity_id (li_from link) in
  let dst := ep_entity_id (li_to link) in
  if bool_decide (src ∈ st.1 ∧ dst ∉ st.1) then (dst :: st.1, true)
  else if bool_decide (dst ∈ st.1 ∧ src ∉ st.1) then (src :: st.1, true)
  else st.
Definition visit_links (l : list string) : list string * bool :=
  foldl visit_link (l, false) (ft_links topo).

(** [while changed:]; [None] when the fuel is spent. *)
Fixpoint reach_loop (fuel : nat) (l : list string) : option (list string) :=
  match fuel with
  | O => None
  | S fuel' => let '(l', changed) := visit_links l in
               if changed then reach_loop fuel' l' else Some l'
  end.
Definition reach_fuel : nat := S (length (ft_links topo)).
Definition instrument_reaches_dut (inst dut : string) : option bool :=
  reachable ← reach_loop reach_fuel [inst]; Some (str_in dut reachable).

Definition capabilities (f : Fixture) : list string :=
  (actuator_value ∘ ac_type <$> fx_actuators f) ++ (relay_value ∘ re_type <$> fx_relays f).
Definition fixture_caps : pydict string (list string) :=
  foldl (λ d f, <[fx_id f := capabilities f]> d) ∅ (ft_fixtures topo).
Definition fixture_supports (caps : list string) (action : string) : bool :=
  let normalized := py_lower action in
  existsb (λ cap, str_contains cap normalized || str_contains normalized cap) caps.

(** ** The checks *)

Context (strictness : Level).

Definition check_instruments_exist : list ValidationIssue :=
  step ← iter_steps plan;
  inst ← step_instruments step;
  if decide (inst ∈ in_id <$> ft_instruments topo) then [] else
    [mkIssue strictness "instrument_exists"
       ("Step " +:+ ys_id step +:+ " 引用的仪器 " +:+ inst +:+ " 不在拓扑中")
       ("step:" +:+ ys_id step +:+ ".instrument:" +:+ inst)].

(** [_instrument_reaches_dut] always answers, so the other branch is not met. *)
Definition reaches (inst dut : string) : bool := default false (instrument_reaches_dut inst dut).

Definition check_resource_wiring : list ValidationIssue :=
  step ← iter_steps plan;
  match step_uut step with
  | None => []
  | Some uut =>
      if negb (bool_decide (uut ∈ du_id <$> ft_duts topo)) then
        [mkIssue strictness "resource_wiring"
           ("Step " +:+ ys_id step +:+ " 的 UUT 亲和 " +:+ uut +:+ " 不在拓扑 DUT 中")
           ("step:" +:+ ys_id step +:+ ".uut:" +:+ uut)]
      else
        inst ← step_instruments step;
        if reaches inst uut then [] else
          [mkIssue LWarning "resource_wiring"
             ("Step " +:+ ys_id step +:+ " 仪器 " +:+ inst +:+ " 无法接通 UUT " +:+ uut)
             ("step:" +:+ ys_id step +:+ ".instrument:" +:+ inst +:+ ".uut:" +:+ uut)]
  end.

Definition check_parallel_mutex : list ValidationIssue :=
  group ← parallel_groups;
  inst ← shared_resources group;
  if has_mutex_switch inst then [] else
    [mkIssue strictness "parallel_mutex"
       ("并行步骤 " +:+
        str_join ", " (ys_id <$> base.filter (λ s, inst ∈ step_instruments s) group) +:+
        " 共享仪器 " +:+ inst +:+ " 但无矩阵开关隔离")
       ("parallel.group:" +:+ inst)].

Definition check_fixture_capability : list ValidationIssue :=
  step ← iter_steps plan;
  match step_fixture step with
  | None => []
  | Some fixture =>
      let action := default "" (step_fixture_action step) in
      match fixture_caps !! fixture with
      | None =>
          [mkIssue strictness "fixture_capability"
             ("Step " +:+ ys_id step +:+ " 引用的夹具 " +:+ fixture +:+ " 不在拓扑中")
             ("step:" +:+ ys_id step +:+ ".fixture:" +:+ fixture)]
      | Some caps =>
          if truthy (step_fixture_action step) && negb (fixture_supports caps action) then
            [mkIssue strictness "fixture_capability"
               ("夹具 " +:+ fixture +:+ " 不支持动作 " +:+ action +:+
                "（Step " +:+ ys_id step +:+ "）")
               ("step:" +:+ ys_id step +:+ ".fixture:" +:+ fixture +:+ ".action:" +:+ action)]
          else []
      end
  end.

Definition validate_plan : ValidationResult :=
  add_issues no_issues
    (check_instruments_exist ++ check_resource_wiring ++ check_parallel_mutex ++
     check_fixture_capability).
End validator.

(** ** Reaching a unit *)

(** Two entities joined by a link, in either direction. *)
Definition linked `{PF : PyFloats} (topo : FixtureTopology) (a b : string) : Prop :=
  ∃ l, l ∈ ft_links topo ∧
    (ep_entity_id (li_from l) = a ∧ ep_entity_id (li_to l) = b ∨
     ep_entity_id (li_from l) = b ∧ ep_entity_id (li_to l) = a).

Section reaching.
Context `{PF : PyFloats} (topo : FixtureTopology).

(** A link with an end outside the set: it may still add that end. *)
Definition is_open (s : list string) (l : Link) : Prop :=
  ep_entity_id (li_from l) ∉ s ∨ ep_entity_id (li_to l) ∉ s.
#[local] Instance is_open_dec s l : Decision (is_open s l).
Proof. unfold is_open. apply _. Defined.
Definition open_links (s : list string) : nat := length (base.filter (is_open s) (ft_links topo)).

Definition closed_at (s : list string) (l : Link) : Prop :=
  ep_entity_id (li_from l) ∈ s ↔ ep_entity_id (li_to l) ∈ s.

Lemma visit_link_spec s c l :
  (visit_link (s, c) l = (s, c) ∧ closed_at s l) ∨
  ∃ x, visit_link (s, c) l = (x :: s, true) ∧ is_open s l ∧ ¬ is_open (x :: s) l ∧
    ∃ y, y ∈ s ∧
      (ep_entity_id (li_from l) = y ∧ ep_entity_id (li_to l) = x ∨
       ep_entity_id (li_from l) = x ∧ ep_entity_id (li_to l) = y).
Proof.
  unfold visit_link, closed_at, is_open. cbn [fst snd].
  case_bool_decide as H1; [right; eexists; split; [done|]; set_solver|].
  case_bool_decide as H2; [right; eexists; split; [done|]; set_solver|].
  left. split; [done|].
  destruct (decide (ep_entity_id (li_from l) ∈ s)), (decide (ep_entity_id (li_to l) ∈ s)); tauto.
Qed.

Lemma visit_fold s c ls s' c' :
  foldl visit_link (s, c) ls = (s', c') →
  s ⊆ s' ∧
  (c' = false → c = false ∧ s' = s ∧ ∀ l, l ∈ ls → closed_at s l) ∧
  (c' = true → c = true ∨ ∃ l, l ∈ ls ∧ is_open s l ∧ ¬ is_open s' l).
Proof.
  revert s c. induction ls as [|l ls IH]; intros s c; cbn [foldl].
  - intros [= -> ->]. split_and!; [done| |by left].
    intros ->. split_and!; [done|done|by intros l ?%elem_of_nil].
  - intros E. destruct (visit_link_spec s c l) as [[Hl Hcl]|(x & Hl & Ho & Hn & _)];
      rewrite Hl in E; apply IH in E as (Hsub & Hf & Ht).
    + split_and!; [done| |].
      * intros (-> & -> & H)%Hf. split_and!; [done|done|].
        intros l' [->|?]%elem_of_cons; [done|by apply H].
      * intros [->|(l' & ? & ?)]%Ht; [by left|right]. exists l'. split; [by right|done].
    + split_and!; [set_solver| |].
      * intros [? _]%Hf. done.
      * intros _. right. exists l. split_and!; [left|done|]. unfold is_open in *. set_solver.
Qed.

Lemma filter_length_lt {A} (P Q : A → Prop) `{∀ x, Decision (P x), ∀ x, Decision (Q x)} l x :
  (∀ y, y ∈ l → P y → Q y) → x ∈ l → Q x → ¬ P x →
  length (base.filter P l) < length (base.filter Q l).
Proof.
  intros HPQ Hx Hq Hp. induction l as [|y l IH]; [by apply elem_of_nil in Hx|].
  rewrite !filter_cons.
  assert (length (base.filter P l) ≤ length (base.filter Q l)) as Hle
    by (apply list_filter_length_le; intros z Hz; apply HPQ; by right).
  apply elem_of_cons in Hx as [->|Hx].
  - rewrite decide_False, decide_True by done. cbn. lia.
  - assert (length (base.filter P l) < length (base.filter Q l)).
    { apply IH; [|done]. intros w Hw. apply HPQ. by right. }
    specialize (HPQ y). repeat case_decide; cbn; [lia|set_solver|lia|lia].
Qed.

(** Enough fuel: every pass that changes the set closes a link. *)
Lemma reach_loop_total fuel s :
  open_links s < fuel →
  ∃ s', reach_loop topo fuel s = Some s' ∧ s ⊆ s' ∧ ∀ l, l ∈ ft_links topo → closed_at s' l.
Proof.
  revert s. induction fuel as [|fuel IH]; intros s Hlt; [lia|]. cbn [reach_loop].
  destruct (visit_links topo s) as [s1 c] eqn:E. apply visit_fold in E as (Hsub & Hf & Ht).
  destruct c; [|destruct (Hf eq_refl) as (_ & -> & ?); eauto].
  destruct (Ht eq_refl) as [?|(l & Hl & Ho & Hn)]; [done|].
  destruct (IH s1) as (s' & -> & Hs' & Hc); [|exists s'; split; [done|set_solver]].
  enough (open_links s1 < open_links s) by lia.
  apply (filter_length_lt (is_open s1) (is_open s) _ l); try done.
  intros y _. unfold is_open. set_solver.
Qed.

Lemma visit_links_reach (R : string → Prop) s :
  (∀ a b, R a → linked topo a b → R b) → (∀ x, x ∈ s → R x) →
  ∀ x, x ∈ (visit_links topo s).1 → R x.
Proof.
  intros HR. unfold visit_links. generalize false.
  assert (∀ l, l ∈ ft_links topo → l ∈ ft_links topo) as Hin by done. revert Hin.
  generalize (ft_links topo) at 1 3. intros ls. revert s.
  induction ls as [|l ls IH]; intros s Hls c Hs; [done|]. cbn [foldl].
  destruct (visit_link_spec s c l) as [[-> _]|(x & -> & _ & _ & y & Hy & Hxy)].
  - apply IH; [|done]. intros l' ?. apply Hls. by right.
  - apply IH; [intros l' ?; apply Hls; by right|]. intros z [->|Hz]%elem_of_cons; [|by apply Hs].
    apply (HR y); [by apply Hs|]. exists l. split; [apply Hls; left|naive_solver].
Qed.

Lemma reach_loop_reach (R : string → Prop) fuel s s' :
  (∀ a b, R a → linked topo a b → R b) → (∀ x, x ∈ s → R x) →
  reach_loop topo fuel s = Some s' → ∀ x, x ∈ s' → R x.
Proof.
  intros HR. revert s. induction fuel as [|fuel IH]; intros s Hs E; [done|]. cbn [reach_loop] in E.
  pose proof (visit_links_reach R s HR Hs) as H1.
  destruct (visit_links topo s) as [s1 c]. cbn [fst] in H1. destruct c; [by eapply IH|].
  by injection E as <-.
Qed.

Lemma reachable_set inst :
  ∃ s, reach_loop topo (reach_fuel topo) [inst] = Some s ∧ ∀ x, x ∈ s ↔ rtc (linked topo) inst x.
Proof.
  destruct (reach_loop_total (reach_fuel topo) [inst]) as (s & Hs & Hsub & Hc).
  { unfold open_links, reach_fuel. enough (length (base.filter (is_open [inst]) (ft_links topo))
      ≤ length (ft_links topo)) by lia. apply length_filter. }
  exists s. split; [done|]. intros x. split.
  - apply (reach_loop_reach (rtc (linked topo) inst) (reach_fuel topo) [inst]); [| |done].
    + intros a b Ha Hab. by eapply rtc_r.
    + intros y ->%list_elem_of_singleton. done.
  - assert (inst ∈ s) as Hi by set_solver. clear Hs Hsub. intros Hr. revert Hi.
    induction Hr as [|a b c (l & Hl & Hab) _ IH]; [done|]. intros Ha. apply IH.
    specialize (Hc l Hl). unfold closed_at in Hc. naive_solver.
Qed.

(** The search for a path from an instrument to a unit always ends, and says yes
    exactly when links, followed in either direction, join the two. *)
Theorem reaches_exact inst dut :
  ∃ b, instrument_reaches_dut topo inst dut = Some b ∧ (b = true ↔ rtc (linked topo) inst dut).
Proof.
  unfold instrument_reaches_dut. destruct (reachable_set inst) as (s & -> & Hs).
  exists (str_in dut s). split; [done|]. rewrite <-Hs. apply bool_decide_eq_true.
Qed.
End reaching.

(** ** Groups *)

Section groups.
Implicit Types (s : YamlStep) (l group : list YamlStep) (ids : list string).

(** No member names a member before it, or one of [ids], among its preconditions. *)
Definition in_order ids group : Prop :=
  ∀ g1 s g2, group = g1 ++ s :: g2 → depends_on s (ids ++ (ys_id <$> g1)) = false.

Lemma in_order_cons ids s group :
  depends_on s ids = false → in_order (ids ++ [ys_id s]) group → in_order ids (s :: group).
Proof.
  intros Hs Hg [|x g1] y g2 E; injection E as <- E.
  - by rewrite fmap_nil, app_nil_r.
  - rewrite fmap_cons, (cons_middle _ _ (ys_id <$> g1)), (assoc (++)). by apply (Hg g1 y g2).
Qed.

Lemma split_group_spec ids l group rest :
  split_group ids l = (group, rest) →
  l ≡ₚ group ++ rest ∧ length rest ≤ length l ∧ in_order ids group.
Proof.
  revert ids group rest. induction l as [|s l IH]; intros ids group rest; cbn [split_group].
  - intros [= <- <-]. split_and!; [done|done|]. by intros [].
  - destruct (depends_on s ids) eqn:Hd.
    + destruct (split_group ids l) as [g r] eqn:E. intros [= <- <-].
      destruct (IH _ _ _ E) as (Hp & Hle & Ho). split_and!; [|cbn; lia|done].
      rewrite Hp. by rewrite Permutation_middle.
    + destruct (split_group (ids ++ [ys_id s]) l) as [g r] eqn:E. intros [= <- <-].
      destruct (IH _ _ _ E) as (Hp & Hle & Ho). split_and!; [by rewrite Hp|cbn; lia|].
      by apply in_order_cons.
Qed.

Lemma depends_on_nil s : depends_on s [] = false.
Proof. unfold depends_on. by induction (ys_preconditions s). Qed.

Lemma group_loop_spec fuel l :
  length l ≤ fuel →
  concat (group_loop fuel l) ≡ₚ l ∧ ∀ g, g ∈ group_loop fuel l → in_order [] g.
Proof.
  revert l. induction fuel as [|fuel IH]; intros [|s l] Hlen; cbn [length] in Hlen;
    [split; [done|by intros g ?%elem_of_nil]|lia|split; [done|by intros g ?%elem_of_nil]|].
  cbn [group_loop]. destruct (split_group [ys_id s] l) as [g r] eqn:E.
  destruct (split_group_spec _ _ _ _ E) as (Hp & Hle & Ho).
  destruct (IH r) as [Hperm Hg]; [lia|]. split.
  - cbn [concat]. by rewrite Hperm, Hp.
  - intros g' [->|?]%elem_of_cons; [|by apply Hg].
    apply in_order_cons; [apply depends_on_nil|done].
Qed.
End groups.

Lemma in_order_nth group i j s t p :
  in_order [] group → group !! i = Some s → group !! j = Some t → i < j →
  p ∈ ys_preconditions t → p ≠ ys_id s.
Proof.
  intros Ho Hs Ht Hij Hp ->. apply list_elem_of_split_length in Ht as (g1 & g2 & Hg & Hlen).
  specialize (Ho g1 t g2 Hg). apply not_true_iff_false in Ho. apply Ho.
  apply existsb_exists. exists (ys_id s). split; [by apply list_elem_of_In|].
  apply bool_decide_eq_true. cbn. apply list_elem_of_fmap_2.
  rewrite Hg, lookup_app_l in Hs by lia. by eapply list_elem_of_lookup_2.
Qed.

(** Grouping loses no top-level step and repeats none, and in a group no step
    has an earlier one among its preconditions. (An earlier step may wait for a later one.) *)
Theorem parallel_groups_partition plan :
  concat (all_groups plan) ≡ₚ top_steps plan ∧
  ∀ g i j s t p, g ∈ parallel_groups plan → g !! i = Some s → g !! j = Some t → i < j →
    p ∈ ys_preconditions t → p ≠ ys_id s.
Proof.
  destruct (group_loop_spec (length (top_steps plan)) (top_steps plan)) as [Hp Ho]; [done|].
  split; [done|]. intros g i j s t p Hg. unfold parallel_groups in Hg.
  repeat case_match; try by apply elem_of_nil in Hg.
  apply list_elem_of_filter in Hg as [_ Hg]. by apply in_order_nth, Ho.
Qed.

(** ** Validity *)

Section validity.
Context `{PF : PyFloats} (topo : FixtureTopology) (plan : YamlPlan).

(** Two members of a group at different places that both use an instrument. *)
Definition shared_by (group : list YamlStep) (inst : string) : Prop :=
  ∃ i j s t, i < j ∧ group !! i = Some s ∧ group !! j = Some t ∧
    inst ∈ step_instruments s ∧ inst ∈ step_instruments t.

Lemma shared_resources_spec group inst : inst ∈ shared_resources group ↔ shared_by group inst.
Proof.
  unfold shared_resources. rewrite elem_of_remove_dups. unfold shared_by.
  induction group as [|s group IH]; cbn [shared_from fmap list_fmap].
  - rewrite elem_of_nil. split; [done|]. by intros (i & j & s & t & _ & H & _).
  - rewrite elem_of_app, list_elem_of_filter, existsb_exists, IH. split.
    + intros [[(insts & Hin & Hi) Hs]|(i & j & s' & t & Hij & H)].
      * apply list_elem_of_In, list_elem_of_fmap in Hin as (t & -> & Ht).
        apply list_elem_of_lookup in Ht as [j Hj]. apply bool_decide_eq_true in Hi.
        exists 0, (S j), s, t. split_and!; [lia|done..].
      * exists (S i), (S j), s', t. split; [lia|done].
    + intros (i & j & s' & t & Hij & Hs & Ht & Hi & Hi'). destruct j as [|j]; [lia|].
      cbn in Ht. destruct i as [|i].
      * injection Hs as <-. left. split; [|done]. exists (step_instruments t).
        split; [|by apply bool_decide_eq_true].
        apply list_elem_of_In. apply (list_elem_of_fmap_2 step_instruments).
        by eapply list_elem_of_lookup_2.
      * right. exists i, j, s', t. split; [lia|done].
Qed.

Definition step_supported (s : YamlStep) : Prop :=
  (∀ i, i ∈ step_instruments s → ∃ inst, inst ∈ ft_instruments topo ∧ in_id inst = i) ∧
  (∀ u, step_uut s = Some u → ∃ d, d ∈ ft_duts topo ∧ du_id d = u) ∧
  (∀ f, step_fixture s = Some f →
     ∃ caps, fixture_caps topo !! f = Some caps ∧
       ∀ a, step_fixture_action s = Some a → a ≠ "" → fixture_supports caps a = true).

(** What a plan needs of the topology for no error to be reported. *)
Definition plan_supported : Prop :=
  (∀ s, s ∈ iter_steps plan → step_supported s) ∧
  ∀ g i, g ∈ parallel_groups plan → shared_by g i → has_mutex_switch topo i = true.

Lemma elem_of_ids {A} (f : A → string) (l : list A) x : x ∈ f <$> l ↔ ∃ y, y ∈ l ∧ f y = x.
Proof. rewrite list_elem_of_fmap. naive_solver. Qed.

Lemma instruments_exist_errors s :
  check_instruments_exist topo plan s = [] ↔
  ∀ st i, st ∈ iter_steps plan → i ∈ step_instruments st →
    ∃ inst, inst ∈ ft_instruments topo ∧ in_id inst = i.
Proof.
  setoid_rewrite <-elem_of_ids. unfold check_instruments_exist. rewrite list_bind_empty.
  setoid_rewrite list_bind_empty. split.
  - intros H st i Hst Hi. specialize (H st Hst i Hi). by case_decide.
  - intros H st Hst i Hi. by rewrite decide_True by eauto.
Qed.

Lemma wiring_errors :
  base.filter (at_level LError) (check_resource_wiring topo plan LError) = [] ↔
  ∀ st u, st ∈ iter_steps plan → step_uut st = Some u → ∃ d, d ∈ ft_duts topo ∧ du_id d = u.
Proof.
  setoid_rewrite <-elem_of_ids. rewrite list_filter_empty.
  unfold check_resource_wiring. generalize (iter_steps plan). intros steps.
  setoid_rewrite (list_elem_of_bind _ _ steps). split.
  - intros H st u Hst Hu. destruct (decide (u ∈ du_id <$> ft_duts topo)) as [|Hn]; [done|].
    exfalso. eapply H.
    + exists st. split; [|exact Hst]. rewrite Hu, bool_decide_eq_false_2 by done. left.
    + reflexivity.
  - intros H i (st & Hi & Hst) Hl. destruct (step_uut st) as [u|] eqn:Hu; [|by apply elem_of_nil in Hi].
    rewrite bool_decide_eq_true_2 in Hi by eauto. cbn [negb] in Hi.
    apply list_elem_of_bind in Hi as (inst & Hi & _). case_match; [by apply elem_of_nil in Hi|].
    apply list_elem_of_singleton in Hi as ->. done.
Qed.

Lemma mutex_errors s :
  check_parallel_mutex topo plan s = [] ↔
  ∀ g i, g ∈ parallel_groups plan → shared_by g i → has_mutex_switch topo i = true.
Proof.
  setoid_rewrite <-shared_resources_spec. unfold check_parallel_mutex. rewrite list_bind_empty.
  setoid_rewrite list_bind_empty. split.
  - intros H g i Hg Hi. specialize (H g Hg i Hi). by destruct (has_mutex_switch topo i).
  - intros H g Hg i Hi. by rewrite (H g i Hg Hi).
Qed.

Lemma capability_errors s :
  check_fixture_capability topo plan s = [] ↔
  ∀ st f, st ∈ iter_steps plan → step_fixture st = Some f →
     ∃ caps, fixture_caps topo !! f = Some caps ∧
       ∀ a, step_fixture_action st = Some a → a ≠ "" → fixture_supports caps a = true.
Proof.
  unfold check_fixture_capability. rewrite list_bind_empty. split.
  - intros H st f Hst Hf. specialize (H st Hst). rewrite Hf in H.
    destruct (fixture_caps topo !! f) as [caps|]; [|done]. exists caps. split; [done|].
    intros a Ha Hne. rewrite Ha in H. cbn [default id] in H.
    rewrite (proj2 (truthy_spec (Some a))) in H by eauto. cbn [andb] in H.
    by destruct (fixture_supports caps a).
  - intros H st Hst. destruct (step_fixture st) as [f|] eqn:Hf; [|done].
    destruct (H st f Hst Hf) as (caps & -> & Hc).
    destruct (truthy (step_fixture_action st)) eqn:Ht; [|done].
    apply truthy_spec in Ht as (a & Ha & Hne). rewrite Ha. cbn [default id].
    by rewrite (Hc a Ha Hne).
Qed.

Lemma strict_check_levels l :
  l = check_instruments_exist topo plan LError ∨ l = check_parallel_mutex topo plan LError ∨
    l = check_fixture_capability topo plan LError →
  all_at LError l.
Proof.
  unfold check_instruments_exist, check_parallel_mutex, check_fixture_capability.
  intros [->|[->| ->]]; at_level.
Qed.

(** A plan passes the strict validator exactly when the topology supports it:
    the instruments, units and fixtures its steps name exist, the fixtures offer the actions
    asked of them, and what the steps of a parallel group share has a switch. *)
Theorem plan_valid_iff :
  result_valid (validate_plan topo plan LError) = true ↔ plan_supported.
Proof.
  unfold result_valid, validate_plan. rewrite add_issues_spec. cbn [vr_errors no_issues app].
  rewrite Nat.eqb_eq, !filter_app.
  rewrite (filter_all_at LError (check_instruments_exist _ _ _)),
    (filter_all_at LError (check_parallel_mutex _ _ _)),
    (filter_all_at LError (check_fixture_capability _ _ _)) by (apply strict_check_levels; tauto).
  transitivity (check_instruments_exist topo plan LError = [] ∧
    base.filter (at_level LError) (check_resource_wiring topo plan LError) = [] ∧
    check_parallel_mutex topo plan LError = [] ∧ check_fixture_capability topo plan LError = []).
  { split.
    - intros H%nil_length_inv. by repeat apply app_nil in H as [? H].
    - intros (-> & -> & -> & ->). done. }
  rewrite instruments_exist_errors, wiring_errors, mutex_errors, capability_errors.
  unfold plan_supported, step_supported. naive_solver.
Qed.

(** A single link with a route, of whatever instrument, silences the check of
    shared instruments. *)
Theorem one_route_silences_mutex s l :
  l ∈ ft_links topo → truthy (li_route_id l) = true → check_parallel_mutex topo plan s = [].
Proof.
  intros Hl Ht. apply mutex_errors. intros g i _ _. apply existsb_exists. exists l.
  split; [by apply list_elem_of_In|]. by rewrite Ht.
Qed.
End validity.

(** ** The fields the validator reads *)

(** The parser's own fields for the unit, fixture, action and predecessors of a step. *)
Definition forget_typed (s : YamlStep) : YamlStep :=
  mkStep (ys_id s) None (ys_script s) (ys_params s) (ys_preconditions s) [] (ys_resources s)
    (ys_timeout s) (ys_retry s) (ys_on_fail s) (ys_on_failure s) None (ys_barrier_name s) None None
    (ys_export_outputs s) (ys_skip_if s) (ys_skip_reason s) (ys_condition s).
Fixpoint forget_node (n : YamlNode) : YamlNode :=
  match n with
  | StepNode s inner => StepNode (forget_typed s) (forget_node <$> inner)
  | LoopNode spec steps => LoopNode spec (forget_node <$> steps)
  end.
Definition forget_plan (p : YamlPlan) : YamlPlan :=
  mkPlanDsl (yp_name p) (yp_version p) (yp_scope p) (yp_max_concurrency p) (yp_uut_count p) None
    (forget_node <$> yp_steps p).

Section forgetting.

Lemma concat_fmap_walk (l : list YamlNode) :
  Forall (λ n, walk_node (forget_node n) = forget_typed <$> walk_node n) l →
  concat (walk_node <$> (forget_node <$> l)) = forget_typed <$> concat (walk_node <$> l).
Proof.
  induction 1 as [|n l Hn _ IH]; [done|]. cbn [fmap list_fmap concat] in *.
  by rewrite fmap_app, Hn, <-IH.
Qed.

Lemma walk_forget n : walk_node (forget_node n) = forget_typed <$> walk_node n.
Proof.
  induction n as [s inner _|spec steps IH] using YamlNode_ind'; [done|].
  cbn [walk_node forget_node]. by apply concat_fmap_walk.
Qed.

Lemma iter_steps_forget p : iter_steps (forget_plan p) = forget_typed <$> iter_steps p.
Proof. apply concat_fmap_walk, Forall_forall. intros n _. apply walk_forget. Qed.

Lemma top_steps_forget p : top_steps (forget_plan p) = forget_typed <$> top_steps p.
Proof.
  unfold top_steps, forget_plan. cbn [yp_steps].
  induction (yp_steps p) as [|[s i|sp st] l IH]; [done| |]; cbn; [|exact IH]. by f_equal.
Qed.

Lemma split_group_forget ids (l : list YamlStep) :
  split_group ids (forget_typed <$> l) =
  prod_map (fmap (M:=list) forget_typed) (fmap (M:=list) forget_typed) (split_group ids l).
Proof.
  revert ids. induction l as [|s l IH]; intros ids; [done|].
  rewrite fmap_cons. cbn [split_group]. change (depends_on (forget_typed s) ids) with
    (depends_on s ids). change (ys_id (forget_typed s)) with (ys_id s).
  destruct (depends_on s ids); rewrite IH; by destruct (split_group _ l).
Qed.

Definition forget_group (g : list YamlStep) : list YamlStep := forget_typed <$> g.

Lemma group_loop_forget fuel (l : list YamlStep) :
  group_loop fuel (forget_typed <$> l) = forget_group <$> group_loop fuel l.
Proof.
  revert l. induction fuel as [|fuel IH]; intros [|s l]; [done..|].
  rewrite fmap_cons. cbn [group_loop]. change (ys_id (forget_typed s)) with (ys_id s).
  rewrite split_group_forget. destruct (split_group [ys_id s] l) as [g r].
  cbn [prod_map fst snd]. by rewrite IH.
Qed.

Lemma parallel_groups_forget p :
  parallel_groups (forget_plan p) = forget_group <$> parallel_groups p.
Proof.
  unfold parallel_groups, all_groups. rewrite top_steps_forget, length_fmap, group_loop_forget.
  replace (parallel_enabled (forget_plan p)) with (parallel_enabled p); last first.
  { unfold parallel_enabled, forget_plan. cbn [yp_max_concurrency yp_steps]. f_equal.
    induction (yp_steps p) as [|[] l IH]; [done|..]; cbn; congruence. }
  destruct (length (top_steps p) <? 2)%nat; [done|].
  destruct (negb (parallel_enabled p)); [done|]. rewrite list_filter_fmap. f_equal.
  apply list_filter_iff. intros g. unfold is_group, forget_group. by rewrite length_fmap.
Qed.

Lemma shared_resources_forget g : shared_resources (forget_typed <$> g) = shared_resources g.
Proof. unfold shared_resources. by rewrite <-list_fmap_compose. Qed.

Context `{PF : PyFloats} (topo : FixtureTopology).

(** The validator reads only the params, resources and preconditions of a step:
    whatever the parser put in its unit, fixture, action and depends_on fields is ignored. *)
Theorem typed_fields_ignored p s : validate_plan topo (forget_plan p) s = validate_plan topo p s.
Proof.
  unfold validate_plan. f_equal. f_equal; [|f_equal; [|f_equal]].
  - unfold check_instruments_exist. by rewrite iter_steps_forget, list_fmap_bind.
  - unfold check_resource_wiring. by rewrite iter_steps_forget, list_fmap_bind.
  - unfold check_parallel_mutex. rewrite parallel_groups_forget, list_fmap_bind.
    induction (parallel_groups p) as [|g l IH]; [done|]. rewrite !bind_cons, IH. f_equal.
    unfold compose, forget_group. rewrite shared_resources_forget.
    induction (shared_resources g) as [|i k IHk]; [done|]. rewrite !bind_cons, IHk. f_equal.
    by rewrite list_filter_fmap, <-list_fmap_compose.
  - unfold check_fixture_capability. by rewrite iter_steps_forget, list_fmap_bind.
Qed.
End forgetting.

(** ** Plans on the bench *)

#[local] Existing Instance whole_floats.

Definition uses (id inst : string) (pre : list string) : YamlStep :=
  mkStep id None "s.py" ∅ pre [] (PyDict [("instrument", PyStr inst)]) 60 0 None None None None None
    None false None None None.
Definition plan_of (steps : list YamlNode) : YamlPlan := mkPlanDsl "p" "1.0" ∅ 4 1 None steps.
Definition leaf (s : YamlStep) : YamlNode := StepNode s [].
Definition plan_errors (topo : FixtureTopology) (p : YamlPlan) : list string :=
  vi_path <$> vr_errors (validate_plan topo p LError).

(** A link of another instrument that goes through a route. *)
Definition routed_link : Link :=
  mkLink "L9" (mkEndpoint INSTRUMENT_CHANNEL "DMM" "CH1") (mkEndpoint FIXTURE_TERMINAL "FX" "T1")
    SigSignal None None (Some "R1") LinkIdle None.

Example sharing_is_an_error :
  plan_errors (bench bench_links) (plan_of [leaf (uses "a" "PSU" []); leaf (uses "b" "PSU" [])]) =
  ["parallel.group:PSU"].
Proof. vm_compute. reflexivity. Qed.
Example sharing_in_sequence :
  plan_errors (bench bench_links) (plan_of [leaf (uses "a" "PSU" []); leaf (uses "b" "PSU" ["a"])]) =
  [].
Proof. vm_compute. reflexivity. Qed.
(** A step that waits for a later one counts as parallel to it. *)
Example sharing_in_reverse_sequence :
  plan_errors (bench bench_links) (plan_of [leaf (uses "a" "PSU" ["b"]); leaf (uses "b" "PSU" [])]) =
  ["parallel.group:PSU"].
Proof. vm_compute. reflexivity. Qed.
Example unrelated_route_hides_sharing :
  plan_errors (bench (routed_link :: bench_links))
    (plan_of [leaf (uses "a" "PSU" []); leaf (uses "b" "PSU" [])]) = [].
Proof. vm_compute. reflexivity. Qed.
(** The steps of a subsequence are not looked at, nor the fixture a v3.2 step names. *)
Example subsequence_not_checked :
  plan_errors (bench bench_links) (plan_of [StepNode (default_step "sub") [leaf (uses "a" "GHOST" [])]])
  = [] ∧
  plan_errors (bench bench_links) (plan_of [leaf (uses "a" "GHOST" [])]) =
    ["step:a.instrument:GHOST"].
Proof. vm_compute. done. Qed.
Definition ghost_fixture_step : YamlStep :=
  mkStep "f" (Some FIXTURE_CONTROL) "" ∅ [] [] ∅ 60 0 None None None None (Some "clamp")
    (Some "GHOST") false None None None.
Example ghost_fixture_passes : plan_errors (bench bench_links) (plan_of [leaf ghost_fixture_step]) = [].
Proof. vm_compute. reflexivity. Qed.

Lemma one_route_silences_mutex_witness :
  check_parallel_mutex (bench [routed_link])
    (plan_of [leaf (uses "a" "PSU" []); leaf (uses "b" "PSU" [])]) LError = [].
Proof. apply (one_route_silences_mutex (bench [routed_link]) _ LError routed_link); [left|done]. Defined.

Lemma parallel_groups_partition_witness :
  "x" ≠ ys_id (uses "a" "PSU" []).
Proof.
  apply (proj2 (parallel_groups_partition
    (plan_of [leaf (uses "a" "PSU" []); leaf (uses "b" "PSU" ["x"])]))
    [uses "a" "PSU" []; uses "b" "PSU" ["x"]] 0 1 (uses "a" "PSU" []) (uses "b" "PSU" ["x"]) "x").
  - apply list_elem_of_singleton. vm_compute. reflexivity.
  - done.
  - done.
  - lia.
  - left.
Defined.
