(* ===== verification/Cpsat.v ===== *)
(** * Global scheduling (src/src/ate_platform/scheduler/cpsat.py)

    Steps become intervals of a constraint model: preconditions order them, a resource takes
    one step at a time, operators and robots a bounded number. The solution gives each step its
    start, its end and its wave, the depth in the order the solution fixes. *)

From S2P Require Import Prelude PyDict PyStr PyNum Types Dsl CpModel HumanAllocator.

(** ** Steps *)

Definition duration_of_step (s : YamlStep) : Z :=
  if (0 <? ys_timeout s)%Z then Z.max 1 (ys_timeout s) else 1%Z.
Definition sum_z (l : list Z) : Z := foldr Z.add 0%Z l.

Section build.
Context (steps : list YamlStep).

Definition step_ids : list string := ys_id <$> steps.
Definition step_durations : pydict string Z :=
  dict_of_list ((λ s, (ys_id s, duration_of_step s)) <$> steps : list _).
Definition horizon : Z := sum_z (values step_durations) + Z.of_nat (length steps).

Definition resource_set : list string := remove_dups (steps ≫= λ s, keys (ys_resources s)).
Definition num_resources : Z := Z.max 1 (Z.of_nat (length resource_set)).

(** [setdefault(resource, []).append(step)], built three times in the source. *)
Definition resource_steps : pydict string (list string) :=
  group_by (λ p : string * string, Some p.1) (λ p l, l ++ [p.2])
    (steps ≫= λ s, (λ r, (r, ys_id s)) <$> keys (ys_resources s)).

Record StepVars : Type := mkStepVars { sv_start : var; sv_end : var; sv_interval : interval }.
Record CpState : Type := mkCpState {
  cp_starts : pydict string var; cp_ends : pydict string var; cp_intervals : pydict string interval;
  cp_makespan : var; cp_energy_cost : var
}.

Definition step_vars (s : YamlStep) : M cp_model StepVars :=
  dur <- d_get repr_str step_durations (ys_id s) ;;
  start <- new_int_var 0 horizon ;;
  finish <- new_int_var 0 horizon ;;
  duration <- new_int_var dur dur ;;
  iv <- new_interval (Var start) (Var duration) (Var finish) None ;;
  ret (mkStepVars start finish iv).

Definition by_step {A} (f : StepVars → A) (svs : list StepVars) : pydict string A :=
  dict_of_list (zip step_ids (f <$> svs)).

(** Preconditions that are no step of the plan are passed over. *)
Definition add_precedence (starts ends : pydict string var) (s : YamlStep) : M cp_model unit :=
  for_each (ys_preconditions s) (λ dep,
    if negb (str_in dep step_ids) then ret tt
    else start <- d_get repr_str starts (ys_id s) ;;
         finish <- d_get repr_str ends dep ;;
         add (Linear (Var start) CGe (Var finish) [])).

Definition add_resource (intervals : pydict string interval) (kv : string * list string) :
    M cp_model unit :=
  ivs <- map_m (d_get repr_str intervals) kv.2 ;;
  add (Cumulative ivs (ones ivs) 1).

(** ** Operators and robots *)

(** The workers of [human_resources], the same code for operators and robots: their ids, what
    they offer and how much they can take. *)
Record Helper : Type := mkHelper { he_id : string; he_offers : list string; he_capacity : Z }.
Definition op_helper (o : OperatorSpec) : Helper :=
  mkHelper (op_id o) (op_skills o) (op_max_concurrent_tasks o).
Definition rb_helper (r : RobotSpec) : Helper :=
  mkHelper (rb_id r) (rb_capabilities r) (rb_max_concurrent_tasks r).

Definition required (key : string) (s : YamlStep) : option string :=
  match ys_params s !! key with
  | Some (PyStr r) => if decide (r = "") then None else Some r
  | _ => None
  end.

(** A step whose requirement nobody offers is left unconstrained. *)
Definition assign_helper (key : string) (helpers : list Helper) (s : YamlStep) :
    M cp_model (list (string * pydict string var)) :=
  match required key s with
  | None => ret []
  | Some r =>
      match base.filter (λ h, r ∈ he_offers h) helpers with
      | [] => ret []
      | eligible =>
          vars <- map_m (λ h, b <- new_bool_var ;; ret (he_id h, b)) eligible ;;
          let assign := dict_of_list vars in
          add (ExactlyOne (pos_lit <$> values assign)) ;;;
          ret [(ys_id s, assign)]
      end
  end.
Definition helper_interval (starts ends : pydict string var)
    (assign : pydict string (pydict string var)) (h : Helper) (s : YamlStep) :
    M cp_model (list interval) :=
  match default ∅ (assign !! ys_id s) !! he_id h with
  | None => ret []
  | Some b =>
      start <- d_get repr_str starts (ys_id s) ;;
      dur <- d_get repr_str step_durations (ys_id s) ;;
      finish <- d_get repr_str ends (ys_id s) ;;
      iv <- new_interval (Var start) (Const dur) (Var finish) (Some (pos_lit b)) ;;
      ret [iv]
  end.
Definition limit_helper starts ends assign (h : Helper) : M cp_model unit :=
  ivs <- map_m (helper_interval starts ends assign h) steps ;;
  match concat ivs with
  | [] => ret tt
  | l => add (Cumulative l (ones l) (he_capacity h))
  end.
Definition add_helpers starts ends (key : string) (helpers : list Helper) : M cp_model unit :=
  assigned <- map_m (assign_helper key helpers) steps ;;
  for_each helpers (limit_helper starts ends (dict_of_list (concat assigned))).

(** ** Objectives *)

(** Each unit of work costs 10, an idle resource 5 a unit: the power of a step is 1.0, which
    [YamlStep] does not define. *)
Definition active_energy : Z :=
  sum_z ((λ s, 10 * default 0 (step_durations !! ys_id s))%Z <$> steps).
Definition energy_constant : Z := active_energy - 5 * sum_z (values step_durations).

(** [sum(weight * (horizon - start))], and whether there is a term. *)
Definition fault_term (starts : pydict string var) (penalty : pydict string Z) (s : YamlStep) :
    M cp_model (list lexpr) :=
  let weight := default 0%Z (penalty !! ys_id s) in
  if (0 <? weight)%Z then
    start <- d_get repr_str starts (ys_id s) ;;
    ret [Times weight (Plus (Const horizon) (Times (-1) (Var start)))]
  else ret [].

Definition step_products : pydict string string :=
  dict_of_list (omap (λ s, match ys_params s !! "product_type" with
                           | Some (PyStr p) => Some (ys_id s, p)
                           | _ => None
                           end) steps).

(** The pairs [(l[i], l[j])] with [i < j]. *)
Fixpoint pairs_of {A} (l : list A) : list (A * A) :=
  match l with [] => [] | a :: l' => ((a,.) <$> l') ++ pairs_of l' end.

Definition changeover_term (starts ends : pydict string var)
    (matrix : pydict (string * string) Z) (ij : string * string) : M cp_model (list lexpr) :=
  match step_products !! ij.1, step_products !! ij.2 with
  | Some pi, Some pj =>
      let cost_ij := default 0%Z (matrix !! (pi, pj)) in
      let cost_ji := default 0%Z (matrix !! (pj, pi)) in
      if bool_decide (pi = pj) || ((cost_ij =? 0) && (cost_ji =? 0))%Z then ret []
      else
        b <- new_bool_var ;;
        end_i <- d_get repr_str ends ij.1 ;;
        start_j <- d_get repr_str starts ij.2 ;;
        add (Linear (Var end_i) CLe (Var start_j) [pos_lit b]) ;;;
        add (Linear (Var end_i) CGt (Var start_j) [neg_lit b]) ;;;
        ret [Plus (Times cost_ij (Var b)) (Times cost_ji (Plus (Const 1) (Times (-1) (Var b))))]
  | _, _ => ret []
  end.
Definition changeover_pairs : list (string * string) :=
  values resource_steps ≫= pairs_of.

Definition add_objective (objective : string) (makespan energy : var) (terms : list lexpr) :
    M cp_model unit :=
  let base := if decide (objective = "energy") then Var energy else Var makespan in
  minimize match terms with [] => base | _ => Plus base (lsum terms) end.

(** ** The model *)

Record Extras : Type := mkExtras {
  ex_fault_penalty : pydict string Z;
  ex_changeover_matrix : pydict (string * string) Z;
  ex_operators : list OperatorSpec;
  ex_robots : list RobotSpec
}.
Definition no_extras : Extras := mkExtras ∅ ∅ [] [].

Definition build_step_model (objective : string) (ex : Extras) : M cp_model CpState :=
  svs <- map_m step_vars steps ;;
  let starts := by_step sv_start svs in
  let ends := by_step sv_end svs in
  let intervals := by_step sv_interval svs in
  for_each steps (add_precedence starts ends) ;;;
  for_each (items resource_steps) (add_resource intervals) ;;;
  add_helpers starts ends "required_skill" (op_helper <$> ex_operators ex) ;;;
  add_helpers starts ends "required_capability" (rb_helper <$> ex_robots ex) ;;;
  makespan <- new_int_var 0 horizon ;;
  for_each (values ends) (λ e, add (Linear (Var makespan) CGe (Var e) [])) ;;;
  energy <- new_int_var 0 (horizon * 1000) ;;
  add (Linear (Var energy) CEq
    (Plus (Const energy_constant) (Times (5 * num_resources) (Var makespan))) []) ;;;
  faults <- map_m (fault_term starts (ex_fault_penalty ex)) steps ;;
  changeovers <- map_m (changeover_term starts ends (ex_changeover_matrix ex)) changeover_pairs ;;
  add_objective objective makespan energy (concat faults ++ concat changeovers) ;;;
  ret (mkCpState starts ends intervals makespan energy).

(** ** Waves *)

(** [raw], and the steps sorted by their starts. *)
Definition raw_schedule (σ : assignment) (st : CpState) : pydict string (Z * Z) :=
  dict_of_list (omap (λ s, match cp_starts st !! ys_id s, cp_ends st !! ys_id s with
                           | Some a, Some b => Some (ys_id s, (σ a, σ b))
                           | _, _ => None
                           end) steps).
Definition start_in (raw : pydict string (Z * Z)) (sid : string) : Z :=
  default 0%Z (fst <$> raw !! sid).
Definition starts_before (raw : pydict string (Z * Z)) (a b : string) : Prop :=
  (start_in raw a <= start_in raw b)%Z.
#[export] Instance starts_before_dec raw : RelDecision (starts_before raw).
Proof. intros a b. unfold starts_before. apply _. Defined.
Definition sorted_by_start raw (sids : list string) : list string :=
  stable_sort (starts_before raw) sids.

Fixpoint successions {A} (l : list A) : list (A * A) :=
  match l with
  | a :: (b :: _) as l' => (a, b) :: successions l'
  | _ => []
  end.

(** The predecessors of a step: its preconditions in the plan, and on each of its resources the
    step before it. *)
Definition predecessors (raw : pydict string (Z * Z)) (sid : string) : list string :=
  (s ← base.filter (λ s, ys_id s = sid) steps;
   base.filter (λ p, p ∈ step_ids) (ys_preconditions s)) ++
  (sids ← values resource_steps;
   fst <$> base.filter (λ p : string * string, p.2 = sid) (successions (sorted_by_start raw sids))).

Definition assign_wave (preds : string → list string) (w : pydict string Z) (sid : string) :
    pydict string Z :=
  if has_key sid w then w
  else match mapM (w !!.) (preds sid) with
       | Some ws => <[sid := (1 + foldr Z.max 0 ws)%Z]> w
       | None => w
       end.
(** [while len(wave_assignment) < len(steps)] over the ids, which come in any order; [None] when
    the fuel is spent. *)
Fixpoint wave_loop (fuel : nat) (preds : string → list string) (ids : list string) (n : nat)
    (w : pydict string Z) : option (pydict string Z) :=
  if (dict_len w <? n)%nat then
    match fuel with
    | O => None
    | S fuel' => wave_loop fuel' preds ids n (foldl (assign_wave preds) w ids)
    end
  else Some w.
Definition extract_schedule (set_order : list string → list string) (fuel : nat) (σ : assignment) (st : CpState) :
    option (pydict string (Z * Z * Z)) :=
  let raw := raw_schedule σ st in
  waves ← wave_loop fuel (predecessors raw) (set_order (remove_dups step_ids))
    (length steps) ∅;
  Some (PyDict ((λ kv : string * (Z * Z), (kv.1, (kv.2, default 0%Z (waves !! kv.1)))) <$> items raw)).

(** [None]: the call does not return. [set_order] is the order in which Python lists a set. *)
Definition schedule `{CS : CpSolver} (set_order : list string → list string) (fuel : nat) (available : bool) (objectives : list string)
    (ex : Extras) : option (res (option (pydict string (Z * Z * Z)))) :=
  match steps with
  | [] => Some (Ok (Some ∅))
  | _ =>
      if negb available then Some (Ok None)
      else match build_step_model (default "makespan" (head objectives)) ex empty_model with
           | (Raise e, _) => Some (Raise e)
           | (Ok st, m) =>
               let '(s, σ) := solve 0 m in
               if optimal_or_feasible s
               then r ← extract_schedule set_order fuel σ st; Some (Ok (Some r))
               else Some (Ok None)
           end
  end.
End build.

(** ** Waves end and order the steps *)

Section waves.
Context (preds : string → list string) (ids : list string).
Implicit Types (w : pydict string Z) (s p : string).

(** Waves are given once, to steps of the plan, above those of all predecessors. *)
Definition wave_inv w : Prop :=
  dict_wf w ∧ ∀ s x, w !! s = Some x →
    s ∈ ids ∧ (1 <= x)%Z ∧ ∀ p, p ∈ preds s → ∃ y, w !! p = Some y ∧ (y < x)%Z.
Definition keeps w w' : Prop := ∀ s x, w !! s = Some x → w' !! s = Some x.

Lemma foldr_max_le ws (x : Z) : x ∈ ws → (x <= foldr Z.max 0 ws)%Z.
Proof.
  induction ws as [|y ws IH]; [by intros ?%elem_of_nil|]. cbn [foldr].
  intros [->|?%IH]%elem_of_cons; lia.
Qed.
Lemma foldr_max_nonneg (ws : list Z) : (0 <= foldr Z.max 0 ws)%Z.
Proof. induction ws; cbn; lia. Qed.

Lemma assign_wave_spec w s :
  s ∈ ids → wave_inv w →
  let w' := assign_wave preds w s in
  wave_inv w' ∧ keeps w w' ∧ ((∀ p, p ∈ preds s → is_Some (w !! p)) → is_Some (w' !! s)).
Proof.
  intros Hs [Hwf Hw]. unfold assign_wave. destruct (has_key s w) eqn:Hk.
  { split_and!; [done|by intros k x|]. intros _. by apply bool_decide_eq_true in Hk. }
  apply bool_decide_eq_false, eq_None_not_Some in Hk.
  destruct (mapM (w !!.) (preds s)) as [ws|] eqn:Hm.
  - apply mapM_Some in Hm.
    assert (keeps w (<[s := (1 + foldr Z.max 0 ws)%Z]> w)) as Hkeep.
    { intros k x Hx. rewrite dict_lookup_insert_ne; [done|congruence]. }
    split_and!; [split; [by apply dict_wf_insert|]|done|].
    + intros k x. rewrite dict_lookup_insert. case_decide as Hks.
      * subst k. intros [= <-]. pose proof (foldr_max_nonneg ws). split_and!; [done|lia|].
        intros p [n Hn]%list_elem_of_lookup. destruct (Forall2_lookup_l _ _ _ _ _ Hm Hn) as (y & Hy & Hpy).
        exists y. split; [by apply Hkeep|]. apply list_elem_of_lookup_2, foldr_max_le in Hy. lia.
      * intros (Hin & Hx & Hp)%Hw. split_and!; [done|done|].
        intros p (y & Hy & ?)%Hp. exists y. split; [by apply Hkeep|done].
    + intros _. rewrite dict_lookup_insert_eq. eauto.
  - split_and!; [done|by intros k x|]. intros Hp. exfalso.
    apply eq_None_not_Some in Hm. apply Hm. apply mapM_is_Some, Forall_forall. done.
Qed.

Lemma assign_waves_spec l w :
  (∀ s, s ∈ l → s ∈ ids) → wave_inv w →
  let w' := foldl (assign_wave preds) w l in
  wave_inv w' ∧ keeps w w' ∧
  ∀ s, s ∈ l → (∀ p, p ∈ preds s → is_Some (w !! p)) → is_Some (w' !! s).
Proof.
  revert w. induction l as [|s l IH]; intros w Hl Hw; cbn [foldl].
  - split_and!; [done|by intros k x|by intros s ?%elem_of_nil].
  - destruct (assign_wave_spec w s (Hl s (list_elem_of_here _ _)) Hw) as (Hw1 & Hk1 & Hs1).
    destruct (IH (assign_wave preds w s)) as (Hw2 & Hk2 & Hs2); [intros; apply Hl; by right|done|].
    split_and!; [done|intros k x ?; by apply Hk2, Hk1|].
    intros k [->|Hk]%elem_of_cons Hp.
    + destruct (Hs1 Hp) as [x Hx]. exists x. by apply Hk2.
    + apply Hs2; [done|]. intros p [x Hx]%Hp. exists x. by apply Hk1.
Qed.

Lemma wave_inv_len w : wave_inv w → dict_len w ≤ length ids.
Proof.
  intros [Hwf Hw]. unfold dict_len. rewrite <-(length_fmap fst).
  apply submseteq_length, NoDup_submseteq; [apply Hwf|].
  intros s [x Hx]%elem_of_keys. by apply Hw in Hx as [? _].
Qed.

(** More steps than ids: the loop has no end. *)
Lemma wave_loop_diverges fuel n w :
  wave_inv w → length ids < n → wave_loop fuel preds ids n w = None.
Proof.
  revert w. induction fuel as [|fuel IH]; intros w Hw Hn; cbn [wave_loop];
    rewrite (proj2 (Nat.ltb_lt _ _)) by (pose proof (wave_inv_len w Hw); lia); [done|].
  apply IH; [|done]. by apply assign_waves_spec.
Qed.

Context (rank : string → Z) (Hnd : NoDup ids).
Context (Hpred : ∀ s p, s ∈ ids → p ∈ preds s → p ∈ ids ∧ (rank p < rank s)%Z).

Lemma least_rank l : l ≠ [] → ∃ s : string, s ∈ l ∧ ∀ t, t ∈ l → (rank s <= rank t)%Z.
Proof.
  induction l as [|s l IH]; [done|]. intros _. destruct l as [|t l].
  - exists s. split; [left|]. by intros t ->%list_elem_of_singleton.
  - destruct IH as (m & Hm & Hmin); [done|]. destruct (Z.le_gt_cases (rank s) (rank m)).
    + exists s. split; [left|]. intros u [->|Hu]%elem_of_cons; [lia|]. specialize (Hmin u Hu). lia.
    + exists m. split; [by right|]. intros u [->|Hu]%elem_of_cons; [lia|by apply Hmin].
Qed.

Lemma wave_pass_grows w :
  wave_inv w → dict_len w < length ids →
  dict_len w < dict_len (foldl (assign_wave preds) w ids).
Proof.
  intros Hw Hlt. destruct (assign_waves_spec ids w (λ s H, H) Hw) as (Hw' & Hk & Hs).
  set (missing := base.filter (λ s, w !! s = None) ids).
  destruct (least_rank missing) as (s & Hin & Hmin).
  { intros Hm. assert (length ids ≤ dict_len w); [|lia].
    unfold dict_len. rewrite <-(length_fmap fst). apply submseteq_length, NoDup_submseteq; [done|].
    intros s Hs'. apply elem_of_keys, not_eq_None_Some. intros Hn.
    by eapply (proj1 (list_filter_empty _ _) Hm). }
  apply list_elem_of_filter in Hin as [Hn Hin].
  assert (is_Some (foldl (assign_wave preds) w ids !! s)) as Hs'.
  { apply Hs; [done|]. intros p Hp. destruct (Hpred s p Hin Hp) as [Hpi Hr].
    apply not_eq_None_Some. intros Hpn.
    assert (rank s <= rank p)%Z; [|lia]. apply Hmin. by apply list_elem_of_filter. }
  unfold dict_len. rewrite <-(length_fmap fst), <-(length_fmap fst (items (foldl _ _ _))).
  assert (s ∉ keys w) by (by apply not_elem_of_keys).
  change (length (s :: keys w) ≤ length (keys (foldl (assign_wave preds) w ids))).
  apply submseteq_length, NoDup_submseteq; [apply NoDup_cons; split; [done|apply Hw]|].
  intros k [->|[x Hx]%elem_of_keys]%elem_of_cons; apply elem_of_keys; [done|].
  exists x. by apply Hk.
Qed.

Lemma wave_loop_total fuel w :
  wave_inv w → length ids - dict_len w ≤ fuel →
  ∃ w', wave_loop fuel preds ids (length ids) w = Some w' ∧ wave_inv w' ∧
    ∀ s, s ∈ ids → is_Some (w' !! s).
Proof.
  revert w. induction fuel as [|fuel IH]; intros w Hw Hf; cbn [wave_loop];
    pose proof (wave_inv_len w Hw); destruct (Nat.ltb_spec (dict_len w) (length ids)); try lia.
  1,3: exists w; split_and!; [done|done|]; intros s Hs; apply elem_of_keys;
    enough (ids ⊆+ keys w) by (by eapply elem_of_submseteq);
    assert (Hp : keys w ≡ₚ ids);
    [apply submseteq_length_Permutation; [apply NoDup_submseteq; [apply Hw|];
      intros k [x Hx]%elem_of_keys; by apply (proj2 Hw) in Hx as [? _]
     |unfold keys; rewrite length_fmap; unfold dict_len in *; lia]|by rewrite Hp].
  apply IH; [by apply assign_waves_spec|]. pose proof (wave_pass_grows w Hw). lia.
Qed.
End waves.

(** ** What the solutions say *)

Lemma load_two σ t ivs i j iv jv :
  i ≠ j → ivs !! i = Some iv → ivs !! j = Some jv → active σ t iv = true → active σ t jv = true →
  (2 <= load σ t ivs (ones ivs))%Z.
Proof.
  assert (Hpos : ∀ ivs, (0 <= load σ t ivs (ones ivs))%Z).
  { clear. induction ivs as [|iv ivs IH]; [done|].
    change (ones (iv :: ivs)) with (1%Z :: ones ivs). cbn [load]. case_match; lia. }
  assert (Hone : ∀ ivs j jv, ivs !! j = Some jv → active σ t jv = true →
    (1 <= load σ t ivs (ones ivs))%Z).
  { clear -Hpos. induction ivs as [|iv ivs IH]; intros j jv Hj Ha; [done|].
    change (ones (iv :: ivs)) with (1%Z :: ones ivs). cbn [load]. destruct j as [|j].
    - injection Hj as ->. rewrite Ha. specialize (Hpos ivs). lia.
    - specialize (IH j jv Hj Ha). case_match; lia. }
  revert i j. induction ivs as [|kv ivs IH]; intros i j Hij Hi Hj Ha Hb; [done|].
  change (ones (kv :: ivs)) with (1%Z :: ones ivs). cbn [load].
  destruct i as [|i], j as [|j]; [done|..].
  - injection Hi as ->. rewrite Ha. specialize (Hone ivs j jv Hj Hb). lia.
  - injection Hj as ->. rewrite Hb. specialize (Hone ivs i iv Hi Ha). lia.
  - assert (2 <= load σ t ivs (ones ivs))%Z by (eapply (IH i j); try done; congruence).
    case_match; lia.
Qed.

Section solutions.
Context (steps : list YamlStep).

(** What a dictionary of the plan guarantees: distinct ids, distinct resources. *)
Record plan_keys : Prop := {
  pk_ids : NoDup (step_ids steps);
  pk_resources s : s ∈ steps → dict_wf (ys_resources s)
}.

Definition step_placed (s : YamlStep) (sv : StepVars) (σ : assignment) : Prop :=
  ∃ dur d, step_durations steps !! ys_id s = Some dur ∧
    sv_interval sv = mkInterval (Var (sv_start sv)) (Var d) (Var (sv_end sv)) None ∧
    (0 <= σ (sv_start sv))%Z ∧ (σ (sv_end sv) = σ (sv_start sv) + dur)%Z.

Lemma builds_step_vars s : builds (step_vars steps s) (step_placed s).
Proof.
  eapply builds_weaken.
  - apply builds_bind; [apply builds_d_get|intros dur].
    apply builds_bind; [apply builds_int_var|intros start].
    apply builds_bind; [apply builds_int_var|intros finish].
    apply builds_bind; [apply builds_int_var|intros duration].
    apply builds_bind; [apply builds_interval|intros iv]. apply builds_ret.
  - cbn beta. intros sv σ (dur & Hdur & a & Ha & b & Hb & d & Hd & iv & [-> Hiv] & ->).
    exists dur, d. cbn [sv_start sv_end sv_interval leval present iv_presence] in *.
    specialize (Hiv eq_refl). split_and!; [done|done|lia|lia].
Qed.

Definition precedence_ok (starts ends : pydict string var) (s : YamlStep) (σ : assignment) : Prop :=
  ∀ dep a b, dep ∈ ys_preconditions s → dep ∈ step_ids steps → starts !! ys_id s = Some a →
    ends !! dep = Some b → (σ b <= σ a)%Z.

Lemma builds_precedence starts ends s :
  builds (add_precedence steps starts ends s) (λ _ σ, precedence_ok starts ends s σ).
Proof.
  eapply builds_weaken; [apply (builds_for_each _ (λ dep σ, ∀ a b, dep ∈ step_ids steps →
    starts !! ys_id s = Some a → ends !! dep = Some b → (σ b <= σ a)%Z))|].
  - intros dep _. destruct (str_in dep (step_ids steps)) eqn:Hin; cbn [negb].
    + eapply builds_weaken.
      * apply builds_bind; [apply builds_d_get|intros a].
        apply builds_bind; [apply builds_d_get|intros b]. apply builds_add.
      * cbn beta. intros ? σ (a & Ha & b & Hb & Hc) a' b' _ Ha' Hb'. simplify_eq.
        cbn [holds forallb implb leval cmp_holds] in Hc. lia.
    + eapply builds_weaken; [apply builds_ret|]. intros ? σ _ a b Hd.
      by apply bool_decide_eq_false in Hin.
  - intros ? σ H dep a b Hdep. by apply H.
Qed.

Definition resource_ok (intervals : pydict string interval) (kv : string * list string)
    (σ : assignment) : Prop :=
  ∃ ivs, Forall2 (λ sid iv, intervals !! sid = Some iv) kv.2 ivs ∧
    holds σ (Cumulative ivs (ones ivs) 1) = true.

Lemma builds_resource intervals kv :
  builds (add_resource intervals kv) (λ _ σ, resource_ok intervals kv σ).
Proof.
  eapply builds_weaken.
  - apply builds_bind; [apply builds_map_m; intros; apply builds_d_get|intros ivs]. apply builds_add.
  - cbn beta. intros ? σ (ivs & H1 & H2). by exists ivs.
Qed.

(** Code whose effect on the solutions does not matter here. *)
Lemma builds_any {A} (b : M cp_model A) (Q : A → assignment → Prop) :
  builds b Q → builds b (λ _ _, True).
Proof. intros H. by eapply builds_weaken. Qed.
Ltac any_builds :=
  repeat first
    [ eapply builds_any; first [apply builds_ret | apply builds_add | apply builds_int_var
        | apply builds_interval | apply builds_d_get | apply builds_raise | apply builds_minimize]
    | case_match
    | eapply builds_any, builds_bind; [|intros ?] ].

Lemma builds_map_any {A B} (body : A → M cp_model B) l :
  (∀ x, builds (body x) (λ _ _, True)) → builds (map_m body l) (λ _ _, True).
Proof. intros H. eapply builds_any, (builds_map_m _ (λ _ _ _, True)). intros x _. apply H. Qed.
Lemma builds_each_any {A} (body : A → M cp_model unit) l :
  (∀ x, builds (body x) (λ _ _, True)) → builds (for_each l body) (λ _ _, True).
Proof. intros H. eapply builds_any, (builds_for_each _ (λ _ _, True)). intros x _. apply H. Qed.

Lemma builds_helpers starts ends key hs :
  builds (add_helpers steps starts ends key hs) (λ _ _, True).
Proof.
  eapply builds_any, builds_bind; [apply builds_map_any; intros s|intros ?].
  - unfold assign_helper. case_match; [|any_builds]. case_match; [any_builds|].
    eapply builds_any, builds_bind; [apply builds_map_any; intros; any_builds|intros ?]. any_builds.
  - apply builds_each_any. intros h. unfold limit_helper.
    eapply builds_any, builds_bind; [apply builds_map_any; intros s; unfold helper_interval; any_builds|].
    intros ?. any_builds.
Qed.

Definition schedule_ok (st : CpState) (σ : assignment) : Prop :=
  ∃ svs, Forall2 (λ s sv, step_placed s sv σ) steps svs ∧
    cp_starts st = by_step steps sv_start svs ∧ cp_ends st = by_step steps sv_end svs ∧
    (∀ s, s ∈ steps → precedence_ok (cp_starts st) (cp_ends st) s σ) ∧
    ∀ kv, kv ∈ items (resource_steps steps) → resource_ok (by_step steps sv_interval svs) kv σ.

Lemma builds_step_model objective ex : builds (build_step_model steps objective ex) schedule_ok.
Proof.
  eapply builds_weaken.
  - apply builds_bind; [apply builds_map_m; intros; apply builds_step_vars|intros svs].
    apply builds_bind; [apply builds_for_each; intros; apply builds_precedence|intros ?].
    apply builds_bind; [apply builds_for_each; intros; apply builds_resource|intros ?].
    do 2 (apply builds_bind; [apply builds_helpers|intros ?]).
    apply builds_bind; [apply builds_int_var|intros ms].
    apply builds_bind; [apply builds_each_any; intros; any_builds|intros ?].
    apply builds_bind; [apply builds_int_var|intros en].
    apply builds_bind; [apply builds_add|intros ?].
    apply builds_bind; [apply builds_map_any; intros; unfold fault_term; any_builds|intros fs].
    apply builds_bind; [apply builds_map_any; intros; unfold changeover_term; any_builds|intros cs].
    apply builds_bind; [apply builds_minimize|intros ?]. apply builds_ret.
  - cbn beta. intros st σ (svs & Hs & _ & Hp & _ & Hr & _ & _ & _ & _ & ms & _ & _ & _ & en & _ & _
      & _ & fs & _ & cs & _ & _ & _ & ->).
    exists svs. split_and!; [done..|].
    intros kv Hkv. by apply Hr.
Qed.
End solutions.

(** ** Resources *)

Section resources.
Context (steps : list YamlStep) (Hkeys : plan_keys steps).

(** The ids of the steps that use a resource, in plan order. *)
Definition users (r : string) : list string :=
  ys_id <$> base.filter (λ s, r ∈ keys (ys_resources s)) steps.

Lemma resource_pairs r :
  snd <$> base.filter (λ p : string * string, Some p.1 = Some r)
    (steps ≫= λ s, (λ r, (r, ys_id s)) <$> keys (ys_resources s)) = users r.
Proof.
  unfold users. assert (∀ s, s ∈ steps → NoDup (keys (ys_resources s))) as Hwf
    by (intros s Hs; by apply (pk_resources _ Hkeys)).
  clear Hkeys. induction steps as [|s l IH]; [done|].
  change ((s :: l) ≫= ?f) with (f s ++ (l ≫= f)). rewrite filter_app, fmap_app.
  rewrite IH by (intros; apply Hwf; by right). rewrite filter_cons.
  specialize (Hwf s (list_elem_of_here _ _)).
  enough (snd <$> base.filter (λ p : string * string, Some p.1 = Some r)
    ((λ r, (r, ys_id s)) <$> keys (ys_resources s)) =
    if decide (r ∈ keys (ys_resources s)) then [ys_id s] else []) as ->
    by (case_decide; done).
  rewrite list_filter_fmap, <-list_fmap_compose. cbn [fst].
  revert Hwf. generalize (keys (ys_resources s)). intros ks Hnd.
  induction ks as [|k ks IHk]; [done|]. apply NoDup_cons in Hnd as [Hk Hnd].
  rewrite filter_cons. destruct (decide (Some k = Some r)) as [[= ->]|Hr].
  - rewrite (decide_True (P := r ∈ r :: ks)) by left.
    rewrite (proj2 (list_filter_empty _ _)); [done|]. by intros x Hx [= ->].
  - rewrite IHk by done. destruct (decide (r ∈ ks)) as [Hin|Hin].
    + by rewrite decide_True by (by right).
    + rewrite decide_False; [done|]. by intros [->|?]%elem_of_cons.
Qed.

Lemma resource_steps_spec r sids :
  (r, sids) ∈ items (resource_steps steps) → sids = users r ∧ NoDup sids.
Proof.
  intros Hin. apply elem_of_items in Hin; [|apply group_by_wf].
  assert (default [] (resource_steps steps !! r) = users r) as Hu.
  { unfold resource_steps. rewrite group_by_lookup.
    rewrite (foldl_append snd). cbn [app]. apply resource_pairs. }
  rewrite Hin in Hu. cbn in Hu. subst sids. split; [done|].
  unfold users. eapply sublist_NoDup; [apply (pk_ids _ Hkeys)|]. unfold step_ids.
  apply fmap_sublist, sublist_filter.
Qed.

Lemma resource_used r s : s ∈ steps → r ∈ keys (ys_resources s) → (r, users r) ∈ items (resource_steps steps).
Proof.
  intros Hs Hr. assert (ys_id s ∈ users r) as Hu.
  { unfold users. apply (list_elem_of_fmap_2 ys_id). by apply list_elem_of_filter. }
  assert (default [] (resource_steps steps !! r) = users r) as Hd.
  { unfold resource_steps. rewrite group_by_lookup, (foldl_append snd). apply resource_pairs. }
  apply elem_of_items; [apply group_by_wf|].
  destruct (resource_steps steps !! r); cbn in Hd; [by subst|].
  rewrite <-Hd in Hu. by apply elem_of_nil in Hu.
Qed.
End resources.

(** ** The schedule *)

Lemma successions_lookup {A} (l : list A) a b :
  (a, b) ∈ successions l → ∃ i, l !! i = Some a ∧ l !! S i = Some b.
Proof.
  induction l as [|x [|y l] IH]; cbn [successions]; [by intros ?%elem_of_nil..|].
  intros [[= -> ->]|(i & Hi & Hj)%IH]%elem_of_cons; [by exists 0|by exists (S i)].
Qed.

Lemma successions_Sorted {A} (R : A → A → Prop) l :
  (∀ a b, (a, b) ∈ successions l → R a b) → Sorted R l.
Proof.
  induction l as [|x [|y l] IH]; intros H.
  - constructor.
  - repeat constructor.
  - constructor; [apply IH; intros; apply H; by right|]. constructor. apply H. left.
Qed.

Lemma StronglySorted_lookup {A} (R : A → A → Prop) l i j x y :
  StronglySorted R l → l !! i = Some x → l !! j = Some y → i < j → R x y.
Proof.
  intros Hs. revert i j. induction Hs as [|z l Hs IH Hz]; intros i j Hi Hj Hij; [done|].
  destruct j as [|j]; [lia|]. cbn in Hj. destruct i as [|i].
  - injection Hi as <-. by eapply Forall_lookup_1.
  - eapply (IH i j); [done|done|lia].
Qed.

Section placed.
Context (steps : list YamlStep) (Hkeys : plan_keys steps).
Context (st : CpState) (σ : assignment) (Hok : schedule_ok steps st σ).
Let raw := raw_schedule steps σ st.

(** Where a step was put: its variables, and its entry of [raw]. *)
Definition put_at (s : YamlStep) (a b : Z) : Prop :=
  raw !! ys_id s = Some (a, b) ∧ (0 <= a)%Z ∧ (b = a + duration_of_step s)%Z ∧
  ∃ va vb, cp_starts st !! ys_id s = Some va ∧ cp_ends st !! ys_id s = Some vb ∧ σ va = a ∧ σ vb = b.

Lemma by_step_lookup {A} (f : StepVars → A) svs n s sv :
  length steps = length svs → steps !! n = Some s → svs !! n = Some sv →
  by_step steps f svs !! ys_id s = Some (f sv).
Proof.
  intros Hlen Hs Hsv. unfold by_step. apply dict_of_list_lookup.
  - rewrite fst_zip; [apply (pk_ids _ Hkeys)|]. unfold step_ids. rewrite !length_fmap. lia.
  - apply (list_elem_of_lookup_2 _ n), lookup_zip_with_Some. exists (ys_id s), (f sv).
    unfold step_ids. by rewrite !list_lookup_fmap, Hs, Hsv.
Qed.

Lemma duration_lookup s : s ∈ steps → step_durations steps !! ys_id s = Some (duration_of_step s).
Proof.
  intros Hs. apply dict_of_list_lookup.
  - rewrite <-list_fmap_compose. apply (pk_ids _ Hkeys).
  - by apply (list_elem_of_fmap_2 (λ s, (ys_id s, duration_of_step s))).
Qed.

Lemma step_put s : s ∈ steps → ∃ a b, put_at s a b.
Proof.
  intros Hs. destruct Hok as (svs & Hsv & Est & Een & _). pose proof (Forall2_length _ _ _ Hsv) as Hlen.
  pose proof Hs as [n Hn]%list_elem_of_lookup.
  destruct (Forall2_lookup_l _ _ _ _ _ Hsv Hn) as (sv & Hv & dur & d & Hd & _ & Ha & Hb).
  rewrite duration_lookup in Hd by done. injection Hd as <-.
  assert (cp_starts st !! ys_id s = Some (sv_start sv)) as E1 by (rewrite Est; by eapply by_step_lookup).
  assert (cp_ends st !! ys_id s = Some (sv_end sv)) as E2 by (rewrite Een; by eapply by_step_lookup).
  exists (σ (sv_start sv)), (σ (sv_end sv)). split_and!; [|done|done|eauto 10].
  unfold raw, raw_schedule. apply dict_of_list_lookup.
  - apply (NoDup_omap_keys ys_id); [|apply (pk_ids _ Hkeys)]. intros x k v. by repeat case_match; intros [= <- <-].
  - apply list_elem_of_omap. exists s. by rewrite E1, E2.
Qed.

Lemma put_at_fun s a b a' b' : put_at s a b → put_at s a' b' → a = a' ∧ b = b'.
Proof. intros [E _] [E' _]. rewrite E in E'. by injection E'. Qed.

Lemma duration_pos s : (1 <= duration_of_step s)%Z.
Proof. unfold duration_of_step. case_match; lia. Qed.

Lemma start_in_put s a b : put_at s a b → start_in raw (ys_id s) = a.
Proof. intros [E _]. unfold start_in. by rewrite E. Qed.

(** A precondition has ended when its step starts. *)
Lemma precondition_before s p a b a' b' :
  s ∈ steps → p ∈ steps → ys_id p ∈ ys_preconditions s → put_at s a b → put_at p a' b' → (b' <= a)%Z.
Proof.
  intros Hs Hp Hpre (_ & _ & _ & va & vb & E1 & _ & <- & _) (_ & _ & _ & va' & vb' & _ & E2 & _ & <-).
  destruct Hok as (svs & _ & _ & _ & Hprec & _).
  apply (Hprec s Hs (ys_id p)); [done|by apply (list_elem_of_fmap_2 ys_id)|done|done].
Qed.

(** Of two steps on a resource, one has ended when the other starts. *)
Lemma resource_before r s t a b a' b' :
  s ∈ steps → t ∈ steps → ys_id s ≠ ys_id t → r ∈ keys (ys_resources s) → r ∈ keys (ys_resources t) →
  put_at s a b → put_at t a' b' → (a <= a')%Z → (b <= a')%Z.
Proof.
  intros Hs Ht Hne Hrs Hrt Hps Hpt Hle.
  destruct Hok as (svs & Hsv & Est & Een & _ & Hres). pose proof (Forall2_length _ _ _ Hsv) as Hlen.
  destruct (Hres _ (resource_used steps Hkeys r s Hs Hrs)) as (ivs & Hivs & Hcum). cbn [snd] in Hivs.
  assert (Hiv : ∀ x u v, x ∈ steps → r ∈ keys (ys_resources x) → put_at x u v →
    ∃ i iv, users steps r !! i = Some (ys_id x) ∧ ivs !! i = Some iv ∧
      active σ a' iv = (u <=? a')%Z && (a' <? v)%Z).
  { intros x u v Hx Hrx (_ & _ & _ & va & vb & E1 & E2 & <- & <-).
    assert (ys_id x ∈ users steps r) as [i Hi]%list_elem_of_lookup
      by (apply (list_elem_of_fmap_2 ys_id); by apply list_elem_of_filter).
    destruct (Forall2_lookup_l _ _ _ _ _ Hivs Hi) as (iv & Hiv & Hl).
    exists i, iv. split_and!; [done|done|].
    pose proof Hx as [n Hn]%list_elem_of_lookup.
    destruct (Forall2_lookup_l _ _ _ _ _ Hsv Hn) as (sv & Hv & dur & d & _ & Hint & _).
    rewrite (by_step_lookup sv_interval svs n x sv) in Hl by done. injection Hl as <-.
    rewrite Est, (by_step_lookup sv_start svs n x sv) in E1 by done. injection E1 as <-.
    rewrite Een, (by_step_lookup sv_end svs n x sv) in E2 by done. injection E2 as <-.
    unfold active, present. rewrite Hint. done. }
  destruct (Hiv s a b Hs Hrs Hps) as (i & iv & Hi & Hii & Ha1).
  destruct (Hiv t a' b' Ht Hrt Hpt) as (j & jv & Hj & Hjj & Ha2).
  destruct (Z.le_gt_cases b a') as [|Hgt]; [done|]. exfalso.
  destruct Hps as (_ & _ & Hb & _), Hpt as (_ & _ & Hb' & _).
  pose proof (duration_pos s). pose proof (duration_pos t).
  assert (2 <= load σ a' ivs (ones ivs))%Z.
  { apply (load_two σ a' ivs i j iv jv); [|done|done|rewrite Ha1|rewrite Ha2].
    - intros ->. congruence.
    - apply andb_true_iff. lia.
    - apply andb_true_iff. lia. }
  pose proof (cumulative_everywhere σ ivs (ones ivs) 1 a' (ones_nonneg ivs) Hcum). lia.
Qed.
End placed.

Lemma elem_of_step_ids steps sid : sid ∈ step_ids steps ↔ ∃ s, s ∈ steps ∧ ys_id s = sid.
Proof. unfold step_ids. rewrite list_elem_of_fmap. naive_solver. Qed.

Lemma elem_of_users steps r sid :
  sid ∈ users steps r ↔ ∃ s, s ∈ steps ∧ ys_id s = sid ∧ r ∈ keys (ys_resources s).
Proof.
  unfold users. rewrite list_elem_of_fmap. setoid_rewrite list_elem_of_filter. naive_solver.
Qed.

Section order.
Context (steps : list YamlStep) (Hkeys : plan_keys steps).
Context (st : CpState) (σ : assignment) (Hok : schedule_ok steps st σ).
Let raw := raw_schedule steps σ st.
Let preds := predecessors steps raw.

Lemma same_step s t : s ∈ steps → t ∈ steps → ys_id s = ys_id t → s = t.
Proof.
  intros [i Hi]%list_elem_of_lookup [j Hj]%list_elem_of_lookup E.
  enough (i = j) by congruence. eapply NoDup_lookup; [apply (pk_ids _ Hkeys)| |].
  - unfold step_ids. by rewrite list_lookup_fmap, Hi.
  - unfold step_ids. rewrite list_lookup_fmap, Hj. cbn. by rewrite E.
Qed.

Lemma sorted_users_spec r :
  sorted_by_start raw (users steps r) ≡ₚ users steps r ∧ NoDup (sorted_by_start raw (users steps r)) ∧
  StronglySorted (starts_before raw) (sorted_by_start raw (users steps r)).
Proof.
  assert (NoDup (users steps r)).
  { unfold users. eapply sublist_NoDup; [apply (pk_ids _ Hkeys)|].
    apply fmap_sublist, sublist_filter. }
  assert (sorted_by_start raw (users steps r) ≡ₚ users steps r) as Hp
    by apply stable_sort_perm.
  split_and!; [done|by rewrite Hp|].
  apply stable_sort_sorted; [intros x y z; unfold starts_before; lia|].
  intros x y. unfold starts_before. lia.
Qed.

(** The members of a resource, in the order of the solution: each has ended when a later one
    starts. *)
Lemma users_in_order r i j x y :
  sorted_by_start raw (users steps r) !! i = Some x →
  sorted_by_start raw (users steps r) !! j = Some y → i < j →
  ∃ s t a b a' b', s ∈ steps ∧ t ∈ steps ∧ ys_id s = x ∧ ys_id t = y ∧
    put_at steps st σ s a b ∧ put_at steps st σ t a' b' ∧ (b <= a')%Z.
Proof.
  intros Hx Hy Hij. destruct (sorted_users_spec r) as (Hp & Hnd & Hs).
  assert (x ∈ users steps r) as (s & Hs1 & Hs2 & Hs3)%elem_of_users
    by (rewrite <-Hp; by eapply list_elem_of_lookup_2).
  assert (y ∈ users steps r) as (t & Ht1 & Ht2 & Ht3)%elem_of_users
    by (rewrite <-Hp; by eapply list_elem_of_lookup_2).
  destruct (step_put steps Hkeys st σ Hok s Hs1) as (a & b & Hps).
  destruct (step_put steps Hkeys st σ Hok t Ht1) as (a' & b' & Hpt).
  exists s, t, a, b, a', b'. split_and!; [done..|].
  pose proof (StronglySorted_lookup _ _ _ _ _ _ Hs Hx Hy Hij) as Hle. unfold starts_before in Hle.
  subst x y. unfold raw in Hle. rewrite (start_in_put steps st σ s a b Hps),
    (start_in_put steps st σ t a' b' Hpt) in Hle.
  eapply (resource_before steps Hkeys st σ Hok r s t); try done.
  intros E. enough (i = j) by lia. eapply NoDup_lookup; [exact Hnd|exact Hx|by rewrite E].
Qed.

(** Every predecessor has ended when its step starts. *)
Lemma predecessor_before sid p :
  sid ∈ step_ids steps → p ∈ preds sid →
  ∃ s t a b a' b', s ∈ steps ∧ t ∈ steps ∧ ys_id s = sid ∧ ys_id t = p ∧
    put_at steps st σ s a b ∧ put_at steps st σ t a' b' ∧ (b' <= a)%Z.
Proof.
  intros Hsid. unfold preds, predecessors. rewrite elem_of_app, !list_elem_of_bind.
  intros [(s & Hp & Hs)|(sids & Hp & Hsids)].
  - apply list_elem_of_filter in Hs as [<- Hs].
    apply list_elem_of_filter in Hp as [(t & Ht & <-)%elem_of_step_ids Hp].
    destruct (step_put steps Hkeys st σ Hok s Hs) as (a & b & Hps).
    destruct (step_put steps Hkeys st σ Hok t Ht) as (a' & b' & Hpt).
    exists s, t, a, b, a', b'. split_and!; [done..|].
    by eapply (precondition_before steps st σ Hok s t).
  - apply list_elem_of_fmap in Hsids as ([r l] & -> & Hin).
    destruct (resource_steps_spec steps Hkeys r l Hin) as [-> _].
    apply list_elem_of_fmap in Hp as ([x y] & -> & [Hy Hxy]%list_elem_of_filter). cbn in Hy. subst y.
    apply successions_lookup in Hxy as (i & Hx & Hy). cbn [snd] in Hx, Hy.
    destruct (users_in_order r i (S i) x sid Hx Hy) as (t & s & a' & b' & a & b & H); [lia|].
    exists s, t, a, b, a', b'. cbn [fst]. tauto.
Qed.

Lemma predecessor_rank sid p :
  sid ∈ step_ids steps → p ∈ preds sid →
  p ∈ step_ids steps ∧ (start_in raw p < start_in raw sid)%Z.
Proof.
  intros Hsid Hp. destruct (predecessor_before sid p Hsid Hp)
    as (s & t & a & b & a' & b' & Hs & Ht & <- & <- & Hps & Hpt & Hle).
  split; [apply elem_of_step_ids; eauto|]. unfold raw.
  rewrite (start_in_put steps st σ s a b Hps), (start_in_put steps st σ t a' b' Hpt).
  destruct Hpt as (_ & _ & -> & _). pose proof (duration_pos t). lia.
Qed.
End order.

(** ** The contract *)

(** A schedule for the steps: places and waves that respect preconditions and resources. *)
Record good_schedule (steps : list YamlStep) (r : pydict string (Z * Z * Z)) : Prop := {
  gs_step s : s ∈ steps → ∃ a b w, r !! ys_id s = Some (a, b, w) ∧ (0 <= a)%Z ∧
    (b = a + duration_of_step s)%Z ∧ (1 <= w)%Z;
  gs_precondition s p a b w a' b' w' : s ∈ steps → p ∈ ys_preconditions s →
    r !! ys_id s = Some (a, b, w) → r !! p = Some (a', b', w') → (b' <= a)%Z ∧ (w' < w)%Z;
  gs_resource s t k a b w a' b' w' : s ∈ steps → t ∈ steps → ys_id s ≠ ys_id t →
    k ∈ keys (ys_resources s) → k ∈ keys (ys_resources t) →
    r !! ys_id s = Some (a, b, w) → r !! ys_id t = Some (a', b', w') →
    (b <= a')%Z ∧ (w < w')%Z ∨ (b' <= a)%Z ∧ (w' < w)%Z
}.

Lemma mapped_lookup {V W} (f : string → V → W) (l : list (string * V)) k :
  PyDict ((λ kv : string * V, (kv.1, f kv.1 kv.2)) <$> l) !! k = f k <$> PyDict l !! k.
Proof.
  unfold lookup, dict_lookup. cbn [items].
  induction l as [|[k' v] l IH]; [done|]. cbn. by case_decide; subst.
Qed.

(** ** Building the model does not fail *)

Section builds_run.
Context (steps : list YamlStep).

Lemma runs_step {A} (f : StepVars → A) svs sid :
  length steps = length svs → sid ∈ step_ids steps →
  runs (S := cp_model) (d_get repr_str (by_step steps f svs) sid) (λ _, True).
Proof.
  intros Hlen Hsid. apply runs_d_get.
  enough (sid ∈ keys (by_step steps f svs)) as [v ?]%elem_of_keys by eauto.
  apply keys_of_list. rewrite fst_zip; [done|]. unfold step_ids. rewrite !length_fmap. lia.
Qed.
Lemma runs_duration sid :
  sid ∈ step_ids steps → runs (S := cp_model) (d_get repr_str (step_durations steps) sid) (λ _, True).
Proof.
  intros Hsid. apply runs_d_get.
  enough (sid ∈ keys (step_durations steps)) as [v ?]%elem_of_keys by eauto.
  apply keys_of_list. rewrite <-list_fmap_compose. exact Hsid.
Qed.

Lemma step_id_in s : s ∈ steps → ys_id s ∈ step_ids steps.
Proof. apply (list_elem_of_fmap_2 ys_id). Qed.

Lemma resource_steps_ids sids sid :
  sids ∈ values (resource_steps steps) → sid ∈ sids → sid ∈ step_ids steps.
Proof.
  intros ([r l] & -> & Hin)%list_elem_of_fmap Hsid. cbn [snd] in Hsid.
  apply elem_of_items in Hin; [|apply group_by_wf].
  assert (default [] (resource_steps steps !! r) = l) as Hl by (by rewrite Hin).
  unfold resource_steps in Hl. rewrite group_by_lookup, (foldl_append snd) in Hl. cbn [app] in Hl.
  subst l. apply list_elem_of_fmap in Hsid as ([r' x] & -> & [_ Hx]%list_elem_of_filter).
  apply list_elem_of_bind in Hx as (s & Hx & Hs). apply list_elem_of_fmap in Hx as (k & [= -> ->] & _).
  by apply step_id_in.
Qed.

Lemma pairs_of_elem {A} (l : list A) i j : (i, j) ∈ pairs_of l → i ∈ l ∧ j ∈ l.
Proof.
  induction l as [|a l IH]; cbn [pairs_of]; [by intros ?%elem_of_nil|].
  intros [(x & [= -> ->] & Hx)%list_elem_of_fmap|[? ?]%IH]%elem_of_app; split; by (left + right).
Qed.

Ltac run_step := eapply runs_bind; [|intros ? _].

Lemma runs_step_vars s : s ∈ steps → runs (step_vars steps s) (λ _, True).
Proof.
  intros Hs. unfold step_vars. run_step; [by apply runs_duration, step_id_in|].
  do 4 (run_step; [auto with ate|]). by apply runs_ret.
Qed.

Section dicts.
Context (svs : list StepVars) (Hlen : length steps = length svs).
Let starts := by_step steps sv_start svs.
Let ends := by_step steps sv_end svs.

Lemma runs_precedence s : s ∈ steps → runs (add_precedence steps starts ends s) (λ _, True).
Proof.
  intros Hs. apply runs_for_each. intros dep _. destruct (str_in dep (step_ids steps)) eqn:E; cbn [negb];
    [|by apply runs_ret]. apply bool_decide_eq_true in E.
  run_step; [by apply runs_step, step_id_in|]. run_step; [by apply runs_step|]. apply runs_modify.
Qed.

Lemma runs_resource kv :
  kv ∈ items (resource_steps steps) → runs (add_resource (by_step steps sv_interval svs) kv) (λ _, True).
Proof.
  intros Hkv. eapply runs_bind; [apply (runs_map_m _ (λ _ _, True))|intros ? _; apply runs_modify].
  intros sid Hsid. apply runs_step; [done|]. eapply resource_steps_ids; [|done].
  by apply list_elem_of_fmap_2.
Qed.

Lemma runs_helpers key hs : runs (add_helpers steps starts ends key hs) (λ _, True).
Proof.
  eapply runs_bind; [apply (runs_map_m _ (λ _ _, True)); intros s Hs|intros l _].
  - unfold assign_helper. case_match; [|by apply runs_ret]. case_match; [by apply runs_ret|].
    eapply runs_bind; [apply (runs_map_m _ (λ _ _, True)); intros ? _|intros ? _].
    + run_step; [apply runs_int_var|]. by apply runs_ret.
    + run_step; [apply runs_modify|]. by apply runs_ret.
  - apply runs_for_each. intros h _. unfold limit_helper.
    eapply runs_bind; [apply (runs_map_m _ (λ _ _, True)); intros s Hs|intros ivs _].
    + unfold helper_interval. case_match; [|by apply runs_ret].
      run_step; [by apply runs_step, step_id_in|]. run_step; [by apply runs_duration, step_id_in|].
      run_step; [by apply runs_step, step_id_in|]. run_step; [apply runs_interval|]. by apply runs_ret.
    + case_match; [by apply runs_ret|apply runs_modify].
Qed.

Lemma runs_fault penalty s : s ∈ steps → runs (fault_term steps starts penalty s) (λ _, True).
Proof.
  intros Hs. unfold fault_term. case_match; [|by apply runs_ret].
  run_step; [by apply runs_step, step_id_in|]. by apply runs_ret.
Qed.

Lemma runs_changeover matrix ij :
  ij ∈ changeover_pairs steps → runs (changeover_term steps starts ends matrix ij) (λ _, True).
Proof.
  intros (sids & Hij & Hs)%list_elem_of_bind. destruct ij as [i j].
  apply pairs_of_elem in Hij as [Hi Hj]. unfold changeover_term. cbn [fst snd].
  do 3 (case_match; try by apply runs_ret).
  run_step; [apply runs_int_var|]. run_step; [apply runs_step; [done|by eapply resource_steps_ids]|].
  run_step; [apply runs_step; [done|by eapply resource_steps_ids]|].
  do 2 (run_step; [apply runs_modify|]). by apply runs_ret.
Qed.
End dicts.

Lemma runs_step_model objective ex : runs (build_step_model steps objective ex) (λ _, True).
Proof.
  eapply runs_bind; [apply (runs_map_m _ (λ _ _, True)); intros; by apply runs_step_vars|].
  intros svs Hlen%Forall2_length.
  run_step; [apply runs_for_each; intros; by apply runs_precedence|].
  run_step; [apply runs_for_each; intros; by apply runs_resource|].
  do 2 (run_step; [by apply runs_helpers|]). run_step; [apply runs_int_var|].
  run_step; [apply runs_for_each; intros; apply runs_modify|].
  run_step; [apply runs_int_var|]. run_step; [apply runs_modify|].
  eapply runs_bind; [apply (runs_map_m _ (λ _ _, True)); intros; by apply runs_fault|intros ? _].
  eapply runs_bind; [apply (runs_map_m _ (λ _ _, True)); intros; by apply runs_changeover|intros ? _].
  run_step; [apply runs_modify|]. by apply runs_ret.
Qed.
End builds_run.

Section theorems.
Context `{CS : CpSolver} (set_order : list string → list string) (steps : list YamlStep).
Context (objectives : list string) (ex : Extras).

(** An answer comes from a solution and from waves that ended. *)
Lemma schedule_solution fuel available r :
  steps ≠ [] →
  schedule steps set_order fuel available objectives ex = Some (Ok (Some r)) →
  ∃ st σ, schedule_ok steps st σ ∧ extract_schedule steps set_order fuel σ st = Some r.
Proof.
  intros Hne. unfold schedule. destruct steps as [|s0 l]; [done|]. clear Hne.
  destruct available; [|done]. cbn [negb].
  destruct (build_step_model _ _ _ _) as [[st|e] m] eqn:Hb; [|done].
  destruct (solve 0 m) as [s σ] eqn:Hs. destruct (optimal_or_feasible s) eqn:Ho; [|done].
  intros (r' & Hr & [= ->])%bind_Some. exists st, σ. split; [|done].
  by eapply builds_solved; [apply builds_step_model|..].
Qed.

Context (Horder : ∀ l, set_order l ≡ₚ l).

Lemma ids_listed : plan_keys steps → set_order (remove_dups (step_ids steps)) ≡ₚ step_ids steps.
Proof.
  intros Hk. rewrite Horder. apply NoDup_Permutation; [apply NoDup_remove_dups|apply (pk_ids _ Hk)|].
  intros x. apply elem_of_remove_dups.
Qed.

Lemma extract_schedule_waves fuel σ st :
  plan_keys steps → schedule_ok steps st σ → length steps ≤ fuel →
  ∃ waves, wave_loop fuel (predecessors steps (raw_schedule steps σ st))
    (set_order (remove_dups (step_ids steps))) (length steps) ∅ = Some waves ∧
    wave_inv (predecessors steps (raw_schedule steps σ st)) (set_order (remove_dups (step_ids steps))) waves ∧
    ∀ s, s ∈ step_ids steps → is_Some (waves !! s).
Proof.
  intros Hk Hok Hf. pose proof (ids_listed Hk) as Hp.
  assert (length (set_order (remove_dups (step_ids steps))) = length steps) as Hlen
    by (rewrite Hp; unfold step_ids; by rewrite length_fmap).
  rewrite <-Hlen. rewrite <-Hlen in Hf.
  destruct (wave_loop_total (predecessors steps (raw_schedule steps σ st))
    (set_order (remove_dups (step_ids steps))) (start_in (raw_schedule steps σ st))) with (fuel := fuel)
    (w := ∅ : pydict string Z) as (w & Hw & Hinv & Hall).
  - rewrite Hp. apply (pk_ids _ Hk).
  - intros s p. rewrite Hp. by apply predecessor_rank.
  - split; [apply dict_wf_empty|done].
  - lia.
  - exists w. split_and!; [done|done|]. intros s Hs. apply Hall. by rewrite Hp.
Qed.

(** A loop that ended had enough fuel or less than it would take; the waves are the same. *)
Lemma wave_loop_more fuel fuel' preds ids n w w' :
  wave_loop fuel preds ids n w = Some w' → fuel ≤ fuel' → wave_loop fuel' preds ids n w = Some w'.
Proof.
  revert fuel' w. induction fuel as [|fuel IH]; intros fuel' w; cbn [wave_loop];
    destruct (dict_len w <? n)%nat eqn:E; intros Hw Hle; try done.
  - destruct fuel'; cbn [wave_loop]; by rewrite E.
  - destruct fuel' as [|fuel']; [lia|]. cbn [wave_loop]. rewrite E. apply IH; [done|lia].
  - destruct fuel'; cbn [wave_loop]; by rewrite E.
Qed.

Lemma raw_lookup st σ s a b :
  plan_keys steps → schedule_ok steps st σ → s ∈ steps →
  raw_schedule steps σ st !! ys_id s = Some (a, b) → put_at steps st σ s a b.
Proof.
  intros Hk Hok Hs Hr. destruct (step_put steps Hk st σ Hok s Hs) as (a' & b' & Hp).
  pose proof Hp as [E _]. rewrite Hr in E. by injection E as -> ->.
Qed.

Lemma raw_ids st σ p x : raw_schedule steps σ st !! p = Some x → p ∈ step_ids steps.
Proof.
  intros (s & Hs & Hp)%dict_of_list_lookup_inv%list_elem_of_omap.
  repeat case_match; simplify_eq. by apply (list_elem_of_fmap_2 ys_id).
Qed.

Section extracted.
Context (st : CpState) (σ : assignment) (waves : pydict string Z).
Context (Hk : plan_keys steps) (Hok : schedule_ok steps st σ).
Context (Hinv : wave_inv (predecessors steps (raw_schedule steps σ st))
  (set_order (remove_dups (step_ids steps))) waves).
Context (Hall : ∀ s, s ∈ step_ids steps → is_Some (waves !! s)).

Lemma wave_of_predecessor sid p w w' :
  p ∈ predecessors steps (raw_schedule steps σ st) sid → waves !! sid = Some w →
  waves !! p = Some w' → (w' < w)%Z.
Proof.
  intros Hp Hw Hw'. apply (proj2 Hinv) in Hw as (_ & _ & H).
  destruct (H p Hp) as (y & Hy & Hlt). by simplify_eq.
Qed.

(** On a resource, waves grow along the order of the solution. *)
Lemma waves_on_resource r i j x y w w' :
  (r, users steps r) ∈ items (resource_steps steps) →
  sorted_by_start (raw_schedule steps σ st) (users steps r) !! i = Some x →
  sorted_by_start (raw_schedule steps σ st) (users steps r) !! j = Some y → i < j →
  waves !! x = Some w → waves !! y = Some w' → (w < w')%Z.
Proof.
  intros Hr Hx Hy Hij Hw Hw'.
  set (R a b := (default 0%Z (waves !! a) < default 0%Z (waves !! b))%Z).
  enough (R x y) as HR by (unfold R in HR; by rewrite Hw, Hw' in HR).
  eapply StronglySorted_lookup; [|exact Hx|exact Hy|done].
  apply Sorted_StronglySorted; [intros a b c; unfold R; lia|].
  apply successions_Sorted. intros a b Hab. unfold R.
  destruct (sorted_users_spec steps Hk st σ r) as (Hperm & _ & _).
  assert (b ∈ step_ids steps) as Hb.
  { apply successions_lookup in Hab as (n & _ & Hn). apply elem_of_step_ids.
    assert (b ∈ users steps r) as Hu.
    { rewrite <-Hperm. by eapply list_elem_of_lookup_2. }
    apply elem_of_users in Hu as (s & ? & ? & ?). eauto. }
  assert (a ∈ predecessors steps (raw_schedule steps σ st) b) as Ha.
  { apply elem_of_app. right. apply list_elem_of_bind. exists (users steps r). split.
    - apply list_elem_of_fmap. exists (a, b). split; [done|]. by apply list_elem_of_filter.
    - by apply (list_elem_of_fmap_2 snd) in Hr. }
  destruct (Hall b Hb) as [wb Ewb]. pose proof (proj2 Hinv _ _ Ewb) as (_ & _ & Hp).
  destruct (Hp a Ha) as (wa & Ewa & Hlt). by rewrite Ewa, Ewb.
Qed.

Lemma extracted_good :
  good_schedule steps
    (PyDict ((λ kv : string * (Z * Z), (kv.1, (kv.2, default 0%Z (waves !! kv.1)))) <$>
       items (raw_schedule steps σ st))).
Proof.
  set (f k v := (v : Z * Z, default 0%Z (waves !! k))).
  assert (Hl : ∀ k, PyDict ((λ kv : string * (Z * Z), (kv.1, f kv.1 kv.2)) <$>
    items (raw_schedule steps σ st)) !! k = f k <$> raw_schedule steps σ st !! k).
  { intros k. rewrite mapped_lookup. by destruct (raw_schedule steps σ st). }
  assert (Hat : ∀ k a b w, f k <$> raw_schedule steps σ st !! k = Some (a, b, w) →
    raw_schedule steps σ st !! k = Some (a, b) ∧ waves !! k = Some w).
  { intros k a b w ([a' b'] & Hr & E)%fmap_Some. injection E as -> -> ->. split; [done|].
    by destruct (Hall k (raw_ids st σ k _ Hr)) as [x ->]. }
  change (λ kv : string * (Z * Z), (kv.1, (kv.2, default 0%Z (waves !! kv.1)))) with
    (λ kv : string * (Z * Z), (kv.1, f kv.1 kv.2)).
  split; setoid_rewrite Hl.
  - intros s Hs. destruct (step_put steps Hk st σ Hok s Hs) as (a & b & Hp).
    destruct (Hall (ys_id s)) as [w Hw]; [by apply (list_elem_of_fmap_2 ys_id)|].
    pose proof (proj2 Hinv _ _ Hw) as (_ & Hw1 & _).
    exists a, b, w. pose proof Hp as (-> & ? & ? & _). split_and!; [|done..].
    unfold f. cbn. by rewrite Hw.
  - intros s p a b w a' b' w' Hs Hp [Hr Hw]%Hat [Hr' Hw']%Hat.
    apply raw_ids in Hr' as Hpi. apply elem_of_step_ids in Hpi as (t & Ht & <-).
    split.
    + apply raw_lookup in Hr; [|done..]. apply raw_lookup in Hr'; [|done..].
      by eapply (precondition_before steps st σ Hok s t).
    + eapply wave_of_predecessor; [|done|done]. apply elem_of_app. left.
      apply list_elem_of_bind. exists s. split; apply list_elem_of_filter; [|done].
      split; [by apply (list_elem_of_fmap_2 ys_id)|done].
  - intros s t k a b w a' b' w' Hs Ht Hne Hks Hkt [Hr Hw]%Hat [Hr' Hw']%Hat.
    destruct (sorted_users_spec steps Hk st σ k) as (Hperm & _ & _).
    assert (ys_id s ∈ sorted_by_start (raw_schedule steps σ st) (users steps k)) as [i Hi]%list_elem_of_lookup
      by (rewrite Hperm; apply elem_of_users; eauto).
    assert (ys_id t ∈ sorted_by_start (raw_schedule steps σ st) (users steps k)) as [j Hj]%list_elem_of_lookup
      by (rewrite Hperm; apply elem_of_users; eauto).
    pose proof (resource_used steps Hk k s Hs Hks) as Hin.
    apply raw_lookup in Hr; [|done..]. apply raw_lookup in Hr'; [|done..].
    destruct (Nat.lt_trichotomy i j) as [Hij|[->|Hij]]; [left|congruence|right].
    + split; [|by eapply (waves_on_resource k i j)].
      destruct (users_in_order steps Hk st σ Hok k i j _ _ Hi Hj Hij)
        as (s1 & t1 & a1 & b1 & a2 & b2 & Hs1 & Ht1 & E1 & E2 & P1 & P2 & Hle).
      apply (same_step steps Hk) in E1 as ->; [|done..]. apply (same_step steps Hk) in E2 as ->; [|done..].
      destruct (put_at_fun steps st σ _ _ _ _ _ Hr P1) as [-> ->].
      by destruct (put_at_fun steps st σ _ _ _ _ _ Hr' P2) as [-> ->].
    + split; [|by eapply (waves_on_resource k j i)].
      destruct (users_in_order steps Hk st σ Hok k j i _ _ Hj Hi Hij)
        as (s1 & t1 & a1 & b1 & a2 & b2 & Hs1 & Ht1 & E1 & E2 & P1 & P2 & Hle).
      apply (same_step steps Hk) in E1 as ->; [|done..]. apply (same_step steps Hk) in E2 as ->; [|done..].
      destruct (put_at_fun steps st σ _ _ _ _ _ Hr' P1) as [-> ->].
      by destruct (put_at_fun steps st σ _ _ _ _ _ Hr P2) as [-> ->].
Qed.
End extracted.

Lemma remove_dups_length (l : list string) : length (remove_dups l) ≤ length l.
Proof. induction l as [|x l IH]; cbn; [done|]. destruct (decide_rel _ _ _); cbn; lia. Qed.
Lemma remove_dups_shorter (l : list string) : ¬ NoDup l → length (remove_dups l) < length l.
Proof.
  induction l as [|x l IH]; intros Hd; [by destruct Hd; constructor|]. cbn.
  pose proof (remove_dups_length l). destruct (decide_rel _ _ _) as [|Hx]; cbn; [lia|].
  enough (length (remove_dups l) < length l) by lia. apply IH. intros H'. apply Hd. by constructor.
Qed.

Lemma extract_schedule_good fuel st σ r :
  plan_keys steps → schedule_ok steps st σ →
  extract_schedule steps set_order fuel σ st = Some r → good_schedule steps r.
Proof.
  intros Hk Hok. unfold extract_schedule. intros (w & Hw & [= <-])%bind_Some.
  destruct (extract_schedule_waves (length steps) σ st Hk Hok) as (w' & Hw' & Hinv & Hall); [done|].
  assert (w = w') as ->; [|by apply extracted_good].
  apply (wave_loop_more _ (max fuel (length steps))) in Hw; [|lia].
  apply (wave_loop_more _ (max fuel (length steps))) in Hw'; [|lia]. congruence.
Qed.

(** C22. A schedule that is returned places every step at a start that is not negative for its
    whole duration, starts no step before its preconditions have ended, lets a resource take one
    step at a time, and numbers the waves so that a step's wave is above the waves of its
    preconditions and of the steps before it on its resources. *)
Theorem schedule_sound fuel available r :
  plan_keys steps → schedule steps set_order fuel available objectives ex = Some (Ok (Some r)) →
  good_schedule steps r.
Proof.
  intros Hk Hs. destruct (decide (steps = [])) as [E|Hne].
  - subst. injection Hs as <-. split; by intros ? **; exfalso; eapply elem_of_nil.
  - destruct (schedule_solution _ _ _ Hne Hs) as (st & σ & Hok & Hr). by eapply extract_schedule_good.
Qed.

(** With distinct step ids the call ends and raises nothing, whatever the solver answers and
    in whatever order Python lists the set of ids: it returns a schedule, or None. *)
Theorem schedule_returns fuel available :
  plan_keys steps → length steps ≤ fuel →
  ∃ r, schedule steps set_order fuel available objectives ex = Some (Ok r).
Proof.
  intros Hk Hf. unfold schedule.
  assert (∀ o, ∃ st m, build_step_model steps o ex empty_model = (Ok st, m)) as Hb
    by (intros o; destruct (runs_step_model steps o ex empty_model) as (st & m & E & _); eauto).
  destruct steps as [|s0 l] eqn:E; [eauto|]. rewrite <-E in *. clear E. destruct available; [|by eauto].
  cbn [negb]. destruct (Hb (default "makespan" (head objectives))) as (st & m & Em). rewrite Em.
  destruct (solve 0 m) as [s σ] eqn:Es. destruct (optimal_or_feasible s) eqn:Ho; [|by eauto].
  assert (schedule_ok steps st σ) as Hok by (by eapply builds_solved; [apply builds_step_model|..]).
  destruct (extract_schedule_waves fuel σ st Hk Hok Hf) as (w & Hw & _). unfold extract_schedule.
  rewrite Hw. cbn. eauto.
Qed.

(** When two steps share an id and the solver has found a solution, the numbering of the
    waves waits for as many ids as there are steps and the call never returns: no amount of fuel
    is enough. *)
Theorem duplicate_ids_hang fuel st m s σ :
  ¬ NoDup (step_ids steps) →
  build_step_model steps (default "makespan" (head objectives)) ex empty_model = (Ok st, m) →
  solve 0 m = (s, σ) → optimal_or_feasible s = true →
  schedule steps set_order fuel true objectives ex = None.
Proof.
  intros Hd Hb Hs Ho. unfold schedule.
  destruct steps as [|s0 l] eqn:E; [by destruct Hd; constructor|]. rewrite <-E in *. clear E. cbn [negb].
  rewrite Hb, Hs, Ho. unfold extract_schedule. rewrite wave_loop_diverges; [done|..].
  - split; [apply dict_wf_empty|done].
  - rewrite Horder. unfold step_ids in *. rewrite <-(length_fmap ys_id steps).
    by apply remove_dups_shorter.
Qed.
End theorems.

(** ** Three steps *)

Definition plan_step (id : string) (pre deps : list string) (res : list string) (timeout : Z) :
    YamlStep :=
  mkStep id (Some SCRIPT) "" ∅ pre deps (PyDict ((λ r, (r, PyNone)) <$> res)) timeout 0
    None None None None None None false None None None.
Definition bench : list YamlStep :=
  [plan_step "probe" [] [] ["dmm"] 2; plan_step "sweep" ["probe"] [] ["psu"] 3;
   plan_step "check" [] [] ["dmm"] 1].
Definition trial (l : list Z) : CpSolver := knowing (λ v, nth v l 0%Z).
(** probe [0, 2], sweep [2, 5], check [2, 3]; makespan 5, energy 80. *)
Definition bench_found : CpSolver := trial [0; 2; 2; 2; 5; 3; 2; 3; 1; 5; 80]%Z.
Definition bench_placed : pydict string (Z * Z * Z) :=
  PyDict [("probe", (0, 2, 1)%Z); ("sweep", (2, 5, 2)%Z); ("check", (2, 3, 2)%Z)].

Lemma bench_keys : plan_keys bench.
Proof.
  split.
  - apply (bool_decide_unpack _). vm_compute. reflexivity.
  - intros s. unfold bench. rewrite !elem_of_cons, elem_of_nil. intros [->|[->|[->|[]]]];
      apply (bool_decide_unpack _); vm_compute; reflexivity.
Qed.
Example bench_schedule :
  schedule (CS := bench_found) bench (λ l, l) 3 true ["makespan"] no_extras = Some (Ok (Some bench_placed)).
Proof. vm_compute. reflexivity. Qed.

Lemma schedule_sound_witness : good_schedule bench bench_placed.
Proof.
  apply (schedule_sound (CS := bench_found) (λ l, l) bench ["makespan"] no_extras (λ l, reflexivity l)
    3 true).
  - exact bench_keys.
  - vm_compute. reflexivity.
Defined.
Lemma schedule_returns_witness :
  ∃ r, schedule (CS := bench_found) bench (λ l, rev l) 3 true ["energy"] no_extras = Some (Ok r).
Proof.
  apply (schedule_returns (CS := bench_found) (λ l, rev l) bench ["energy"] no_extras).
  - intros l. symmetry. apply Permutation_rev.
  - exact bench_keys.
  - apply le_n.
Defined.

(** Two steps called "probe". *)
Definition twice : list YamlStep := [plan_step "probe" [] [] [] 1; plan_step "probe" [] [] [] 1].
Definition twice_found : CpSolver := trial [0; 1; 1; 0; 1; 1; 1; 20]%Z.
Lemma duplicate_ids_hang_witness :
  schedule (CS := twice_found) twice (λ l, l) 100 true ["makespan"] no_extras = None.
Proof.
  eapply (duplicate_ids_hang (CS := twice_found) (λ l, l) twice ["makespan"] no_extras (λ l, reflexivity l)
    100 _ _ FEASIBLE _).
  - intros H. apply NoDup_cons in H as [H _]. apply H. left.
  - vm_compute. reflexivity.
  - vm_compute. reflexivity.
  - reflexivity.
Defined.

(** [depends_on] is not read: both steps start at once. *)
Example depends_on_ignored :
  schedule (CS := trial [0; 1; 1; 0; 1; 1; 1; 15]%Z)
    [plan_step "a" [] [] [] 1; plan_step "b" [] ["a"] [] 1] (λ l, l) 2 true ["makespan"] no_extras =
  Some (Ok (Some (PyDict [("a", (0, 1, 1)%Z); ("b", (0, 1, 1)%Z)]))).
Proof. vm_compute. reflexivity. Qed.
