(* ===== verification/CompiledPlan.v ===== *)
(** * Compiled plans (src/src/ate_platform/scheduler/compiler.py)

    [CompiledStep], the node of the flat graph the compiler produces, and
    [_check_cycles], Kahn's algorithm over it. [check_cycles_exact] says that a graph
    passes exactly when every step can run after its dependencies, and that otherwise
    the error names exactly the steps that never can. *)

From S2P Require Import Prelude PyDict PyStr Types Dsl.

Record CompiledStep : Type := mkCompiled {
  cs_id : string;
  cs_type : option StepType;
  cs_script : string;
  cs_params : pydict string pyval;
  cs_depends_on : list string;
  cs_uut_affinity : option string;
  cs_timeout : Z;
  cs_retry : Z;
  cs_on_failure : option string;
  cs_barrier_name : option string;
  cs_action : option string;
  cs_fixture_id : option string;
  cs_then_ids : list string;
  cs_else_ids : list string;
  cs_condition : pyval;
  cs_source_step_id : string;
  cs_iteration : option Z;
  cs_export_outputs : bool
}.

(** The dataclass defaults. *)
Definition default_compiled (id : string) : CompiledStep :=
  mkCompiled id None "" ∅ [] None 60 0 None None None None [] [] PyNone "" None false.

(** ** [_check_cycles] *)

(** [indegree] and [dependents]. *)
Record Degrees : Type := mkDegrees {
  indegree : pydict string Z;
  dependents : pydict string (list string)
}.

Definition degrees_init (ids : list string) : Degrees :=
  mkDegrees (dict_of_list ((λ i, (i, 0%Z)) <$> ids)) (dict_of_list ((λ i, (i, [])) <$> ids)).

(** [indegree[node.id] += 1; dependents[dep].append(node.id)] *)
Definition add_edge (node_id dep : string) (g : Degrees) : res Degrees :=
  match indegree g !! node_id with
  | None => Raise (KeyError node_id)
  | Some n =>
      match dependents g !! dep with
      | None => Raise (KeyError dep)
      | Some l => Ok (mkDegrees (<[node_id := (n + 1)%Z]> (indegree g))
                                (<[dep := l ++ [node_id]]> (dependents g)))
      end
  end.

Definition add_edges (node_id : string) (deps : list string) (g : Degrees) : res Degrees :=
  foldl (λ r dep, g ← r; add_edge node_id dep g) (Ok g) deps.

Definition add_nodes (nodes : list CompiledStep) (g : Degrees) : res Degrees :=
  foldl (λ r node, g ← r; add_edges (cs_id node) (cs_depends_on node) g) (Ok g) nodes.

(** [for dependent in dependents[node_id]: ...]: the degrees left and the steps that
    became ready. *)
Fixpoint settle (l : list string) (deg : pydict string Z) (ready : list string) :
    res (pydict string Z * list string) :=
  match l with
  | [] => Ok (deg, ready)
  | x :: l' =>
      match deg !! x with
      | None => Raise (KeyError x)
      | Some n =>
          settle l' (<[x := (n - 1)%Z]> deg)
            (if (n - 1 =? 0)%Z then ready ++ [x] else ready)
      end
  end.

(** [for node_id in ready: ...], over a list that grows; [None] if the fuel runs out. *)
Fixpoint kahn (fuel : nat) (deps : pydict string (list string)) (deg : pydict string Z)
    (ready : list string) (resolved : nat) : option (res (nat * pydict string Z)) :=
  match ready with
  | [] => Some (Ok (resolved, deg))
  | node_id :: ready' =>
      match fuel with
      | O => None
      | S fuel' =>
          match deps !! node_id with
          | None => Some (Raise (KeyError node_id))
          | Some l =>
              match settle l deg ready' with
              | Ok (deg', ready'') => kahn fuel' deps deg' ready'' (S resolved)
              | Raise e => Some (Raise e)
              end
          end
      end
  end.

(** [sorted({i for i in ids if ids.count(i) > 1})] *)
Definition duplicates (ids : list string) : list string :=
  py_sorted (remove_dups (base.filter (λ i, 1 < length (base.filter (i =.) ids)) ids)).

Definition duplicate_error (ids : list string) : exc :=
  ValueError ("Duplicate expanded step ids: " +:+ repr_strs (duplicates ids)).
Definition cycle_error (cyclic : list string) : exc :=
  CustomError "CircularDependencyError"
    ("Circular dependency detected among steps: " +:+ repr_strs cyclic).

(** The steps of a degree map that satisfy a test, sorted. *)
Definition sorted_where (P : Z → bool) (deg : pydict string Z) : list string :=
  py_sorted (base.filter (λ kv, P kv.2) (items deg)).*1.

Definition check_cycles (nodes : list CompiledStep) : res unit :=
  let ids := cs_id <$> nodes in
  if decide (NoDup ids) then
    g ← add_nodes nodes (degrees_init ids);
    let ready := sorted_where (λ d, d =? 0)%Z (indegree g) in
    match kahn (length ids) (dependents g) (indegree g) ready 0 with
    | None => Raise (OtherError "out of fuel")
    | Some r =>
        '(resolved, deg) ← r;
        if (resolved =? length ids)%nat then Ok tt
        else Raise (cycle_error (sorted_where (λ d, 0 <? d)%Z deg))
    end
  else Raise (duplicate_error ids).

Definition node_of (id : string) (deps : list string) : CompiledStep :=
  mkCompiled id None "" ∅ deps None 60 0 None None None None [] [] PyNone "" None false.

Example check_cycles_ok :
  check_cycles [node_of "a" []; node_of "b" ["a"; "a"]; node_of "c" ["b"; "a"]] = Ok tt.
Proof. vm_compute. reflexivity. Qed.
Example check_cycles_cycle :
  check_cycles [node_of "a" []; node_of "c" ["b"]; node_of "b" ["c"; "a"]; node_of "d" ["c"]]
  = Raise (cycle_error ["b"; "c"; "d"]).
Proof. vm_compute. reflexivity. Qed.
Example check_cycles_dup :
  check_cycles [node_of "b" []; node_of "a" []; node_of "b" []; node_of "a" []]
  = Raise (ValueError "Duplicate expanded step ids: ['a', 'b']").
Proof. vm_compute. reflexivity. Qed.

(** ** Degrees *)

Definition occ (x : string) (l : list string) : nat := length (base.filter (x =.) l).

Lemma occ_cons x y l : occ x (y :: l) = (if decide (x = y) then 1 else 0) + occ x l.
Proof. unfold occ. rewrite filter_cons. by case_decide. Qed.
Lemma occ_app x l l' : occ x (l ++ l') = occ x l + occ x l'.
Proof. unfold occ. by rewrite filter_app, length_app. Qed.
Lemma occ_elem x l : 0 < occ x l ↔ x ∈ l.
Proof.
  induction l as [|y l IH]; [split; [cbn; lia|by intros ?%elem_of_nil]|].
  rewrite occ_cons, elem_of_cons, <- IH. case_decide; split; intros; auto with lia; destruct_or!; auto with lia; done.
Qed.

(** What the two dictionaries hold once the edges [edges x] into each [x] are counted. *)
Record degrees_ok (ids : list string) (edges : string → list string) (g : Degrees) : Prop := {
  do_keys : keys (indegree g) = ids;
  do_in x : x ∈ ids → indegree g !! x = Some (Z.of_nat (length (edges x)));
  do_out d : d ∈ ids → ∃ l, dependents g !! d = Some l ∧
    (∀ x, x ∈ l → x ∈ ids) ∧ ∀ x, occ x l = occ d (edges x);
  do_out_keys d : is_Some (dependents g !! d) → d ∈ ids
}.

Lemma dict_of_fmap {A} (f : string → A) ids : NoDup ids →
  items (dict_of_list ((λ i, (i, f i)) <$> ids)) = (λ i, (i, f i)) <$> ids.
Proof.
  intros Hnd. unfold dict_of_list. rewrite dict_of_list_go; [done|].
  cbn. by rewrite <- list_fmap_compose, list_fmap_id.
Qed.

Lemma keys_of_fmap {A} (f : string → A) ids : NoDup ids →
  keys (dict_of_list ((λ i, (i, f i)) <$> ids)) = ids.
Proof.
  intros. unfold keys. by rewrite dict_of_fmap, <- list_fmap_compose, list_fmap_id.
Qed.

Lemma lookup_of_fmap {A} (f : string → A) ids i : NoDup ids → i ∈ ids →
  dict_of_list ((λ i, (i, f i)) <$> ids) !! i = Some (f i).
Proof.
  intros Hnd Hi. apply elem_of_items; [apply dict_wf_of_list|].
  rewrite dict_of_fmap by done. apply list_elem_of_fmap. eauto.
Qed.

Lemma degrees_init_ok ids : NoDup ids → degrees_ok ids (λ _, []) (degrees_init ids).
Proof.
  intros Hnd. split; cbn.
  - by apply (keys_of_fmap (λ _, 0%Z)).
  - intros. by apply (lookup_of_fmap (λ _, 0%Z)).
  - intros d Hd. exists []. split_and!; [by apply (lookup_of_fmap (λ _, []))| |done].
    by intros ? ?%elem_of_nil.
  - intros d Hd%elem_of_keys. pose proof (keys_of_fmap (λ _, [] : list string) ids Hnd) as E.
    unfold dict_of_list, dict_update in E. cbn in E. by rewrite E in Hd.
Qed.

Lemma add_edge_ok ids edges g node_id dep :
  degrees_ok ids edges g → node_id ∈ ids → dep ∈ ids →
  ∃ g', add_edge node_id dep g = Ok g' ∧
  degrees_ok ids (λ x, if decide (x = node_id) then edges x ++ [dep] else edges x) g'.
Proof.
  intros [Hk Hi Ho Hok] Hn Hd. unfold add_edge.
  destruct (Ho dep Hd) as (l & Hl & Hsub & Hocc). rewrite (Hi _ Hn), Hl.
  eexists. split; [done|]. split; cbn.
  - by rewrite keys_insert_Some by eauto.
  - intros x Hx. rewrite dict_lookup_insert. repeat case_decide; simplify_eq; auto.
    rewrite length_app; cbn. do 2 f_equal. lia.
  - intros d Hd'. rewrite dict_lookup_insert. case_decide as E; simplify_eq.
    + eexists. split; [done|]. split.
      * intros x [?| ->%list_elem_of_singleton]%elem_of_app; auto.
      * intros x. rewrite occ_app, Hocc, occ_cons. case_decide; subst.
        -- rewrite occ_app, occ_cons, !decide_True by done. cbn. lia.
        -- cbn. lia.
    + destruct (Ho d Hd') as (l' & ? & ? & Hocc'). exists l'. split_and!; [done..|].
      intros x. case_decide; subst; auto. rewrite occ_app, occ_cons, decide_False, Hocc' by done.
      cbn. lia.
  - intros d. rewrite dict_lookup_insert. case_decide; subst; auto.
Qed.

Lemma degrees_ok_ext ids edges edges' g :
  (∀ x, edges x = edges' x) → degrees_ok ids edges g → degrees_ok ids edges' g.
Proof.
  intros He [Hk Hi Ho Hok]. split; [done| | |done].
  - intros x Hx. rewrite <- He. auto.
  - intros d Hd. destruct (Ho d Hd) as (l & ? & ? & Hocc). exists l. split_and!; [done..|].
    intros x. by rewrite <- He.
Qed.

(** A loop over a list whose body may raise. *)
Lemma foldl_raise {A B} (f : A → B → res B) l e :
  foldl (λ r x, b ← r; f x b) (Raise e) l = Raise e.
Proof. by induction l. Qed.

Lemma foldl_res_cons {A B} (f : A → B → res B) x l b :
  foldl (λ r x, b ← r; f x b) (Ok b) (x :: l) =
  b' ← f x b; foldl (λ r x, b ← r; f x b) (Ok b') l.
Proof. cbn. destruct (f x b); [done|]. apply foldl_raise. Qed.

(** The dependencies of a step, with their multiplicities. *)
Definition deps_of (nodes : list CompiledStep) (x : string) : list string :=
  mjoin (cs_depends_on <$> base.filter (λ n, cs_id n = x) nodes).

Lemma deps_of_cons n nodes x :
  deps_of (n :: nodes) x =
  (if decide (cs_id n = x) then cs_depends_on n else []) ++ deps_of nodes x.
Proof. unfold deps_of. rewrite filter_cons. by case_decide. Qed.

Lemma elem_of_deps_of nodes x d :
  d ∈ deps_of nodes x ↔ ∃ n, n ∈ nodes ∧ cs_id n = x ∧ d ∈ cs_depends_on n.
Proof.
  unfold deps_of. rewrite list_elem_of_join. setoid_rewrite list_elem_of_fmap.
  setoid_rewrite list_elem_of_filter.
  split; [intros (? & ? & ? & -> & ? & ?)|intros (n & ? & ? & ?)]; eauto 10.
Qed.

Lemma deps_of_node nodes n :
  NoDup (cs_id <$> nodes) → n ∈ nodes → deps_of nodes (cs_id n) = cs_depends_on n.
Proof.
  induction nodes as [|m nodes IH]; intros Hnd Hn; [by apply elem_of_nil in Hn|].
  rewrite deps_of_cons. cbn in Hnd. apply NoDup_cons in Hnd as [Hm Hnd].
  apply elem_of_cons in Hn as [<-|Hn].
  - rewrite decide_True by done. cut (deps_of nodes (cs_id n) = []); [intros ->; apply app_nil_r|].
    apply elem_of_nil_inv. intros d (n' & Hn' & E & _)%elem_of_deps_of.
    apply Hm. rewrite <- E. by apply list_elem_of_fmap_2.
  - rewrite decide_False; [by apply IH|]. intros E. apply Hm. rewrite E.
    by apply list_elem_of_fmap_2.
Qed.

Lemma add_edges_ok ids edges g node_id deps :
  degrees_ok ids edges g → node_id ∈ ids → (∀ d, d ∈ deps → d ∈ ids) →
  ∃ g', add_edges node_id deps g = Ok g' ∧
  degrees_ok ids (λ x, if decide (x = node_id) then edges x ++ deps else edges x) g'.
Proof.
  revert edges g. induction deps as [|dep deps IH]; intros edges g Hok Hn Hd.
  { exists g. split; [done|]. eapply degrees_ok_ext; [|done]. intros x. rewrite app_nil_r.
    by case_decide. }
  unfold add_edges. rewrite foldl_res_cons.
  destruct (add_edge_ok ids edges g node_id dep) as (g1 & -> & Hok1); [done..|apply Hd; left|].
  destruct (IH _ g1 Hok1) as (g' & Hg' & Hok'); [done|intros; apply Hd; by right|].
  exists g'. split; [exact Hg'|]. eapply degrees_ok_ext; [|exact Hok'].
  intros x. cbn. case_decide; [|done]. by rewrite <- (assoc (++)).
Qed.

Lemma add_nodes_ok ids edges g nodes :
  degrees_ok ids edges g → (∀ n, n ∈ nodes → cs_id n ∈ ids) →
  (∀ n d, n ∈ nodes → d ∈ cs_depends_on n → d ∈ ids) →
  ∃ g', add_nodes nodes g = Ok g' ∧ degrees_ok ids (λ x, edges x ++ deps_of nodes x) g'.
Proof.
  revert edges g. induction nodes as [|n nodes IH]; intros edges g Hok Hn Hd.
  { exists g. split; [done|]. eapply degrees_ok_ext; [|done]. intros x. cbn. by rewrite app_nil_r. }
  unfold add_nodes. rewrite (foldl_res_cons (λ node, add_edges (cs_id node) (cs_depends_on node))).
  destruct (add_edges_ok ids edges g (cs_id n) (cs_depends_on n)) as (g1 & -> & Hok1);
    [done|apply Hn; left|intros; eapply Hd; [left|done]|].
  destruct (IH _ g1 Hok1) as (g' & Hg' & Hok'); [intros; apply Hn; by right|
    intros; eapply Hd; [by right|done]|].
  exists g'. split; [exact Hg'|]. eapply degrees_ok_ext; [|exact Hok'].
  intros x. rewrite deps_of_cons. cbn beta. repeat case_decide; simplify_eq.
  - by rewrite <- (assoc (++)).
  - done.
Qed.

(** A dependency on an unknown id is the [KeyError] of [dependents[dep]]. *)
Lemma add_edge_raise node_id dep g e :
  is_Some (indegree g !! node_id) → add_edge node_id dep g = Raise e → e = KeyError dep.
Proof.
  intros [z Hz]. unfold add_edge. rewrite Hz. case_match; [done|]. congruence.
Qed.

(** ** One round *)

Definition degree_is (deg : pydict string Z) (x : string) (n : nat) : Prop :=
  deg !! x = Some (Z.of_nat n).

Record round_inv (ids done l : list string) (rest : string → nat) (deg : pydict string Z)
    (ready : list string) : Prop := {
  ri_keys : keys deg = ids;
  ri_deg x : x ∈ ids → degree_is deg x (occ x l + rest x);
  ri_ready x : x ∈ ids → x ∈ done ++ ready ↔ occ x l + rest x = 0;
  ri_nodup : NoDup (done ++ ready);
  ri_sub x : x ∈ done ++ ready → x ∈ ids
}.

Lemma settle_dependent_ok ids done l rest deg ready :
  (∀ x, x ∈ l → x ∈ ids) → round_inv ids done l rest deg ready →
  ∃ deg' ready', settle l deg ready = Ok (deg', ready') ∧
    round_inv ids done [] rest deg' ready'.
Proof.
  revert deg ready. induction l as [|x l IH]; intros deg ready Hl Hinv; [by exists deg, ready|].
  cbn. destruct Hinv as [Hk Hd Hr Hnd Hs].
  assert (x ∈ ids) as Hx by (apply Hl; left).
  pose proof (Hd x Hx) as Hdx. rewrite Hdx. apply IH; [intros; apply Hl; by right|].
  rewrite occ_cons, decide_True in Hdx by done.
  assert (x ∉ done ++ ready) as Hnot.
  { rewrite Hr by done. rewrite occ_cons, decide_True by done. lia. }
  rewrite occ_cons, decide_True by done.
  assert (∀ y, y ≠ x → occ y (x :: l) = occ y l) as Hy.
  { intros y Hne. by rewrite occ_cons, decide_False. }
  split.
  - by rewrite keys_insert_Some by eauto.
  - intros y Hy'. unfold degree_is. rewrite dict_lookup_insert. case_decide; subst.
    + f_equal. lia.
    + rewrite <- Hy by done. by apply Hd.
  - intros y Hy'. destruct (decide (y = x)) as [->|Hne].
    + case_match eqn:Hz; rewrite ?Z.eqb_eq, ?Z.eqb_neq in Hz.
      * split; [lia|]. intros _. rewrite !elem_of_app. right; right. by apply list_elem_of_singleton.
      * split; [done|lia].
    + rewrite <- (Hy y), <- (Hr y) by done. case_match; [|done].
      rewrite (assoc (++)), elem_of_app, list_elem_of_singleton. naive_solver.
  - case_match; [|done]. rewrite (assoc (++)). apply NoDup_app. split_and!; [done| |apply NoDup_singleton].
    intros y Hy' ->%list_elem_of_singleton. done.
  - case_match; [|done]. intros y. rewrite (assoc (++)), elem_of_app, list_elem_of_singleton.
    naive_solver.
Qed.

Lemma elem_of_sorted_where P deg x :
  dict_wf deg → x ∈ sorted_where P deg ↔ ∃ d, deg !! x = Some d ∧ P d = true.
Proof.
  intros Hwf. unfold sorted_where. rewrite elem_of_py_sorted, list_elem_of_fmap. split.
  - intros ([y d] & -> & [Hz Hin]%list_elem_of_filter). exists d.
    split; [by apply elem_of_items|by apply Is_true_true].
  - intros (d & Hd & HP). exists (x, d). split; [done|]. apply list_elem_of_filter.
    split; [by apply Is_true_true|by apply elem_of_items].
Qed.

Lemma NoDup_sorted_where P deg : dict_wf deg → NoDup (sorted_where P deg).
Proof.
  intros Hwf. unfold sorted_where. rewrite py_sorted_perm.
  eapply sublist_NoDup; [exact Hwf|]. apply fmap_sublist, sublist_filter.
Qed.

(** ** The graph *)

Section graph.
Context (nodes : list CompiledStep).

(** A step can run once all its dependencies have run. *)
Inductive runnable : string → Prop :=
  | run_step n : n ∈ nodes → (∀ d, d ∈ cs_depends_on n → runnable d) → runnable (cs_id n).

(** Every dependency is a step of the graph. *)
Definition closed : Prop :=
  ∀ n d, n ∈ nodes → d ∈ cs_depends_on n → d ∈ cs_id <$> nodes.

#[local] Abbreviation ids := (cs_id <$> nodes).

(** The dependencies of [x] outside [done]. *)
Definition pending_deps (done : list string) (x : string) : nat :=
  length (base.filter (λ d, d ∉ done) (deps_of nodes x)).

Lemma pending_deps_snoc done v x :
  v ∉ done → pending_deps done x = occ v (deps_of nodes x) + pending_deps (done ++ [v]) x.
Proof.
  intros Hv. unfold pending_deps. induction (deps_of nodes x) as [|d l IH]; [done|].
  rewrite occ_cons, !filter_cons. destruct (decide (v = d)) as [<-|Hne].
  - rewrite decide_True, decide_False by set_solver. cbn. lia.
  - destruct (decide (d ∉ done)).
    + rewrite decide_True by set_solver. cbn. lia.
    + rewrite decide_False by set_solver. cbn. lia.
Qed.

Lemma pending_deps_zero done x :
  pending_deps done x = 0 ↔ ∀ d, d ∈ deps_of nodes x → d ∈ done.
Proof.
  unfold pending_deps. induction (deps_of nodes x) as [|d l IH].
  { split; [by intros _ ? ?%elem_of_nil|done]. }
  rewrite filter_cons. destruct (decide (d ∉ done)); cbn.
  - split; [lia|]. intros H. destruct n. apply H. left.
  - rewrite IH. split.
    + intros H d' [->|?]%elem_of_cons; [|auto]. by apply dec_stable.
    + intros H d' ?. apply H. by right.
Qed.

Definition kahn_inv (done ready : list string) (deg : pydict string Z) : Prop :=
  round_inv ids done [] (pending_deps done) deg ready ∧ ∀ x, x ∈ done ++ ready → runnable x.

Hypothesis Hnd : NoDup ids.

Lemma runnable_deps x : x ∈ ids → (∀ d, d ∈ deps_of nodes x → runnable d) → runnable x.
Proof.
  intros (n & -> & Hn)%list_elem_of_fmap. rewrite deps_of_node by done. by constructor.
Qed.

Lemma kahn_round g done v ready deg :
  degrees_ok ids (deps_of nodes) g → kahn_inv done (v :: ready) deg →
  ∃ l deg' ready', dependents g !! v = Some l ∧ settle l deg ready = Ok (deg', ready') ∧
    kahn_inv (done ++ [v]) ready' deg'.
Proof.
  intros Hg [[Hk Hd Hr Hn Hs] Hrun].
  assert (v ∈ ids) as Hv by (apply Hs; set_solver).
  destruct (do_out _ _ _ Hg v Hv) as (l & Hl & Hsub & Hocc).
  assert (v ∉ done) as Hvd.
  { apply NoDup_app in Hn as (_ & Hn & _). intros Hin. apply (Hn v Hin). left. }
  assert (∀ x, occ x [] + pending_deps done x = occ x l + pending_deps (done ++ [v]) x) as Hp.
  { intros x. rewrite (pending_deps_snoc _ v), Hocc by done. cbn. lia. }
  destruct (settle_dependent_ok ids (done ++ [v]) l (pending_deps (done ++ [v])) deg ready)
    as (deg' & ready' & Hset & Hinv); [done| |].
  { split; [done| | | |].
    - intros x Hx. rewrite <- Hp. by apply Hd.
    - intros x Hx. rewrite <- Hp, <- Hr, <- (assoc (++)) by done. done.
    - by rewrite <- (assoc (++)).
    - intros x. rewrite <- (assoc (++)). apply Hs. }
  exists l, deg', ready'. split_and!; [done..|]. split; [done|].
  intros x Hx. destruct Hinv as [_ _ Hr' _ Hs'].
  apply runnable_deps; [by apply Hs'|]. intros d Hd'.
  apply Hr' in Hx; [|by apply Hs']. cbn in Hx.
  apply (proj1 (pending_deps_zero _ _) Hx) in Hd'. apply Hrun. set_solver.
Qed.

Lemma round_inv_bound done l rest deg ready :
  round_inv ids done l rest deg ready → length done + length ready ≤ length ids.
Proof.
  intros [_ _ _ Hn Hs]. rewrite <- length_app. apply submseteq_length.
  apply NoDup_submseteq; [done|]. apply Hs.
Qed.

Lemma kahn_ok g fuel done ready deg :
  degrees_ok ids (deps_of nodes) g → kahn_inv done ready deg →
  length ids ≤ length done + fuel →
  ∃ done' deg', kahn fuel (dependents g) deg ready (length done)
    = Some (Ok (length done', deg')) ∧ kahn_inv done' [] deg'.
Proof.
  intros Hg. revert done ready deg. induction fuel as [|fuel IH]; intros done ready deg Hinv Hf.
  - pose proof (round_inv_bound _ _ _ _ _ (proj1 Hinv)).
    destruct ready; [|cbn in *; lia]. by exists done, deg.
  - destruct ready as [|v ready]; [by exists done, deg|].
    destruct (kahn_round g done v ready deg Hg Hinv) as (l & deg' & ready' & Hl & Hs & Hinv').
    cbn [kahn]. rewrite Hl, Hs.
    replace (S (length done)) with (length (done ++ [v])) by (rewrite length_app; cbn; lia).
    apply IH; [done|]. rewrite length_app; cbn; lia.
Qed.

(** When nothing is ready any more, exactly the runnable steps are done. *)
Lemma kahn_complete done deg : kahn_inv done [] deg → ∀ x, runnable x ↔ x ∈ done.
Proof.
  intros [[_ _ Hr _ Hs] Hrun]. rewrite app_nil_r in *. intros x. split; [|apply Hrun].
  induction 1 as [n Hn _ IH]. apply Hr; [by apply list_elem_of_fmap_2|]. cbn.
  apply pending_deps_zero. by rewrite deps_of_node.
Qed.

(** The steps left with a positive degree are those that never run. *)
Lemma stuck_steps done deg :
  kahn_inv done [] deg →
  ∀ i, i ∈ sorted_where (λ d, 0 <? d)%Z deg ↔ i ∈ ids ∧ ¬ runnable i.
Proof.
  intros Hinv i. pose proof (kahn_complete _ _ Hinv) as Hrun.
  destruct Hinv as [[Hkeys Hdeg Hr _ _] _].
  rewrite elem_of_sorted_where by (unfold dict_wf; by rewrite Hkeys).
  rewrite Hrun. setoid_rewrite app_nil_r in Hr. cbn in Hdeg, Hr. split.
  - intros (d & Hd & Hz). assert (i ∈ ids) as Hi by (rewrite <- Hkeys; apply elem_of_keys; eauto).
    split; [done|]. rewrite Hr by done. rewrite (Hdeg i Hi) in Hd. simplify_eq. lia.
  - intros [Hi Hn]. eexists. split; [by apply Hdeg|]. rewrite Hr in Hn by done. lia.
Qed.

Lemma kahn_start g :
  degrees_ok ids (deps_of nodes) g →
  kahn_inv [] (sorted_where (λ d, d =? 0)%Z (indegree g)) (indegree g).
Proof.
  intros [Hk Hd _ _].
  assert (dict_wf (indegree g)) as Hwf by (unfold dict_wf; by rewrite Hk).
  assert (∀ x, x ∈ sorted_where (λ d, d =? 0)%Z (indegree g) ↔ x ∈ ids ∧ deps_of nodes x = []) as Hel.
  { intros x. rewrite elem_of_sorted_where by done. split.
    - intros (d & Hx & Hz). assert (x ∈ ids) as Hi by (rewrite <- Hk; apply elem_of_keys; eauto).
      split; [done|]. rewrite (Hd x Hi) in Hx. destruct (deps_of nodes x); [done|]. by simplify_eq.
    - intros [Hx Hn]. exists 0%Z. by rewrite Hd, Hn by done. }
  assert (∀ x, pending_deps [] x = length (deps_of nodes x)) as Hp.
  { intros x. unfold pending_deps. induction (deps_of nodes x) as [|d l IH]; [done|].
    rewrite filter_cons, decide_True by apply not_elem_of_nil. cbn. by rewrite IH. }
  split; [split; [done| | | |]|].
  - intros x Hx. cbn. rewrite Hp. by apply Hd.
  - intros x Hx. cbn. rewrite Hel, Hp, length_zero_iff_nil. naive_solver.
  - by apply NoDup_sorted_where.
  - intros x. cbn. rewrite Hel. naive_solver.
  - intros x. cbn. rewrite Hel. intros [Hx Hn]. apply runnable_deps; [done|].
    rewrite Hn. by intros d ?%elem_of_nil.
Qed.
End graph.

(** A dependency outside the graph makes [dependents[dep]] raise. *)
Lemma add_edges_raise node_id deps g e :
  is_Some (indegree g !! node_id) → add_edges node_id deps g = Raise e →
  ∃ d, d ∈ deps ∧ dependents g !! d = None ∧ e = KeyError d.
Proof.
  revert g. induction deps as [|d deps IH]; intros g [z Hz] H; [done|].
  unfold add_edges in H. rewrite foldl_res_cons in H.
  apply res_bind_Raise in H as [H|(g' & Hg' & H)].
  - unfold add_edge in H. rewrite Hz in H. case_match eqn:E; [done|]. simplify_eq.
    exists d. split; [left|done].
  - unfold add_edge in Hg'. rewrite Hz in Hg'. case_match eqn:E; [|done]. simplify_eq.
    edestruct IH as (d' & Hd' & Hn & ->);
      [|exact H|]; [cbn; rewrite dict_lookup_insert_eq; eauto|].
    cbn in Hn. rewrite dict_lookup_insert in Hn. case_decide; [done|].
    exists d'. split; [by right|done].
Qed.

(** Adding edges never changes which keys the dictionaries have. *)
Lemma add_edge_keys node_id dep g g' :
  add_edge node_id dep g = Ok g' →
  keys (indegree g') = keys (indegree g) ∧ keys (dependents g') = keys (dependents g).
Proof.
  unfold add_edge. repeat case_match; intros; simplify_eq. cbn.
  by rewrite !keys_insert_Some by eauto.
Qed.

Lemma foldl_res_inv {A B} (P : B → Prop) (f : A → B → res B) l b b' :
  (∀ x b b', P b → f x b = Ok b' → P b') → P b →
  foldl (λ r x, b ← r; f x b) (Ok b) l = Ok b' → P b'.
Proof.
  intros Hf. revert b. induction l as [|x l IH]; intros b Hb; [by intros [= <-]|].
  rewrite foldl_res_cons. intros (b1 & H1 & H)%res_bind_Ok. eauto.
Qed.

Lemma add_edges_keys node_id deps g g' :
  add_edges node_id deps g = Ok g' →
  keys (indegree g') = keys (indegree g) ∧ keys (dependents g') = keys (dependents g).
Proof.
  intros H. eapply (foldl_res_inv (λ g1, keys (indegree g1) = keys (indegree g) ∧
    keys (dependents g1) = keys (dependents g)) (add_edge node_id)); [|done|exact H].
  cbn beta. intros d g1 g2 [<- <-] H1. by eapply add_edge_keys.
Qed.

Lemma add_nodes_raise nodes g e :
  (∀ n, n ∈ nodes → is_Some (indegree g !! cs_id n)) → add_nodes nodes g = Raise e →
  ∃ n d, n ∈ nodes ∧ d ∈ cs_depends_on n ∧ dependents g !! d = None ∧ e = KeyError d.
Proof.
  revert g. induction nodes as [|n nodes IH]; intros g Hin H; [done|].
  unfold add_nodes in H.
  rewrite (foldl_res_cons (λ node, add_edges (cs_id node) (cs_depends_on node))) in H.
  apply res_bind_Raise in H as [H|(g' & Hg' & H)].
  - apply add_edges_raise in H as (d & ? & ? & ->); [|apply Hin; left].
    exists n, d. split; [left|done].
  - apply add_edges_keys in Hg' as [Hk1 Hk2].
    destruct (IH g') as (n' & d & ? & ? & Hd & ->); [|exact H|].
    + intros n' Hn'. rewrite <- elem_of_keys, Hk1, elem_of_keys. apply Hin. by right.
    + exists n', d. split_and!; [by right|done| |done].
      by rewrite <- not_elem_of_keys, <- Hk2, not_elem_of_keys.
Qed.

Lemma add_nodes_keys nodes g g' :
  add_nodes nodes g = Ok g' →
  keys (indegree g') = keys (indegree g) ∧ keys (dependents g') = keys (dependents g).
Proof.
  intros H. eapply (foldl_res_inv (λ g1, keys (indegree g1) = keys (indegree g) ∧
    keys (dependents g1) = keys (dependents g))
    (λ node, add_edges (cs_id node) (cs_depends_on node))); [|done|exact H].
  cbn beta. intros n g1 g2 [<- <-] H1. by eapply add_edges_keys.
Qed.

Lemma add_edges_known node_id deps g g' d :
  add_edges node_id deps g = Ok g' → d ∈ deps → d ∈ keys (dependents g).
Proof.
  revert g. induction deps as [|d' deps IH]; intros g H Hd; [by apply elem_of_nil in Hd|].
  unfold add_edges in H. rewrite foldl_res_cons in H. apply res_bind_Ok in H as (g1 & H1 & H).
  apply elem_of_cons in Hd as [<-|Hd].
  - unfold add_edge in H1. apply elem_of_keys. repeat case_match; naive_solver.
  - apply add_edge_keys in H1 as [_ <-]. by eapply IH.
Qed.

Lemma add_nodes_known nodes g g' n d :
  add_nodes nodes g = Ok g' → n ∈ nodes → d ∈ cs_depends_on n → d ∈ keys (dependents g).
Proof.
  revert g. induction nodes as [|n' nodes IH]; intros g H Hn Hd; [by apply elem_of_nil in Hn|].
  unfold add_nodes in H.
  rewrite (foldl_res_cons (λ node, add_edges (cs_id node) (cs_depends_on node))) in H.
  apply res_bind_Ok in H as (g1 & H1 & H). apply elem_of_cons in Hn as [<-|Hn].
  - by eapply add_edges_known.
  - apply add_edges_keys in H1 as [_ <-]. by eapply IH.
Qed.

(** [add_nodes] succeeds exactly on closed graphs. *)
Lemma add_nodes_closed nodes (ids := cs_id <$> nodes) :
  NoDup ids →
  match add_nodes nodes (degrees_init ids) with
  | Ok g => closed nodes ∧ degrees_ok ids (deps_of nodes) g
  | Raise e => ∃ n d, n ∈ nodes ∧ d ∈ cs_depends_on n ∧ d ∉ ids ∧ e = KeyError d
  end.
Proof.
  intros Hnd. pose proof (degrees_init_ok ids Hnd) as Hok0.
  destruct Hok0 as [Hk Hi Ho Hok] eqn:Heq0.
  destruct (add_nodes nodes (degrees_init ids)) as [g|e] eqn:E.
  - assert (closed nodes) as Hcl.
    { intros n d Hn Hd. apply Hok, elem_of_keys. by eapply add_nodes_known. }
    split; [done|].
    destruct (add_nodes_ok ids (λ _, []) (degrees_init ids) nodes) as (g' & Hg & Hok');
      [done|intros n Hn; by apply list_elem_of_fmap_2|exact Hcl|].
    rewrite E in Hg. by injection Hg as <-.
  - apply add_nodes_raise in E as (n & d & Hn & Hd & Hnone & ->).
    + exists n, d. split_and!; [done..| |done]. intros Hin.
      destruct (Ho d Hin) as (l & Hl & _). congruence.
    + intros n Hn. rewrite Hi; [eauto|]. by apply list_elem_of_fmap_2.
Qed.

(** The whole of [_check_cycles], on every plan: it accepts exactly the graphs with
    distinct ids whose dependencies exist and which run to the end; a cycle error lists,
    sorted and once each, exactly the steps that can never run. The fuel is never the
    reason. *)
Lemma check_cycles_spec nodes (ids := cs_id <$> nodes) :
  match check_cycles nodes with
  | Ok _ => NoDup ids ∧ closed nodes ∧ ∀ i, i ∈ ids → runnable nodes i
  | Raise (ValueError m) => ¬ NoDup ids ∧ ValueError m = duplicate_error ids
  | Raise (KeyError d) => NoDup ids ∧ d ∉ ids ∧ ∃ n, n ∈ nodes ∧ d ∈ cs_depends_on n
  | Raise e => NoDup ids ∧ closed nodes ∧ ∃ cyclic, e = cycle_error cyclic ∧ cyclic ≠ [] ∧
      NoDup cyclic ∧ Sorted String.le cyclic ∧
      ∀ i, i ∈ cyclic ↔ i ∈ ids ∧ ¬ runnable nodes i
  end.
Proof.
  unfold check_cycles. fold ids. case_decide as Hnd; [|done].
  pose proof (add_nodes_closed nodes Hnd) as Hadd. fold ids in Hadd.
  destruct (add_nodes nodes (degrees_init ids)) as [g|e]; cbn [mbind res_mbind res_bind];
    [|destruct Hadd as (n & d & ? & ? & ? & ->); eauto].
  destruct Hadd as [Hcl Hg].
  pose proof (kahn_start nodes Hnd g Hg) as Hstart.
  destruct (kahn_ok nodes Hnd g (length ids) _ _ _ Hg Hstart) as (done' & deg & Hk & Hinv); [done|].
  cbn [length] in Hk. rewrite Hk. cbn [mbind res_mbind res_bind].
  pose proof (kahn_complete nodes Hnd _ _ Hinv) as Hrun.
  pose proof (stuck_steps nodes Hnd _ _ Hinv) as Hcyc.
  destruct Hinv as [[Hkeys _ _ Hn Hs] _]. rewrite app_nil_r in *.
  destruct (Nat.eqb_spec (length done') (length ids)) as [Hlen|Hlen].
  - split_and!; [done..|]. intros i Hi. apply Hrun.
    assert (done' ≡ₚ ids) as ->; [|done].
    apply submseteq_length_Permutation; [|lia]. apply NoDup_submseteq; [done|]. apply Hs.
  - split_and!; [done..|].
    assert (dict_wf deg) as Hwf by (unfold dict_wf; by rewrite Hkeys).
    set (cyclic := sorted_where _ deg) in *.
    exists cyclic. split_and!; [done| | | |done].
    + intros Hnil. apply Hlen. apply Permutation_length.
      apply NoDup_Permutation; [done..|]. intros i. split; [apply Hs|].
      intros Hi. destruct (decide (i ∈ done')) as [?|Hni]; [done|].
      assert (i ∈ cyclic) as Hc by (apply Hcyc; by rewrite Hrun).
      rewrite Hnil in Hc. by apply elem_of_nil in Hc.
    + by apply NoDup_sorted_where.
    + apply Sorted_merge_sort, _.
Qed.

(** C5. What passes the cycle check, and what is reported. A graph passes exactly when its
    ids are distinct, every dependency is a step of it and every step can run after its
    dependencies; when ids and dependencies are right and the check fails, the error is a
    CircularDependencyError that lists, sorted and once each, exactly the steps that can
    never run. *)
Theorem check_cycles_exact (nodes : list CompiledStep) :
  (check_cycles nodes = Ok tt ↔
    NoDup (cs_id <$> nodes) ∧ closed nodes ∧ ∀ i, i ∈ cs_id <$> nodes → runnable nodes i)
  ∧ ∀ e, NoDup (cs_id <$> nodes) → closed nodes → check_cycles nodes = Raise e →
      ∃ cyclic, e = cycle_error cyclic ∧ cyclic ≠ [] ∧ NoDup cyclic ∧ Sorted String.le cyclic
      ∧ ∀ i, i ∈ cyclic ↔ i ∈ cs_id <$> nodes ∧ ¬ runnable nodes i.
Proof.
  pose proof (check_cycles_spec nodes) as Hck. cbn zeta in Hck.
  destruct (check_cycles nodes) as [[]|e].
  { split; [by split|]. intros; done. }
  assert (NoDup (cs_id <$> nodes) → closed nodes → ∃ cyclic, e = cycle_error cyclic ∧ cyclic ≠ []
    ∧ NoDup cyclic ∧ Sorted String.le cyclic
    ∧ ∀ i, i ∈ cyclic ↔ i ∈ cs_id <$> nodes ∧ ¬ runnable nodes i) as H.
  { intros Hnd Hcl. destruct e; try by destruct Hck as (_ & _ & H).
    - exfalso. destruct Hck as (_ & Hd & n & Hn & Hdn). by eapply Hd, Hcl.
    - by destruct Hck. }
  split; [|by intros e' ?? [= <-]; apply H]. split; [done|].
  intros (Hnd & Hcl & Hrun). destruct (H Hnd Hcl) as (cyclic & _ & Hne & _ & _ & Hc).
  destruct cyclic as [|i l]; [done|]. exfalso. destruct (proj1 (Hc i)) as [Hi Hn]; [left|]. auto.
Qed.

Lemma check_cycles_exact_witness :
  let nodes := [node_of "a" []; node_of "c" ["b"]; node_of "b" ["c"; "a"]] in
  ∃ e cyclic, check_cycles nodes = Raise e ∧ e = cycle_error cyclic ∧ "b" ∈ cyclic.
Proof.
  intros nodes. eexists. set (H := check_cycles_exact nodes).
  assert (NoDup (cs_id <$> nodes)) as Hnd by (apply (bool_decide_unpack _); vm_compute; exact I).
  assert (closed nodes) as Hcl.
  { assert (Forall (λ n, Forall (.∈ cs_id <$> nodes) (cs_depends_on n)) nodes) as Hall
      by (apply (bool_decide_unpack _); vm_compute; exact I).
    intros n d Hn Hd. rewrite Forall_forall in Hall. specialize (Hall n Hn).
    rewrite Forall_forall in Hall. by apply Hall. }
  destruct (proj2 H _ Hnd Hcl eq_refl) as (cyclic & E & _ & _ & _ & Hc).
  exists cyclic. split; [reflexivity|]. split; [exact E|]. apply Hc.
  split; [apply (bool_decide_unpack _); vm_compute; exact I|]. intros Hr.
  assert (∀ i, runnable nodes i → i = "a") as Hall.
  { induction 1 as [n Hn Hd IH]. vm_compute in Hn.
    repeat (apply elem_of_cons in Hn as [->|Hn]); [done| | |by apply elem_of_nil in Hn].
    - discriminate (IH "b" ltac:(left)).
    - discriminate (IH "c" ltac:(left)). }
  discriminate (Hall "b" Hr).
Defined.
