(* ===== verification/Compiler.v ===== *)
(** * The sequence compiler (src/src/ate_platform/scheduler/compiler.py)

    [compile] turns a plan of nested loops and subsequences into a flat graph of
    [CompiledStep]s. A first pass gives every leaf its expanded id and records, per
    scope, which id a name stands for ([Compiler], the attributes of SequenceCompiler); a
    second one emits the nodes with their dependencies resolved in those tables. *)

From S2P Require Import Prelude PyDict PyStr Types VariableSpace Dsl CompiledPlan.

(** ** State *)

(** [_Frames]: the enclosing containers, outermost first, with the iteration of a loop. *)
Definition Frames : Type := list (string * option Z).

Record IteratorBinding : Type := mkBinding {
  ib_step_id : string;
  ib_placeholder : string;
  ib_source : string;
  ib_iteration : option Z
}.

Record Compiler : Type := mkCompiler {
  iterator_bindings : list IteratorBinding;
  frame_children : pydict Frames (pydict string string);
  leaf_expansions : pydict string (list string);
  terminal : pydict string string
}.

(** [__init__] and [_reset_state] *)
Definition new_compiler : Compiler := mkCompiler [] ∅ ∅ ∅.

Definition set_frame (f : Frames) (m : pydict string string) (c : Compiler) : Compiler :=
  mkCompiler (iterator_bindings c) (<[f := m]> (frame_children c)) (leaf_expansions c) (terminal c).
Definition set_terminal (id last : string) (c : Compiler) : Compiler :=
  mkCompiler (iterator_bindings c) (frame_children c) (leaf_expansions c)
    (<[id := last]> (terminal c)).
(** [self._leaf_expansions.setdefault(id, []).append(expanded_id)] *)
Definition add_leaf (id expanded : string) (c : Compiler) : Compiler :=
  mkCompiler (iterator_bindings c) (frame_children c)
    (<[id := get_default id [] (leaf_expansions c) ++ [expanded]]> (leaf_expansions c))
    (terminal c).
Definition add_bindings (l : list IteratorBinding) (c : Compiler) : Compiler :=
  mkCompiler (iterator_bindings c ++ l) (frame_children c) (leaf_expansions c) (terminal c).

(** ** Helpers *)

(** [item.type], on an entry that is not a YamlStep. *)
Definition no_type_error (v : pyval) : exc :=
  CustomError "AttributeError" ("'" +:+ type_name v +:+ "' object has no attribute 'type'").

(** [_subsequence_steps]: whether the steps are the parsed ones. When "steps" holds a raw
    list (the parser leaves the YAML entries as they are), reading [.type] of its first
    entry raises; anything else counts as no steps. *)
Definition subsequence_steps (s : YamlStep) : res bool :=
  match ys_params s !! "steps" with
  | None => Ok true
  | Some (PyList (v :: _)) => Raise (no_type_error v)
  | Some _ => Ok false
  end.

Definition innermost_iteration (frames : Frames) : option Z :=
  match base.filter (λ f, is_Some f.2) (rev frames) with
  | (_, i) :: _ => i
  | [] => None
  end.

(** [loop.loop_type == LoopType.FOR and loop.count] *)
Definition expands (spec : LoopSpec) : bool :=
  bool_decide (yl_type spec = FOR) &&
  match yl_count spec with Some n => negb (n =? 0)%Z | None => false end.

(** [range(loop.count)] *)
Definition iterations (spec : LoopSpec) : list Z :=
  Z.of_nat <$> seq 0 (Z.to_nat (default 0%Z (yl_count spec))).

Definition iter_suffix (suffix : string) (n : Z) : string := suffix +:+ "_iter" +:+ pretty n.

(** [_PLACEHOLDER_PATTERN], greedy: the word after "${" up to its "}". *)
Fixpoint match_placeholder (s : string) : option string :=
  match s with
  | EmptyString => None
  | String a s' =>
      if Ascii.eqb a "}" then Some ""
      else if is_word a || Ascii.eqb a "." then String a <$> match_placeholder s' else None
  end.
Definition placeholder_at (s : string) : option string :=
  match s with
  | String a (String b (String c s')) =>
      if Ascii.eqb a "$" && Ascii.eqb b "{" && is_name_start c
      then String c <$> match_placeholder s' else None
  | _ => None
  end.
Fixpoint find_placeholders (skip : nat) (s : string) : list string :=
  match s with
  | EmptyString => []
  | String _ s' =>
      match skip with
      | S k => find_placeholders k s'
      | O =>
          match placeholder_at s with
          | Some name => ref_text name :: find_placeholders (String.length name + 2) s'
          | None => find_placeholders 0 s'
          end
      end
  end.

(** [walk]: the string parameters of the steps, through loops but not subsequences. *)
Fixpoint walk (n : YamlNode) : list string :=
  match n with
  | LoopNode _ steps => mjoin (walk <$> steps)
  | StepNode s _ =>
      v ← values (ys_params s); match v with PyStr t => find_placeholders 0 t | _ => [] end
  end.
Definition collect_placeholders (items : list YamlNode) : list string :=
  py_sorted (remove_dups (mjoin (walk <$> items))).

(** ** Pass A: expanded ids *)

Abbreviation Mapping := (pydict string string).

(** [if assigned is not None: last = assigned] *)
Definition or_last (assigned last : option string) : option string :=
  match assigned with Some _ => assigned | None => last end.

(** The loop over the items of a scope, with its mapping and the last id assigned. *)
Definition assign_items (assign : YamlNode → Mapping → M Compiler (option string * Mapping)) :
    list YamlNode → Mapping → option string → M Compiler (option string * Mapping) :=
  fix go items mapping last :=
    match items with
    | [] => ret (last, mapping)
    | item :: items' =>
        r <- assign item mapping ;;
        go items' r.2 (or_last r.1 last)
    end.

(** [_assign_scope] *)
Definition assign_scope (assign : YamlNode → Mapping → M Compiler (option string * Mapping))
    (items : list YamlNode) (frames : Frames) : M Compiler (option string) :=
  r <- assign_items assign items ∅ None ;;
  modify (set_frame frames r.2) ;;;
  ret r.1.

Definition index_bindings (spec : LoopSpec) (n : Z) (mapping : Mapping) : list IteratorBinding :=
  if truthy (yl_iterator_var spec) then
    (λ id, mkBinding id (ref_text (or_str (yl_iterator_var spec) "")) "index" (Some n))
      <$> values mapping
  else [].

(** [for n in range(loop.count)] *)
Definition assign_iterations
    (assign : Z → YamlNode → Mapping → M Compiler (option string * Mapping))
    (spec : LoopSpec) (steps : list YamlNode) (frames : Frames) :
    list Z → option string → M Compiler (option string) :=
  fix go ns last :=
    match ns with
    | [] => ret last
    | n :: ns' =>
        r <- assign_items (assign n) steps ∅ last ;;
        modify (set_frame (frames ++ [(yl_id spec, Some n)]) r.2) ;;;
        modify (add_bindings (index_bindings spec n r.2)) ;;;
        go ns' r.1
    end.

(** A leaf, or a loop left to the run time: one id in the scope and in the table. *)
Definition assign_leaf (id prefix suffix : string) (mapping : Mapping) :
    M Compiler (option string * Mapping) :=
  let expanded_id := prefix +:+ id +:+ suffix in
  modify (add_leaf id expanded_id) ;;;
  ret (Some expanded_id, <[id := expanded_id]> mapping).

Definition foreach_bindings (spec : LoopSpec) (steps : list YamlNode) (expanded_id : string) :
    list IteratorBinding :=
  if decide (yl_type spec = FOREACH) then
    (λ p, mkBinding expanded_id p (or_str (yl_collection spec) "") None)
      <$> collect_placeholders steps
  else [].

Definition set_terminal_opt (id : string) (last : option string) : M Compiler unit :=
  match last with Some l => modify (set_terminal id l) | None => ret tt end.

(** [_assign_item], [_assign_loop] *)
Fixpoint assign_item (item : YamlNode) (prefix suffix : string) (frames : Frames)
    (mapping : Mapping) : M Compiler (option string * Mapping) :=
  match item with
  | LoopNode spec steps =>
      if expands spec then
        last <- assign_iterations
          (λ n child, assign_item child prefix (iter_suffix suffix n)
                        (frames ++ [(yl_id spec, Some n)]))
          spec steps frames (iterations spec) None ;;
        set_terminal_opt (yl_id spec) last ;;;
        ret (None, mapping)
      else
        r <- assign_leaf (yl_id spec) prefix suffix mapping ;;
        modify (add_bindings (foreach_bindings spec steps (prefix +:+ yl_id spec +:+ suffix))) ;;;
        ret r
  | StepNode s inner =>
      if decide (ys_type s = Some SUBSEQUENCE) then
        match subsequence_steps s with
        | Raise e => raise e
        | Ok parsed =>
            let scope := assign_scope
              (λ child, assign_item child (prefix +:+ ys_id s +:+ ".") suffix
                          (frames ++ [(ys_id s, None)])) in
            last <- (if parsed then scope inner else scope []) (frames ++ [(ys_id s, None)]) ;;
            set_terminal_opt (ys_id s) last ;;;
            ret (last, mapping)
        end
      else assign_leaf (ys_id s) prefix suffix mapping
  end.

(** ** Edges *)

(** The scopes from the innermost outwards: [frames[:i]] for [i] from [len(frames)] to 0. *)
Fixpoint enclosing (n : nat) (frames : Frames) : list Frames :=
  match n with
  | O => [[]]
  | S n' => take n frames :: enclosing n' frames
  end.

Fixpoint scope_lookup (target : string) (scopes : list Frames) (c : Compiler) : option string :=
  match scopes with
  | [] => None
  | f :: scopes' =>
      match m ← frame_children c !! f; m !! target with
      | Some id => Some id
      | None => scope_lookup target scopes' c
      end
  end.

Definition unknown_target (target : string) : exc :=
  ValueError ("Unknown dependency target '" +:+ target
    +:+ "': no such step, loop, or subsequence in plan").

Definition resolve_target (c : Compiler) (frames : Frames) (target : string) : res string :=
  match scope_lookup target (enclosing (length frames) frames) c with
  | Some id => Ok id
  | None =>
      match terminal c !! target with
      | Some id => Ok id
      | None =>
          match last (get_default target [] (leaf_expansions c)) with
          | Some id => Ok id
          | None => Raise (unknown_target target)
          end
      end
  end.

Definition strings_of (l : list pyval) : list string :=
  v ← l; match v with PyStr s => [s] | _ => [] end.

(** [_resolve_reference_list(params.get(key, []), frames)] *)
Definition resolve_reference_list (c : Compiler) (frames : Frames) (references : option pyval) :
    res (list string) :=
  l ← py_iter (default (PyList []) references);
  mapM (resolve_target c frames) (strings_of l).

(** ** Pass B: nodes *)

Definition emit_items (emit : YamlNode → res (list CompiledStep)) :
    list YamlNode → res (list CompiledStep) :=
  fix go items :=
    match items with
    | [] => Ok []
    | item :: items' => nodes ← emit item; nodes' ← go items'; Ok (nodes ++ nodes')
    end.

Definition emit_iterations (emit : Z → YamlNode → res (list CompiledStep))
    (steps : list YamlNode) : list Z → res (list CompiledStep) :=
  fix go ns :=
    match ns with
    | [] => Ok []
    | n :: ns' => nodes ← emit_items (emit n) steps; nodes' ← go ns'; Ok (nodes ++ nodes')
    end.

Definition opt_str (o : option string) : pyval := match o with Some s => PyStr s | None => PyNone end.

(** The entries of a deferred loop's [params] that are not None. *)
Definition loop_params (spec : LoopSpec) : pydict string pyval :=
  dict_of_list (base.filter (λ kv, negb (is_none kv.2))
    [("count", match yl_count spec with Some n => PyInt n | None => PyNone end);
     ("collection", opt_str (yl_collection spec));
     ("iterator_var", opt_str (yl_iterator_var spec));
     ("max_iterations", PyInt (yl_max_iterations spec));
     ("execution_mode", PyStr (execution_mode_value (yl_mode spec)))]).

Definition branch_keys : list string := ["condition"; "then"; "else"].

(** A leaf step. *)
Definition emit_step (c : Compiler) (s : YamlStep) (prefix suffix : string) (frames : Frames)
    (inherited_deps : list string) : res CompiledStep :=
  depends_on ← mapM (resolve_target c frames) (or_list (ys_depends_on s) inherited_deps);
  let node params condition then_ids else_ids :=
    mkCompiled (prefix +:+ ys_id s +:+ suffix) (Some (default SCRIPT (ys_type s))) (ys_script s)
      params depends_on (ys_uut_affinity s) (ys_timeout s) (ys_retry s)
      (match ys_on_failure s with Some f => Some f | None => ys_on_fail s end)
      (ys_barrier_name s) (ys_action s) (ys_fixture_id s) then_ids else_ids condition (ys_id s)
      (innermost_iteration frames) (ys_export_outputs s) in
  if decide (ys_type s = Some BRANCH) then
    then_ids ← resolve_reference_list c frames (ys_params s !! "then");
    else_ids ← resolve_reference_list c frames (ys_params s !! "else");
    Ok (node (PyDict (base.filter (λ kv, negb (str_in kv.1 branch_keys)) (items (ys_params s))))
          (get_default "condition" PyNone (ys_params s)) then_ids else_ids)
  else
    Ok (node (ys_params s)
          (if is_breakpoint s then opt_str (ys_condition s) else PyNone) [] []).

(** A loop left to the run time. *)
Definition emit_deferred (c : Compiler) (spec : LoopSpec) (prefix suffix : string)
    (frames : Frames) (inherited_deps : list string) : res CompiledStep :=
  depends_on ← mapM (resolve_target c frames) (or_list (yl_depends_on spec) inherited_deps);
  Ok (mkCompiled (prefix +:+ yl_id spec +:+ suffix) (Some LOOP) "" (loop_params spec) depends_on
        None 60 0 None None None None [] [] (opt_str (yl_condition spec)) (yl_id spec)
        (innermost_iteration frames) false).

(** [_emit_item], [_emit_loop] *)
Fixpoint emit_item (c : Compiler) (item : YamlNode) (prefix suffix : string) (frames : Frames)
    (inherited_deps : list string) : res (list CompiledStep) :=
  match item with
  | LoopNode spec steps =>
      if expands spec then
        container_deps ← mapM (resolve_target c frames) (yl_depends_on spec);
        emit_iterations
          (λ n child, emit_item c child prefix (iter_suffix suffix n)
                        (frames ++ [(yl_id spec, Some n)]) container_deps)
          steps (iterations spec)
      else node ← emit_deferred c spec prefix suffix frames inherited_deps; Ok [node]
  | StepNode s inner =>
      if decide (ys_type s = Some SUBSEQUENCE) then
        container_deps ← mapM (resolve_target c frames) (ys_depends_on s);
        match subsequence_steps s with
        | Raise e => Raise e
        | Ok parsed =>
            let scope := emit_items
              (λ child, emit_item c child (prefix +:+ ys_id s +:+ ".") suffix
                          (frames ++ [(ys_id s, None)]) container_deps) in
            if parsed then scope inner else scope []
        end
      else node ← emit_step c s prefix suffix frames inherited_deps; Ok [node]
  end.

(** [compile]: the two passes, then the check. *)
Definition expand (plan : YamlPlan) : M Compiler (list CompiledStep) :=
  modify (λ _, new_compiler) ;;;
  assign_scope (λ item, assign_item item "" "" []) (yp_steps plan) [] ;;;
  c <- get ;;
  match emit_items (λ item, emit_item c item "" "" [] []) (yp_steps plan) with
  | Raise e => raise e
  | Ok nodes => ret nodes
  end.

Definition compile (plan : YamlPlan) : M Compiler (list CompiledStep) :=
  nodes <- expand plan ;;
  match check_cycles nodes with
  | Ok _ => ret nodes
  | Raise e => raise e
  end.

(** ** The expanded ids, as a function of the plan *)

Fixpoint item_ids (n : YamlNode) (prefix suffix : string) : list string :=
  match n with
  | LoopNode spec steps =>
      if expands spec then
        i ← iterations spec; child ← steps; item_ids child prefix (iter_suffix suffix i)
      else [prefix +:+ yl_id spec +:+ suffix]
  | StepNode s inner =>
      if decide (ys_type s = Some SUBSEQUENCE) then
        if decide (subsequence_steps s = Ok true) then
          child ← inner; item_ids child (prefix +:+ ys_id s +:+ ".") suffix
        else []
      else [prefix +:+ ys_id s +:+ suffix]
  end.

Definition plan_ids (plan : YamlPlan) : list string :=
  child ← yp_steps plan; item_ids child "" "".

(** ** What a plan mentions, and what its names stand for *)

(** The nodes of a plan, at every depth. *)
Fixpoint all_nodes (n : YamlNode) : list YamlNode :=
  n :: match n with StepNode _ l | LoopNode _ l => l ≫= all_nodes end.
Definition plan_nodes (plan : YamlPlan) : list YamlNode := yp_steps plan ≫= all_nodes.

(** A subsequence whose "steps" are raw YAML, the first entry being [v]. *)
Definition raw_subsequence (n : YamlNode) (v : pyval) : Prop :=
  match n with
  | StepNode s _ => ys_type s = Some SUBSEQUENCE ∧ ∃ l, ys_params s !! "steps" = Some (PyList (v :: l))
  | LoopNode _ _ => False
  end.

(** The "then" or the "else" of a branch. *)
Definition branch_list (n : YamlNode) (v : pyval) : Prop :=
  match n with
  | StepNode s _ => ys_type s = Some BRANCH ∧ (ys_params s !! "then" = Some v ∨ ys_params s !! "else" = Some v)
  | LoopNode _ _ => False
  end.

(** The names a node refers to: what it depends on, and the targets of a branch. *)
Definition mentions (n : YamlNode) (t : string) : Prop :=
  t ∈ match n with StepNode s _ => ys_depends_on s | LoopNode spec _ => yl_depends_on spec end
  ∨ ∃ v l, branch_list n v ∧ py_iter v = Ok l ∧ PyStr t ∈ l.

(** A node that has a last step: every leaf, every loop left to the run time, and a
    subsequence one of whose steps has; an unrolled loop has none. *)
Fixpoint gives_last (n : YamlNode) : bool :=
  match n with
  | LoopNode spec _ => negb (expands spec)
  | StepNode s inner =>
      if decide (ys_type s = Some SUBSEQUENCE) then
        bool_decide (subsequence_steps s = Ok true) && existsb gives_last inner
      else true
  end.

(** The names that stand for a step: those of leaves and of loops left to the run time, where
    there is at least one copy of them, and those of containers that end in a step. *)
Definition container_name (id : string) (l : list YamlNode) : list string :=
  if existsb gives_last l then [id] else [].
Fixpoint names_of (n : YamlNode) : list string :=
  match n with
  | LoopNode spec steps =>
      if expands spec then
        if decide (iterations spec = []) then []
        else container_name (yl_id spec) steps ++ (steps ≫= names_of)
      else [yl_id spec]
  | StepNode s inner =>
      if decide (ys_type s = Some SUBSEQUENCE) then
        if decide (subsequence_steps s = Ok true) then
          container_name (ys_id s) inner ++ (inner ≫= names_of)
        else []
      else [ys_id s]
  end.
Definition plan_names (plan : YamlPlan) : list string := yp_steps plan ≫= names_of.

(** ** What the tables hold *)

(** Every id a name can resolve to satisfies [T]. *)
Record tables_in (T : string → Prop) (c : Compiler) : Prop := {
  ti_frames f m x id : frame_children c !! f = Some m → m !! x = Some id → T id;
  ti_leaves x l id : leaf_expansions c !! x = Some l → id ∈ l → T id;
  ti_terminal x id : terminal c !! x = Some id → T id
}.

Definition mapping_in (T : string → Prop) (m : Mapping) : Prop :=
  ∀ x id, m !! x = Some id → T id.
Definition opt_in (T : string → Prop) (o : option string) : Prop := ∀ id, o = Some id → T id.

(** The tables know a name, in whatever scope. *)
Definition knows (t : string) (c : Compiler) : Prop :=
  is_Some (terminal c !! t) ∨ ∃ l, leaf_expansions c !! t = Some l ∧ l ≠ [].

(** The exceptions of the first pass: for the nodes [ns], a subsequence with raw steps. *)
Definition raw_error (ns : list YamlNode) (e : exc) : Prop :=
  ∃ n v, n ∈ ns ∧ raw_subsequence n v ∧ e = no_type_error v.

(** Those of the second, when [K] are the names that stand for a step and [T] the expanded ids.
    Besides the names the plan mentions, the ids that a container's own dependencies lead to
    are looked up, again as names, for the steps in it. *)
Definition emit_error (T K : string → Prop) (ns : list YamlNode) (e : exc) : Prop :=
  raw_error ns e
  ∨ (∃ t, e = unknown_target t ∧ ¬ K t ∧ (T t ∨ ∃ n, n ∈ ns ∧ mentions n t))
  ∨ ∃ n v m, n ∈ ns ∧ branch_list n v ∧ py_iter v = Raise (TypeError m) ∧ e = TypeError m.

Lemma subsequence_steps_error s inner e :
  ys_type s = Some SUBSEQUENCE → subsequence_steps s = Raise e →
  ∃ v, raw_subsequence (StepNode s inner) v ∧ e = no_type_error v.
Proof.
  unfold subsequence_steps. intros Hs. repeat case_match; intros [=]; subst. eexists. split; [|done].
  split; [done|]. by eexists.
Qed.

Section tables.
Context (T : string → Prop) (all : list YamlNode).
Abbreviation raw_step_error := (raw_error all).

Lemma new_compiler_in : tables_in T new_compiler.
Proof. by split. Qed.

Lemma set_frame_in f m c : mapping_in T m → tables_in T c → tables_in T (set_frame f m c).
Proof.
  intros Hm [Hf Hl Ht]. split; cbn; [|done..]. intros f' m' x id.
  rewrite dict_lookup_insert. case_decide; [intros [= <-]; apply Hm|apply Hf].
Qed.
Lemma set_terminal_in id last c : T last → tables_in T c → tables_in T (set_terminal id last c).
Proof.
  intros Hm [Hf Hl Ht]. split; cbn; [done..|]. intros x id'.
  rewrite dict_lookup_insert. case_decide; [congruence|apply Ht].
Qed.
Lemma add_leaf_in id expanded c : T expanded → tables_in T c → tables_in T (add_leaf id expanded c).
Proof.
  intros Hm [Hf Hl Ht]. split; cbn; [done| |done]. intros x l id'.
  rewrite dict_lookup_insert. case_decide; [|apply Hl]. intros [= <-].
  rewrite elem_of_app, list_elem_of_singleton. intros [Hin| ->]; [|done].
  unfold get_default in Hin. destruct (leaf_expansions c !! id) as [l'|] eqn:E; cbn in Hin;
    [by eapply Hl|by apply elem_of_nil in Hin].
Qed.
Lemma add_bindings_in l c : tables_in T c → tables_in T (add_bindings l c).
Proof. by intros [? ? ?]. Qed.

Lemma mapping_insert_in m x id : T id → mapping_in T m → mapping_in T (<[x := id]> m).
Proof. intros ? Hm y id'. rewrite dict_lookup_insert. case_decide; [congruence|apply Hm]. Qed.

Definition result_in (r : option string * Mapping) : Prop := opt_in T r.1 ∧ mapping_in T r.2.

Abbreviation in_tables := (ensures (tables_in T)).

Lemma assign_items_in assign items mapping last :
  Forall (λ item, ∀ m, mapping_in T m → in_tables result_in raw_step_error (assign item m)) items →
  mapping_in T mapping → opt_in T last →
  in_tables result_in raw_step_error (assign_items assign items mapping last).
Proof.
  intros Hall. revert mapping last. induction Hall as [|item items Hi _ IH]; intros m last Hm Hl.
  - by apply ensures_ret.
  - cbn. eapply ensures_bind; [by apply Hi|]. intros [o m'] [Ho Hm']. apply IH; [done|].
    unfold or_last. cbn. by destruct o.
Qed.

Lemma assign_scope_in assign items frames :
  Forall (λ item, ∀ m, mapping_in T m → in_tables result_in raw_step_error (assign item m)) items →
  in_tables (opt_in T) raw_step_error (assign_scope assign items frames).
Proof.
  intros Hall. eapply ensures_bind; [by apply assign_items_in|]. intros [o m] [Ho Hm].
  apply (ensures_bind _ _ (λ _, True)); [|by intros; apply ensures_ret].
  apply ensures_modify; [|done]. intros c. by apply set_frame_in.
Qed.

Lemma assign_iterations_in assign spec steps frames ns last :
  (∀ n, n ∈ ns → Forall (λ item, ∀ m, mapping_in T m →
    in_tables result_in raw_step_error (assign n item m)) steps) →
  opt_in T last →
  in_tables (opt_in T) raw_step_error (assign_iterations assign spec steps frames ns last).
Proof.
  revert last. induction ns as [|n ns IH]; intros last Hall Hl; [by apply ensures_ret|].
  cbn [assign_iterations]. eapply ensures_bind; [apply assign_items_in; [apply Hall; left|done..]|].
  intros [o m] [Ho Hm]. apply (ensures_bind _ _ (λ _, True)).
  { apply ensures_modify; [|done]. intros c. by apply set_frame_in. }
  intros _ _. apply (ensures_bind _ _ (λ _, True)).
  { apply ensures_modify; [|done]. intros c. by apply add_bindings_in. }
  intros _ _. apply IH; [|done]. intros k Hk. apply Hall. by right.
Qed.

Lemma assign_leaf_in id prefix suffix m :
  T (prefix +:+ id +:+ suffix) → mapping_in T m →
  in_tables result_in raw_step_error (assign_leaf id prefix suffix m).
Proof.
  intros HT Hm. apply (ensures_bind _ _ (λ _, True)).
  - apply ensures_modify; [|done]. intros c. by apply add_leaf_in.
  - intros _ _. apply ensures_ret. split; cbn; [by intros ? [= <-]|by apply mapping_insert_in].
Qed.

Lemma set_terminal_opt_in id o :
  opt_in T o → in_tables (λ _, True) raw_step_error (set_terminal_opt id o).
Proof.
  intros Ho. destruct o as [l|]; [|by apply ensures_ret].
  apply ensures_modify; [|done]. intros c. apply set_terminal_in. by apply Ho.
Qed.

Lemma assign_item_in n : ∀ prefix suffix frames m,
  (∀ x, x ∈ all_nodes n → x ∈ all) → (∀ id, id ∈ item_ids n prefix suffix → T id) → mapping_in T m →
  in_tables result_in raw_step_error (assign_item n prefix suffix frames m).
Proof.
  induction n as [s inner IH|spec steps IH] using YamlNode_ind'; intros prefix suffix frames m Hns HT Hm.
  - cbn in HT |- *. case_decide; [|apply assign_leaf_in; [apply HT; left|done]].
    destruct (subsequence_steps s) as [parsed|e] eqn:Hs;
      [|apply ensures_raise; destruct (subsequence_steps_error s inner e) as (v & ? & ->); [done..|];
        exists (StepNode s inner), v; split_and!; [apply Hns; left|done..]].
    eapply (ensures_bind _ _ (opt_in T)).
    + destruct parsed; apply assign_scope_in; [|constructor].
      rewrite decide_True in HT by done. rewrite Forall_forall in IH |- *.
      intros child Hc m' Hm'. apply IH; [done| | |done].
      { intros x Hx. apply Hns. right. apply list_elem_of_bind. by exists child. }
      intros id Hid. apply HT. apply list_elem_of_bind. eauto.
    + intros o Ho. eapply ensures_bind; [by apply set_terminal_opt_in|].
      intros _ _. by apply ensures_ret.
  - cbn in HT |- *. case_match.
    + eapply (ensures_bind _ _ (opt_in T)).
      * apply assign_iterations_in; [|done]. intros i Hi. rewrite Forall_forall in IH |- *.
        intros child Hc m' Hm'. apply IH; [done| | |done].
        { intros x Hx. apply Hns. right. apply list_elem_of_bind. by exists child. }
        intros id Hid. apply HT.
        apply list_elem_of_bind. exists i. split; [|done]. apply list_elem_of_bind. eauto.
      * intros o Ho. eapply ensures_bind; [by apply set_terminal_opt_in|].
        intros _ _. by apply ensures_ret.
    + eapply ensures_bind; [apply assign_leaf_in; [apply HT; left|done]|].
      intros r Hr. apply (ensures_bind _ _ (λ _, True)); [|by intros; apply ensures_ret].
      apply ensures_modify; [|done]. intros c. by apply add_bindings_in.
Qed.

(** Whatever a name resolves to is in the tables; the only error is a target they do not know. *)
Lemma resolve_target_in c frames target :
  tables_in T c →
  match resolve_target c frames target with
  | Ok id => T id
  | Raise e => ¬ knows target c ∧ e = unknown_target target
  end.
Proof.
  intros [Hf Hl Ht]. unfold resolve_target.
  destruct (scope_lookup _ _ c) as [id|] eqn:E.
  - revert E. generalize (enclosing (length frames) frames). intros l.
    induction l as [|f l IH]; cbn; [done|].
    destruct (frame_children c !! f) as [m|] eqn:Em; cbn; [|done].
    destruct (m !! target) eqn:Ex; [|done]. intros [= <-]. by eapply Hf.
  - destruct (terminal c !! target) eqn:Et; [by eapply Ht|].
    destruct (last _) as [id|] eqn:El; [apply last_Some_elem_of in El|].
    2: { split; [|done]. apply last_None in El. intros [Hk|(l & Hk & Hne)]; [by rewrite Et in Hk; destruct Hk|].
         unfold get_default in El. by rewrite Hk in El. }
    unfold get_default in El. destruct (leaf_expansions c !! target) eqn:E'; cbn in El;
      [by eapply Hl|by apply elem_of_nil in El].
Qed.

Lemma resolve_all_in c frames targets :
  tables_in T c →
  match mapM (resolve_target c frames) targets with
  | Ok l => Forall T l
  | Raise e => ∃ target, target ∈ targets ∧ ¬ knows target c ∧ e = unknown_target target
  end.
Proof.
  intros Hc. destruct (mapM _ targets) as [l|e] eqn:E.
  - apply res_mapM_Ok in E. eapply Forall2_Forall_r; [done|]. apply Forall_forall.
    intros t _ id Hid. pose proof (resolve_target_in c frames t Hc) as Hr. by rewrite Hid in Hr.
  - apply res_mapM_Raise in E as (t & Ht & E). exists t. split; [done|].
    pose proof (resolve_target_in c frames t Hc) as Hr. by rewrite E in Hr.
Qed.
End tables.

(** ** What is emitted *)

(** The edges of a node lead to ids that satisfy [T]. *)
Definition node_in (T : string → Prop) (n : CompiledStep) : Prop :=
  Forall T (cs_depends_on n) ∧ Forall T (cs_then_ids n) ∧ Forall T (cs_else_ids n).

Section emit.
Context (T K : string → Prop) (all : list YamlNode) (c : Compiler).
Hypothesis (Hc : tables_in T c).
Hypothesis (HK : ∀ t, K t → knows t c).

(** A name that is looked up: one the plan mentions, or an id handed down by a container. *)
Definition asked (t : string) : Prop := T t ∨ ∃ n, n ∈ all ∧ mentions n t.
Definition refused : exc → Prop := emit_error T K all.

Definition emitted (ids : list string) (r : res (list CompiledStep)) : Prop :=
  match r with
  | Ok l => cs_id <$> l = ids ∧ Forall (node_in T) l
  | Raise e => refused e
  end.

Lemma emitted_nil : emitted [] (Ok []).
Proof. by split. Qed.

Lemma emitted_app ids ids' r r' :
  emitted ids r → emitted ids' r' →
  emitted (ids ++ ids') (nodes ← r; nodes' ← r'; Ok (nodes ++ nodes')).
Proof.
  destruct r as [l|]; [|done]. destruct r' as [l'|]; [|done]. intros [<- ?] [<- ?].
  split; [apply fmap_app|by apply Forall_app].
Qed.

Lemma emitted_one id r :
  match r with Ok n => cs_id n = id ∧ node_in T n | Raise e => refused e end →
  emitted [id] (node ← r; Ok [node]).
Proof.
  destruct r as [n|]; [|done]. intros [<- ?]. split; [done|by constructor].
Qed.

(** Resolving a list of names, as part of a larger computation. *)
Lemma resolve_then {A} (P : res A → Prop) frames targets (k : list string → res A) :
  Forall asked targets →
  (∀ l, Forall T l → P (k l)) → (∀ e, refused e → P (Raise e)) →
  P (l ← mapM (resolve_target c frames) targets; k l).
Proof.
  intros Ha Hk He. pose proof (resolve_all_in T c frames targets Hc) as H.
  destruct (mapM _ targets) as [l|e]; [by apply Hk|]. destruct H as (t & Ht & Hn & ->).
  apply He. right; left. exists t. rewrite Forall_forall in Ha. split_and!; [done|by intros ?%HK|by apply Ha].
Qed.

Lemma references_then {A} (P : res A → Prop) frames n references (k : list string → res A) :
  n ∈ all → (∀ v, references = Some v → branch_list n v) →
  (∀ l, Forall T l → P (k l)) → (∀ e, refused e → P (Raise e)) →
  P (l ← resolve_reference_list c frames references; k l).
Proof.
  intros Hn Hv Hk He. unfold resolve_reference_list.
  destruct references as [v|]; [change (default _ (Some v)) with v; specialize (Hv v eq_refl)|].
  2: { change (P (l ← mapM (resolve_target c frames) []; k l)). by apply (resolve_then P frames []). }
  destruct (py_iter v) as [l|e] eqn:E; cbn [mbind res_mbind res_bind].
  - apply (resolve_then P); [|done..]. apply Forall_forall. intros t Ht. right. exists n. split; [done|].
    right. exists v, l. split_and!; [done..|]. unfold strings_of in Ht.
    apply list_elem_of_bind in Ht as (w & Hw & Hin). destruct w; try by apply elem_of_nil in Hw.
    by apply list_elem_of_singleton in Hw as ->.
  - apply He. right; right.
    assert (∃ m, e = TypeError m) as (m & ->) by (unfold py_iter in E; repeat case_match; simplify_eq; by eexists).
    by exists n, v, m.
Qed.

(** The names looked up for a node: its own, or those inherited from its container. *)
Lemma asked_deps n deps inherited :
  n ∈ all → (∀ t, t ∈ deps → mentions n t) → Forall T inherited → Forall asked (or_list deps inherited).
Proof.
  intros Hn Hd Hi. unfold or_list. destruct deps as [|d deps].
  - eapply Forall_impl; [exact Hi|]. by left.
  - apply Forall_forall. intros t Ht. right. exists n. auto.
Qed.
Lemma asked_own n deps : n ∈ all → (∀ t, t ∈ deps → mentions n t) → Forall asked deps.
Proof. intros Hn Hd. apply Forall_forall. intros t Ht. right. exists n. auto. Qed.

Lemma emit_step_spec s inner prefix suffix frames inherited :
  StepNode s inner ∈ all → Forall T inherited →
  match emit_step c s prefix suffix frames inherited with
  | Ok n => cs_id n = prefix +:+ ys_id s +:+ suffix ∧ node_in T n
  | Raise e => refused e
  end.
Proof.
  intros Hs Hi. unfold emit_step.
  apply (resolve_then (λ r, match r with Ok n => _ | Raise e => refused e end));
    [apply (asked_deps (StepNode s inner)); [done|by left|done]| |done].
  intros deps Hd. cbn zeta. case_decide; [|by repeat split].
  apply (references_then (λ r, match r with Ok n => _ | Raise e => refused e end) _ (StepNode s inner));
    [done|by intros v Hv; split; [|left]| |done].
  intros l Hl.
  apply (references_then (λ r, match r with Ok n => _ | Raise e => refused e end) _ (StepNode s inner));
    [done|by intros v Hv; split; [|right]| |done].
  intros l' Hl'. by repeat split.
Qed.

Lemma emit_deferred_spec spec steps prefix suffix frames inherited :
  LoopNode spec steps ∈ all → Forall T inherited →
  match emit_deferred c spec prefix suffix frames inherited with
  | Ok n => cs_id n = prefix +:+ yl_id spec +:+ suffix ∧ node_in T n
  | Raise e => refused e
  end.
Proof.
  intros Hs Hi. unfold emit_deferred.
  apply (resolve_then (λ r, match r with Ok n => _ | Raise e => refused e end));
    [apply (asked_deps (LoopNode spec steps)); [done|by left|done]| |done].
  intros deps Hd. by repeat split.
Qed.

Lemma emit_items_spec emit ids items :
  Forall (λ item, emitted (ids item) (emit item)) items →
  emitted (items ≫= ids) (emit_items emit items).
Proof. induction 1; [apply emitted_nil|by apply emitted_app]. Qed.

Lemma emit_iterations_spec emit ids steps ns :
  (∀ n, Forall (λ item, emitted (ids n item) (emit n item)) steps) →
  emitted (n ← ns; steps ≫= ids n) (emit_iterations emit steps ns).
Proof.
  intros Hall. induction ns as [|n ns IH]; [apply emitted_nil|].
  apply emitted_app; [by apply emit_items_spec|done].
Qed.

Lemma emit_item_spec n : ∀ prefix suffix frames inherited,
  (∀ x, x ∈ all_nodes n → x ∈ all) → Forall T inherited →
  emitted (item_ids n prefix suffix) (emit_item c n prefix suffix frames inherited).
Proof.
  induction n as [s inner IH|spec steps IH] using YamlNode_ind'; intros prefix suffix frames inh Hall Hinh; cbn.
  - pose proof (Hall (StepNode s inner) ltac:(by left)) as Hs0. case_decide as Hty; [|by eapply emitted_one, emit_step_spec].
    apply (resolve_then (emitted _)); [by apply (asked_own (StepNode s inner)); [|left]| |done]. intros deps Hd.
    destruct (subsequence_steps s) as [[]|e] eqn:Hs.
    + rewrite decide_True by done. apply (emit_items_spec _ (λ child, item_ids child _ _)).
      rewrite Forall_forall in IH |- *. intros child Hch. apply IH; [done| |done].
      intros x Hx. apply Hall. right. apply list_elem_of_bind. by exists child.
    + apply emitted_nil.
    + left. destruct (subsequence_steps_error s inner e Hty Hs) as (v & ? & ->). by exists (StepNode s inner), v.
  - pose proof (Hall (LoopNode spec steps) ltac:(by left)) as Hs0. case_match; [|by eapply emitted_one, emit_deferred_spec].
    apply (resolve_then (emitted _)); [by apply (asked_own (LoopNode spec steps)); [|left]| |done]. intros deps Hd.
    apply (emit_iterations_spec _ (λ i child, item_ids child prefix (iter_suffix suffix i))).
    intros i. rewrite Forall_forall in IH |- *. intros child Hch. apply IH; [done| |done].
    intros x Hx. apply Hall. right. apply list_elem_of_bind. by exists child.
Qed.
End emit.

(** ** Every name is known after the first pass *)

Definition grows (c c' : Compiler) : Prop := ∀ t, knows t c → knows t c'.

#[local] Instance grows_preorder : PreOrder grows.
Proof. split; [by intros c t|]. intros c c' c'' H H' t ?. by apply H', H. Qed.

Lemma set_terminal_knows id last c : grows c (set_terminal id last c) ∧ knows id (set_terminal id last c).
Proof.
  split; [|left; cbn; rewrite dict_lookup_insert_eq; by eexists].
  intros t [Ht|Ht]; [left|by right]. cbn. rewrite dict_lookup_insert. by case_decide.
Qed.
Lemma add_leaf_knows id expanded c : grows c (add_leaf id expanded c) ∧ knows id (add_leaf id expanded c).
Proof.
  assert (knows id (add_leaf id expanded c)) as Hk.
  { right. cbn. rewrite dict_lookup_insert_eq. eexists. split; [done|]. by destruct (get_default _ _ _). }
  split; [|done]. intros t [Ht|(l & Ht & Hl)]; [by left|]. destruct (decide (id = t)) as [<-|]; [done|].
  right. exists l. cbn. by rewrite dict_lookup_insert_ne.
Qed.

(** Once an item is assigned, its names are known, and it returned its last step. *)
Definition named (n : YamlNode) (names : list string) (m : M Compiler (option string * Mapping)) : Prop :=
  ∀ c r c', m c = (Ok r, c') →
  grows c c' ∧ (∀ t, t ∈ names → knows t c') ∧ (gives_last n = true → is_Some r.1).

Lemma assign_items_named assign items m last c r c' :
  Forall (λ n, ∀ m, named n (names_of n) (assign n m)) items →
  assign_items assign items m last c = (Ok r, c') →
  grows c c' ∧ (∀ t, t ∈ items ≫= names_of → knows t c')
  ∧ (is_Some last ∨ existsb gives_last items = true → is_Some r.1).
Proof.
  intros Hall. revert m last c. induction Hall as [|n items Hn _ IH]; intros m last c H.
  { injection H as <- <-. split_and!; [done|by intros t ?%elem_of_nil|by intros [?|]]. }
  cbn in H. apply bind_inv_ok in H as (r1 & c1 & H1 & H).
  destruct (Hn _ _ _ _ H1) as (Hg & Hk & Hl). destruct (IH _ _ _ H) as (Hg' & Hk' & Hl').
  split_and!; [by etrans| |].
  - intros t [Ht|Ht]%elem_of_app; [by apply Hg', Hk|by apply Hk'].
  - cbn. rewrite orb_true_iff. intros Hx. apply Hl'. unfold or_last.
    destruct Hx as [?|[E|?]]; [left; by destruct r1.1|left|by right]. destruct (Hl E) as [? ->]. by eexists.
Qed.

Lemma assign_scope_named assign items frames c r c' :
  Forall (λ n, ∀ m, named n (names_of n) (assign n m)) items →
  assign_scope assign items frames c = (Ok r, c') →
  grows c c' ∧ (∀ t, t ∈ items ≫= names_of → knows t c') ∧ (existsb gives_last items = true → is_Some r).
Proof.
  intros Hall H. unfold assign_scope in H. apply bind_inv_ok in H as (r1 & c1 & H1 & H).
  injection H as <- <-. destruct (assign_items_named _ _ _ _ _ _ _ Hall H1) as (Hg & Hk & Hl). auto.
Qed.

Lemma assign_iterations_named assign spec steps frames ns last c r c' :
  (∀ i, Forall (λ n, ∀ m, named n (names_of n) (assign i n m)) steps) →
  assign_iterations assign spec steps frames ns last c = (Ok r, c') →
  grows c c' ∧ (ns ≠ [] → ∀ t, t ∈ steps ≫= names_of → knows t c')
  ∧ (is_Some last ∨ ns ≠ [] ∧ existsb gives_last steps = true → is_Some r).
Proof.
  intros Hall. revert last c. induction ns as [|i ns IH]; intros last c H.
  { injection H as <- <-. split_and!; [done|done|by intros [?|[? _]]]. }
  cbn [assign_iterations] in H. apply bind_inv_ok in H as (r1 & c1 & H1 & H).
  rewrite bind_unit, bind_unit in H by done. cbn [modify snd] in H.
  destruct (assign_items_named _ _ _ _ _ _ _ (Hall i) H1) as (Hg & Hk & Hl).
  destruct (IH _ _ H) as (Hg' & _ & Hl').
  assert (grows c1 c') as Hg1 by (intros t Ht; by apply Hg').
  split_and!; [by etrans|intros _ t Ht; by apply Hg1, Hk|]. intros Hx. apply Hl'. left. apply Hl. naive_solver.
Qed.

(** The name of a container, once its last step is recorded. *)
Lemma container_named id l o c u c' :
  (existsb gives_last l = true → is_Some o) → set_terminal_opt id o c = (Ok u, c') →
  grows c c' ∧ ∀ t, t ∈ container_name id l → knows t c'.
Proof.
  unfold container_name. intros Ho H. destruct o as [x|].
  - injection H as <- <-. destruct (set_terminal_knows id x c) as [Hg Hk]. split; [done|].
    intros t Ht. destruct (existsb _ _); [by apply list_elem_of_singleton in Ht as ->|by apply elem_of_nil in Ht].
  - injection H as <- <-. split; [done|]. destruct (existsb _ _); [by destruct (Ho eq_refl)|].
    by intros t ?%elem_of_nil.
Qed.

Lemma assign_leaf_named id prefix suffix m c r c' :
  assign_leaf id prefix suffix m c = (Ok r, c') →
  grows c c' ∧ (∀ t, t ∈ [id] → knows t c') ∧ (true = true → is_Some r.1).
Proof.
  intros [= <- <-]. destruct (add_leaf_knows id (prefix +:+ id +:+ suffix) c) as [Hg Hk].
  split_and!; [done|by intros t ->%list_elem_of_singleton|intros _; by eexists].
Qed.

Lemma assign_item_named n : ∀ prefix suffix frames m,
  named n (names_of n) (assign_item n prefix suffix frames m).
Proof.
  induction n as [s inner IH|spec steps IH] using YamlNode_ind'; intros prefix suffix frames m c r c' H;
    cbn [assign_item] in H; cbn [names_of gives_last].
  - destruct (decide (ys_type s = Some SUBSEQUENCE)) as [Hs|Hs]; [|exact (assign_leaf_named _ _ _ _ _ _ _ H)].
    destruct (subsequence_steps s) as [parsed|e] eqn:E; [|done].
    apply bind_inv_ok in H as (o & c1 & H1 & H). apply bind_inv_ok in H as (u & c2 & H2 & [= <- <-]).
    destruct parsed.
    + rewrite decide_True, bool_decide_eq_true_2 by done.
      destruct (assign_scope_named _ _ _ _ _ _ ltac:(eapply Forall_impl; [exact IH|]; by intros x Hx m'; apply Hx) H1)
        as (Hg & Hk & Hl).
      destruct (container_named _ _ _ _ _ _ Hl H2) as [Hg' Hk']. split_and!; [by etrans| |done].
      intros t [Ht|Ht]%elem_of_app; [by apply Hk'|by apply Hg', Hk].
    + rewrite decide_False, bool_decide_eq_false_2 by (by intros [=]). injection H1 as <- <-. injection H2 as <- <-.
      split_and!; [by intros t|by intros t ?%elem_of_nil|done].
  - destruct (expands spec).
    + apply bind_inv_ok in H as (o & c1 & H1 & H). apply bind_inv_ok in H as (u & c2 & H2 & [= <- <-]).
      destruct (assign_iterations_named _ _ _ _ _ _ _ _ _
        ltac:(intros i; eapply Forall_impl; [exact IH|]; by intros x Hx m'; apply Hx) H1) as (Hg & Hk & Hl).
      case_decide as Hi.
      * rewrite Hi in H1. injection H1 as <- <-. injection H2 as <- <-. split_and!; [done|by intros t ?%elem_of_nil|done].
      * destruct (container_named _ steps _ _ _ _ ltac:(intros E; apply Hl; by right) H2) as [Hg' Hk'].
        split_and!; [by etrans| |done]. intros t [Ht|Ht]%elem_of_app; [by apply Hk'|by apply Hg', Hk].
    + apply bind_inv_ok in H as (r1 & c1 & H1 & H). rewrite bind_unit in H by done. injection H as <- <-.
      exact (assign_leaf_named _ _ _ _ _ _ _ H1).
Qed.

(** The tables of a plan hold ids of the plan only, and know its names. *)
Lemma assign_plan_in plan :
  ensures (tables_in (.∈ plan_ids plan)) (opt_in (.∈ plan_ids plan)) (raw_error (plan_nodes plan))
    (assign_scope (λ item, assign_item item "" "" []) (yp_steps plan) []).
Proof.
  apply assign_scope_in. apply Forall_forall. intros item Hi m Hm. apply assign_item_in; [| |done].
  - intros x Hx. apply list_elem_of_bind. eauto.
  - intros id Hid. apply list_elem_of_bind. eauto.
Qed.
Lemma assign_plan_knows plan c o c' :
  assign_scope (λ item, assign_item item "" "" []) (yp_steps plan) [] c = (Ok o, c') →
  ∀ t, t ∈ plan_names plan → knows t c'.
Proof.
  intros H. refine (proj1 (proj2 (assign_scope_named _ _ _ _ _ _ _ H))).
  apply Forall_forall. intros n _ m. apply assign_item_named.
Qed.

(** Why a plan is refused before its graph is looked at. *)
Definition plan_error (plan : YamlPlan) : exc → Prop :=
  emit_error (.∈ plan_ids plan) (.∈ plan_names plan) (plan_nodes plan).

Lemma expand_spec plan c :
  emitted (.∈ plan_ids plan) (.∈ plan_names plan) (plan_nodes plan) (plan_ids plan) (expand plan c).1.
Proof.
  unfold expand. rewrite bind_unit by done. cbn [modify snd].
  destruct (assign_plan_in plan new_compiler) as [Ht Herr]; [apply new_compiler_in|].
  pose proof (assign_plan_knows plan new_compiler) as Hk.
  unfold bind. destruct (assign_scope _ _ _ _) as [[o|e] c1]; cbn [fst snd get] in *; [|by left].
  enough (emitted (.∈ plan_ids plan) (.∈ plan_names plan) (plan_nodes plan) (plan_ids plan)
    (emit_items (λ item, emit_item c1 item "" "" [] []) (yp_steps plan))) as H by by destruct (emit_items _ _).
  apply (emit_items_spec _ _ _ _ (λ item, item_ids item "" "")). apply Forall_forall. intros item Hi.
  apply emit_item_spec; [done|by apply (Hk o)| |done]. intros x Hx. apply list_elem_of_bind. eauto.
Qed.


(** ** The number of nodes *)

Fixpoint node_count (n : YamlNode) : nat :=
  match n with
  | LoopNode spec steps =>
      if expands spec then Z.to_nat (default 0%Z (yl_count spec)) * sum_list (node_count <$> steps)
      else 1
  | StepNode s inner =>
      if decide (ys_type s = Some SUBSEQUENCE) then
        if decide (subsequence_steps s = Ok true) then sum_list (node_count <$> inner) else 0
      else 1
  end.

Lemma length_bind {A B} (f : A → list B) l : length (l ≫= f) = sum_list ((λ x, length (f x)) <$> l).
Proof. induction l; [done|]. csimpl. rewrite length_app. lia. Qed.

Lemma sum_list_const {A} k (l : list A) : sum_list ((λ _, k) <$> l) = length l * k.
Proof. induction l; [done|]. csimpl. lia. Qed.

Lemma length_item_ids n : ∀ prefix suffix, length (item_ids n prefix suffix) = node_count n.
Proof.
  induction n as [s inner IH|spec steps IH] using YamlNode_ind'; intros prefix suffix; cbn.
  - case_decide; [|done]. case_decide; [|done]. rewrite length_bind. f_equal.
    apply list_fmap_ext. intros i x Hx. eapply Forall_lookup_1 in IH; [apply IH|exact Hx].
  - case_match; [|done]. rewrite length_bind.
    rewrite (list_fmap_ext _ (λ _, sum_list (node_count <$> steps))).
    + rewrite sum_list_const. unfold iterations. by rewrite length_fmap, length_seq.
    + intros _ i _. rewrite length_bind. f_equal. apply list_fmap_ext. intros j x Hx.
      eapply Forall_lookup_1 in IH; [apply IH|exact Hx].
Qed.

(** The size of a compiled plan: a leaf or a deferred loop counts once, a subsequence
    counts as its steps, and a FOR loop multiplies the count of its body by its number of
    iterations. *)
Theorem compile_size (plan : YamlPlan) (c c' : Compiler) (nodes : list CompiledStep)
  (H : compile plan c = (Ok nodes, c')) :
  length nodes = sum_list (node_count <$> yp_steps plan).
Proof.
  pose proof (expand_spec plan c) as He. unfold compile, bind in H.
  destruct (expand plan c) as [[nodes'|e] c1]; [|done].
  destruct (check_cycles nodes') as [[]|]; [|done]. injection H as -> _.
  destruct He as [Hids _]. rewrite <- (length_fmap cs_id), Hids. unfold plan_ids.
  rewrite length_bind. f_equal. apply list_fmap_ext. intros i x _. apply length_item_ids.
Qed.

Definition plan_of (steps : list YamlNode) : YamlPlan := mkPlanDsl "p" "1" ∅ 1 1 None steps.
Definition leaf (id : string) (deps : list string) : YamlNode :=
  StepNode (mkStep id None "" ∅ [] deps ∅ 60 0 None None None None None None false None None None) [].
Definition for_loop (id : string) (n : Z) (deps : list string) (steps : list YamlNode) : YamlNode :=
  LoopNode (mkLoop id FOR (Some n) None None None SERIAL 1000 None None deps) steps.
Definition subsequence (id : string) (deps : list string) (steps : list YamlNode) : YamlNode :=
  StepNode (mkStep id (Some SUBSEQUENCE) "" ∅ [] deps ∅ 60 0 None None None None None None false
              None None None) steps.

(** A step, a loop of two iterations gated by it with a nested subsequence, and a step after. *)
Definition example_plan : YamlPlan :=
  plan_of [leaf "a" [];
           for_loop "L" 2 ["a"] [leaf "x" []; leaf "y" ["x"]; subsequence "S" [] [leaf "z" ["y"]]];
           leaf "b" ["y"]].

Definition edges_of (r : res (list CompiledStep)) : res (list (string * list string)) :=
  match r with
  | Ok l => Ok ((λ n, (cs_id n, cs_depends_on n)) <$> l)
  | Raise e => Raise e
  end.

Example compile_example :
  edges_of (compile example_plan new_compiler).1 =
  Ok [("a", []); ("x_iter0", ["a"]); ("y_iter0", ["x_iter0"]); ("S.z_iter0", ["y_iter0"]);
      ("x_iter1", ["a"]); ("y_iter1", ["x_iter1"]); ("S.z_iter1", ["y_iter1"]);
      ("b", ["y_iter1"])].
Proof. vm_compute. reflexivity. Qed.

(** The two refusals the code does not document: a subsequence with raw steps, a branch whose
    "then" is a number. *)
Example undocumented_errors :
  (compile (plan_of [StepNode (mkStep "S" (Some SUBSEQUENCE) ""
     (PyDict [("steps", PyList [PyMap [(PyStr "id", PyStr "x")]])]) [] [] ∅ 60 0 None None None None None None
     false None None None) []]) new_compiler).1
   = Raise (CustomError "AttributeError" "'dict' object has no attribute 'type'")
  ∧ (compile (plan_of [StepNode (mkStep "B" (Some BRANCH) "" (PyDict [("then", PyInt 3)]) [] [] ∅ 60 0 None None
       None None None None false None None None) []]) new_compiler).1
   = Raise (TypeError "'int' object is not iterable").
Proof. vm_compute. split; reflexivity. Qed.

Lemma compile_size_witness :
  ∃ nodes c', compile example_plan new_compiler = (Ok nodes, c') ∧ length nodes = 8.
Proof.
  eexists _, _. split; [vm_compute; reflexivity|].
  refine (compile_size example_plan new_compiler _ _ _). vm_compute. reflexivity.
Defined.
