(* ===== verification/CompilerScopes.v ===== *)
(** * Names in a compiled plan

    A dependency between two steps of one scope (a loop iteration, a subsequence, the plan
    itself) stays in that scope: in iteration [n] of a loop it leads to the copy of its
    target in iteration [n]. [scopes] lists the scopes of a plan, and the theorem holds for
    each, at any depth. The last part is about dependencies between containers, where the
    compiler does not do what its documentation says. *)

From S2P Require Import Prelude PyDict PyStr Types VariableSpace Dsl CompiledPlan Compiler.

Definition node_id (n : YamlNode) : string :=
  match n with StepNode s _ => ys_id s | LoopNode spec _ => yl_id spec end.

(** An item that gets scopes of its own rather than an id in its parent's. *)
Definition is_container (n : YamlNode) : bool :=
  match n with
  | StepNode s _ => bool_decide (ys_type s = Some SUBSEQUENCE)
  | LoopNode spec _ => expands spec
  end.

Definition container_ids (l : list YamlNode) : list string := node_id <$> base.filter is_container l.
Definition leaf_ids (l : list YamlNode) : list string :=
  node_id <$> base.filter (λ n, negb (is_container n)) l.

(** In every scope the containers have distinct names. *)
Definition distinct_containers (l : list YamlNode) : bool := bool_decide (NoDup (container_ids l)).
Fixpoint well_scoped (n : YamlNode) : bool :=
  match n with
  | StepNode _ inner => distinct_containers inner && forallb well_scoped inner
  | LoopNode _ steps => distinct_containers steps && forallb well_scoped steps
  end.

Record Scope : Type := mkScope {
  sc_frames : Frames;
  sc_prefix : string;
  sc_suffix : string;
  sc_items : list YamlNode
}.

(** The expanded id of [x] in a scope. *)
Definition id_in (sc : Scope) (x : string) : string := sc_prefix sc +:+ x +:+ sc_suffix sc.

(** The scopes inside a node, itself included. *)
Fixpoint scopes (n : YamlNode) (prefix suffix : string) (frames : Frames) : list Scope :=
  match n with
  | LoopNode spec steps =>
      if expands spec then
        i ← iterations spec;
        let frames' := frames ++ [(yl_id spec, Some i)] in
        let suffix' := iter_suffix suffix i in
        mkScope frames' prefix suffix' steps
          :: (child ← steps; scopes child prefix suffix' frames')
      else []
  | StepNode s inner =>
      if decide (ys_type s = Some SUBSEQUENCE) then
        if decide (subsequence_steps s = Ok true) then
          let frames' := frames ++ [(ys_id s, None)] in
          let prefix' := prefix +:+ ys_id s +:+ "." in
          mkScope frames' prefix' suffix inner
            :: (child ← inner; scopes child prefix' suffix frames')
        else []
      else []
  end.

Definition plan_scopes (plan : YamlPlan) : list Scope :=
  mkScope [] "" "" (yp_steps plan) :: (child ← yp_steps plan; scopes child "" "" []).

(** The tables know the scope: its leaves stand for their copies in it. *)
Definition scope_known (c : Compiler) (sc : Scope) : Prop :=
  ∃ m, frame_children c !! sc_frames sc = Some m ∧
    ∀ x, x ∈ leaf_ids (sc_items sc) → m !! x = Some (id_in sc x).

Definition any_error (e : exc) : Prop := True.

(** ** What a node does to the tables of other scopes *)

Section untouched.
Context (f : Frames) (v : option (pydict string string)).

Definition frame_is (c : Compiler) : Prop := frame_children c !! f = v.

Abbreviation keeps_frame := (ensures frame_is (λ _, True) any_error).

Lemma keeps_modify g :
  (∀ c, frame_children (g c) = frame_children c) → keeps_frame (modify g).
Proof. intros Hg. apply ensures_modify; [|done]. intros c. unfold frame_is. by rewrite Hg. Qed.

Lemma keeps_set_frame f' m : f ≠ f' → keeps_frame (modify (set_frame f' m)).
Proof.
  intros Hne. apply ensures_modify; [|done]. intros c. unfold frame_is. cbn.
  by rewrite dict_lookup_insert_ne.
Qed.

Lemma keeps_set_terminal id o : keeps_frame (set_terminal_opt id o).
Proof. destruct o; [by apply keeps_modify|by apply ensures_ret]. Qed.

Lemma keeps_items assign items m last :
  Forall (λ item, ∀ m, keeps_frame (assign item m)) items →
  keeps_frame (assign_items assign items m last).
Proof.
  intros Hall. revert m last. induction Hall as [|item items Hi _ IH]; intros m last.
  - by apply ensures_ret.
  - cbn. eapply ensures_bind; [apply Hi|]. intros. apply IH.
Qed.

Lemma keeps_iterations assign spec steps frames ns last :
  (∀ n, n ∈ ns → f ≠ frames ++ [(yl_id spec, Some n)]) →
  (∀ n, n ∈ ns → Forall (λ item, ∀ m, keeps_frame (assign n item m)) steps) →
  keeps_frame (assign_iterations assign spec steps frames ns last).
Proof.
  revert last. induction ns as [|n ns IH]; intros last Hne Hall; [by apply ensures_ret|].
  cbn [assign_iterations]. eapply ensures_bind; [apply keeps_items, Hall; left|].
  intros r _. eapply ensures_bind; [apply keeps_set_frame, Hne; left|].
  intros _ _. eapply ensures_bind; [by apply keeps_modify|].
  intros _ _. apply IH; intros; [apply Hne|apply Hall]; by right.
Qed.

Lemma keeps_leaf id prefix suffix m : keeps_frame (assign_leaf id prefix suffix m).
Proof. eapply ensures_bind; [by apply keeps_modify|]. intros. by apply ensures_ret. Qed.

Lemma keeps_item n : ∀ prefix suffix frames m,
  (is_container n = true → ∀ o, ¬ (frames ++ [(node_id n, o)]) `prefix_of` f) →
  keeps_frame (assign_item n prefix suffix frames m).
Proof.
  induction n as [s inner IH|spec steps IH] using YamlNode_ind'; intros prefix suffix frames m Hn; cbn.
  - case_decide as Hs; [|apply keeps_leaf].
    specialize (Hn (bool_decide_eq_true_2 _ Hs) None). cbn in Hn.
    assert (f ≠ frames ++ [(ys_id s, None)]) as Hne by (intros ->; by apply Hn).
    destruct (subsequence_steps s) as [b|e]; [|by apply ensures_raise].
    eapply (ensures_bind _ _ (λ _, True)).
    + assert (∀ items, Forall (λ n, ∀ prefix suffix frames m,
        (is_container n = true → ∀ o, ¬ (frames ++ [(node_id n, o)]) `prefix_of` f) →
        keeps_frame (assign_item n prefix suffix frames m)) items →
        keeps_frame (assign_scope (λ child, assign_item child (prefix +:+ ys_id s +:+ ".") suffix
          (frames ++ [(ys_id s, None)])) items (frames ++ [(ys_id s, None)]))) as H.
      { intros items Hi. eapply ensures_bind.
        - apply keeps_items. eapply Forall_impl; [exact Hi|]. cbn. intros x Hx m'. apply Hx.
          intros _ o Hp. apply Hn. by eapply prefix_app_l.
        - intros r _. eapply ensures_bind; [by apply keeps_set_frame|].
          intros. by apply ensures_ret. }
      destruct b; apply H; [done|constructor].
    + intros o _. eapply ensures_bind; [apply keeps_set_terminal|].
      intros. by apply ensures_ret.
  - case_match eqn:He.
    + assert (∀ i, ¬ (frames ++ [(yl_id spec, Some i)]) `prefix_of` f) as Hn' by (intros i; by apply Hn).
      eapply (ensures_bind _ _ (λ _, True)).
      * apply keeps_iterations; [intros n _ ->; by apply (Hn' n)|]. intros n _.
        eapply Forall_impl; [exact IH|]. cbn. intros x Hx m'. apply Hx.
        intros _ o Hp. apply (Hn' n). by eapply prefix_app_l.
      * intros o _. eapply ensures_bind; [apply keeps_set_terminal|].
        intros. by apply ensures_ret.
    + eapply ensures_bind; [apply keeps_leaf|]. intros.
      eapply ensures_bind; [by apply keeps_modify|]. intros. by apply ensures_ret.
Qed.
End untouched.

(** ** Every scope ends up known *)

Lemma prefix_snoc_inj {A} (l k : list A) a b : l ++ [a] `prefix_of` k → l ++ [b] `prefix_of` k → a = b.
Proof.
  intros [k1 ->] [k2 E]. rewrite <- !(assoc (++)) in E. apply app_inv_head in E. by simplify_eq/=.
Qed.

Lemma nested_frames (items : list YamlNode) frames sc (g : YamlNode → list Scope) :
  Forall (λ n, ∀ sc, sc ∈ g n → is_container n = true ∧
    ∃ o, frames ++ [(node_id n, o)] `prefix_of` sc_frames sc) items →
  sc ∈ items ≫= g → frames `prefix_of` sc_frames sc.
Proof.
  intros Hall (n & Hsc & Hn)%list_elem_of_bind.
  rewrite Forall_forall in Hall. destruct (Hall n Hn sc Hsc) as (_ & o & Hp).
  by eapply prefix_app_l.
Qed.

Lemma scopes_frames n : ∀ prefix suffix frames sc,
  sc ∈ scopes n prefix suffix frames →
  is_container n = true ∧ ∃ o, frames ++ [(node_id n, o)] `prefix_of` sc_frames sc.
Proof.
  induction n as [s inner IH|spec steps IH] using YamlNode_ind'; intros prefix suffix frames sc Hsc; cbn in Hsc |- *.
  - case_decide as Hs; [|by apply elem_of_nil in Hsc].
    split; [by apply bool_decide_eq_true|]. exists None.
    case_decide; [|by apply elem_of_nil in Hsc].
    apply elem_of_cons in Hsc as [->|Hsc]; [done|]. eapply nested_frames; [|exact Hsc].
    eapply Forall_impl; [exact IH|]. cbn. eauto.
  - destruct (expands spec); [|by apply elem_of_nil in Hsc]. split; [done|].
    apply list_elem_of_bind in Hsc as (i & Hsc & Hi). exists (Some i).
    apply elem_of_cons in Hsc as [->|Hsc]; [done|]. eapply nested_frames; [|exact Hsc].
    eapply Forall_impl; [exact IH|]. cbn. eauto.
Qed.

Lemma scope_known_kept c c' sc :
  frame_children c' !! sc_frames sc = frame_children c !! sc_frames sc →
  scope_known c sc → scope_known c' sc.
Proof. intros E (m & Hm & Hx). exists m. by rewrite E. Qed.

(** Assigning one node, in a scope with mapping [m]. *)
Definition node_result (n : YamlNode) (prefix suffix : string) (m m' : Mapping) : Prop :=
  m' = if is_container n then m else <[node_id n := prefix +:+ node_id n +:+ suffix]> m.

Definition assigns (n : YamlNode) : Prop := ∀ prefix suffix frames m c r c',
  assign_item n prefix suffix frames m c = (Ok r, c') →
  node_result n prefix suffix m r.2 ∧
  ∀ sc, sc ∈ scopes n prefix suffix frames → scope_known c' sc.

Lemma ensures_ok {S A} I Q R (m : M S A) s a s' : ensures I Q R m → I s → m s = (Ok a, s') → I s' ∧ Q a.
Proof. intros H Hs E. specialize (H s Hs). by rewrite E in H. Qed.

Lemma assign_items_known items prefix suffix frames :
  NoDup (container_ids items) → Forall assigns items →
  ∀ m last c r c',
  assign_items (λ child, assign_item child prefix suffix frames) items m last c = (Ok r, c') →
  (∀ x, x ∈ leaf_ids items ∨ m !! x = Some (prefix +:+ x +:+ suffix) →
    r.2 !! x = Some (prefix +:+ x +:+ suffix)) ∧
  ∀ sc, sc ∈ (child ← items; scopes child prefix suffix frames) → scope_known c' sc.
Proof.
  intros Hnd Hall. induction Hall as [|n items Hn Hall IH]; intros m last c r c' H.
  { injection H as <- <-. split; [|by intros ? ?%elem_of_nil].
    intros x [Hx|Hx]; [by apply elem_of_nil in Hx|done]. }
  cbn in H. apply bind_inv_ok in H as (r1 & c1 & H1 & H).
  destruct (Hn _ _ _ _ _ _ _ H1) as [Hm Hsc].
  unfold container_ids in Hnd. rewrite filter_cons in Hnd.
  assert (NoDup (container_ids items)) as Hnd'.
  { unfold container_ids. case_decide; [|done]. cbn in Hnd. by apply NoDup_cons in Hnd as [_ ?]. }
  destruct (IH Hnd' _ _ _ _ _ H) as [Hm' Hsc']. split.
  - intros x Hx. apply Hm'. rewrite Hm. unfold leaf_ids in Hx. rewrite filter_cons in Hx.
    destruct (is_container n); [by rewrite decide_False in Hx by (intros [])|].
    rewrite decide_True in Hx by done.
    rewrite fmap_cons, elem_of_cons in Hx. rewrite dict_lookup_insert.
    destruct (decide (node_id n = x)) as [<-|Hne]; [by right|].
    destruct Hx as [[?|?]|?]; [congruence|by left|by right].
  - intros sc Hin. cbn in Hin. apply elem_of_app in Hin as [Hin|Hin]; [|by apply Hsc'].
    eapply scope_known_kept; [|by apply Hsc].
    destruct (scopes_frames _ _ _ _ _ Hin) as (Hc & o & Hp).
    rewrite decide_True in Hnd by by apply Is_true_true. cbn in Hnd.
    apply NoDup_cons in Hnd as [Hnot _].
    refine (proj1 (ensures_ok (frame_is (sc_frames sc) (frame_children c1 !! sc_frames sc))
      _ _ _ _ _ _ _ _ H)); [|done].
    apply keeps_items. apply Forall_forall. intros n' Hn' m'. apply keeps_item.
    intros Hc' o' Hp'. pose proof (prefix_snoc_inj _ _ _ _ Hp Hp') as E. injection E as E _.
    apply Hnot. rewrite E. apply list_elem_of_fmap_2, list_elem_of_filter.
    split; [by apply Is_true_true|done].
Qed.

Lemma assign_leaf_result n prefix suffix m c r c' :
  assign_leaf (node_id n) prefix suffix m c = (Ok r, c') → is_container n = false →
  node_result n prefix suffix m r.2.
Proof. intros [= <- <-] Hc. unfold node_result. by rewrite Hc. Qed.

(** The iterations of a loop: each has its scope, whatever the others do. *)
Lemma assign_iterations_known spec steps prefix suffix frames :
  NoDup (container_ids steps) → Forall assigns steps →
  ∀ ns, NoDup ns → ∀ last c r c',
  assign_iterations (λ n child, assign_item child prefix (iter_suffix suffix n)
    (frames ++ [(yl_id spec, Some n)])) spec steps frames ns last c = (Ok r, c') →
  ∀ sc i, i ∈ ns →
  sc ∈ (mkScope (frames ++ [(yl_id spec, Some i)]) prefix (iter_suffix suffix i) steps
    :: (child ← steps; scopes child prefix (iter_suffix suffix i) (frames ++ [(yl_id spec, Some i)]))) →
  scope_known c' sc.
Proof.
  intros Hnd Hall ns Hns. induction Hns as [|n ns Hn Hns IH]; intros last c r c' H sc i Hi Hsc.
  { by apply elem_of_nil in Hi. }
  cbn [assign_iterations] in H. apply bind_inv_ok in H as (r1 & c1 & H1 & H).
  rewrite bind_unit, bind_unit in H by done. cbn [modify snd] in H.
  apply elem_of_cons in Hi as [->|Hi]; [|by eapply IH].
  destruct (assign_items_known _ _ _ _ Hnd Hall _ _ _ _ _ H1) as [Hm Hsc1].
  set (c2 := add_bindings _ _) in H.
  assert (frames ++ [(yl_id spec, Some n)] `prefix_of` sc_frames sc ∧ scope_known c2 sc) as [Hp Hk].
  { apply elem_of_cons in Hsc as [->|Hsc].
    - split; [done|]. exists r1.2. split; [cbn; by rewrite dict_lookup_insert_eq|].
      intros x Hx. apply Hm. by left.
    - specialize (Hsc1 _ Hsc). apply list_elem_of_bind in Hsc as (child & Hsc & Hc).
      apply scopes_frames in Hsc as (_ & o & Hp). split; [by eapply prefix_app_l|].
      eapply scope_known_kept; [|exact Hsc1]. cbn. rewrite dict_lookup_insert_ne; [done|].
      intros E. rewrite <- E in Hp. apply prefix_length in Hp. rewrite !length_app in Hp. cbn in Hp. lia. }
  eapply scope_known_kept; [|exact Hk].
  assert (∀ k o, k ∈ ns → ¬ (frames ++ [(yl_id spec, Some k)]) ++ o `prefix_of` sc_frames sc) as Hother.
  { intros k o Hkn Hp'. apply prefix_app_l in Hp'.
    pose proof (prefix_snoc_inj _ _ _ _ Hp Hp') as E. injection E as ->. done. }
  refine (proj1 (ensures_ok (frame_is (sc_frames sc) (frame_children c2 !! sc_frames sc))
    _ _ _ _ _ _ _ _ H)); [|done].
  apply keeps_iterations.
  - intros k Hk' E. apply (Hother k [] Hk'). by rewrite E, app_nil_r.
  - intros k Hk'. apply Forall_forall. intros n' _ m'. apply keeps_item.
    intros _ o Hp'. by eapply Hother.
Qed.

Lemma set_terminal_opt_frames id o c : frame_children (set_terminal_opt id o c).2 = frame_children c.
Proof. by destruct o. Qed.

Lemma well_scoped_inv (l : list YamlNode) :
  distinct_containers l && forallb well_scoped l = true →
  NoDup (container_ids l) ∧ Forall (λ n, well_scoped n = true) l.
Proof.
  intros [Hd Hf]%andb_true_iff. split; [by apply bool_decide_eq_true in Hd|].
  rewrite forallb_forall in Hf. apply Forall_forall. intros x Hx. by apply Hf, list_elem_of_In.
Qed.

Lemma Forall_mp {A} (P Q : A → Prop) l : Forall (λ x, P x → Q x) l → Forall P l → Forall Q l.
Proof. induction 1; intros H'; [constructor|]. apply Forall_cons in H' as [??]. constructor; auto. Qed.

Lemma assign_scope_known items prefix suffix frames c o c' :
  NoDup (container_ids items) → Forall assigns items →
  assign_scope (λ child, assign_item child prefix suffix frames) items frames c = (Ok o, c') →
  ∀ sc, sc ∈ mkScope frames prefix suffix items :: (child ← items; scopes child prefix suffix frames) →
  scope_known c' sc.
Proof.
  intros Hnd Hall H sc Hsc. unfold assign_scope in H.
  apply bind_inv_ok in H as (r1 & c1 & H1 & H).
  rewrite bind_unit in H by done. injection H as <- <-. cbn [modify snd].
  destruct (assign_items_known _ _ _ _ Hnd Hall _ _ _ _ _ H1) as [Hm Hk].
  apply elem_of_cons in Hsc as [->|Hsc].
  - exists r1.2. split; [cbn; by rewrite dict_lookup_insert_eq|]. intros x Hx. apply Hm. by left.
  - eapply scope_known_kept; [|by apply Hk].
    apply list_elem_of_bind in Hsc as (child & Hsc & _). cbn.
    apply scopes_frames in Hsc as (_ & o & Hp). rewrite dict_lookup_insert_ne; [done|].
    intros E. rewrite <- E in Hp. apply prefix_length in Hp. rewrite length_app in Hp. cbn in Hp. lia.
Qed.

Lemma NoDup_iterations spec : NoDup (iterations spec).
Proof. apply NoDup_fmap; [apply _|]. apply NoDup_seq. Qed.

Lemma assign_item_known n : well_scoped n = true → assigns n.
Proof.
  induction n as [s inner IH|spec steps IH] using YamlNode_ind'; intros Hw;
    apply well_scoped_inv in Hw as [Hnd Hw]; apply (Forall_mp _ _ _ IH) in Hw;
    intros prefix suffix frames m c r c' H; unfold node_result; cbn in H |- *.
  - case_decide as Hs; cycle 1.
    { split; [|by intros ? ?%elem_of_nil]. rewrite bool_decide_eq_false_2 by done.
      by injection H as <- <-. }
    rewrite bool_decide_eq_true_2 by done.
    destruct (subsequence_steps s) as [b|e] eqn:Hb; [|done].
    apply bind_inv_ok in H as (o & c1 & H1 & H).
    rewrite bind_unit in H by by destruct o. injection H as <- <-. split; [done|].
    intros sc Hsc. case_decide as Hd; [|by apply elem_of_nil in Hsc]. injection Hd as ->.
    eapply scope_known_kept; [by rewrite set_terminal_opt_frames|].
    eapply assign_scope_known; [done|done|exact H1|exact Hsc].
  - destruct (expands spec); cycle 1.
    { split; [|by intros ? ?%elem_of_nil]. by injection H as <- <-. }
    apply bind_inv_ok in H as (o & c1 & H1 & H).
    rewrite bind_unit in H by by destruct o. injection H as <- <-. split; [done|].
    intros sc Hsc. apply list_elem_of_bind in Hsc as (i & Hsc & Hi).
    eapply scope_known_kept; [by rewrite set_terminal_opt_frames|].
    eapply assign_iterations_known; [done|done|apply NoDup_iterations|exact H1|exact Hi|exact Hsc].
Qed.

(** ** The nodes of a scope *)

Definition emitted_from (c : Compiler) (sc : Scope) (nodes : list CompiledStep) : Prop :=
  ∀ s inner, StepNode s inner ∈ sc_items sc → ys_type s ≠ Some SUBSEQUENCE →
  ∃ inherited node, node ∈ nodes ∧
    emit_step c s (sc_prefix sc) (sc_suffix sc) (sc_frames sc) inherited = Ok node.

Definition emits (c : Compiler) (n : YamlNode) : Prop := ∀ prefix suffix frames inherited nodes,
  emit_item c n prefix suffix frames inherited = Ok nodes →
  ∀ sc, sc ∈ scopes n prefix suffix frames → emitted_from c sc nodes.

Lemma emitted_from_sub c sc nodes nodes' :
  (∀ n, n ∈ nodes → n ∈ nodes') → emitted_from c sc nodes → emitted_from c sc nodes'.
Proof. intros Hsub H s inner Hs Ht. destruct (H s inner Hs Ht) as (inh & n & ? & ?). eauto. Qed.

Lemma emit_items_from c items prefix suffix frames inherited nodes :
  Forall (emits c) items →
  emit_items (λ child, emit_item c child prefix suffix frames inherited) items = Ok nodes →
  ∀ sc, sc ∈ mkScope frames prefix suffix items :: (child ← items; scopes child prefix suffix frames) →
  emitted_from c sc nodes.
Proof.
  intros Hall H sc Hsc. 
  assert (∀ item, item ∈ items → ∃ k, emit_item c item prefix suffix frames inherited = Ok k ∧
    ∀ n, n ∈ k → n ∈ nodes) as Hitem.
  { clear Hall Hsc. revert nodes H. induction items as [|x items IH]; intros nodes H item Hi;
      [by apply elem_of_nil in Hi|]. cbn in H.
    apply res_bind_Ok in H as (k & Hk & H). apply res_bind_Ok in H as (k' & Hk' & [= <-]).
    apply elem_of_cons in Hi as [->|Hi].
    - exists k. split; [done|]. intros. apply elem_of_app. by left.
    - destruct (IH _ Hk' _ Hi) as (k0 & ? & ?). exists k0. split; [done|].
      intros. apply elem_of_app. right. auto. }
  apply elem_of_cons in Hsc as [->|Hsc].
  - intros s inner Hs Ht. destruct (Hitem _ Hs) as (k & Hk & Hsub). cbn in Hk.
    rewrite decide_False in Hk by done. apply res_bind_Ok in Hk as (node & Hn & [= <-]).
    exists inherited, node. split; [apply Hsub; left|done].
  - apply list_elem_of_bind in Hsc as (child & Hsc & Hc).
    destruct (Hitem _ Hc) as (k & Hk & Hsub). rewrite Forall_forall in Hall.
    eapply emitted_from_sub; [exact Hsub|]. by eapply (Hall child Hc).
Qed.

Lemma emit_item_from c n : emits c n.
Proof.
  induction n as [s inner IH|spec steps IH] using YamlNode_ind';
    intros prefix suffix frames inh nodes H sc Hsc; cbn in H, Hsc.
  - case_decide; [|by apply elem_of_nil in Hsc].
    apply res_bind_Ok in H as (deps & _ & H).
    case_decide as Hp; [|by apply elem_of_nil in Hsc]. rewrite Hp in H.
    by eapply emit_items_from.
  - destruct (expands spec); [|by apply elem_of_nil in Hsc].
    apply res_bind_Ok in H as (deps & _ & H).
    apply list_elem_of_bind in Hsc as (i & Hsc & Hi).
    assert (∃ k, emit_items (λ child, emit_item c child prefix (iter_suffix suffix i)
      (frames ++ [(yl_id spec, Some i)]) deps) steps = Ok k ∧ ∀ n, n ∈ k → n ∈ nodes) as (k & Hk & Hsub).
    { clear Hsc. revert nodes H. induction (iterations spec) as [|j ns IHn]; intros nodes H;
        [by apply elem_of_nil in Hi|]. cbn [emit_iterations] in H.
      apply res_bind_Ok in H as (k & Hk & H). apply res_bind_Ok in H as (k' & Hk' & [= <-]).
      apply elem_of_cons in Hi as [->|Hi].
      - exists k. split; [done|]. intros. apply elem_of_app. by left.
      - destruct (IHn Hi _ Hk') as (k0 & ? & ?). exists k0. split; [done|].
        intros. apply elem_of_app. right. auto. }
    eapply emitted_from_sub; [exact Hsub|]. by eapply emit_items_from.
Qed.

(** The innermost scope answers first. *)
Lemma resolve_in_scope c sc x :
  scope_known c sc → x ∈ leaf_ids (sc_items sc) →
  resolve_target c (sc_frames sc) x = Ok (id_in sc x).
Proof.
  intros (m & Hm & Hx) Hin. unfold resolve_target.
  assert (∃ l, enclosing (length (sc_frames sc)) (sc_frames sc) = sc_frames sc :: l) as [l ->].
  { destruct (length (sc_frames sc)) as [|k] eqn:E; cbn.
    - apply nil_length_inv in E. rewrite E. by exists [].
    - rewrite <- E, take_ge by lia. by eexists. }
  cbn. rewrite Hm. cbn. by rewrite (Hx _ Hin).
Qed.

Lemma leaf_ids_step items s inner :
  StepNode s inner ∈ items → ys_type s ≠ Some SUBSEQUENCE → ys_id s ∈ leaf_ids items.
Proof.
  intros Hs Ht. unfold leaf_ids. apply (list_elem_of_fmap_2 node_id _ (StepNode s inner)).
  apply list_elem_of_filter. split; [|done]. cbn. by rewrite bool_decide_eq_false_2.
Qed.

(** Names stay in their scope. In a compiled plan whose scopes have distinct container
    names, every leaf step of every scope (an iteration of a loop, a subsequence, the plan,
    at any depth) has a node in that scope, and each of its dependencies on a leaf of the
    same scope is the dependency of that node on the copy in the same scope: iterations
    never depend on each other by accident. *)
Theorem scope_names (plan : YamlPlan) (c c' : Compiler) (nodes : list CompiledStep) (sc : Scope)
  (s : YamlStep) (inner : list YamlNode)
  (Hplan : distinct_containers (yp_steps plan) && forallb well_scoped (yp_steps plan) = true)
  (Hok : compile plan c = (Ok nodes, c'))
  (Hsc : sc ∈ plan_scopes plan)
  (Hs : StepNode s inner ∈ sc_items sc) (Hleaf : ys_type s ≠ Some SUBSEQUENCE) :
  ∃ node, node ∈ nodes ∧ cs_id node = id_in sc (ys_id s) ∧ cs_source_step_id node = ys_id s ∧
    ∀ d, d ∈ ys_depends_on s → d ∈ leaf_ids (sc_items sc) → id_in sc d ∈ cs_depends_on node.
Proof.
  apply well_scoped_inv in Hplan as [Hnd Hw].
  unfold compile in Hok. apply bind_inv_ok in Hok as (nodes' & c1 & He & Hok).
  destruct (check_cycles nodes'); [|done]. injection Hok as -> ->.
  unfold expand in He. rewrite bind_unit in He by done.
  apply bind_inv_ok in He as (o & c2 & Ha & He). rewrite bind_get in He.
  destruct (emit_items _ _) as [nodes'|] eqn:Hem; [|done]. injection He as -> ->.
  assert (scope_known c' sc) as Hk.
  { eapply assign_scope_known; [exact Hnd| |exact Ha|exact Hsc].
    eapply Forall_impl; [exact Hw|]. apply assign_item_known. }
  destruct (emit_items_from c' (yp_steps plan) "" "" [] [] nodes) with (sc := sc) (s := s) (inner := inner)
    as (inh & node & Hn & Hstep); [|done..|].
  { apply Forall_forall. intros. apply emit_item_from. }
  exists node. split; [done|].
  unfold emit_step in Hstep. apply res_bind_Ok in Hstep as (deps & Hdeps & Hstep).
  apply res_mapM_Ok in Hdeps.
  assert (cs_id node = id_in sc (ys_id s) ∧ cs_source_step_id node = ys_id s ∧
    cs_depends_on node = deps) as (? & ? & Hd).
  { case_decide; [|by injection Hstep as <-].
    apply res_bind_Ok in Hstep as (? & _ & Hstep). apply res_bind_Ok in Hstep as (? & _ & Hstep).
    by injection Hstep as <-. }
  split_and!; [done..|]. intros d Hin Hleafd. rewrite Hd.
  assert (d ∈ or_list (ys_depends_on s) inh) as Hin' by (destruct (ys_depends_on s); [by apply elem_of_nil in Hin|done]).
  apply list_elem_of_lookup in Hin' as [i Hi]. destruct (Forall2_lookup_l _ _ _ _ _ Hdeps Hi) as (y & Hy & E).
  rewrite (resolve_in_scope c' sc d Hk Hleafd) in E. injection E as <-. by eapply list_elem_of_lookup_2.
Qed.

Lemma scope_names_witness :
  ∃ nodes c' node, compile example_plan new_compiler = (Ok nodes, c')
  ∧ node ∈ nodes ∧ cs_id node = "y_iter1" ∧ "x_iter1" ∈ cs_depends_on node.
Proof.
  eexists _, _. 
  assert (compile example_plan new_compiler = (Ok _, _)) as Hok by (vm_compute; reflexivity).
  set (sc := mkScope [("L", Some 1%Z)] "" "_iter1"
    [leaf "x" []; leaf "y" ["x"]; subsequence "S" [] [leaf "z" ["y"]]]).
  assert (sc ∈ plan_scopes example_plan) as Hsc by (vm_compute; set_solver).
  destruct (scope_names example_plan new_compiler _ _ sc
    (mkStep "y" None "" ∅ [] ["x"] ∅ 60 0 None None None None None None false None None None) []
    eq_refl Hok Hsc ltac:(right; left) ltac:(discriminate)) as (node & Hn & Hid & _ & Hd).
  exists node. split; [exact Hok|]. split; [exact Hn|]. split; [exact Hid|].
  apply (Hd "x"); [left|]. vm_compute. left.
Defined.

(** ** Dependencies between containers *)

(** Where container gates go wrong. The gate of a container is resolved when the
    container is reached and again by each child that inherits it, so it must resolve to
    itself: a loop that waits for a loop is refused as an unknown target (1), and so is a
    subsequence inside a loop that waits for a step of the same iteration (2). A gate does
    not reach through a nested container without dependencies of its own: the step of [N]
    starts without waiting for [a] (3). A subsequence that ends in a loop has a terminal
    before that loop: [b] does not wait for the loop [K] of [M] (4). *)
Theorem container_gates_diverge :
  (compile (plan_of [for_loop "L" 2 [] [leaf "x" []]; for_loop "M" 1 ["L"] [leaf "w" []]])
     new_compiler).1 = Raise (unknown_target "x_iter1")
  ∧ (compile (plan_of [for_loop "L" 2 [] [leaf "x" []; subsequence "S" ["x"] [leaf "z" []]]])
       new_compiler).1 = Raise (unknown_target "x_iter0")
  ∧ edges_of (compile (plan_of [leaf "a" []; subsequence "M" ["a"] [subsequence "N" [] [leaf "w" []]]])
       new_compiler).1 = Ok [("a", []); ("M.N.w", [])]
  ∧ edges_of (compile (plan_of [subsequence "M" [] [leaf "w" []; for_loop "K" 2 [] [leaf "k" ["w"]]];
                                leaf "b" ["M"]]) new_compiler).1
    = Ok [("M.w", []); ("M.k_iter0", ["M.w"]); ("M.k_iter1", ["M.w"]); ("b", ["M.w"])].
Proof. vm_compute. split_and!; reflexivity. Qed.
