(* ===== verification/LoopExecutor.v ===== *)
(** * The loop executor (executor/loop_executor.py)

    FOR, WHILE and FOREACH loops over the variable space and the event bus, serial and
    parallel. The state of a run is the variable space, the bus, and the rest of the
    process [lw_rest]; a script runs somewhere in the middle and may do anything to
    all three, other tasks included. Durations and time stamps of results are not
    carried. *)

From S2P Require Import Prelude PyDict PyStr Types VariableSpace EventBus Dsl.

(** ** Results and tasks (shared/types.py) *)

Record StepResult : Type := mkStepResult {
  sr_status : StepStatus;
  sr_outputs : list (string * pyval);
  sr_error : option string
}.

Record ExecuteTask : Type := mkTask {
  et_script : string;
  et_params : pydict string pyval;
  et_step_id : string;
  et_timeout : option Z;
  et_run_id : option string
}.

Record LoopIterationResult : Type := mkIteration {
  ir_iteration : Z;
  ir_status : StepStatus;
  ir_outputs : pydict string pyval;
  ir_error : option string
}.

Record LoopResult : Type := mkLoopResult {
  lr_loop_id : string;
  lr_loop_type : string;
  lr_total : Z;
  lr_passed : Z;
  lr_failed : Z;
  lr_iterations : list LoopIterationResult;
  lr_status : StepStatus;
  lr_error : option string
}.

(** [status in (StepStatus.FAILED, StepStatus.ERROR)] *)
Definition is_bad (st : StepStatus) : bool :=
  match st with FAILED | ERROR => true | _ => false end.

(** [str(e)] of the modelled exceptions. *)
Definition exc_str (e : exc) : string :=
  match e with
  | KeyError m => repr_str m
  | ValueError m | TypeError m | RuntimeError m | ResourceAcquireError m
  | ConditionTimeoutError m | CircuitBreakerOpenError m | SchedulerFaultError m
  | ExecutionAborted m | CustomError _ m | OtherError m => m
  end.

(** ** The state of a run, and what the executor is given *)

Record LoopWorld (X : Type) : Type := mkLW {
  lw_vs : VariableSpace;
  lw_bus : EventBus;
  lw_has_bus : bool;
  lw_now : Z;
  lw_rest : X
}.
Arguments mkLW {X} _ _ _ _ _.
Arguments lw_vs {X} _.
Arguments lw_bus {X} _.
Arguments lw_has_bus {X} _.
Arguments lw_now {X} _.
Arguments lw_rest {X} _.

(** The step executor (the [StepExecutor] protocol of executor/step_executor.py), the
    interpreter's [eval] of a closed expression, and the value under which a result
    is stored. The only promise relied on is the documented one of [execute_batch]: one
    result per task, in order. *)
Class LoopEnv (X : Type) : Type := {
  execute_async : ExecuteTask → M (LoopWorld X) StepResult;
  execute_batch : list ExecuteTask → option Z → M (LoopWorld X) (list StepResult);
  breakpoint_hook : option (YamlStep → M (LoopWorld X) unit);
  py_eval : list (string * pyval) → string → option pyval;
  result_value : LoopResult → pyval;
  execute_batch_length : ∀ tasks n w l w',
    execute_batch tasks n w = (Ok l, w') → length l = length tasks
}.

Section executor.
Context {X : Type} `{LoopEnv X}.

Definition set_lw_vs vs (w : LoopWorld X) : LoopWorld X :=
  mkLW vs (lw_bus w) (lw_has_bus w) (lw_now w) (lw_rest w).
Definition set_lw_bus b (w : LoopWorld X) : LoopWorld X :=
  mkLW (lw_vs w) b (lw_has_bus w) (lw_now w) (lw_rest w).

(** [self._variable_space.set] *)
Definition lw_set (name : string) (value : pyval) : M (LoopWorld X) unit := λ w,
  let '(r, (vs, b)) := vs_set (lw_now w) name value (lw_vs w, lw_bus w) in
  (r, set_lw_bus b (set_lw_vs vs w)).
Definition lw_set_loop_variable (loop_id : string) (iteration : Z) (key : string)
    (value : pyval) : M (LoopWorld X) unit :=
  lw_set (loop_var_name loop_id iteration key) value.

Definition publish_event (t : EventType) (d : EventData) : M (LoopWorld X) unit :=
  modify (λ w, if lw_has_bus w then set_lw_bus (publish t d (lw_bus w)) w else w).

Definition publish_iteration_events (loop_id : string) (iteration total : Z) :
    M (LoopWorld X) unit :=
  let total' := if (0 <? total)%Z then Some total else None in
  publish_event LOOP_ITERATION_STARTED (LoopIterationStartedData loop_id iteration total') ;;;
  publish_event LOOP_ITERATION_COMPLETED (LoopIterationCompletedData loop_id iteration total').

(** ** Expressions *)

Definition ALLOWED_NAMES : list (string * pyval) :=
  [("True", PyBool true); ("False", PyBool false);
   ("true", PyBool true); ("false", PyBool false)].

Definition evaluate_condition_expr (w : LoopWorld X) (expression : string) : bool :=
  match py_eval ALLOWED_NAMES (vs_resolve (lw_vs w) expression) with
  | Some v => py_bool v
  | None => false
  end.

(** [isinstance(v, (list, tuple))], then [list(v)]; a tuple is held as a list. *)
Definition as_list (v : pyval) : option (list pyval) :=
  match v with PyList l => Some l | _ => None end.

(** [s[2:-1]] of a string [${...}]. *)
Definition strip_ref (s : string) : option string :=
  let n := String.length s in
  if String.prefix "${" s && String.eqb (String.substring (n - 1) 1 s) "}"
  then Some (String.substring 2 (n - 3) s) else None.

Definition resolve_collection (w : LoopWorld X) (expr : string) : option (list pyval) :=
  let resolved := vs_resolve (lw_vs w) expr in
  let literal :=
    if decide (resolved = expr) then None else py_eval [] resolved ≫= as_list in
  match literal with
  | Some l => Some l
  | None =>
      match as_list (vs_get (lw_vs w) expr PyNone) with
      | Some l => Some l
      | None =>
          match strip_ref expr with
          | Some var_name => as_list (vs_get (lw_vs w) var_name PyNone)
          | None => None
          end
      end
  end.

(** [_build_loop_result] *)
Definition build_loop_result (spec : LoopSpec) (rs : list LoopIterationResult) : LoopResult :=
  let passed := length (base.filter (λ r, ir_status r = PASSED) rs) in
  let failed := length (base.filter (λ r, is_bad (ir_status r) = true) rs) in
  mkLoopResult (yl_id spec) (loop_type_value (yl_type spec)) (Z.of_nat (length rs))
    (Z.of_nat passed) (Z.of_nat failed) rs
    (if forallb (λ r, bool_decide (ir_status r = PASSED)) rs then PASSED else FAILED) None.

Definition error_result (spec : LoopSpec) (msg : string) : LoopResult :=
  mkLoopResult (yl_id spec) (loop_type_value (yl_type spec)) 0 0 0 [] ERROR (Some msg).

(** ** One iteration *)

Definition handle_breakpoint (s : YamlStep) : M (LoopWorld X) unit :=
  w <- get ;;
  let off := match ys_condition s with
             | Some c => negb (bool_decide (c = "")) && negb (evaluate_condition_expr w c)
             | None => false
             end in
  if off then ret tt
  else match breakpoint_hook with Some hook => hook s | None => ret tt end.

Definition step_task (loop_id : string) (iteration : Z) (run_id : option string)
    (s : YamlStep) : ExecuteTask :=
  mkTask (ys_script s) (ys_params s)
    (loop_id +:+ "_iter" +:+ pretty iteration +:+ "_" +:+ ys_id s)
    (if (ys_timeout s =? 0)%Z then None else Some (ys_timeout s)) run_id.

(** [for key, value in outputs.items(): set_loop_variable(...)] *)
Definition export_outputs (loop_id : string) (iteration : Z) (outputs : list (string * pyval)) :
    M (LoopWorld X) unit :=
  for_each outputs (λ kv, lw_set_loop_variable loop_id iteration kv.1 kv.2).

(** What the steps of an iteration leave: status, error, outputs. *)
Definition iter_state : Type := StepStatus * option string * pydict string pyval.

(** The steps of an iteration in order; [nested] runs a nested loop. *)
Section steps.
Variable nested : YamlNode → M (LoopWorld X) LoopResult.
Variables (loop_id : string) (iteration : Z) (run_id : option string).

Fixpoint run_steps (steps : list YamlNode) (outputs : pydict string pyval) :
    M (LoopWorld X) iter_state :=
  match steps with
  | [] => ret (PASSED, None, outputs)
  | StepNode s _ :: steps' =>
      if is_breakpoint s then handle_breakpoint s ;;; run_steps steps' outputs
      else
        r <- execute_async (step_task loop_id iteration run_id s) ;;
        export_outputs loop_id iteration (sr_outputs r) ;;;
        if is_bad (sr_status r) then ret (sr_status r, sr_error r, outputs)
        else run_steps steps' (dict_update outputs (PyDict (sr_outputs r)))
  | (LoopNode _ _ as l) :: steps' =>
      r <- nested l ;;
      if is_bad (lr_status r) then ret (lr_status r, lr_error r, outputs)
      else run_steps steps' outputs
  end.
End steps.

(** [_execute_single_iteration]; [steps] runs the steps of the iteration. *)
Definition execute_single_iteration (spec : LoopSpec)
    (steps : M (LoopWorld X) iter_state) (iteration : Z) :
    M (LoopWorld X) LoopIterationResult :=
  let total := default 0%Z (yl_count spec) in
  let total' := if (0 <? total)%Z then Some total else None in
  publish_event LOOP_ITERATION_STARTED
    (LoopIterationStartedData (yl_id spec) iteration total') ;;;
  r <- steps ;;
  publish_event LOOP_ITERATION_COMPLETED
    (LoopIterationCompletedData (yl_id spec) iteration total') ;;;
  let '(status, error, outputs) := r in
  ret (mkIteration iteration status outputs error).

(** ** Iterations in sequence *)

(** [for i in range(i, i + n)]: set the iteration variable, run, stop at the first
    iteration that failed. *)
Fixpoint serial_iterations (set_var : Z → M (LoopWorld X) unit)
    (single : Z → M (LoopWorld X) LoopIterationResult) (n : nat) (i : Z)
    (acc : list LoopIterationResult) : M (LoopWorld X) (list LoopIterationResult) :=
  match n with
  | O => ret acc
  | S n' =>
      set_var i ;;;
      r <- single i ;;
      if is_bad (ir_status r) then ret (acc ++ [r])
      else serial_iterations set_var single n' (i + 1) (acc ++ [r])
  end.

(** [while iteration < max_iterations], with [n] iterations left to the limit. *)
Fixpoint while_iterations (condition : string)
    (single : Z → M (LoopWorld X) LoopIterationResult) (n : nat) (i : Z)
    (acc : list LoopIterationResult) : M (LoopWorld X) (list LoopIterationResult) :=
  match n with
  | O => ret acc
  | S n' =>
      w <- get ;;
      if negb (evaluate_condition_expr w condition) then ret acc
      else
        r <- single i ;;
        if is_bad (ir_status r) then ret (acc ++ [r])
        else while_iterations condition single n' (i + 1) (acc ++ [r])
  end.

(** The value of the iteration variable: the index (FOR) or the item (FOREACH). *)
Definition set_iteration_var (spec : LoopSpec) (iteration_var : string)
    (collection : option (list pyval)) (i : Z) : M (LoopWorld X) unit :=
  match collection with
  | None => lw_set_loop_variable (yl_id spec) i iteration_var (PyInt i)
  | Some l =>
      match l !! Z.to_nat i with
      | Some item => lw_set_loop_variable (yl_id spec) i iteration_var item
      | None => raise (OtherError "list index out of range")
      end
  end.

(** ** Iterations in parallel *)

(** [_build_iteration_tasks] *)
Definition build_iteration_tasks (spec : LoopSpec) (steps : list YamlNode)
    (run_id : option string) (iteration : Z) : list ExecuteTask :=
  omap (λ n, match n with
             | StepNode s _ =>
                 if is_breakpoint s then None else Some (step_task (yl_id spec) iteration run_id s)
             | LoopNode _ _ => None
             end) steps.

(** The results of one iteration's tasks: the first failure, the outputs before it. *)
Fixpoint collect_results (l : list StepResult) (outputs : pydict string pyval) : iter_state :=
  match l with
  | [] => (PASSED, None, outputs)
  | r :: l' =>
      if is_bad (sr_status r) then (sr_status r, sr_error r, outputs)
      else collect_results l' (dict_update outputs (PyDict (sr_outputs r)))
  end.

(** [iteration_step_results.get(i, [])], by way of [task_to_iteration]. *)
Definition results_of (owners : list Z) (results : list StepResult) (i : Z) : list StepResult :=
  (base.filter (λ p, p.1 = i) (zip owners results)).*2.

Definition settle_iteration (spec : LoopSpec) (count : Z) (i : Z) (l : list StepResult) :
    M (LoopWorld X) LoopIterationResult :=
  let '(status, error, outputs) := collect_results l ∅ in
  export_outputs (yl_id spec) i (items outputs) ;;;
  publish_iteration_events (yl_id spec) i count ;;;
  ret (mkIteration i status outputs error).

Fixpoint settle_iterations (spec : LoopSpec) (count : Z) (res_of : Z → list StepResult)
    (idx : list Z) : M (LoopWorld X) (list LoopIterationResult) :=
  match idx with
  | [] => ret []
  | i :: idx' =>
      r <- settle_iteration spec count i (res_of i) ;;
      rs <- settle_iterations spec count res_of idx' ;;
      ret (r :: rs)
  end.

(** [_execute_iterations_parallel]. The snapshots of the variables the code takes before
    the dispatch are not used by anything, and have no counterpart. *)
Definition execute_iterations_parallel (spec : LoopSpec) (count : Z)
    (set_var : Z → M (LoopWorld X) unit) (tasks_of : Z → list ExecuteTask) :
    M (LoopWorld X) LoopResult :=
  let idx := seqZ 0 count in
  for_each idx set_var ;;;
  let all_tasks := idx ≫= tasks_of in
  let owners := idx ≫= λ i, replicate (length (tasks_of i)) i in
  match all_tasks with
  | [] =>
      for_each idx (λ i, publish_iteration_events (yl_id spec) i count) ;;;
      ret (build_loop_result spec ((λ i, mkIteration i PASSED ∅ None) <$> idx))
  | _ =>
      let m := yl_max_iterations spec in
      results <- execute_batch all_tasks
        (if negb (m =? 0)%Z && (m <? 1000)%Z then Some m else None) ;;
      rs <- settle_iterations spec count (results_of owners results) idx ;;
      ret (build_loop_result spec rs)
  end.

(** ** Loops *)

(** [_execute_for_loop], [_execute_foreach_loop] once the collection is known. *)
Definition execute_iterations (spec : LoopSpec) (count : Z) (iteration_var : string)
    (collection : option (list pyval)) (single : Z → M (LoopWorld X) LoopIterationResult)
    (tasks_of : Z → list ExecuteTask) : M (LoopWorld X) LoopResult :=
  let set_var := set_iteration_var spec iteration_var collection in
  match yl_mode spec with
  | PARALLEL => execute_iterations_parallel spec count set_var tasks_of
  | SERIAL =>
      rs <- serial_iterations set_var single (Z.to_nat count) 0 [] ;;
      ret (build_loop_result spec rs)
  end.

Definition execute_for_loop (spec : LoopSpec)
    (single : Z → M (LoopWorld X) LoopIterationResult) (tasks_of : Z → list ExecuteTask) :
    M (LoopWorld X) LoopResult :=
  execute_iterations spec (default 0%Z (yl_count spec)) (or_str (yl_iterator_var spec) "i")
    None single tasks_of.

Definition execute_while_loop (spec : LoopSpec)
    (single : Z → M (LoopWorld X) LoopIterationResult) : M (LoopWorld X) LoopResult :=
  rs <- while_iterations (or_str (yl_condition spec) "False") single
          (Z.to_nat (or_int (yl_max_iterations spec) 1000)) 0 [] ;;
  ret (build_loop_result spec rs).

Definition execute_foreach_loop (spec : LoopSpec)
    (single : Z → M (LoopWorld X) LoopIterationResult) (tasks_of : Z → list ExecuteTask) :
    M (LoopWorld X) LoopResult :=
  w <- get ;;
  let expr := default "" (yl_collection spec) in
  match resolve_collection w expr with
  | None => ret (error_result spec ("Collection '" +:+ expr
                   +:+ "' resolved to None or not found"))
  | Some l =>
      execute_iterations spec (Z.of_nat (length l)) (or_str (yl_iterator_var spec) "item")
        (Some l) single tasks_of
  end.

(** [execute_loop], given how its iterations run: every exception becomes an ERROR
    result, and the result is stored as [loop.<id>.result]. *)
Definition execute_with (spec : LoopSpec)
    (single : Z → M (LoopWorld X) LoopIterationResult) (tasks_of : Z → list ExecuteTask) :
    M (LoopWorld X) LoopResult :=
  r <- try_except
    (match yl_type spec with
     | FOR => execute_for_loop spec single tasks_of
     | WHILE => execute_while_loop spec single
     | FOREACH => execute_foreach_loop spec single tasks_of
     end)
    (λ e, Some (ret (error_result spec (exc_str e)))) ;;
  lw_set ("loop." +:+ yl_id spec +:+ ".result") (result_value r) ;;;
  ret r.

(** [execute_loop]; it is only called on loops. *)
Fixpoint execute_loop (run_id : option string) (loop : YamlNode) : M (LoopWorld X) LoopResult :=
  match loop with
  | StepNode _ _ => raise (TypeError "not a loop")
  | LoopNode spec steps =>
      execute_with spec
        (λ i, execute_single_iteration spec
                (run_steps (execute_loop run_id) (yl_id spec) i run_id steps ∅) i)
        (build_iteration_tasks spec steps run_id)
  end.

(** ** Results of a loop *)

(** The outcomes an iteration can have. *)
Definition settled (st : StepStatus) : bool :=
  match st with PASSED | FAILED | ERROR => true | _ => false end.

(** A failure ends the list. *)
Definition ends_at_failure (l : list LoopIterationResult) : Prop :=
  ∀ before r after, l = before ++ r :: after → is_bad (ir_status r) = true → after = [].

(** Iterations [i], [i+1], ... with settled outcomes. *)
Definition iterations_from (i : Z) (l : list LoopIterationResult) : Prop :=
  ir_iteration <$> l = seqZ i (Z.of_nat (length l))
  ∧ Forall (λ r, settled (ir_status r) = true) l.

Definition all_passed (l : list LoopIterationResult) : Prop :=
  Forall (λ r, ir_status r = PASSED) l.

Lemma settled_cases st : settled st = true → st = PASSED ∨ is_bad st = true.
Proof. destruct st; auto. Qed.

Lemma iterations_from_nil i : iterations_from i [].
Proof. split; [|constructor]. cbn. by rewrite seqZ_nil. Qed.

Lemma iterations_from_cons i r l :
  ir_iteration r = i → settled (ir_status r) = true → iterations_from (i + 1) l →
  iterations_from i (r :: l).
Proof.
  intros <- Hr [Hn Hs]. split; [|by constructor].
  rewrite fmap_cons, Hn. cbn [length]. rewrite (seqZ_cons (ir_iteration r)) by lia.
  f_equal. f_equal; lia.
Qed.

(** The counters of a result agree with its iterations. *)
Record coherent (r : LoopResult) : Prop := {
  co_total : lr_total r = Z.of_nat (length (lr_iterations r));
  co_iterations : iterations_from 0 (lr_iterations r);
  co_passed : lr_passed r
    = Z.of_nat (length (base.filter (λ x, ir_status x = PASSED) (lr_iterations r)));
  co_sum : (lr_passed r + lr_failed r)%Z = lr_total r;
  co_status : if decide (all_passed (lr_iterations r)) then lr_status r = PASSED
              else lr_status r = FAILED
}.

Lemma count_settled l :
  Forall (λ r, settled (ir_status r) = true) l →
  length (base.filter (λ r, ir_status r = PASSED) l)
  + length (base.filter (λ r, is_bad (ir_status r) = true) l) = length l.
Proof.
  induction 1 as [|r l Hr _ IH]; [done|]. rewrite !filter_cons.
  destruct (settled_cases _ Hr) as [Hp|Hb].
  - rewrite decide_True, decide_False by (rewrite ?Hp; done). cbn. lia.
  - rewrite decide_False, decide_True by (try intros Hp; rewrite ?Hp in *; done). cbn. lia.
Qed.

Lemma forallb_all_passed l :
  forallb (λ r, bool_decide (ir_status r = PASSED)) l = true ↔ all_passed l.
Proof.
  unfold all_passed. rewrite forallb_forall, Forall_forall.
  split; intros Hl x Hx; specialize (Hl x);
    rewrite ?list_elem_of_In, ?bool_decide_eq_true in *; auto.
Qed.

Lemma build_coherent spec l : iterations_from 0 l → coherent (build_loop_result spec l).
Proof.
  intros [Hn Hs]. split; cbn; [done|by split|done| |].
  - rewrite <- (count_settled l Hs). lia.
  - pose proof (forallb_all_passed l) as Hf.
    destruct (forallb _ l); case_decide as Ha; [done|..|done].
    + by destruct Ha; apply Hf.
    + by apply Hf in Ha.
Qed.

(** What the loops rely on of a single iteration. *)
Definition reports (single : Z → M (LoopWorld X) LoopIterationResult) : Prop :=
  ∀ i w r w', single i w = (Ok r, w') → ir_iteration r = i ∧ settled (ir_status r) = true.

Lemma run_steps_settled nested loop_id i run_id steps outputs w st e o w' :
  run_steps nested loop_id i run_id steps outputs w = (Ok (st, e, o), w') →
  settled st = true.
Proof.
  revert outputs w. induction steps as [|[s inner|spec body] steps IH]; intros outputs w; cbn.
  - by intros [= <- _ _ _].
  - destruct (is_breakpoint s).
    + intros (? & ? & _ & Hr)%bind_inv_ok. by eapply IH.
    + intros (r & ? & _ & Hr)%bind_inv_ok. apply bind_inv_ok in Hr as (? & ? & _ & Hr).
      destruct (is_bad (sr_status r)) eqn:Eb; [|by eapply IH].
      injection Hr as <- _ _ _. by destruct (sr_status r).
  - intros (r & ? & _ & Hr)%bind_inv_ok.
    destruct (is_bad (lr_status r)) eqn:Eb; [|by eapply IH].
    injection Hr as <- _ _ _. by destruct (lr_status r).
Qed.

Lemma single_reports spec nested run_id steps :
  reports (λ i, execute_single_iteration spec
                  (run_steps nested (yl_id spec) i run_id steps ∅) i).
Proof.
  intros i w r w'. unfold execute_single_iteration.
  intros (? & ? & _ & Hr)%bind_inv_ok. apply bind_inv_ok in Hr as ([[st e] o] & ? & Hs & Hr).
  apply bind_inv_ok in Hr as (? & ? & _ & Hr). injection Hr as <- _.
  split; [done|]. by eapply run_steps_settled.
Qed.

Lemma ends_at_failure_cons r l :
  is_bad (ir_status r) = false → ends_at_failure l → ends_at_failure (r :: l).
Proof.
  intros Hr Hl [|x before] y after [= -> ->] Hy; [congruence|by eapply Hl].
Qed.

Lemma ends_at_failure_last r : ends_at_failure [r].
Proof. by intros [|x [|]] y after [= ] _. Qed.

(** What a sequence of at most [n] iterations from [i] leaves. *)
Record sequence (n : nat) (i : Z) (l : list LoopIterationResult) : Prop := {
  sq_from : iterations_from i l;
  sq_bound : length l ≤ n;
  sq_end : ends_at_failure l
}.

Lemma sequence_cons n i r l :
  ir_iteration r = i → settled (ir_status r) = true → is_bad (ir_status r) = false →
  sequence n (i + 1) l → sequence (S n) i (r :: l).
Proof.
  intros Hi Hr Hb [Hf Hn He]. split.
  - by apply iterations_from_cons.
  - cbn. lia.
  - by apply ends_at_failure_cons.
Qed.

Lemma sequence_nil n i : sequence n i [].
Proof. split; [apply iterations_from_nil|cbn; lia|by intros [] ?? [=]]. Qed.

Lemma sequence_last n i r :
  ir_iteration r = i → settled (ir_status r) = true → sequence (S n) i [r].
Proof.
  intros Hi Hr. split; [|cbn; lia|apply ends_at_failure_last].
  apply iterations_from_cons; [done..|apply iterations_from_nil].
Qed.

Lemma serial_sequence set_var single n i acc w rs w' :
  reports single → serial_iterations set_var single n i acc w = (Ok rs, w') →
  ∃ l, rs = acc ++ l ∧ sequence n i l ∧ (all_passed l → length l = n).
Proof.
  intros Hs. revert i acc w. induction n as [|n IH]; intros i acc w; cbn.
  { intros [= <- _]. exists []. rewrite app_nil_r. split_and!; [done|apply sequence_nil|done]. }
  intros (? & ? & _ & Hr)%bind_inv_ok. apply bind_inv_ok in Hr as (r & ? & Hr1 & Hr).
  apply Hs in Hr1 as [Hi Hset]. destruct (is_bad (ir_status r)) eqn:Eb.
  - injection Hr as <- _. exists [r]. split_and!; [done|by apply sequence_last|].
    intros Hall. apply Forall_inv in Hall. by rewrite Hall in Eb.
  - apply IH in Hr as (l & -> & Hl & Hn). exists (r :: l).
    split_and!; [by rewrite <- app_assoc|by apply sequence_cons|].
    intros [_ Hall]%Forall_cons. cbn. by rewrite Hn.
Qed.

Lemma while_sequence condition single n i acc w rs w' :
  reports single → while_iterations condition single n i acc w = (Ok rs, w') →
  ∃ l, rs = acc ++ l ∧ sequence n i l.
Proof.
  intros Hs. revert i acc w. induction n as [|n IH]; intros i acc w; cbn.
  { intros [= <- _]. exists []. rewrite app_nil_r. split; [done|apply sequence_nil]. }
  destruct (negb _).
  { intros [= <- _]. exists []. rewrite app_nil_r. split; [done|apply sequence_nil]. }
  intros (r & ? & Hr1 & Hr)%bind_inv_ok.
  apply Hs in Hr1 as [Hi Hset]. destruct (is_bad (ir_status r)) eqn:Eb.
  - injection Hr as <- _. exists [r]. split; [done|by apply sequence_last].
  - apply IH in Hr as (l & -> & Hl). exists (r :: l).
    split; [by rewrite <- app_assoc|by apply sequence_cons].
Qed.

Lemma collect_settled l outputs : settled (collect_results l outputs).1.1 = true.
Proof.
  revert outputs. induction l as [|r l IH]; intros outputs; [done|]. cbn.
  destruct (is_bad (sr_status r)) eqn:Eb; [|apply IH]. cbn. by destruct (sr_status r).
Qed.

(** The results of parallel iterations, one per index. *)
Lemma settle_iterations_spec spec count res_of idx w rs w' :
  settle_iterations spec count res_of idx w = (Ok rs, w') →
  rs = (λ i, let '(st, e, o) := collect_results (res_of i) ∅ in mkIteration i st o e) <$> idx.
Proof.
  revert w rs w'. induction idx as [|i idx IH]; intros w rs w'; cbn.
  { by intros [= <- _]. }
  intros (r & ? & Hr1 & Hr)%bind_inv_ok. apply bind_inv_ok in Hr as (rs' & ? & Hr2 & Hr).
  injection Hr as <- _. apply IH in Hr2 as ->. f_equal.
  unfold settle_iteration in Hr1. destruct (collect_results _ _) as [[st e] o].
  apply bind_inv_ok in Hr1 as (? & ? & _ & Hr1). apply bind_inv_ok in Hr1 as (? & ? & _ & Hr1).
  by injection Hr1 as <- _.
Qed.

(** Iterations with the given indices and settled outcomes. *)
Lemma iterations_fmap (f : Z → LoopIterationResult) count :
  (∀ i, ir_iteration (f i) = i ∧ settled (ir_status (f i)) = true) →
  iterations_from 0 (f <$> seqZ 0 count).
Proof.
  intros Hf. split.
  - rewrite <- list_fmap_compose, length_fmap, length_seqZ.
    replace (seqZ 0 (Z.of_nat (Z.to_nat count))) with (seqZ 0 count).
    + transitivity (id <$> seqZ 0 count); [|apply list_fmap_id].
      apply list_fmap_ext. intros _ i _. apply Hf.
    + destruct (decide (0 ≤ count)%Z); [by rewrite Z2Nat.id|].
      by rewrite !seqZ_nil by lia.
  - apply Forall_fmap, Forall_true. intros i. apply Hf.
Qed.

(** [_execute_iterations_parallel], when it returns. *)
Lemma parallel_spec spec count set_var tasks_of w r w' :
  execute_iterations_parallel spec count set_var tasks_of w = (Ok r, w') →
  ∃ f, (∀ i, ir_iteration (f i) = i ∧ settled (ir_status (f i)) = true)
       ∧ r = build_loop_result spec (f <$> seqZ 0 count).
Proof.
  unfold execute_iterations_parallel. intros (? & ? & _ & Hr)%bind_inv_ok.
  destruct (seqZ 0 count ≫= tasks_of) as [|t ts].
  - apply bind_inv_ok in Hr as (? & ? & _ & Hr). injection Hr as <- _.
    by exists (λ i, mkIteration i PASSED ∅ None).
  - apply bind_inv_ok in Hr as (results & ? & _ & Hr).
    apply bind_inv_ok in Hr as (rs & ? & Hs & Hr). injection Hr as <- _.
    apply settle_iterations_spec in Hs as ->. eexists. split; [|reflexivity]. intros i. cbn.
    pose proof (collect_settled (results_of (seqZ 0 count ≫= λ i, replicate (length (tasks_of i)) i)
      results i) ∅) as Hset.
    by destruct (collect_results _ _) as [[st e] o].
Qed.

(** ** A whole loop *)

(** The most iterations a loop may run from a state. *)
Definition iteration_bound (spec : LoopSpec) (w : LoopWorld X) : Z :=
  match yl_type spec with
  | FOR => Z.max 0 (default 0%Z (yl_count spec))
  | WHILE => Z.max 0 (or_int (yl_max_iterations spec) 1000)
  | FOREACH => match resolve_collection w (default "" (yl_collection spec)) with
               | Some l => Z.of_nat (length l) | None => 0 end
  end.

(** Do its iterations run one after the other? ([WHILE] ignores the mode.) *)
Definition in_sequence (spec : LoopSpec) : bool :=
  bool_decide (yl_type spec = WHILE) || bool_decide (yl_mode spec = SERIAL).

(** A sound result. *)
Record sound (spec : LoopSpec) (bound : Z) (r : LoopResult) : Prop := {
  so_coherent : coherent r;
  so_error : lr_error r = None;
  so_bound : (lr_total r ≤ bound)%Z;
  so_stops : in_sequence spec = true → ends_at_failure (lr_iterations r);
  so_complete : yl_type spec ≠ WHILE → in_sequence spec = false ∨ lr_status r = PASSED →
    lr_total r = bound
}.

Lemma passed_all r : coherent r → lr_status r = PASSED → all_passed (lr_iterations r).
Proof. intros [_ _ _ _ Hs] Hp. case_decide; [done|congruence]. Qed.

Lemma iterations_sound spec count var collection single tasks_of w r w' bound :
  reports single → yl_type spec ≠ WHILE → bound = Z.max 0 count →
  execute_iterations spec count var collection single tasks_of w = (Ok r, w') →
  sound spec bound r.
Proof.
  intros Hs Ht -> . unfold execute_iterations.
  destruct (yl_mode spec) eqn:Em; intros Hr.
  - apply bind_inv_ok in Hr as (rs & ? & Hl & Hr). injection Hr as <- _.
    apply (serial_sequence _ _ _ _ _ _ _ _ Hs) in Hl as (l & -> & [Hf Hb He] & Hn).
    rewrite app_nil_l. pose proof (build_coherent spec l Hf) as Hc.
    split; [done|done|cbn; lia|done|]. intros _ [Hq|Hp].
    + unfold in_sequence in Hq. by rewrite Em, orb_true_r in Hq.
    + cbn. rewrite (Hn (passed_all _ Hc Hp)). lia.
  - apply parallel_spec in Hr as (f & Hf & ->).
    pose proof (iterations_fmap f count Hf) as Hi.
    split; [by apply build_coherent|done| | |]; cbn; rewrite ?length_fmap, ?length_seqZ; try lia.
    unfold in_sequence. by rewrite Em, bool_decide_false.
Qed.

Lemma lw_set_spec name value a w :
  parse_addr name = Some a → writable a = true →
  ∃ w', lw_set name value w = (Ok tt, w') ∧ vs_get (lw_vs w') name PyNone = value.
Proof.
  intros Hp Hw. unfold lw_set, vs_set.
  destruct (vs_write_ok name value (lw_vs w) a Hp Hw) as (vs' & -> & _ & Hr).
  eexists. split; [reflexivity|]. cbn. by rewrite vs_get_read, Hp; cbn; rewrite Hr, decide_True.
Qed.

Lemma result_addr id : ∃ i k, parse_addr ("loop." +:+ id +:+ ".result") = Some (ALoop i k).
Proof.
  assert (cut ("loop." +:+ id +:+ ".result") = Some ("loop", id +:+ ".result")) as Hc
    by by apply cut_spec.
  destruct (cut (id +:+ ".result")) as [[i k]|] eqn:Hk.
  - exists i, k. unfold parse_addr. rewrite Hc. cbn. by rewrite Hk.
  - apply cut_None in Hk. rewrite free_of_app in Hk. by apply andb_true_iff in Hk as [_ Hk].
Qed.

(** Running a loop, whatever its steps, its nested loops and the scripts do, and
    whatever else runs meanwhile. It always ends, with a result and never with an
    exception, and the result is stored as [loop.<id>.result]. Either the loop could
    not run to its end, and the result is an ERROR with a message and no iteration; or
    the result is sound: its iterations are numbered from 0, each PASSED, FAILED or
    ERROR, the counters agree with them, it is PASSED exactly if all passed (else
    FAILED), there are at most as many as [count], [max_iterations] or the length of the
    collection say, iterations in sequence stop at the first failure, and a parallel or
    passed FOR or FOREACH loop ran them all. *)
Lemma execute_loop_sound run_id spec steps (w : LoopWorld X) :
  let '(r, w') := execute_loop run_id (LoopNode spec steps) w in
  ∃ res, r = Ok res ∧ get_loop_result (lw_vs w') (yl_id spec) = result_value res ∧
    ((∃ msg, res = error_result spec msg) ∨ sound spec (iteration_bound spec w) res).
Proof.
  cbn [execute_loop]. set (single := λ i, _). set (tasks_of := build_iteration_tasks _ _ _).
  assert (reports single) as Hs by apply single_reports. clearbody single.
  unfold execute_with. set (body := match yl_type spec with FOR => _ | _ => _ end).
  assert (∃ res w1, try_except body (λ e, Some (ret (error_result spec (exc_str e)))) w
                    = (Ok res, w1)
          ∧ ((∃ msg, res = error_result spec msg) ∨ sound spec (iteration_bound spec w) res))
    as (res & w1 & Hb & Hres).
  { unfold try_except. destruct (body w) as [[r|e] w1] eqn:Hb; [|by eauto 6].
    exists r, w1. split; [done|]. unfold body in Hb. unfold iteration_bound.
    destruct (yl_type spec) eqn:Et.
    - right. eapply iterations_sound; [done|congruence|done|exact Hb].
    - right. apply bind_inv_ok in Hb as (rs & ? & Hl & Hr). injection Hr as <- _.
      apply (while_sequence _ _ _ _ _ _ _ _ Hs) in Hl as (l & -> & [Hf Hn He]).
      rewrite app_nil_l. split; [by apply build_coherent|done|cbn; lia|done|by rewrite Et].
    - unfold execute_foreach_loop in Hb. rewrite bind_get in Hb.
      destruct (resolve_collection _ _) as [l|].
      + right. eapply iterations_sound; [done|congruence| |exact Hb]. lia.
      + left. injection Hb as <- _. eauto. }
  rewrite (bind_ok _ _ _ _ _ Hb).
  destruct (result_addr (yl_id spec)) as (i & k & Ha).
  destruct (lw_set_spec _ (result_value res) _ w1 Ha eq_refl) as (w2 & Hset & Hget).
  rewrite (bind_ok _ _ _ _ _ Hset). by exists res.
Qed.

(** ** Parallel iterations and their tasks *)

(** The steps of a loop that become tasks. *)
Definition script_steps (steps : list YamlNode) : list YamlStep :=
  omap (λ n, match n with
             | StepNode s _ => if is_breakpoint s then None else Some s
             | LoopNode _ _ => None
             end) steps.

Lemma length_tasks spec steps run_id i :
  length (build_iteration_tasks spec steps run_id i) = length (script_steps steps).
Proof.
  unfold build_iteration_tasks, script_steps.
  induction steps as [|[s inner|l b] steps IH]; cbn; [done| |done].
  destruct (is_breakpoint s); cbn; [done|by rewrite IH].
Qed.

Lemma results_of_nil l i : results_of [] l i = [].
Proof. done. Qed.

Lemma results_of_app o o' l l' i :
  length o = length l → results_of (o ++ o') (l ++ l') i = results_of o l i ++ results_of o' l' i.
Proof.
  intros Hl. unfold results_of. by rewrite zip_with_app, filter_app, fmap_app.
Qed.

Lemma results_of_replicate a l i :
  results_of (replicate (length l) a) l i = if decide (a = i) then l else [].
Proof.
  unfold results_of. induction l as [|r l IH]; cbn; [by case_decide|].
  revert IH. destruct (decide (a = i)); intros IH; [|exact IH].
  rewrite fmap_cons. f_equal. exact IH.
Qed.

Lemma results_of_absent o l i : i ∉ o → results_of o l i = [].
Proof.
  unfold results_of. revert l. induction o as [|a o IH]; intros [|r l] Hi; try done.
  apply not_elem_of_cons in Hi as [Ha Ho]. cbn. rewrite decide_False by congruence.
  by apply IH.
Qed.

(** The grouping by owner cuts the results in slices of the tasks per iteration. *)
Lemma results_of_slice k n a l i :
  length l = n * k → (a ≤ i < a + Z.of_nat n)%Z →
  results_of (seqZ a (Z.of_nat n) ≫= λ j, replicate k j) l i
  = take k (drop (Z.to_nat (i - a) * k) l).
Proof.
  revert a l. induction n as [|n IH]; intros a l Hl Hi; [lia|].
  rewrite seqZ_cons by lia. replace (Z.pred (Z.of_nat (S n))) with (Z.of_nat n) by lia.
  replace (Z.succ a) with (a + 1)%Z by lia. cbn [mbind list_bind].
  rewrite <- (take_drop k l) at 1. assert (length (take k l) = k) as Hk
    by (rewrite length_take; lia).
  rewrite results_of_app by (by rewrite length_replicate).
  rewrite <- Hk at 1. rewrite results_of_replicate. case_decide as Ha.
  - subst a. rewrite Z.sub_diag, results_of_absent, app_nil_r; [done|].
    intros (j & Hj & Hin)%list_elem_of_bind. apply elem_of_replicate in Hj as [-> _].
    apply elem_of_seqZ in Hin. lia.
  - cbn [app]. rewrite IH by (rewrite ?length_drop; lia). rewrite drop_drop.
    do 2 f_equal. replace (Z.to_nat (i - a)) with (S (Z.to_nat (i - (a + 1)))) by lia. cbn. lia.
Qed.

Lemma lw_set_var_ok loop_id i key value w :
  (lw_set_loop_variable loop_id i key value w).1 = Ok tt.
Proof.
  unfold lw_set_loop_variable, loop_var_name.
  set (rest := loop_id +:+ "." +:+ pretty i +:+ "." +:+ key).
  assert (cut ("loop." +:+ rest) = Some ("loop", rest)) as Hc by by apply cut_spec.
  destruct (cut rest) as [[id k]|] eqn:Hk.
  - destruct (lw_set_spec ("loop." +:+ rest) value (ALoop id k) w) as (w' & -> & _); try done.
    unfold parse_addr. rewrite Hc. cbn. by rewrite Hk.
  - apply cut_None in Hk. unfold rest in Hk. rewrite free_of_app in Hk.
    by apply andb_true_iff in Hk as [_ Hk].
Qed.

Lemma for_each_ok {A} (body : A → M (LoopWorld X) unit) l w :
  (∀ x w, (body x w).1 = Ok tt) → (for_each l body w).1 = Ok tt.
Proof.
  intros Hb. revert w. induction l as [|x l IH]; intros w; [done|]. cbn [for_each].
  rewrite bind_unit by apply Hb. apply IH.
Qed.

Lemma settle_ok spec count res_of idx w : ∃ rs, (settle_iterations spec count res_of idx w).1 = Ok rs.
Proof.
  revert w. induction idx as [|i idx IH]; intros w; [by exists []|]. cbn [settle_iterations].
  assert (∃ r, (settle_iteration spec count i (res_of i) w).1 = Ok r) as [r Hr].
  { unfold settle_iteration. destruct (collect_results _ _) as [[st e] o].
    rewrite bind_unit by (apply for_each_ok; intros; apply lw_set_var_ok).
    rewrite bind_unit by done. by eexists. }
  destruct (settle_iteration _ _ _ _ w) as [x w1] eqn:Es. cbn in Hr. subst x.
  rewrite (bind_ok _ _ _ _ _ Es). destruct (IH w1) as [rs Hrs].
  destruct (settle_iterations _ _ _ _ w1) as [x w2] eqn:Et. cbn in Hrs. subst x.
  rewrite (bind_ok _ _ _ _ _ Et). by exists (r :: rs).
Qed.

(** The concurrency a parallel loop asks for. *)
Definition concurrency (spec : LoopSpec) : option Z :=
  let m := yl_max_iterations spec in
  if negb (m =? 0)%Z && (m <? 1000)%Z then Some m else None.

(** Parallel iterations get their own results. When the executor returns for the
    batch of all the script steps of all the iterations ([k] per iteration, nested loops
    and breakpoints left out), the loop returns too, with one result per iteration, in
    order; that of iteration [i] is read off the [i]-th slice of [k] results: the first
    failure in it decides status and error, and the outputs before it are merged. *)
Theorem parallel_iterations_own_results spec steps run_id count set_var
    (w w1 w2 : LoopWorld X) results :
  let tasks_of := build_iteration_tasks spec steps run_id in
  let k := length (script_steps steps) in
  0 < k → (0 < count)%Z →
  for_each (seqZ 0 count) set_var w = (Ok tt, w1) →
  execute_batch (seqZ 0 count ≫= tasks_of) (concurrency spec) w1 = (Ok results, w2) →
  (execute_iterations_parallel spec count set_var tasks_of w).1 =
  Ok (build_loop_result spec
        ((λ i, let '(status, error, outputs) :=
                 collect_results (take k (drop (Z.to_nat i * k) results)) ∅ in
               mkIteration i status outputs error) <$> seqZ 0 count)).
Proof.
  intros tasks_of k Hk Hcount Hvars Hbatch. unfold execute_iterations_parallel.
  rewrite (bind_ok _ _ _ _ _ Hvars).
  pose proof (execute_batch_length _ _ _ _ _ Hbatch) as Hlen.
  assert (length (seqZ 0 count ≫= tasks_of) = Z.to_nat count * k) as Hall.
  { rewrite <- (length_seqZ 0 count). generalize (seqZ 0 count) as l. intros l.
    induction l as [|i l IH]; [done|]. rewrite bind_cons, length_app, IH.
    unfold tasks_of. rewrite length_tasks. cbn. unfold k. lia. }
  destruct (seqZ 0 count ≫= tasks_of) as [|t ts] eqn:Et; [cbn in Hall; lia|].
  rewrite (bind_ok _ _ _ _ _ Hbatch).
  set (res_of := results_of _ _). destruct (settle_ok spec count res_of (seqZ 0 count) w2) as [rs Hrs].
  destruct (settle_iterations _ _ _ _ w2) as [x w3] eqn:Es. cbn in Hrs. subst x.
  rewrite (bind_ok _ _ _ _ _ Es). apply settle_iterations_spec in Es as ->. cbn. do 2 f_equal.
  apply list_fmap_ext. intros j i Hj. apply lookup_seqZ in Hj as [-> Hj].
  replace (res_of (0 + Z.of_nat j)%Z) with (take k (drop (Z.to_nat (0 + Z.of_nat j) * k) results));
    [done|].
  unfold res_of. rewrite <- (Z2Nat.id count) by lia.
  rewrite (list_bind_ext _ (λ j, replicate k j) _ (seqZ 0 (Z.of_nat (Z.to_nat count)))).
  - rewrite results_of_slice; [by rewrite Z.sub_0_r|lia|lia].
  - intros a. unfold tasks_of. by rewrite length_tasks.
  - done.
Qed.

(** A parallel loop does not run its nested loops, and reports its iterations PASSED. *)
Lemma parallel_drops_nested run_id spec steps (w : LoopWorld X) :
  yl_type spec = FOR → yl_mode spec = PARALLEL → script_steps steps = [] →
  (execute_loop run_id (LoopNode spec steps) w).1 =
  Ok (build_loop_result spec
        ((λ i, mkIteration i PASSED ∅ None) <$> seqZ 0 (default 0%Z (yl_count spec)))).
Proof.
  intros Ht Hm Hs. cbn [execute_loop]. unfold execute_with. rewrite Ht.
  unfold execute_for_loop, execute_iterations. rewrite Hm.
  set (count := default 0%Z (yl_count spec)). set (tasks_of := build_iteration_tasks _ _ _).
  assert (seqZ 0 count ≫= tasks_of = []) as Hnil.
  { generalize (seqZ 0 count) as l. induction l as [|i l IH]; [done|]. rewrite bind_cons, IH.
    rewrite app_nil_r. apply nil_length_inv. unfold tasks_of. by rewrite length_tasks, Hs. }
  set (r := build_loop_result _ _).
  assert (∃ w1, execute_iterations_parallel spec count
    (set_iteration_var spec (or_str (yl_iterator_var spec) "i") None) tasks_of w = (Ok r, w1))
    as [w1 Hr].
  { unfold execute_iterations_parallel. rewrite Hnil.
    rewrite bind_unit by (apply for_each_ok; intros; apply lw_set_var_ok).
    rewrite bind_unit by (by apply for_each_ok). by eexists. }
  unfold try_except, bind at 1. rewrite Hr.
  destruct (result_addr (yl_id spec)) as (i & k & Ha).
  destruct (lw_set_spec _ (result_value r) _ w1 Ha eq_refl) as (w2 & Hset & _).
  by rewrite (bind_ok _ _ _ _ _ Hset).
Qed.
End executor.

(** ** A concrete run *)

(** An executor whose script fails in step "L_iter1_a" and passes elsewhere. *)
Definition toy_run (t : ExecuteTask) : StepResult :=
  if decide (et_step_id t = "L_iter1_a") then mkStepResult FAILED [] (Some "out of limits")
  else mkStepResult PASSED [("v", PyInt 1)] None.

#[local] Program Instance toy_env : LoopEnv unit := {|
  execute_async t := ret (toy_run t);
  execute_batch tasks _ := ret (toy_run <$> tasks);
  breakpoint_hook := None;
  py_eval _ _ := None;
  result_value r := PyStr (status_value (lr_status r))
|}.
Next Obligation. intros tasks n w l w' [= <- _]. apply length_fmap. Defined.

Definition toy_spec : LoopSpec := mkLoop "L" FOR (Some 2%Z) None None None PARALLEL 1000 None None [].
Definition toy_step (id : string) : YamlNode := StepNode (default_step id) [].
Definition toy_steps : list YamlNode := [toy_step "a"; toy_step "b"].
Definition toy_world : LoopWorld unit := mkLW (vs_init false) bus_init true 0 tt.
Definition toy_set_var : Z → M (LoopWorld unit) unit := set_iteration_var toy_spec "i" None.

Lemma parallel_iterations_own_results_witness :
  (λ r : LoopResult, ir_status <$> lr_iterations r) <$>
    match (execute_iterations_parallel toy_spec 2 toy_set_var
             (build_iteration_tasks toy_spec toy_steps None) toy_world).1 with
    | Ok r => Some r | Raise _ => None end
  = Some [PASSED; FAILED].
Proof.
  rewrite (parallel_iterations_own_results toy_spec toy_steps None 2 toy_set_var toy_world
    (for_each (seqZ 0 2) toy_set_var toy_world).2
    (for_each (seqZ 0 2) toy_set_var toy_world).2
    (toy_run <$> (seqZ 0 2 ≫= build_iteration_tasks toy_spec toy_steps None)));
    [reflexivity|vm_compute; lia|lia|reflexivity|reflexivity].
Defined.
