(* ===== verification/LoopStep.v ===== *)
(** * Loop steps of the scheduler (scanner_scheduler.py, execute_loop_step)

    The loop executor of [LoopExecutor.v] run by the scheduler, on the scheduler's own
    variable space and event bus, and between two updates of the registry. *)

From S2P Require Import Prelude PyDict PyStr Types VariableSpace EventBus ResourceManager ConditionEvaluator StepRegistry EdgeBreakpoints UutSync StateSnapshot Scheduler Dispatch Dsl LoopExecutor.

Section loop_step.
Context {E : SchedulerEnv} {L : LoopEnv World}.

(** What the other tasks do until an operator resumes a paused scheduler. *)
Variable until_resumed : M World unit.

(** ** Shared state

    The executor works on the scheduler's variables and bus themselves. *)
Definition loop_view (w : World) : LoopWorld World :=
  mkLW (w_vs w) (w_bus w) true (os_now (w_os w)) w.
Definition loop_back (lw : LoopWorld World) : World :=
  set_vs (lw_vs lw) (set_bus (lw_bus lw) (lw_rest lw)).

Definition on_loop {A} (m : M (LoopWorld World) A) : M World A := λ w,
  let '(r, lw) := m (loop_view w) in (r, loop_back lw).
Definition on_scheduler {A} (m : M World A) : M (LoopWorld World) A := λ lw,
  let '(r, w) := m (loop_back lw) in (r, loop_view w).

(** [_breakpoint_hook]: pause, then wait for the resume. *)
Definition loop_breakpoint_hook (s : YamlStep) : M (LoopWorld World) unit :=
  on_scheduler (pause ;;; until_resumed).

(** The executor the scheduler creates: its hook, and the executor it was given. *)
Definition scheduler_loop_env : LoopEnv World := {|
  execute_async := execute_async;
  execute_batch := execute_batch;
  breakpoint_hook := Some loop_breakpoint_hook;
  py_eval := py_eval;
  result_value := result_value;
  execute_batch_length := execute_batch_length
|}.

Definition execute_loop_step (run_id : option string) (spec : LoopSpec)
    (steps : list YamlNode) : M World LoopResult :=
  loop_step_begin (yl_id spec) ;;;
  result <- on_loop (execute_loop (H := scheduler_loop_env) run_id (LoopNode spec steps)) ;;
  loop_step_end (yl_id spec) (lr_status result) ;;;
  ret result.

(** ** Properties *)

Lemma reg_update_cases i st w :
  (∃ m, sr_steps (w_reg w) !! i = None ∧ reg_update i st w = (Raise (KeyError m), w)) ∨
  (∃ w', reg_update i st w = (Ok tt, w') ∧ sr_steps (w_reg w') !! i = Some st ∧ w_vs w' = w_vs w).
Proof.
  destruct (sr_steps (w_reg w) !! i) as [old|] eqn:Hi.
  - right. destruct (reg_update_registered i st w) as [b ->]; [by apply elem_of_keys; eauto|].
    eexists. split; [reflexivity|]. cbn. by rewrite dict_lookup_insert, decide_True.
  - left. unfold reg_update, zoom, update_status. rewrite Hi. eexists. split; [done|].
    by destruct w.
Qed.

Lemma loop_step_begin_spec i w :
  is_Some (sr_steps (w_reg w) !! i) ∨ is_blank i = false →
  ∃ w', loop_step_begin i w = (Ok tt, w') ∧ sr_steps (w_reg w') !! i = Some RUNNING.
Proof.
  intros Hi. unfold loop_step_begin, update_or_register, try_except.
  destruct (reg_update_cases i RUNNING w) as [(m & Hn & ->)|(w' & -> & Hs & _)]; [|eauto].
  destruct Hi as [[? ?]|Hb]; [congruence|].
  set (reg' := (register i None None (w_reg w)).2).
  assert (on_reg (register i None None) w = (Ok tt, set_reg reg' w)
          ∧ is_Some (sr_steps reg' !! i)) as [Hreg [st Hst]].
  { unfold reg', on_reg, zoom, register. rewrite Hb, bind_get.
    unfold has_key. rewrite Hn. cbn. split; [done|]. by rewrite dict_lookup_insert, decide_True. }
  rewrite (bind_ok _ _ _ _ _ Hreg).
  destruct (reg_update_cases i RUNNING (set_reg reg' w)) as [(m' & Hn' & _)|(w' & -> & Hs & _)].
  - cbn in Hn'. congruence.
  - eauto.
Qed.

Lemma loop_step_end_spec i st w :
  ∃ w', loop_step_end i st w = (Ok tt, w') ∧ w_vs w' = w_vs w
        ∧ (sr_steps (w_reg w') !! i = None ∨ sr_steps (w_reg w') !! i = Some st).
Proof.
  unfold loop_step_end, try_except.
  destruct (reg_update_cases i st w) as [(m & Hn & ->)|(w' & -> & Hs & Hv)]; eauto 6.
Qed.

(** C7. A loop step, whatever its steps, its nested loops and the scripts do, and whatever
    else runs meanwhile (pauses at breakpoints included). It always ends, with a result
    and never with an exception; it ran with the status RUNNING; the result is stored as
    [loop.<id>.result], and its status in the registry (unless the step has been
    unregistered meanwhile). Either the loop could not run to its end, and the result is
    an ERROR with a message and no iteration; or the result is sound: its iterations are
    numbered from 0, each PASSED, FAILED or ERROR, the counters agree with them, it is
    PASSED exactly if all passed (else FAILED), there are at most as many as [count],
    [max_iterations] or the length of the collection say, iterations in sequence stop at
    the first failure, and a parallel or passed FOR or FOREACH loop ran them all. *)
Theorem execute_loop_step_contract run_id spec steps w
    (Hid : is_Some (sr_steps (w_reg w) !! yl_id spec) ∨ is_blank (yl_id spec) = false) :
  let '(r, w') := execute_loop_step run_id spec steps w in
  ∃ res w1,
    loop_step_begin (yl_id spec) w = (Ok tt, w1) ∧
    sr_steps (w_reg w1) !! yl_id spec = Some RUNNING ∧
    r = Ok res ∧
    get_loop_result (w_vs w') (yl_id spec) = result_value res ∧
    (sr_steps (w_reg w') !! yl_id spec = None
     ∨ sr_steps (w_reg w') !! yl_id spec = Some (lr_status res)) ∧
    ((∃ msg, res = error_result spec msg)
     ∨ sound spec (iteration_bound (H := scheduler_loop_env) spec (loop_view w1)) res).
Proof.
  destruct (loop_step_begin_spec _ _ Hid) as (w1 & Hb & Hrun).
  pose proof (execute_loop_sound (H := scheduler_loop_env) run_id spec steps (loop_view w1)) as Hl.
  unfold execute_loop_step. rewrite (bind_ok _ _ _ _ _ Hb).
  assert (∃ r lw, execute_loop (H := scheduler_loop_env) run_id (LoopNode spec steps)
                    (loop_view w1) = (r, lw)) as (r & lw & Hex)
    by (eexists _, _; apply surjective_pairing).
  rewrite Hex in Hl. destruct Hl as (res & -> & Hget & Hres).
  rewrite (bind_ok _ _ _ res (loop_back lw)) by (unfold on_loop; by rewrite Hex).
  destruct (loop_step_end_spec (yl_id spec) (lr_status res) (loop_back lw)) as (w2 & He & Hv & Hst).
  rewrite (bind_ok _ _ _ _ _ He). exists res, w1. by rewrite Hv.
Qed.
End loop_step.

(** ** A concrete run: a FOR loop of three iterations over one passing script. *)
#[local] Existing Instance plain_env.

#[local] Program Instance passing_scripts : LoopEnv World := {|
  execute_async _ := ret (mkStepResult PASSED [("v", PyInt 5)] None);
  execute_batch tasks _ := ret (replicate (length tasks) (mkStepResult PASSED [] None));
  breakpoint_hook := None;
  py_eval _ _ := None;
  result_value r := PyInt (lr_total r)
|}.
Next Obligation. intros tasks n w l w' [= <- _]. apply length_replicate. Defined.

Definition three_times : LoopSpec := mkLoop "L" FOR (Some 3%Z) None None None SERIAL 1000 None None [].
Definition one_step : list YamlNode := [StepNode (default_step "a") []].
Definition loop_start : World := new_scheduler (reg_init true) (vs_init true) (rm_init true)
  None None None None None bus_init plain_os.

Lemma execute_loop_step_contract_witness :
  let '(r, w') := execute_loop_step (ret tt) None three_times one_step loop_start in
  ∃ res, r = Ok res ∧ get_loop_result (w_vs w') "L" = PyInt (lr_total res).
Proof.
  pose proof (execute_loop_step_contract (ret tt) None three_times one_step loop_start
                (or_intror eq_refl)) as H.
  destruct (execute_loop_step _ _ _ _ _) as [r w'].
  destruct H as (res & w1 & _ & _ & Hr & Hget & _). exists res. split; [exact Hr|exact Hget].
Defined.

(** The same run, evaluated: three iterations, all passed. *)
Example three_times_run :
  (λ r : LoopResult, (lr_total r, lr_passed r, lr_failed r, lr_status r)) <$>
    match (execute_loop_step (ret tt) None three_times one_step loop_start).1 with
    | Ok r => Some r | Raise _ => None end
  = Some (3%Z, 3%Z, 0%Z, PASSED).
Proof. vm_compute. reflexivity. Qed.
