(* ===== verification/Parser.v ===== *)
(** * The YAML parser (src/src/ate_platform/dsl/parser.py)

    [YamlParser]: from the value [yaml.safe_load] returns to steps and loops. The parser copies
    most entries as they come, whatever their type, so what it builds is a [ParsedPlan] of Python
    values; PlanFiles.v says when they have the types that src/src/shared/dsl.py declares, and
    Validation.v models the check of such plans. Opening the file and [yaml.safe_load] are
    parameters. Nested entries are parsed with as much fuel as the value is deep, which is
    enough ([parse_node_eq]). *)

From S2P Require Import Prelude PyDict PyStr Dsl.

(** ** What the parser builds *)

Record ParsedStep : Type := mkParsedStep {
  ps_id : pyval;
  ps_type : option StepType;
  ps_script : pyval;
  ps_params : pyval;
  ps_preconditions : pyval;
  ps_depends_on : pyval;
  ps_resources : pyval;
  ps_timeout : pyval;
  ps_retry : pyval;
  ps_on_fail : pyval;
  ps_on_failure : pyval;
  ps_uut_affinity : pyval;
  ps_barrier_name : pyval;
  ps_action : pyval;
  ps_fixture_id : pyval;
  ps_export_outputs : pyval;
  ps_skip_if : pyval;
  ps_skip_reason : pyval;
  ps_condition : pyval
}.
Record ParsedLoop : Type := mkParsedLoop {
  pl_id : pyval;
  pl_type : LoopType;
  pl_count : pyval;
  pl_condition : pyval;
  pl_collection : pyval;
  pl_iterator_var : pyval;
  pl_mode : ExecutionMode;
  pl_max_iterations : pyval;
  pl_skip_if : pyval;
  pl_skip_reason : pyval;
  pl_depends_on : pyval
}.
Inductive ParsedNode : Type :=
  | ParsedStepNode (s : ParsedStep)
  | ParsedLoopNode (spec : ParsedLoop) (steps : list ParsedNode).
Record ParsedPlan : Type := mkParsedPlan {
  pp_name : pyval;
  pp_version : pyval;
  pp_scope : pyval;
  pp_max_concurrency : pyval;
  pp_uut_count : pyval;
  pp_fixture_id : pyval;
  pp_steps : list ParsedNode
}.

(** ** Values *)

Definition ydict : Type := list (pyval * pyval).

Definition AttributeError (v : pyval) (attr : string) : exc :=
  CustomError "AttributeError" ("'" +:+ type_name v +:+ "' object has no attribute '" +:+ attr +:+ "'").

(** [v.get(...)], and [v.upper()] *)
Definition as_dict (v : pyval) : res ydict :=
  match v with PyMap d => Ok d | _ => Raise (AttributeError v "get") end.
Definition upper (v : pyval) : res string :=
  match v with PyStr s => Ok (py_upper s) | _ => Raise (AttributeError v "upper") end.

Definition has_entry (k : string) (d : ydict) : bool :=
  existsb (λ kv, bool_decide (as_str kv.1 = Some k)) d.
Definition dget (d : ydict) (k : string) (default : pyval) : pyval := map_get_default k default d.

(** [d[k] = v] *)
Fixpoint dset (d : ydict) (k : string) (v : pyval) : ydict :=
  match d with
  | [] => [(PyStr k, v)]
  | (k', v') :: d' => if decide (as_str k' = Some k) then (k', v) :: d' else (k', v') :: dset d' k v
  end.

(** [dict(v)]; the keys of a sequence of pairs that are equal numbers are not merged. *)
Definition pair_of (i : nat) (e : pyval) : res (pyval * pyval) :=
  let element := "dictionary update sequence element #" +:+ pretty i in
  match py_iter e with
  | Ok [PyList _; _] => Raise (TypeError "unhashable type: 'list'")
  | Ok [PyMap _; _] => Raise (TypeError "unhashable type: 'dict'")
  | Ok [k; v] => Ok (k, v)
  | Ok l => Raise (ValueError (element +:+ " has length " +:+ pretty (length l) +:+ "; 2 is required"))
  | Raise _ => Raise (TypeError ("cannot convert " +:+ element +:+ " to a sequence"))
  end.
Definition dict_copy (v : pyval) : res ydict :=
  match v with
  | PyMap d => Ok d
  | _ => l ← py_iter v;
         pairs ← mapM (λ r, r) (imap pair_of l);
         Ok (foldl (λ d kv, match kv.1 with PyStr k => dset d k kv.2 | _ => d ++ [kv] end) [] pairs)
  end.

Definition is_str (v : pyval) (s : string) : bool := bool_decide (as_str v = Some s).

(** ** Enumerations *)

Definition STEP_TYPES : list StepType :=
  [SCRIPT; ACTION; LOOP; BRANCH; BARRIER; FIXTURE_CONTROL; CALL; SUBSEQUENCE; BREAKPOINT].
Definition LOOP_TYPES : list LoopType := [FOR; WHILE; FOREACH].
Definition EXECUTION_MODES : list ExecutionMode := [SERIAL; PARALLEL].

(** [Enum(value)]: the member with that value. *)
Definition by_value {A} (value : A → string) (members : list A) (s : string) : option A :=
  head (base.filter (λ t, value t = s) members).
Definition parse_step_type (id v : pyval) : res (option StepType) :=
  match v with
  | PyNone => Ok None
  | _ => match by_value step_type_value STEP_TYPES (py_lower (py_str v)) with
         | Some t => Ok (Some t)
         | None => Raise (ValueError ("Step '" +:+ py_str id +:+ "' has invalid type '" +:+ py_str v +:+
             "'. Must be one of: " +:+ str_join ", " (step_type_value <$> STEP_TYPES)))
         end
  end.
Definition parse_loop_type (id v : pyval) : res LoopType :=
  s ← upper v;
  match by_value loop_type_value LOOP_TYPES s with
  | Some t => Ok t
  | None => Raise (ValueError ("Loop '" +:+ py_str id +:+ "' has invalid loop_type '" +:+ py_str v +:+
      "'. Must be one of: " +:+ str_join ", " (loop_type_value <$> LOOP_TYPES)))
  end.
Definition parse_mode (id : pyval) (d : ydict) : res ExecutionMode :=
  let v := dget d "execution_mode" (PyStr "SERIAL") in
  s ← upper v;
  match by_value execution_mode_value EXECUTION_MODES s with
  | Some t => Ok t
  | None => Raise (ValueError ("Loop '" +:+ py_str id +:+ "' has invalid execution_mode '" +:+ py_str v +:+
      "'. Must be one of: " +:+ str_join ", " (execution_mode_value <$> EXECUTION_MODES)))
  end.

(** ** Steps *)

Definition is_script (t : option StepType) : bool :=
  bool_decide (t ∈ [None; Some SCRIPT; Some ACTION; Some CALL]).

Definition required (d : ydict) (k : string) (message : string) : res pyval :=
  let v := dget d k PyNone in
  if py_bool v then Ok v else Raise (ValueError message).

(** [on_failure], with [on_fail] as its old name. *)
Definition failure_policy (d : ydict) : pyval := dget d "on_failure" (dget d "on_fail" PyNone).

Definition parse_resources (v : pyval) : pyval :=
  match v with
  | PyList names => PyMap (prod_map PyStr id <$> items (dict_of_list ((λ n, (py_str n, PyMap [])) <$> names)))
  | PyMap d => PyMap d
  | _ => PyMap []
  end.

Definition parse_step (d : ydict) : res ParsedStep :=
  id ← required d "id" "Step missing required field: 'id'";
  type ← parse_step_type id (dget d "type" PyNone);
  script ← (if is_script type
            then required d "script" ("Step '" +:+ py_str id +:+ "' missing required field: 'script'")
            else Ok (dget d "script" (PyStr "")));
  Ok {| ps_id := id; ps_type := type; ps_script := script;
        ps_params := dget d "params" (PyMap []);
        ps_preconditions := dget d "preconditions" (PyList []);
        ps_depends_on := dget d "depends_on" (PyList []);
        ps_resources := parse_resources (dget d "resources" (PyMap []));
        ps_timeout := dget d "timeout" (PyInt 60);
        ps_retry := dget d "retry" (PyInt 0);
        ps_on_fail := dget d "on_fail" PyNone;
        ps_on_failure := failure_policy d;
        ps_uut_affinity := dget d "uut_affinity" PyNone;
        ps_barrier_name := dget d "barrier_name" PyNone;
        ps_action := dget d "action" PyNone;
        ps_fixture_id := dget d "fixture_id" PyNone;
        ps_export_outputs := dget d "export_outputs" (PyBool false);
        ps_skip_if := dget d "skip_if" PyNone;
        ps_skip_reason := dget d "skip_reason" PyNone;
        ps_condition := PyNone |}.

(** What branches, breakpoints and subsequences have in common. *)
Definition control_step (d : ydict) (id : pyval) (t : StepType) (params condition : pyval) : ParsedStep :=
  {| ps_id := id; ps_type := Some t; ps_script := dget d "script" (PyStr "");
     ps_params := params;
     ps_preconditions := dget d "preconditions" (PyList []);
     ps_depends_on := dget d "depends_on" (PyList []);
     ps_resources := dget d "resources" (PyMap []);
     ps_timeout := dget d "timeout" (PyInt 60);
     ps_retry := dget d "retry" (PyInt 0);
     ps_on_fail := PyNone;
     ps_on_failure := failure_policy d;
     ps_uut_affinity := dget d "uut_affinity" PyNone;
     ps_barrier_name := PyNone; ps_action := PyNone; ps_fixture_id := PyNone;
     ps_export_outputs := PyBool false;
     ps_skip_if := dget d "skip_if" PyNone;
     ps_skip_reason := dget d "skip_reason" PyNone;
     ps_condition := condition |}.

Definition parse_branch (d : ydict) : res ParsedStep :=
  id ← required d "id" "Branch missing required field: 'id'";
  params ← dict_copy (dget d "params" (PyMap []));
  let params := dset params "condition" (dget d "condition" (PyStr "True")) in
  let params := dset params "then" (dget d "then" (PyList [])) in
  let params := dset params "else" (dget d "else" (PyList [])) in
  Ok (control_step d id BRANCH (PyMap params) PyNone).

Definition parse_breakpoint (d : ydict) : res ParsedStep :=
  id ← required d "id" "Breakpoint missing required field: 'id'";
  let condition := dget d "condition" PyNone in
  match condition with
  | PyNone | PyStr _ => Ok (control_step d id BREAKPOINT (dget d "params" (PyMap [])) condition)
  | _ => Raise (ValueError ("Breakpoint '" +:+ py_str id +:+ "' field 'condition' must be a string expression"))
  end.

Definition parse_subsequence (d : ydict) : res ParsedStep :=
  id ← required d "id" "Subsequence missing required field: 'id'";
  params ← dict_copy (dget d "params" (PyMap []));
  Ok (control_step d id SUBSEQUENCE (PyMap (dset params "steps" (dget d "steps" (PyList [])))) PyNone).

(** ** Loops *)

Section loops.
Context (parse_nested : pyval → res ParsedNode).

Definition loop_body (d : ydict) : res (list ParsedNode) :=
  l ← py_iter (dget d "steps" (PyList []));
  mapM parse_nested l.
Definition build_loop (d : ydict) (id : pyval) (t : LoopType) (mode : ExecutionMode) (depends_on : pyval) :
    ParsedLoop :=
  {| pl_id := id; pl_type := t;
     pl_count := dget d "count" PyNone;
     pl_condition := dget d "condition" PyNone;
     pl_collection := dget d "collection" PyNone;
     pl_iterator_var := dget d "iterator_var" PyNone;
     pl_mode := mode;
     pl_max_iterations := dget d "max_iterations" (PyInt 1000);
     pl_skip_if := PyNone; pl_skip_reason := PyNone;
     pl_depends_on := depends_on |}.

Definition parse_loop (d : ydict) : res ParsedNode :=
  id ← required d "id" "Loop missing required field: 'id'";
  t ← required d "loop_type" ("Loop '" +:+ py_str id +:+ "' missing required field: 'loop_type'");
  loop_type ← parse_loop_type id t;
  steps ← loop_body d;
  mode ← parse_mode id d;
  Ok (ParsedLoopNode (build_loop d id loop_type mode (PyList [])) steps).

(** The type of a v3.2 loop follows from its entries. *)
Definition implied_loop_type (condition collection iterator_var : bool) : LoopType :=
  if condition then WHILE else if collection || iterator_var then FOREACH else FOR.
Definition parse_loop_v32 (d : ydict) : res ParsedNode :=
  id ← required d "id" "Loop missing required field: 'id'";
  let entry k := py_bool (dget d k PyNone) in
  steps ← loop_body d;
  mode ← parse_mode id d;
  Ok (ParsedLoopNode
    (build_loop d id (implied_loop_type (entry "condition") (entry "collection") (entry "iterator_var"))
      mode (dget d "depends_on" (PyList []))) steps).

Definition parse_entry (data : pyval) : res ParsedNode :=
  d ← as_dict data;
  let step_type := dget d "type" PyNone in
  if is_str step_type "loop" then parse_loop_v32 d
  else if is_str step_type "branch" then ParsedStepNode <$> parse_branch d
  else if is_str step_type "breakpoint" then ParsedStepNode <$> parse_breakpoint d
  else if is_str step_type "subsequence" then ParsedStepNode <$> parse_subsequence d
  else if has_entry "loop_type" d then parse_loop d
  else ParsedStepNode <$> parse_step d.
End loops.

Fixpoint parse_step_or_loop (fuel : nat) (data : pyval) : res ParsedNode :=
  match fuel with
  | O => Raise (OtherError "out of fuel")
  | S fuel' => parse_entry (parse_step_or_loop fuel') data
  end.

(** How deep a value is nested. *)
Fixpoint depth (v : pyval) : nat :=
  match v with
  | PyList l => S (max_list (map depth l))
  | PyMap d => S (max_list (map (λ kv, depth kv.1 `max` depth kv.2) d))
  | _ => 0
  end.
Definition parse_node (data : pyval) : res ParsedNode := parse_step_or_loop (S (depth data)) data.

(** ** Plans *)

Definition parse_data (data : pyval) : res ParsedPlan :=
  match data with
  | PyMap d =>
      name ← required d "name" "Missing required field: 'name'";
      version ← required d "version" "Missing required field: 'version'";
      scope ← required d "scope" "Missing required field: 'scope'";
      scope ← match scope with
              | PyStr _ => Ok (PyMap [(PyStr "name", scope)])
              | PyMap _ => Ok scope
              | _ => Raise (ValueError "Scope must be a string or dictionary")
              end;
      l ← py_iter (dget d "steps" (PyList []));
      steps ← mapM parse_node l;
      Ok (mkParsedPlan name version scope (dget d "max_concurrency" (PyInt 1)) (dget d "uut_count" (PyInt 1))
        (dget d "fixture_id" PyNone) steps)
  | _ => Raise (ValueError "YAML content must be a dictionary")
  end.

(** [parse], on the text of the file at a path, if there is one. *)
Definition parse (safe_load : string → res pyval) (path : string) (file : option string) : res ParsedPlan :=
  match file with
  | None => Raise (CustomError "FileNotFoundError" ("YAML file not found: " +:+ path))
  | Some text => data ← safe_load text; parse_data data
  end.

(** ** Enough fuel *)

Lemma dget_value (d : ydict) k v : dget d k v = v ∨ ∃ kv, kv ∈ d ∧ dget d k v = kv.2.
Proof.
  unfold dget. induction d as [|[k' v'] d IH]; [by left|]. cbn.
  assert (map_get_default k v d = v ∨ ∃ kv, kv ∈ (k', v') :: d ∧ map_get_default k v d = kv.2) as IH'
    by (destruct IH as [?|(kv & ? & ?)]; [by left|right; exists kv; split; [by right|done]]).
  destruct k'; try exact IH'. case_decide; [|exact IH']. right. exists (PyStr s, v'). by split; [left|].
Qed.

Lemma max_list_elem {A} (f : A → nat) (x : A) l : x ∈ l → f x ≤ max_list (map f l).
Proof. induction 1; cbn; lia. Qed.

(** The entries of "steps" are less deep than the dictionary they are in. *)
Lemma nested_depth (d : ydict) l x :
  py_iter (dget d "steps" (PyList [])) = Ok l → x ∈ l → depth x < depth (PyMap d).
Proof.
  destruct (dget_value d "steps" (PyList [])) as [->|(kv & Hkv & ->)].
  { cbn. intros [= <-] ?%elem_of_nil. done. }
  pose proof (max_list_elem (λ kv, depth kv.1 `max` depth kv.2) kv d Hkv) as Hmax. cbn in Hmax.
  cbn [depth]. enough (∀ w, py_iter w = Ok l → x ∈ l → depth x <= depth w) as H.
  { intros E Hx. specialize (H kv.2 E Hx). lia. }
  intros w. destruct w as [| | | |s|l'|d'|]; cbn; intros [= <-] Hin; try done.
  - apply list_elem_of_fmap in Hin as (a & -> & _). cbn. lia.
  - pose proof (max_list_elem depth x l' Hin). lia.
  - apply list_elem_of_fmap in Hin as (kv' & -> & Hin).
    pose proof (max_list_elem (λ kv, depth kv.1 `max` depth kv.2) kv' d' Hin) as H. cbn in H. lia.
Qed.

Lemma mapM_ext_in {A B} (f g : A → res B) l : (∀ x, x ∈ l → f x = g x) → mapM f l = mapM g l.
Proof.
  induction l as [|x l IH]; intros H; [done|]. cbn.
  rewrite (H x) by left. rewrite IH; [done|]. intros. apply H. by right.
Qed.
Lemma parse_entry_ext f g data :
  (∀ d l x, data = PyMap d → py_iter (dget d "steps" (PyList [])) = Ok l → x ∈ l → f x = g x) →
  parse_entry f data = parse_entry g data.
Proof.
  intros H. unfold parse_entry. destruct data as [| | | | | |d|]; try done. cbn [as_dict mbind res_mbind res_bind].
  assert (loop_body f d = loop_body g d) as E.
  { unfold loop_body. destruct (py_iter _) as [l|e] eqn:El; [|done]. cbn.
    apply mapM_ext_in. intros. by eapply H. }
  unfold parse_loop_v32, parse_loop. by rewrite E.
Qed.
Lemma parse_fuel n m data : depth data < n → depth data < m → parse_step_or_loop n data = parse_step_or_loop m data.
Proof.
  revert m data. induction n as [|n IH]; intros m data Hn Hm; [lia|]. destruct m as [|m]; [lia|]. cbn [parse_step_or_loop].
  apply parse_entry_ext. intros d l x -> El Hx. pose proof (nested_depth d l x El Hx). apply IH; lia.
Qed.
Lemma parse_node_eq data : parse_node data = parse_entry parse_node data.
Proof.
  unfold parse_node at 1. cbn [parse_step_or_loop]. apply parse_entry_ext. intros d l x -> El Hx.
  pose proof (nested_depth d l x El Hx). apply parse_fuel; lia.
Qed.
Lemma depth_ind (P : pyval → Prop) :
  (∀ v, (∀ w, depth w < depth v → P w) → P v) → ∀ v, P v.
Proof. intros H v. apply (induction_ltof1 _ depth). exact H. Qed.

(** ** Errors *)

Section errors.
Context (E : exc → Prop) (Hvalue : ∀ m, E (ValueError m)).

Definition fails {A} (r : res A) : Prop := ∀ e, r = Raise e → E e.

Lemma fails_ok {A} (a : A) : fails (Ok a).
Proof. by intros e. Qed.
Lemma fails_value {A} m : fails (Raise (A := A) (ValueError m)).
Proof. by intros e [= <-]. Qed.
Lemma fails_bind {A B} (r : res A) (k : A → res B) :
  fails r → (∀ a, r = Ok a → fails (k a)) → fails (r ≫= k).
Proof. intros Hr Hk. destruct r as [a|e]; [by apply Hk|]. intros e' [= <-]. by apply Hr. Qed.
Lemma fails_map {A B} (f : A → B) (r : res A) : fails r → fails (f <$> r).
Proof. intros Hr. destruct r as [a|e]; [done|]. intros e' [= <-]. by apply Hr. Qed.
Lemma fails_mapM {A B} (f : A → res B) l : (∀ x, x ∈ l → fails (f x)) → fails (mapM f l).
Proof. intros H e (x & Hx & He)%res_mapM_Raise. by eapply (H x). Qed.

(** Follows the code to its exceptions. *)
Ltac fails_auto :=
  repeat first
    [ assumption | apply fails_ok | apply fails_value | apply fails_map
    | apply fails_mapM; intros ?? | apply fails_bind; [|intros ??] | case_match ].

Lemma required_fails d k m : fails (required d k m).
Proof. unfold required. fails_auto. Qed.
Lemma parse_step_type_fails id v : fails (parse_step_type id v).
Proof. unfold parse_step_type. fails_auto. Qed.
Lemma parse_step_fails d : fails (parse_step d).
Proof. unfold parse_step. fails_auto; auto using required_fails, parse_step_type_fails. Qed.
Lemma parse_breakpoint_fails d : fails (parse_breakpoint d).
Proof. unfold parse_breakpoint. fails_auto; apply required_fails. Qed.

(** A step or loop fails with what its parts may fail with: the nested entries, the copy of the
    parameters, and the two words that are read in capitals. *)
Lemma parse_entry_fails f d :
  fails (loop_body f d) → fails (dict_copy (dget d "params" (PyMap []))) →
  (py_bool (dget d "loop_type" PyNone) = true → fails (upper (dget d "loop_type" PyNone))) →
  fails (upper (dget d "execution_mode" (PyStr "SERIAL"))) →
  fails (parse_entry f (PyMap d)).
Proof.
  intros Hbody Hparams Htype Hmode.
  assert (∀ id, fails (parse_mode id d)) by (intros id; unfold parse_mode; fails_auto).
  assert (∀ id t m, required d "loop_type" m = Ok t → fails (parse_loop_type id t)).
  { intros id t m. unfold required. case_match; intros [= <-]. unfold parse_loop_type. fails_auto. auto. }
  unfold parse_entry. cbn [as_dict mbind res_mbind res_bind].
  repeat case_match; try apply fails_map; auto using parse_step_fails, parse_breakpoint_fails.
  - unfold parse_loop_v32. apply fails_bind; [apply required_fails|intros ? _]. fails_auto; auto.
  - unfold parse_branch. apply fails_bind; [apply required_fails|intros ? _]. by fails_auto.
  - unfold parse_subsequence. apply fails_bind; [apply required_fails|intros ? _]. by fails_auto.
  - unfold parse_loop. apply fails_bind; [apply required_fails|intros ? _].
    apply fails_bind; [apply required_fails|intros t Ht]. apply fails_bind; [eauto|intros ? _].
    apply fails_bind; [done|intros ? _]. by apply fails_bind; [|intros ? _].
Qed.
Lemma parse_data_fails d :
  fails (py_iter (dget d "steps" (PyList []))) →
  (∀ l v, py_iter (dget d "steps" (PyList [])) = Ok l → v ∈ l → fails (parse_node v)) →
  fails (parse_data (PyMap d)).
Proof.
  intros Hi Hl. unfold parse_data. do 3 (apply fails_bind; [apply required_fails|intros ? _]).
  apply fails_bind; [fails_auto|intros ? _]. apply fails_bind; [done|intros l El].
  apply fails_bind; [|intros ? _; apply fails_ok]. apply fails_mapM. eauto.
Qed.
End errors.

Definition parse_error (e : exc) : Prop :=
  (∃ m, e = ValueError m) ∨ (∃ m, e = TypeError m) ∨ ∃ m, e = CustomError "AttributeError" m.
Definition value_error (e : exc) : Prop := ∃ m, e = ValueError m.

(** Raised where the code raises one of the three. *)
Ltac fails_anyhow :=
  repeat (case_match || (apply fails_bind; [|intros ??])); intros ? [= <-]; unfold parse_error; eauto.
Lemma py_iter_fails v : fails parse_error (py_iter v).
Proof. unfold py_iter. fails_anyhow. Qed.
Lemma upper_fails v : fails parse_error (upper v).
Proof. unfold upper. fails_anyhow. Qed.
Lemma dict_copy_fails v : fails parse_error (dict_copy v).
Proof.
  assert (∀ l, fails parse_error (mapM (λ r, r) (imap pair_of l))) as H.
  { intros l. apply fails_mapM. intros r (i & x & -> & _)%elem_of_lookup_imap_1. unfold pair_of. fails_anyhow. }
  unfold dict_copy. destruct v; try apply fails_ok; (apply fails_bind; [apply py_iter_fails|intros ? _]);
    (apply fails_bind; [apply H|intros ? _; apply fails_ok]).
Qed.

Lemma parse_node_fails data : fails parse_error (parse_node data).
Proof.
  induction data as [data IH] using depth_ind. rewrite parse_node_eq. destruct data as [| | | | | |d|].
  7: { apply parse_entry_fails; auto using dict_copy_fails, upper_fails; [by left; eexists|].
       apply fails_bind; [apply py_iter_fails|]. intros l El. apply fails_mapM.
       intros x Hx. apply IH. by apply (nested_depth d l). }
  all: unfold parse_entry, as_dict; intros ? [= <-]; do 2 right; eexists; reflexivity.
Qed.

(** Entries of the documented shape: dictionaries whose "steps" are a list of such entries, whose
    parameters are a dictionary and whose two words are strings. *)
Inductive shaped : pyval → Prop :=
  shaped_entry d l params :
    dget d "steps" (PyList []) = PyList l → Forall shaped l →
    dget d "params" (PyMap []) = PyMap params →
    (py_bool (dget d "loop_type" PyNone) = true → ∃ s, dget d "loop_type" PyNone = PyStr s) →
    (∃ s, dget d "execution_mode" (PyStr "SERIAL") = PyStr s) →
    shaped (PyMap d).

Lemma shaped_fails data : shaped data → fails value_error (parse_node data).
Proof.
  induction data as [data IH] using depth_ind. intros Hs. rewrite parse_node_eq.
  destruct Hs as [d l params Hl Hall Hparams Htype [s Hmode]].
  apply parse_entry_fails; [by eexists| | | |].
  - apply fails_bind; [by rewrite Hl; apply fails_ok|]. intros l' E. rewrite Hl in E. injection E as <-.
    apply fails_mapM. intros x Hx. rewrite Forall_forall in Hall. apply IH; [|by apply Hall].
    apply (nested_depth d l); [by rewrite Hl|done].
  - rewrite Hparams. apply fails_ok.
  - intros H. destruct (Htype H) as [w ->]. apply fails_ok.
  - rewrite Hmode. apply fails_ok.
Qed.

(** Parsing ends on every value, with a plan or with a ValueError, a TypeError or an
    AttributeError. When the value is no dictionary, or its steps are a list of entries of the
    documented shape at every depth, only the documented ValueError is raised. *)
Theorem parse_errors data :
  (∀ e, parse_data data = Raise e → parse_error e) ∧
  ((∀ d, data = PyMap d → ∃ l, dget d "steps" (PyList []) = PyList l ∧ Forall shaped l) →
   ∀ e, parse_data data = Raise e → value_error e).
Proof.
  destruct data as [| | | | | |d|]; try by split; [intros e [= <-]; left|intros _ e [= <-]]; eexists.
  split.
  - apply parse_data_fails; [by left; eexists|apply py_iter_fails|]. intros. apply parse_node_fails.
  - intros H. destruct (H d eq_refl) as (l & Hl & Hall). rewrite Forall_forall in Hall.
    apply parse_data_fails; [by eexists|by rewrite Hl; apply fails_ok|].
    intros l' v E Hv. rewrite Hl in E. injection E as <-. apply shaped_fails. auto.
Qed.

(** ** Examples *)

Definition yaml_entry (l : list (string * pyval)) : pyval := PyMap (prod_map PyStr id <$> l).
Definition yaml_plan (steps : pyval) : pyval :=
  yaml_entry [("name", PyStr "plan"); ("version", PyStr "3.2"); ("scope", PyStr "line"); ("steps", steps)].
Definition entry_of (id type script : string) : pyval :=
  yaml_entry [("id", PyStr id); ("type", PyStr type); ("script", PyStr script)].

(** The documentation promises ValueError for a malformed file; an empty "steps:" is a TypeError,
    and an entry that is no dictionary an AttributeError. *)
Example malformed_files :
  parse_data (yaml_plan PyNone) = Raise (TypeError "'NoneType' object is not iterable") ∧
  parse_data (yaml_plan (PyList [PyStr "power_on"])) =
    Raise (CustomError "AttributeError" "'str' object has no attribute 'get'").
Proof. by split. Qed.

Lemma parse_errors_witness :
  let data := yaml_plan (PyList [yaml_entry [("id", PyStr "a")]]) in
  parse_data data = Raise (ValueError "Step 'a' missing required field: 'script'") ∧
  value_error (ValueError "Step 'a' missing required field: 'script'").
Proof.
  split; [done|]. apply (proj2 (parse_errors (yaml_plan (PyList [yaml_entry [("id", PyStr "a")]])))); [|done].
  intros d [= <-]. eexists. split; [reflexivity|]. apply Forall_singleton.
  by eapply shaped_entry; [reflexivity|constructor|reflexivity| |eexists].
Defined.
