(* ===== verification/PlanFiles.v ===== *)
(** * Plan files (src/src/ate_platform/dsl/parser.py, src/src/shared/dsl.py)

    Which plans the parser reads, and from which files. [typed_plan] turns what the parser builds
    into a plan of Dsl.v when its entries have the types the dataclasses declare; [render_plan] is
    the file that describes a plan, with the entries at their defaults left out. *)

From S2P Require Import Prelude PyDict PyStr Dsl Parser.

(** ** Typed plans *)

(** The entries that have the types the dataclasses declare. *)
Definition as_int (v : pyval) : option Z := match v with PyInt z => Some z | _ => None end.
Definition as_bool (v : pyval) : option bool := match v with PyBool b => Some b | _ => None end.
Definition as_strs (v : pyval) : option (list string) :=
  match v with PyList l => mapM as_str l | _ => None end.
Definition as_optional {A} (f : pyval → option A) (v : pyval) : option (option A) :=
  match v with PyNone => Some None | _ => Some <$> f v end.
Definition as_str_dict (v : pyval) : option (pydict string pyval) :=
  match v with
  | PyMap d => PyDict <$> mapM (λ kv, k ← as_str kv.1; Some (k, kv.2)) d
  | _ => None
  end.

Definition typed_step (s : ParsedStep) : option YamlStep :=
  id ← as_str (ps_id s); script ← as_str (ps_script s); params ← as_str_dict (ps_params s);
  preconditions ← as_strs (ps_preconditions s); depends_on ← as_strs (ps_depends_on s);
  resources ← as_str_dict (ps_resources s); timeout ← as_int (ps_timeout s); retry ← as_int (ps_retry s);
  on_fail ← as_optional as_str (ps_on_fail s); on_failure ← as_optional as_str (ps_on_failure s);
  uut_affinity ← as_optional as_str (ps_uut_affinity s);
  barrier_name ← as_optional as_str (ps_barrier_name s);
  action ← as_optional as_str (ps_action s); fixture_id ← as_optional as_str (ps_fixture_id s);
  export_outputs ← as_bool (ps_export_outputs s); skip_if ← as_optional as_str (ps_skip_if s);
  skip_reason ← as_optional as_str (ps_skip_reason s); condition ← as_optional as_str (ps_condition s);
  Some (mkStep id (ps_type s) script params preconditions depends_on resources timeout retry on_fail
    on_failure uut_affinity barrier_name action fixture_id export_outputs skip_if skip_reason condition).
Definition typed_loop (l : ParsedLoop) : option LoopSpec :=
  id ← as_str (pl_id l); count ← as_optional as_int (pl_count l);
  condition ← as_optional as_str (pl_condition l); collection ← as_optional as_str (pl_collection l);
  iterator_var ← as_optional as_str (pl_iterator_var l); max_iterations ← as_int (pl_max_iterations l);
  skip_if ← as_optional as_str (pl_skip_if l); skip_reason ← as_optional as_str (pl_skip_reason l);
  depends_on ← as_strs (pl_depends_on l);
  Some (mkLoop id (pl_type l) count condition collection iterator_var (pl_mode l) max_iterations
    skip_if skip_reason depends_on).
Fixpoint typed_node (n : ParsedNode) : option YamlNode :=
  match n with
  | ParsedStepNode s => (λ s, StepNode s []) <$> typed_step s
  | ParsedLoopNode l steps =>
      spec ← typed_loop l;
      nested ← mapM id (map typed_node steps);
      Some (LoopNode spec nested)
  end.
Definition typed_plan (p : ParsedPlan) : option YamlPlan :=
  name ← as_str (pp_name p); version ← as_str (pp_version p); scope ← as_str_dict (pp_scope p);
  max_concurrency ← as_int (pp_max_concurrency p); uut_count ← as_int (pp_uut_count p);
  fixture_id ← as_optional as_str (pp_fixture_id p);
  steps ← mapM typed_node (pp_steps p);
  Some (mkPlanDsl name version scope max_concurrency uut_count fixture_id steps).

(** *** Which plans a file can describe *)

Definition step_writable (s : YamlStep) : Prop :=
  ys_id s ≠ "" ∧ (is_script (ys_type s) = true → ys_script s ≠ "") ∧
  (ys_condition s ≠ None → ys_type s = Some BREAKPOINT ∧ ys_on_fail s = None ∧ ys_barrier_name s = None ∧
    ys_action s = None ∧ ys_fixture_id s = None ∧ ys_export_outputs s = false).
Definition implied_type (l : LoopSpec) : LoopType :=
  implied_loop_type (truthy (yl_condition l)) (truthy (yl_collection l)) (truthy (yl_iterator_var l)).
Definition spec_writable (l : LoopSpec) : Prop :=
  yl_id l ≠ "" ∧ yl_skip_if l = None ∧ yl_skip_reason l = None ∧
  (yl_depends_on l = [] ∨ yl_type l = implied_type l).
Inductive writable : YamlNode → Prop :=
  | writable_step s : step_writable s → writable (StepNode s [])
  | writable_loop spec steps :
      spec_writable spec → Forall writable steps → writable (LoopNode spec steps).
Definition plan_writable (p : YamlPlan) : Prop :=
  yp_name p ≠ "" ∧ yp_version p ≠ "" ∧ items (yp_scope p) ≠ [] ∧ Forall writable (yp_steps p).

(** *** Parsed plans are such plans *)

Lemma as_str_Some v s : as_str v = Some s → v = PyStr s.
Proof. destruct v; cbn; congruence. Qed.
Lemma as_opt_Some v o : as_optional as_str v = Some o → v = from_option PyStr PyNone o.
Proof. destruct v; cbn; intros; simplify_eq; done. Qed.
Lemma required_Ok d k m v : required d k m = Ok v → py_bool v = true ∧ v = dget d k PyNone.
Proof. unfold required. case_match; by intros [= <-]. Qed.
Lemma py_bool_str s : py_bool (PyStr s) = true → s ≠ "".
Proof. cbn. by rewrite negb_true_iff, bool_decide_eq_false. Qed.
Lemma py_bool_opt o : py_bool (from_option PyStr PyNone o) = truthy o.
Proof. by destruct o. Qed.

(** Opens a parse that succeeded. *)
Ltac open_parse H :=
  repeat first
    [ let x := fresh "x" in let E := fresh "E" in apply res_bind_Ok in H as (x & E & H)
    | let x := fresh "x" in let E := fresh "E" in apply bind_Some in H as (x & E & H) ].

Lemma typed_step_inv s t : typed_step s = Some t →
  ps_id s = PyStr (ys_id t) ∧ ps_type s = ys_type t ∧ ps_script s = PyStr (ys_script t) ∧
  as_optional as_str (ps_on_fail s) = Some (ys_on_fail t) ∧
  as_optional as_str (ps_barrier_name s) = Some (ys_barrier_name t) ∧
  as_optional as_str (ps_action s) = Some (ys_action t) ∧
  as_optional as_str (ps_fixture_id s) = Some (ys_fixture_id t) ∧
  as_bool (ps_export_outputs s) = Some (ys_export_outputs t) ∧
  as_optional as_str (ps_condition s) = Some (ys_condition t).
Proof.
  unfold typed_step. intros H. open_parse H. injection H as <-. cbn.
  split_and!; try done; by apply as_str_Some.
Qed.

Lemma control_step_writable d id t params condition s :
  py_bool id = true → is_script (Some t) = false → (condition = PyNone ∨ t = BREAKPOINT) →
  typed_step (control_step d id t params condition) = Some s → step_writable s.
Proof.
  intros Hid Ht Hc (E1 & E2 & E3 & E4 & E5 & E6 & E7 & E8 & E9)%typed_step_inv.
  cbn [control_step ps_id ps_type ps_script ps_on_fail ps_barrier_name ps_action ps_fixture_id
    ps_export_outputs ps_condition] in *. subst id.
  unfold step_writable. split_and!; [by apply py_bool_str|by rewrite <-E2, Ht|].
  intros Hn. destruct Hc as [->| ->]; [by injection E9 as E9|].
  injection E4 as E4. injection E5 as E5. injection E6 as E6. injection E7 as E7. injection E8 as E8. by split_and!.
Qed.

Lemma parsed_step_writable d s t : parse_step d = Ok s → typed_step s = Some t → step_writable t.
Proof.
  unfold parse_step. intros H (E1 & E2 & E3 & _ & _ & _ & _ & _ & E9)%typed_step_inv.
  open_parse H. injection H as <-. cbn in *. apply required_Ok in E as [Hid _]. simplify_eq.
  unfold step_writable. split_and!; [by apply py_bool_str| |congruence].
  intros Hs. rewrite Hs in *. apply required_Ok in E4 as [Hb _]. by apply py_bool_str.
Qed.

Lemma parse_branch_writable d s t : parse_branch d = Ok s → typed_step s = Some t → step_writable t.
Proof.
  unfold parse_branch. intros H. open_parse H. injection H as <-. apply required_Ok in E as [Hb _].
  by apply control_step_writable; [| |left].
Qed.
Lemma parse_subsequence_writable d s t : parse_subsequence d = Ok s → typed_step s = Some t → step_writable t.
Proof.
  unfold parse_subsequence. intros H. open_parse H. injection H as <-. apply required_Ok in E as [Hb _].
  by apply control_step_writable; [| |left].
Qed.
Lemma parse_breakpoint_writable d s t : parse_breakpoint d = Ok s → typed_step s = Some t → step_writable t.
Proof.
  unfold parse_breakpoint. intros H. apply res_bind_Ok in H as (id & E & H). apply required_Ok in E as [Hb _].
  assert (s = control_step d id BREAKPOINT (dget d "params" (PyMap [])) (dget d "condition" PyNone)) as ->
    by (repeat case_match; by simplify_eq).
  by apply control_step_writable; [| |right].
Qed.

Lemma typed_loop_inv l t : typed_loop l = Some t →
  pl_id l = PyStr (yl_id t) ∧ pl_type l = yl_type t ∧
  pl_condition l = from_option PyStr PyNone (yl_condition t) ∧
  pl_collection l = from_option PyStr PyNone (yl_collection t) ∧
  pl_iterator_var l = from_option PyStr PyNone (yl_iterator_var t) ∧
  as_optional as_str (pl_skip_if l) = Some (yl_skip_if t) ∧
  as_optional as_str (pl_skip_reason l) = Some (yl_skip_reason t) ∧
  as_strs (pl_depends_on l) = Some (yl_depends_on t).
Proof.
  unfold typed_loop. intros H. open_parse H. injection H as <-. cbn.
  split_and!; try done; (by apply as_str_Some) || by apply as_opt_Some.
Qed.
Lemma built_loop_writable d id t mode deps spec :
  py_bool id = true → typed_loop (build_loop d id t mode deps) = Some spec →
  deps = PyList [] ∨ t = implied_loop_type (py_bool (dget d "condition" PyNone))
    (py_bool (dget d "collection" PyNone)) (py_bool (dget d "iterator_var" PyNone)) →
  spec_writable spec.
Proof.
  intros Hb (E1 & E2 & E3 & E4 & E5 & E6 & E7 & E8)%typed_loop_inv Ht.
  cbn [build_loop pl_id pl_type pl_condition pl_collection pl_iterator_var pl_skip_if pl_skip_reason pl_depends_on] in *.
  subst id. injection E6 as E6. injection E7 as E7. unfold spec_writable, implied_type.
  split_and!; [by apply py_bool_str|done|done|].
  destruct Ht as [->| ->]; [left; by injection E8 as <-|right]. by rewrite <-E2, E3, E4, E5, !py_bool_opt.
Qed.

Lemma typed_loop_node l steps n : typed_node (ParsedLoopNode l steps) = Some n →
  ∃ spec nested, n = LoopNode spec nested ∧ typed_loop l = Some spec ∧ Forall2 (λ p n, typed_node p = Some n) steps nested.
Proof.
  cbn [typed_node]. intros H. open_parse H. injection H as <-. eexists _, _. split_and!; [done..|].
  apply mapM_Some, Forall2_fmap_l in E0. exact E0.
Qed.

Lemma parsed_steps_writable (f : pyval → res ParsedNode) l ps ns :
  mapM f l = Ok ps → Forall2 (λ p n, typed_node p = Some n) ps ns →
  (∀ x p n, x ∈ l → f x = Ok p → typed_node p = Some n → writable n) → Forall writable ns.
Proof.
  intros E%res_mapM_Ok Ht H. apply Forall_forall. intros n Hn.
  apply list_elem_of_lookup in Hn as (i & Hi). eapply Forall2_lookup_r in Ht as (p & Hp & Ht); [|exact Hi].
  eapply Forall2_lookup_r in E as (x & Hx & E); [|exact Hp]. eapply H; [|exact E|exact Ht]. by eapply list_elem_of_lookup_2.
Qed.
Lemma parsed_writable data p n : parse_node data = Ok p → typed_node p = Some n → writable n.
Proof.
  revert p n. induction data as [data IH] using depth_ind. intros p n. rewrite parse_node_eq.
  unfold parse_entry. intros H Hn. apply res_bind_Ok in H as (d & Ed & H).
  assert (data = PyMap d) as -> by (destruct data; cbn in Ed; congruence).
  assert (∀ l steps nested, loop_body parse_node d = Ok steps → typed_node (ParsedLoopNode l steps) = Some nested →
    ∃ spec ns, nested = LoopNode spec ns ∧ typed_loop l = Some spec ∧ Forall writable ns) as Hloop.
  { intros l steps nested E Ht. apply typed_loop_node in Ht as (spec & ns & -> & El & Hns). exists spec, ns.
    split_and!; [done..|]. unfold loop_body in E. apply res_bind_Ok in E as (entries & Ee & E).
    eapply parsed_steps_writable; [exact E|exact Hns|]. intros x q m Hx. apply IH. by apply (nested_depth d entries). }
  assert (∀ s m, (∀ t, typed_step s = Some t → step_writable t) → typed_node (ParsedStepNode s) = Some m → writable m) as Hstep.
  { intros s m Hs Ht. cbn in Ht. apply fmap_Some in Ht as (t & Ht & ->). constructor. by apply Hs. }
  assert (∀ r : res ParsedStep, ParsedStepNode <$> r = Ok p → (∀ s t, r = Ok s → typed_step s = Some t → step_writable t) → writable n) as Hr.
  { intros r Er Hs. destruct r as [s|]; [|done]. injection Er as <-. eapply Hstep; [|exact Hn]. intros t. by apply Hs. }
  repeat case_match.
  2-4, 6: eapply Hr; [exact H|]; intros s t;
    eauto using parse_branch_writable, parse_breakpoint_writable, parse_subsequence_writable, parsed_step_writable.
  - unfold parse_loop_v32 in H. open_parse H. injection H as <-. apply required_Ok in E as [Hb _].
    destruct (Hloop _ _ _ E0 Hn) as (spec & ns & -> & Hs & Hns). constructor; [|done].
    eapply built_loop_writable; [exact Hb|exact Hs|by right].
  - unfold parse_loop in H. open_parse H. injection H as <-. apply required_Ok in E as [Hb _].
    destruct (Hloop _ _ _ E2 Hn) as (spec & ns & -> & Hs & Hns). constructor; [|done].
    eapply built_loop_writable; [exact Hb|exact Hs|by left].
Qed.

(** ** Files for typed plans *)

(** A dictionary that leaves out the entries at their defaults. *)
Definition render_fields (l : list (string * option pyval)) : ydict :=
  omap (λ f, (PyStr f.1,.) <$> f.2) l.
Definition raw_opt (o : option string) : pyval := from_option PyStr PyNone o.
Definition raw_strs (l : list string) : pyval := PyList (PyStr <$> l).
Definition raw_dict (d : pydict string pyval) : pyval := PyMap (prod_map PyStr id <$> items d).

Definition str_entry (s : string) : option pyval := if decide (s = "") then None else Some (PyStr s).
Definition int_entry (default z : Z) : option pyval := if decide (z = default) then None else Some (PyInt z).
Definition strs_entry (l : list string) : option pyval :=
  match l with [] => None | _ => Some (raw_strs l) end.
Definition dict_entry (d : pydict string pyval) : option pyval :=
  match items d with [] => None | _ => Some (raw_dict d) end.
(** Types are matched without regard to case, except those of the containers. *)
Definition type_entry (s : YamlStep) : option pyval :=
  match ys_type s, ys_condition s with
  | None, _ => None
  | Some t, None => Some (PyStr (py_upper (step_type_value t)))
  | Some t, Some _ => Some (PyStr (step_type_value t))
  end.

Definition step_fields (s : YamlStep) : list (string * option pyval) :=
  [("id", Some (PyStr (ys_id s))); ("type", type_entry s); ("script", str_entry (ys_script s));
   ("params", dict_entry (ys_params s)); ("preconditions", strs_entry (ys_preconditions s));
   ("depends_on", strs_entry (ys_depends_on s)); ("resources", dict_entry (ys_resources s));
   ("timeout", int_entry 60 (ys_timeout s)); ("retry", int_entry 0 (ys_retry s));
   ("on_fail", PyStr <$> ys_on_fail s);
   ("on_failure", if decide (ys_on_failure s = ys_on_fail s) then None else Some (raw_opt (ys_on_failure s)));
   ("uut_affinity", PyStr <$> ys_uut_affinity s); ("barrier_name", PyStr <$> ys_barrier_name s);
   ("action", PyStr <$> ys_action s); ("fixture_id", PyStr <$> ys_fixture_id s);
   ("export_outputs", if ys_export_outputs s then Some (PyBool true) else None);
   ("skip_if", PyStr <$> ys_skip_if s); ("skip_reason", PyStr <$> ys_skip_reason s);
   ("condition", PyStr <$> ys_condition s)].
Definition loop_fields (l : LoopSpec) (steps : list pyval) : list (string * option pyval) :=
  let v32 := bool_decide (yl_type l = implied_type l) in
  [("id", Some (PyStr (yl_id l))); ("type", if v32 then Some (PyStr "loop") else None);
   ("loop_type", if v32 then None else Some (PyStr (loop_type_value (yl_type l))));
   ("count", PyInt <$> yl_count l); ("condition", PyStr <$> yl_condition l);
   ("collection", PyStr <$> yl_collection l); ("iterator_var", PyStr <$> yl_iterator_var l);
   ("execution_mode", match yl_mode l with SERIAL => None | PARALLEL => Some (PyStr "parallel") end);
   ("max_iterations", int_entry 1000 (yl_max_iterations l));
   ("depends_on", strs_entry (yl_depends_on l));
   ("steps", match steps with [] => None | _ => Some (PyList steps) end)].
Fixpoint render_node (n : YamlNode) : pyval :=
  match n with
  | StepNode s _ => PyMap (render_fields (step_fields s))
  | LoopNode spec steps => PyMap (render_fields (loop_fields spec (map render_node steps)))
  end.
Definition render_plan (p : YamlPlan) : pyval :=
  PyMap (render_fields
    [("name", Some (PyStr (yp_name p))); ("version", Some (PyStr (yp_version p)));
     ("scope", Some (raw_dict (yp_scope p)));
     ("max_concurrency", int_entry 1 (yp_max_concurrency p)); ("uut_count", int_entry 1 (yp_uut_count p));
     ("fixture_id", PyStr <$> yp_fixture_id p);
     ("steps", match yp_steps p with [] => None | l => Some (PyList (map render_node l)) end)]).

(** What the parser makes of them. *)
Definition raw_step (s : YamlStep) : ParsedStep :=
  mkParsedStep (PyStr (ys_id s)) (ys_type s) (PyStr (ys_script s)) (raw_dict (ys_params s))
    (raw_strs (ys_preconditions s)) (raw_strs (ys_depends_on s)) (raw_dict (ys_resources s))
    (PyInt (ys_timeout s)) (PyInt (ys_retry s)) (raw_opt (ys_on_fail s)) (raw_opt (ys_on_failure s))
    (raw_opt (ys_uut_affinity s)) (raw_opt (ys_barrier_name s)) (raw_opt (ys_action s))
    (raw_opt (ys_fixture_id s)) (PyBool (ys_export_outputs s)) (raw_opt (ys_skip_if s))
    (raw_opt (ys_skip_reason s)) (raw_opt (ys_condition s)).
Definition raw_loop (l : LoopSpec) : ParsedLoop :=
  mkParsedLoop (PyStr (yl_id l)) (yl_type l) (from_option PyInt PyNone (yl_count l)) (raw_opt (yl_condition l))
    (raw_opt (yl_collection l)) (raw_opt (yl_iterator_var l)) (yl_mode l) (PyInt (yl_max_iterations l))
    (raw_opt (yl_skip_if l)) (raw_opt (yl_skip_reason l)) (raw_strs (yl_depends_on l)).
Fixpoint raw_node (n : YamlNode) : ParsedNode :=
  match n with
  | StepNode s _ => ParsedStepNode (raw_step s)
  | LoopNode spec steps => ParsedLoopNode (raw_loop spec) (map raw_node steps)
  end.

#[local] Arguments raw_dict : simpl never.
#[local] Arguments raw_strs : simpl never.
#[local] Arguments raw_opt : simpl never.
#[local] Arguments as_str_dict : simpl never.
#[local] Arguments as_strs : simpl never.
#[local] Arguments as_optional : simpl never.

Lemma as_optional_raw o : as_optional as_str (raw_opt o) = Some o.
Proof. by destruct o. Qed.
Lemma as_strs_raw l : as_strs (raw_strs l) = Some l.
Proof. apply mapM_Some_2, Forall2_fmap_l, Forall_Forall2_diag, Forall_forall. done. Qed.
Lemma as_str_dict_raw d : as_str_dict (raw_dict d) = Some d.
Proof.
  unfold as_str_dict, raw_dict. rewrite (mapM_Some_2 _ _ (items d)); [by destruct d|].
  apply Forall2_fmap_l, Forall_Forall2_diag, Forall_forall. by intros [k v] _.
Qed.
Lemma typed_raw_step s : typed_step (raw_step s) = Some s.
Proof.
  unfold typed_step, raw_step. cbn. rewrite !as_str_dict_raw. cbn. rewrite !as_strs_raw. cbn.
  rewrite !as_optional_raw. by destruct s.
Qed.
Lemma typed_raw_loop l : typed_loop (raw_loop l) = Some l.
Proof.
  unfold typed_loop, raw_loop. cbn. rewrite !as_optional_raw. cbn. rewrite !as_strs_raw.
  by destruct l as [? ? [?|]].
Qed.
Lemma typed_raw_node n : writable n → typed_node (raw_node n) = Some n.
Proof.
  induction n as [s inner _|spec steps IH] using YamlNode_ind'; inversion 1; subst; cbn [typed_node raw_node].
  - by rewrite typed_raw_step.
  - rewrite typed_raw_loop. cbn [mbind option_bind]. rewrite (mapM_Some_2 _ _ steps); [done|].
    rewrite map_map. apply Forall2_fmap_l, Forall_Forall2_diag. rewrite Forall_forall in *. cbn. eauto.
Qed.

(** Reading a rendered dictionary. *)
Fixpoint field (k : string) (l : list (string * option pyval)) : option pyval :=
  match l with
  | [] => None
  | (k', o) :: l' =>
      if String.eqb k k' then match o with Some v => Some v | None => field k l' end else field k l'
  end.
Lemma dget_render l k d : dget (render_fields l) k d = default d (field k l).
Proof.
  unfold dget. induction l as [|[k' [v|]] l IH]; [done|..]; cbn.
  - destruct (String.eqb_spec k k') as [->|Hne]; [by rewrite decide_True|]. rewrite decide_False by done. exact IH.
  - destruct (String.eqb_spec k k'); exact IH.
Qed.
Lemma has_entry_render l k : has_entry k (render_fields l) = bool_decide (is_Some (field k l)).
Proof.
  unfold has_entry. induction l as [|[k' [v|]] l IH]; [done|..]; cbn.
  - destruct (String.eqb_spec k k') as [->|Hne]; [by rewrite bool_decide_true|].
    rewrite bool_decide_false by congruence. exact IH.
  - destruct (String.eqb_spec k k'); exact IH.
Qed.

Lemma default_opt o : default PyNone (PyStr <$> o) = raw_opt o.
Proof. by destruct o. Qed.
Lemma default_str s : default (PyStr "") (str_entry s) = PyStr s.
Proof. unfold str_entry. by case_decide; subst. Qed.
Lemma default_int d z : default (PyInt d) (int_entry d z) = PyInt z.
Proof. unfold int_entry. by case_decide; subst. Qed.
Lemma default_strs l : default (PyList []) (strs_entry l) = raw_strs l.
Proof. by destruct l. Qed.
Lemma default_dict d : default (PyMap []) (dict_entry d) = raw_dict d.
Proof. unfold dict_entry, raw_dict. by destruct (items d). Qed.
Lemma default_bool (b : bool) : default (PyBool false) (if b then Some (PyBool true) else None) = PyBool b.
Proof. by destruct b. Qed.
Lemma field_end (o : option pyval) : match o with Some v => Some v | None => None end = o.
Proof. by destruct o. Qed.

(** Reduces every lookup in the rendered dictionary to the entry it reads. *)
Ltac read_fields :=
  rewrite ?dget_render; cbn [field step_fields loop_fields String.eqb Ascii.eqb Bool.eqb];
  rewrite ?field_end, ?default_opt, ?default_str, ?default_int, ?default_strs, ?default_dict, ?default_bool.

Section render_step.
Context (s : YamlStep).
Let d := render_fields (step_fields s).
Lemma step_failure_policy : failure_policy d = raw_opt (ys_on_failure s).
Proof. unfold failure_policy, d. read_fields. by destruct (decide _) as [->|]. Qed.
Lemma step_required m : ys_id s ≠ "" → required d "id" m = Ok (PyStr (ys_id s)).
Proof. intros H. unfold required, d. read_fields. cbn. by rewrite bool_decide_false. Qed.
Lemma step_script_required m : ys_script s ≠ "" → required d "script" m = Ok (PyStr (ys_script s)).
Proof.
  intros H. unfold required, d. read_fields. unfold str_entry. rewrite decide_False by done. cbn.
  by rewrite bool_decide_false.
Qed.
Lemma step_resources : parse_resources (dget d "resources" (PyMap [])) = raw_dict (ys_resources s).
Proof. unfold d. by read_fields. Qed.
Lemma parse_step_render : step_writable s → ys_condition s = None → parse_step d = Ok (raw_step s).
Proof.
  intros (Hid & Hs & _) Hc. unfold parse_step. rewrite step_required by done. cbn [mbind res_mbind res_bind].
  assert (parse_step_type (PyStr (ys_id s)) (dget d "type" PyNone) = Ok (ys_type s)) as ->.
  { unfold d. read_fields. unfold type_entry. rewrite Hc. by destruct (ys_type s) as [[]|]. }
  cbn [mbind res_mbind res_bind].
  assert ((if is_script (ys_type s) then required d "script" _ else Ok (dget d "script" (PyStr ""))) =
    Ok (PyStr (ys_script s))) as ->.
  { case_match; [by apply step_script_required, Hs|]. unfold d. by read_fields. }
  cbn [mbind res_mbind res_bind]. rewrite step_failure_policy, step_resources. unfold d, raw_step. read_fields.
  by rewrite Hc.
Qed.
Lemma parse_breakpoint_render :
  step_writable s → ys_condition s ≠ None → parse_breakpoint d = Ok (raw_step s).
Proof.
  intros (Hid & _ & Hc) Hn. destruct (Hc Hn) as (Ht & E1 & E2 & E3 & E4 & E5).
  unfold parse_breakpoint. rewrite step_required by done. cbn [mbind res_mbind res_bind].
  assert (dget d "condition" PyNone = raw_opt (ys_condition s)) as -> by (unfold d; by read_fields).
  transitivity (Ok (control_step d (PyStr (ys_id s)) BREAKPOINT (dget d "params" (PyMap [])) (raw_opt (ys_condition s)))).
  { by destruct (ys_condition s). }
  unfold control_step. rewrite step_failure_policy. unfold d, raw_step. read_fields.
  by rewrite Ht, E1, E2, E3, E4, E5.
Qed.
Lemma parse_entry_step f : step_writable s → parse_entry f (PyMap d) = Ok (ParsedStepNode (raw_step s)).
Proof.
  intros Hw. unfold parse_entry. cbn [as_dict mbind res_mbind res_bind].
  assert (dget d "type" PyNone = default PyNone (type_entry s)) as -> by (unfold d; by read_fields).
  assert (has_entry "loop_type" d = false) as -> by (unfold d; by rewrite has_entry_render).
  destruct (ys_condition s) as [c|] eqn:Hc.
  - assert (ys_condition s ≠ None) as Hn by congruence. destruct (proj2 (proj2 Hw) Hn) as (Ht & _).
    unfold type_entry. rewrite Ht, Hc. change (ParsedStepNode <$> parse_breakpoint d = Ok (ParsedStepNode (raw_step s))).
    by rewrite parse_breakpoint_render.
  - unfold type_entry. rewrite Hc.
    enough (ParsedStepNode <$> parse_step d = Ok (ParsedStepNode (raw_step s))) by (by destruct (ys_type s) as [[]|]).
    by rewrite parse_step_render.
Qed.
End render_step.

Section render_loop.
Context (f : pyval → res ParsedNode) (l : LoopSpec) (steps : list pyval) (nested : list ParsedNode).
Context (Hf : mapM f steps = Ok nested) (Hw : spec_writable l).
Let d := render_fields (loop_fields l steps).

Lemma loop_body_render : loop_body f d = Ok nested.
Proof.
  unfold loop_body, d. read_fields. destruct steps as [|x xs]; [|exact Hf].
  by injection Hf as <-.
Qed.
Lemma loop_required m : required d "id" m = Ok (PyStr (yl_id l)).
Proof. unfold required, d. read_fields. cbn. rewrite bool_decide_false; [done|]. apply Hw. Qed.
Lemma loop_mode id : parse_mode id d = Ok (yl_mode l).
Proof. unfold parse_mode, d. read_fields. by destruct (yl_mode l). Qed.
Lemma build_loop_render t : build_loop d (PyStr (yl_id l)) t (yl_mode l) (raw_strs (yl_depends_on l)) =
  raw_loop (mkLoop (yl_id l) t (yl_count l) (yl_condition l) (yl_collection l) (yl_iterator_var l) (yl_mode l)
    (yl_max_iterations l) (yl_skip_if l) (yl_skip_reason l) (yl_depends_on l)).
Proof.
  destruct Hw as (_ & E1 & E2 & _). unfold build_loop, raw_loop, d. read_fields. cbn. rewrite E1, E2.
  f_equal. by destruct (yl_count l).
Qed.
Lemma parse_entry_loop : parse_entry f (PyMap d) = Ok (ParsedLoopNode (raw_loop l) nested).
Proof.
  unfold parse_entry. cbn [as_dict mbind res_mbind res_bind].
  assert (dget d "type" PyNone = if bool_decide (yl_type l = implied_type l) then PyStr "loop" else PyNone) as ->
    by (unfold d; read_fields; by case_bool_decide).
  assert (has_entry "loop_type" d = negb (bool_decide (yl_type l = implied_type l))) as ->.
  { unfold d. rewrite has_entry_render. cbn [field loop_fields String.eqb Ascii.eqb Bool.eqb].
    by destruct (bool_decide (yl_type l = implied_type l)). }
  case_bool_decide as Ht.
  - change (parse_loop_v32 f d = Ok (ParsedLoopNode (raw_loop l) nested)). unfold parse_loop_v32.
    rewrite loop_required. cbn [mbind res_mbind res_bind]. rewrite loop_body_render. cbn [mbind res_mbind res_bind].
    rewrite loop_mode. cbn [mbind res_mbind res_bind].
    assert (dget d "depends_on" (PyList []) = raw_strs (yl_depends_on l)) as -> by (unfold d; by read_fields).
    rewrite build_loop_render. do 3 f_equal. unfold d. read_fields. unfold raw_opt. rewrite !py_bool_opt.
    fold (implied_type l). rewrite <-Ht. by destruct l.
  - change (parse_loop f d = Ok (ParsedLoopNode (raw_loop l) nested)). unfold parse_loop.
    assert (yl_depends_on l = []) as Hd by (destruct Hw as (_ & _ & _ & [?|?]); done).
    assert (required d "loop_type" ("Loop '" +:+ py_str (PyStr (yl_id l)) +:+ "' missing required field: 'loop_type'")
      = Ok (PyStr (loop_type_value (yl_type l)))) as E.
    { unfold required, d. read_fields. rewrite bool_decide_false by done. by destruct (yl_type l). }
    rewrite loop_required. cbn [mbind res_mbind res_bind]. rewrite E. cbn [mbind res_mbind res_bind].
    assert (parse_loop_type (PyStr (yl_id l)) (PyStr (loop_type_value (yl_type l))) = Ok (yl_type l)) as ->
      by by destruct (yl_type l).
    cbn [mbind res_mbind res_bind]. rewrite loop_body_render. cbn [mbind res_mbind res_bind].
    rewrite loop_mode. cbn [mbind res_mbind res_bind].
    change (PyList []) with (raw_strs []). rewrite <-Hd, build_loop_render. by destruct l.
Qed.
End render_loop.

Lemma parse_node_render n : writable n → parse_node (render_node n) = Ok (raw_node n).
Proof.
  induction n as [s inner _|spec steps IH] using YamlNode_ind'; inversion 1; subst; rewrite parse_node_eq;
    cbn [render_node raw_node].
  - by apply parse_entry_step.
  - apply parse_entry_loop; [|done]. apply res_mapM_Ok, Forall2_fmap, Forall_Forall2_diag.
    rewrite Forall_forall in *. eauto.
Qed.

Lemma required_value d k m v : dget d k PyNone = v → py_bool v = true → required d k m = Ok v.
Proof. unfold required. by intros -> ->. Qed.
Lemma str_true s : s ≠ "" → py_bool (PyStr s) = true.
Proof. intros. cbn. by rewrite bool_decide_false. Qed.
Lemma dict_true d : items d ≠ [] → py_bool (raw_dict d) = true.
Proof. unfold raw_dict. by destruct (items d). Qed.

Definition raw_plan (p : YamlPlan) : ParsedPlan :=
  mkParsedPlan (PyStr (yp_name p)) (PyStr (yp_version p)) (raw_dict (yp_scope p))
    (PyInt (yp_max_concurrency p)) (PyInt (yp_uut_count p)) (raw_opt (yp_fixture_id p))
    (raw_node <$> yp_steps p).
Lemma typed_raw_plan p : Forall writable (yp_steps p) → typed_plan (raw_plan p) = Some p.
Proof.
  intros H. unfold typed_plan, raw_plan. cbn. rewrite as_str_dict_raw. cbn. rewrite as_optional_raw. cbn.
  rewrite (mapM_Some_2 _ _ (yp_steps p)); [by destruct p|].
  apply Forall2_fmap_l, Forall_Forall2_diag. eapply Forall_impl; [exact H|]. apply typed_raw_node.
Qed.
Lemma parse_render_plan p : plan_writable p → parse_data (render_plan p) = Ok (raw_plan p).
Proof.
  intros (Hn & Hv & Hs & Hsteps). unfold parse_data, render_plan.
  rewrite (required_value _ "name" _ (PyStr (yp_name p))); [|by read_fields|by apply str_true].
  cbn [mbind res_mbind res_bind].
  rewrite (required_value _ "version" _ (PyStr (yp_version p))); [|by read_fields|by apply str_true].
  cbn [mbind res_mbind res_bind].
  rewrite (required_value _ "scope" _ (raw_dict (yp_scope p))); [|by read_fields|by apply dict_true].
  cbn [mbind res_mbind res_bind]. read_fields.
  change (match raw_dict (yp_scope p) with PyStr _ => _ | PyMap _ => _ | _ => _ end)
    with (Ok (raw_dict (yp_scope p)) : res pyval).
  cbn [mbind res_mbind res_bind].
  replace (py_iter _) with (Ok (render_node <$> yp_steps p)) by (by destruct (yp_steps p)).
  cbn [mbind res_mbind res_bind].
  replace (mapM parse_node (render_node <$> yp_steps p)) with (Ok (raw_node <$> yp_steps p)); [done|].
  symmetry. apply res_mapM_Ok, Forall2_fmap, Forall_Forall2_diag.
  eapply Forall_impl; [exact Hsteps|]. apply parse_node_render.
Qed.

Lemma as_str_dict_nonempty d x : as_str_dict (PyMap d) = Some x → d ≠ [] → items x ≠ [].
Proof.
  unfold as_str_dict. intros (l & E & ->)%fmap_Some Hd. apply mapM_Some in E. by destruct E.
Qed.
Lemma parsed_plan_writable data q p : parse_data data = Ok q → typed_plan q = Some p → plan_writable p.
Proof.
  destruct data as [| | | | | |d|]; try done. unfold parse_data, typed_plan. intros H Ht.
  apply res_bind_Ok in H as (name & [Hn _]%required_Ok & H). apply res_bind_Ok in H as (version & [Hv _]%required_Ok & H).
  apply res_bind_Ok in H as (scope & [Hs _]%required_Ok & H). apply res_bind_Ok in H as (scope' & Es & H).
  apply res_bind_Ok in H as (l & El & H). apply res_bind_Ok in H as (steps & Esteps & H). injection H as <-.
  cbn [pp_name pp_version pp_scope pp_max_concurrency pp_uut_count pp_fixture_id pp_steps] in Ht.
  apply bind_Some in Ht as (n & ->%as_str_Some & Ht). apply bind_Some in Ht as (v & ->%as_str_Some & Ht).
  apply bind_Some in Ht as (sc & Esc & Ht). open_parse Ht. injection Ht as <-.
  split_and!; cbn; [by apply py_bool_str..| |].
  - destruct scope; try done; injection Es as <-; eapply as_str_dict_nonempty; try exact Esc; [done|].
    by intros ->.
  - eapply parsed_steps_writable; [exact Esteps|by apply mapM_Some|]. intros ? ? ? _. apply parsed_writable.
Qed.

(** C8. Files and plans correspond, for plans whose entries have the declared types. A plan is
    describable ([plan_writable]) when its name, version and scope are not empty; every step and loop has
    an id that is not empty and only loops have steps inside; every script step has a script; only a
    BREAKPOINT has a condition, and then no policy, barrier, action, fixture or exported outputs; no loop
    declares a skip rule, and one that declares dependencies has the type its other entries imply. Every
    describable plan is what the parser reads from the file that lists its entries, those at their
    defaults left out, at any depth of nesting; the types of steps are written in capitals there, which
    is how BRANCH, SUBSEQUENCE and LOOP come to be read as the types of single steps. Conversely every file
    that parses, to entries all of the declared types, parses to a describable plan; of
    files with other entries nothing is said. *)
Theorem parse_roundtrip p :
  (plan_writable p → ∃ q, parse_data (render_plan p) = Ok q ∧ typed_plan q = Some p) ∧
  (∀ data q, parse_data data = Ok q → typed_plan q = Some p → plan_writable p).
Proof.
  split; [|intros data q; apply parsed_plan_writable]. intros Hw. exists (raw_plan p).
  split; [by apply parse_render_plan|apply typed_raw_plan, Hw].
Qed.

(** ** Examples *)

(** Step types are matched without regard to case, those of containers are not: with a capital
    letter a loop is read as a single step and loses its steps. *)
Example capital_loop_is_a_step :
  let steps := PyList [entry_of "measure" "script" "measure.py"] in
  let loop type := yaml_entry [("id", PyStr "repeat"); ("type", PyStr type); ("count", PyInt 3); ("steps", steps)] in
  ((λ n, node_ids <$> typed_node n) <$> parse_node (loop "loop"),
   (λ n, node_ids <$> typed_node n) <$> parse_node (loop "Loop")) =
  (Ok (Some ["repeat"; "measure"]), Ok (Some ["repeat"])).
Proof. reflexivity. Qed.

(** A loop in the old syntax loses its dependencies, one in either syntax its skip rule. *)
Example loop_entries_dropped :
  let entries := [("id", PyStr "l"); ("count", PyInt 1); ("skip_if", PyStr "$x > 1"); ("depends_on", PyList [PyStr "a"])] in
  let read l := (λ n, match n with ParsedLoopNode l _ => Some (pl_depends_on l, pl_skip_if l) | _ => None end)
    <$> parse_node (yaml_entry l) in
  read (("loop_type", PyStr "for") :: entries) = Ok (Some (PyList [], PyNone)) ∧
  read (("type", PyStr "loop") :: entries) = Ok (Some (PyList [PyStr "a"], PyNone)).
Proof. by split. Qed.

Definition script_leaf (id : string) : YamlNode :=
  StepNode (mkStep id None "m.py" ∅ [] [] ∅ 60 0 None None None None None None false None None None) [].
Lemma leaf_writable id : id ≠ "" → writable (script_leaf id).
Proof. intros H. constructor. by split_and!. Qed.
Definition nested_plan : YamlPlan :=
  mkPlanDsl "plan" "3.2" (PyDict [("line", PyInt 4)]) 2 1 None
    [script_leaf "a"; LoopNode (mkLoop "l" WHILE None (Some "$x < 3") None None PARALLEL 10 None None ["a"]) [script_leaf "b"]].
Lemma parse_roundtrip_witness :
  ∃ q, parse_data (render_plan nested_plan) = Ok q ∧ typed_plan q = Some nested_plan.
Proof.
  apply (parse_roundtrip nested_plan). split_and!; try done.
  repeat apply Forall_cons_2; try apply Forall_nil_2; [by apply leaf_writable|].
  apply writable_loop; [by split_and!; try right|]. apply Forall_singleton. by apply leaf_writable.
Defined.
