(* ===== verification/Validation.v ===== *)
(** * Plan validation (src/src/ate_platform/dsl/parser.py)

    [YamlParser.validate]: the errors of a plan whose entries have their declared types, in the
    order the parser reports them. *)

From S2P Require Import Prelude PyDict PyStr Dsl Parser PlanFiles.

Definition report (bad : bool) (message : string) : list string := if bad then [message] else [].

Definition validate_step (s : YamlStep) : list string :=
  let about := "Step '" +:+ ys_id s +:+ "': " in
  report (is_script (ys_type s) && is_blank (ys_script s)) (about +:+ "script cannot be empty") ++
  report (bool_decide (ys_type s = Some BARRIER) && negb (truthy (ys_barrier_name s)))
    (about +:+ "barrier step requires 'barrier_name'") ++
  report (bool_decide (ys_type s = Some FIXTURE_CONTROL) && negb (truthy (ys_action s)))
    (about +:+ "fixture_control step requires 'action' (clamp/release/set_route/read_sensor)") ++
  report (bool_decide (ys_type s = Some FIXTURE_CONTROL) && negb (truthy (ys_fixture_id s)))
    (about +:+ "fixture_control step requires 'fixture_id'") ++
  report (ys_timeout s <? 0)%Z (about +:+ "timeout must be non-negative") ++
  report (ys_retry s <? 0)%Z (about +:+ "retry must be non-negative").

(** The checks of a loop before its nested steps. *)
Definition validate_spec (l : LoopSpec) (empty : bool) : list string :=
  let about := "Loop '" +:+ yl_id l +:+ "': " in
  report (bool_decide (yl_type l = WHILE) && negb (truthy (yl_condition l)) && (yl_max_iterations l <=? 0)%Z)
    (about +:+ "WHILE loop must have a condition or max_iterations > 0") ++
  report (bool_decide (yl_type l = FOR) && bool_decide (yl_count l = None))
    (about +:+ "FOR loop must have a 'count' field") ++
  report (bool_decide (yl_type l = FOREACH) && negb (truthy (yl_collection l)))
    (about +:+ "FOREACH loop must have a 'collection' field") ++
  report (bool_decide (yl_type l = FOREACH) && negb (truthy (yl_iterator_var l)))
    (about +:+ "FOREACH loop must have an 'iterator_var' field") ++
  report empty (about +:+ "must have at least one step").

(** The set of ids seen so far, and the errors. *)
Abbreviation Checked := (list string * list string)%type.
Definition note_id (id : string) (st : Checked) : Checked :=
  (id :: st.1, st.2 ++ report (str_in id st.1) ("Duplicate step ID: '" +:+ id +:+ "'")).
Definition add_errors (errors : list string) (st : Checked) : Checked := (st.1, st.2 ++ errors).

Fixpoint validate_node (n : YamlNode) (st : Checked) : Checked :=
  match n with
  | StepNode s _ => add_errors (validate_step s) (note_id (ys_id s) st)
  | LoopNode spec steps =>
      fold_left (λ st n, validate_node n st) steps
        (add_errors (validate_spec spec (match steps with [] => true | _ => false end)) (note_id (yl_id spec) st))
  end.
Definition validate_steps (steps : list YamlNode) (st : Checked) : Checked :=
  fold_left (λ st n, validate_node n st) steps st.

Definition validate (plan : YamlPlan) : list string :=
  report (is_blank (yp_name plan)) "Plan name cannot be empty" ++
  report (bool_decide (yp_version plan = "")) "Plan version cannot be empty" ++
  report (bool_decide (items (yp_scope plan) = [])) "Plan scope cannot be empty" ++
  report (yp_max_concurrency plan <? 1)%Z "max_concurrency must be at least 1" ++
  report (yp_uut_count plan <? 1)%Z "uut_count must be at least 1" ++
  (validate_steps (yp_steps plan) ([], [])).2 ++
  report (match yp_steps plan with [] => true | _ => false end) "Plan must have at least one step".

(** *** What a valid plan is *)

Definition step_ok (s : YamlStep) : Prop :=
  (is_script (ys_type s) = true → is_blank (ys_script s) = false) ∧
  (ys_type s = Some BARRIER → truthy (ys_barrier_name s) = true) ∧
  (ys_type s = Some FIXTURE_CONTROL → truthy (ys_action s) = true ∧ truthy (ys_fixture_id s) = true) ∧
  (0 <= ys_timeout s)%Z ∧ (0 <= ys_retry s)%Z.
Definition spec_ok (l : LoopSpec) : Prop :=
  match yl_type l with
  | WHILE => truthy (yl_condition l) = true ∨ (0 < yl_max_iterations l)%Z
  | FOR => is_Some (yl_count l)
  | FOREACH => truthy (yl_collection l) = true ∧ truthy (yl_iterator_var l) = true
  end.
Inductive node_ok : YamlNode → Prop :=
  | step_node_ok s inner : step_ok s → node_ok (StepNode s inner)
  | loop_node_ok spec steps :
      spec_ok spec → steps ≠ [] → Forall node_ok steps → node_ok (LoopNode spec steps).
Definition plan_ok (p : YamlPlan) : Prop :=
  is_blank (yp_name p) = false ∧ yp_version p ≠ "" ∧ items (yp_scope p) ≠ [] ∧
  (1 <= yp_max_concurrency p)%Z ∧ (1 <= yp_uut_count p)%Z ∧ yp_steps p ≠ [] ∧
  Forall node_ok (yp_steps p) ∧ NoDup (concat (node_ids <$> yp_steps p)).

Lemma report_nil b m : report b m = [] ↔ b = false.
Proof. by destruct b. Qed.
Lemma validate_step_nil s : validate_step s = [] ↔ step_ok s.
Proof.
  unfold validate_step, step_ok. rewrite !app_nil, !report_nil, !andb_false_iff, !negb_false_iff,
    !bool_decide_eq_false, !Z.ltb_ge.
  destruct (is_script (ys_type s)), (decide (ys_type s = Some BARRIER)),
    (decide (ys_type s = Some FIXTURE_CONTROL)); intuition congruence.
Qed.
Lemma validate_spec_nil l e :
  validate_spec l e = [] ↔ spec_ok l ∧ e = false.
Proof.
  unfold validate_spec, spec_ok. rewrite !app_nil, !report_nil, !andb_false_iff, !negb_false_iff,
    !bool_decide_eq_false, !Z.leb_gt.
  destruct (yl_type l); rewrite <-?not_eq_None_Some; intuition congruence.
Qed.

(** What checking some nodes does to the state: the ids are noted, and there is no new error
    just when [ok] and no id is seen twice. *)
Definition checks_as (ids : list string) (ok : Prop) (f : Checked → Checked) : Prop :=
  ∀ st, (∀ i, i ∈ (f st).1 ↔ i ∈ ids ∨ i ∈ st.1) ∧
    ∃ new, (f st).2 = st.2 ++ new ∧ (new = [] ↔ ok ∧ NoDup ids ∧ ∀ i, i ∈ ids → i ∉ st.1).

Lemma checks_note id : checks_as [id] True (note_id id).
Proof.
  intros st. cbn. split; [set_solver|]. eexists. split; [done|]. rewrite report_nil.
  unfold str_in. rewrite bool_decide_eq_false. split; [|set_solver].
  intros H. split_and!; [done|apply NoDup_singleton|set_solver].
Qed.
Lemma checks_errors ok errors : (errors = [] ↔ ok) → checks_as [] ok (add_errors errors).
Proof.
  intros H st. cbn. split; [set_solver|]. exists errors. split; [done|]. rewrite H.
  split; [|tauto]. intros. split_and!; [done|constructor|set_solver].
Qed.
Lemma checks_compose ids1 ids2 ok1 ok2 f g :
  checks_as ids1 ok1 f → checks_as ids2 ok2 g → checks_as (ids1 ++ ids2) (ok1 ∧ ok2) (λ st, g (f st)).
Proof.
  intros Hf Hg st. destruct (Hf st) as (Hi1 & new1 & E1 & H1). destruct (Hg (f st)) as (Hi2 & new2 & E2 & H2).
  split; [intros i; rewrite Hi2, Hi1; set_solver|]. exists (new1 ++ new2).
  rewrite E2, E1, app_assoc. split; [done|]. rewrite app_nil, H1, H2, NoDup_app. set_solver.
Qed.
Lemma checks_fold l :
  Forall (λ n, checks_as (node_ids n) (node_ok n) (validate_node n)) l →
  checks_as (concat (node_ids <$> l)) (Forall node_ok l) (λ st, fold_left (λ st n, validate_node n st) l st).
Proof.
  induction 1 as [|n l Hn _ IH].
  - intros st. cbn. split; [set_solver|]. exists []. rewrite app_nil_r. split; [done|].
    split; [intros _; split_and!; [done|constructor|set_solver]|done].
  - pose proof (checks_compose _ _ _ _ _ _ Hn IH) as H. intros st. destruct (H st) as (Hi & new & E & Hnew).
    split; [done|]. exists new. split; [done|]. by rewrite Forall_cons.
Qed.
Lemma checks_node n : checks_as (node_ids n) (node_ok n) (validate_node n).
Proof.
  induction n as [s inner _|spec steps IH] using YamlNode_ind'.
  - pose proof (checks_compose _ _ _ _ _ _ (checks_note (ys_id s))
      (checks_errors _ _ (validate_step_nil s))) as H.
    intros st. destruct (H st) as (Hi & new & E & Hnew). split; [done|]. exists new. split; [done|].
    rewrite Hnew. split; [intros ([_ ?] & ?); split; [by constructor|done]|].
    intros (Hn & ?). by inversion Hn.
  - set (empty := match steps with [] => true | _ => false end).
    pose proof (checks_compose _ _ _ _ _ _ (checks_compose _ _ _ _ _ _ (checks_note (yl_id spec))
      (checks_errors _ _ (validate_spec_nil spec empty))) (checks_fold _ IH)) as H.
    intros st. destruct (H st) as (Hi & new & E & Hnew). split; [done|]. exists new. split; [exact E|].
    rewrite Hnew. split.
    + intros (((_ & Hs & He) & Hf) & ?). split; [constructor; [done| |done]; by destruct steps|done].
    + intros (Hn & ?). inversion Hn; subst. split; [|done]. split_and!; try done. by destruct steps.
Qed.

(** C25. The validator accepts a plan, with an empty list of errors, exactly when the plan has a
    name that is not blank, a version, a scope, positive limits and at least one step, no two
    steps or loops at any depth have the same id, every loop has what its type needs and at least
    one step, and every step a script, barrier name or fixture as its type demands and no negative
    time-out or retry count. *)
Theorem validate_iff p : validate p = [] ↔ plan_ok p.
Proof.
  unfold validate, plan_ok.
  destruct (checks_fold (yp_steps p)) with (st := ([] : list string, [] : list string)) as (_ & new & E & Hnew).
  { apply Forall_forall. intros. apply checks_node. }
  change (fold_left _ _ _) with (validate_steps (yp_steps p) ([], [])) in E. rewrite E. cbn [snd app].
  rewrite !app_nil, !report_nil, Hnew, !bool_decide_eq_false, !Z.ltb_ge.
  assert ((match yp_steps p with [] => true | _ => false end) = false ↔ yp_steps p ≠ []) as ->
    by by destruct (yp_steps p).
  set_solver.
Qed.

(** ** Examples *)

Example nested_plan_valid : validate nested_plan = [].
Proof. reflexivity. Qed.
Example duplicate_reported :
  validate (mkPlanDsl "plan" "3.2" (PyDict [("line", PyInt 4)]) 2 1 None (yp_steps nested_plan ++ yp_steps nested_plan)) =
  ["Duplicate step ID: 'a'"; "Duplicate step ID: 'l'"; "Duplicate step ID: 'b'"].
Proof. reflexivity. Qed.
