(* ===== verification/ParsedPlans.v ===== *)
(** * Compiling a parsed plan

    The parser (Parser.v) and the compiler (Compiler.v) together. The parser leaves the entries of
    a subsequence as they are in the file, and the compiler reads them as parsed steps. *)

From S2P Require Import Prelude PyDict PyStr Types Dsl CompiledPlan Compiler Parser PlanFiles.



Lemma assign_items_raises assign items mapping last c item :
  item ∈ items → (∀ m c, is_ok (assign item m c).1 = false) →
  is_ok (assign_items assign items mapping last c).1 = false.
Proof.
  intros Hin Hr. revert mapping last c. induction items as [|i items IH]; intros mapping last c; [by apply elem_of_nil in Hin|].
  cbn [assign_items]. unfold bind at 1. apply elem_of_cons in Hin as [<-|Hin].
  - specialize (Hr mapping c). by destruct (assign item mapping c) as [[|] ?].
  - destruct (assign i mapping c) as [[r|e] c']; [|done]. by apply IH.
Qed.
Lemma assign_scope_raises assign items frames c item :
  item ∈ items → (∀ m c, is_ok (assign item m c).1 = false) →
  is_ok (assign_scope assign items frames c).1 = false.
Proof.
  intros Hin Hr. unfold assign_scope, bind at 1. pose proof (assign_items_raises assign items ∅ None c item Hin Hr).
  by destruct (assign_items assign items ∅ None c) as [[|] ?].
Qed.

(** A subsequence with raw steps at the top of the plan stops the compiler. *)
Lemma raw_subsequence_stops p s inner v rest c :
  StepNode s inner ∈ yp_steps p → ys_type s = Some SUBSEQUENCE →
  ys_params s !! "steps" = Some (PyList (v :: rest)) →
  ∃ e, (compile p c).1 = Raise e ∧ raw_error (plan_nodes p) e.
Proof.
  intros Hin Ht Hs. unfold compile, expand. unfold bind at 1. rewrite bind_unit by done. cbn [modify snd].
  destruct (assign_plan_in p new_compiler) as [_ Herr]; [apply new_compiler_in|].
  assert (is_ok (assign_scope (λ item, assign_item item "" "" []) (yp_steps p) [] new_compiler).1 = false) as Hf.
  { apply (assign_scope_raises _ _ _ _ (StepNode s inner)); [done|]. intros m c'. cbn [assign_item].
    rewrite decide_True by done. unfold subsequence_steps. by rewrite Hs. }
  unfold bind at 1. destruct (assign_scope _ _ _ _) as [[o|e] c1]; [done|]. cbn in *. by exists e.
Qed.

Lemma dget_dset d k v w : dget (dset d k v) k w = v.
Proof.
  unfold dget. induction d as [|[k' v'] d IH]; cbn; [by rewrite decide_True|].
  case_decide as E; cbn; [apply as_str_Some in E; subst; by rewrite decide_True|].
  destruct k'; try exact IH. cbn in E. rewrite decide_False by congruence. exact IH.
Qed.
Lemma typed_dict_lookup d x k w : as_str_dict (PyMap d) = Some x → default w (x !! k) = dget d k w.
Proof.
  unfold as_str_dict. intros (l & E%mapM_Some & ->)%fmap_Some. unfold dget, lookup, dict_lookup. cbn [items].
  induction E as [|[k' v'] [k2 v2] d l E _ IH]; [done|]. cbn in E. apply bind_Some in E as (k3 & ->%as_str_Some & [= -> ->]).
  cbn. by case_decide.
Qed.

Lemma parsed_subsequence_raw d n t v rest :
  dget d "type" PyNone = PyStr "subsequence" → dget d "steps" (PyList []) = PyList (v :: rest) →
  parse_node (PyMap d) = Ok n → typed_node n = Some t →
  ∃ s, t = StepNode s [] ∧ ys_type s = Some SUBSEQUENCE ∧ ys_params s !! "steps" = Some (PyList (v :: rest)).
Proof.
  intros Ht Hs. rewrite parse_node_eq. unfold parse_entry. cbn [as_dict mbind res_mbind res_bind]. rewrite Ht.
  change (ParsedStepNode <$> parse_subsequence d = Ok n → typed_node n = Some t → ∃ s, t = StepNode s [] ∧
    ys_type s = Some SUBSEQUENCE ∧ ys_params s !! "steps" = Some (PyList (v :: rest))).
  unfold parse_subsequence. destruct (required d "id" _) as [id|]; [|done]. cbn [mbind res_mbind res_bind].
  destruct (dict_copy _) as [params|]; [|done]. cbn. intros [= <-] (s & E & ->)%fmap_Some. exists s.
  split; [done|]. unfold typed_step in E. open_parse E. injection E as <-. cbn [ys_type ys_params ps_type ps_params control_step] in *. split; [done|].
  match goal with E : as_str_dict (PyMap _) = Some ?y |- _ =>
    pose proof (typed_dict_lookup _ y "steps" PyNone E) as Hl end.
  rewrite dget_dset, Hs in Hl. destruct (_ !! "steps"); cbn in Hl; congruence.
Qed.

(** No plan read from a file compiles when a subsequence that is not empty stands among its
    steps: the compiler always stops with the AttributeError of reading an attribute of a raw
    entry. *)
Theorem subsequence_files_never_compile d l entry v rest q p c :
  dget d "steps" (PyList []) = PyList l → PyMap entry ∈ l →
  dget entry "type" PyNone = PyStr "subsequence" → dget entry "steps" (PyList []) = PyList (v :: rest) →
  parse_data (PyMap d) = Ok q → typed_plan q = Some p →
  ∃ e, (compile p c).1 = Raise e ∧ raw_error (plan_nodes p) e.
Proof.
  intros Hl Hin Ht Hs Hq Hp. unfold parse_data in Hq. rewrite Hl in Hq.
  do 4 (apply res_bind_Ok in Hq as (? & _ & Hq)). cbn [py_iter mbind res_mbind res_bind] in Hq.
  apply res_bind_Ok in Hq as (steps & Esteps & [= <-]). unfold typed_plan in Hp. cbn in Hp.
  do 6 (apply bind_Some in Hp as (? & _ & Hp)). apply bind_Some in Hp as (ns & Ens & [= <-]).
  apply res_mapM_Ok in Esteps. apply mapM_Some in Ens.
  apply list_elem_of_lookup in Hin as (i & Hi).
  eapply Forall2_lookup_l in Esteps as (n & Hn & Ep); [|exact Hi].
  eapply Forall2_lookup_l in Ens as (t & Htn & Et); [|exact Hn].
  destruct (parsed_subsequence_raw _ _ _ _ _ Ht Hs Ep Et) as (s & -> & Hty & Hraw).
  eapply raw_subsequence_stops; [|exact Hty|exact Hraw]. by eapply list_elem_of_lookup_2.
Qed.

Definition sub_entry : ydict :=
  [(PyStr "id", PyStr "warm_up"); (PyStr "type", PyStr "subsequence");
   (PyStr "steps", PyList [entry_of "heat" "script" "heat.py"])].
Definition sub_file : ydict :=
  [(PyStr "name", PyStr "plan"); (PyStr "version", PyStr "3.2"); (PyStr "scope", PyStr "line");
   (PyStr "steps", PyList [PyMap sub_entry])].
Lemma subsequence_files_never_compile_witness :
  ∃ q p, parse_data (PyMap sub_file) = Ok q ∧ typed_plan q = Some p ∧
    ∃ e, (compile p new_compiler).1 = Raise e ∧ raw_error (plan_nodes p) e.
Proof.
  eexists _, _. split; [reflexivity|]. split; [reflexivity|].
  eapply (subsequence_files_never_compile sub_file [PyMap sub_entry] sub_entry); try reflexivity. by left.
Defined.
