(* ===== verification/PlanSerializer.v ===== *)
(** * Plans as graphs (src/src/ate_platform/serialization/plan_serializer.py)

    [PlanSerializer]: the graph of the sequence editor, nodes with their data and parent and edges
    of dependencies, to and from the YAML entries of a plan, and to and from plans (Dsl.v). The
    "id", "depends_on" and "steps" entries of a step dictionary have the types the format gives
    them and sit apart from the others, as does the "id" of a node's data; [yaml_value] is the
    whole dictionary. [yaml.dump] and [yaml.safe_load] are left out. Nested nodes are written with
    as much fuel as there are nodes, and no graph with distinct ids runs out of it. *)

From S2P Require Import Prelude PyDict PyStr Dsl Parser PlanFiles.

Record GraphNode : Type := mkGraphNode {
  gn_id : string;
  gn_data_id : option string;
  gn_data : pydict string pyval;
  gn_parent : option string
}.
Record GraphEdge : Type := mkGraphEdge {
  ge_source : string;
  ge_target : string;
  ge_data : pydict string pyval
}.
Record SequenceGraph : Type := mkGraph {
  sg_nodes : list GraphNode;
  sg_edges : list GraphEdge
}.

(** A step dictionary of the file. *)
Inductive YamlEntry : Type :=
  mkEntry (id : option string) (fields : pydict string pyval) (depends_on : option (list string))
    (steps : option (list YamlEntry)).
Definition ye_id (e : YamlEntry) : string := let 'mkEntry id _ _ _ := e in default "" id.
Definition ye_fields (e : YamlEntry) : pydict string pyval := let 'mkEntry _ f _ _ := e in f.
Definition ye_depends_on (e : YamlEntry) : list string := let 'mkEntry _ _ d _ := e in default [] d.
Definition ye_steps (e : YamlEntry) : list YamlEntry := let 'mkEntry _ _ _ l := e in default [] l.

(** The dictionary itself. *)
Fixpoint yaml_value (e : YamlEntry) : pyval :=
  let 'mkEntry id fields deps steps := e in
  PyMap (from_option (λ i, [(PyStr "id", PyStr i)]) [] id ++ (prod_map PyStr (λ v, v) <$> items fields) ++
    from_option (λ l, [(PyStr "depends_on", raw_strs l)]) [] deps ++
    from_option (λ l, [(PyStr "steps", PyList (map yaml_value l))]) [] steps).

Record SerializedPlan : Type := mkSerialized {
  sp_name : string;
  sp_version : string;
  sp_steps : list YamlEntry
}.
Definition plan_value (p : SerializedPlan) : pyval :=
  PyMap [(PyStr "name", PyStr (sp_name p)); (PyStr "version", PyStr (sp_version p));
         (PyStr "steps", PyList (yaml_value <$> sp_steps p))].

(** ** Writing *)

Definition is_loop (data : pydict string pyval) : bool := has_key "loop_type" data.
Definition data_get (k : string) (default_value : pyval) (data : pydict string pyval) : pyval :=
  default default_value (data !! k).

(** [val == default], for the defaults 0 and False. *)
Definition is_zero (v : pyval) : bool :=
  match v with PyInt _ | PyBool _ | PyFloat _ => negb (py_bool v) | _ => false end.
Definition equals_default (key : string) (v : pyval) : bool :=
  if str_in key ["params"; "resources"] then match v with PyMap [] => true | _ => false end
  else str_in key ["retry"; "export_outputs"] && is_zero v.

Definition STEP_OPTIONAL : list string :=
  ["params"; "resources"; "timeout"; "retry"; "on_fail"; "export_outputs"; "skip_if"; "skip_reason"].
Definition LOOP_OPTIONAL : list string :=
  ["count"; "condition"; "collection"; "iterator_var"; "execution_mode"; "max_iterations"; "skip_if";
   "skip_reason"].
(** [for key in keys: ... result[key] = val] *)
Definition copy_fields (omit : string → pyval → bool) (data : pydict string pyval) (keys : list string)
    (result : pydict string pyval) : pydict string pyval :=
  foldl (λ r key, match data !! key with
                  | Some v => if is_none v || omit key v then r else <[key := v]> r
                  | None => r
                  end) result keys.
Definition step_yaml (data : pydict string pyval) : pydict string pyval :=
  copy_fields equals_default data STEP_OPTIONAL (PyDict [("script", data_get "script" (PyStr "") data)]).
Definition loop_yaml (data : pydict string pyval) : pydict string pyval :=
  copy_fields (λ _ _, false) data LOOP_OPTIONAL (PyDict [("loop_type", data_get "loop_type" (PyStr "FOR") data)]).

Definition dep_map (edges : list GraphEdge) : pydict string (list string) :=
  group_by (λ e, Some (ge_target e)) (λ e l, l ++ [ge_source e]) edges.
Definition among (ids : list string) (edges : list GraphEdge) : list GraphEdge :=
  base.filter (λ e, ge_source e ∈ ids ∧ ge_target e ∈ ids) edges.
Definition children (g : SequenceGraph) (id : string) : list GraphNode :=
  base.filter (λ n, gn_parent n = Some id) (sg_nodes g).

Fixpoint node_to_yaml (fuel : nat) (g : SequenceGraph) (deps : pydict string (list string)) (n : GraphNode) :
    res YamlEntry :=
  match fuel with
  | O => Raise (OtherError "out of fuel")
  | S fuel' =>
      let id := default (gn_id n) (gn_data_id n) in
      let depends_on := py_sorted (get_default (gn_id n) [] deps) in
      if is_loop (gn_data n) then
        let child_nodes := children g (gn_id n) in
        let child_deps := dep_map (among (gn_id <$> child_nodes) (sg_edges g)) in
        nested ← mapM (node_to_yaml fuel' g child_deps) child_nodes;
        Ok (mkEntry (Some id) (loop_yaml (gn_data n)) (Some depends_on)
          (match nested with [] => None | _ => Some nested end))
      else Ok (mkEntry (Some id) (step_yaml (gn_data n)) (Some depends_on) None)
  end.

Definition serialize_plan (g : SequenceGraph) (name version : string) : res SerializedPlan :=
  let top_level := base.filter (λ n, gn_parent n = None) (sg_nodes g) in
  steps ← mapM (node_to_yaml (length (sg_nodes g)) g (dep_map (sg_edges g))) top_level;
  Ok (mkSerialized name version steps).

(** ** Reading *)

Definition step_data (fields : pydict string pyval) : pydict string pyval :=
  PyDict [("script", data_get "script" (PyStr "") fields); ("params", data_get "params" (PyMap []) fields);
    ("resources", data_get "resources" (PyMap []) fields); ("timeout", data_get "timeout" (PyInt 60) fields);
    ("retry", data_get "retry" (PyInt 0) fields); ("on_fail", data_get "on_fail" PyNone fields);
    ("export_outputs", data_get "export_outputs" (PyBool false) fields);
    ("skip_if", data_get "skip_if" PyNone fields); ("skip_reason", data_get "skip_reason" PyNone fields)].
Definition loop_data (fields : pydict string pyval) : pydict string pyval :=
  PyDict [("loop_type", data_get "loop_type" (PyStr "FOR") fields); ("count", data_get "count" PyNone fields);
    ("condition", data_get "condition" PyNone fields); ("collection", data_get "collection" PyNone fields);
    ("iterator_var", data_get "iterator_var" PyNone fields);
    ("execution_mode", data_get "execution_mode" (PyStr "SERIAL") fields);
    ("max_iterations", data_get "max_iterations" (PyInt 1000) fields);
    ("skip_if", data_get "skip_if" PyNone fields); ("skip_reason", data_get "skip_reason" PyNone fields)].

Definition add_node (n : GraphNode) (g : SequenceGraph) : SequenceGraph := mkGraph (sg_nodes g ++ [n]) (sg_edges g).
Definition add_edges (sources : list string) (target : string) (g : SequenceGraph) : SequenceGraph :=
  mkGraph (sg_nodes g) (sg_edges g ++ ((λ s, mkGraphEdge s target ∅) <$> sources)).

Fixpoint yaml_to_node (parent : option string) (e : YamlEntry) (g : SequenceGraph) : SequenceGraph :=
  let 'mkEntry id fields deps steps := e in
  let step_id := default "" id in
  let loop := is_loop fields in
  let data := if loop then loop_data fields else step_data fields in
  let g := add_edges (default [] deps) step_id (add_node (mkGraphNode step_id (Some step_id) data parent) g) in
  match steps with
  | Some l => if loop then fold_left (λ g e, yaml_to_node (Some step_id) e g) l g else g
  | None => g
  end.
Definition deserialize_plan (steps : list YamlEntry) : SequenceGraph :=
  fold_left (λ g e, yaml_to_node None e g) steps (mkGraph [] []).

(** ** Plans *)

(** The data of a node made from a step or loop. *)
Definition dsl_step_data (s : YamlStep) : pydict string pyval :=
  PyDict [("script", PyStr (ys_script s)); ("params", raw_dict (ys_params s));
    ("resources", raw_dict (ys_resources s)); ("timeout", PyInt (ys_timeout s)); ("retry", PyInt (ys_retry s));
    ("on_fail", raw_opt (ys_on_fail s)); ("export_outputs", PyBool (ys_export_outputs s));
    ("skip_if", raw_opt (ys_skip_if s)); ("skip_reason", raw_opt (ys_skip_reason s))].
Definition dsl_loop_data (l : LoopSpec) : pydict string pyval :=
  PyDict [("loop_type", PyStr (loop_type_value (yl_type l))); ("count", from_option PyInt PyNone (yl_count l));
    ("condition", raw_opt (yl_condition l)); ("collection", raw_opt (yl_collection l));
    ("iterator_var", raw_opt (yl_iterator_var l)); ("execution_mode", PyStr (execution_mode_value (yl_mode l)));
    ("max_iterations", PyInt (yl_max_iterations l)); ("skip_if", raw_opt (yl_skip_if l));
    ("skip_reason", raw_opt (yl_skip_reason l))].

Definition top_id (n : YamlNode) : string :=
  match n with StepNode s _ => ys_id s | LoopNode spec _ => yl_id spec end.
(** [getattr(step, "preconditions", [])], or the step before. *)
Definition preconditions_of (n : YamlNode) : list string :=
  match n with StepNode s _ => ys_preconditions s | LoopNode _ _ => [] end.
Definition in_order (prev : option string) (n : YamlNode) : list string :=
  or_list (preconditions_of n) (from_option (λ i, [i]) [] prev).

(** The steps in turn, each with the one before. *)
Definition in_turn (f : option string → YamlNode → SequenceGraph → SequenceGraph) :
    option string → list YamlNode → SequenceGraph → SequenceGraph :=
  fix go prev l g :=
    match l with
    | [] => g
    | n :: l' => go (Some (top_id n)) l' (f prev n g)
    end.
Fixpoint dsl_step_to_node (parent prev : option string) (n : YamlNode) (g : SequenceGraph) : SequenceGraph :=
  let g :=
    match n with
    | StepNode s _ => add_node (mkGraphNode (ys_id s) (Some (ys_id s)) (dsl_step_data s) parent) g
    | LoopNode spec steps =>
        in_turn (dsl_step_to_node (Some (yl_id spec))) None steps
          (add_node (mkGraphNode (yl_id spec) (Some (yl_id spec)) (dsl_loop_data spec) parent) g)
    end in
  add_edges (in_order prev n) (top_id n) g.
Definition from_yaml_plan (p : YamlPlan) : SequenceGraph :=
  in_turn (dsl_step_to_node None) None (yp_steps p) (mkGraph [] []).

Definition yaml_dict_to_step (e : YamlEntry) : ParsedStep :=
  let f := ye_fields e in
  {| ps_id := PyStr (ye_id e); ps_type := None; ps_script := data_get "script" (PyStr "") f;
     ps_params := data_get "params" (PyMap []) f; ps_preconditions := raw_strs (ye_depends_on e);
     ps_depends_on := PyList []; ps_resources := data_get "resources" (PyMap []) f;
     ps_timeout := data_get "timeout" (PyInt 60) f; ps_retry := data_get "retry" (PyInt 0) f;
     ps_on_fail := data_get "on_fail" PyNone f; ps_on_failure := PyNone; ps_uut_affinity := PyNone;
     ps_barrier_name := PyNone; ps_action := PyNone; ps_fixture_id := PyNone;
     ps_export_outputs := data_get "export_outputs" (PyBool false) f;
     ps_skip_if := data_get "skip_if" PyNone f; ps_skip_reason := data_get "skip_reason" PyNone f;
     ps_condition := PyNone |}.
(** [Enum(value.upper())], with the default when there is no such member. *)
Definition member_or {A} (value : A → string) (members : list A) (otherwise : A) (v : pyval) : res A :=
  s ← upper v; Ok (default otherwise (by_value value members s)).
Definition yaml_dict_to_spec (e : YamlEntry) : res ParsedLoop :=
  let f := ye_fields e in
  loop_type ← member_or loop_type_value LOOP_TYPES FOR (data_get "loop_type" (PyStr "FOR") f);
  mode ← member_or execution_mode_value EXECUTION_MODES SERIAL (data_get "execution_mode" (PyStr "SERIAL") f);
  Ok {| pl_id := PyStr (ye_id e); pl_type := loop_type; pl_count := data_get "count" PyNone f;
        pl_condition := data_get "condition" PyNone f; pl_collection := data_get "collection" PyNone f;
        pl_iterator_var := data_get "iterator_var" PyNone f; pl_mode := mode;
        pl_max_iterations := data_get "max_iterations" (PyInt 1000) f;
        pl_skip_if := data_get "skip_if" PyNone f; pl_skip_reason := data_get "skip_reason" PyNone f;
        pl_depends_on := PyList [] |}.
Fixpoint yaml_dict_to_step_or_loop (e : YamlEntry) : res ParsedNode :=
  let 'mkEntry _ fields _ steps := e in
  if is_loop fields then
    nested ← match steps with
             | Some l => mapM (λ r, r) (map yaml_dict_to_step_or_loop l)
             | None => Ok []
             end;
    spec ← yaml_dict_to_spec e;
    Ok (ParsedLoopNode spec nested)
  else Ok (ParsedStepNode (yaml_dict_to_step e)).
Definition yaml_dict_to_plan (p : SerializedPlan) : res ParsedPlan :=
  steps ← mapM yaml_dict_to_step_or_loop (sp_steps p);
  Ok (mkParsedPlan (PyStr (sp_name p)) (PyStr (sp_version p)) (PyMap []) (PyInt 1) (PyInt 1) PyNone steps).
Definition to_yaml_plan (g : SequenceGraph) (name version : string) : res ParsedPlan :=
  p ← serialize_plan g name version; yaml_dict_to_plan p.
