(* ===== verification/PlanRoundTrip.v ===== *)
(** * Plans through the sequence editor

    What is kept when a plan goes through the graph of the editor (PlanSerializer.v): a file that
    is loaded, saved and loaded again, and a plan that is turned into a graph and back. Both are
    cases of writing a graph that was laid out from a forest. *)

From S2P Require Import Prelude PyDict PyStr Dsl Parser PlanFiles PlanSerializer.

(** ** Forests *)

Inductive Tree : Type := TNode (id : string) (data : pydict string pyval) (kids : list Tree).
Definition t_id (t : Tree) : string := let 'TNode id _ _ := t in id.
Definition t_data (t : Tree) : pydict string pyval := let 'TNode _ d _ := t in d.
Definition t_kids (t : Tree) : list Tree := let 'TNode _ _ l := t in l.

Definition root (parent : option string) (t : Tree) : GraphNode :=
  mkGraphNode (t_id t) (Some (t_id t)) (t_data t) parent.
Fixpoint flat (parent : option string) (t : Tree) : list GraphNode :=
  let 'TNode id data kids := t in
  mkGraphNode id (Some id) data parent :: concat (map (flat (Some id)) kids).
Fixpoint tree_ids (t : Tree) : list string :=
  let 'TNode id _ kids := t in id :: concat (map tree_ids kids).
Definition flats (parent : option string) (l : list Tree) : list GraphNode := concat (map (flat parent) l).
Definition forest_ids (l : list Tree) : list string := concat (map tree_ids l).

(** Only loops have children. *)
Inductive tree_ok : Tree → Prop :=
  tree_node_ok id data kids :
    (is_loop data = false → kids = []) → Forall tree_ok kids → tree_ok (TNode id data kids).

(** [u] is in the forest. *)
Inductive within : Tree → list Tree → Prop :=
  | within_root u l : u ∈ l → within u l
  | within_kids u t l : t ∈ l → within u (t_kids t) → within u l.

Section tree_ind.
Context (P : Tree → Prop) (H : ∀ id data kids, Forall P kids → P (TNode id data kids)).
Fixpoint Tree_ind' (t : Tree) : P t :=
  let fix go l : Forall P l :=
    match l return Forall P l with
    | [] => @List.Forall_nil _ P
    | u :: l' => @List.Forall_cons _ P u l' (Tree_ind' u) (go l')
    end in
  let 'TNode id data kids := t in H id data kids (go kids).
End tree_ind.

Lemma flat_root parent t : flat parent t = root parent t :: flats (Some (t_id t)) (t_kids t).
Proof. by destruct t. Qed.
Lemma tree_ids_root t : tree_ids t = t_id t :: forest_ids (t_kids t).
Proof. by destruct t. Qed.
Lemma flats_cons p t l : flats p (t :: l) = flat p t ++ flats p l.
Proof. done. Qed.
Lemma forest_ids_cons t l : forest_ids (t :: l) = tree_ids t ++ forest_ids l.
Proof. done. Qed.

(** Induction over forests. *)
Lemma forest_ind (P : list Tree → Prop) :
  P [] → (∀ t l, P (t_kids t) → P l → P (t :: l)) → ∀ l, P l.
Proof.
  intros Hnil Hcons. assert (∀ t, P (t_kids t)) as Hkids.
  { intros t. induction t as [id data kids IH] using Tree_ind'. cbn. induction IH; auto. }
  intros l. induction l; auto.
Qed.

Lemma within_nil u : ¬ within u [].
Proof. intros H. inversion H; subst; by match goal with H : _ ∈ [] |- _ => apply elem_of_nil in H end. Qed.
Lemma within_cons u t l : within u (t :: l) ↔ u = t ∨ within u (t_kids t) ∨ within u l.
Proof.
  split.
  - inversion 1 as [? ? Hin|? t' ? Hin Hk]; subst; apply elem_of_cons in Hin as [->|Hin]; eauto using within.
  - intros [->|[Hk|Hl]].
    + apply within_root. by left.
    + eapply within_kids; [by left|done].
    + inversion Hl; subst; [apply within_root; by right|eapply within_kids; [by right|done]].
Qed.
Lemma within_trans u t l : within t l → within u (t_kids t) → within u l.
Proof. induction 1; intros Hu; [by eapply within_kids|]. eapply within_kids; eauto. Qed.
Lemma within_id u l : within u l → t_id u ∈ forest_ids l.
Proof.
  induction l as [|t l IHk IHl] using forest_ind; [by intros ?%within_nil|].
  rewrite within_cons, forest_ids_cons, tree_ids_root, elem_of_app, elem_of_cons. intros [->|[H|H]]; auto.
Qed.

Section children.
Context (x : string).
Let P (n : GraphNode) : Prop := gn_parent n = Some x.
Lemma no_children p l : x ∉ forest_ids l → p ≠ Some x → base.filter P (flats p l) = [].
Proof.
  revert p. induction l as [|t l IHk IHl] using forest_ind; intros p Hx Hp; [done|].
  rewrite forest_ids_cons, tree_ids_root, elem_of_app, elem_of_cons in Hx.
  rewrite flats_cons, flat_root, filter_app, filter_cons, decide_False by done.
  rewrite IHk by naive_solver. apply IHl; naive_solver.
Qed.
Lemma own_children l : x ∉ forest_ids l → base.filter P (flats (Some x) l) = root (Some x) <$> l.
Proof.
  induction l as [|t l IH]; intros Hx; [done|].
  rewrite forest_ids_cons, tree_ids_root, elem_of_app, elem_of_cons in Hx.
  rewrite flats_cons, flat_root, filter_app, filter_cons, decide_True by done.
  rewrite no_children by naive_solver. cbn. f_equal. apply IH. naive_solver.
Qed.
End children.

(** The children of a tree in the forest are its kids. *)
Lemma laid_children u p l :
  within u l → NoDup (forest_ids l) → p ≠ Some (t_id u) →
  base.filter (λ n, gn_parent n = Some (t_id u)) (flats p l) = root (Some (t_id u)) <$> t_kids u.
Proof.
  revert p. induction l as [|t l IHk IHl] using forest_ind; intros p Hu Hnd Hp; [by apply within_nil in Hu|].
  rewrite forest_ids_cons, tree_ids_root in Hnd. apply NoDup_app in Hnd as (Hnd1 & Hdis & Hnd2).
  apply NoDup_cons in Hnd1 as [Hid Hnd1].
  rewrite flats_cons, flat_root, filter_app, filter_cons, decide_False by done.
  apply within_cons in Hu as [->|[Hu|Hu]].
  - rewrite own_children by done. rewrite no_children; [by rewrite app_nil_r| |done]. apply Hdis. by left.
  - pose proof (within_id _ _ Hu) as Hin. rewrite IHk; [|done|done|congruence].
    rewrite no_children; [by rewrite app_nil_r| |done]. apply Hdis. by right.
  - pose proof (within_id _ _ Hu) as Hin. rewrite (no_children _ (Some (t_id t)) (t_kids t)).
    + by apply IHl.
    + intros H. apply (Hdis (t_id u)); [by right|done].
    + intros [= E]. apply (Hdis (t_id u)); [rewrite E; by left|done].
Qed.
Lemma laid_top l : base.filter (λ n, gn_parent n = None) (flats None l) = root None <$> l.
Proof.
  assert (∀ k y, base.filter (λ n, gn_parent n = None) (flats (Some y) k) = []) as Hsome.
  { intros k. induction k as [|t k IHk IHl] using forest_ind; intros y; [done|].
    by rewrite flats_cons, flat_root, filter_app, filter_cons, decide_False, IHk, IHl by done. }
  induction l as [|t l IH]; [done|].
  rewrite flats_cons, flat_root, filter_app, filter_cons, decide_True by done. rewrite Hsome. cbn. by f_equal.
Qed.

(** ** What is written for a forest *)

Definition sources (edges : list GraphEdge) (id : string) : list string :=
  ge_source <$> base.filter (λ e, ge_target e = id) edges.
Lemma dep_map_sources edges id : get_default id [] (dep_map edges) = sources edges id.
Proof.
  unfold get_default, dep_map. rewrite group_by_lookup. unfold sources.
  assert (∀ l acc, foldl (λ acc x, acc ++ [ge_source x]) acc l = acc ++ (ge_source <$> l)) as H
    by apply foldl_append.
  rewrite H. cbn. f_equal. apply list_filter_iff. split; congruence.
Qed.

Fixpoint saved (edges level : list GraphEdge) (t : Tree) : YamlEntry :=
  let 'TNode id data kids := t in
  let deps := Some (py_sorted (sources level id)) in
  if is_loop data then
    mkEntry (Some id) (loop_yaml data) deps
      (match map (saved edges (among (t_id <$> kids) edges)) kids with [] => None | l => Some l end)
  else mkEntry (Some id) (step_yaml data) deps None.

Lemma flats_length p q l : length (flats p l) = length (flats q l).
Proof.
  induction l as [|t l IH]; [done|]. rewrite !flats_cons, !flat_root, !length_app, IH. done.
Qed.
Lemma kid_length p q t l : t ∈ l → length (flat p t) ≤ length (flats q l).
Proof.
  induction 1 as [|t u l _ IH]; rewrite flats_cons, length_app.
  - rewrite !flat_root. cbn. lia.
  - lia.
Qed.

Lemma node_saved forest edges fuel level parent t :
  NoDup (forest_ids forest) → within t forest → length (flat None t) ≤ fuel →
  node_to_yaml fuel (mkGraph (flats None forest) edges) (dep_map level) (root parent t) =
  Ok (saved edges level t).
Proof.
  intros Hnd. revert level parent t. induction fuel as [|fuel IH]; intros level parent t Ht Hf.
  { rewrite flat_root in Hf. cbn in Hf. lia. }
  cbn [node_to_yaml]. rewrite dep_map_sources. destruct t as [id data kids].
  cbn [root gn_id gn_data gn_data_id t_id t_data default saved]. destruct (is_loop data); [|done].
  unfold children. cbn [sg_nodes sg_edges].
  pose proof (laid_children _ None _ Ht Hnd) as Hc. cbn [t_id t_kids] in Hc. rewrite Hc by done.
  assert (gn_id <$> (root (Some id) <$> kids) = t_id <$> kids) as ->
    by (rewrite <-list_fmap_compose; by apply list_fmap_ext).
  set (level' := among (t_id <$> kids) edges).
  assert (mapM (node_to_yaml fuel (mkGraph (flats None forest) edges) (dep_map level')) (root (Some id) <$> kids) =
    Ok (saved edges level' <$> kids)) as ->; [|by destruct kids].
  apply res_mapM_Ok, Forall2_fmap, Forall_Forall2_diag, Forall_forall. intros u Hu. apply IH.
  - eapply within_trans; [exact Ht|]. by apply within_root.
  - pose proof (kid_length None (Some id) u kids Hu). rewrite flat_root in Hf. cbn [length t_kids t_id] in Hf. lia.
Qed.
Lemma serialize_forest forest edges name version :
  NoDup (forest_ids forest) →
  serialize_plan (mkGraph (flats None forest) edges) name version =
  Ok (mkSerialized name version (saved edges edges <$> forest)).
Proof.
  intros Hnd. unfold serialize_plan. cbn [sg_nodes sg_edges]. rewrite laid_top.
  assert (mapM (node_to_yaml (length (flats None forest)) (mkGraph (flats None forest) edges) (dep_map edges))
    (root None <$> forest) = Ok (saved edges edges <$> forest)) as ->; [|done].
  apply res_mapM_Ok, Forall2_fmap, Forall_Forall2_diag, Forall_forall. intros u Hu. apply node_saved; [done| |].
  - by apply within_root.
  - by apply kid_length.
Qed.

Lemma flats_ids p l : gn_id <$> flats p l = forest_ids l.
Proof.
  revert p. induction l as [|t l IHk IHl] using forest_ind; intros p; [done|].
  by rewrite flats_cons, flat_root, fmap_app, fmap_cons, IHk, IHl, forest_ids_cons, tree_ids_root.
Qed.
Lemma kid_node p l t u : within t l → u ∈ t_kids t → root (Some (t_id t)) u ∈ flats p l.
Proof.
  revert p. induction l as [|v l IHk IHl] using forest_ind; intros p Ht Hu; [by apply within_nil in Ht|].
  rewrite flats_cons, flat_root. apply elem_of_app. apply within_cons in Ht as [->|[Ht|Ht]]; [left; right|left; right|right]; auto.
  clear -Hu. induction Hu as [t' l|t' w l _ IH]; rewrite flats_cons, flat_root; [left|].
  apply elem_of_app. by right.
Qed.
Lemma within_node p l n : n ∈ flats p l → ∃ t q, within t l ∧ n = root q t.
Proof.
  revert p. induction l as [|v l IHk IHl] using forest_ind; intros p Hn; [by apply elem_of_nil in Hn|].
  rewrite flats_cons, flat_root in Hn. setoid_rewrite within_cons.
  apply elem_of_app in Hn as [[->|Hn]%elem_of_cons|Hn]; [by eauto|..].
  - destruct (IHk _ Hn) as (t & q & ? & ?). eauto 6.
  - destruct (IHl _ Hn) as (t & q & ? & ?). eauto 6.
Qed.

(** Edges into the kids of a tree come from its kids. *)
Definition local_edges (edges : list GraphEdge) (forest : list Tree) : Prop :=
  ∀ t u e, within t forest → u ∈ t_kids t → e ∈ edges → ge_target e = t_id u → ge_source e ∈ t_id <$> t_kids t.
Definition graph_local (g : SequenceGraph) : Prop :=
  ∀ e n, e ∈ sg_edges g → n ∈ sg_nodes g → gn_id n = ge_target e → gn_parent n ≠ None →
    ∃ m, m ∈ sg_nodes g ∧ gn_id m = ge_source e ∧ gn_parent m = gn_parent n.
Lemma laid_local edges forest :
  NoDup (forest_ids forest) → graph_local (mkGraph (flats None forest) edges) → local_edges edges forest.
Proof.
  intros Hnd Hl t u e Ht Hu He Hid.
  destruct (Hl e (root (Some (t_id t)) u)) as (m & Hm & <- & Hp); [done|by apply kid_node|done..|].
  cbn in Hm, Hp. assert (m ∈ base.filter (λ n, gn_parent n = Some (t_id t)) (flats None forest)) as Hf
    by by apply list_elem_of_filter.
  rewrite laid_children in Hf by done. apply list_elem_of_fmap in Hf as (v & -> & Hv).
  change (t_id v ∈ t_id <$> t_kids t). by apply list_elem_of_fmap_2.
Qed.

(** The dependencies written for each node, level by level, are those of the graph. *)
Lemma local_sources edges forest t u :
  local_edges edges forest → within t forest → u ∈ t_kids t →
  sources (among (t_id <$> t_kids t) edges) (t_id u) = sources edges (t_id u).
Proof.
  intros Hl Ht Hu. unfold sources, among. f_equal. rewrite list_filter_filter.
  apply list_filter_iff_strong. intros e He. split; [by intros [? _]|]. intros Hid.
  split; [done|]. split; [by eapply Hl|]. rewrite Hid. by apply list_elem_of_fmap_2.
Qed.

(** ** Reading as laying out *)

Section entry_ind.
Context (P : YamlEntry → Prop) (H : ∀ id f d steps, Forall P (default [] steps) → P (mkEntry id f d steps)).
Fixpoint YamlEntry_ind' (e : YamlEntry) : P e :=
  let fix go l : Forall P l :=
    match l return Forall P l with
    | [] => @List.Forall_nil _ P
    | u :: l' => @List.Forall_cons _ P u l' (YamlEntry_ind' u) (go l')
    end in
  let 'mkEntry id f d steps := e in
  H id f d steps (match steps return Forall P (default [] steps) with Some l => go l | None => @List.Forall_nil _ P end).
End entry_ind.

Definition node_data (fields : pydict string pyval) : pydict string pyval :=
  if is_loop fields then loop_data fields else step_data fields.
Fixpoint entry_tree (e : YamlEntry) : Tree :=
  let 'mkEntry id fields _ steps := e in
  TNode (default "" id) (node_data fields)
    (match steps with Some l => if is_loop fields then map entry_tree l else [] | None => [] end).
Definition edges_to (target : string) (l : list string) : list GraphEdge := (λ s, mkGraphEdge s target ∅) <$> l.
Fixpoint entry_edges (e : YamlEntry) : list GraphEdge :=
  let 'mkEntry id fields deps steps := e in
  edges_to (default "" id) (default [] deps) ++
  match steps with Some l => if is_loop fields then concat (map entry_edges l) else [] | None => [] end.

Lemma graph_eta g : mkGraph (sg_nodes g) (sg_edges g) = g.
Proof. by destruct g. Qed.
Lemma read_forest parent l g :
  Forall (λ e, ∀ parent g, yaml_to_node parent e g =
    mkGraph (sg_nodes g ++ flat parent (entry_tree e)) (sg_edges g ++ entry_edges e)) l →
  fold_left (λ g e, yaml_to_node parent e g) l g =
  mkGraph (sg_nodes g ++ flats parent (map entry_tree l)) (sg_edges g ++ concat (map entry_edges l)).
Proof.
  intros H. revert g. induction H as [|e l He _ IH]; intros g; cbn.
  - by rewrite !app_nil_r, graph_eta.
  - rewrite IH, He. cbn. by rewrite <-!app_assoc.
Qed.
Lemma yaml_to_node_eq parent e g : yaml_to_node parent e g =
  mkGraph (sg_nodes g ++ flat parent (entry_tree e)) (sg_edges g ++ entry_edges e).
Proof.
  revert parent g. induction e as [id f d steps IH] using YamlEntry_ind'. intros parent g. cbn [yaml_to_node entry_tree entry_edges flat].
  destruct steps as [l|]; cbn [default] in *; [destruct (is_loop f) eqn:Ef|].
  - rewrite read_forest by done. unfold add_edges, add_node, node_data, flats. cbn. rewrite Ef. by rewrite <-!app_assoc.
  - unfold add_edges, add_node, node_data. cbn. by rewrite Ef, app_nil_r.
  - unfold add_edges, add_node, node_data. cbn. by rewrite app_nil_r.
Qed.
Lemma deserialize_eq l :
  deserialize_plan l = mkGraph (flats None (map entry_tree l)) (concat (map entry_edges l)).
Proof. unfold deserialize_plan. rewrite read_forest; [done|]. apply Forall_forall. intros. apply yaml_to_node_eq. Qed.

Lemma is_loop_node f : is_loop (node_data f) = is_loop f.
Proof. unfold node_data. by destruct (is_loop f). Qed.
Lemma entry_tree_ok e : tree_ok (entry_tree e).
Proof.
  induction e as [id f d steps IH] using YamlEntry_ind'. constructor; [|destruct steps as [l|]; [|constructor]; destruct (is_loop f); [|constructor]].
  - rewrite is_loop_node. intros ->. by destruct steps.
  - apply Forall_fmap. done.
Qed.

(** ** Data that survives *)

(** Entries with a default other than None are not null, and zero is written as 0 or False. *)
Definition keeps_entry (data : pydict string pyval) (k : string) : Prop := data !! k ≠ Some PyNone.
Definition data_stable (data : pydict string pyval) : Prop :=
  if is_loop data then keeps_entry data "execution_mode" ∧ keeps_entry data "max_iterations"
  else keeps_entry data "params" ∧ keeps_entry data "resources" ∧ keeps_entry data "timeout" ∧
    (∀ v, data !! "retry" = Some v → v ≠ PyNone ∧ (is_zero v = true → v = PyInt 0)) ∧
    (∀ v, data !! "export_outputs" = Some v → v ≠ PyNone ∧ (is_zero v = true → v = PyBool false)).

Lemma copy_lookup omit data keys r k :
  copy_fields omit data keys r !! k =
  match data !! k with
  | Some v => if str_in k keys && negb (is_none v || omit k v) then Some v else r !! k
  | None => r !! k
  end.
Proof.
  induction keys as [|key keys IH] using rev_ind.
  { cbn. by destruct (data !! k). }
  unfold copy_fields in *. rewrite foldl_app. cbn [foldl].
  set (r' := foldl _ r keys) in *. unfold str_in in *.
  destruct (decide (k = key)) as [->|Hne].
  - rewrite (bool_decide_true (key ∈ _)) by set_solver. cbn [andb].
    destruct (data !! key) as [v|]; [|done]. destruct (is_none v || omit key v) eqn:Ev; cbn.
    + rewrite IH. by rewrite andb_false_r.
    + by rewrite dict_lookup_insert_eq.
  - assert (bool_decide (k ∈ keys ++ [key]) = bool_decide (k ∈ keys)) as -> by (apply bool_decide_ext; set_solver).
    rewrite <-IH. destruct (data !! key) as [v|]; [|done]. destruct (is_none v || omit key v); [done|].
    by rewrite dict_lookup_insert_ne.
Qed.

(** An entry is read back when it is written, or left out at the default of the reader. *)
Lemma get_kept omit data keys r k d v :
  data !! k = Some v → (str_in k keys && negb (is_none v || omit k v) = false → default d (r !! k) = v) →
  data_get k d (copy_fields omit data keys r) = v.
Proof.
  intros Hk Hr. unfold data_get. rewrite copy_lookup, Hk. destruct (str_in k keys && _); [done|by apply Hr].
Qed.
Ltac read_back :=
  repeat match goal with |- context [data_get ?k ?d (copy_fields ?omit ?data ?keys ?r)] =>
    rewrite (get_kept omit data keys r k d _ eq_refl) end.
(** The reader's default is what was left out. *)
Lemma left_out_none v : true && negb (is_none v || false) = false → PyNone = v.
Proof. by destruct v. Qed.
Lemma left_out_zero v z : v ≠ PyNone → (is_zero v = true → v = z) → true && negb (is_none v || is_zero v) = false → z = v.
Proof. intros Hn Hz. destruct (is_zero v) eqn:E; [symmetry; auto|]. by destruct v. Qed.
Lemma left_out_dict k v : str_in k ["params"; "resources"] = true → v ≠ PyNone →
  true && negb (is_none v || equals_default k v) = false → PyMap [] = v.
Proof. intros Hk Hn. unfold equals_default. rewrite Hk. destruct v as [| | | | | |[]|]; try done. Qed.

Lemma left_out_never v w : v ≠ PyNone → true && negb (is_none v || false) = false → w = v.
Proof. by destruct v. Qed.
Lemma keeps_value data k v : keeps_entry data k → data !! k = Some v → v ≠ PyNone.
Proof. unfold keeps_entry. congruence. Qed.

Lemma reread_step f : data_stable (step_data f) → step_data (step_yaml (step_data f)) = step_data f.
Proof.
  unfold data_stable. change (is_loop (step_data f)) with false.
  intros (Hp & Hr & Ht & Hretry & Hexport).
  destruct (Hretry _ eq_refl) as [Hr1 Hr2]. destruct (Hexport _ eq_refl) as [He1 He2].
  unfold step_data at 1. unfold step_yaml. read_back; [done|..];
    first [exact (left_out_none _) | exact (left_out_zero _ _ He1 He2) | exact (left_out_zero _ _ Hr1 Hr2)
      | exact (left_out_never _ _ (keeps_value _ _ _ Ht eq_refl))
      | exact (left_out_dict "resources" _ eq_refl (keeps_value _ _ _ Hr eq_refl))
      | exact (left_out_dict "params" _ eq_refl (keeps_value _ _ _ Hp eq_refl)) | done].
Qed.
Lemma reread_loop f : data_stable (loop_data f) → loop_data (loop_yaml (loop_data f)) = loop_data f.
Proof.
  unfold data_stable. change (is_loop (loop_data f)) with true. intros (Hm & Hi).
  unfold loop_data at 1. unfold loop_yaml. read_back; [done|..];
    first [exact (left_out_none _) | exact (left_out_never _ _ (keeps_value _ _ _ Hm eq_refl))
      | exact (left_out_never _ _ (keeps_value _ _ _ Hi eq_refl)) | done].
Qed.

(** ** Load, save, load *)

Definition fields_of (data : pydict string pyval) : pydict string pyval :=
  if is_loop data then loop_yaml data else step_yaml data.
Definition rereads (data : pydict string pyval) : Prop := node_data (fields_of data) = data.
Lemma is_loop_yaml data : is_loop (loop_yaml data) = true.
Proof. unfold is_loop, has_key, loop_yaml. rewrite copy_lookup. by destruct (data !! "loop_type"). Qed.
Lemma is_loop_step_yaml data : is_loop (step_yaml data) = false.
Proof. unfold is_loop, has_key, step_yaml. rewrite copy_lookup. by destruct (data !! "loop_type"). Qed.
Lemma is_loop_fields data : is_loop (fields_of data) = is_loop data.
Proof. unfold fields_of. destruct (is_loop data); [apply is_loop_yaml|apply is_loop_step_yaml]. Qed.
Lemma stable_rereads f : data_stable (node_data f) → rereads (node_data f).
Proof.
  intros H. unfold rereads, node_data at 1. rewrite is_loop_fields. unfold fields_of. rewrite is_loop_node.
  unfold node_data in *. destruct (is_loop f); [by apply reread_loop|by apply reread_step].
Qed.

Definition saved_kids (edges : list GraphEdge) (t : Tree) : list YamlEntry :=
  saved edges (among (t_id <$> t_kids t) edges) <$> t_kids t.
Lemma saved_eq edges level t : tree_ok t →
  saved edges level t = mkEntry (Some (t_id t)) (fields_of (t_data t)) (Some (py_sorted (sources level (t_id t))))
    (match saved_kids edges t with [] => None | l => Some l end).
Proof.
  intros H. destruct H as [id data kids Hk _]. cbn [saved t_id t_data t_kids]. unfold fields_of, saved_kids.
  cbn [t_kids]. destruct (is_loop data); [done|]. by rewrite Hk.
Qed.

Fixpoint tree_data (t : Tree) : list (pydict string pyval) :=
  let 'TNode _ data kids := t in data :: concat (map tree_data kids).
Lemma flats_data p l : gn_data <$> flats p l = concat (map tree_data l).
Proof.
  revert p. induction l as [|[id data kids] l IHk IHl] using forest_ind; intros p; [done|].
  rewrite flats_cons, flat_root, fmap_app, fmap_cons, IHk, IHl. done.
Qed.
Lemma saved_tree edges level t :
  tree_ok t → Forall rereads (tree_data t) → entry_tree (saved edges level t) = t.
Proof.
  revert level. induction t as [id data kids IH] using Tree_ind'. intros level Hok Hd. rewrite saved_eq by done.
  cbn [entry_tree t_id t_data default]. rewrite is_loop_fields. inversion Hok as [? ? ? Hk Hoks]; subst.
  cbn [tree_data] in Hd. apply Forall_cons in Hd as [Hd Hds].
  f_equal; [exact Hd|]. transitivity (map entry_tree (saved_kids edges (TNode id data kids))).
  - destruct (is_loop data) eqn:El; [by destruct (saved_kids _ _)|]. by rewrite Hk.
  - unfold saved_kids. cbn [t_kids]. set (level' := among _ _). rewrite map_map. clearbody level'. clear Hk Hok.
    induction IH as [|t l Ht _ IHl]; [done|]. apply Forall_cons in Hoks as [Hok Hoks].
    cbn in Hds. apply Forall_app in Hds as [Hdt Hdl]. cbn. f_equal; auto.
Qed.

Lemma edges_by_target (ids : list string) (edges : list GraphEdge) :
  NoDup ids → (∀ e, e ∈ edges → ge_target e ∈ ids) →
  edges ≡ₚ concat (map (λ i, base.filter (λ e, ge_target e = i) edges) ids).
Proof.
  revert edges. induction ids as [|i ids IH]; intros edges Hnd Hin.
  { destruct edges as [|e edges]; [done|]. exfalso. by apply (not_elem_of_nil (ge_target e)), Hin; left. }
  apply NoDup_cons in Hnd as [Hi Hnd]. cbn. rewrite <-(filter_app_complement (λ e, ge_target e = i) edges) at 1.
  f_equiv. rewrite (IH (base.filter (λ e, ¬ ge_target e = i) edges)); [|done|].
  - assert (map (λ j, base.filter (λ e, ge_target e = j) (base.filter (λ e, ge_target e ≠ i) edges)) ids =
      map (λ j, base.filter (λ e, ge_target e = j) edges) ids) as ->; [|done].
    apply map_ext_in. intros j Hj%list_elem_of_In. apply list_filter_filter_l. congruence.
  - intros e [Hne He]%list_elem_of_filter. specialize (Hin e He). by apply elem_of_cons in Hin as [?|?].
Qed.
Lemma edges_to_sources edges id :
  (∀ e, e ∈ edges → ge_data e = ∅) → edges_to id (sources edges id) = base.filter (λ e, ge_target e = id) edges.
Proof.
  intros H. unfold edges_to, sources. induction edges as [|[s t d] edges IH]; [done|].
  assert (edges_to id (sources edges id) = base.filter (λ e, ge_target e = id) edges) as E
    by (apply IH; intros; apply H; by right).
  rewrite filter_cons. cbn [ge_target]. case_decide; [|exact E]. subst. rewrite <-E at 2.
  pose proof (H (mkGraphEdge s id d)) as Hd. cbn in Hd. by rewrite Hd by left.
Qed.

(** The edges that are read back, node by node. *)
Lemma saved_edges edges level forest t :
  local_edges edges forest → within t forest → tree_ok t → sources level (t_id t) = sources edges (t_id t) →
  entry_edges (saved edges level t) ≡ₚ concat (map (λ i, edges_to i (sources edges i)) (tree_ids t)).
Proof.
  intros Hl. revert level. induction t as [id data kids IH] using Tree_ind'. intros level Ht Hok Hs.
  rewrite saved_eq by done. cbn [entry_edges default tree_ids t_id t_data map concat] in *. rewrite Hs, is_loop_fields.
  f_equiv; [apply fmap_Permutation, py_sorted_perm|].
  inversion Hok as [? ? ? Hk Hoks]; subst.
  transitivity (concat (map entry_edges (saved_kids edges (TNode id data kids)))).
  { destruct (is_loop data) eqn:El; [by destruct (saved_kids _ _)|]. by rewrite Hk. }
  unfold saved_kids. cbn [t_kids]. rewrite concat_map, !map_map.
  assert (∀ u, u ∈ kids → entry_edges (saved edges (among (t_id <$> kids) edges) u) ≡ₚ
    concat (map (λ i, edges_to i (sources edges i)) (tree_ids u))) as Hu.
  { intros u Hu. rewrite !Forall_forall in *. apply IH; auto.
    - eapply within_trans; [exact Ht|]. by apply within_root.
    - by apply (local_sources edges forest (TNode id data kids)). }
  clear IH Hok Hk Hoks Ht Hs. set (level' := among _ _) in *. clearbody level'.
  induction kids as [|u kids IHk]; [done|]. cbn. rewrite concat_app. f_equiv; [apply Hu; left|].
  apply IHk. intros v Hv. apply Hu. by right.
Qed.

Lemma reread_forest edges forest :
  NoDup (forest_ids forest) → local_edges edges forest → Forall tree_ok forest →
  Forall rereads (concat (map tree_data forest)) →
  (∀ e, e ∈ edges → ge_target e ∈ forest_ids forest ∧ ge_data e = ∅) →
  let g := deserialize_plan (saved edges edges <$> forest) in
  sg_nodes g = flats None forest ∧ sg_edges g ≡ₚ edges.
Proof.
  intros Hnd Hl Hok Hd He g. subst g. rewrite deserialize_eq. cbn [sg_nodes sg_edges]. rewrite !map_map. split.
  - f_equal. clear Hnd Hl He. induction forest as [|t l IH]; [done|]. apply Forall_cons in Hok as [Hok Hoks].
    cbn in Hd. apply Forall_app in Hd as [Hdt Hdl]. cbn. f_equal; [by apply saved_tree|by apply IH].
  - transitivity (concat (map (λ i, edges_to i (sources edges i)) (forest_ids forest))).
    + unfold forest_ids. rewrite concat_map, map_map.
      assert (∀ u, u ∈ forest → entry_edges (saved edges edges u) ≡ₚ
        concat (map (λ i, edges_to i (sources edges i)) (tree_ids u))) as Hu.
      { intros u Hu. rewrite Forall_forall in Hok. apply (saved_edges _ _ forest); auto. by apply within_root. }
      clear -Hu. induction forest as [|u l IH]; [done|]. cbn. rewrite concat_app. f_equiv; [apply Hu; left|].
      apply IH. intros v Hv. apply Hu. by right.
    + symmetry. etrans; [by apply (edges_by_target (forest_ids forest)); [|apply He]|].
      assert (map (λ i, base.filter (λ e, ge_target e = i) edges) (forest_ids forest) =
        map (λ i, edges_to i (sources edges i)) (forest_ids forest)) as ->; [|done].
      apply map_ext_in. intros i _. symmetry. apply edges_to_sources, He.
Qed.

Lemma elem_of_concat_map {A B} (f : A → list B) l x : x ∈ concat (map f l) ↔ ∃ y, y ∈ l ∧ x ∈ f y.
Proof.
  induction l as [|y l IH]; cbn; [|rewrite elem_of_app, IH; setoid_rewrite elem_of_cons; naive_solver].
  split; [by intros ?%elem_of_nil|]. by intros (y & ?%elem_of_nil & _).
Qed.
Lemma entry_edge_target e y : e ∈ entry_edges y → ge_target e ∈ tree_ids (entry_tree y) ∧ ge_data e = ∅.
Proof.
  induction y as [id f d steps IH] using YamlEntry_ind'. cbn [entry_edges entry_tree tree_ids].
  rewrite elem_of_app, elem_of_cons. intros [(s & -> & _)%list_elem_of_fmap|He]; [by split; [left|]|].
  destruct steps as [k|]; [|by apply elem_of_nil in He]. destruct (is_loop f); [|by apply elem_of_nil in He].
  apply elem_of_concat_map in He as (y & Hy & He). cbn in IH. rewrite Forall_forall in IH.
  destruct (IH y Hy He). split; [right|done]. apply elem_of_concat_map. exists (entry_tree y).
  split; [by apply list_elem_of_fmap_2|done].
Qed.
Lemma entry_tree_data y data : data ∈ tree_data (entry_tree y) → ∃ f, data = node_data f.
Proof.
  induction y as [id f d steps IH] using YamlEntry_ind'. cbn [entry_tree tree_data].
  rewrite elem_of_cons. intros [->|He]; [by eexists|].
  destruct steps as [k|]; [|by apply elem_of_nil in He]. destruct (is_loop f); [|by apply elem_of_nil in He].
  apply elem_of_concat_map in He as (t & (y & -> & Hy)%list_elem_of_fmap & He). cbn in IH.
  rewrite Forall_forall in IH. by apply (IH y).
Qed.

(** C28. Loading, saving and loading again: the graph loaded from a file, provided its ids are
    distinct, the dependencies of a nested node are nodes of the same loop and no entry is null or
    a zero of another type than its default, can be written, and what is written is read as the
    same graph, with the same nodes in the same order, their data and parents, and the same edges
    up to their order. *)
Theorem load_save_load entries name version :
  let g := deserialize_plan entries in
  NoDup (gn_id <$> sg_nodes g) → graph_local g → Forall (λ n, data_stable (gn_data n)) (sg_nodes g) →
  ∃ p, serialize_plan g name version = Ok p ∧
    sg_nodes (deserialize_plan (sp_steps p)) = sg_nodes g ∧
    sg_edges (deserialize_plan (sp_steps p)) ≡ₚ sg_edges g.
Proof.
  intros g. subst g. rewrite deserialize_eq. cbn [sg_nodes]. rewrite flats_ids. intros Hnd Hl Hs.
  apply laid_local in Hl; [|done]. set (edges := concat (map entry_edges entries)) in *.
  eexists. split; [by apply serialize_forest|]. cbn [sp_steps sg_edges].
  apply reread_forest; [done..| | |].
  - apply Forall_fmap, Forall_forall. intros y _. apply entry_tree_ok.
  - rewrite <-(Forall_fmap gn_data data_stable), flats_data in Hs. rewrite Forall_forall in *. intros data Hin.
    specialize (Hs data Hin). apply elem_of_concat_map in Hin as (t & (y & -> & _)%list_elem_of_fmap & Hin).
    apply entry_tree_data in Hin as [f ->]. by apply stable_rereads.
  - intros e (y & Hy & [He Hd]%entry_edge_target)%elem_of_concat_map. split; [|done].
    apply elem_of_concat_map. exists (entry_tree y). split; [by apply list_elem_of_fmap_2|done].
Qed.

(** ** A plan through the graph *)

(** [f] of each node and the id of the one before. *)
Definition turn_map {B} (f : option string → YamlNode → B) : option string → list YamlNode → list B :=
  fix go prev l :=
    match l with
    | [] => []
    | n :: l' => f prev n :: go (Some (top_id n)) l'
    end.

Fixpoint plan_tree (n : YamlNode) : Tree :=
  match n with
  | StepNode s _ => TNode (ys_id s) (dsl_step_data s) []
  | LoopNode spec steps => TNode (yl_id spec) (dsl_loop_data spec) (map plan_tree steps)
  end.
(** The nodes and what each depends on, in the order their edges are made. *)
Fixpoint assigned (prev : option string) (n : YamlNode) : list (string * list string) :=
  match n with
  | StepNode _ _ => []
  | LoopNode _ steps => concat (turn_map assigned None steps)
  end ++ [(top_id n, in_order prev n)].
Definition all_edges (l : list (string * list string)) : list GraphEdge :=
  concat (map (λ a, edges_to a.1 a.2) l).

(** The plan with its order made explicit, and without what the graph has no place for. *)
Fixpoint explicit (prev : option string) (n : YamlNode) : YamlNode :=
  match n with
  | StepNode s _ =>
      StepNode (mkStep (ys_id s) None (ys_script s) (ys_params s) (py_sorted (in_order prev n)) []
        (ys_resources s) (ys_timeout s) (ys_retry s) (ys_on_fail s) None None None None None
        (ys_export_outputs s) (ys_skip_if s) (ys_skip_reason s) None) []
  | LoopNode l steps =>
      LoopNode (mkLoop (yl_id l) (yl_type l) (yl_count l) (yl_condition l) (yl_collection l) (yl_iterator_var l)
        (yl_mode l) (yl_max_iterations l) (yl_skip_if l) (yl_skip_reason l) [])
        (turn_map explicit None steps)
  end.

Lemma all_edges_app l l' : all_edges (l ++ l') = all_edges l ++ all_edges l'.
Proof. unfold all_edges. by rewrite map_app, concat_app. Qed.
Lemma plan_tree_id n : t_id (plan_tree n) = top_id n.
Proof. by destruct n. Qed.

Lemma in_turn_forest parent l :
  Forall (λ n, ∀ parent prev g, dsl_step_to_node parent prev n g =
    mkGraph (sg_nodes g ++ flat parent (plan_tree n)) (sg_edges g ++ all_edges (assigned prev n))) l →
  ∀ prev g, in_turn (dsl_step_to_node parent) prev l g =
    mkGraph (sg_nodes g ++ flats parent (map plan_tree l)) (sg_edges g ++ all_edges (concat (turn_map assigned prev l))).
Proof.
  induction 1 as [|n l Hn _ IH]; intros prev g.
  - cbn. by rewrite !app_nil_r, graph_eta.
  - change (in_turn (dsl_step_to_node parent) prev (n :: l) g) with
      (in_turn (dsl_step_to_node parent) (Some (top_id n)) l (dsl_step_to_node parent prev n g)).
    rewrite Hn, IH. cbn [sg_nodes sg_edges]. rewrite <-!app_assoc, <-all_edges_app. done.
Qed.
Lemma dsl_node_eq n parent prev g : dsl_step_to_node parent prev n g =
  mkGraph (sg_nodes g ++ flat parent (plan_tree n)) (sg_edges g ++ all_edges (assigned prev n)).
Proof.
  revert parent prev g. induction n as [s inner _|spec steps IH] using YamlNode_ind'; intros parent prev g.
  - cbn. unfold add_edges, add_node, all_edges. cbn. by rewrite app_nil_r.
  - cbn [dsl_step_to_node assigned]. rewrite in_turn_forest by done. rewrite all_edges_app.
    unfold add_edges, add_node, flats. cbn [sg_nodes sg_edges]. rewrite <-!app_assoc.
    change (all_edges [(top_id (LoopNode spec steps), in_order prev (LoopNode spec steps))]) with
      (edges_to (yl_id spec) (in_order prev (LoopNode spec steps)) ++ []). by rewrite app_nil_r.
Qed.
Lemma from_plan_eq p : from_yaml_plan p =
  mkGraph (flats None (map plan_tree (yp_steps p))) (all_edges (concat (turn_map assigned None (yp_steps p)))).
Proof. unfold from_yaml_plan. rewrite in_turn_forest; [done|]. apply Forall_forall. intros. apply dsl_node_eq. Qed.

(** Each node has one place in the order. *)
Lemma sources_edges_to i j l : sources (edges_to j l) i = if decide (j = i) then l else [].
Proof.
  unfold sources, edges_to. induction l as [|s l IH]; [by case_decide|]. rewrite fmap_cons, filter_cons. cbn [ge_target].
  case_decide; [cbn; by f_equal|done].
Qed.
Lemma sources_app E1 E2 i : sources (E1 ++ E2) i = sources E1 i ++ sources E2 i.
Proof. unfold sources. by rewrite filter_app, fmap_app. Qed.
Lemma sources_none (A : list (string * list string)) i : i ∉ A.*1 → sources (all_edges A) i = [].
Proof.
  induction A as [|a A IH]; [done|]. cbn [fmap list_fmap]. intros [Ha Hi]%not_elem_of_cons.
  change (all_edges (a :: A)) with (edges_to a.1 a.2 ++ all_edges A).
  rewrite sources_app, sources_edges_to, decide_False by done. by apply IH.
Qed.
Lemma sources_assigned (A : list (string * list string)) a : NoDup A.*1 → a ∈ A → sources (all_edges A) a.1 = a.2.
Proof.
  induction A as [|b A IH]; [by intros _ ?%elem_of_nil|]. cbn [fmap list_fmap].
  intros [Hb Hnd]%NoDup_cons Hin.
  change (all_edges (b :: A)) with (edges_to b.1 b.2 ++ all_edges A). rewrite sources_app, sources_edges_to.
  apply elem_of_cons in Hin as [->|Hin].
  - rewrite decide_True by done. rewrite (sources_none A) by done. apply app_nil_r.
  - rewrite decide_False; [by apply IH|]. intros E. apply Hb. rewrite E. by apply list_elem_of_fmap_2.
Qed.

Lemma assigned_list_ids l : Forall (λ n, ∀ prev, (assigned prev n).*1 ≡ₚ node_ids n) l →
  ∀ prev, (concat (turn_map assigned prev l)).*1 ≡ₚ concat (map node_ids l).
Proof.
  induction 1 as [|n l Hn _ IH]; intros prev; [done|]. cbn. rewrite fmap_app. f_equiv; [apply Hn|apply IH].
Qed.
Lemma assigned_ids n prev : (assigned prev n).*1 ≡ₚ node_ids n.
Proof.
  revert prev. induction n as [s inner _|spec steps IH] using YamlNode_ind'; intros prev; cbn; [done|].
  rewrite fmap_app, (assigned_list_ids _ IH). cbn. by rewrite Permutation_app_comm.
Qed.
Lemma plan_tree_ids n : tree_ids (plan_tree n) = node_ids n.
Proof.
  induction n as [s inner _|spec steps IH] using YamlNode_ind'; cbn; [done|]. f_equal. f_equal.
  rewrite map_map. apply map_ext_in. intros m Hm%list_elem_of_In. rewrite Forall_forall in IH. by apply IH.
Qed.
Lemma plan_tree_ok n : tree_ok (plan_tree n).
Proof.
  induction n as [s inner _|spec steps IH] using YamlNode_ind'; cbn; constructor; try done.
  by apply Forall_fmap.
Qed.

(** *** Back to a plan *)

Lemma dsl_step_reread s : step_data (step_yaml (dsl_step_data s)) = dsl_step_data s.
Proof.
  change (dsl_step_data s) with (step_data (dsl_step_data s)). apply reread_step.
  unfold data_stable, keeps_entry. cbn. split_and!; try by intros [=].
  - intros v E. change (Some (PyInt (ys_retry s)) = Some v) in E. injection E as <-. split; [done|].
    cbn. by destruct (Z.eqb_spec (ys_retry s) 0) as [->|].
  - intros v E. change (Some (PyBool (ys_export_outputs s)) = Some v) in E. injection E as <-.
    split; [done|]. by destruct (ys_export_outputs s).
Qed.
Lemma dsl_loop_reread l : loop_data (loop_yaml (dsl_loop_data l)) = dsl_loop_data l.
Proof.
  change (dsl_loop_data l) with (loop_data (dsl_loop_data l)). apply reread_loop.
  unfold data_stable, keeps_entry. cbn. split; by intros [=].
Qed.

Lemma back_step prev s inner :
  typed_step (yaml_dict_to_step (mkEntry (Some (ys_id s)) (step_yaml (dsl_step_data s))
    (Some (py_sorted (in_order prev (StepNode s inner)))) None)) =
  match explicit prev (StepNode s inner) with StepNode s' _ => Some s' | LoopNode _ _ => None end.
Proof.
  pose proof (dsl_step_reread s) as H. generalize dependent (step_yaml (dsl_step_data s)). intros f H.
  unfold step_data, dsl_step_data in H.
  injection H as H1 H2 H3 H4 H5 H6 H7 H8 H9. unfold yaml_dict_to_step. cbn [ye_id ye_fields ye_depends_on default].
  rewrite H1, H2, H3, H4, H5, H6, H7, H8, H9. cbn [explicit].
  set (s' := mkStep _ _ _ _ _ _ _ _ _ _ _ _ _ _ _ _ _ _ _). exact (typed_raw_step s').
Qed.
Lemma member_of {A} (value : A → string) (members : list A) other t :
  by_value value members (py_upper (value t)) = Some t → member_or value members other (PyStr (value t)) = Ok t.
Proof. unfold member_or. cbn. by intros ->. Qed.
Lemma back_spec l deps nested : ∃ q,
  yaml_dict_to_spec (mkEntry (Some (yl_id l)) (loop_yaml (dsl_loop_data l)) deps nested) = Ok q ∧
  typed_loop q = Some (mkLoop (yl_id l) (yl_type l) (yl_count l) (yl_condition l) (yl_collection l)
    (yl_iterator_var l) (yl_mode l) (yl_max_iterations l) (yl_skip_if l) (yl_skip_reason l) []).
Proof.
  pose proof (dsl_loop_reread l) as H. generalize dependent (loop_yaml (dsl_loop_data l)). intros f H.
  unfold loop_data, dsl_loop_data in H.
  injection H as H1 H2 H3 H4 H5 H6 H7 H8 H9. unfold yaml_dict_to_spec. cbn [ye_id ye_fields default].
  rewrite H1, H2, H3, H4, H5, H6, H7, H8, H9.
  rewrite (member_of loop_type_value LOOP_TYPES FOR (yl_type l)) by (by destruct (yl_type l)). cbn [mbind res_mbind res_bind].
  rewrite (member_of execution_mode_value EXECUTION_MODES SERIAL (yl_mode l)) by (by destruct (yl_mode l)). cbn [mbind res_mbind res_bind].
  eexists. split; [done|]. set (l' := mkLoop _ _ _ _ _ _ _ _ _ _ _). exact (typed_raw_loop l').
Qed.

(** [n] comes after [prev] in its list. *)
Definition turns (prev : option string) (l : list YamlNode) : list (option string * YamlNode) :=
  turn_map pair prev l.
Lemma turn_map_turns {B} (f : option string → YamlNode → B) prev l :
  turn_map f prev l = (λ pn, f pn.1 pn.2) <$> turns prev l.
Proof. revert prev. induction l as [|n l IH]; intros prev; [done|]. cbn. f_equal. apply IH. Qed.
Lemma turns_nodes prev l : (turns prev l).*2 = l.
Proof. revert prev. induction l as [|n l IH]; intros prev; [done|]. cbn. f_equal. apply IH. Qed.

Section back.
Context (edges : list GraphEdge) (forest : list Tree) (Hlocal : local_edges edges forest).

Definition placed (prev : option string) (n : YamlNode) : Prop :=
  ∀ a, a ∈ assigned prev n → sources edges a.1 = a.2.

Definition goes_back (prev : option string) (level : list GraphEdge) (n : YamlNode) : Prop :=
  ∃ q, yaml_dict_to_step_or_loop (saved edges level (plan_tree n)) = Ok q ∧ typed_node q = Some (explicit prev n).
Definition well_placed (prev : option string) (level : list GraphEdge) (n : YamlNode) : Prop :=
  placed prev n ∧ within (plan_tree n) forest ∧ sources level (top_id n) = in_order prev n.

Lemma back_list l level :
  Forall (λ n, ∀ prev level, well_placed prev level n → goes_back prev level n) l →
  ∀ prev, (∀ pn, pn ∈ turns prev l → well_placed pn.1 level pn.2) →
  ∃ qs, mapM (λ r, r) (map yaml_dict_to_step_or_loop (saved edges level <$> map plan_tree l)) = Ok qs ∧
    mapM id (map typed_node qs) = Some (turn_map explicit prev l).
Proof.
  induction 1 as [|n l Hn _ IH]; intros prev Hpl; [by exists []|].
  destruct (Hn prev level) as (q & Eq & Tq); [apply (Hpl (prev, n)); by left|].
  destruct (IH (Some (top_id n))) as (qs & Eqs & Tqs); [intros pn Hin; apply Hpl; by right|].
  exists (q :: qs). cbn [map fmap list_fmap] in *. cbn [mapM]. rewrite Eq. cbn [mbind res_mbind res_bind].
  rewrite Eqs. split; [done|]. cbn. rewrite Tq. cbn. by rewrite Tqs.
Qed.
Lemma assigned_self n prev : (top_id n, in_order prev n) ∈ assigned prev n.
Proof. destruct n; [by left|]. apply elem_of_app. right. by left. Qed.
Lemma back_node n : ∀ prev level, well_placed prev level n → goes_back prev level n.
Proof.
  induction n as [s inner _|l steps IH] using YamlNode_ind'; intros prev level (Hp & Hw & Hs); unfold goes_back;
    (rewrite saved_eq by apply plan_tree_ok); rewrite plan_tree_id, Hs; cbn [plan_tree t_data]; unfold fields_of.
  - change (is_loop (dsl_step_data s)) with false. cbn [yaml_dict_to_step_or_loop]. rewrite is_loop_step_yaml.
    eexists. split; [done|]. transitivity ((λ s, StepNode s []) <$> typed_step (yaml_dict_to_step (mkEntry (Some (ys_id s))
      (step_yaml (dsl_step_data s)) (Some (py_sorted (in_order prev (StepNode s inner)))) None))); [done|].
    by rewrite back_step.
  - change (is_loop (dsl_loop_data l)) with true. cbn [yaml_dict_to_step_or_loop]. rewrite is_loop_yaml.
    set (level' := among (t_id <$> map plan_tree steps) edges).
    destruct (back_list steps level' IH None) as (qs & Eqs & Tqs).
    { intros [prev' m] Hin. cbn. assert (m ∈ steps) as Hm.
      { rewrite <-(turns_nodes None steps). by apply (list_elem_of_fmap_2 snd _ (prev', m)). }
      assert (placed prev' m) as Hpm.
      { intros a Ha. apply Hp. cbn [assigned]. apply elem_of_app. left. rewrite turn_map_turns.
        apply elem_of_concat_map. by exists (prev', m). }
      assert (plan_tree m ∈ t_kids (plan_tree (LoopNode l steps))) as Hkid by (by apply list_elem_of_fmap_2).
      split_and!; [done|eapply within_trans; [exact Hw|by apply within_root]|].
      rewrite <-plan_tree_id. subst level'. change (map plan_tree steps) with (t_kids (plan_tree (LoopNode l steps))).
      rewrite (local_sources edges forest) by done. rewrite plan_tree_id.
      exact (Hpm _ (assigned_self m prev')). }
    match goal with |- context [yaml_dict_to_spec (mkEntry _ _ ?d ?n)] =>
      destruct (back_spec l d n) as (q & Eq & Tq) end.
    exists (ParsedLoopNode q qs). change (top_id (LoopNode l steps)) with (yl_id l) in *. rewrite Eq.
    change (saved_kids edges _) with (saved edges level' <$> map plan_tree steps).
    split; [|cbn [typed_node]; rewrite Tq; cbn [mbind option_bind]; by rewrite Tqs].
    destruct (saved edges level' <$> map plan_tree steps) as [|y ys]; [by injection Eqs as <-|].
    rewrite Eqs. done.
Qed.
End back.

Lemma mapM_made {M : Type → Type} `{MBind M, MRet M} {A B} (f : A → M B) l : mapM (λ r, r) (map f l) = mapM f l.
Proof. induction l as [|x l IH]; [done|]. cbn. by rewrite IH. Qed.
Lemma from_plan_placed p pn :
  NoDup (concat (map node_ids (yp_steps p))) → pn ∈ turns None (yp_steps p) →
  placed (sg_edges (from_yaml_plan p)) pn.1 pn.2 ∧
  sources (sg_edges (from_yaml_plan p)) (top_id pn.2) = in_order pn.1 pn.2.
Proof.
  intros Hnd Hin. rewrite from_plan_eq. cbn [sg_edges]. set (A := concat (turn_map assigned None (yp_steps p))).
  assert (NoDup A.*1) as HA.
  { unfold A. rewrite assigned_list_ids; [done|]. apply Forall_forall. intros n _ prev. apply assigned_ids. }
  assert (∀ a, a ∈ assigned pn.1 pn.2 → sources (all_edges A) a.1 = a.2) as H.
  { intros a Ha. apply sources_assigned; [done|]. unfold A. rewrite turn_map_turns.
    apply elem_of_concat_map. by exists pn. }
  split; [exact H|]. exact (H _ (assigned_self _ _)).
Qed.

(** A plan opened in the editor and saved again: when its ids are distinct and no edge of the
    graph crosses a loop's border, the plan made back from the graph has the same steps and
    loops, at the same places and with the same scripts, parameters, resources and limits; a step
    has as preconditions those it had or, when it had none, the one before it in its list. What the
    graph has no place for is gone: the dependencies ("depends_on") of steps and loops, step types,
    barriers, fixture actions, breakpoint conditions, UUT affinities, subsequences, failure actions
    other than "on_fail" and the plan's scope and concurrency. *)
Theorem plan_through_graph p name version :
  NoDup (concat (map node_ids (yp_steps p))) → graph_local (from_yaml_plan p) →
  ∃ q, to_yaml_plan (from_yaml_plan p) name version = Ok q ∧
    typed_plan q = Some (mkPlanDsl name version ∅ 1 1 None (turn_map explicit None (yp_steps p))).
Proof.
  intros Hnd Hl. pose proof (λ pn, from_plan_placed p pn Hnd) as Hpl. rewrite from_plan_eq in *. cbn [sg_edges] in Hpl.
  set (edges := all_edges _) in *. set (forest := map plan_tree (yp_steps p)) in *.
  assert (NoDup (forest_ids forest)) as Hf.
  { unfold forest_ids, forest. by rewrite map_map, (map_ext _ _ plan_tree_ids). }
  apply laid_local in Hl; [|done].
  destruct (back_list edges forest (yp_steps p) edges) with (prev := @None string) as (qs & Eqs & Tqs).
  { apply Forall_forall. intros n _ prev level. by apply back_node. }
  { intros pn Hin. destruct (Hpl pn Hin) as [Hp Hs]. split_and!; [done| |done].
    apply within_root, list_elem_of_fmap_2. rewrite <-(turns_nodes None (yp_steps p)). by apply list_elem_of_fmap_2. }
  eexists. unfold to_yaml_plan. rewrite serialize_forest by done. cbn [mbind res_mbind res_bind].
  unfold yaml_dict_to_plan. cbn [sp_steps].
  assert (mapM yaml_dict_to_step_or_loop (saved edges edges <$> forest) = Ok qs) as -> by (by rewrite <-mapM_made).
  split; [done|].
  assert (mapM typed_node qs = Some (turn_map explicit None (yp_steps p))) as Tm by (by rewrite <-mapM_made).
  unfold typed_plan. cbn. by rewrite Tm.
Qed.

(** No plan the serializer writes can be loaded: the parser asks for a scope and the serializer
    writes none, whatever the name, the version and the steps are. *)
Lemma saved_plans_never_parse p : ∃ message, parse_data (plan_value p) = Raise (ValueError message).
Proof.
  destruct p as [n v steps]. unfold plan_value, parse_data. cbn. destruct n; [by eexists|]. destruct v; by eexists.
Qed.

(** ** Examples *)

Lemma graph_local_decide g :
  bool_decide (Forall (λ e, Forall (λ n, gn_id n = ge_target e → gn_parent n ≠ None →
    Exists (λ m, gn_id m = ge_source e ∧ gn_parent m = gn_parent n) (sg_nodes g)) (sg_nodes g)) (sg_edges g)) = true →
  graph_local g.
Proof.
  intros H%bool_decide_eq_true e n He Hn Hid Hp. rewrite Forall_forall in H. specialize (H e He).
  rewrite Forall_forall in H. specialize (H n Hn Hid Hp). apply Exists_exists in H as (m & ? & ? & ?). eauto.
Qed.

Definition script_entry (id : string) (deps : list string) : YamlEntry :=
  mkEntry (Some id) (PyDict [("script", PyStr (id +:+ ".py")); ("retry", PyInt 2)]) (Some deps) None.
Definition loop_entry (id : string) (deps : list string) (steps : list YamlEntry) : YamlEntry :=
  mkEntry (Some id) (PyDict [("loop_type", PyStr "FOR"); ("count", PyInt 3); ("condition", PyStr "$x < 3");
    ("collection", PyStr "$points"); ("iterator_var", PyStr "p"); ("skip_if", PyStr "$y"); ("skip_reason", PyStr "why")])
    (Some deps) (Some steps).
Definition file_entries : list YamlEntry :=
  [script_entry "a" []; loop_entry "l" ["a"] [script_entry "b" []; script_entry "c" ["b"]]; script_entry "d" ["l"; "a"]].
Lemma load_save_load_witness :
  let g := deserialize_plan file_entries in
  ∃ p, serialize_plan g "plan" "3.2" = Ok p ∧
    sg_nodes (deserialize_plan (sp_steps p)) = sg_nodes g ∧
    sg_edges (deserialize_plan (sp_steps p)) ≡ₚ sg_edges g.
Proof.
  apply (load_save_load file_entries "plan" "3.2").
  - by apply (bool_decide_unpack _).
  - by apply graph_local_decide.
  - assert (∀ id, data_stable (step_data (PyDict [("script", PyStr (id +:+ ".py")); ("retry", PyInt 2)]))) as Hs.
    { intros id. unfold data_stable, keeps_entry. cbn. split_and!; try by intros [=].
      all: intros v E; vm_compute in E; by injection E as <-. }
    cbn. repeat apply Forall_cons_2; try apply Forall_nil_2; try apply Hs. split; by intros [=].
Defined.

Definition editor_plan : YamlPlan :=
  mkPlanDsl "plan" "3.2" (PyDict [("line", PyInt 4)]) 2 1 None
    [script_leaf "a"; LoopNode (mkLoop "l" WHILE (Some 2%Z) (Some "$x < 3") None None PARALLEL 10 None None ["a"])
       [script_leaf "b"; script_leaf "c"]; script_leaf "d"].
Lemma plan_through_graph_witness :
  ∃ q, to_yaml_plan (from_yaml_plan editor_plan) "saved" "1" = Ok q ∧
    typed_plan q = Some (mkPlanDsl "saved" "1" ∅ 1 1 None (turn_map explicit None (yp_steps editor_plan))).
Proof.
  apply (plan_through_graph editor_plan "saved" "1"); [by apply (bool_decide_unpack _)|by apply graph_local_decide].
Defined.

(** What depends on a step of a loop from outside of it, or the other way around, is kept when it
    is at the top level and dropped when it is inside. *)
Example edge_across_levels :
  let g := deserialize_plan [script_entry "a" ["c"]; loop_entry "l" [] [script_entry "b" ["a"]; script_entry "c" ["b"]]] in
  let edges g := (λ e, (ge_source e, ge_target e)) <$> sg_edges g in
  (edges g, (λ p, edges (deserialize_plan (sp_steps p))) <$> serialize_plan g "plan" "1") =
  ([("c", "a"); ("a", "b"); ("b", "c")], Ok [("c", "a"); ("b", "c")]).
Proof. by vm_compute. Qed.

(** Entries the graph does not know are gone once the file was loaded. *)
Example unknown_entries_lost :
  let gate := mkEntry (Some "gate") (PyDict [("type", PyStr "barrier"); ("barrier_name", PyStr "sync")]) None None in
  (λ p, yaml_value <$> sp_steps p) <$> serialize_plan (deserialize_plan [gate]) "plan" "1" =
  Ok [PyMap [(PyStr "id", PyStr "gate"); (PyStr "script", PyStr ""); (PyStr "timeout", PyInt 60);
             (PyStr "depends_on", PyList [])]].
Proof. by vm_compute. Qed.

(** A renamed step keeps the name its node had where others depend on it. *)
Example renamed_step_dangles :
  let data := PyDict [("script", PyStr "m.py")] in
  let g := mkGraph [mkGraphNode "n1" (Some "warm_up") data None; mkGraphNode "n2" (Some "measure") data None]
    [mkGraphEdge "n1" "n2" ∅] in
  (λ p, (λ e, (ye_id e, ye_depends_on e)) <$> sp_steps p) <$> serialize_plan g "plan" "1" =
  Ok [("warm_up", []); ("measure", ["n1"])].
Proof. by vm_compute. Qed.

(** Loops come back from a graph without what they depended on. *)
Example loop_dependencies_lost :
  (λ q, (λ n, match n with ParsedLoopNode l _ => Some (pl_depends_on l) | _ => None end) <$> pp_steps q) <$>
    to_yaml_plan (deserialize_plan [script_entry "a" []; loop_entry "l" ["a"] []]) "plan" "1" =
  Ok [None; Some (PyList [])].
Proof. by vm_compute. Qed.
