(* ===== verification/WirePlans.v ===== *)
(** * A plan on its way to a worker (ate_cloud/services/plan_materializer.py,
    ate_cloud/services/execution_dispatch.py, and the decoding part of
    ate_platform/scheduler/jetstream_worker.py)

    The cloud reads the YAML text of a sequence and builds a plan ([materialize]), sends the
    fields of the plan as JSON ([dispatch]), and the worker builds a plan from what it receives
    ([dict_to_yaml_plan]). As in Parser.v, the entries are copied as they come, so the plans are
    plans of Python values. The database, [yaml.safe_load], the JSON codec and NATS are
    parameters. Nested entries are read with as much fuel as the value is deep, which is enough
    ([by_depth_eq]). *)

From S2P Require Import Prelude PyDict PyStr Dsl Parser PlanFiles.

(** ** Reading nested entries *)

Section deep.
Context (entry : (pyval → res ParsedNode) → pyval → res ParsedNode).

Fixpoint read_deep (fuel : nat) (data : pyval) : res ParsedNode :=
  match fuel with
  | O => Raise (OtherError "out of fuel")
  | S fuel' => entry (read_deep fuel') data
  end.
Definition by_depth (data : pyval) : res ParsedNode := read_deep (S (depth data)) data.

(** [entry] calls itself on the entries of "steps" only. *)
Definition reads_steps : Prop := ∀ f g data,
  (∀ d l x, data = PyMap d → py_iter (dget d "steps" (PyList [])) = Ok l → x ∈ l → f x = g x) →
  entry f data = entry g data.

Lemma read_deep_fuel n m data :
  reads_steps → depth data < n → depth data < m → read_deep n data = read_deep m data.
Proof.
  intros He. revert m data. induction n as [|n IH]; intros m data Hn Hm; [lia|].
  destruct m as [|m]; [lia|]. apply He. intros d l x -> El Hx.
  pose proof (nested_depth d l x El Hx). apply IH; lia.
Qed.

Lemma by_depth_eq data : reads_steps → by_depth data = entry by_depth data.
Proof.
  intros He. unfold by_depth at 1. cbn [read_deep]. apply He. intros d l x -> El Hx.
  pose proof (nested_depth d l x El Hx). apply read_deep_fuel; [done|lia..].
Qed.
End deep.

(** [k in v] *)
Definition in_value (k : string) (v : pyval) : res bool :=
  match v with
  | PyMap d => Ok (has_entry k d)
  | PyList l => Ok (existsb (λ x, is_str x k) l)
  | PyStr s => Ok (str_contains k s)
  | _ => Raise (TypeError ("argument of type '" +:+ type_name v +:+ "' is not iterable"))
  end.

(** [v[k]], for a string [k] *)
Definition subscript (k : string) (v : pyval) : res pyval :=
  match v with
  | PyMap d => if has_entry k d then Ok (dget d k PyNone) else Raise (KeyError k)
  | PyStr _ => Raise (TypeError "string indices must be integers, not 'str'")
  | PyList _ => Raise (TypeError "list indices must be integers or slices, not str")
  | _ => Raise (TypeError ("'" +:+ type_name v +:+ "' object is not subscriptable"))
  end.

(** [Enumeration(v)] *)
Definition member {A} (cls : string) (value : A → string) (members : list A) (v : pyval) : res A :=
  match as_str v ≫= by_value value members with
  | Some t => Ok t
  | None => Raise (ValueError (py_repr v +:+ " is not a valid " +:+ cls))
  end.
Definition loop_type_member : pyval → res LoopType := member "LoopType" loop_type_value LOOP_TYPES.
Definition mode_member : pyval → res ExecutionMode :=
  member "ExecutionMode" execution_mode_value EXECUTION_MODES.

(** [YamlStep(id=..., ...)] with the keyword arguments both readers pass; the other fields have
    their defaults. *)
Definition v30_step (id script : pyval) (d : ydict) : ParsedStep :=
  {| ps_id := id; ps_type := None; ps_script := script;
     ps_params := dget d "params" (PyMap []);
     ps_preconditions := dget d "preconditions" (PyList []);
     ps_depends_on := PyList [];
     ps_resources := dget d "resources" (PyMap []);
     ps_timeout := dget d "timeout" (PyInt 60);
     ps_retry := dget d "retry" (PyInt 0);
     ps_on_fail := dget d "on_fail" PyNone;
     ps_on_failure := PyNone; ps_uut_affinity := PyNone; ps_barrier_name := PyNone;
     ps_action := PyNone; ps_fixture_id := PyNone;
     ps_export_outputs := dget d "export_outputs" (PyBool false);
     ps_skip_if := dget d "skip_if" PyNone;
     ps_skip_reason := dget d "skip_reason" PyNone;
     ps_condition := PyNone |}.
Definition v30_loop (id : pyval) (t : LoopType) (mode : ExecutionMode) (d : ydict) : ParsedLoop :=
  {| pl_id := id; pl_type := t;
     pl_count := dget d "count" PyNone;
     pl_condition := dget d "condition" PyNone;
     pl_collection := dget d "collection" PyNone;
     pl_iterator_var := dget d "iterator_var" PyNone;
     pl_mode := mode;
     pl_max_iterations := dget d "max_iterations" (PyInt 1000);
     pl_skip_if := dget d "skip_if" PyNone;
     pl_skip_reason := dget d "skip_reason" PyNone;
     pl_depends_on := PyList [] |}.

(** ** The cloud: from YAML to a plan *)

Definition listed (v : pyval) : list pyval := match v with PyList l => l | _ => [] end.

(** [_build_step], [_build_loop], [_build_step_or_loop] *)
Definition build_step (d : ydict) : ParsedStep :=
  v30_step (dget d "id" (PyStr "")) (dget d "script" (PyStr "")) d.
Definition build_loop_entry (f : pyval → res ParsedNode) (d : ydict) : res ParsedNode :=
  loop_type ← loop_type_member (PyStr (py_upper (py_str (dget d "loop_type" (PyStr "FOR")))));
  mode ← mode_member (PyStr (py_upper (py_str (dget d "execution_mode" (PyStr "SERIAL")))));
  steps ← mapM f (listed (dget d "steps" (PyList [])));
  Ok (ParsedLoopNode (v30_loop (dget d "id" (PyStr "")) loop_type mode d) steps).
Definition build_entry (f : pyval → res ParsedNode) (data : pyval) : res ParsedNode :=
  is_loop ← in_value "loop_type" data;
  d ← as_dict data;
  if is_loop : bool then build_loop_entry f d else Ok (ParsedStepNode (build_step d)).
Definition build_step_or_loop : pyval → res ParsedNode := by_depth build_entry.

Definition build_scope (v : pyval) : pyval :=
  match v with PyStr _ => PyMap [(PyStr "name", v)] | PyMap _ => v | _ => PyMap [] end.

(** [_build_plan] *)
Definition build_plan (d : ydict) : res ParsedPlan :=
  steps ← mapM build_step_or_loop (listed (dget d "steps" (PyList [])));
  Ok (mkParsedPlan (dget d "name" (PyStr "")) (PyStr (py_str (dget d "version" (PyStr ""))))
    (build_scope (dget d "scope" (PyMap []))) (dget d "max_concurrency" (PyInt 1)) (PyInt 1) PyNone steps).

Definition PlanMaterializeError (m : string) : exc := CustomError "PlanMaterializeError" m.

(** [except (ValueError, TypeError, KeyError)]; a KeyError prints its key in quotes. *)
Definition build_failure (e : exc) : exc :=
  match e with
  | ValueError m | TypeError m => PlanMaterializeError ("failed to build plan: " +:+ m)
  | KeyError k => PlanMaterializeError ("failed to build plan: " +:+ repr_str k)
  | _ => e
  end.

Section materialize.
Context (safe_load : string → res pyval).

Definition YAMLError (m : string) : exc := CustomError "YAMLError" m.
Definition yaml_failure (e : exc) : exc :=
  match e with
  | CustomError c m =>
      if decide (c = "YAMLError") then PlanMaterializeError ("YAML parse error: " +:+ m) else e
  | _ => e
  end.

(** A failed computation with its exception replaced. *)
Definition rethrow {A} (f : exc → exc) (r : res A) : res A :=
  match r with Ok a => Ok a | Raise e => Raise (f e) end.

(** [materialize]: [executions] has the sequence of an execution, if it has one, [sequences] the
    text of a sequence. *)
Definition materialize (executions : string → option (option string))
    (sequences : string → option (option string)) (execution_id : string) : res ParsedPlan :=
  match executions execution_id with
  | None => Raise (PlanMaterializeError ("execution " +:+ execution_id +:+ " not found"))
  | Some None => Raise (PlanMaterializeError ("execution " +:+ execution_id +:+ " has no sequence_id"))
  | Some (Some sequence_id) =>
      match sequences sequence_id with
      | None => Raise (PlanMaterializeError ("sequence " +:+ sequence_id +:+ " not found"))
      | Some content =>
          if truthy content then
            data ← rethrow yaml_failure (safe_load (default "" content));
            match data with
            | PyNone => Raise (PlanMaterializeError "empty YAML document")
            | PyMap d => rethrow build_failure (build_plan d)
            | _ => Raise (PlanMaterializeError ("YAML content must be a mapping, got " +:+ type_name data))
            end
          else Raise (PlanMaterializeError "sequence has no YAML content")
      end
  end.
End materialize.

(** ** On the wire: [asdict(plan)] *)

Definition opt_value {A} (value : A → string) (o : option A) : pyval :=
  from_option (λ t, PyStr (value t)) PyNone o.

Definition wire_step (s : ParsedStep) : ydict :=
  [(PyStr "id", ps_id s); (PyStr "type", opt_value step_type_value (ps_type s));
   (PyStr "script", ps_script s); (PyStr "params", ps_params s);
   (PyStr "preconditions", ps_preconditions s); (PyStr "depends_on", ps_depends_on s);
   (PyStr "resources", ps_resources s); (PyStr "timeout", ps_timeout s);
   (PyStr "retry", ps_retry s); (PyStr "on_fail", ps_on_fail s);
   (PyStr "on_failure", ps_on_failure s); (PyStr "uut_affinity", ps_uut_affinity s);
   (PyStr "barrier_name", ps_barrier_name s); (PyStr "action", ps_action s);
   (PyStr "fixture_id", ps_fixture_id s); (PyStr "export_outputs", ps_export_outputs s);
   (PyStr "skip_if", ps_skip_if s); (PyStr "skip_reason", ps_skip_reason s);
   (PyStr "condition", ps_condition s)].

Fixpoint wire_node (n : ParsedNode) : pyval :=
  match n with
  | ParsedStepNode s => PyMap (wire_step s)
  | ParsedLoopNode l steps => PyMap
      [(PyStr "id", pl_id l); (PyStr "loop_type", PyStr (loop_type_value (pl_type l)));
       (PyStr "steps", PyList (map wire_node steps)); (PyStr "count", pl_count l);
       (PyStr "condition", pl_condition l); (PyStr "collection", pl_collection l);
       (PyStr "iterator_var", pl_iterator_var l);
       (PyStr "execution_mode", PyStr (execution_mode_value (pl_mode l)));
       (PyStr "max_iterations", pl_max_iterations l); (PyStr "skip_if", pl_skip_if l);
       (PyStr "skip_reason", pl_skip_reason l); (PyStr "depends_on", pl_depends_on l)]
  end.

Definition wire_plan (p : ParsedPlan) : pyval := PyMap
  [(PyStr "name", pp_name p); (PyStr "version", pp_version p); (PyStr "scope", pp_scope p);
   (PyStr "max_concurrency", pp_max_concurrency p); (PyStr "uut_count", pp_uut_count p);
   (PyStr "fixture_id", pp_fixture_id p); (PyStr "steps", PyList (map wire_node (pp_steps p)))].

(** [dispatch]: the message published (subject, payload, the execution of the headers), if the
    plan has a JSON text and JetStream takes it. A value without one is a TypeError. *)
Definition ExecutionDispatchError (execution_id e : string) : exc :=
  CustomError "ExecutionDispatchError" ("Failed to dispatch execution " +:+ execution_id +:+ ": " +:+ e).
Definition dispatch (json_dump : pyval → option string) (publish : string → string → option string)
    (execution_id : string) (p : ParsedPlan) : res (string * string * string) :=
  let subject := "ate.tasks." +:+ execution_id in
  match json_dump (wire_plan p) with
  | None => Raise (TypeError "Object is not JSON serializable")
  | Some payload =>
      match publish subject payload with
      | Some e => Raise (ExecutionDispatchError execution_id e)
      | None => Ok (subject, payload, execution_id)
      end
  end.

(** ** The worker: from a message to a plan *)

(** [_dict_to_step_or_loop] *)
Definition dict_to_entry (f : pyval → res ParsedNode) (data : pyval) : res ParsedNode :=
  is_loop ← in_value "loop_type" data;
  if is_loop : bool then
    id ← subscript "id" data;
    t ← subscript "loop_type" data;
    loop_type ← loop_type_member t;
    d ← as_dict data;
    l ← py_iter (dget d "steps" (PyList []));
    steps ← mapM f l;
    mode ← mode_member (dget d "execution_mode" (PyStr "SERIAL"));
    Ok (ParsedLoopNode (v30_loop id loop_type mode d) steps)
  else
    id ← subscript "id" data;
    script ← subscript "script" data;
    d ← as_dict data;
    Ok (ParsedStepNode (v30_step id script d)).
Definition dict_to_step_or_loop : pyval → res ParsedNode := by_depth dict_to_entry.

(** [_dict_to_yaml_plan] *)
Definition dict_to_yaml_plan (data : pyval) : res ParsedPlan :=
  d ← as_dict data;
  l ← py_iter (dget d "steps" (PyList []));
  steps ← mapM dict_to_step_or_loop l;
  name ← subscript "name" data;
  version ← subscript "version" data;
  Ok (mkParsedPlan name version (dget d "scope" (PyMap [])) (dget d "max_concurrency" (PyInt 1))
    (PyInt 1) PyNone steps).

(** ** What the worker sees of a plan *)

(** The fields of DSL v3.2 are back at their defaults. *)
Definition v30_step_view (s : ParsedStep) : ParsedStep :=
  {| ps_id := ps_id s; ps_type := None; ps_script := ps_script s; ps_params := ps_params s;
     ps_preconditions := ps_preconditions s; ps_depends_on := PyList [];
     ps_resources := ps_resources s; ps_timeout := ps_timeout s; ps_retry := ps_retry s;
     ps_on_fail := ps_on_fail s; ps_on_failure := PyNone; ps_uut_affinity := PyNone;
     ps_barrier_name := PyNone; ps_action := PyNone; ps_fixture_id := PyNone;
     ps_export_outputs := ps_export_outputs s; ps_skip_if := ps_skip_if s;
     ps_skip_reason := ps_skip_reason s; ps_condition := PyNone |}.
Definition v30_loop_view (l : ParsedLoop) : ParsedLoop :=
  {| pl_id := pl_id l; pl_type := pl_type l; pl_count := pl_count l; pl_condition := pl_condition l;
     pl_collection := pl_collection l; pl_iterator_var := pl_iterator_var l; pl_mode := pl_mode l;
     pl_max_iterations := pl_max_iterations l; pl_skip_if := pl_skip_if l;
     pl_skip_reason := pl_skip_reason l; pl_depends_on := PyList [] |}.
Fixpoint v30_view (n : ParsedNode) : ParsedNode :=
  match n with
  | ParsedStepNode s => ParsedStepNode (v30_step_view s)
  | ParsedLoopNode l steps => ParsedLoopNode (v30_loop_view l) (map v30_view steps)
  end.
Definition worker_view (p : ParsedPlan) : ParsedPlan :=
  mkParsedPlan (pp_name p) (pp_version p) (pp_scope p) (pp_max_concurrency p) (PyInt 1) PyNone
    (map v30_view (pp_steps p)).

Section node_ind.
Context (P : ParsedNode → Prop) (Hstep : ∀ s, P (ParsedStepNode s))
  (Hloop : ∀ l steps, Forall P steps → P (ParsedLoopNode l steps)).

Fixpoint ParsedNode_ind' (n : ParsedNode) : P n :=
  match n with
  | ParsedStepNode s => Hstep s
  | ParsedLoopNode l steps =>
      Hloop l steps ((fix go k : Forall P k :=
        match k return Forall P k with
        | [] => @List.Forall_nil _ P
        | m :: k' => @List.Forall_cons _ P m k' (ParsedNode_ind' m) (go k')
        end) steps)
  end.
End node_ind.

Lemma dict_to_entry_steps : reads_steps dict_to_entry.
Proof.
  intros f g data H. unfold dict_to_entry. destruct (in_value _ _) as [[]|]; try done. cbn.
  destruct (subscript "id" data); [|done]. cbn. destruct (subscript "loop_type" data); [|done]. cbn.
  destruct (loop_type_member _); [|done]. cbn.
  destruct data as [| | | | | |d|]; try done. cbn. destruct (py_iter _) as [l|] eqn:El; [|done]. cbn.
  by rewrite (mapM_ext_in f g l) by (intros; by eapply H).
Qed.

Lemma build_entry_steps : reads_steps build_entry.
Proof.
  intros f g data H. unfold build_entry. destruct (in_value _ _) as [b|]; [|done]. cbn.
  destruct data as [| | | | | |d|]; try done. cbn. destruct b; [|done].
  unfold build_loop_entry. destruct (loop_type_member _); [|done]. cbn.
  destruct (mode_member _); [|done]. cbn.
  rewrite (mapM_ext_in f g); [done|]. intros x Hx. eapply H; [done| |exact Hx].
  unfold listed in *. by destruct (dget d "steps" (PyList [])); try by apply elem_of_nil in Hx.
Qed.

Lemma loop_type_member_value t : loop_type_member (PyStr (loop_type_value t)) = Ok t.
Proof. by destruct t. Qed.
Lemma mode_member_value m : mode_member (PyStr (execution_mode_value m)) = Ok m.
Proof. by destruct m. Qed.

Lemma mapM_map_Ok {A B C} (f : B → res C) (g : A → B) (h : A → C) l :
  Forall (λ x, f (g x) = Ok (h x)) l → mapM f (map g l) = Ok (map h l).
Proof. induction 1 as [|x l Hx _ IH]; [done|]. cbn. rewrite Hx. cbn. by rewrite IH. Qed.

Lemma dict_to_entry_loop f d id t lt l steps mode :
  has_entry "loop_type" d = true → subscript "id" (PyMap d) = Ok id →
  subscript "loop_type" (PyMap d) = Ok t → loop_type_member t = Ok lt →
  py_iter (dget d "steps" (PyList [])) = Ok l → mapM f l = Ok steps →
  mode_member (dget d "execution_mode" (PyStr "SERIAL")) = Ok mode →
  dict_to_entry f (PyMap d) = Ok (ParsedLoopNode (v30_loop id lt mode d) steps).
Proof.
  intros H1 H2 H3 H4 H5 H6 H7. unfold dict_to_entry, in_value. rewrite H1.
  cbn [mbind res_mbind res_bind as_dict]. rewrite H2. cbn [mbind res_mbind res_bind as_dict].
  rewrite H3. cbn [mbind res_mbind res_bind as_dict]. rewrite H4.
  cbn [mbind res_mbind res_bind as_dict]. rewrite H5. cbn [mbind res_mbind res_bind].
  rewrite H6. cbn [mbind res_mbind res_bind]. by rewrite H7.
Qed.

Lemma decode_node n : dict_to_step_or_loop (wire_node n) = Ok (v30_view n).
Proof.
  unfold dict_to_step_or_loop.
  induction n as [s|l steps IH] using ParsedNode_ind'; rewrite (by_depth_eq _ _ dict_to_entry_steps);
    [reflexivity|]. cbn [wire_node v30_view].
  erewrite dict_to_entry_loop; try reflexivity.
  - apply loop_type_member_value.
  - by apply mapM_map_Ok.
  - apply mode_member_value.
Qed.

(** What the worker reads from the fields of any plan: a plan of DSL v3.2 arrives without its
    barriers, affinities and dependencies, at any depth. *)
Lemma decode_plan p : dict_to_yaml_plan (wire_plan p) = Ok (worker_view p).
Proof.
  assert (mapM dict_to_step_or_loop (map wire_node (pp_steps p)) = Ok (map v30_view (pp_steps p))) as E.
  { apply mapM_map_Ok, Forall_forall. intros n _. apply decode_node. }
  unfold dict_to_yaml_plan, wire_plan. cbn [as_dict mbind res_mbind res_bind].
  change (py_iter _) with (Ok (map wire_node (pp_steps p))). cbn [mbind res_mbind res_bind].
  by rewrite E.
Qed.

(** ** What the cloud builds is of DSL v3.0 *)

Lemma build_node_v30 v n : build_step_or_loop v = Ok n → v30_view n = n.
Proof.
  unfold build_step_or_loop. revert n. induction v as [v IH] using depth_ind. intros n.
  rewrite (by_depth_eq _ _ build_entry_steps). unfold build_entry.
  intros (b & _ & H)%res_bind_Ok. destruct v as [| | | | | |d|]; try done. cbn in H.
  destruct b; [|injection H as <-; reflexivity]. unfold build_loop_entry in H.
  apply res_bind_Ok in H as (t & _ & H). apply res_bind_Ok in H as (m & _ & H).
  apply res_bind_Ok in H as (steps & Es & [= <-]). cbn. f_equal.
  apply res_mapM_Ok in Es. assert (Forall2 (λ x y, x ∈ listed (dget d "steps" (PyList []))
    ∧ by_depth build_entry x = Ok y) (listed (dget d "steps" (PyList []))) steps) as Es'.
  { apply Forall2_same_length_lookup. apply Forall2_same_length_lookup in Es as [? Es].
    split; [done|]. intros i x y Hx Hy. split; [by eapply list_elem_of_lookup_2|by eapply Es]. }
  clear Es. assert (∀ x, x ∈ listed (dget d "steps" (PyList [])) → depth x < depth (PyMap d)) as Hd.
  { intros x Hx. apply (nested_depth d (listed (dget d "steps" (PyList [])))); [|done].
    unfold listed in *. by destruct (dget d "steps" (PyList [])); try by apply elem_of_nil in Hx. }
  induction Es' as [|x y k ys [Hin Hy] _ IHk]; [done|]. cbn. f_equal; [|exact IHk].
  by apply (IH x); [apply Hd|].
Qed.

Lemma build_plan_v30 d p : build_plan d = Ok p → worker_view p = p.
Proof.
  unfold build_plan. intros (steps & Es & [= <-])%res_bind_Ok. unfold worker_view. cbn. f_equal.
  apply res_mapM_Ok in Es. induction Es as [|v n l ns Hv _ IH]; [done|]. cbn.
  f_equal; [by eapply build_node_v30|exact IH].
Qed.

(** ** Errors *)

(** Every entry of every list of steps is a mapping. *)
Inductive mappings : pyval → Prop :=
  | mappings_intro d : Forall mappings (listed (dget d "steps" (PyList []))) → mappings (PyMap d).

Definition caught (e : exc) : Prop := ∃ m, e = ValueError m ∨ e = TypeError m.
Definition stray (e : exc) : Prop := ∃ w, e = AttributeError w "get".

Lemma member_caught {A} cls (value : A → string) members v e :
  member cls value members v = Raise e → caught e.
Proof. unfold member. case_match; [done|]. intros [= <-]. eexists. by left. Qed.

Lemma build_node_raises v e :
  build_step_or_loop v = Raise e → caught e ∨ (¬ mappings v ∧ stray e).
Proof.
  unfold build_step_or_loop. revert e. induction v as [v IH] using depth_ind. intros e.
  rewrite (by_depth_eq _ _ build_entry_steps). unfold build_entry.
  intros [Hi|(b & _ & H)]%res_bind_Raise.
  { left. destruct v; cbn in Hi; try done; injection Hi as <-; eexists; by right. }
  apply res_bind_Raise in H as [Ha|(d & Hd & H)].
  { right. destruct v; cbn in Ha; try done; injection Ha as <-;
      (split; [by intros Hm; inversion Hm|by eexists]). }
  destruct v as [| | | | | |d'|]; try done. injection Hd as ->. destruct b; [|done].
  unfold build_loop_entry in H.
  apply res_bind_Raise in H as [H|(t & _ & H)]; [left; by eapply member_caught|].
  apply res_bind_Raise in H as [H|(m & _ & H)]; [left; by eapply member_caught|].
  apply res_bind_Raise in H as [(x & Hx & H)%res_mapM_Raise|(ns & _ & H)]; [|done].
  assert (depth x < depth (PyMap d)) as Hlt.
  { apply (nested_depth d (listed (dget d "steps" (PyList [])))); [|done].
    unfold listed in *. by destruct (dget d "steps" (PyList [])); try by apply elem_of_nil in Hx. }
  destruct (IH x Hlt e H) as [?|[Hn ?]]; [by left|right]. split; [|done].
  intros Hm. apply Hn. inversion Hm as [d' Hall]; subst. rewrite Forall_forall in Hall. by apply Hall.
Qed.

Lemma build_plan_raises d e :
  build_plan d = Raise e →
  caught e ∨ (¬ Forall mappings (listed (dget d "steps" (PyList []))) ∧ stray e).
Proof.
  unfold build_plan. intros [(x & Hx & H)%res_mapM_Raise|(ns & _ & H)]%res_bind_Raise; [|done].
  destruct (build_node_raises x e H) as [?|[Hn ?]]; [by left|right]. split; [|done].
  intros Hall. apply Hn. rewrite Forall_forall in Hall. by apply Hall.
Qed.

(** The failures of the materializer: as its documentation says, an execution or a sequence
    that is missing, a text that is empty or malformed, and a plan that cannot be built are all
    PlanMaterializeErrors. The exception it does not foresee is an entry of a list of steps
    that is not a mapping, whose AttributeError escapes. *)
Theorem materialize_errors (safe_load : string → res pyval) executions sequences id (e : exc)
  (Hyaml : ∀ t e, safe_load t = Raise e → ∃ m, e = YAMLError m) :
  materialize safe_load executions sequences id = Raise e →
  (∃ m, e = PlanMaterializeError m)
  ∨ (∃ text d, safe_load text = Ok (PyMap d) ∧ stray e
       ∧ ¬ Forall mappings (listed (dget d "steps" (PyList [])))).
Proof.
  unfold materialize. destruct (executions id) as [[sequence|]|]; [|intros [= <-]; eauto..].
  destruct (sequences sequence) as [content|]; [|intros [= <-]; eauto].
  destruct (truthy content); [|intros [= <-]; eauto].
  destruct (safe_load (default "" content)) as [data|e'] eqn:El; cbn.
  - destruct data as [| | | | | |d|]; try (intros [= <-]; eauto).
    destruct (build_plan d) as [p|e'] eqn:Eb; cbn; [done|]. intros [= <-].
    destruct (build_plan_raises d e' Eb) as [(m & [-> | ->])|[Hn (w & ->)]]; [eauto..|].
    right. exists (default "" content), d. split_and!; [done|by eexists|done].
  - destruct (Hyaml _ _ El) as [m ->]. intros [= <-]. eauto.
Qed.

(** ** From the cloud to the worker *)

(** C10. A plan reaches the worker as the cloud built it: whatever YAML it comes from, a plan that
    is materialized and published under an execution is decoded, from the JSON text of the
    message, to the same plan. The JSON codec is assumed to give back the value it wrote. *)
Theorem dispatched_plan_arrives (safe_load : string → res pyval) executions sequences
    (json_dump : pyval → option string) (json_load : string → option pyval)
    (publish : string → string → option string) id p subject payload header
  (Hjson : ∀ s, json_dump (wire_plan p) = Some s → json_load s = Some (wire_plan p))
  (Hm : materialize safe_load executions sequences id = Ok p)
  (Hd : dispatch json_dump publish id p = Ok (subject, payload, header)) :
  subject = "ate.tasks." +:+ id ∧ header = id
  ∧ ∃ v, json_load payload = Some v ∧ dict_to_yaml_plan v = Ok p.
Proof.
  unfold dispatch in Hd. destruct (json_dump (wire_plan p)) as [s|] eqn:Ej; [|done].
  destruct (publish _ s); [done|]. injection Hd as <- <- <-. split_and!; [done..|].
  exists (wire_plan p). split; [by apply Hjson|]. rewrite decode_plan. f_equal.
  unfold materialize in Hm. destruct (executions id) as [[sequence|]|]; try done.
  destruct (sequences sequence) as [content|]; [|done]. destruct (truthy content); [|done].
  destruct (rethrow yaml_failure _) as [[| | | | | |d|]|]; try done. cbn in Hm.
  destruct (build_plan d) as [q|] eqn:Eb; [|done]. injection Hm as <-. by eapply build_plan_v30.
Qed.

(** ** Witnesses and examples *)

Definition wire_step_entry (id : string) (more : ydict) : pyval :=
  PyMap ([(PyStr "id", PyStr id); (PyStr "script", PyStr (id +:+ ".py"))] ++ more).
Definition wire_file (steps : list pyval) : ydict :=
  [(PyStr "name", PyStr "plan"); (PyStr "version", PyFloat "3.2"); (PyStr "scope", PyStr "line");
   (PyStr "steps", PyList steps)].

(** Two texts a database could hold. *)
Definition two_files (t : string) : res pyval :=
  if decide (t = "good") then
    Ok (PyMap (wire_file [wire_step_entry "a" []; wire_step_entry "b"
          [(PyStr "preconditions", PyList [PyStr "a"])];
          PyMap [(PyStr "id", PyStr "l"); (PyStr "loop_type", PyStr "for");
            (PyStr "count", PyInt 2); (PyStr "steps", PyList [wire_step_entry "c" []])]]))
  else if decide (t = "stray") then Ok (PyMap (wire_file [PyStr "a"]))
  else Raise (YAMLError "line 1").

Definition one_execution (id : string) : option (option string) :=
  if decide (id = "run-1") then Some (Some "seq") else None.
Definition sequence_text (t : string) (_ : string) : option (option string) := Some (Some t).

(** An entry that is a string. *)
Example stray_entry_escapes :
  materialize two_files one_execution (sequence_text "stray") "run-1"
  = Raise (CustomError "AttributeError" "'str' object has no attribute 'get'").
Proof. reflexivity. Qed.

Lemma materialize_errors_witness :
  (∃ m, materialize two_files one_execution (sequence_text "bad") "run-1" = Raise (PlanMaterializeError m))
  ∧ ((∃ m, CustomError "AttributeError" "'str' object has no attribute 'get'" = PlanMaterializeError m)
     ∨ ∃ text d, two_files text = Ok (PyMap d)
         ∧ stray (CustomError "AttributeError" "'str' object has no attribute 'get'")
         ∧ ¬ Forall mappings (listed (dget d "steps" (PyList [])))).
Proof.
  split; [eexists; reflexivity|].
  refine (materialize_errors two_files one_execution (sequence_text "stray") "run-1" _ _ eq_refl).
  intros t e. unfold two_files. destruct (decide (t = "good")); [discriminate|].
  destruct (decide (t = "stray")); [discriminate|]. intros [= <-]. eexists. reflexivity.
Defined.

(** The plan of the text "good". *)
Definition good_plan : ParsedPlan :=
  match materialize two_files one_execution (sequence_text "good") "run-1" with
  | Ok p => p | Raise _ => mkParsedPlan PyNone PyNone PyNone PyNone PyNone PyNone []
  end.

Lemma dispatched_plan_arrives_witness :
  ∃ v, Some (wire_plan good_plan) = Some v ∧ dict_to_yaml_plan v = Ok good_plan.
Proof.
  refine (proj2 (proj2 (dispatched_plan_arrives two_files one_execution (sequence_text "good")
    (λ _, Some "json") (λ _, Some (wire_plan good_plan)) (λ _ _, None) "run-1" good_plan
    _ "json" _ _ _ eq_refl))); [by intros|reflexivity].
Defined.

(** The parser keeps what a file says of DSL v3.2, the materializer does not: a barrier becomes a
    step without a script. *)
Definition barrier_entry : pyval :=
  PyMap [(PyStr "id", PyStr "sync"); (PyStr "type", PyStr "barrier");
         (PyStr "barrier_name", PyStr "all"); (PyStr "depends_on", PyList [PyStr "a"])].
Example barriers_do_not_arrive :
  (match parse_node barrier_entry with
   | Ok (ParsedStepNode s) => Some (ps_type s, ps_barrier_name s, ps_depends_on s)
   | _ => None
   end = Some (Some BARRIER, PyStr "all", PyList [PyStr "a"]))
  ∧ match build_step_or_loop barrier_entry with
    | Ok (ParsedStepNode s) => Some (ps_type s, ps_script s, ps_barrier_name s, ps_depends_on s)
    | _ => None
    end = Some (None, PyStr "", PyNone, PyList []).
Proof. split; reflexivity. Qed.

(** The cloud reads loop types in any case, the worker only as [asdict] writes them. *)
Example decoder_is_case_sensitive :
  is_ok (build_step_or_loop (PyMap [(PyStr "id", PyStr "l"); (PyStr "loop_type", PyStr "for")])) = true
  ∧ dict_to_step_or_loop (PyMap [(PyStr "id", PyStr "l"); (PyStr "loop_type", PyStr "for")])
    = Raise (ValueError "'for' is not a valid LoopType").
Proof. split; reflexivity. Qed.
