(* ===== verification/Fixture.v ===== *)
(** * Fixture controllers (src/src/ate_platform/fixture/fixture_controller.py)

    A controller drives the cylinders, relays and sensors of its configuration through a proxy
    client, or simulates them when it has none. The configuration comes from the fixture
    topology, so identifiers, types and method names are strings. The clock is the
    environment's: [polls] is the number of times it is found before the deadline. *)

From S2P Require Import Prelude PyDict PyStr PyNum.

Definition fixture_item : Type := pydict string pyval.

(** The proxy client: whether it has [client(resource)], and the calls on the proxy itself
    ([None]) or on the client of a resource. *)
Class ProxyClient (W : Type) : Type := {
  has_client : bool;
  call_on : option pyval → string → list pyval → M W pyval
}.

Record FixtureState : Type := mkFixtureState {
  fx_status : string;
  fx_actuators : pydict string string;
  fx_relays : pydict string string;
  fx_sensors : pydict string pyval
}.
Record FixtureController : Type := mkFixture {
  fc_id : string;
  fc_config : pydict string (list fixture_item);
  fc_proxied : bool;
  fc_state : FixtureState
}.
Definition new_fixture (id : string) (config : pydict string (list fixture_item)) (proxied : bool) :
    FixtureController :=
  mkFixture id config proxied (mkFixtureState "idle" ∅ ∅ ∅).

Definition FixtureError (msg : string) : exc := CustomError "FixtureError" msg.
Definition FixtureTimeoutError (msg : string) : exc := CustomError "FixtureTimeoutError" msg.

(** [item.get(key)] where a string is expected, and [item.get(key) or default]. *)
Definition str_field (key : string) (i : fixture_item) : option string :=
  match i !! key with Some (PyStr s) => Some s | _ => None end.
Definition str_field_or (key default : string) (i : fixture_item) : string :=
  match str_field key i with
  | Some s => if decide (s = "") then default else s
  | None => default
  end.

Definition set_status s (x : FixtureState) := mkFixtureState s (fx_actuators x) (fx_relays x) (fx_sensors x).
Definition set_actuators d (x : FixtureState) := mkFixtureState (fx_status x) d (fx_relays x) (fx_sensors x).
Definition set_relays d (x : FixtureState) := mkFixtureState (fx_status x) (fx_actuators x) d (fx_sensors x).
Definition set_sensors d (x : FixtureState) := mkFixtureState (fx_status x) (fx_actuators x) (fx_relays x) d.

(** The controller's own part. *)
Section lookup.
Context (fc : FixtureController).

Definition fx_get (key : string) : list fixture_item := default [] (fc_config fc !! key).
Definition get_item (category id : string) : option fixture_item :=
  head (base.filter (λ i, str_field "id" i = Some id) (fx_get category)).
Definition position_sensor : option fixture_item :=
  match base.filter (λ i, str_field "id" i = Some "clamp_position") (fx_get "sensors") with
  | s :: _ => Some s
  | [] => head (base.filter (λ i, str_field "type" i = Some "position") (fx_get "sensors"))
  end.

(** What the simulation answers. *)
Definition simulated (i : fixture_item) (method : string) : pyval :=
  match i !! "default_value" with
  | None | Some PyNone =>
      if str_contains "read" method then default (PyFloat "1.0") (i !! "simulate_value") else PyNone
  | Some v => v
  end.
End lookup.

Section controller.
Context {W : Type} `{PX : ProxyClient W} `{PF : PyFloats}.

Abbreviation FM := (M (FixtureController * W)).
Definition of_fixture {A} (f : FixtureController → A) : FM A := gets (λ s, f s.1).
Definition update_state (f : FixtureState → FixtureState) : FM unit :=
  modify (λ s, (mkFixture (fc_id s.1) (fc_config s.1) (fc_proxied s.1) (f (fc_state s.1)), s.2)).
Definition in_proxy {A} (m : M W A) : FM A := zoom snd (λ w s, (s.1, w)) m.

Definition proxy_call (i : fixture_item) (method : string) (args : list pyval) : FM pyval :=
  proxied <- of_fixture fc_proxied ;;
  if negb proxied then ret (simulated i method)
  else
    let resource := py_or (default PyNone (i !! "control_resource")) (default PyNone (i !! "read_resource")) in
    in_proxy (call_on (if has_client && py_bool resource then Some resource else None) method args).

Definition set_actuator (i : fixture_item) (action : string) : FM unit :=
  let method := str_field_or (action +:+ "_method") (str_field_or "method" action i) i in
  proxy_call i method [] ;;;
  update_state (λ x, set_actuators (<[default "?" (str_field "id" i) := action]> (fx_actuators x)) x).

Definition is_cylinder (i : fixture_item) : Prop := str_field "type" i = Some "cylinder".
#[export] Instance is_cylinder_dec i : Decision (is_cylinder i) := decide (_ = _).
Definition drive_cylinders (action : string) : FM unit :=
  actuators <- of_fixture (λ fc, fx_get fc "actuators") ;;
  for_each actuators (λ i, when bool_decide (is_cylinder i) do set_actuator i action).

Definition missing (what id fid : string) : exc :=
  FixtureError ("Fixture " +:+ fid +:+ " has no " +:+ what +:+ " '" +:+ id +:+ "'").

Definition set_route (relay_id route : string) : FM unit :=
  fc <- of_fixture id ;;
  match get_item fc "relays" relay_id with
  | None => raise (missing "relay" relay_id (fc_id fc))
  | Some relay =>
      proxy_call relay (str_field_or "method" "set_route" relay) [PyStr route] ;;;
      update_state (λ x, set_relays (<[relay_id := route]> (fx_relays x)) x)
  end.

Definition read_sensor (sensor_id : string) : FM F :=
  fc <- of_fixture id ;;
  match get_item fc "sensors" sensor_id with
  | None => raise (missing "sensor" sensor_id (fc_id fc))
  | Some sensor =>
      value <- proxy_call sensor (str_field_or "method" "read" sensor) [] ;;
      update_state (λ x, set_sensors (<[sensor_id := value]> (fx_sensors x)) x) ;;;
      lift (py_float value)
  end.

Definition reads_as (x : F) (value : Z) : bool :=
  match py_float (PyInt value) with Ok y => f_eqb x y | Raise _ => false end.

(** [while time.monotonic() < deadline] *)
Fixpoint poll_sensor (polls : nat) (sensor_id : string) (value : Z) : FM bool :=
  match polls with
  | O => ret false
  | S polls' =>
      current <- read_sensor sensor_id ;;
      if reads_as current value then ret true else poll_sensor polls' sensor_id value
  end.
Definition wait_sensor (polls : nat) (sensor : fixture_item) (value : Z) (timeout : pyval) : FM unit :=
  match str_field "id" sensor with
  | None => raise (KeyError (repr_str "id"))
  | Some sid =>
      reached <- poll_sensor polls sid value ;;
      if reached then ret tt
      else fid <- of_fixture fc_id ;;
           raise (FixtureTimeoutError ("Fixture " +:+ fid +:+ " sensor " +:+ sid +:+
             " not reached value " +:+ pretty value +:+ " within " +:+ py_str timeout +:+ "s"))
  end.

Definition DEFAULT_SENSOR_TIMEOUT : pyval := PyFloat "5.0".
Definition clamp (polls : nat) (timeout : pyval) : FM unit :=
  let effective_timeout := py_or timeout DEFAULT_SENSOR_TIMEOUT in
  drive_cylinders "extend" ;;;
  sensor <- of_fixture position_sensor ;;
  match sensor with
  | Some s => wait_sensor polls s 1 effective_timeout
  | None => ret tt
  end ;;;
  update_state (set_status "clamped").
Definition release : FM unit :=
  drive_cylinders "retract" ;;;
  update_state (set_status "idle").

(** ** What an action may change *)

(** Two controllers that differ in readings only. *)
Definition same_setup (fc fc' : FixtureController) : Prop :=
  fc_id fc' = fc_id fc ∧ fc_config fc' = fc_config fc ∧ fc_proxied fc' = fc_proxied fc ∧
  fx_status (fc_state fc') = fx_status (fc_state fc) ∧ fx_relays (fc_state fc') = fx_relays (fc_state fc).

#[local] Instance same_setup_preorder : PreOrder same_setup.
Proof. split; unfold same_setup; [by intros ?|intros x y z; intuition congruence]. Qed.

(** A computation that ends in a controller related to the one it started from. *)
Definition relates {A} (R : FixtureController → FixtureController → Prop) (m : FM A) : Prop :=
  ∀ s, R s.1 (m s).2.1.

Section relates.
Context (R : FixtureController → FixtureController → Prop) `{!PreOrder R}.

Lemma relates_ret {A} (a : A) : relates R (ret a).
Proof. intros s. reflexivity. Qed.
Lemma relates_raise {A} e : relates R (raise (A := A) e).
Proof. intros s. reflexivity. Qed.
Lemma relates_gets {A} (f : FixtureController → A) : relates R (of_fixture f).
Proof. intros s. reflexivity. Qed.
Lemma relates_proxy {A} (m : M W A) : relates R (in_proxy m).
Proof. intros s. unfold in_proxy, zoom. by destruct (m s.2). Qed.
Lemma relates_bind {A B} (m : FM A) (k : A → FM B) :
  relates R m → (∀ a, relates R (k a)) → relates R (bind m k).
Proof.
  intros Hm Hk s. specialize (Hm s). unfold bind. destruct (m s) as [[a|e] s']; [|done].
  etrans; [exact Hm|apply Hk].
Qed.
Lemma relates_for_each {A} (l : list A) body :
  (∀ x, relates R (body x)) → relates R (for_each l body).
Proof.
  intros H. induction l as [|x l IH]; cbn [for_each]; [apply relates_ret|].
  by apply relates_bind.
Qed.
End relates.

Lemma relates_proxy_call i method args :
  ∀ R : FixtureController → FixtureController → Prop, PreOrder R → relates R (proxy_call i method args).
Proof.
  intros R ?. apply relates_bind; [done|by apply relates_gets|intros b].
  destruct (negb b); [by apply relates_ret|by apply relates_proxy].
Qed.

Lemma same_drive action : relates same_setup (drive_cylinders action).
Proof.
  apply relates_bind; [apply _|by apply relates_gets, _|intros l].
  apply relates_for_each; [apply _|intros i]. case_match; [|apply relates_ret, _].
  apply relates_bind; [apply _|apply relates_proxy_call, _|intros ?]. intros [fc w]. by split_and!.
Qed.

(** Reading a sensor changes readings only. *)
Definition same_but_sensors (fc fc' : FixtureController) : Prop :=
  same_setup fc fc' ∧ fx_actuators (fc_state fc') = fx_actuators (fc_state fc).
#[local] Instance same_but_sensors_preorder : PreOrder same_but_sensors.
Proof.
  split; unfold same_but_sensors; [by intros ?|].
  intros x y z [H1 E1] [H2 E2]. split; [by etrans|congruence].
Qed.

Lemma same_read sid : relates same_but_sensors (read_sensor sid).
Proof.
  apply relates_bind; [apply _|by apply relates_gets, _|intros fc].
  case_match; [|apply relates_raise, _].
  apply relates_bind; [apply _|apply relates_proxy_call, _|intros v].
  apply relates_bind; [apply _|by intros [? ?]|intros ?].
  destruct (py_float v); [apply relates_ret|apply relates_raise]; apply _.
Qed.
Lemma same_poll polls sid value : relates same_but_sensors (poll_sensor polls sid value).
Proof.
  induction polls as [|n IH]; cbn [poll_sensor]; [apply relates_ret, _|].
  apply relates_bind; [apply _|apply same_read|intros x]. case_match; [apply relates_ret, _|done].
Qed.
Lemma same_wait polls s value timeout : relates same_but_sensors (wait_sensor polls s value timeout).
Proof.
  unfold wait_sensor. case_match; [|apply relates_raise, _].
  apply relates_bind; [apply _|apply same_poll|intros b]. case_match; [apply relates_ret, _|].
  apply relates_bind; [apply _|by apply relates_gets, _|intros ?]. apply relates_raise, _.
Qed.

(** ** Clamping *)

(** The last reading of a sensor equals a value. *)
Definition sensor_at (fc : FixtureController) (sid : string) (value : Z) : Prop :=
  ∃ v x, fx_sensors (fc_state fc) !! sid = Some v ∧ py_float v = Ok x ∧ reads_as x value = true.

Lemma read_sensor_reading sid s x s' :
  read_sensor sid s = (Ok x, s') →
  ∃ v, fx_sensors (fc_state s'.1) !! sid = Some v ∧ py_float v = Ok x.
Proof.
  unfold read_sensor. intros H. apply bind_inv_ok in H as (fc & s1 & _ & H).
  destruct (get_item fc "sensors" sid); [|done].
  apply bind_inv_ok in H as (v & s2 & _ & H). apply bind_inv_ok in H as (? & s3 & Hu & H).
  exists v. injection Hu as <- <-. destruct (py_float v) as [y|]; [|done].
  injection H as <- <-. split; [apply dict_lookup_insert_eq|done].
Qed.

Lemma poll_sensor_reached polls sid value s s' :
  poll_sensor polls sid value s = (Ok true, s') → sensor_at s'.1 sid value.
Proof.
  revert s. induction polls as [|n IH]; intros s; cbn [poll_sensor]; [done|].
  intros (x & s1 & Hr & H)%bind_inv_ok. destruct (reads_as x value) eqn:Hx; [|by eapply IH].
  injection H as <-. apply read_sensor_reading in Hr as (v & Hv & Hf). by exists v, x.
Qed.

Lemma wait_sensor_reached polls i sid value timeout s s' :
  str_field "id" i = Some sid → wait_sensor polls i value timeout s = (Ok tt, s') →
  sensor_at s'.1 sid value.
Proof.
  intros Hid. unfold wait_sensor. rewrite Hid. intros (b & s1 & Hp & H)%bind_inv_ok.
  destruct b; [injection H as <-; by eapply poll_sensor_reached|].
  by apply bind_inv_ok in H as (fid & s2 & _ & H).
Qed.

(** Every cylinder has been told the action last. *)
Definition all_driven (fc : FixtureController) (action : string) : Prop :=
  ∀ i, i ∈ fx_get fc "actuators" → is_cylinder i →
    fx_actuators (fc_state fc) !! default "?" (str_field "id" i) = Some action.

Lemma drive_each action l s s' (done : list fixture_item) :
  for_each l (λ i, when bool_decide (is_cylinder i) do set_actuator i action) s = (Ok tt, s') →
  (∀ i, i ∈ done → is_cylinder i → fx_actuators (fc_state s.1) !! default "?" (str_field "id" i) = Some action) →
  ∀ i, i ∈ done ++ l → is_cylinder i →
    fx_actuators (fc_state s'.1) !! default "?" (str_field "id" i) = Some action.
Proof.
  revert s done. induction l as [|j l IH]; intros s dn; cbn [for_each].
  - intros [= <-] Hd i. rewrite app_nil_r. by apply Hd.
  - intros ([] & s1 & Hj & Hl)%bind_inv_ok Hd i Hi Hc.
    eapply (IH s1 (dn ++ [j]) Hl); [|by rewrite <-(assoc (++))|done].
    clear i Hi Hc Hl. destruct (bool_decide (is_cylinder j)) eqn:Ej.
    + apply bind_inv_ok in Hj as (v & s2 & Hp & Hu). injection Hu as <-.
      pose proof (relates_proxy_call j (str_field_or (action +:+ "_method") (str_field_or "method" action j) j) []
        same_but_sensors _ s) as [_ Ha]. rewrite Hp in Ha. cbn [fst snd] in Ha.
      intros i Hi Hc. cbn. rewrite dict_lookup_insert. case_decide; [done|]. rewrite Ha.
      apply elem_of_app in Hi as [Hi| ->%list_elem_of_singleton]; [by apply Hd|done].
    + injection Hj as <-. apply bool_decide_eq_false in Ej.
      intros i [Hi| ->%list_elem_of_singleton]%elem_of_app Hc; [by apply Hd|done].
Qed.

Lemma drive_cylinders_all action s s' :
  drive_cylinders action s = (Ok tt, s') → all_driven s'.1 action.
Proof.
  intros H i Hi Hc. pose proof (same_drive action s) as (_ & Hcfg & _). rewrite H in Hcfg. cbn in Hcfg.
  unfold drive_cylinders in H. rewrite bind_ok with (a := fx_get s.1 "actuators") (s' := s) in H by done.
  eapply (drive_each action _ s s' [] H); [by intros ? ?%elem_of_nil| |done].
  unfold fx_get in *. by rewrite <-Hcfg.
Qed.

Lemma same_driven fc fc' action : same_but_sensors fc fc' → all_driven fc action → all_driven fc' action.
Proof.
  intros [(_ & Hc & _) Ha] H i. unfold fx_get. rewrite Ha, Hc. apply H.
Qed.
Lemma same_sensor_item fc fc' : same_setup fc fc' → position_sensor fc' = position_sensor fc.
Proof. intros (_ & Hc & _). unfold position_sensor, fx_get. by rewrite Hc. Qed.

(** Clamping ends in the status "clamped" exactly when it does not fail, and then every
    cylinder was extended and the position sensor, if there is one, last read 1; a clamp that
    fails leaves the status as it was. Identity, configuration and relay
    routes never change. *)
Theorem clamp_contract polls timeout s :
  let '(r, s') := clamp polls timeout s in
  fc_id s'.1 = fc_id s.1 ∧ fc_config s'.1 = fc_config s.1 ∧
  fx_relays (fc_state s'.1) = fx_relays (fc_state s.1) ∧
  match r with
  | Ok _ =>
      fx_status (fc_state s'.1) = "clamped" ∧ all_driven s'.1 "extend" ∧
      ∀ i, position_sensor s.1 = Some i → ∃ sid, str_field "id" i = Some sid ∧ sensor_at s'.1 sid 1
  | Raise _ => fx_status (fc_state s'.1) = fx_status (fc_state s.1)
  end.
Proof.
  unfold clamp. pose proof (same_drive "extend" s) as Hd.
  destruct (drive_cylinders "extend" s) as [[[]|e] s1] eqn:Ed; cbn [fst snd] in Hd.
  2:{ rewrite (bind_raise _ _ _ _ _ Ed). destruct Hd as (? & ? & ? & ? & ?). by split_and!. }
  rewrite (bind_ok _ _ _ _ _ Ed). apply drive_cylinders_all in Ed.
  rewrite bind_ok with (a := position_sensor s1.1) (s' := s1) by done.
  rewrite (same_sensor_item _ _ Hd). set (wait := match position_sensor s.1 with Some _ => _ | None => _ end).
  assert (relates same_but_sensors wait) as Hw
    by (unfold wait; destruct (position_sensor s.1); [apply same_wait|apply relates_ret, _]).
  specialize (Hw s1). destruct (wait s1) as [[[]|e] s2] eqn:Ew; cbn [fst snd] in Hw.
  - rewrite (bind_ok _ _ _ _ _ Ew). pose proof (same_driven _ _ _ Hw Ed) as Hall.
    destruct (transitivity (R := same_setup) Hd (proj1 Hw)) as (E1 & E2 & E3 & E4 & E5). cbn.
    split_and!; [done..|exact Hall|].
    intros i Hi. unfold wait in Ew. rewrite Hi in Ew. unfold wait_sensor in Ew.
    destruct (str_field "id" i) as [sid|] eqn:Hid; [|done]. exists sid. split; [done|].
    apply (wait_sensor_reached polls i sid 1 (py_or timeout DEFAULT_SENSOR_TIMEOUT) s1 s2 Hid).
    unfold wait_sensor. by rewrite Hid.
  - rewrite (bind_raise _ _ _ _ _ Ew). destruct (transitivity (R := same_setup) Hd (proj1 Hw)) as (? & ? & ? & ? & ?). by split_and!.
Qed.

(** ** A controller without configuration *)

Section bare.
Context (s : FixtureController * W) (Hbare : fc_config s.1 = ∅).

Lemma bare_get key : fx_get s.1 key = [].
Proof. unfold fx_get. by rewrite Hbare. Qed.
Lemma bare_clamp polls timeout : clamp polls timeout s = update_state (set_status "clamped") s.
Proof.
  unfold clamp, drive_cylinders. cbv [bind of_fixture gets]. rewrite bare_get. cbn.
  unfold position_sensor. by rewrite bare_get.
Qed.
Lemma bare_release : release s = update_state (set_status "idle") s.
Proof. unfold release, drive_cylinders. cbv [bind of_fixture gets]. by rewrite bare_get. Qed.
Lemma bare_route relay_id route :
  set_route relay_id route s = (Raise (missing "relay" relay_id (fc_id s.1)), s).
Proof. unfold set_route. cbv [bind of_fixture gets]. unfold get_item. by rewrite bare_get. Qed.
Lemma bare_read sensor_id :
  read_sensor sensor_id s = (Raise (missing "sensor" sensor_id (fc_id s.1)), s).
Proof. unfold read_sensor. cbv [bind of_fixture gets]. unfold get_item. by rewrite bare_get. Qed.
End bare.
End controller.

(** ** A simulated clamp *)

Definition no_proxy : ProxyClient unit :=
  {| has_client := false; call_on _ _ _ := raise (OtherError "no proxy") |}.
Definition clamp_fixture (reading : Z) : FixtureController :=
  new_fixture "FX1" (PyDict
    [("actuators", [PyDict [("id", PyStr "c1"); ("type", PyStr "cylinder")];
                    PyDict [("id", PyStr "lamp"); ("type", PyStr "light")]]);
     ("sensors", [PyDict [("id", PyStr "clamp_position"); ("simulate_value", PyInt reading)]])]) false.

Example clamp_reaches :
  (λ r : res unit * (FixtureController * unit), (r.1, fc_state r.2.1))
    (clamp (PX := no_proxy) (PF := whole_floats) 3 PyNone (clamp_fixture 1, tt)) =
  (Ok tt, mkFixtureState "clamped" (PyDict [("c1", "extend")]) ∅ (PyDict [("clamp_position", PyInt 1)])).
Proof. vm_compute. reflexivity. Qed.
Example clamp_times_out :
  (λ r : res unit * (FixtureController * unit), (r.1, fx_status (fc_state r.2.1)))
    (clamp (PX := no_proxy) (PF := whole_floats) 3 PyNone (clamp_fixture 0, tt)) =
  (Raise (FixtureTimeoutError "Fixture FX1 sensor clamp_position not reached value 1 within 5.0s"), "idle").
Proof. vm_compute. reflexivity. Qed.
