(* ===== verification/PlanDispatcher.v ===== *)
(** * The plan dispatcher (src/src/ate_platform/executor/v32_dispatcher.py)

    A plan runs item by item in the order of its dependencies: fixture, barrier, breakpoint and
    script steps, and loops, which run their own items. The fixtures are those of Fixture.v and
    the barriers those of UutSync.v, reached through [BarrierThreads], which says what the
    threads of a barrier hand back. *)

From S2P Require Import Prelude PyDict PyStr PyNum Types Dsl UutSync Fixture.

(** ** What the dispatcher is given *)

(** [gather m name us]: the units [us] wait at a barrier, each in a thread of its own. Every
    result tells who is missing, nobody is missing in time, and the barrier is gone afterwards. *)
Class BarrierThreads : Type := {
  gather : UUTManager → string → list string → list BarrierResult * UUTManager;
  gather_results m name us r :
    um_barriers m = ∅ → us ⊆ mgr_uut_ids m → r ∈ (gather m name us).1 →
    br_reached r ⊆ list_to_set us ∧ br_missing r = list_to_set (mgr_uut_ids m) ∖ br_reached r ∧
    (br_timed_out r = false → br_missing r = ∅);
  gather_answers m name us :
    um_barriers m = ∅ → us ⊆ mgr_uut_ids m → length (gather m name us).1 = length us;
  gather_manager m name us :
    um_barriers m = ∅ → us ⊆ mgr_uut_ids m →
    um_barriers (gather m name us).2 = ∅ ∧ mgr_uut_ids (gather m name us).2 = mgr_uut_ids m
}.

(** The injected executor and hook, [eval] on a condition, the clock of a sensor's deadline and
    the formatting of a float. *)
Class DispatcherEnv (W : Type) `{PyFloats} : Type := {
  script_executor : option (YamlStep → M W bool);
  breakpoint_hook : option (YamlStep → M W unit);
  eval_condition : string → res bool;
  sensor_polls : W → nat;
  f_str : F → string
}.

Record StepOutcome : Type := mkOutcome {
  oc_step_id : string;
  oc_step_type : string;
  oc_status : string;
  oc_detail : string;
  oc_attempts : Z
}.
Definition outcome (s : YamlStep) (step_type status detail : string) : StepOutcome :=
  mkOutcome (ys_id s) step_type status detail 1.

(** ** Items *)

(** [a or b] on optional strings. *)
Definition or_else (a b : option string) : option string := if truthy a then a else b.

Definition deps (n : YamlNode) : list string :=
  match n with
  | LoopNode spec _ => yl_depends_on spec
  | StepNode s _ =>
      ys_depends_on s ++ base.filter (λ d, d ∉ ys_depends_on s) (ys_preconditions s)
  end.
Definition item_id (n : YamlNode) : string :=
  match n with StepNode s _ => ys_id s | LoopNode spec _ => yl_id spec end.
Definition item_type (n : YamlNode) : string :=
  match n with
  | LoopNode _ _ => "loop"
  | StepNode s _ => default "script" (step_type_value <$> ys_type s)
  end.
Definition is_abort (n : YamlNode) : bool :=
  match n with
  | StepNode s _ => bool_decide (or_else (ys_on_failure s) (ys_on_fail s) ∈ [None; Some "abort"])
  | LoopNode _ _ => false
  end.
Definition ready (completed : list string) (n : YamlNode) : Prop :=
  Forall (λ d, d ∈ completed) (deps n).
#[export] Instance ready_dec completed n : Decision (ready completed n) := _.

Definition blocked (n : YamlNode) : StepOutcome :=
  mkOutcome (item_id n) (item_type n) "BLOCKED" ("Unmet dependencies: " +:+ repr_strs (deps n)) 1.
Definition rename (loop_id : string) (iteration : nat) (oc : StepOutcome) : StepOutcome :=
  mkOutcome (loop_id +:+ ".iter" +:+ pretty iteration +:+ "." +:+ oc_step_id oc)
    (oc_step_type oc) (oc_status oc) (oc_detail oc) (oc_attempts oc).

Definition FIXTURE_ACTIONS : list string := ["clamp"; "release"; "set_route"; "read_sensor"].

(** ** The dispatcher *)

Record Dispatcher (W : Type) : Type := mkDispatcher {
  dp_fixtures : pydict string FixtureController;
  dp_uuts : UUTManager;
  dp_aborted : bool;
  dp_world : W
}.
Arguments mkDispatcher {W}.
Arguments dp_fixtures {W}.
Arguments dp_uuts {W}.
Arguments dp_aborted {W}.
Arguments dp_world {W}.

Section dispatcher.
Context {W : Type} `{PF : PyFloats} `{PX : ProxyClient W} `{BT : BarrierThreads} `{DE : !DispatcherEnv W}.
Context (plan_fixture_id : option string) (missing_uuts : list string).

Abbreviation DM := (M (Dispatcher W)).
Definition set_fixtures d (s : Dispatcher W) := mkDispatcher d (dp_uuts s) (dp_aborted s) (dp_world s).
Definition set_dp_uuts m (s : Dispatcher W) := mkDispatcher (dp_fixtures s) m (dp_aborted s) (dp_world s).
Definition set_aborted b (s : Dispatcher W) := mkDispatcher (dp_fixtures s) (dp_uuts s) b (dp_world s).
Definition set_world (w : W) (s : Dispatcher W) := mkDispatcher (dp_fixtures s) (dp_uuts s) (dp_aborted s) w.

(** ** Fixture steps *)

Definition get_fixture (fid : string) : DM FixtureController :=
  s <- get ;;
  match dp_fixtures s !! fid with
  | Some fc => ret fc
  | None =>
      let fc := new_fixture fid ∅ false in
      put (set_fixtures (<[fid := fc]> (dp_fixtures s)) s) ;;;
      ret fc
  end.
Definition on_fixture {A} (fid : string) (m : M (FixtureController * W) A) : DM A :=
  fc <- get_fixture fid ;;
  zoom (λ s, (fc, dp_world s))
    (λ t s, set_world t.2 (set_fixtures (<[fid := t.1]> (dp_fixtures s)) s)) m.

Definition param_str (key default_value : string) (s : YamlStep) : string :=
  py_str (default (PyStr default_value) (ys_params s !! key)).

Definition fixture_action (s : YamlStep) (fid action : string) : DM StepOutcome :=
  let fail := outcome s "fixture_control" "FAIL" in
  let pass := outcome s "fixture_control" "PASS" in
  let finished := pass (action +:+ " on fixture '" +:+ fid +:+ "'") in
  if decide (action = "clamp") then
    w <- gets dp_world ;;
    on_fixture fid (clamp (sensor_polls w) PyNone) ;;; ret finished
  else if decide (action = "release") then on_fixture fid Fixture.release ;;; ret finished
  else if decide (action = "set_route") then
    let relay_id := param_str "relay_id" "" s in
    let route := param_str "route" "DUT1" s in
    if decide (relay_id = "") then ret (fail "set_route requires params.relay_id")
    else on_fixture fid (set_route relay_id route) ;;; ret finished
  else
    let sensor_id := param_str "sensor_id" "" s in
    if decide (sensor_id = "") then ret (fail "read_sensor requires params.sensor_id")
    else value <- on_fixture fid (read_sensor sensor_id) ;;
         ret (pass ("read_sensor " +:+ sensor_id +:+ " = " +:+ f_str value)).

(** [except FixtureTimeoutError], [except FixtureError] *)
Definition fixture_failed (s : YamlStep) (action : string) (e : exc) : option (DM StepOutcome) :=
  match e with
  | CustomError cls msg =>
      if decide (cls = "FixtureTimeoutError") then
        Some (ret (outcome s "fixture_control" "FAIL" ("Fixture action '" +:+ action +:+ "' timed out: " +:+ msg)))
      else if decide (cls = "FixtureError") then
        Some (ret (outcome s "fixture_control" "FAIL" ("Fixture action '" +:+ action +:+ "' failed: " +:+ msg)))
      else None
  | _ => None
  end.

Definition dispatch_fixture (s : YamlStep) : DM StepOutcome :=
  match or_else (ys_fixture_id s) plan_fixture_id with
  | None => ret (outcome s "fixture_control" "FAIL" "fixture_control step requires 'fixture_id'")
  | Some fid =>
      if decide (fid = "") then
        ret (outcome s "fixture_control" "FAIL" "fixture_control step requires 'fixture_id'")
      else
        let action := default "" (ys_action s) in
        if negb (str_in action FIXTURE_ACTIONS) then
          ret (outcome s "fixture_control" "FAIL" ("Unknown fixture action '" +:+ action +:+ "' (valid: "
            +:+ repr_strs (py_sorted FIXTURE_ACTIONS) +:+ ")"))
        else
          get_fixture fid ;;;
          try_except (fixture_action s fid action) (fixture_failed s action)
  end.

(** ** Barrier steps *)

Definition arrivers (ids : list string) : list string :=
  or_list (base.filter (λ u, u ∉ missing_uuts) ids) ids.

Definition dispatch_barrier (s : YamlStep) : DM StepOutcome :=
  let barrier_name := or_str (ys_barrier_name s) (ys_id s) in
  d <- get ;;
  let '(results, m) := gather (dp_uuts d) barrier_name (arrivers (mgr_uut_ids (dp_uuts d))) in
  put (set_dp_uuts m d) ;;;
  match base.filter (λ r, br_timed_out r = true) results with
  | [] => ret (outcome s "barrier" "PASS" ("Barrier '" +:+ barrier_name +:+ "' reached by all UUTs"))
  | timed_out =>
      ret (outcome s "barrier" "FAIL" ("Barrier '" +:+ barrier_name +:+ "' timed out; missing UUTs: "
        +:+ repr_strs (py_sorted (elements (⋃ (br_missing <$> timed_out))))))
  end.

(** ** Breakpoint and script steps *)

Definition in_world {A} (m : M W A) : DM A := zoom dp_world set_world m.

Definition dispatch_breakpoint (s : YamlStep) : DM StepOutcome :=
  let hit := match ys_condition s with
             | Some c => if decide (c = "") then true
                         else match eval_condition c with Ok b => b | Raise _ => true end
             | None => true
             end in
  if negb hit then
    ret (outcome s "breakpoint" "PASS" ("Breakpoint '" +:+ ys_id s +:+ "' condition false; not suspended"))
  else
    match breakpoint_hook with
    | Some hook =>
        in_world (hook s) ;;;
        ret (outcome s "breakpoint" "PASS" ("Breakpoint '" +:+ ys_id s +:+ "' hit; suspended then resumed"))
    | None =>
        ret (outcome s "breakpoint" "PASS" ("Breakpoint '" +:+ ys_id s +:+
          "' hit; no interactive pause gate (headless/unattended) — pass-through"))
    end.

(** One attempt: an exception of the executor counts as a failure. *)
Definition attempt (s : YamlStep) : M W bool :=
  match script_executor with
  | Some f => try_except (f s) (λ _, Some (ret false))
  | None => ret true
  end.
(** The attempt that passes, if one does. *)
Fixpoint attempts (n : nat) (made : Z) (s : YamlStep) : M W (option Z) :=
  match n with
  | O => ret None
  | S n' => ok <- attempt s ;; if ok then ret (Some (made + 1)%Z) else attempts n' (made + 1) s
  end.

Definition max_attempts (s : YamlStep) : Z := 1 + ys_retry s.
Definition failure_outcome (s : YamlStep) (made : Z) : DM StepOutcome :=
  let detail := "script '" +:+ ys_script s +:+ "' failed after " +:+ pretty made +:+ " attempt(s)" in
  let on_failure := or_else (ys_on_failure s) (ys_on_fail s) in
  if decide (on_failure = Some "continue") then
    ret (mkOutcome (ys_id s) "script" "FAIL" (detail +:+ "; on_failure=continue") made)
  else if decide (on_failure = Some "skip") then
    ret (mkOutcome (ys_id s) "script" "SKIP" (detail +:+ "; on_failure=skip") made)
  else
    modify (set_aborted true) ;;;
    ret (mkOutcome (ys_id s) "script" "FAIL" (detail +:+ "; on_failure=abort (default)") made).
Definition dispatch_script (s : YamlStep) : DM StepOutcome :=
  passed <- in_world (attempts (Z.to_nat (max_attempts s)) 0 s) ;;
  match passed with
  | Some made => ret (mkOutcome (ys_id s) "script" "PASS"
      ("script '" +:+ ys_script s +:+ "' (attempt " +:+ pretty made +:+ ")") made)
  | None => failure_outcome s (Z.max 0 (max_attempts s))
  end.

(** ** Items in order *)

Definition execute_step (s : YamlStep) : DM StepOutcome :=
  match default SCRIPT (ys_type s) with
  | FIXTURE_CONTROL => dispatch_fixture s
  | BARRIER => dispatch_barrier s
  | BREAKPOINT => dispatch_breakpoint s
  | LOOP => ret (outcome s "loop" "PASS" "Loop container (children dispatched separately)")
  | ACTION | SCRIPT => dispatch_script s
  | t => ret (outcome s (step_type_value t) "SKIP"
      ("Unsupported step type '" +:+ step_type_value t +:+ "' in this dispatcher"))
  end.

(** An item with the code that executes it. *)
Definition work : Type := YamlNode * DM (list StepOutcome).

(** [for item in ready]: what is left after an abort is dropped, and is not completed. *)
Fixpoint run_ready (l : list work) (completed : list string) : DM (list StepOutcome * list string) :=
  match l with
  | [] => ret ([], completed)
  | (n, run) :: l' =>
      aborted <- gets dp_aborted ;;
      if aborted then run_ready l' completed
      else os <- run ;;
           r <- run_ready l' (completed ++ [item_id n]) ;;
           ret (os ++ r.1, r.2)
  end.

(** [while remaining]. Every turn with a ready item leaves fewer remaining, all copies of an item
    being ready together, so that [length remaining] turns are enough. *)
Fixpoint rounds (fuel : nat) (remaining : list work) (completed : list string) : DM (list StepOutcome) :=
  match remaining with
  | [] => ret []
  | _ =>
      match base.filter (λ w, ready completed w.1) remaining with
      | [] => modify (λ s, set_aborted (dp_aborted s || existsb is_abort remaining.*1) s) ;;;
              ret (blocked <$> remaining.*1)
      | now =>
          match fuel with
          | O => raise (OtherError "out of fuel")
          | S fuel' =>
              r <- run_ready now completed ;;
              os <- rounds fuel' (base.filter (λ w, ¬ ready completed w.1) remaining) r.2 ;;
              ret (r.1 ++ os)
          end
      end
  end.

Fixpoint loop_iterations (body : DM (list StepOutcome)) (loop_id : string) (n iteration : nat) :
    DM (list StepOutcome) :=
  match n with
  | O => ret []
  | S n' =>
      aborted <- gets dp_aborted ;;
      if aborted then ret []
      else os <- body ;;
           rest <- loop_iterations body loop_id n' (S iteration) ;;
           ret ((rename loop_id iteration <$> os) ++ rest)
  end.

Fixpoint execute_item (n : YamlNode) : DM (list StepOutcome) :=
  match n with
  | StepNode s _ => o <- execute_step s ;; ret [o]
  | LoopNode spec steps =>
      loop_iterations (rounds (length steps) (map (λ m, (m, execute_item m)) steps) [])
        (yl_id spec) (Z.to_nat (default 1%Z (yl_count spec))) 0
  end.
Definition item_work (n : YamlNode) : work := (n, execute_item n).
Definition run_items (items : list YamlNode) : DM (list StepOutcome) :=
  rounds (length items) (map item_work items) [].

(** [run()] *)
Definition run_plan (steps : list YamlNode) : DM (list StepOutcome) :=
  modify (set_aborted false) ;;;
  run_items steps.

(** ** The order of a run *)

(** Items executed one after another, none of them after an abort. *)
Inductive Runs : list YamlNode → Dispatcher W → list StepOutcome → Dispatcher W → Prop :=
  | Runs_nil s : Runs [] s [] s
  | Runs_cons n l s os s1 os' s2 :
      dp_aborted s = false → execute_item n s = (Ok os, s1) → Runs l s1 os' s2 →
      Runs (n :: l) s (os ++ os') s2.

Definition ids (l : list YamlNode) : list string := item_id <$> l.
(** Every item comes after all it depends on. *)
Definition ordered (completed : list string) (l : list YamlNode) : Prop :=
  ∀ i n, l !! i = Some n → ready (completed ++ ids (take i l)) n.
Definition stopped_by (l : list YamlNode) (e : exc) (s s' : Dispatcher W) : Prop :=
  ∃ done os s1 n, Runs done s os s1 ∧ n ∈ l ∧ dp_aborted s1 = false ∧ execute_item n s1 = (Raise e, s').

Lemma Runs_app l1 l2 s os1 s1 os2 s2 :
  Runs l1 s os1 s1 → Runs l2 s1 os2 s2 → Runs (l1 ++ l2) s (os1 ++ os2) s2.
Proof.
  induction 1 as [s|n l s os s1 os' s3 Ha He Hr IH]; [done|]. intros H2.
  rewrite <-(assoc_L (++)). cbn. econstructor; eauto.
Qed.
Lemma Runs_start l s os s' : Runs l s os s' → dp_aborted s' = false → dp_aborted s = false.
Proof. by destruct 1. Qed.

Lemma stopped_after l1 s os1 s1 l e s' :
  Runs l1 s os1 s1 → stopped_by l e s1 s' → stopped_by l e s s'.
Proof.
  intros Hr (dn & os & s2 & n & Hd & H). exists (l1 ++ dn), (os1 ++ os), s2, n.
  split; [by eapply Runs_app|done].
Qed.
Lemma stopped_mono l l' e s s' : (∀ n, n ∈ l → n ∈ l') → stopped_by l e s s' → stopped_by l' e s s'.
Proof. intros H (dn & os & s2 & n & Hd & Hn & H'). exists dn, os, s2, n. auto. Qed.

Lemma ready_mono c c' n : c ⊆ c' → ready c n → ready c' n.
Proof. intros H Hr. eapply Forall_impl; [exact Hr|]. auto. Qed.
Lemma ordered_app c l1 l2 : ordered c l1 → ordered (c ++ ids l1) l2 → ordered c (l1 ++ l2).
Proof.
  intros H1 H2 i n Hi. apply lookup_app_Some in Hi as [Hi|[Hle Hi]].
  - pose proof (lookup_lt_Some _ _ _ Hi). rewrite take_app_le by lia. by apply H1.
  - rewrite take_app_ge by lia. unfold ids in *. rewrite fmap_app, (assoc_L (++)). by apply H2.
Qed.
Lemma all_ready_ordered c l : Forall (ready c) l → ordered c l.
Proof.
  intros Hl i n Hi. eapply ready_mono; [|by eapply Forall_lookup_1]. intros x ?. apply elem_of_app. by left.
Qed.

Lemma run_ready_aborted l c s : dp_aborted s = true → run_ready l c s = (Ok ([], c), s).
Proof.
  intros Ha. induction l as [|[n run] l IH]; cbn [run_ready]; [done|].
  rewrite bind_ok with (a := true) (s' := s); [done|]. unfold gets. by rewrite Ha.
Qed.

Lemma run_ready_spec l c s r s' :
  run_ready (item_work <$> l) c s = (r, s') →
  match r with
  | Ok (os, c') => ∃ done, Runs done s os s' ∧ done `prefix_of` l ∧ c' = c ++ ids done ∧
      (dp_aborted s' = false → done = l)
  | Raise e => stopped_by l e s s'
  end.
Proof.
  revert c s r s'. induction l as [|n l IH]; intros c s r s'.
  - intros [= <- <-]. exists []. split_and!; [constructor|done|by rewrite app_nil_r|done].
  - rewrite fmap_cons. destruct (dp_aborted s) eqn:Ha.
    { rewrite run_ready_aborted by done. intros [= <- <-]. exists [].
      split_and!; [constructor|by apply prefix_nil|by rewrite app_nil_r|congruence]. }
    cbn [run_ready item_work]. rewrite bind_ok with (a := false) (s' := s) by (unfold gets; by rewrite Ha).
    destruct (execute_item n s) as [[os|e] s1] eqn:En.
    2:{ rewrite (bind_raise _ _ _ _ _ En). intros [= <- <-].
        exists [], [], s, n. split_and!; [constructor|left|done|done]. }
    rewrite (bind_ok _ _ _ _ _ En).
    destruct (run_ready (item_work <$> l) (c ++ [item_id n]) s1) as [r1 s2] eqn:Er.
    specialize (IH _ _ _ _ Er). destruct r1 as [[os' c']|e].
    + rewrite (bind_ok _ _ _ _ _ Er). intros [= <- <-]. destruct IH as (dn & Hr & Hp & -> & Hd).
      exists (n :: dn). split_and!; [by econstructor|by apply prefix_cons|by rewrite <-(assoc_L (++))|].
      intros H. by rewrite Hd.
    + rewrite (bind_raise _ _ _ _ _ Er). intros [= <- <-].
      apply (stopped_after [n] s (os ++ []) s1); [by repeat econstructor|].
      eapply stopped_mono; [|done]. intros m ?. by right.
Qed.

Lemma filter_rest (P Q : YamlNode → Prop) `{∀ x, Decision (P x), ∀ x, Decision (Q x)} l :
  (∀ x, P x → Q x) →
  base.filter P l ++ base.filter Q (base.filter (λ x, ¬ P x) l) ≡ₚ base.filter Q l ∧
  base.filter (λ x, ¬ Q x) (base.filter (λ x, ¬ P x) l) = base.filter (λ x, ¬ Q x) l.
Proof.
  intros HPQ. induction l as [|x l [IH1 IH2]]; [done|]. rewrite !filter_cons.
  specialize (HPQ x). repeat (case_decide; rewrite ?filter_cons); try tauto.
  - split; [by rewrite <-IH1|done].
  - split; [|done]. by rewrite <-Permutation_middle, IH1.
  - split; [done|by rewrite IH2].
Qed.

(** What is reported blocked, and what that does to the abort flag. *)
Definition unmet (completed : list string) (l : list YamlNode) : list YamlNode :=
  base.filter (λ n, ¬ ready completed n) l.
Definition after_blocked (l : list YamlNode) (s : Dispatcher W) : Dispatcher W :=
  set_aborted (dp_aborted s || existsb is_abort l) s.

Lemma after_blocked_nil s : after_blocked [] s = s.
Proof. destruct s. unfold after_blocked, set_aborted. cbn. by rewrite orb_false_r. Qed.

Definition runs_to (c : list string) (l : list YamlNode) (s : Dispatcher W)
    (r : res (list StepOutcome)) (s' : Dispatcher W) : Prop :=
  match r with
  | Ok os => ∃ done os1 s1, Runs done s os1 s1 ∧ ordered c done ∧ done ⊆+ l ∧
      os = os1 ++ (blocked <$> unmet (c ++ ids done) l) ∧
      s' = after_blocked (unmet (c ++ ids done) l) s1 ∧
      (dp_aborted s1 = false → done ≡ₚ base.filter (ready (c ++ ids done)) l)
  | Raise e => stopped_by l e s s'
  end.

Lemma works_filter (P : YamlNode → Prop) `{∀ n, Decision (P n)} (l : list YamlNode) :
  base.filter (λ w : work, P w.1) (item_work <$> l) = item_work <$> base.filter P l.
Proof. by rewrite list_filter_fmap. Qed.
Lemma works_nodes (l : list YamlNode) : (item_work <$> l).*1 = l.
Proof. rewrite <-list_fmap_compose. apply list_fmap_id. Qed.

Lemma rounds_step fuel l c s r s' now :
  base.filter (ready c) l = now → now ≠ [] →
  (∀ c1 s1 r s', rounds fuel (item_work <$> unmet c l) c1 s1 = (r, s') → runs_to c1 (unmet c l) s1 r s') →
  rounds (S fuel) (item_work <$> l) c s = (r, s') → runs_to c l s r s'.
Proof.
  intros Hnow Hne IH. destruct l as [|n0 l0] eqn:El; [by destruct Hne; rewrite <-Hnow|]. rewrite <-El in *.
  assert (rounds (S fuel) (item_work <$> l) c = (
    r <- run_ready (item_work <$> now) c ;;
    os <- rounds fuel (item_work <$> unmet c l) r.2 ;; ret (r.1 ++ os))) as ->.
  { subst l. rewrite fmap_cons. cbn [rounds]. rewrite <-fmap_cons, works_filter, Hnow.
    unfold unmet. rewrite <-(works_filter (λ n, ¬ ready c n)). by destruct now. }
  clear El. destruct (run_ready (item_work <$> now) c s) as [r1 s1] eqn:Er.
  pose proof (run_ready_spec _ _ _ _ _ Er) as Hr. subst now. destruct r1 as [[os1 c1]|e].
  2:{ rewrite (bind_raise _ _ _ _ _ Er). intros [= <- <-]. eapply stopped_mono; [|exact Hr].
      by intros n [_ ?]%list_elem_of_filter. }
  rewrite (bind_ok _ _ _ _ _ Er). destruct Hr as (d1 & Hr1 & Hp & -> & Hd1). cbn [fst snd].
  destruct (rounds fuel (item_work <$> unmet c l) (c ++ ids d1) s1) as [r2 s2] eqn:E2.
  pose proof (IH _ _ _ _ E2) as H2. destruct r2 as [os2|e].
  2:{ rewrite (bind_raise _ _ _ _ _ E2). intros [= <- <-]. eapply stopped_after; [exact Hr1|].
      eapply stopped_mono; [|exact H2]. by intros n [_ ?]%list_elem_of_filter. }
  rewrite (bind_ok _ _ _ _ _ E2). intros [= <- <-].
  destruct H2 as (d2 & os3 & s3 & Hr2 & Ho2 & Hs2 & -> & -> & Hc2).
  assert (Hids : (c ++ ids d1) ++ ids d2 = c ++ ids (d1 ++ d2))
    by (unfold ids; by rewrite fmap_app, (assoc_L (++))).
  rewrite Hids in *. set (c' := c ++ ids (d1 ++ d2)) in *.
  assert (Hmono : ∀ n, ready c n → ready c' n).
  { intros n. apply ready_mono. intros x ?. apply elem_of_app. by left. }
  destruct (filter_rest (ready c) (ready c') l Hmono) as [Hperm Hun].
  assert (unmet c' (unmet c l) = unmet c' l) as Hun' by done.
  rewrite Hun'. exists (d1 ++ d2), (os1 ++ os3), s3. split_and!.
  - by eapply Runs_app.
  - apply ordered_app; [|done]. apply all_ready_ordered. apply Forall_forall. intros n Hn.
    eapply elem_of_prefix in Hn; [|exact Hp]. by apply list_elem_of_filter in Hn as [? _].
  - rewrite <-(filter_app_complement (ready c) l). apply submseteq_app; [|done].
    destruct Hp as [k Hk]. rewrite Hk. by apply submseteq_inserts_r.
  - by rewrite (assoc_L (++)).
  - done.
  - intros Ha. etrans; [|exact Hperm]. rewrite (Hd1 (Runs_start _ _ _ _ Hr2 Ha)).
    by apply Permutation_app_head, Hc2.
Qed.

Lemma rounds_spec fuel l c s r s' :
  length l ≤ fuel → rounds fuel (item_work <$> l) c s = (r, s') → runs_to c l s r s'.
Proof.
  revert l c s r s'. induction fuel as [|fuel IH]; intros l c s r s' Hlen.
  - destruct l; [|cbn in Hlen; lia]. intros [= <- <-]. exists [], [], s.
    split_and!; [constructor|done|done|done|by rewrite after_blocked_nil|done].
  - destruct (base.filter (ready c) l) as [|m now] eqn:Hnow.
    + destruct l as [|n0 l0] eqn:El.
      { intros [= <- <-]. exists [], [], s.
        split_and!; [constructor|done|done|done|by rewrite after_blocked_nil|done]. }
      rewrite <-El in *. assert (unmet (c ++ ids []) l = l) as Hun.
      { cbn. rewrite app_nil_r. unfold unmet. apply list_filter_all. intros n Hn.
        by apply (proj1 (list_filter_empty _ _) Hnow). }
      assert (rounds (S fuel) (item_work <$> l) c s =
        (Ok (blocked <$> l), after_blocked l s)) as ->.
      { subst l. rewrite fmap_cons. cbn [rounds]. rewrite <-fmap_cons, works_filter, Hnow.
        by rewrite works_nodes. }
      intros [= <- <-]. exists [], [], s. rewrite Hun.
      split_and!; [constructor|done|apply submseteq_nil_l|done|done|].
      cbn. by rewrite app_nil_r, Hnow.
    + eapply rounds_step; [exact Hnow|done|]. intros c1 s1 r1 s1'. apply IH.
      enough (length (unmet c l) < length l) by lia.
      pose proof (Permutation_length (filter_app_complement (ready c) l)) as Hl.
      rewrite length_app, Hnow in Hl. cbn in Hl. unfold unmet. lia.
Qed.

(** C6. A run executes items one after another, each after everything it depends on and none
    after an abort, at most once per occurrence in the plan; it then reports as BLOCKED exactly
    the items with a dependency that was not executed. When nothing aborts the run, the executed
    items are all the others; after an abort, the items whose dependencies were executed but that
    are not themselves get no outcome at all, see [abort_drops_outcomes]. An exception leaves the run only from the item being executed, so
    the rounds of the dispatcher always end. *)
Theorem plan_runs_in_order steps s r s' :
  run_plan steps s = (r, s') →
  match r with
  | Ok os => ∃ done os1 s1,
      Runs done (set_aborted false s) os1 s1 ∧ ordered [] done ∧ done ⊆+ steps ∧
      os = os1 ++ (blocked <$> unmet (ids done) steps) ∧
      s' = after_blocked (unmet (ids done) steps) s1 ∧
      (dp_aborted s1 = false → done ≡ₚ base.filter (ready (ids done)) steps)
  | Raise e => ∃ done os s1 n, Runs done (set_aborted false s) os s1 ∧ n ∈ steps ∧
      dp_aborted s1 = false ∧ execute_item n s1 = (Raise e, s')
  end.
Proof.
  unfold run_plan. rewrite bind_ok with (a := tt) (s' := set_aborted false s) by done.
  intros H%rounds_spec; [|done]. exact H.
Qed.

(** ** Loops *)

Lemma loop_body_blocks steps c s os s' child :
  rounds (length steps) (item_work <$> steps) [] s = (Ok os, s') →
  child ∈ steps → c ∈ deps child → c ∉ ids steps →
  blocked child ∈ os ∧ (is_abort child = true → dp_aborted s' = true).
Proof.
  intros H%rounds_spec Hc Hd Hn; [|done]. destruct H as (dn & os1 & s1 & _ & _ & Hsub & -> & -> & _).
  assert (child ∈ unmet (ids dn) steps) as Hun.
  { apply list_elem_of_filter. split; [|done]. intros Hr. apply Hn.
    apply (proj1 (Forall_forall _ _) Hr) in Hd. unfold ids in *.
    apply list_elem_of_fmap in Hd as (m & -> & Hm). apply list_elem_of_fmap_2.
    by eapply elem_of_submseteq. }
  cbn [app]. split; [apply elem_of_app; right; by apply list_elem_of_fmap_2|].
  intros Ha. cbn. apply orb_true_iff. right. apply existsb_exists. exists child.
  by rewrite <-list_elem_of_In.
Qed.

Lemma loop_iterations_stopped body lid n i s :
  dp_aborted s = true → loop_iterations body lid n i s = (Ok [], s).
Proof.
  intros Ha. destruct n; [done|]. cbn [loop_iterations].
  rewrite bind_ok with (a := true) (s' := s) by (unfold gets; by rewrite Ha). done.
Qed.

(** The dependencies of a step inside a loop are looked up among the items of the loop only: a
    child that depends on a step outside is BLOCKED in the first iteration, although that step
    may have passed, and unless its failure policy is another the whole run is aborted. *)
Theorem outer_dependency_blocks_loop spec steps child d s os s' :
  child ∈ steps → d ∈ deps child → d ∉ item_id <$> steps →
  yl_count spec ≠ Some 0%Z → (0 <= default 1 (yl_count spec))%Z →
  dp_aborted s = false → execute_item (LoopNode spec steps) s = (Ok os, s') →
  rename (yl_id spec) 0 (blocked child) ∈ os ∧
  (is_abort child = true → dp_aborted s' = true).
Proof.
  intros Hc Hd Hn Hcount Hpos Ha H. cbn [execute_item] in H.
  destruct (Z.to_nat (default 1%Z (yl_count spec))) as [|n] eqn:En.
  { destruct (yl_count spec) as [z|]; cbn in *; [|lia]. destruct Hcount. f_equal. lia. }
  cbn [loop_iterations] in H.
  rewrite bind_ok with (a := false) (s' := s) in H by (unfold gets; by rewrite Ha).
  apply bind_inv_ok in H as (os1 & s1 & Hb & H). apply bind_inv_ok in H as (os2 & s2 & Hr & H).
  injection H as <- <-. destruct (loop_body_blocks steps d s os1 s1 child Hb Hc Hd Hn) as [Hin Hab].
  split; [apply elem_of_app; left; by apply list_elem_of_fmap_2|].
  intros Hia. rewrite loop_iterations_stopped in Hr by auto. injection Hr as <- <-. auto.
Qed.

(** ** Script steps *)

(** [k] attempts in a row that fail. *)
Inductive failing (s : YamlStep) : nat → W → W → Prop :=
  | failing_none w : failing s 0 w w
  | failing_more k w w1 w2 :
      attempt s w = (Ok false, w1) → failing s k w1 w2 → failing s (S k) w w2.

Lemma attempt_ok s w : ∃ b w', attempt s w = (Ok b, w').
Proof.
  unfold attempt. destruct script_executor as [f|]; [|by exists true, w].
  unfold try_except. destruct (f s w) as [[b|e] w']; [by exists b, w'|by exists false, w'].
Qed.

Lemma attempts_spec n made s w :
  (∃ k w1 w2, k < n ∧ failing s k w w1 ∧ attempt s w1 = (Ok true, w2) ∧
    attempts n made s w = (Ok (Some (made + Z.of_nat k + 1)%Z), w2)) ∨
  ∃ w', failing s n w w' ∧ attempts n made s w = (Ok None, w').
Proof.
  revert made w. induction n as [|n IH]; intros made w; cbn [attempts].
  { right. exists w. split; [constructor|done]. }
  destruct (attempt_ok s w) as (b & w1 & E). rewrite (bind_ok _ _ _ _ _ E). destruct b.
  - left. exists 0, w, w1. split_and!; [lia|constructor|done|]. unfold ret. do 3 f_equal. lia.
  - destruct (IH (made + 1)%Z w1) as [(k & w2 & w3 & Hk & Hf & Ha & Hr)|(w2 & Hf & Hr)].
    + left. exists (S k), w2, w3. split_and!; [lia|by econstructor|done|]. rewrite Hr. do 3 f_equal. lia.
    + right. exists w2. split; [by econstructor|done].
Qed.

(** A script step is attempted until an attempt passes, at most 1 + retry times, an exception
    of the executor counting as a failure. It passes with the number of attempts it took; when all
    attempts have failed the policy decides: "continue" leaves a FAIL, "skip" a SKIP, and anything
    else a FAIL that aborts the run. *)
Theorem script_contract s d :
  let n := Z.to_nat (max_attempts s) in
  let policy := or_else (ys_on_failure s) (ys_on_fail s) in
  (∃ k w1 w2 o, k < n ∧ failing s k (dp_world d) w1 ∧ attempt s w1 = (Ok true, w2) ∧
    dispatch_script s d = (Ok o, set_world w2 d) ∧
    oc_status o = "PASS" ∧ oc_attempts o = Z.of_nat (S k)) ∨
  (∃ w' o, failing s n (dp_world d) w' ∧
    dispatch_script s d = (Ok o, if decide (policy ∈ [Some "continue"; Some "skip"])
                                 then set_world w' d else set_aborted true (set_world w' d)) ∧
    oc_status o = (if decide (policy = Some "skip") then "SKIP" else "FAIL") ∧
    oc_attempts o = Z.of_nat n).
Proof.
  intros n policy. unfold dispatch_script. fold n.
  destruct (attempts_spec n 0 s (dp_world d)) as [(k & w1 & w2 & Hk & Hf & Ha & Hr)|(w' & Hf & Hr)].
  - left. exists k, w1, w2. eexists. split_and!; [done..| | |].
    + rewrite bind_ok with (a := Some (Z.of_nat k + 1)%Z) (s' := set_world w2 d); [done|].
      unfold in_world, zoom. by rewrite Hr.
    + done.
    + cbn. lia.
  - right. exists w'. unfold failure_outcome. fold policy.
    rewrite bind_ok with (a := None) (s' := set_world w' d) by (unfold in_world, zoom; by rewrite Hr).
    assert (Hn : Z.max 0 (max_attempts s) = Z.of_nat n) by (subst n; lia). rewrite Hn.
    destruct (decide (policy = Some "continue")) as [->|H1]; [|destruct (decide (policy = Some "skip")) as [->|H2]].
    + eexists. by split_and!.
    + eexists. by split_and!.
    + eexists. rewrite decide_False by (rewrite !elem_of_cons, elem_of_nil; tauto).
      by split_and!.
Qed.

(** ** What a run keeps *)

Section keeps.
Context (I : Dispatcher W → Prop) (Hab : ∀ b s, I s → I (set_aborted b s)).
Context (Hstep : ∀ s, preserves I (execute_step s)).

Lemma run_ready_preserves l c :
  Forall (λ w : work, preserves I w.2) l → preserves I (run_ready l c).
Proof.
  intros Hl. revert c. induction Hl as [|[n run] l Hn _ IH]; intros c; cbn [run_ready]; [apply preserves_ret|].
  apply preserves_bind; [apply preserves_gets|intros b]. destruct b; [apply IH|].
  apply preserves_bind; [exact Hn|intros os]. apply preserves_bind; [apply IH|intros r]. apply preserves_ret.
Qed.
Lemma rounds_preserves fuel l c :
  Forall (λ w : work, preserves I w.2) l → preserves I (rounds fuel l c).
Proof.
  revert l c. induction fuel as [|fuel IH]; intros l c Hl; cbn [rounds];
    (destruct l as [|w0 l0]; [apply preserves_ret|]);
    (case_match eqn:Hnow; [apply preserves_bind; [apply preserves_modify; intros; by apply Hab|intros ?; apply preserves_ret]|]).
  - apply preserves_raise.
  - apply preserves_bind; [|intros r].
    + apply run_ready_preserves. rewrite <-Hnow. by apply list_forall_filter.
    + apply preserves_bind; [|intros os; apply preserves_ret]. apply IH. by apply list_forall_filter.
Qed.
Lemma loop_iterations_preserves body lid n i :
  preserves I body → preserves I (loop_iterations body lid n i).
Proof.
  intros Hb. revert i. induction n as [|n IH]; intros i; cbn [loop_iterations]; [apply preserves_ret|].
  apply preserves_bind; [apply preserves_gets|intros b]. destruct b; [apply preserves_ret|].
  apply preserves_bind; [done|intros os]. apply preserves_bind; [apply IH|intros r]. apply preserves_ret.
Qed.
Lemma execute_item_preserves n : preserves I (execute_item n).
Proof.
  induction n as [s inner _|spec steps IH] using YamlNode_ind'; cbn [execute_item].
  - apply preserves_bind; [apply Hstep|intros o; apply preserves_ret].
  - apply loop_iterations_preserves, rounds_preserves. by apply Forall_fmap.
Qed.
Lemma run_plan_preserves steps : preserves I (run_plan steps).
Proof.
  apply preserves_bind; [apply preserves_modify; intros; by apply Hab|intros ?].
  apply rounds_preserves, Forall_fmap, Forall_forall. intros n _. apply execute_item_preserves.
Qed.
End keeps.

(** ** Fixture and barrier steps *)

(** The controllers the dispatcher makes itself have no configuration, and no barrier is left
    behind. *)
Definition bare (d : Dispatcher W) : Prop :=
  (∀ fid fc, dp_fixtures d !! fid = Some fc → fc_config fc = ∅) ∧ um_barriers (dp_uuts d) = ∅.

Lemma get_fixture_bare fid d :
  bare d → ∃ fc d', get_fixture fid d = (Ok fc, d') ∧ bare d' ∧ dp_aborted d' = dp_aborted d ∧
    fc_config fc = ∅ ∧ get_fixture fid d' = (Ok fc, d').
Proof.
  intros [Hf Hb]. unfold get_fixture. rewrite bind_get.
  destruct (dp_fixtures d !! fid) as [fc|] eqn:E.
  - exists fc, d. split_and!; [done|by split|done|by eapply Hf|]. rewrite bind_get. by rewrite E.
  - eexists _, _. split_and!; [done| |done|done|].
    + split; [|done]. cbn. intros k fc. rewrite dict_lookup_insert. case_decide; [by intros [= <-]|by apply Hf].
    + rewrite bind_get. cbn. by rewrite dict_lookup_insert_eq.
Qed.

(** Running a controller without configuration. *)
Lemma on_fixture_bare {A} fid (m : M (FixtureController * W) A) fc d r fc' w' :
  bare d → get_fixture fid d = (Ok fc, d) → m (fc, dp_world d) = (r, (fc', w')) → fc_config fc' = ∅ →
  ∃ d', on_fixture fid m d = (r, d') ∧ bare d' ∧ dp_aborted d' = dp_aborted d.
Proof.
  intros [Hf Hb] Hg Hm Hc. unfold on_fixture. rewrite (bind_ok _ _ _ _ _ Hg). unfold zoom. rewrite Hm.
  eexists. split; [done|]. split; [|done]. split; [|done]. cbn.
  intros k fc2. rewrite dict_lookup_insert. case_decide; [by intros [= <-]|by apply Hf].
Qed.

Lemma fixture_action_bare s fid action d fc :
  bare d → get_fixture fid d = (Ok fc, d) → fc_config fc = ∅ → action ∈ FIXTURE_ACTIONS →
  ∃ o d', try_except (fixture_action s fid action) (fixture_failed s action) d = (Ok o, d') ∧
    bare d' ∧ dp_aborted d' = dp_aborted d ∧
    oc_status o = if decide (action ∈ ["clamp"; "release"]) then "PASS" else "FAIL".
Proof.
  intros Hb Hg Hc Ha. unfold FIXTURE_ACTIONS in Ha. rewrite !elem_of_cons, elem_of_nil in Ha.
  destruct Ha as [->|[->|[->|[->|[]]]]]; unfold fixture_action; cbn [decide].
  - destruct (on_fixture_bare fid (clamp (sensor_polls (dp_world d)) PyNone) fc d _ _ _ Hb Hg
      (bare_clamp (fc, dp_world d) Hc _ _) Hc) as (d' & E & Hb' & Ha').
    eexists _, d'. split; [apply try_except_ok|].
    { rewrite decide_True by done. rewrite bind_ok with (a := dp_world d) (s' := d) by done.
      by rewrite (bind_ok _ _ _ _ _ E). }
    by split_and!.
  - destruct (on_fixture_bare fid Fixture.release fc d _ _ _ Hb Hg
      (bare_release (fc, dp_world d) Hc) Hc) as (d' & E & Hb' & Ha').
    eexists _, d'. split; [apply try_except_ok|].
    { rewrite decide_False, decide_True by done. by rewrite (bind_ok _ _ _ _ _ E). }
    by split_and!.
  - rewrite !decide_False, decide_True by done. destruct (decide (param_str "relay_id" "" s = "")) as [Hr|Hr].
    + eexists _, d. split; [by apply try_except_ok|]. by split_and!.
    + destruct (on_fixture_bare fid (set_route (param_str "relay_id" "" s) (param_str "route" "DUT1" s)) fc d
        _ _ _ Hb Hg (bare_route (fc, dp_world d) Hc _ _) Hc) as (d' & E & Hb' & Ha').
      eexists _, d'. split.
      { erewrite try_except_caught; [|by rewrite (bind_raise _ _ _ _ _ E)|reflexivity]. reflexivity. }
      by split_and!.
  - rewrite !decide_False by done. destruct (decide (param_str "sensor_id" "" s = "")) as [Hr|Hr].
    + eexists _, d. split; [by apply try_except_ok|]. by split_and!.
    + destruct (on_fixture_bare fid (read_sensor (param_str "sensor_id" "" s)) fc d
        _ _ _ Hb Hg (bare_read (fc, dp_world d) Hc _) Hc) as (d' & E & Hb' & Ha').
      eexists _, d'. split.
      { erewrite try_except_caught; [|by rewrite (bind_raise _ _ _ _ _ E)|reflexivity]. reflexivity. }
      by split_and!.
Qed.

Lemma dispatch_fixture_bare s d :
  bare d →
  ∃ o d', dispatch_fixture s d = (Ok o, d') ∧ bare d' ∧ dp_aborted d' = dp_aborted d ∧
    oc_status o =
      if truthy (or_else (ys_fixture_id s) plan_fixture_id) &&
         bool_decide (default "" (ys_action s) ∈ ["clamp"; "release"])
      then "PASS" else "FAIL".
Proof.
  intros Hb. unfold dispatch_fixture.
  destruct (or_else (ys_fixture_id s) plan_fixture_id) as [fid|]; [|by eexists _, d].
  cbn [truthy]. destruct (decide (fid = "")) as [->|Hne]; [by eexists _, d|].
  rewrite bool_decide_false by done. cbn [negb andb].
  destruct (str_in (default "" (ys_action s)) FIXTURE_ACTIONS) eqn:Hin; cbn [negb].
  - apply bool_decide_eq_true in Hin. destruct (get_fixture_bare fid d Hb) as (fc & d1 & Hg & Hb1 & Ha1 & Hc & Hg1).
    destruct (fixture_action_bare s fid _ d1 fc Hb1 Hg1 Hc Hin) as (o & d2 & E & Hb2 & Ha2 & Ho).
    exists o, d2. rewrite (bind_ok _ _ _ _ _ Hg). split_and!; [done|done|congruence|].
    rewrite Ho. by repeat case_decide || case_bool_decide.
  - eexists _, d. split_and!; [done..|]. rewrite bool_decide_false; [done|].
    intros Hx. apply bool_decide_eq_false in Hin. apply Hin. unfold FIXTURE_ACTIONS.
    rewrite !elem_of_cons in *. tauto.
Qed.

Lemma arrivers_sub l : arrivers l ⊆ l.
Proof.
  unfold arrivers, or_list. destruct (base.filter _ l) as [|x k] eqn:E; [done|].
  rewrite <-E. by intros y [_ ?]%list_elem_of_filter.
Qed.

Lemma dispatch_barrier_bare s d :
  bare d →
  ∃ o d', dispatch_barrier s d = (Ok o, d') ∧ bare d' ∧ dp_aborted d' = dp_aborted d ∧
    mgr_uut_ids (dp_uuts d') = mgr_uut_ids (dp_uuts d) ∧ oc_status o ∈ ["PASS"; "FAIL"] ∧
    (∀ u u', u ∈ mgr_uut_ids (dp_uuts d) → u' ∈ mgr_uut_ids (dp_uuts d) →
      u ∈ missing_uuts → u' ∉ missing_uuts → oc_status o = "FAIL").
Proof.
  intros [Hf Hb]. unfold dispatch_barrier. rewrite bind_get.
  set (us := arrivers (mgr_uut_ids (dp_uuts d))).
  pose proof (arrivers_sub (mgr_uut_ids (dp_uuts d)) : us ⊆ _) as Hus.
  pose proof (gather_results (dp_uuts d) (or_str (ys_barrier_name s) (ys_id s)) us) as Hres.
  pose proof (gather_answers (dp_uuts d) (or_str (ys_barrier_name s) (ys_id s)) us Hb Hus) as Hlen.
  pose proof (gather_manager (dp_uuts d) (or_str (ys_barrier_name s) (ys_id s)) us Hb Hus) as [Hm1 Hm2].
  destruct (gather _ _ us) as [results m]. cbn [fst snd] in *.
  rewrite bind_ok with (a := tt) (s' := set_dp_uuts m d) by done.
  destruct (base.filter (λ r, br_timed_out r = true) results) as [|r0 l] eqn:Hto.
  2:{ eexists _, _. split_and!; [done|by split|done|done|right; left|done]. }
  eexists _, _. split_and!; [done|by split|done|done|left|].
  intros u u' Hu Hu' Hmiss Hpres. exfalso.
  assert (us = base.filter (λ x, x ∉ missing_uuts) (mgr_uut_ids (dp_uuts d))) as Heq.
  { unfold us, arrivers, or_list.
    destruct (base.filter (λ x, x ∉ missing_uuts) (mgr_uut_ids (dp_uuts d))) as [|x k] eqn:E; [|done].
    exfalso. by apply (proj1 (list_filter_empty _ _) E u'). }
  assert (u' ∈ us) as Hin by (rewrite Heq; by apply list_elem_of_filter).
  destruct results as [|r l]; [destruct us; [by apply elem_of_nil in Hin|done]|].
  destruct (Hres r Hb Hus (list_elem_of_here _ _)) as (Hreach & Hmis & Hz).
  assert (br_timed_out r = false) as Ht.
  { destruct (br_timed_out r) eqn:E; [|done]. exfalso.
    by apply (proj1 (list_filter_empty _ _) Hto r (list_elem_of_here _ _)). }
  assert (u ∈ br_missing r) as Hbad.
  { rewrite Hmis. apply elem_of_difference. split; [by apply elem_of_list_to_set|].
    intros Hx%Hreach%elem_of_list_to_set. rewrite Heq in Hx. by apply list_elem_of_filter in Hx as [? _]. }
  rewrite (Hz Ht) in Hbad. by apply elem_of_empty in Hbad.
Qed.

Lemma in_world_bare {A} (m : M W A) : preserves bare (in_world m).
Proof. intros d Hd. unfold in_world, zoom. by destruct (m (dp_world d)). Qed.
Lemma set_aborted_bare b d : bare d → bare (set_aborted b d).
Proof. done. Qed.
Lemma execute_step_bare s : preserves bare (execute_step s).
Proof.
  assert (∀ s, preserves bare (dispatch_script s)) as Hscript.
  { intros s'. apply preserves_bind; [apply in_world_bare|intros [made|]]; [apply preserves_ret|].
    unfold failure_outcome. do 2 (case_decide; [apply preserves_ret|]).
    apply preserves_bind; [by apply preserves_modify|intros ?; apply preserves_ret]. }
  unfold execute_step. destruct (default SCRIPT (ys_type s)); auto; try apply preserves_ret.
  - intros d Hd. by destruct (dispatch_barrier_bare s d Hd) as (o & d' & -> & Hb & _).
  - intros d Hd. by destruct (dispatch_fixture_bare s d Hd) as (o & d' & -> & Hb & _).
  - unfold dispatch_breakpoint. apply preserves_if; [apply preserves_ret|].
    destruct breakpoint_hook as [hook|]; [|apply preserves_ret].
    apply preserves_bind; [apply in_world_bare|intros ?; apply preserves_ret].
Qed.

(** However a plan runs, the controllers the dispatcher makes for its fixtures have no
    configuration: at any point a clamp or release on a named fixture passes, and every other
    fixture step fails, in particular every set_route and every read_sensor, without aborting the
    run whatever the failure policy of the step says. *)
Theorem fixture_steps_contract steps d s :
  bare d →
  let d1 := (run_plan steps d).2 in
  bare d1 ∧
  ∃ o d2, dispatch_fixture s d1 = (Ok o, d2) ∧ dp_aborted d2 = dp_aborted d1 ∧
    oc_status o =
      if truthy (or_else (ys_fixture_id s) plan_fixture_id) &&
         bool_decide (default "" (ys_action s) ∈ ["clamp"; "release"])
      then "PASS" else "FAIL".
Proof.
  intros Hd d1. assert (bare d1) as H1
    by (by apply (run_plan_preserves bare set_aborted_bare execute_step_bare)).
  split; [done|]. destruct (dispatch_fixture_bare s d1 H1) as (o & d2 & E & _ & Ha & Ho). eauto.
Qed.

(** A barrier step passes or fails, and never aborts the run. It fails whenever some unit is
    declared missing and another is not; a barrier with every unit declared missing lets all of
    them arrive. *)
Theorem barrier_step_contract steps d s :
  bare d →
  let d1 := (run_plan steps d).2 in
  let units := mgr_uut_ids (dp_uuts d1) in
  ∃ o d2, dispatch_barrier s d1 = (Ok o, d2) ∧ dp_aborted d2 = dp_aborted d1 ∧
    mgr_uut_ids (dp_uuts d2) = units ∧ oc_status o ∈ ["PASS"; "FAIL"] ∧
    ((∃ u, u ∈ units ∧ u ∈ missing_uuts) → (∃ u, u ∈ units ∧ u ∉ missing_uuts) → oc_status o = "FAIL") ∧
    ((∀ u, u ∈ units → u ∈ missing_uuts) → arrivers units = units).
Proof.
  intros Hd d1 units. assert (bare d1) as H1
    by (by apply (run_plan_preserves bare set_aborted_bare execute_step_bare)).
  destruct (dispatch_barrier_bare s d1 H1) as (o & d2 & E & _ & Ha & Hu & Ho & Hm).
  exists o, d2. split_and!; [done..| |].
  - intros (u & Hu1 & Hu2) (u' & Hu3 & Hu4). by eapply (Hm u u').
  - intros Hall. unfold arrivers. rewrite (proj2 (list_filter_empty _ _)); [done|].
    intros u Hin Hno. by apply Hno, Hall.
Qed.
End dispatcher.

(** ** Threads in turn *)

(** One execution of the threads of a barrier: all units arrive, the deadline passes unless the
    barrier is full, and the threads leave one after another. *)
Fixpoint enter_barrier (name : string) (us : list string) (m : UUTManager) : list nat * UUTManager :=
  match us with
  | [] => ([], m)
  | u :: us' =>
      match barrier_for name u m with
      | (Ok ref, m1) =>
          let '(refs, m2) := enter_barrier name us' (manager_arrive ref u m1) in (ref :: refs, m2)
      | (Raise _, m1) => enter_barrier name us' m1
      end
  end.
Fixpoint leave_barrier (name : string) (refs : list nat) (m : UUTManager) :
    list BarrierResult * UUTManager :=
  match refs with
  | [] => ([], m)
  | ref :: refs' =>
      match manager_wait ref true m with
      | (Some r, m1) =>
          let '(rs, m2) := leave_barrier name refs' (settle_barrier name ref r m1) in (r :: rs, m2)
      | (None, m1) => leave_barrier name refs' m1
      end
  end.
Definition threads_in_turn (m : UUTManager) (name : string) (us : list string) :
    list BarrierResult * UUTManager :=
  let '(refs, m1) := enter_barrier name us m in leave_barrier name refs m1.

Section in_turn.
Context (name : string) (all : list string).

(** The barrier every thread has found, before anybody leaves it. *)
Definition waiting (ref : nat) (us : gset string) (m : UUTManager) : Prop :=
  mgr_uut_ids m = all ∧ um_barriers m = <[name := ref]> ∅ ∧
  um_store m !! ref = Some (mkBarrier name (list_to_set all) us false None).

Lemma barrier_for_waiting ref us u m :
  waiting ref us m → u ∈ all → barrier_for name u m = (Ok ref, m).
Proof.
  intros (Hids & Hb & Hs) Hu. unfold barrier_for. rewrite bind_get.
  replace (has_key u (um_uuts m)) with true by (symmetry; apply has_key_spec; by rewrite <-Hids in Hu).
  cbn [negb]. by rewrite Hb, dict_lookup_insert_eq, Hs.
Qed.
Lemma arrive_waiting ref us u m : waiting ref us m → waiting ref ({[u]} ∪ us) (manager_arrive ref u m).
Proof.
  intros (Hids & Hb & Hs). unfold manager_arrive. rewrite Hs. split_and!; [done|done|]. cbn.
  rewrite list_lookup_insert_eq; [done|]. by eapply lookup_lt_Some.
Qed.
Lemma enter_waiting us ref gone m :
  waiting ref gone m → us ⊆ all →
  ∃ m', enter_barrier name us m = (replicate (length us) ref, m') ∧
    waiting ref (list_to_set us ∪ gone) m'.
Proof.
  revert gone m. induction us as [|u us IH]; intros gone m Hw Hus; cbn [enter_barrier].
  - exists m. split; [done|]. replace (list_to_set [] ∪ gone) with gone by set_solver. done.
  - rewrite (barrier_for_waiting _ _ _ _ Hw) by set_solver.
    destruct (IH ({[u]} ∪ gone) (manager_arrive ref u m)) as (m' & E & Hw'); [by apply arrive_waiting|set_solver|].
    exists m'. rewrite E. split; [done|].
    replace (list_to_set (u :: us) ∪ gone) with (list_to_set us ∪ ({[u]} ∪ gone)) by set_solver. done.
Qed.
Lemma enter_first u us m :
  mgr_uut_ids m = all → um_barriers m = ∅ → u :: us ⊆ all →
  ∃ ref m', enter_barrier name (u :: us) m = (replicate (S (length us)) ref, m') ∧
    waiting ref (list_to_set (u :: us)) m'.
Proof.
  intros Hids Hb Hus. exists (length (um_store m)). cbn [enter_barrier].
  assert (barrier_for name u m = (Ok (length (um_store m)),
    mkMgr (um_uuts m) (<[name := length (um_store m)]> ∅)
      (um_store m ++ [new_barrier name (list_to_set all)]))) as ->.
  { unfold barrier_for. rewrite bind_get.
    replace (has_key u (um_uuts m)) with true
      by (symmetry; apply has_key_spec; change (u ∈ mgr_uut_ids m); rewrite Hids; apply Hus; left).
    cbn [negb]. rewrite Hb, Hids. done. }
  set (m1 := mkMgr _ _ _). assert (waiting (length (um_store m)) ∅ m1) as Hw.
  { split_and!; [done|done|]. cbn. by rewrite list_lookup_middle. }
  apply (arrive_waiting _ _ u) in Hw.
  destruct (enter_waiting us _ _ _ Hw) as (m' & E & Hw'); [set_solver|].
  exists m'. rewrite E. split; [done|].
  replace (list_to_set (u :: us)) with (list_to_set us ∪ ({[u]} ∪ ∅) : gset string) by set_solver. done.
Qed.

(** The result every thread gets. *)
Definition turn_result (us : gset string) : BarrierResult :=
  mkResult name us (list_to_set all ∖ us) (negb (bool_decide (us = list_to_set all))).

Lemma settle_ids ref r m : mgr_uut_ids (settle_barrier name ref r m) = mgr_uut_ids m.
Proof.
  assert (∀ l, keys (um_uuts (foldr (mark_missing name) m l)) = keys (um_uuts m)) as Hl.
  { induction l as [|x l IH]; [done|]. cbn [foldr]. unfold mark_missing at 1. by rewrite keys_alter. }
  unfold mgr_uut_ids. rewrite settle_uuts. case_match; auto.
Qed.
Lemma alter_barriers f uid m : um_barriers (alter_uut f uid m) = um_barriers m ∧
  um_store (alter_uut f uid m) = um_store m.
Proof. unfold alter_uut. by case_match. Qed.
Lemma mark_barriers l m : um_barriers (foldr (mark_missing name) m l) = um_barriers m ∧
  um_store (foldr (mark_missing name) m l) = um_store m.
Proof.
  induction l as [|x l [IH1 IH2]]; [done|]. cbn [foldr]. unfold mark_missing at 1 3.
  destruct (alter_barriers (λ u, if busy u then u else
    with_error ("Barrier '" +:+ name +:+ "' timeout") (finish false u)) x (foldr (mark_missing name) m l)) as [-> ->].
  done.
Qed.

(** A thread that finds the barrier released leaves it as it is. *)
Definition released_as (ref : nat) (us : gset string) (m : UUTManager) : Prop :=
  mgr_uut_ids m = all ∧ um_barriers m = ∅ ∧
  ∃ b, um_store m !! ref = Some b ∧ sb_released b = true ∧ leave b = (turn_result us, b).

Lemma settle_released ref us r m b :
  mgr_uut_ids m = all → (um_barriers m = <[name := ref]> ∅ ∨ um_barriers m = ∅) →
  um_store m !! ref = Some b → sb_released b = true → leave b = (turn_result us, b) →
  released_as ref us (settle_barrier name ref r m).
Proof.
  intros Hids Hbar Hs Hr Hl. unfold released_as. rewrite settle_ids. split; [done|].
  unfold settle_barrier. set (m1 := if br_timed_out r then _ else m).
  assert (um_barriers m1 = um_barriers m ∧ um_store m1 = um_store m) as [E1 E2]
    by (subst m1; case_match; [apply mark_barriers|done]).
  rewrite E1, E2, Hs. destruct Hbar as [Hbar|Hbar]; rewrite Hbar.
  - rewrite dict_lookup_insert_eq, bool_decide_true, Hr by done. cbn [andb]. split; [|by exists b].
    apply dict_ext. unfold delete, dict_delete, insert, dict_insert. cbn [items assoc_set].
    cbn. rewrite decide_False by (cbn; tauto). done.
  - rewrite dict_lookup_empty. split; [by rewrite E1|]. exists b. by rewrite E2.
Qed.

Lemma leave_released ref us n m :
  released_as ref us m →
  ∃ m', leave_barrier name (replicate n ref) m = (replicate n (turn_result us), m') ∧ released_as ref us m'.
Proof.
  revert m. induction n as [|n IH]; intros m Hm; [by exists m|].
  destruct Hm as (Hids & Hb & b & Hs & Hr & Hl). cbn [replicate leave_barrier].
  unfold manager_wait. rewrite Hs. unfold wait_turn. rewrite Hr. cbn [orb]. rewrite Hl.
  rewrite list_insert_id by done.
  destruct (IH (settle_barrier name ref (turn_result us) (mkMgr (um_uuts m) (um_barriers m) (um_store m))))
    as (m' & E & Hm').
  { eapply settle_released; [done|by right|done..]. }
  exists m'. by rewrite E.
Qed.

Lemma turn_opens us :
  ∃ b', wait_turn true (mkBarrier name (list_to_set all) us false None) = (Some (turn_result us), b') ∧
    sb_released b' = true ∧ leave b' = (turn_result us, b').
Proof.
  unfold wait_turn, turn_result, leave, force_release. cbn.
  destruct (decide (us = list_to_set all)) as [E|E].
  - rewrite !bool_decide_true by done. cbn. eauto.
  - rewrite !bool_decide_false by done. cbn. eauto.
Qed.

Lemma leave_waiting ref us n m :
  waiting ref us m →
  ∃ m', leave_barrier name (replicate (S n) ref) m = (replicate (S n) (turn_result us), m') ∧
    released_as ref us m'.
Proof.
  intros (Hids & Hb & Hs). cbn [replicate leave_barrier]. unfold manager_wait. rewrite Hs.
  destruct (turn_opens us) as (b' & -> & Hr & Hl).
  destruct (leave_released ref us n (settle_barrier name ref (turn_result us)
    (mkMgr (um_uuts m) (um_barriers m) (<[ref := b']> (um_store m))))) as (m' & E & Hm').
  { eapply settle_released; [done|by left| |done|done]. cbn.
    apply list_lookup_insert_eq. by eapply lookup_lt_Some. }
  exists m'. by rewrite E.
Qed.

Lemma threads_spec us m :
  mgr_uut_ids m = all → um_barriers m = ∅ → us ⊆ all →
  ∃ m', threads_in_turn m name us = (replicate (length us) (turn_result (list_to_set us)), m') ∧
    mgr_uut_ids m' = all ∧ um_barriers m' = ∅.
Proof.
  intros Hids Hb Hus. unfold threads_in_turn. destruct us as [|u us]; [by exists m|].
  destruct (enter_first u us m Hids Hb Hus) as (ref & m1 & -> & Hw).
  destruct (leave_waiting ref (list_to_set (u :: us)) (length us) m1 Hw) as (m' & -> & Hids' & Hb' & _).
  by exists m'.
Qed.
End in_turn.

#[export, refine] Instance in_turn : BarrierThreads := {| gather := threads_in_turn |}.
Proof.
  - intros m name us r Hb Hus. destruct (threads_spec name (mgr_uut_ids m) us m) as (m' & -> & _ & _); [done..|].
    intros [-> _]%elem_of_replicate. unfold turn_result. cbn. split_and!; [done|done|].
    intros Ht%negb_false_iff%bool_decide_eq_true. rewrite Ht. set_solver.
  - intros m name us Hb Hus. destruct (threads_spec name (mgr_uut_ids m) us m) as (m' & -> & _ & _); [done..|].
    apply length_replicate.
  - intros m name us Hb Hus. by destruct (threads_spec name (mgr_uut_ids m) us m) as (m' & -> & ? & ?).
Defined.

(** ** A plan *)

(** The world counts attempts; the script "bad.py" fails. *)
#[local] Instance bench_floats : PyFloats := whole_floats.
#[local] Instance bench_proxy : ProxyClient nat :=
  {| has_client := false; call_on _ _ _ := raise (OtherError "no proxy") |}.
#[local] Instance bench_env : DispatcherEnv nat := {|
  script_executor := Some (λ s n, (Ok (negb (bool_decide (ys_script s = "bad.py"))), S n));
  breakpoint_hook := None;
  eval_condition _ := Raise (ValueError "no expression");
  sensor_polls _ := 3;
  f_str z := pretty (z : Z)
|}.

Definition with_deps (id script : string) (t : StepType) (pre : list string) (retry : Z) : YamlStep :=
  mkStep id (Some t) script ∅ pre [] ∅ 60 retry None None None None (Some "clamp") (Some "FX1")
    false None None None.
Definition script_item (id script : string) (pre : list string) (retry : Z) : YamlNode :=
  StepNode (with_deps id script SCRIPT pre retry) [].
Definition test_plan : list YamlNode :=
  [LoopNode (mkLoop "loop" FOR (Some 2%Z) None None None SERIAL 1000 None None ["clamp"])
     [script_item "measure" "m.py" [] 0];
   StepNode (with_deps "sync" "" BARRIER ["loop"] 0) [];
   StepNode (with_deps "clamp" "" FIXTURE_CONTROL [] 0) [];
   script_item "report" "r.py" ["sync"; "ghost"] 0].
Definition new_dispatcher (count : nat) : Dispatcher nat :=
  mkDispatcher ∅ (new_manager count None ∅) false 0.

Definition statuses (r : res (list StepOutcome)) : list (string * string) :=
  match r with Ok os => (λ o, (oc_step_id o, oc_status o)) <$> os | Raise _ => [] end.
Example test_plan_runs :
  statuses (run_plan None [] test_plan (new_dispatcher 2)).1 =
  [("clamp", "PASS"); ("loop.iter0.measure", "PASS"); ("loop.iter1.measure", "PASS");
   ("sync", "PASS"); ("report", "BLOCKED")].
Proof. vm_compute. reflexivity. Qed.
(** "a" aborts the run: "c" is reported as BLOCKED, since "b" was not executed; "b", which
    waits for nothing, is not reported at all. *)
Example abort_drops_outcomes :
  statuses (run_plan None [] [script_item "a" "bad.py" [] 0; script_item "b" "b.py" [] 0;
                              script_item "c" "c.py" ["b"] 0] (new_dispatcher 1)).1
  = [("a", "FAIL"); ("c", "BLOCKED")].
Proof. vm_compute. reflexivity. Qed.
Example missing_unit_fails :
  statuses (run_plan None ["UUT_0"] test_plan (new_dispatcher 2)).1 !! 3%nat = Some ("sync", "FAIL") ∧
  statuses (run_plan None ["UUT_0"; "UUT_1"] test_plan (new_dispatcher 2)).1 !! 3%nat = Some ("sync", "PASS").
Proof. vm_compute. split; reflexivity. Qed.

Lemma plan_runs_in_order_witness :
  ∃ l, l ⊆+ test_plan ∧ ordered [] l.
Proof.
  pose proof (plan_runs_in_order None [] test_plan (new_dispatcher 2) _ _
    (surjective_pairing (run_plan None [] test_plan (new_dispatcher 2)))) as H.
  assert (is_ok (run_plan None [] test_plan (new_dispatcher 2)).1 = true) as Hok
    by (vm_compute; reflexivity).
  destruct (run_plan None [] test_plan (new_dispatcher 2)).1 as [os|e]; [|discriminate Hok].
  destruct H as (l & os1 & s1 & _ & Ho & Hs & _). exists l. split; [exact Hs|exact Ho].
Defined.

(** A loop whose child waits for the step "init" outside. *)
Definition child : YamlNode := script_item "measure" "m.py" ["init"] 0.
Definition outer_spec : LoopSpec := mkLoop "loop" FOR (Some 2%Z) None None None SERIAL 1000 None None ["init"].
Lemma outer_dependency_blocks_loop_witness :
  dp_aborted (execute_item None [] (LoopNode outer_spec [child]) (new_dispatcher 1)).2 = true.
Proof.
  destruct (execute_item None [] (LoopNode outer_spec [child]) (new_dispatcher 1)) as [[os|e] d'] eqn:E;
    [|vm_compute in E; discriminate E].
  apply (proj2 (outer_dependency_blocks_loop None [] outer_spec [child] child "init" (new_dispatcher 1)
    os d' ltac:(left) ltac:(left) ltac:(apply (bool_decide_unpack _); vm_compute; reflexivity)
    ltac:(discriminate) ltac:(vm_compute; discriminate) eq_refl E)).
  vm_compute. reflexivity.
Defined.

Lemma fresh_bare count : bare (new_dispatcher count).
Proof. split; [discriminate|reflexivity]. Qed.
Lemma fixture_steps_contract_witness :
  bare (run_plan None [] test_plan (new_dispatcher 2)).2.
Proof.
  exact (proj1 (fixture_steps_contract None [] test_plan (new_dispatcher 2)
    (with_deps "r" "" FIXTURE_CONTROL [] 0) (fresh_bare 2))).
Defined.
Lemma barrier_step_contract_witness :
  ∃ o d2, dispatch_barrier ["UUT_0"] (with_deps "sync" "" BARRIER [] 0)
    (run_plan None ["UUT_0"] [] (new_dispatcher 2)).2 = (Ok o, d2) ∧ oc_status o = "FAIL".
Proof.
  destruct (barrier_step_contract None ["UUT_0"] [] (new_dispatcher 2)
    (with_deps "sync" "" BARRIER [] 0) (fresh_bare 2)) as (o & d2 & E & _ & _ & _ & H & _).
  exists o, d2. split; [exact E|]. apply H.
  - exists "UUT_0". split; [left|left].
  - exists "UUT_1". split; [right; left|]. apply (bool_decide_unpack _). vm_compute. reflexivity.
Defined.
