(* ===== verification/Checkpoint.v ===== *)
(** * Operator checkpoints (src/src/ate_platform/executor/checkpoint_handler.py)

    A step that waits for an operator registers a pending entry under its run and waits for the
    event of the entry; answers and cancellations come from other threads. The entries are shared
    objects, so they live in a store and the table holds their numbers ([current is pending]
    compares numbers). A waiting coroutine moves at its suspension points; an answering thread
    looks the entry up under the lock and writes to it afterwards. *)

From S2P Require Import Prelude PyDict PyStr.

Record CheckpointResponse : Type := mkResponse {
  cr_run_id : string;
  cr_step_id : string;
  cr_response : string;
  cr_reason : option string;
  cr_extra : pydict string pyval
}.

(** The entry; its event and its outcome flags. [pk_timeout] is [str(timeout_sec)]. *)
Record PendingCheckpoint : Type := mkPending {
  pk_run_id : string;
  pk_step_id : string;
  pk_timeout : string;
  pk_event : bool;
  pk_response : option CheckpointResponse;
  pk_timed_out : bool;
  pk_cancelled : bool
}.
Definition new_pending (run_id step_id timeout : string) : PendingCheckpoint :=
  mkPending run_id step_id timeout false None false false.

Definition set_event (p : PendingCheckpoint) :=
  mkPending (pk_run_id p) (pk_step_id p) (pk_timeout p) true (pk_response p) (pk_timed_out p) (pk_cancelled p).
Definition set_response (r : CheckpointResponse) (p : PendingCheckpoint) :=
  mkPending (pk_run_id p) (pk_step_id p) (pk_timeout p) (pk_event p) (Some r) (pk_timed_out p) (pk_cancelled p).
Definition set_timed_out (p : PendingCheckpoint) :=
  mkPending (pk_run_id p) (pk_step_id p) (pk_timeout p) (pk_event p) (pk_response p) true (pk_cancelled p).
Definition set_cancelled (p : PendingCheckpoint) :=
  mkPending (pk_run_id p) (pk_step_id p) (pk_timeout p) (pk_event p) (pk_response p) (pk_timed_out p) true.

(** Where a waiting coroutine is: at the callback, at the event, returned; [Killed] when its task
    was cancelled at the callback, [Finished] with CancelledError when at the event. *)
Inductive waiter : Type :=
  | Notifying
  | Waiting
  | Finished (r : res CheckpointResponse)
  | Killed.
Definition active (w : waiter) : bool := match w with Notifying | Waiting => true | _ => false end.

(** What a thread has looked up and will write. *)
Inductive call : Type :=
  | Answer (ref : nat) (r : CheckpointResponse)
  | Cancel (ref : nat).

(** The handler, the callbacks scheduled on the loops ([call_soon_threadsafe]), the calls between
    look-up and write, and the answers for which submit_response returns True. *)
Record CheckpointHandler : Type := mkHandler {
  ch_pending : pydict string nat;
  ch_store : list (PendingCheckpoint * waiter);
  ch_soon : list nat;
  ch_calls : list call;
  ch_answers : list (nat * CheckpointResponse)
}.
Definition new_handler : CheckpointHandler := mkHandler ∅ [] [] [] [].
Implicit Types (h : CheckpointHandler).

Definition set_table d h := mkHandler d (ch_store h) (ch_soon h) (ch_calls h) (ch_answers h).
Definition set_store l h := mkHandler (ch_pending h) l (ch_soon h) (ch_calls h) (ch_answers h).
Definition set_soon l h := mkHandler (ch_pending h) (ch_store h) l (ch_calls h) (ch_answers h).
Definition set_calls l h := mkHandler (ch_pending h) (ch_store h) (ch_soon h) l (ch_answers h).
Definition set_answers l h := mkHandler (ch_pending h) (ch_store h) (ch_soon h) (ch_calls h) l.

Definition has_pending (run_id : string) h : bool := has_key run_id (ch_pending h).
Definition get_pending (run_id : string) h : option PendingCheckpoint :=
  ref ← ch_pending h !! run_id; fst <$> ch_store h !! ref.

Definition CheckpointTimeoutError (msg : string) : exc := CustomError "CheckpointTimeoutError" msg.
Definition about (p : PendingCheckpoint) : string :=
  " (run_id=" +:+ pk_run_id p +:+ ", step_id=" +:+ pk_step_id p +:+ ")".

(** ** [wait_for_response] *)

(** Up to the callback: the entry replaces one that is there. *)
Definition begin_wait (run_id step_id timeout : string) h : CheckpointHandler :=
  let ref := length (ch_store h) in
  set_store (ch_store h ++ [(new_pending run_id step_id timeout, Notifying)])
    (set_table (<[run_id := ref]> (ch_pending h)) h).

(** [finally]: the entry is taken out if it is still ours. *)
Definition leave_wait (ref : nat) (p : PendingCheckpoint) (r : res CheckpointResponse) h : CheckpointHandler :=
  set_store (<[ref := (p, Finished r)]> (ch_store h))
    (if bool_decide (ch_pending h !! pk_run_id p = Some ref)
     then set_table (delete (pk_run_id p) (ch_pending h)) h else h).

(** What a woken coroutine ends with. *)
Definition wait_result (p : PendingCheckpoint) : res CheckpointResponse :=
  if pk_cancelled p then Raise (RuntimeError ("Checkpoint cancelled" +:+ about p))
  else match pk_response p with
       | None => Raise (RuntimeError ("Checkpoint event set without response" +:+ about p))
       | Some r => Ok r
       end.
Definition timeout_error (p : PendingCheckpoint) : exc :=
  CheckpointTimeoutError ("Operator checkpoint timed out after " +:+ pk_timeout p +:+ "s" +:+ about p).
Definition CancelledError : exc := CustomError "CancelledError" "".

(** ** [submit_response] and [cancel] *)

Definition find_entry (run_id : string) h : option (nat * PendingCheckpoint) :=
  ref ← ch_pending h !! run_id; p ← get_pending run_id h; Some (ref, p).

(** The answer to be written, or the reason for False. *)
Definition submit_lookup (r : CheckpointResponse) h : option nat :=
  match find_entry (cr_run_id r) h with
  | None => None
  | Some (ref, p) => if decide (pk_step_id p = cr_step_id r) then Some ref else None
  end.
Definition alter_entry (f : PendingCheckpoint → PendingCheckpoint) (ref : nat) h : CheckpointHandler :=
  set_store (alter (prod_map f id) ref (ch_store h)) h.
Definition schedule_wake (ref : nat) h : CheckpointHandler := set_soon (ch_soon h ++ [ref]) h.
Definition write_call (c : call) h : CheckpointHandler :=
  match c with
  | Answer ref r => schedule_wake ref (set_answers (ch_answers h ++ [(ref, r)]) (alter_entry (set_response r) ref h))
  | Cancel ref => schedule_wake ref (alter_entry set_cancelled ref h)
  end.

(** Both parts, undisturbed. *)
Definition submit_response (r : CheckpointResponse) : M CheckpointHandler bool :=
  h <- get ;;
  match submit_lookup r h with
  | None => ret false
  | Some ref => put (write_call (Answer ref r) h) ;;; ret true
  end.
Definition cancel (run_id : string) : M CheckpointHandler bool :=
  h <- get ;;
  match ch_pending h !! run_id with
  | None => ret false
  | Some ref => put (write_call (Cancel ref) h) ;;; ret true
  end.

(** ** Steps *)

Inductive ck_step : CheckpointHandler → CheckpointHandler → Prop :=
  | Ck_begin run_id step_id timeout h : ck_step h (begin_wait run_id step_id timeout h)
  (* the callback returns, or raises an Exception, which is logged *)
  | Ck_notified ref p h :
      ch_store h !! ref = Some (p, Notifying) →
      ck_step h (set_store (<[ref := (p, Waiting)]> (ch_store h)) h)
  | Ck_wake ref p h :
      ch_store h !! ref = Some (p, Waiting) → pk_event p = true →
      ck_step h (leave_wait ref p (wait_result p) h)
  | Ck_timeout ref p h :
      ch_store h !! ref = Some (p, Waiting) → pk_event p = false →
      ck_step h (leave_wait ref (set_timed_out p) (Raise (timeout_error p)) h)
  (* the task is cancelled, at the event or at the callback *)
  | Ck_task_cancelled ref p h :
      ch_store h !! ref = Some (p, Waiting) →
      ck_step h (leave_wait ref p (Raise CancelledError) h)
  | Ck_killed ref p h :
      ch_store h !! ref = Some (p, Notifying) →
      ck_step h (set_store (<[ref := (p, Killed)]> (ch_store h)) h)
  | Ck_submit r ref h :
      submit_lookup r h = Some ref → ck_step h (set_calls (ch_calls h ++ [Answer ref r]) h)
  | Ck_cancel run_id ref h :
      ch_pending h !! run_id = Some ref → ck_step h (set_calls (ch_calls h ++ [Cancel ref]) h)
  | Ck_write c before after h :
      ch_calls h = before ++ c :: after → ck_step h (write_call c (set_calls (before ++ after) h))
  | Ck_soon ref before after h :
      ch_soon h = before ++ ref :: after → ck_step h (alter_entry set_event ref (set_soon (before ++ after) h)).

(** ** The table *)

Definition run_of h (ref : nat) : option string := (λ pw, pk_run_id pw.1) <$> ch_store h !! ref.
Definition step_of h (ref : nat) : option string := (λ pw, pk_step_id pw.1) <$> ch_store h !! ref.
Definition finished h (ref : nat) : Prop := ∃ p r, ch_store h !! ref = Some (p, Finished r).

(** The last coroutine registered for a run. *)
Definition latest h (run_id : string) (ref : nat) : Prop :=
  run_of h ref = Some run_id ∧ ∀ ref', run_of h ref' = Some run_id → ref' ≤ ref.
Definition table_ok h : Prop :=
  ∀ run_id ref, ch_pending h !! run_id = Some ref ↔ latest h run_id ref ∧ ¬ finished h ref.

Lemma latest_unique h run_id ref ref' : latest h run_id ref → latest h run_id ref' → ref = ref'.
Proof. intros [H1 H2] [H3 H4]. specialize (H2 _ H3). specialize (H4 _ H1). lia. Qed.

(** Steps that leave the table, the runs and the finished coroutines as they are. *)
Record same_shape h h' : Prop := {
  ss_table : ch_pending h' = ch_pending h;
  ss_run ref : run_of h' ref = run_of h ref;
  ss_finished ref : finished h' ref ↔ finished h ref
}.

Lemma same_shape_ok h h' : same_shape h h' → table_ok h → table_ok h'.
Proof.
  intros [Ht Hr Hf] H run_id ref. rewrite Ht, (H run_id ref), Hf. unfold latest. rewrite Hr.
  split; intros [[H1 H2] H3]; (split; [split; [done|intros ref'; rewrite ?Hr; auto]|done]).
  intros E. apply H2. by rewrite Hr.
Qed.

Lemma set_waiter_shape h ref p w w' :
  ch_store h !! ref = Some (p, w) → (∀ r, w ≠ Finished r) → (∀ r, w' ≠ Finished r) →
  same_shape h (set_store (<[ref := (p, w')]> (ch_store h)) h).
Proof.
  intros Hs Hw Hw'. assert (ref < length (ch_store h)) by (by eapply lookup_lt_Some). split; [done|..].
  - intros i. unfold run_of. cbn. destruct (decide (ref = i)) as [<-|].
    + by rewrite list_lookup_insert_eq, Hs.
    + by rewrite list_lookup_insert_ne.
  - intros i. unfold finished. cbn. destruct (decide (ref = i)) as [<-|].
    + rewrite list_lookup_insert_eq, Hs by done. split; intros (q & r & [=]); subst; naive_solver.
    + by rewrite list_lookup_insert_ne.
Qed.

Lemma alter_entry_lookup f ref h i :
  ch_store (alter_entry f ref h) !! i =
  (if decide (ref = i) then prod_map f id <$> ch_store h !! i else ch_store h !! i).
Proof.
  cbn. case_decide; subst; [by rewrite list_lookup_alter_eq|by rewrite list_lookup_alter_ne].
Qed.
Lemma alter_entry_shape f ref h :
  (∀ p, pk_run_id (f p) = pk_run_id p) → same_shape h (alter_entry f ref h).
Proof.
  intros Hf. split; [done|..]; intros i; unfold run_of, finished; rewrite alter_entry_lookup;
    case_decide; try done.
  - destruct (ch_store h !! i) as [[q w]|]; [|done]. cbn. by rewrite Hf.
  - destruct (ch_store h !! i) as [[q w]|]; cbn; [|split; intros (? & ? & [=])].
    split; intros (? & r & [= <- ->]); by repeat eexists.
Qed.

Lemma begin_wait_ok run_id step_id timeout h : table_ok h → table_ok (begin_wait run_id step_id timeout h).
Proof.
  intros H run ref. set (n := length (ch_store h)).
  change (ch_pending (begin_wait run_id step_id timeout h)) with (<[run_id := n]> (ch_pending h)).
  assert (Hrun : ∀ i, run_of (begin_wait run_id step_id timeout h) i =
    if decide (i = n) then Some run_id else run_of h i).
  { intros i. unfold run_of. cbn. case_decide as Hi.
    - subst i. by rewrite list_lookup_middle.
    - destruct (decide (i < n)); [by rewrite lookup_app_l|].
      rewrite !lookup_ge_None_2; [done|lia|]. rewrite length_app. cbn. lia. }
  assert (Hold : ∀ i x, run_of h i = Some x → i < n).
  { intros i x. unfold run_of. intros (? & ? & _)%fmap_Some. by eapply lookup_lt_Some. }
  assert (Hfin : ∀ i, i ≠ n → finished (begin_wait run_id step_id timeout h) i ↔ finished h i).
  { intros i Hi. unfold finished. cbn. destruct (decide (i < n)); [by rewrite lookup_app_l|].
    rewrite !lookup_ge_None_2; [done|lia|]. rewrite length_app. cbn. lia. }
  rewrite dict_lookup_insert. unfold latest. setoid_rewrite Hrun. case_decide as Hr; subst.
  - split.
    + intros [= <-]. split; [split; [by rewrite decide_True|]|].
      * intros i. case_decide; [lia|]. intros Hi%Hold. lia.
      * intros (q & r & E). cbn in E. rewrite list_lookup_middle in E by done. done.
    + intros [[Hr Hmax] Hf]. f_equal. specialize (Hmax n). rewrite decide_True in Hmax by done.
      specialize (Hmax eq_refl). case_decide; [done|]. apply Hold in Hr. lia.
  - rewrite (H run ref). unfold latest. split.
    + intros [[Hr1 Hmax] Hf]. pose proof (Hold _ _ Hr1). rewrite decide_False by lia.
      split; [split; [done|]|]; [|rewrite Hfin by lia; done].
      intros i. case_decide; [by intros [= ->]|auto].
    + intros [[Hr1 Hmax] Hf]. case_decide as Hn; [by injection Hr1 as ->|].
      split; [split; [done|]|by rewrite Hfin in Hf].
      intros i Hi. apply Hmax. rewrite decide_False; [done|]. intros ->. by apply Hold in Hi; lia.
Qed.

Lemma leave_wait_ok ref p p' w r h :
  table_ok h → ch_store h !! ref = Some (p, w) → pk_run_id p' = pk_run_id p →
  table_ok (leave_wait ref p' r h).
Proof.
  intros H Hs Hp run ref0. assert (ref < length (ch_store h)) as Hlt by (by eapply lookup_lt_Some).
  set (h' := leave_wait ref p' r h).
  assert (Hst : ch_store h' = <[ref := (p', Finished r)]> (ch_store h)) by done.
  assert (Hrun : ∀ i, run_of h' i = run_of h i).
  { intros i. unfold run_of. rewrite Hst. destruct (decide (ref = i)) as [<-|].
    - rewrite list_lookup_insert_eq, Hs by done. cbn. by rewrite Hp.
    - by rewrite list_lookup_insert_ne. }
  assert (Hfin : ∀ i, finished h' i ↔ i = ref ∨ finished h i).
  { intros i. unfold finished. rewrite Hst. destruct (decide (ref = i)) as [<-|].
    - rewrite list_lookup_insert_eq by done. naive_solver.
    - rewrite list_lookup_insert_ne by done. naive_solver. }
  assert (Hlat : latest h' run ref0 ↔ latest h run ref0) by (unfold latest; setoid_rewrite Hrun; done).
  rewrite Hlat, Hfin. unfold h', leave_wait. cbn. rewrite Hp. case_bool_decide as Hb; cbn.
  - rewrite dict_lookup_delete. case_decide as Hk.
    + subst run. split; [done|]. intros [Hl Hn]. exfalso. apply H in Hb as [Hb _].
      apply Hn. left. by eapply latest_unique.
    + rewrite (H run ref0). split; [|tauto]. intros [Hl Hn]. split; [done|]. intros [->|?]; [|done].
      apply Hk. destruct Hl as [Hl _]. unfold run_of in Hl. rewrite Hs in Hl. by injection Hl.
  - rewrite (H run ref0). split; [|tauto]. intros [Hl Hn]. split; [done|]. intros [->|?]; [|done].
    apply Hb. apply H. split; [|done]. destruct Hl as [Hl1 Hl2]. split; [|].
    + unfold run_of. by rewrite Hs.
    + intros i Hi. apply Hl2. unfold run_of in Hl1. rewrite Hs in Hl1. injection Hl1 as <-. done.
Qed.

(** ** Answers *)

(** submit_response was called for the entry, with its run and step, and returns True. *)
Definition answered h (ref : nat) (r : CheckpointResponse) : Prop :=
  (ref, r) ∈ ch_answers h ∧ run_of h ref = Some (cr_run_id r) ∧ step_of h ref = Some (cr_step_id r).

Record answers_ok h : Prop := {
  ao_call ref r : Answer ref r ∈ ch_calls h →
    run_of h ref = Some (cr_run_id r) ∧ step_of h ref = Some (cr_step_id r);
  ao_entry ref p w r : ch_store h !! ref = Some (p, w) →
    pk_response p = Some r ∨ w = Finished (Ok r) → answered h ref r
}.

(** Entries keep their run and step, answers are never forgotten. *)
Record grows h h' : Prop := {
  gr_run ref x : run_of h ref = Some x → run_of h' ref = Some x;
  gr_step ref x : step_of h ref = Some x → step_of h' ref = Some x;
  gr_answers x : x ∈ ch_answers h → x ∈ ch_answers h'
}.

Lemma answered_grows h h' ref r : grows h h' → answered h ref r → answered h' ref r.
Proof. intros [H1 H2 H3] (? & ? & ?). split_and!; auto. Qed.

(** A step that adds no calls, and whose entries have old responses and old results. *)
Lemma answers_keep h h' :
  grows h h' → (∀ c, c ∈ ch_calls h' → c ∈ ch_calls h) →
  (∀ ref p w r, ch_store h' !! ref = Some (p, w) → pk_response p = Some r ∨ w = Finished (Ok r) →
    answered h' ref r ∨ ∃ p' w', ch_store h !! ref = Some (p', w') ∧ (pk_response p' = Some r ∨ w' = Finished (Ok r))) →
  answers_ok h → answers_ok h'.
Proof.
  intros Hg Hc Hs [H1 H2]. split.
  - intros ref r Hin%Hc%H1. destruct Hg. naive_solver.
  - intros ref p w r Hr Ho. destruct (Hs _ _ _ _ Hr Ho) as [?|(p' & w' & Hr' & Ho')]; [done|].
    eapply answered_grows; [done|]. by eapply H2.
Qed.

Lemma store_grows h h' ref p w p' w' :
  ch_store h !! ref = Some (p, w) → ch_store h' = <[ref := (p', w')]> (ch_store h) →
  pk_run_id p' = pk_run_id p → pk_step_id p' = pk_step_id p → ch_answers h' = ch_answers h → grows h h'.
Proof.
  intros Hs Hst Hr Hp Ha. assert (ref < length (ch_store h)) by (by eapply lookup_lt_Some).
  split; [| |by rewrite Ha]; intros i x; unfold run_of, step_of; rewrite Hst;
    (destruct (decide (ref = i)) as [<-|];
      [rewrite list_lookup_insert_eq, Hs by done; cbn; congruence|by rewrite list_lookup_insert_ne]).
Qed.
Lemma alter_grows f ref h :
  (∀ p, pk_run_id (f p) = pk_run_id p ∧ pk_step_id (f p) = pk_step_id p) → grows h (alter_entry f ref h).
Proof.
  intros Hf. split; [| |done]; intros i x; unfold run_of, step_of; rewrite alter_entry_lookup; case_decide; try done;
    (destruct (ch_store h !! i) as [[q w]|]; [|done]); cbn; destruct (Hf q) as [E1 E2]; by rewrite ?E1, ?E2.
Qed.

Lemma answers_store h h' ref p w p' w' :
  ch_store h !! ref = Some (p, w) → ch_store h' = <[ref := (p', w')]> (ch_store h) →
  pk_run_id p' = pk_run_id p → pk_step_id p' = pk_step_id p → ch_answers h' = ch_answers h →
  ch_calls h' = ch_calls h → pk_response p' = pk_response p →
  (∀ r, w' = Finished (Ok r) → pk_response p = Some r) →
  answers_ok h → answers_ok h'.
Proof.
  intros Hs Hst Hr Hp Ha Hc Hre Hw. assert (ref < length (ch_store h)) by (by eapply lookup_lt_Some).
  apply answers_keep; [by eapply store_grows|by rewrite Hc|].
  intros i q v r. rewrite Hst. destruct (decide (ref = i)) as [<-|].
  - rewrite list_lookup_insert_eq by done. intros [= <- <-] Ho. right. exists p, w. split; [done|].
    left. destruct Ho as [Ho|Ho]; [congruence|auto].
  - rewrite list_lookup_insert_ne by done. intros Hi Ho. right. eauto.
Qed.

Lemma find_entry_spec run_id ref p h :
  find_entry run_id h = Some (ref, p) → ch_pending h !! run_id = Some ref ∧ fst <$> ch_store h !! ref = Some p.
Proof.
  unfold find_entry, get_pending. intros (i & Hi & (q & Hq & [= -> ->])%bind_Some)%bind_Some.
  rewrite Hi in Hq. done.
Qed.
Lemma submit_lookup_spec r ref h :
  table_ok h → submit_lookup r h = Some ref →
  latest h (cr_run_id r) ref ∧ ¬ finished h ref ∧ step_of h ref = Some (cr_step_id r).
Proof.
  intros Ht. unfold submit_lookup. destruct (find_entry _ h) as [[i p]|] eqn:E; [|done].
  apply find_entry_spec in E as [Hp Hs]. case_decide as Hd; [|done]. intros [= ->].
  apply Ht in Hp as [Hl Hf]. split_and!; [done|done|]. unfold step_of.
  destruct (ch_store h !! ref) as [[q w]|]; [|done]. injection Hs as ->. cbn. by rewrite Hd.
Qed.

Lemma write_answer_ok ref r h :
  answers_ok h → run_of h ref = Some (cr_run_id r) → step_of h ref = Some (cr_step_id r) →
  answers_ok (write_call (Answer ref r) h).
Proof.
  intros H Hr Hs. assert (grows h (write_call (Answer ref r) h)) as Hg.
  { destruct (alter_grows (set_response r) ref h) as [H1 H2 _]; [done|].
    split; [exact H1|exact H2|]. intros x Hx. cbn. apply elem_of_app. by left. }
  revert H. apply answers_keep; [done|done|].
  intros i p w r'. change (ch_store (write_call (Answer ref r) h) !! i) with
    (ch_store (alter_entry (set_response r) ref h) !! i).
  rewrite alter_entry_lookup. case_decide as Hi; [subst i|by eauto 10].
  intros ([q v] & Hq & [= -> ->])%fmap_Some [Ho|Ho]; [|right; eauto].
  cbn in Ho. injection Ho as <-. left. split_and!; [|by apply Hg..].
  cbn. apply elem_of_app. right. left.
Qed.

Definition handler_ok h : Prop := table_ok h ∧ answers_ok h.

(** The part a step of a coroutine needs. *)
Lemma leave_ok ref p p' r h :
  handler_ok h → ch_store h !! ref = Some (p, Waiting) → pk_run_id p' = pk_run_id p →
  pk_step_id p' = pk_step_id p → pk_response p' = pk_response p →
  (∀ x, r = Ok x → pk_response p = Some x) → handler_ok (leave_wait ref p' r h).
Proof.
  intros [Ht Ha] Hs Hr Hp Hre Hx. split; [by eapply leave_wait_ok|].
  eapply (answers_store h _ ref p Waiting p' (Finished r)); try done.
  - unfold leave_wait. by case_match.
  - unfold leave_wait. by case_match.
  - intros x [= ->]. by apply Hx.
Qed.
Lemma move_ok ref p w h :
  handler_ok h → ch_store h !! ref = Some (p, Notifying) → (∀ r, w ≠ Finished r) →
  handler_ok (set_store (<[ref := (p, w)]> (ch_store h)) h).
Proof.
  intros [Ht Ha] Hs Hw. split.
  - eapply same_shape_ok; [|exact Ht]. by eapply set_waiter_shape.
  - eapply (answers_store h _ ref p Notifying p w); try done. intros r ->. by destruct (Hw (Ok r)).
Qed.

Lemma begin_answers_ok run_id step_id timeout h :
  answers_ok h → answers_ok (begin_wait run_id step_id timeout h).
Proof.
  assert (∀ i q, ch_store h !! i = Some q → ch_store (begin_wait run_id step_id timeout h) !! i = Some q) as Hold.
  { intros i q Hq. cbn. by apply lookup_app_l_Some. }
  apply answers_keep; [split| |].
  - intros i x (q & Hq & ->)%fmap_Some. unfold run_of. by rewrite (Hold _ _ Hq).
  - intros i x (q & Hq & ->)%fmap_Some. unfold step_of. by rewrite (Hold _ _ Hq).
  - done.
  - done.
  - intros i p w r Hi Ho. cbn in Hi. apply lookup_app_Some in Hi as [Hi|[_ Hi]]; [right; eauto|].
    apply list_lookup_singleton_Some in Hi as [_ [= <- <-]]. by destruct Ho.
Qed.

Lemma ck_step_ok h h' : ck_step h h' → handler_ok h → handler_ok h'.
Proof.
  intros Hstep Hok. pose proof Hok as [Ht Ha]. destruct Hstep as
    [run_id step_id timeout h|ref p h Hs|ref p h Hs He|ref p h Hs He|ref p h Hs|ref p h Hs|r ref h Hl
    |run_id ref h Hl|c before after h Hc|ref before after h Hc].
  - split; [by apply begin_wait_ok|by apply begin_answers_ok].
  - by apply move_ok.
  - eapply leave_ok; try done. intros x. unfold wait_result. destruct (pk_cancelled p); [done|].
    destruct (pk_response p); [congruence|done].
  - by eapply leave_ok.
  - by eapply leave_ok.
  - by apply move_ok.
  - split; [done|]. apply submit_lookup_spec in Hl as ((Hr & _) & _ & Hst); [|done].
    destruct Ha as [H1 H2]. split; [|exact H2].
    intros i x. cbn. rewrite elem_of_app, list_elem_of_singleton. intros [Hin|[= -> ->]]; [by apply H1|done].
  - split; [done|]. destruct Ha as [H1 H2]. split; [|exact H2].
    intros i x. cbn. rewrite elem_of_app, list_elem_of_singleton. intros [Hin|[=]]. by apply H1.
  - assert (answers_ok (set_calls (before ++ after) h)) as Ha'.
    { destruct Ha as [H1 H2]. split; [|exact H2]. intros i x Hin. apply H1. rewrite Hc.
      cbn in Hin. rewrite elem_of_app, elem_of_cons. apply elem_of_app in Hin. tauto. }
    assert (c ∈ ch_calls h) as Hin by (rewrite Hc; apply elem_of_app; right; left).
    destruct c as [ref r|ref].
    + destruct (ao_call _ Ha _ _ Hin) as [Hr Hst]. split; [|by apply write_answer_ok].
      eapply (same_shape_ok h); [|exact Ht]. destruct (alter_entry_shape (set_response r) ref h) as [S1 S2 S3]; [done|].
      by split.
    + split.
      * eapply (same_shape_ok h); [|exact Ht]. destruct (alter_entry_shape set_cancelled ref h) as [S1 S2 S3]; [done|].
        by split.
      * revert Ha'. apply answers_keep; [|done|].
        { destruct (alter_grows set_cancelled ref (set_calls (before ++ after) h)) as [G1 G2 G3]; [done|]. by split. }
        intros i p w x. change (ch_store (write_call (Cancel ref) (set_calls (before ++ after) h)) !! i) with
          (ch_store (alter_entry set_cancelled ref (set_calls (before ++ after) h)) !! i).
        rewrite alter_entry_lookup. case_decide; [|by eauto 10].
        intros ([q v] & Hq & [= -> ->])%fmap_Some Ho. right. exists q, v. by split.
  - split.
    + eapply (same_shape_ok h); [|exact Ht]. destruct (alter_entry_shape set_event ref h) as [S1 S2 S3]; [done|].
      by split.
    + revert Ha. apply answers_keep; [|done|].
      { destruct (alter_grows set_event ref h) as [G1 G2 G3]; [done|]. by split. }
      intros i p w x. change (ch_store (alter_entry set_event ref (set_soon (before ++ after) h)) !! i) with
        (ch_store (alter_entry set_event ref h) !! i).
      rewrite alter_entry_lookup. case_decide; [|by eauto 10].
      intros ([q v] & Hq & [= -> ->])%fmap_Some Ho. right. exists q, v. by split.
Qed.

Lemma reachable_ok h : rtc ck_step new_handler h → handler_ok h.
Proof.
  intros Hr. remember new_handler as h0 eqn:E. assert (handler_ok h0) as H0.
  { subst. split.
    - intros run ref. cbn. split; [done|]. intros [[H _] _]. done.
    - split; [by intros ? ? ?%elem_of_nil|done]. }
  clear E. induction Hr; eauto using ck_step_ok.
Qed.

(** ** Properties *)

(** C33. Under every interleaving of waits, answers, cancellations and time-outs, a wait that
    returns a response returns one that submit_response accepted for this very wait, with the run
    and the step of the wait: no answer reaches another step or another run. *)
Theorem response_is_for_the_wait h ref p r :
  rtc ck_step new_handler h → ch_store h !! ref = Some (p, Finished (Ok r)) →
  (ref, r) ∈ ch_answers h ∧ cr_run_id r = pk_run_id p ∧ cr_step_id r = pk_step_id p.
Proof.
  intros [_ Ha]%reachable_ok Hs. destruct (ao_entry _ Ha ref p (Finished (Ok r)) r Hs) as (Hin & Hr & Hst); [by right|].
  unfold run_of in Hr. unfold step_of in Hst. rewrite Hs in Hr, Hst. cbn in *. naive_solver.
Qed.

(** The table of pending checkpoints is exact in every reachable state: a run has an entry just
    when its last registered wait has not returned, and the entry is that wait. *)
Theorem pending_exact h run_id ref :
  rtc ck_step new_handler h →
  ch_pending h !! run_id = Some ref ↔ latest h run_id ref ∧ ¬ finished h ref.
Proof. intros [Ht _]%reachable_ok. apply Ht. Qed.

Lemma submit_refused r h :
  table_ok h → submit_lookup r h = None →
  ¬ ∃ ref, latest h (cr_run_id r) ref ∧ ¬ finished h ref ∧ step_of h ref = Some (cr_step_id r).
Proof.
  intros Ht Hn (ref & Hl & Hf & Hs). assert (ch_pending h !! cr_run_id r = Some ref) as Hp by (by apply Ht).
  unfold submit_lookup, find_entry, get_pending in Hn. rewrite Hp in Hn. cbn in Hn.
  unfold step_of in Hs. destruct (ch_store h !! ref) as [[p w]|]; [|done]. cbn in *.
  injection Hs as Hs. by rewrite decide_True in Hn.
Qed.

(** submit_response answers True just when the last wait of the run has not returned and is for
    the given step, and then stores the answer; otherwise it answers False and changes nothing. A
    waiting coroutine that is not cancelled can then wake up, returns that answer and leaves the
    run without an entry. *)
Theorem submit_contract h r :
  rtc ck_step new_handler h →
  match submit_response r h with
  | (Ok true, h') => ∃ ref, latest h (cr_run_id r) ref ∧ ¬ finished h ref ∧
      step_of h ref = Some (cr_step_id r) ∧ (ref, r) ∈ ch_answers h' ∧
      ∀ p, ch_store h !! ref = Some (p, Waiting) → pk_cancelled p = false →
        ∃ h'' p', rtc ck_step h' h'' ∧ ch_store h'' !! ref = Some (p', Finished (Ok r)) ∧
          has_pending (cr_run_id r) h'' = false
  | (Ok false, h') => h' = h ∧
      ¬ ∃ ref, latest h (cr_run_id r) ref ∧ ¬ finished h ref ∧ step_of h ref = Some (cr_step_id r)
  | (Raise _, _) => False
  end.
Proof.
  intros [Ht _]%reachable_ok. unfold submit_response. rewrite bind_get.
  destruct (submit_lookup r h) as [ref|] eqn:El; [|split; [done|by apply submit_refused]].
  destruct (submit_lookup_spec _ _ _ Ht El) as (Hl & Hf & Hst). exists ref.
  split; [done|]. split; [done|]. split; [done|]. split; [cbn; apply elem_of_app; right; left|].
  intros p Hs Hc. set (h1 := write_call (Answer ref r) h).
  set (h2 := alter_entry set_event ref (set_soon (ch_soon h ++ []) h1)).
  set (p2 := set_event (set_response r p)).
  assert (ch_store h2 !! ref = Some (p2, Waiting)) as Hs2.
  { subst h2. rewrite alter_entry_lookup, decide_True by done.
    change (ch_store (set_soon (ch_soon h ++ []) h1) !! ref) with (ch_store (alter_entry (set_response r) ref h) !! ref).
    rewrite alter_entry_lookup, decide_True, Hs by done. done. }
  exists (leave_wait ref p2 (wait_result p2) h2), p2. split_and!.
  - eapply rtc_l; [by apply (Ck_soon ref (ch_soon h) [] h1)|].
    eapply rtc_l; [by apply (Ck_wake ref p2 h2)|]. apply rtc_refl.
  - unfold wait_result. cbn. rewrite Hc. apply list_lookup_insert_eq. by eapply lookup_lt_Some.
  - assert (pk_run_id p2 = cr_run_id r) as Hr.
    { destruct Hl as [Hl _]. unfold run_of in Hl. rewrite Hs in Hl. by injection Hl. }
    assert (ch_pending h2 !! cr_run_id r = Some ref) as Hp by (by apply Ht).
    unfold has_pending, has_key, leave_wait. rewrite Hr, (bool_decide_true _ Hp). cbn.
    rewrite dict_lookup_delete_eq. by apply bool_decide_eq_false, is_Some_None.
Qed.

(** ** Three runs *)

Definition yes : CheckpointResponse := mkResponse "run" "scan" "yes" None ∅.
Definition one_wait : CheckpointHandler := begin_wait "run" "scan" "5.0" new_handler.
Definition at_event : CheckpointHandler :=
  set_store (<[0 := (new_pending "run" "scan" "5.0", Waiting)]> (ch_store one_wait)) one_wait.
Lemma one_wait_reachable : rtc ck_step new_handler one_wait.
Proof. eapply rtc_l; [apply Ck_begin|apply rtc_refl]. Qed.
Lemma at_event_reachable : rtc ck_step new_handler at_event.
Proof.
  eapply rtc_r; [apply one_wait_reachable|]. by apply (Ck_notified 0 (new_pending "run" "scan" "5.0")).
Qed.

(** An answer looked up before the time-out and written after it: submit_response returns True
    and the wait has raised. *)
Example late_answer_lost :
  ∃ h p e, rtc ck_step new_handler h ∧ (0, yes) ∈ ch_answers h ∧
    ch_store h !! 0 = Some (p, Finished (Raise e)).
Proof.
  eexists _, _, _. split_and!.
  - etrans; [apply at_event_reachable|].
    eapply rtc_l; [by apply (Ck_submit yes 0)|].
    eapply rtc_l; [by apply (Ck_timeout 0 (new_pending "run" "scan" "5.0"))|].
    eapply rtc_l; [by apply (Ck_write (Answer 0 yes) [] [])|]. apply rtc_refl.
  - left.
  - reflexivity.
Qed.

(** A task cancelled in the callback leaves its entry behind: the checkpoint stays pending and
    answers to it are accepted. *)
Example killed_entry_leaks :
  ∃ h, rtc ck_step new_handler h ∧ has_pending "run" h = true ∧ (submit_response yes h).1 = Ok true ∧
    ∀ ref p w, ch_store h !! ref = Some (p, w) → active w = false.
Proof.
  eexists. split_and!.
  - eapply rtc_r; [apply one_wait_reachable|]. by apply (Ck_killed 0 (new_pending "run" "scan" "5.0")).
  - reflexivity.
  - reflexivity.
  - intros [|[|ref]] p w; [by intros [= <- <-]|done|done].
Qed.

Definition answered_at_once : CheckpointHandler :=
  (submit_response yes at_event).2.
Lemma response_is_for_the_wait_witness :
  ∃ h p, rtc ck_step new_handler h ∧ ch_store h !! 0 = Some (p, Finished (Ok yes)) ∧ (0, yes) ∈ ch_answers h.
Proof.
  set (h1 := write_call (Answer 0 yes) at_event).
  set (h2 := alter_entry set_event 0 (set_soon [] h1)).
  set (p2 := set_event (set_response yes (new_pending "run" "scan" "5.0"))).
  set (h3 := leave_wait 0 p2 (wait_result p2) h2).
  assert (rtc ck_step new_handler h3) as Hr.
  { etrans; [apply at_event_reachable|].
    eapply rtc_l; [by apply (Ck_submit yes 0)|].
    eapply rtc_l; [by apply (Ck_write (Answer 0 yes) [] [])|].
    eapply rtc_l; [by apply (Ck_soon 0 [] [])|].
    eapply rtc_l; [by apply (Ck_wake 0 p2)|]. apply rtc_refl. }
  exists h3, p2. split; [exact Hr|]. split; [reflexivity|].
  exact (proj1 (response_is_for_the_wait h3 0 p2 yes Hr eq_refl)).
Defined.
Lemma pending_exact_witness : latest at_event "run" 0 ∧ ¬ finished at_event 0.
Proof. apply (pending_exact at_event "run" 0 at_event_reachable). reflexivity. Defined.
Lemma submit_contract_witness : (0, yes) ∈ ch_answers (submit_response yes at_event).2.
Proof.
  pose proof (submit_contract at_event yes at_event_reachable) as (ref & [Hl _] & _ & _ & Hin & _).
  destruct ref as [|ref]; [exact Hin|discriminate Hl].
Defined.
