(* ===== verification/ContextProxy.v ===== *)
(** * What a script may touch (src/src/ate_platform/executor/context_proxy.py)

    A step's script reads any variable, writes its own outputs and reaches resources through
    proxies. The variable space is that of VariableSpace.v and the resources those of
    ResourceManager.v. *)

From S2P Require Import Prelude PyDict PyStr Types VariableSpace ResourceManager.

(** ** The state a script shares *)

Record Context (B : Type) : Type := mkContext {
  ct_vars : VariableSpace;
  ct_rm : ResourceManager;
  ct_bus : B
}.
Arguments mkContext {B}.
Arguments ct_vars {B}.
Arguments ct_rm {B}.
Arguments ct_bus {B}.

Record ContextProxy : Type := mkProxy {
  cx_step_id : string;
  cx_outputs : pydict string pyval;
  cx_declared_outputs : list string
}.
Definition new_proxy (step_id : string) : ContextProxy := mkProxy step_id ∅ [].

Record ResourceProxy : Type := mkResourceProxy {
  rp_resource_id : string;
  rp_owner_id : string;
  rp_acquired : bool
}.
Definition set_acquired b (p : ResourceProxy) := mkResourceProxy (rp_resource_id p) (rp_owner_id p) b.

(** [s.split(".")[-1]] *)
Fixpoint last_segment (s : string) : string :=
  match s with
  | EmptyString => ""
  | String a s' =>
      if negb (free_of dot s') then last_segment s'
      else if Ascii.eqb a dot then s' else s
  end.

Definition own_prefix (step_id : string) : string := "steps." +:+ step_id +:+ ".".

Section proxy.
Context {B : Type} `{EventSink B}.

Abbreviation PM := (M (ContextProxy * Context B)).

(** [proxy[name]] *)
Definition getitem (name : string) : PM pyval := gets (λ s, vs_get (ct_vars s.2) name PyNone).

(** The variable an assignment writes to, and the key under which it is kept as an output. *)
Definition target (cx : ContextProxy) (name : string) : res (string * string) :=
  if free_of dot name then
    if str_in name (cx_declared_outputs cx) || bool_decide (cx_declared_outputs cx = [])
    then Ok (own_prefix (cx_step_id cx) +:+ name, name)
    else Raise (ValueError ("Cannot write to undeclared output '" +:+ name +:+ "'. Declared outputs: "
      +:+ repr_strs (py_sorted (cx_declared_outputs cx))))
  else
    let scope_prefix := hd "" (split_max dot 1 name) in
    if negb (bool_decide (scope_prefix = "steps")) then
      Raise (ValueError ("Cannot write to '" +:+ scope_prefix +:+ "' scope. Writable scopes: ['steps']"))
    else if negb (String.prefix (own_prefix (cx_step_id cx)) name) then
      Raise (ValueError ("Cannot write to another step's variables. Expected prefix: '"
        +:+ own_prefix (cx_step_id cx) +:+ "'"))
    else Ok (name, last_segment name).

Definition in_vars {A} (m : M (VariableSpace * B) A) : PM A :=
  zoom (λ s, (ct_vars s.2, ct_bus s.2))
    (λ t s, (s.1, mkContext t.1 (ct_rm s.2) t.2)) m.

(** [proxy[name] = value] *)
Definition setitem (now : Z) (name : string) (value : pyval) : PM unit :=
  cx <- gets fst ;;
  t <- lift (target cx name) ;;
  in_vars (vs_set now t.1 value) ;;;
  modify (λ s, (mkProxy (cx_step_id s.1) (<[t.2 := value]> (cx_outputs s.1)) (cx_declared_outputs s.1), s.2)).

Definition declare_output (name : string) : PM unit :=
  modify (λ s, (mkProxy (cx_step_id s.1) (cx_outputs s.1)
    (if str_in name (cx_declared_outputs s.1) then cx_declared_outputs s.1
     else cx_declared_outputs s.1 ++ [name]), s.2)).
Definition get_outputs : PM (pydict string pyval) := gets (λ s, cx_outputs s.1).

(** [@measure] with some output names, around a function of the proxy. *)
Definition measure {A} (output_names : list string) (func : PM A) : PM A :=
  for_each output_names declare_output ;;; func.

(** The instruments come from a proxy manager, if one is configured. *)
Definition instrument {A} (client : option (string → PM A)) (resource_id : string) : PM A :=
  match client with
  | None => raise (RuntimeError "No instrument proxy manager configured. Set context._proxy_manager to enable proxy instrument access.")
  | Some c => c resource_id
  end.

(** ** Resources *)

Definition resource (cx : ContextProxy) (resource_id : string) : ResourceProxy :=
  mkResourceProxy resource_id (cx_step_id cx) false.

Abbreviation RM := (M (ResourceProxy * Context B)).
Definition on_manager {A} (m : M (ResourceManager * B) A) : RM A :=
  zoom (λ s, (ct_rm s.2, ct_bus s.2)) (λ t s, (s.1, mkContext (ct_vars s.2) t.1 t.2)) m.

Definition rp_acquire (timeout : option Z) : RM bool :=
  p <- gets fst ;;
  acquired <- on_manager (zoom fst (λ s w, (s, w.2)) (acquire (rp_resource_id p) (rp_owner_id p) timeout)) ;;
  (when acquired do modify (λ s, (set_acquired true s.1, s.2))) ;;;
  ret acquired.
Definition rp_release : RM unit :=
  p <- gets fst ;;
  when rp_acquired p do
    (on_manager (ResourceManager.release (rp_resource_id p) (rp_owner_id p)) ;;;
     modify (λ s, (set_acquired false s.1, s.2))).
Definition rp_is_available (s : ResourceProxy * Context B) : bool :=
  is_available (ct_rm s.2) (rp_resource_id s.1).

(** [with proxy: body]; what [__exit__] raises replaces what the body raised. *)
Definition with_resource {A} (body : RM A) : RM A :=
  rp_acquire None ;;;
  λ s, let '(r, s1) := body s in
       match rp_release s1 with
       | (Ok _, s2) => (r, s2)
       | (Raise e, s2) => (Raise e, s2)
       end.

(** ** Names *)

Lemma prefix_spec p s : String.prefix p s = true ↔ ∃ t, s = p +:+ t.
Proof.
  revert s. induction p as [|a p IH]; intros s.
  - split; [intros _; by exists s|]. by destruct s.
  - destruct s as [|b s]; cbn.
    + split; [done|]. intros [t Ht]. by rewrite str_app_cons in Ht.
    + destruct (ascii_dec a b) as [->|Hab].
      * rewrite IH. split; intros [t Ht]; exists t; rewrite ?str_app_cons in *; congruence.
      * split; [done|]. intros [t Ht]. rewrite str_app_cons in Ht. congruence.
Qed.

Lemma own_name step_id key : own_prefix step_id +:+ key = "steps" +:+ String dot (step_id +:+ String dot key).
Proof. unfold own_prefix. rewrite !str_app_assoc. done. Qed.

(** A name under the prefix of a step is an address of the step scope. *)
Lemma own_addr step_id key : ∃ i k, parse_addr (own_prefix step_id +:+ key) = Some (ASteps i k).
Proof.
  rewrite own_name. unfold parse_addr.
  assert (cut ("steps" +:+ String dot (step_id +:+ String dot key)) =
    Some ("steps", step_id +:+ String dot key)) as -> by (by apply cut_spec).
  cbn. rewrite decide_False, decide_True by done.
  destruct (cut (step_id +:+ String dot key)) as [[i k]|] eqn:E; [by exists i, k|].
  apply cut_None in E. rewrite free_of_app in E. apply andb_true_iff in E as [_ E]. done.
Qed.

Lemma target_own cx name full key :
  target cx name = Ok (full, key) → ∃ k, full = own_prefix (cx_step_id cx) +:+ k.
Proof.
  unfold target. destruct (free_of dot name).
  - destruct (_ || _); [|done]. intros [= <- <-]. by exists name.
  - destruct (negb (bool_decide _)); [done|]. destruct (String.prefix _ _) eqn:E; [|done].
    intros [= <- <-]. by apply prefix_spec.
Qed.

(** ** Writing *)

Lemma setitem_spec now name v cx (c : Context B) :
  let '(r, (cx', c')) := setitem now name v (cx, c) in
  match target cx name with
  | Raise e => r = Raise e ∧ (∃ m, e = ValueError m) ∧ cx' = cx ∧ c' = c
  | Ok (full, key) =>
      r = Ok tt ∧ (∃ k, full = own_prefix (cx_step_id cx) +:+ k) ∧
      (∀ n d, vs_get (ct_vars c') n d = if decide (n = full) then v else vs_get (ct_vars c) n d) ∧
      cx_outputs cx' = <[key := v]> (cx_outputs cx) ∧ cx_step_id cx' = cx_step_id cx ∧
      ct_rm c' = ct_rm c
  end.
Proof.
  unfold setitem. cbv [bind gets lift]. cbn [fst].
  destruct (target cx name) as [[full key]|e] eqn:Et.
  - destruct (target_own _ _ _ _ Et) as [k Hk]. cbv [ret in_vars zoom modify]. cbn [fst snd].
    pose proof (set_then_get now full v (ct_vars c) (ct_bus c)) as Hset.
    destruct (own_addr (cx_step_id cx) k) as (i & j & Ha). rewrite <-Hk in Ha. rewrite Ha in Hset.
    cbn [mbind option_bind writable] in Hset.
    destruct (vs_set now full v (ct_vars c, ct_bus c)) as [r [vs' b']]. destruct Hset as (-> & Hg & _).
    cbn. split_and!; [done|by exists k|done..].
  - cbv [raise]. split_and!; try done. unfold target in Et. repeat case_match; simplify_eq; eauto.
Qed.

(** An assignment through the proxy writes at most one variable, one of the step's own: it is
    refused with ValueError, and nothing changes, or the variable reads back the value, every
    other variable of every scope keeps its value, the output is recorded and the resources are
    untouched. *)
Theorem setitem_contract now name v cx (c : Context B) :
  let '(r, (cx', c')) := setitem now name v (cx, c) in
  match target cx name with
  | Raise e => r = Raise e ∧ (∃ m, e = ValueError m) ∧ cx' = cx ∧ c' = c
  | Ok (full, key) =>
      r = Ok tt ∧ (∃ k, full = own_prefix (cx_step_id cx) +:+ k) ∧
      (∀ n d, vs_get (ct_vars c') n d = if decide (n = full) then v else vs_get (ct_vars c) n d) ∧
      cx_outputs cx' = <[key := v]> (cx_outputs cx) ∧ cx_step_id cx' = cx_step_id cx ∧
      ct_rm c' = ct_rm c
  end.
Proof. apply setitem_spec. Qed.

(** What a script does with its proxy, catching what it raises. *)
Inductive proxy_op : Type :=
  | Assign (now : Z) (name : string) (v : pyval)
  | DeclareOutput (name : string).
Definition run_op (op : proxy_op) (s : ContextProxy * Context B) : ContextProxy * Context B :=
  match op with
  | Assign now name v => (setitem now name v s).2
  | DeclareOutput name => (declare_output name s).2
  end.
Definition run_ops (l : list proxy_op) (s : ContextProxy * Context B) : ContextProxy * Context B :=
  foldl (λ s op, run_op op s) s l.

Lemma run_op_frame op s n d :
  (∀ k, n ≠ own_prefix (cx_step_id s.1) +:+ k) →
  cx_step_id (run_op op s).1 = cx_step_id s.1 ∧
  vs_get (ct_vars (run_op op s).2) n d = vs_get (ct_vars s.2) n d ∧
  ct_rm (run_op op s).2 = ct_rm s.2.
Proof.
  intros Hn. destruct op as [now name v|name]; [|done]. destruct s as [cx c]. cbn [run_op fst snd] in *.
  pose proof (setitem_spec now name v cx c) as Hs. destruct (setitem now name v (cx, c)) as [r [cx' c']].
  cbn [fst snd]. destruct (target cx name) as [[full key]|e].
  - destruct Hs as (_ & [k Hk] & Hg & _ & Hid & Hrm). split_and!; [done| |done].
    rewrite Hg, decide_False; [done|]. intros ->. by apply (Hn k).
  - by destruct Hs as (_ & _ & -> & ->).
Qed.
Lemma run_ops_frame l s n d :
  (∀ k, n ≠ own_prefix (cx_step_id s.1) +:+ k) →
  vs_get (ct_vars (run_ops l s).2) n d = vs_get (ct_vars s.2) n d ∧ ct_rm (run_ops l s).2 = ct_rm s.2.
Proof.
  revert s. induction l as [|op l IH]; intros s Hn; [done|]. cbn [run_ops foldl].
  destruct (run_op_frame op s n d Hn) as (Hid & Hg & Hrm).
  destruct (IH (run_op op s)) as [Hg' Hrm']; [by rewrite Hid|].
  split; [by rewrite <-Hg|by rewrite <-Hrm].
Qed.

Lemma own_prefix_inj a b k k' :
  free_of dot a = true → free_of dot b = true → own_prefix a +:+ k = own_prefix b +:+ k' → a = b.
Proof.
  intros Ha Hb. rewrite !own_name. intros E%str_app_inj_l. injection E as E.
  assert (cut (a +:+ String dot k) = Some (a, k)) as H1 by (by apply cut_spec).
  assert (cut (b +:+ String dot k') = Some (b, k')) as H2 by (by apply cut_spec).
  rewrite E in H1. congruence.
Qed.

(** Steps are isolated: whatever a script assigns and declares through the proxy of a step, the
    variables of the other scopes, those of every step with another id, and the resources stay as
    they are; ids without a dot are assumed, since the dots of an id cannot be told from those of
    a variable name. *)
Theorem step_isolation l cx (c : Context B) n d :
  (∀ k, n = own_prefix (cx_step_id cx) +:+ k → False) ∨
  (∃ other k, n = own_prefix other +:+ k ∧ other ≠ cx_step_id cx ∧
    free_of dot other = true ∧ free_of dot (cx_step_id cx) = true) →
  vs_get (ct_vars (run_ops l (cx, c)).2) n d = vs_get (ct_vars c) n d ∧
  ct_rm (run_ops l (cx, c)).2 = ct_rm c.
Proof.
  intros Hn. apply (run_ops_frame l (cx, c)). cbn [fst]. intros k ->.
  destruct Hn as [Hn|(other & k' & Hk & Hne & Ho & Hs)]; [by eapply Hn|].
  apply Hne. symmetry. eapply own_prefix_inj; [exact Hs|exact Ho|exact Hk].
Qed.

(** ** Resources in a with statement *)

(** What a body leaves alone: its proxy and the resource. *)
Definition leaves_resource {A} (r : string) (body : RM A) : Prop :=
  ∀ s, rm_quiet (ct_rm s.2) → rm_quiet (ct_rm (body s).2.2) ∧ (body s).2.1 = s.1 ∧
    rm_owners (ct_rm (body s).2.2) !! r = rm_owners (ct_rm s.2) !! r.

Lemma rp_acquire_eq p (c : Context B) timeout :
  rp_acquire timeout (p, c) =
  let '(x, m) := acquire (rp_resource_id p) (rp_owner_id p) timeout (ct_rm c) in
  (x, (match x with Ok true => set_acquired true p | _ => p end, mkContext (ct_vars c) m (ct_bus c))).
Proof.
  unfold rp_acquire, on_manager, zoom. cbv [bind gets modify ret]. cbn [fst snd].
  destruct (acquire _ _ timeout (ct_rm c)) as [[[]|e] m]; done.
Qed.
Lemma rp_release_held p (c : Context B) :
  rp_acquired p = true →
  rp_release (p, c) =
  let '(x, (m, b)) := ResourceManager.release (rp_resource_id p) (rp_owner_id p) (ct_rm c, ct_bus c) in
  (x, (match x with Ok _ => set_acquired false p | _ => p end, mkContext (ct_vars c) m b)).
Proof.
  intros Hp. unfold rp_release, on_manager, zoom. cbv [bind gets modify ret]. cbn [fst snd]. rewrite Hp.
  destruct (ResourceManager.release _ _ _) as [[[]|e] [m b]]; done.
Qed.

(** A with statement on a resource: when the resource is free the body runs as its owner, the
    resource is free again afterwards and the result is the body's, also when it raises; when the
    step already owns it ResourceAcquireError is raised and the body does not run; but when
    another step owns it the body runs all the same, without the resource. *)
Theorem with_resource_contract {A} (body : RM A) cx (c : Context B) r :
  rm_quiet (ct_rm c) → leaves_resource r body →
  let p := resource cx r in
  let '(x, (p', c')) := with_resource body (p, c) in
  rm_quiet (ct_rm c') ∧ rp_acquired p' = false ∧
  match rm_owners (ct_rm c) !! r with
  | None => ∃ c1, rm_owners (ct_rm c1) !! r = Some (cx_step_id cx) ∧
      x = (body (set_acquired true p, c1)).1 ∧ is_available (ct_rm c') r = true
  | Some o =>
      rm_owners (ct_rm c') !! r = Some o ∧
      if decide (o = cx_step_id cx) then ∃ m, x = Raise (ResourceAcquireError m)
      else ∃ c1, rm_owners (ct_rm c1) !! r = Some o ∧ x = (body (p, c1)).1
  end.
Proof.
  intros Hq Hbody p. unfold with_resource, bind. rewrite rp_acquire_eq. cbn [rp_resource_id rp_owner_id resource p].
  pose proof (acquire_contract r (cx_step_id cx) None (ct_rm c) Hq) as Ha.
  destruct (acquire r (cx_step_id cx) None (ct_rm c)) as [y m]. destruct Ha as [Hqm Ha].
  destruct (rm_owners (ct_rm c) !! r) as [o|] eqn:Eo.
  - destruct Ha as [Hm Hy]. case_decide as Ho.
    + subst y. split_and!; [done|done|by rewrite <-Eo; f_equal|eauto].
    + subst y. set (c1 := mkContext (ct_vars c) m (ct_bus c)).
      specialize (Hbody (p, c1) Hqm). destruct (body (p, c1)) as [x [p2 c2]] eqn:Eb. cbn [fst snd] in Hbody.
      destruct Hbody as (Hq2 & -> & Ho2). unfold rp_release. cbv [bind gets]. cbn.
      assert (rm_owners (ct_rm c2) !! r = Some o) as E2 by (rewrite Ho2; cbn; by rewrite Hm).
      split_and!; [done|done|done|]. exists c1. rewrite Eb. cbn. by rewrite Hm.
  - destruct Ha as [-> Hm]. set (c1 := mkContext (ct_vars c) m (ct_bus c)). set (p1 := set_acquired true _).
    specialize (Hbody (p1, c1) Hqm). destruct (body (p1, c1)) as [x [p2 c2]] eqn:Eb. cbn [fst snd] in Hbody.
    destruct Hbody as (Hq2 & -> & Ho2). cbn in Ho2. rewrite Hm, dict_lookup_insert_eq in Ho2.
    rewrite rp_release_held by done. change (rp_resource_id p1) with r. change (rp_owner_id p1) with (cx_step_id cx).
    pose proof (release_contract r (cx_step_id cx) (ct_rm c2) (ct_bus c2) Hq2) as Hr.
    destruct (ResourceManager.release r (cx_step_id cx) (ct_rm c2, ct_bus c2)) as [z [m2 b2]].
    rewrite decide_True in Hr by done. destruct Hr as (Hq3 & -> & _ & Hav & _).
    split_and!; [done|done|]. exists c1. cbn. rewrite Hm, dict_lookup_insert_eq, Eb. done.
Qed.
End proxy.

(** ** Examples *)

Definition empty_context : Context (list (EventType * EventData)) :=
  mkContext (vs_init false) (rm_init false) [].
Definition held_by_other : Context (list (EventType * EventData)) :=
  mkContext (vs_init false) (mkRM (<["DMM" := true]> ∅) (<["DMM" := "other"]> ∅) false) [].

(** With declared outputs a bare name outside them is refused; the same variable under its full
    name is not. *)
Example undeclared_by_full_name :
  (measure ["v"] (setitem 0 "hidden" (PyInt 1)) (new_proxy "s1", empty_context)).1 =
    Raise (ValueError "Cannot write to undeclared output 'hidden'. Declared outputs: ['v']") ∧
  (measure ["v"] (setitem 0 "steps.s1.hidden" (PyInt 1)) (new_proxy "s1", empty_context)).1 = Ok tt.
Proof. vm_compute. split; reflexivity. Qed.

(** Two outputs with one last segment share their entry of the outputs. *)
Example outputs_collide :
  cx_outputs (run_ops [Assign 0 "steps.s1.a.v" (PyInt 1); Assign 0 "steps.s1.b.v" (PyInt 2)]
    (new_proxy "s1", empty_context)).1 = PyDict [("v", PyInt 2)].
Proof. vm_compute. reflexivity. Qed.

(** The variable "x" of a step "a.b" is a variable "b.x" of the step "a". *)
Example dotted_id_shares_variables :
  vs_get (ct_vars (run_ops [Assign 0 "steps.a.b.x" (PyInt 1)] (new_proxy "a", empty_context)).2)
    "steps.a.b.x" PyNone = PyInt 1 ∧
  target (new_proxy "a.b") "x" = Ok ("steps.a.b.x", "x").
Proof. vm_compute. split; reflexivity. Qed.

Definition script : list proxy_op := [Assign 0 "v" (PyInt 3); DeclareOutput "v"; Assign 0 "steps.s2.w" (PyInt 4)].
Lemma step_isolation_witness :
  vs_get (ct_vars (run_ops script (new_proxy "s1", empty_context)).2) "steps.s2.w" PyNone =
  vs_get (ct_vars empty_context) "steps.s2.w" PyNone.
Proof.
  refine (proj1 (step_isolation script (new_proxy "s1") empty_context "steps.s2.w" PyNone _)).
  right. exists "s2", "w". split; [reflexivity|]. split; [discriminate|]. split; reflexivity.
Defined.

Definition use_it : M (ResourceProxy * Context (list (EventType * EventData))) (option string) :=
  gets (λ s, rm_owners (ct_rm s.2) !! "DMM").
(** The body runs while another step owns the instrument. *)
Lemma with_resource_contract_witness :
  rm_owners (ct_rm (with_resource use_it (resource (new_proxy "s1") "DMM", held_by_other)).2.2) !! "DMM"
    = Some "other" ∧
  (with_resource use_it (resource (new_proxy "s1") "DMM", held_by_other)).1 = Ok (Some "other").
Proof.
  assert (rm_quiet (ct_rm held_by_other)) as Hq.
  { intros r. cbn [ct_rm held_by_other rm_locks rm_owners]. rewrite get_default_insert, has_key_insert.
    case_decide; subst; [by rewrite bool_decide_true|]. by rewrite bool_decide_false. }
  split; [|vm_compute; reflexivity].
  pose proof (with_resource_contract use_it (new_proxy "s1") held_by_other "DMM" Hq
    (λ s Hs, conj Hs (conj eq_refl eq_refl))) as H. cbv zeta in H.
  destruct (with_resource use_it (resource (new_proxy "s1") "DMM", held_by_other)) as [x [p' c']].
  exact (proj1 (proj2 (proj2 H))).
Defined.
