(* ===== verification/Watchdog.v ===== *)
(** * The watchdog (scheduler/watchdog.py)

    One pass of [_watchdog_loop] over the world it watches: [beat] reads the heartbeat
    counter, [emit] publishes on the bus (if there is one), [shutdown] is the emergency
    callback (if there is one). The end of the file plugs in the scheduler. *)

From S2P Require Import Prelude PyDict PyStr Types EventBus ResourceManager ConditionEvaluator StepRegistry UutSync EdgeBreakpoints StateSnapshot VariableSpace Scheduler Dispatch.

Definition HEARTBEAT_LOST_THRESHOLD : Z := 3.
Definition DEADLOCK_THRESHOLD : Z := 100.

Record WatchDog : Type := mkDog {
  wd_interval : Z;
  wd_running : bool;
  wd_stop : bool;                              (* the stop event *)
  wd_last : Z;                                 (* [_last_heartbeat] *)
  wd_misses : Z;
  wd_no_progress : Z;
  wd_last_progress : Z
}.

(** [__init__] *)
Definition new_watchdog (interval : Z) : WatchDog := mkDog interval false false 0 0 0 0.

Section watchdog.
Context {W : Type} (beat : W → Z) (emit : option (EventType → EventData → W → W))
    (shutdown : option (M W unit)).

(** [start], up to the creation of the task. *)
Definition watchdog_start (w : W) (d : WatchDog) : WatchDog :=
  if wd_running d then d
  else mkDog (wd_interval d) true false (beat w) 0 0 (beat w).

(** [stop], up to the wait for the task. *)
Definition watchdog_stop (d : WatchDog) : WatchDog :=
  if wd_running d
  then mkDog (wd_interval d) false true (wd_last d) (wd_misses d) (wd_no_progress d)
    (wd_last_progress d)
  else d.

Definition watchdog_publish (t : EventType) (data : EventData) (w : W) : W :=
  match emit with Some f => f t data w | None => w end.

(** The callback's exceptions are logged and dropped. *)
Definition call_shutdown (w : W) : W :=
  match shutdown with Some m => (m w).2 | None => w end.

Definition handle_heartbeat_lost (d : WatchDog) (w : W) : W :=
  call_shutdown
  (watchdog_publish HEARTBEAT_LOST (HeartbeatLostData (wd_last d) (wd_misses d) (wd_interval d)) w).

Definition handle_deadlock (d : WatchDog) (w : W) : WatchDog * W :=
  let w1 := watchdog_publish DEADLOCK_DETECTED (DeadlockDetectedData [] (wd_no_progress d)) w in
  (mkDog (wd_interval d) (wd_running d) (wd_stop d) (wd_last d) (wd_misses d) 0 (beat w1), w1).

(** The body of the loop. *)
Definition watchdog_check (d : WatchDog) (w : W) : WatchDog * W :=
  let current := beat w in
  if (current =? wd_last d)%Z then
    let d1 := mkDog (wd_interval d) (wd_running d) (wd_stop d) (wd_last d)
    (wd_misses d + 1) (wd_no_progress d + 1) (wd_last_progress d) in
    let w1 := if (HEARTBEAT_LOST_THRESHOLD <=? wd_misses d1)%Z
    then handle_heartbeat_lost d1 w else w in
    if (DEADLOCK_THRESHOLD <=? wd_no_progress d1)%Z then handle_deadlock d1 w1 else (d1, w1)
  else
    (mkDog (wd_interval d) (wd_running d) (wd_stop d) current 0 0 current, w).

(** Does the loop go on at its top: [while self._running and not stop.is_set()]? *)
Definition watchdog_goes_on (d : WatchDog) : bool := wd_running d && negb (wd_stop d).

(** The loop over successive wake-ups: before each check the rest of the system has
    run, for one interval, as the list says. *)
Fixpoint watchdog_loop (others : list (W → W)) (d : WatchDog) (w : W) : WatchDog * W :=
  match others with
  | [] => (d, w)
  | u :: others' =>
      if watchdog_goes_on d then
        let '(d', w') := watchdog_check d (u w) in watchdog_loop others' d' w'
      else (d, w)
  end.

(** ** What it promises

    One number decides every alarm: the checks in a row that read the same heartbeat. *)
Definition alarms (last interval : Z) (k : Z) (w : W) : W :=
  let w1 :=
  if (3 <=? k)%Z
  then call_shutdown (watchdog_publish HEARTBEAT_LOST (HeartbeatLostData last k interval) w)
  else w in
  if ((0 <? k) && (k mod 100 =? 0))%Z
  then watchdog_publish DEADLOCK_DETECTED (DeadlockDetectedData [] 100) w1 else w1.

Fixpoint watching (interval : Z) (others : list (W → W)) (last k : Z) (w : W) : Z * Z * W :=
  match others with
  | [] => (last, k, w)
  | u :: others' =>
      let h := beat (u w) in
      let k' := if (h =? last)%Z then (k + 1)%Z else 0%Z in
      watching interval others' h k' (alarms h interval k' (u w))
  end.

(** The two counters hold that number, whole and modulo 100. *)
Definition counts (interval last k : Z) (d : WatchDog) : Prop :=
  wd_interval d = interval ∧ watchdog_goes_on d = true ∧ wd_last d = last ∧ (0 ≤ k)%Z ∧
  wd_misses d = k ∧ wd_no_progress d = (k mod 100)%Z.

Lemma mod_100_next k :
  (0 ≤ k)%Z →
  ((k + 1) mod 100 = if (100 <=? k mod 100 + 1) then 0 else k mod 100 + 1)%Z.
Proof.
  intros Hk. pose proof (Z.mod_pos_bound k 100 ltac:(lia)).
  rewrite (Z.div_mod k 100) at 1 by lia.
  destruct (Z.leb_spec 100 (k mod 100 + 1)).
  - replace (100 * (k / 100) + k mod 100 + 1)%Z with ((k / 100 + 1) * 100)%Z by lia.
    by apply Z_mod_mult.
  - replace (100 * (k / 100) + k mod 100 + 1)%Z with (k mod 100 + 1 + (k / 100) * 100)%Z by lia.
    rewrite Z_mod_plus_full. apply Z.mod_small. lia.
Qed.

Lemma check_counts interval last k d w :
  counts interval last k d →
  let h := beat w in
  let k' := if (h =? last)%Z then (k + 1)%Z else 0%Z in
  (watchdog_check d w).2 = alarms h interval k' w ∧
  counts interval h k' (watchdog_check d w).1.
Proof.
  intros (<- & Hgo & <- & Hk & <- & Hn). cbv zeta. unfold watchdog_check.
  destruct (Z.eqb_spec (beat w) (wd_last d)) as [Heq|Hne]; [|by split; [done|repeat split]].
  pose proof (mod_100_next (wd_misses d) Hk) as Hm.
  pose proof (Z.mod_pos_bound (wd_misses d) 100 ltac:(lia)).
  cbn [wd_misses wd_no_progress]. rewrite Hn. unfold alarms.
  unfold DEADLOCK_THRESHOLD, HEARTBEAT_LOST_THRESHOLD, handle_heartbeat_lost.
  rewrite Hm, Heq, (proj2 (Z.ltb_lt 0 (wd_misses d + 1))) by lia.
  destruct (Z.leb_spec 100 (wd_misses d mod 100 + 1)); cbn.
  - replace (wd_misses d mod 100 + 1)%Z with 100%Z by lia.
    split; [done|]. repeat split; try done; lia.
  - rewrite (proj2 (Z.eqb_neq (wd_misses d mod 100 + 1) 0)) by lia.
    split; [done|]. repeat split; try done; lia.
Qed.

(** C29. The watchdog's loop implements its contract, whatever the system does between
    its checks: with [k] the number of consecutive checks, up to this one, that found the
    heartbeat unchanged (starting from the one read at start), a check raises
    [HEARTBEAT_LOST] with [missed_checks = k] and calls the emergency shutdown exactly
    when [k >= 3], raises [DEADLOCK_DETECTED] with [consecutive_scans = 100] exactly when
    [k] is a positive multiple of 100, does nothing else to the system, and the public
    counter [consecutive_misses] is [k]; it never stops by itself. *)
Theorem watchdog_refines_stall_count (others : list (W → W)) (w : W) d :
  wd_running d = false →
  let '(d', w') := watchdog_loop others (watchdog_start w d) w in
  let '(last, k, w'') := watching (wd_interval d) others (beat w) 0 w in
  w' = w'' ∧ wd_last d' = last ∧ wd_misses d' = k ∧ wd_no_progress d' = (k mod 100)%Z ∧
  watchdog_goes_on d' = true.
Proof.
  intros Hr.
  assert (counts (wd_interval d) (beat w) 0 (watchdog_start w d)) as Hc
    by (unfold watchdog_start; rewrite Hr; repeat split; done).
  revert Hc. generalize (watchdog_start w d) as d0. generalize (beat w) as last, 0%Z as k.
  revert w. induction others as [|u others IH]; intros w last k d0 Hc; simpl.
  { destruct Hc as (_ & Hgo & Hl & _ & Hm & Hn). by rewrite Hl, Hm. }
  destruct (check_counts _ _ _ _ (u w) Hc) as [Hw Hc'].
  rewrite (proj1 (proj2 Hc)). destruct (watchdog_check d0 (u w)) as [d1 w1]. simpl in *. subst w1.
  apply (IH _ _ _ _ Hc').
Qed.
End watchdog.

(** ** The watchdog of the scheduler *)

Section scheduler_watchdog.
Context `{SchedulerEnv}.

Definition scheduler_beat (w : World) : Z := heartbeat (w_life w).
Definition scheduler_emit (t : EventType) (d : EventData) (w : World) : World :=
  set_bus (publish t d (w_bus w)) w.
Definition scheduler_shutdown : M World unit := modify emergency_shutdown.

Definition scheduler_check : WatchDog → World → WatchDog * World :=
  watchdog_check scheduler_beat (Some scheduler_emit) (Some scheduler_shutdown).
End scheduler_watchdog.

(** ** A concrete run: a heartbeat that beats once, then stops for four checks. *)

Definition toy_emit (t : EventType) (d : EventData) (w : Z * list (EventType * EventData)) :=
  (w.1, w.2 ++ [(t, d)]).
Definition toy_start : Z * list (EventType * EventData) := (0%Z, []).
Definition toy_beats : list (Z * list (EventType * EventData) → Z * list (EventType * EventData)) :=
  [λ w, ((w.1 + 1)%Z, w.2); id; id; id; id].

Lemma watchdog_refines_stall_count_witness :
  (watchdog_loop fst (Some toy_emit) None toy_beats
     (watchdog_start fst toy_start (new_watchdog 5000)) toy_start).2
  = (1%Z, [(HEARTBEAT_LOST, HeartbeatLostData 1 3 5000); (HEARTBEAT_LOST, HeartbeatLostData 1 4 5000)]).
Proof.
  exact (proj1 (watchdog_refines_stall_count fst (Some toy_emit) None toy_beats toy_start
                  (new_watchdog 5000) eq_refl)).
Defined.
