(* ===== verification/System.v ===== *)
(** * The scheduler at work: every interleaving of its tasks

    The scheduler of [Dispatch.v] composed with the registry, the bus and the
    executors that run the started steps. A system state is a world with two ghost
    lists: the steps in flight (a STEP_STARTED published, no result reported yet), and
    the steps whose result is in the registry but not yet judged by
    [handle_step_result]. *)

From S2P Require Import Prelude PyDict PyStr Types VariableSpace EventBus ResourceManager ConditionEvaluator StepRegistry EdgeBreakpoints UutSync StateSnapshot Scheduler Dispatch.

(** The steps started by the events of a piece of the queue. *)
Definition started_step (o : option Event) : option string :=
  ev ← o; if decide (ev_type ev = STEP_STARTED) then data_step_id (ev_data ev) else None.
Definition started (q : list (option Event)) : list string := omap started_step q.

(** Events foreign components may publish. *)
Definition foreign (t : EventType) : Prop := t ≠ STEP_STATUS_CHANGED ∧ t ≠ STEP_STARTED.

Section system.
Context {E : SchedulerEnv}.

Record Sys : Type := mkSys {
  s_world : World;
  s_flight : list string;
  s_reported : gset string
}.

(** What the scheduler itself runs on the loop: a task or the scan loop. *)
Inductive internal : World → World → Prop :=
  | In_task i t missing w w' :
      w_tasks w !! i = Some t →
      run_task t missing (set_tasks (delete i (w_tasks w)) w) = Some w' → internal w w'
  | In_loop w w' : loop_step w = Some w' → internal w w'.

(** Operations on the bus by its own loop and by foreign components. *)
Inductive bus_change : EventBus → EventBus → Prop :=
  | Bc_publish t d b : foreign t → bus_change b (publish t d b)
  | Bc_publish_sync t d b : foreign t → bus_change b (bus_publish_sync t d b)
  | Bc_scheduled b : bus_change b (run_scheduled b)
  | Bc_loop b : bus_change b (set_event_loop b)
  | Bc_env r i b : bus_change b (set_env r i b)
  | Bc_start b : bus_change b (bus_start b)
  | Bc_stop b : bus_change b (bus_stop b).

(** The debugger's and the operator's controls. *)
Inductive control : World → World → Prop :=
  | Co_pause w : control w (pause w).2
  | Co_resume w : control w (resume w).2
  | Co_force w : control w (force_next w).2
  | Co_arm mode target w : control w (arm_step_mode mode target w).2
  | Co_scan w : control w (force_scan w)
  | Co_shutdown w : control w (emergency_shutdown w).

(** Everything else that changes around the scheduler: variables, resources, units,
    breakpoints, the snapshot file, the clock and the worker pool. *)
Definition environment (w w' : World) : Prop :=
  w_plan w' = w_plan w ∧ w_disp w' = w_disp w ∧ w_gate w' = w_gate w ∧ w_life w' = w_life w
  ∧ w_reg w' = w_reg w ∧ w_bus w' = w_bus w ∧ w_tasks w' = w_tasks w
  ∧ w_injector w' = w_injector w.

(** The steps an internal step has started: what it appended to the queue. *)
Definition new_starts (w w' : World) : list string :=
  started (drop (length (eb_queue (w_bus w))) (eb_queue (w_bus w'))).

Inductive sys_step : Sys → Sys → Prop :=
  | Sy_internal w w' f rep :
      internal w w' → sys_step (mkSys w f rep) (mkSys w' (f ++ new_starts w w') rep)
  | Sy_deliver w r w' f rep :
      process_one w_bus set_bus call_handler w = (r, w') →
      sys_step (mkSys w f rep) (mkSys w' f rep)
  | Sy_bus w b' f rep :
      bus_change (w_bus w) b' → sys_step (mkSys w f rep) (mkSys (set_bus b' w) f rep)
  | Sy_control w w' f rep :
      control w w' → sys_step (mkSys w f rep) (mkSys w' f rep)
  | Sy_environment w w' f rep :
      environment w w' → sys_step (mkSys w f rep) (mkSys w' f rep)
  (* an executor marks a started step as running, *)
  | Sy_running w f rep s :
      s ∈ f → sys_step (mkSys w f rep) (mkSys (reg_update s RUNNING w).2 f rep)
  (* reports its result, *)
  | Sy_report w f1 s f2 rep st :
      is_terminal st = true →
      sys_step (mkSys w (f1 ++ s :: f2) rep)
               (mkSys (reg_update s st w).2 (f1 ++ f2) ({[ s ]} ∪ rep))
  (* and has it judged. *)
  | Sy_judge w f rep s st :
      s ∈ rep →
      sys_step (mkSys w f rep) (mkSys (handle_step_result s st w).2 f (rep ∖ {[ s ]})).

(** The scheduler's own callbacks among those a status event is delivered to. *)
Definition own_callbacks (cbs : list string) : list string :=
  base.filter (λ cb, cb ∈ handlers.*2) cbs.
Definition type_callbacks (t : EventType) (b : EventBus) : list string :=
  get_default (Some t) [] (eb_subscribers b) ++ get_default None [] (eb_subscribers b).
(** At most one of them hears status events, and the status handler hears no others:
    what [setup_event_handlers] arranges. *)
Definition wired (b : EventBus) : Prop :=
  length (own_callbacks (type_callbacks STEP_STATUS_CHANGED b)) ≤ 1
    ∧ ∀ t, ON_STATUS ∈ type_callbacks t b → t = STEP_STATUS_CHANGED.

(** A scheduler that has just been started: nothing dispatched, no status event on
    the bus, its handlers subscribed as [setup_event_handlers] does; the plan has no barrier steps and no
    fault injector is configured. *)
Definition fresh (w : World) : Prop :=
  w_tasks w = [] ∧ notified_ready (w_disp w) = ∅ ∧ pending_dispatch (w_disp w) = ∅
    ∧ w_injector w = None ∧ barrier_steps (w_plan w) = ∅
    ∧ (∀ t d, (t, d) ∈ sink_events (w_bus w) → t ≠ STEP_STATUS_CHANGED)
    ∧ wired (w_bus w)
    ∧ dict_wf (sr_steps (w_reg w)).

(** ** The invariant *)

Definition status_of (w : World) (s : string) : option StepStatus := sr_steps (w_reg w) !! s.

(** A terminal status event of a step, as the handler recognises it. *)
Definition is_final (s : string) (e : EventType * EventData) : bool :=
  bool_decide (e.1 = STEP_STATUS_CHANGED) && bool_decide (data_step_id e.2 = Some s)
  && match data_new_status e.2 with
     | Some n => str_in n ["PASSED"; "FAILED"; "SKIPPED"; "ERROR"] | None => false
     end.
Definition finals (s : string) (l : list (EventType * EventData)) : nat :=
  length (base.filter (λ e, is_final s e = true) l).
Definition finals_in (w : World) (s : string) : nat := finals s (sink_events (w_bus w)).

#[local] Arguments finals : simpl never.
#[local] Arguments finals_in : simpl never.

Definition task_step (t : task) : option string :=
  match t with
  | TDispatch s _ | THeld s _ => Some s
  | TBarrier s _ _ _ => Some s
  | TScan => None
  end.
Definition task_steps (l : list task) : list string := omap task_step l.
Definition is_barrier (t : task) : bool := match t with TBarrier _ _ _ _ => true | _ => false end.

(** A step that may still be dispatched: PENDING, or about to be judged. *)
Definition live (w : World) (rep : gset string) (s : string) : Prop :=
  status_of w s = Some PENDING ∨ s ∈ rep.

Definition times (s : string) (l : list string) : nat := length (base.filter (λ x, x = s) l).

Record good (ts f : list string) (rep : gset string) (w : World) : Prop := {
  g_nodup : NoDup f;
  g_flight : ∀ s, s ∈ f → s ∈ notified_ready (w_disp w) ∧ finals_in w s = 0
    ∧ s ∉ rep ∧ s ∉ ts;
  g_rep : ∀ s, s ∈ rep → status_of w s ≠ Some PENDING;
  g_final : ∀ s, live w rep s → finals_in w s = 0
    ∨ (finals_in w s = 1 ∧ s ∈ notified_ready (w_disp w) ∧ s ∉ ts);
  g_task : ∀ s, live w rep s → s ∈ ts → s ∈ pending_dispatch (w_disp w) ∧ times s ts = 1;
  g_injector : w_injector w = None;
  g_barrier : barrier_steps (w_plan w) = ∅;
  g_tasks : ∀ t, t ∈ w_tasks w → is_barrier t = false;
  g_handler : wired (w_bus w);
  g_wf : dict_wf (sr_steps (w_reg w))
}.

(** ** Neutral computations

    [calm l w w']: statuses, terminal events, tasks and configuration are the same, the
    bookkeeping sets only grow, and the queue has grown by events that start [l]. *)
Record calm (l : list string) (w w' : World) : Prop := {
  c_steps : sr_steps (w_reg w') = sr_steps (w_reg w);
  c_notified : notified_ready (w_disp w) ⊆ notified_ready (w_disp w');
  c_pending : pending_dispatch (w_disp w) ⊆ pending_dispatch (w_disp w');
  c_tasks : w_tasks w' = w_tasks w;
  c_injector : w_injector w' = w_injector w;
  c_barrier : barrier_steps (w_plan w') = barrier_steps (w_plan w);
  c_subs : eb_subscribers (w_bus w') = eb_subscribers (w_bus w);
  c_finals : ∀ s, finals_in w' s = finals_in w s;
  c_queue : ∃ q, eb_queue (w_bus w') = eb_queue (w_bus w) ++ q ∧ started q = l
}.

Lemma calm_refl w : calm [] w w.
Proof. split; try done. exists []. by rewrite app_nil_r. Qed.

Lemma calm_trans l1 l2 w1 w2 w3 : calm l1 w1 w2 → calm l2 w2 w3 → calm (l1 ++ l2) w1 w3.
Proof.
  intros [? ? ? ? ? ? ? F1 (q1 & Hq1 & Hs1)] [? ? ? ? ? ? ? F2 (q2 & Hq2 & Hs2)].
  split; [by etrans|by etrans|by etrans|by etrans|by etrans|by etrans|by etrans| |].
  - intros s. by rewrite F2.
  - exists (q1 ++ q2). rewrite Hq2, Hq1, app_assoc. split; [done|].
    unfold started in *. by rewrite omap_app, Hs1, Hs2.
Qed.

Lemma calm_then l w1 w2 w3 : calm l w1 w2 → calm [] w2 w3 → calm l w1 w3.
Proof. intros H1 H2. pose proof (calm_trans _ _ _ _ _ H1 H2) as H. by rewrite app_nil_r in H. Qed.
Lemma calm_after l w1 w2 w3 : calm [] w1 w2 → calm l w2 w3 → calm l w1 w3.
Proof. apply calm_trans. Qed.

(** Changes that stay away from what the invariant reads. *)
Lemma calm_same w w' :
  sr_steps (w_reg w') = sr_steps (w_reg w) →
  notified_ready (w_disp w) ⊆ notified_ready (w_disp w') →
  pending_dispatch (w_disp w) ⊆ pending_dispatch (w_disp w') →
  w_tasks w' = w_tasks w → w_injector w' = w_injector w →
  barrier_steps (w_plan w') = barrier_steps (w_plan w) → w_bus w' = w_bus w → calm [] w w'.
Proof.
  intros ? ? ? ? ? ? Hb. split; rewrite ?Hb; try done.
  - intros s. unfold finals_in. by rewrite Hb.
  - exists []. by rewrite app_nil_r.
Qed.

Lemma finals_perm s l l' : l ≡ₚ l' → finals s l = finals s l'.
Proof. intros H. unfold finals. by rewrite H. Qed.

Lemma finals_cons s e l : finals s (e :: l) = ((if is_final s e then 1 else 0) + finals s l)%nat.
Proof. unfold finals. rewrite filter_cons. by destruct (is_final s e). Qed.

Lemma finals_notify has s t d (b : EventBus) :
  finals s (sink_events (notify has t d b))
  = ((if has && is_final s (t, d) then 1 else 0) + finals s (sink_events b))%nat.
Proof.
  destruct has; [|done]. unfold notify.
  by rewrite (finals_perm _ _ _ (publish_sync_accepts t d b)), finals_cons.
Qed.

Lemma is_final_foreign s t d : t ≠ STEP_STATUS_CHANGED → is_final s (t, d) = false.
Proof. intros H. unfold is_final; cbn. by rewrite bool_decide_false. Qed.

Lemma sink_publish t d b :
  sink_events (publish t d b) ≡ₚ (t, d) :: sink_events b.
Proof. cbn. rewrite queued_publish. solve_Permutation. Qed.

(** Publishing an event that is not a status change. *)
Lemma calm_pub t d w :
  t ≠ STEP_STATUS_CHANGED →
  calm (started [Some (mkEvent t d (get_event_category t))]) w (bus_pub t d w).2.
Proof.
  intros Ht. split; try done.
  - intros s. unfold finals_in. cbn [bus_pub modify snd w_bus set_bus].
    rewrite (finals_perm _ _ _ (sink_publish t d (w_bus w))), finals_cons.
    by rewrite is_final_foreign.
  - eexists. split; reflexivity.
Qed.

Lemma calm_pub_foreign t d w : foreign t → calm [] w (bus_pub t d w).2.
Proof.
  intros [H1 H2]. pose proof (calm_pub t d w H1) as H.
  unfold started in H. cbn in H. by rewrite decide_False in H.
Qed.

(** ** How the invariant is kept *)

Lemma good_calm ts f rep w w' : calm [] w w' → good ts f rep w → good ts f rep w'.
Proof.
  intros [Hs Hn Hp Ht Hi Hb Hu Hf _] [G1 G2 G3 G4 G5 G6 G7 G8 G9 G10].
  unfold live, status_of in *. split; unfold live, status_of, wired, type_callbacks; rewrite ?Hs, ?Ht, ?Hi, ?Hb, ?Hu;
    try done.
  - intros s Hs'. destruct (G2 s Hs') as (? & ? & ? & ?). rewrite Hf. split_and!; auto.
  - intros s Hl. rewrite Hf. destruct (G4 s Hl) as [|(? & ? & ?)]; auto.
  - intros s Hl Hin. destruct (G5 s Hl Hin). auto.
Qed.

#[local] Instance times_proper s : Proper (Permutation ==> eq) (times s).
Proof. intros l l' H. unfold times. by rewrite H. Qed.

Lemma times_cons s x l : times s (x :: l) = ((if decide (x = s) then 1 else 0) + times s l)%nat.
Proof. unfold times. rewrite filter_cons. by case_decide. Qed.

Lemma times_pos s l : s ∈ l ↔ times s l ≠ 0.
Proof.
  induction l as [|x l IH]; [set_solver|]. rewrite times_cons, elem_of_cons.
  case_decide; subst; [split; [lia|by left]|]. rewrite IH. naive_solver.
Qed.

Lemma good_perm ts ts' f rep w : ts ≡ₚ ts' → good ts f rep w → good ts' f rep w.
Proof.
  intros H [G1 G2 G3 G4 G5 G6 G7 G8 G9 G10]. split; try done; intros s; rewrite <-H; eauto.
Qed.

(** A task that is over: its step is then in no other task, if it is live. *)
Lemma good_drop s ts f rep w :
  good (s :: ts) f rep w → good ts f rep w ∧ (live w rep s → s ∉ ts).
Proof.
  intros [G1 G2 G3 G4 G5 G6 G7 G8 G9 G10].
  assert (live w rep s → s ∉ ts) as Hlone.
  { intros Hl Hin. destruct (G5 s Hl ltac:(by left)) as [_ Ht].
    rewrite times_cons, decide_True in Ht by done. apply times_pos in Hin. lia. }
  split; [|done]. split; try done.
  - intros x Hx. destruct (G2 x Hx) as (? & ? & ? & ?). set_solver.
  - intros x Hl. destruct (G4 x Hl) as [|(? & ? & ?)]; [by left|right; set_solver].
  - intros x Hl Hin. destruct (G5 x Hl ltac:(by right)) as [Hp Ht]. split; [done|].
    rewrite times_cons in Ht. case_decide; [|done]. subst. exfalso. by apply Hlone.
Qed.

(** A step that can no longer be dispatched: its bookkeeping is free. *)
Lemma good_dead s ts f rep w w' :
  (∀ x, x ≠ s → status_of w' x = status_of w x) →
  (∀ x, x ≠ s → x ∈ notified_ready (w_disp w) → x ∈ notified_ready (w_disp w')) →
  (∀ x, x ≠ s → x ∈ pending_dispatch (w_disp w) → x ∈ pending_dispatch (w_disp w')) →
  (∀ x, x ≠ s → finals_in w' x = finals_in w x) →
  w_injector w' = w_injector w → barrier_steps (w_plan w') = barrier_steps (w_plan w) →
  w_tasks w' = w_tasks w → eb_subscribers (w_bus w') = eb_subscribers (w_bus w) →
  dict_wf (sr_steps (w_reg w')) →
  status_of w' s ≠ Some PENDING → s ∉ rep → s ∉ f →
  good ts f rep w → good ts f rep w'.
Proof.
  intros Hs Hn Hp Hf Hi Hb Ht Hu Hwf Hdead Hrep Hfl [G1 G2 G3 G4 G5 G6 G7 G8 G9 G10].
  assert (∀ x, live w' rep x → x ≠ s ∧ live w rep x) as Hlive.
  { intros x Hl. assert (x ≠ s) as Hne by (intros ->; by destruct Hl).
    split; [done|]. unfold live in *. by rewrite <-Hs. }
  split; unfold wired, type_callbacks; rewrite ?Hi, ?Hb, ?Ht, ?Hu; try done.
  - intros x Hx. destruct (G2 x Hx) as (? & ? & ? & ?).
    assert (x ≠ s) by (by intros ->). rewrite Hf by done. auto.
  - intros x Hx. rewrite Hs by (by intros ->). auto.
  - intros x [Hne Hl]%Hlive. rewrite Hf by done. destruct (G4 x Hl) as [|(? & ? & ?)]; auto.
  - intros x [Hne Hl]%Hlive Hin. destruct (G5 x Hl Hin). auto.
Qed.

Lemma good_spawn x t ts f rep w w' :
  x ∉ notified_ready (w_disp w) → x ∉ pending_dispatch (w_disp w) → is_barrier t = false →
  sr_steps (w_reg w') = sr_steps (w_reg w) → w_bus w' = w_bus w →
  notified_ready (w_disp w') = notified_ready (w_disp w) →
  pending_dispatch (w_disp w') = {[ x ]} ∪ pending_dispatch (w_disp w) →
  w_injector w' = w_injector w → w_plan w' = w_plan w → w_tasks w' = w_tasks w ++ [t] →
  good ts f rep w → good (ts ++ [x]) f rep w'.
Proof.
  intros Hn Hp Hbar Hs Hb HN HP Hi Hpl Ht [G1 G2 G3 G4 G5 G6 G7 G8 G9 G10].
  assert (∀ s, finals_in w' s = finals_in w s) as Hf by (intros; unfold finals_in; by rewrite Hb).
  unfold live, status_of in *.
  split; unfold live, status_of, wired, type_callbacks; rewrite ?Hs, ?Hi, ?Hpl, ?Hb, ?HN, ?HP; try done.
  - intros s Hs'. rewrite Hf. destruct (G2 s Hs') as (? & ? & ? & ?). split_and!; try done.
    rewrite not_elem_of_app, list_elem_of_singleton. split; [done|by intros ->].
  - intros s Hl. rewrite Hf. destruct (G4 s Hl) as [|(? & ? & ?)]; [by left|right].
    split_and!; try done. rewrite not_elem_of_app, list_elem_of_singleton.
    split; [done|by intros ->].
  - intros s Hl Hin. assert (times s (ts ++ [x]) = times s (x :: ts)) as ->
      by by rewrite <-Permutation_cons_append.
    rewrite times_cons. case_decide as Hx.
    + subst. split; [set_solver|].
      destruct (decide (s ∈ ts)) as [Hin'|Hin']; [by destruct (G5 s Hl Hin')|].
      rewrite times_pos in Hin'. lia.
    + apply elem_of_app in Hin as [Hin| ->%list_elem_of_singleton]; [|done].
      destruct (G5 s Hl Hin). set_solver.
  - intros t'. rewrite Ht, elem_of_app, list_elem_of_singleton. intros [?| ->]; auto.
Qed.

(** A step is started. *)
Lemma good_start s ts f rep w w' :
  calm [s] w w' → s ∈ notified_ready (w_disp w') → status_of w s = Some PENDING →
  finals_in w s = 0 → s ∉ f → s ∉ ts → good ts f rep w → good ts (f ++ [s]) rep w'.
Proof.
  intros [Hs Hn Hp Ht Hi Hb Hu Hf _] Hnot Hst Hfin Hfl Hts [G1 G2 G3 G4 G5 G6 G7 G8 G9 G10].
  unfold live, status_of in *. split; unfold live, status_of, wired, type_callbacks; rewrite ?Hs, ?Ht, ?Hi, ?Hb, ?Hu;
    try done.
  - apply NoDup_app. split_and!; [done| |apply NoDup_singleton].
    intros x Hx ->%list_elem_of_singleton. done.
  - intros x [Hx| ->%list_elem_of_singleton]%elem_of_app; rewrite Hf.
    + destruct (G2 x Hx) as (? & ? & ? & ?). auto.
    + split_and!; try done. intros Hr. by apply (G3 s).
  - intros x Hl. rewrite Hf. destruct (G4 x Hl) as [|(? & ? & ?)]; auto.
  - intros x Hl Hin. destruct (G5 x Hl Hin). auto.
Qed.

(** ** The invariant along a computation *)

(** [cur] is the step of the task that runs, [q0] the length of the queue and [f0] the
    steps in flight when the computation began. *)
Definition inv (cur : list string) (q0 : nat) (f0 : list string) (rep : gset string)
    (w : World) : Prop :=
  q0 ≤ length (eb_queue (w_bus w))
  ∧ good (cur ++ task_steps (w_tasks w)) (f0 ++ started (drop q0 (eb_queue (w_bus w)))) rep w.

Lemma flight_calm l q0 w w' :
  calm l w w' → q0 ≤ length (eb_queue (w_bus w)) →
  q0 ≤ length (eb_queue (w_bus w'))
  ∧ started (drop q0 (eb_queue (w_bus w'))) = started (drop q0 (eb_queue (w_bus w))) ++ l.
Proof.
  intros [_ _ _ _ _ _ _ _ (q & -> & <-)] Hq. rewrite length_app. split; [lia|].
  rewrite drop_app_le by done. unfold started. by rewrite omap_app.
Qed.

Lemma inv_calm cur q0 f0 rep w w' : calm [] w w' → inv cur q0 f0 rep w → inv cur q0 f0 rep w'.
Proof.
  intros Hc [Hq Hg]. destruct (flight_calm _ _ _ _ Hc Hq) as [Hq' Hf].
  split; [done|]. rewrite Hf, app_nil_r, (c_tasks _ _ _ Hc). by eapply good_calm.
Qed.

Lemma inv_start s cur q0 f0 rep w w' :
  calm [s] w w' → s ∈ notified_ready (w_disp w') → status_of w s = Some PENDING →
  finals_in w s = 0 → s ∉ f0 ++ started (drop q0 (eb_queue (w_bus w))) →
  s ∉ cur ++ task_steps (w_tasks w) → inv cur q0 f0 rep w → inv cur q0 f0 rep w'.
Proof.
  intros Hc ? ? ? ? ? [Hq Hg]. destruct (flight_calm _ _ _ _ Hc Hq) as [Hq' Hf].
  split; [done|]. rewrite Hf, app_assoc, (c_tasks _ _ _ Hc). by eapply good_start.
Qed.

Lemma inv_dead s cur q0 f0 rep w w' :
  (∀ x, x ≠ s → status_of w' x = status_of w x) →
  (∀ x, x ≠ s → x ∈ notified_ready (w_disp w) → x ∈ notified_ready (w_disp w')) →
  (∀ x, x ≠ s → x ∈ pending_dispatch (w_disp w) → x ∈ pending_dispatch (w_disp w')) →
  (∀ x, x ≠ s → finals_in w' x = finals_in w x) →
  w_injector w' = w_injector w → barrier_steps (w_plan w') = barrier_steps (w_plan w) →
  w_tasks w' = w_tasks w → eb_subscribers (w_bus w') = eb_subscribers (w_bus w) →
  eb_queue (w_bus w') = eb_queue (w_bus w) → dict_wf (sr_steps (w_reg w')) →
  status_of w' s ≠ Some PENDING → s ∉ rep →
  s ∉ f0 ++ started (drop q0 (eb_queue (w_bus w))) →
  inv cur q0 f0 rep w → inv cur q0 f0 rep w'.
Proof.
  intros ? ? ? ? ? ? Ht ? Hq' ? ? ? ? [Hq Hg]. unfold inv. rewrite Hq', Ht.
  split; [done|]. by eapply good_dead.
Qed.

(** A computation keeps the invariant, however it ends. *)
Definition keeps {A} (cur : list string) (rep : gset string) (m : M World A) : Prop :=
  ∀ q0 f0, preserves (inv cur q0 f0 rep) m.

Lemma keeps_calm {A} cur rep (m : M World A) : (∀ w, calm [] w (m w).2) → keeps cur rep m.
Proof. intros H q0 f0 w Hw. by eapply inv_calm. Qed.

Lemma calm_modify f : (∀ w, calm [] w (f w)) → ∀ w, calm [] w (modify f w).2.
Proof. intros H w. apply H. Qed.

Lemma schedule_dispatch_keeps cur rep s : keeps cur rep (schedule_dispatch s).
Proof.
  intros q0 f0 w Hw. unfold schedule_dispatch, bind, get.
  destruct (bool_decide _ || bool_decide _) eqn:Eb; [done|].
  apply orb_false_iff in Eb as [Hn%bool_decide_eq_false Hp%bool_decide_eq_false].
  cbn [on_disp modify]. destruct (can_spawn _); cbn.
  - destruct Hw as [Hq Hg]. split; [done|]. unfold task_steps. cbn.
    rewrite omap_app, app_assoc. cbn.
    by eapply (good_spawn s (TDispatch s NotStarted)).
  - eapply inv_calm, Hw. apply calm_same; cbn; try done. set_solver.
Qed.

Lemma schedule_for_key_keeps cur rep k : keeps cur rep (schedule_dispatch_for_key k).
Proof.
  intros q0 f0. unfold schedule_dispatch_for_key. apply preserves_bind; [apply preserves_get|].
  intros w. apply preserves_for_each. intros s. apply schedule_dispatch_keeps.
Qed.

Lemma reg_update_inv s st w old :
  status_of w s = Some old →
  ∃ w', reg_update s st w = (Ok tt, w')
    ∧ sr_steps (w_reg w') = <[s := st]> (sr_steps (w_reg w))
    ∧ (∀ x, finals_in w' x =
         ((if bool_decide (x = s) && sr_has_bus (w_reg w) && bool_decide (old ≠ st)
              && is_terminal st then 1 else 0) + finals_in w x)%nat)
    ∧ w_disp w' = w_disp w ∧ w_plan w' = w_plan w ∧ w_tasks w' = w_tasks w
    ∧ w_injector w' = w_injector w ∧ eb_queue (w_bus w') = eb_queue (w_bus w)
    ∧ eb_subscribers (w_bus w') = eb_subscribers (w_bus w)
    ∧ w_gate w' = w_gate w ∧ sr_has_bus (w_reg w') = sr_has_bus (w_reg w).
Proof.
  intros Hold. unfold reg_update, zoom, update_status. unfold status_of in Hold. rewrite Hold.
  eexists. split; [reflexivity|]. cbn. split_and!; try done.
  - intros x. unfold finals_in. cbn [w_bus set_bus set_reg]. rewrite finals_notify.
    f_equal. unfold is_final. cbn [fst snd data_step_id data_new_status].
    rewrite (bool_decide_true (_ = STEP_STATUS_CHANGED)) by done. cbn [andb].
    assert (bool_decide (Some s = Some x) = bool_decide (x = s)) as ->
      by (apply bool_decide_ext; naive_solver).
    by destruct (bool_decide (old ≠ st)), (bool_decide (x = s)), (sr_has_bus _), st.
  - unfold notify. case_match; [|done]. cbn. unfold bus_publish_sync. by repeat case_match.
  - unfold notify. case_match; [|done]. cbn. unfold bus_publish_sync. by repeat case_match.
Qed.

Lemma status_registered w s st : status_of w s = Some st → s ∈ keys (sr_steps (w_reg w)).
Proof. intros H. apply elem_of_keys. eauto. Qed.

Lemma schedule_steps m k :
  preserves (λ w, sr_steps (w_reg w) = m) (schedule_dispatch_for_key k).
Proof.
  unfold schedule_dispatch_for_key. apply preserves_bind; [apply preserves_get|].
  intros w. apply preserves_for_each. intros s w' Hw. unfold schedule_dispatch, bind, get.
  destruct (_ || _); [done|]. cbn. by destruct (can_spawn _).
Qed.

(** Skipping a PENDING step that is not in flight. *)
Lemma skip_keeps s reason cur q0 f0 rep w :
  status_of w s = Some PENDING → s ∉ f0 ++ started (drop q0 (eb_queue (w_bus w))) →
  inv cur q0 f0 rep w →
  let w' := (handle_step_skipped s reason w).2 in
  inv cur q0 f0 rep w' ∧ ∀ x, x ≠ s → status_of w' x = status_of w x.
Proof.
  intros Hst Hfl Hinv.
  cut (∃ w3, handle_step_skipped s reason w = schedule_dispatch_for_key s w3
    ∧ inv cur q0 f0 rep w3 ∧ ∀ x, x ≠ s → status_of w3 x = status_of w x).
  { intros (w3 & -> & H3 & Hs3). cbn zeta. split; [by apply schedule_for_key_keeps|].
    intros x Hx. unfold status_of. pose proof (schedule_steps _ s w3 eq_refl) as Hk.
    cbv beta in Hk. rewrite Hk. by apply Hs3. }
  unfold handle_step_skipped, update_or_register.
  destruct (reg_update_inv s SKIPPED w PENDING Hst)
    as (w1 & Hu & Hs1 & Hf1 & Hd1 & Hp1 & Ht1 & Hi1 & Hq1 & Hb1 & _).
  unfold try_except. unfold bind at 1. rewrite Hu. cbn [fst snd].
  unfold bind at 1, get at 1. rewrite bind_unit by done. set (w2 := (on_disp _ w1).2).
  assert (inv cur q0 f0 rep w2) as H2.
  { eapply (inv_dead s _ _ _ _ w); try done; subst w2; unfold status_of; cbn.
    - intros x Hx. by rewrite Hs1, dict_lookup_insert_ne.
    - intros x Hx. rewrite Hd1. set_solver.
    - by rewrite Hd1.
    - intros x Hx. unfold finals_in. cbn. change (finals_in w1 x = finals_in w x).
      rewrite Hf1. by rewrite bool_decide_false.
    - by rewrite Hp1.
    - rewrite Hs1. apply dict_wf_insert. by destruct Hinv as [_ [? ? ? ? ? ? ? ? ? ?]].
    - by rewrite Hs1, dict_lookup_insert_eq.
    - intros Hr. destruct Hinv as [_ Hg]. by apply (g_rep _ _ _ _ Hg s). }
  assert (∀ x, x ≠ s → status_of w2 x = status_of w x) as Hs2.
  { intros x Hx. subst w2. unfold status_of; cbn. by rewrite Hs1, dict_lookup_insert_ne. }
  clearbody w2. rewrite bind_unit by done.
  assert (calm [] w2 (bus_pub STEP_SKIPPED (StepSkippedData s (Some reason)) w2).2) as Hc
    by by apply calm_pub_foreign.
  eexists. split; [reflexivity|]. split; [by eapply inv_calm|].
  intros x Hx. unfold status_of. rewrite (c_steps _ _ _ Hc). by apply Hs2.
Qed.

Lemma gate_calm s w : calm [] w (gate_before_dispatch s w).2.
Proof.
  destruct (gate_spec s w) as (g & w' & -> & Hd & Hr & Hp & Ht & _ & _ & _ & Hi & _ & _ & _ & _ & Hg).
  cbn. assert (∀ b, b = w_bus w' → calm [] w (set_bus b w) → calm [] w w') as Hbus.
  { intros b -> [? ? ? ? ? ? ? Hf ?].
    split; rewrite ?Hr, ?Hd, ?Ht, ?Hi, ?Hp; try done. }
  destruct g.
  - destruct Hg as (_ & _ & Hb). eapply Hbus; [by symmetry|].
    destruct w; apply calm_refl.
  - destruct Hg as [_ ->]. apply calm_refl.
  - destruct Hg as (_ & _ & _ & _ & _ & Hb). eapply Hbus; [by symmetry|].
    destruct w; apply calm_refl.
  - destruct Hg as (_ & _ & _ & _ & en & bp & en' & _ & _ & _ & Hb).
    eapply Hbus; [by symmetry|]. by apply (calm_pub_foreign BREAKPOINT_HIT).
Qed.

Lemma claim_calm s w : calm [] w (claim_uut s w).2.
Proof.
  unfold claim_uut, bind, get. repeat case_match; try apply calm_refl.
  cbn. by apply calm_same.
Qed.

Lemma pool_calm c w : calm [] w (check_pool_exhaustion c w).2.
Proof.
  unfold check_pool_exhaustion, bind, get. destruct (negb _); [apply calm_refl|].
  destruct (blocked_by _ _) as [[|r l] hs]; [apply calm_refl|].
  by apply (calm_pub_foreign WORKER_EXHAUSTED).
Qed.

Lemma force_calm w : calm [] w (take_force_next w).2.
Proof.
  unfold take_force_next, bind, get. destruct (force_next_pending _); [|apply calm_refl].
  by apply calm_same.
Qed.

Lemma gate_ok s w : ∃ g, (gate_before_dispatch s w).1 = Ok g.
Proof. destruct (gate_spec s w) as (g & w' & -> & _). by exists g. Qed.

Lemma get_condition_ok s w :
  s ∈ keys (sr_steps (w_reg w)) →
  on_reg (get_condition s) w = (Ok (sr_conditions (w_reg w) !! s), w).
Proof. apply (on_reg_get (λ r, sr_conditions r !! s)). Qed.

Lemma start_barrier_none s w : barrier_steps (w_plan w) = ∅ → start_barrier s w = (Ok Finished, w).
Proof. intros H. unfold start_barrier, bind, get. rewrite H. done. Qed.

Lemma started_one s c :
  started [Some (mkEvent STEP_STARTED (StepStartedData s c) (get_event_category STEP_STARTED))]
  = [s].
Proof. done. Qed.

(** The start of a step by a reactive task: one STEP_STARTED, and the step is
    notified. *)
Lemma start_step_calm s w :
  s ∈ keys (sr_steps (w_reg w)) → barrier_steps (w_plan w) = ∅ →
  ∃ w', start_step s w = (Ok Finished, w') ∧ calm [s] w w'
        ∧ s ∈ notified_ready (w_disp w').
Proof.
  intros Hs Hbar. unfold start_step. unfold bind at 1, get at 1. rewrite bind_unit by done.
  set (w1 := (on_disp _ w).2). assert (calm [] w w1) as H1.
  { apply calm_same; try done. cbn. set_solver. }
  assert (s ∈ notified_ready (w_disp w1)) as Hn1 by (cbn; set_solver).
  rewrite (bind_ok _ _ _ _ _ (get_condition_ok s w1 ltac:(by rewrite (c_steps _ _ _ H1)))).
  clearbody w1. set (c := sr_conditions (w_reg w1) !! s).
  assert ((check_pool_exhaustion c w1).1 = Ok tt) as Hp.
  { unfold check_pool_exhaustion, bind, get. repeat case_match; done. }
  rewrite (bind_unit _ _ _ Hp). pose proof (pool_calm c w1) as H2.
  set (w2 := (check_pool_exhaustion c w1).2) in *. clearbody w2.
  assert ((claim_uut s w2).1 = Ok tt) as Hc.
  { unfold claim_uut, bind, get. repeat case_match; done. }
  rewrite (bind_unit _ _ _ Hc). pose proof (claim_calm s w2) as H3.
  set (w3 := (claim_uut s w2).2) in *. clearbody w3.
  rewrite bind_unit by done.
  pose proof (calm_pub STEP_STARTED (StepStartedData s (condition_str <$> c)) w3 ltac:(done)) as H4.
  rewrite started_one in H4. set (w4 := (bus_pub _ _ w3).2) in *. clearbody w4.
  rewrite bind_unit by done. set (w5 := (on_gate _ w4).2).
  assert (calm [] w4 w5) as H5 by by apply calm_same. clearbody w5.
  assert (calm [s] w w5) as Hall.
  { eapply calm_then, H5. eapply calm_after, H4.
    exact (calm_then _ _ _ _ (calm_then _ _ _ _ H1 H2) H3). }
  rewrite start_barrier_none by (by rewrite (c_barrier _ _ _ Hall)).
  exists w5. split_and!; [done|done|].
  by apply (c_notified _ _ _ H5), (c_notified _ _ _ H4), (c_notified _ _ _ H3), (c_notified _ _ _ H2).
Qed.

(** ** The reactive path keeps the invariant *)

(** The running task is over: the invariant holds without it, and its step has no
    other task while it is live. *)
Definition over (s : string) (cur : list string) (q0 : nat) (f0 : list string)
    (rep : gset string) (w : World) : Prop :=
  inv cur q0 f0 rep w ∧ (live w rep s → s ∉ cur ++ task_steps (w_tasks w)).

Lemma inv_over s cur q0 f0 rep w : inv (s :: cur) q0 f0 rep w → over s cur q0 f0 rep w.
Proof. intros [Hq [Hg Hl]%good_drop]. by split. Qed.

Lemma inv_cur_fresh s cur q0 f0 rep w :
  inv (s :: cur) q0 f0 rep w → s ∉ f0 ++ started (drop q0 (eb_queue (w_bus w))).
Proof.
  intros [_ Hg] Hin. destruct (g_flight _ _ _ _ Hg s Hin) as (_ & _ & _ & Hn). apply Hn. by left.
Qed.

(** The outcomes of a task body that leave nothing behind. *)
Definition done_with (r : res outcome) : Prop := r = Ok Finished ∨ ∃ e, r = Raise e.

Lemma fault_none s w : w_injector w = None → check_scheduler_fault s w = (Ok false, w).
Proof. intros H. unfold check_scheduler_fault, bind, get. by rewrite H. Qed.

Lemma dispatch_ready_over s cur q0 f0 rep w :
  status_of w s = Some PENDING → inv (s :: cur) q0 f0 rep w →
  let '(r, w') := dispatch_ready s w in done_with r ∧ over s cur q0 f0 rep w'.
Proof.
  intros Hst Hinv. unfold dispatch_ready. unfold bind at 1, get.
  destruct (negb (can_schedule w s)).
  { split; [by left|by apply inv_over]. }
  pose proof (inv_cur_fresh _ _ _ _ _ _ Hinv) as Hfresh.
  destruct (inv_over _ _ _ _ _ _ Hinv) as [Hcur Hlone]. destruct Hinv as [_ Hg].
  rewrite (bind_ok _ _ _ _ _ (fault_none s w (g_injector _ _ _ _ Hg))).
  destruct (start_step_calm s w) as (w' & -> & Hc & Hn).
  { by eapply status_registered. }
  { exact (g_barrier _ _ _ _ Hg). }
  split; [by left|].
  assert (inv cur q0 f0 rep w') as Hinv'.
  { eapply inv_start; try done; [|by apply Hlone; left].
    destruct (g_final _ _ _ _ Hg s ltac:(by left)) as [|(_ & _ & Hn')]; [done|].
    exfalso. apply Hn'. by left. }
  split; [done|]. intros _. destruct Hinv' as [_ Hg'].
  destruct (flight_calm _ q0 _ _ Hc (proj1 Hcur)) as [_ Hf].
  apply (g_flight _ _ _ _ Hg' s). rewrite Hf, app_assoc. apply elem_of_app. right. by left.
Qed.

Lemma dispatch_open_over s cur q0 f0 rep w :
  inv (s :: cur) q0 f0 rep w →
  let '(r, w') := dispatch_open s w in done_with r ∧ over s cur q0 f0 rep w'.
Proof.
  intros Hinv. unfold dispatch_open. unfold bind at 1, get at 1.
  destruct (sr_steps (w_reg w) !! s) as [st|] eqn:Est; [|split; [by left|by apply inv_over]].
  destruct (bool_decide (st = PENDING)) eqn:Ep; cbn [negb]; [|split; [by left|by apply inv_over]].
  apply bool_decide_eq_true in Ep as ->.
  assert (∃ b, (take_force_next w).1 = Ok b) as [b Hb].
  { unfold take_force_next, bind, get. case_match; by eexists. }
  pose proof (force_calm w) as Hc. destruct (take_force_next w) as [r w1] eqn:Et.
  cbn in Hb, Hc. subst r. rewrite (bind_ok _ _ _ _ _ Et). unfold bind at 1, get at 1.
  assert (inv (s :: cur) q0 f0 rep w1) as H1 by by eapply inv_calm.
  assert (status_of w1 s = Some PENDING) as Hst1.
  { unfold status_of. by rewrite (c_steps _ _ _ Hc). }
  rewrite bind_lift. destruct (if b then _ else _) as [[]|e].
  3: { split; [right; by eexists|by apply inv_over]. }
  { unfold skip_step. destruct (get_skip_reason w1 s) as [reason|e].
    2: { split; [right; by eexists|by apply inv_over]. }
    destruct (skip_keeps s reason _ _ _ _ _ Hst1 (inv_cur_fresh _ _ _ _ _ _ H1) H1)
      as [H2 _].
    unfold bind. destruct (handle_step_skipped _ _ w1) as [[[]|e] w2]; cbn in H2;
      (split; [|by apply inv_over]); [by left|right; by eexists]. }
  destruct (bool_decide _); [split; [by left|by apply inv_over]|].
  unfold bind at 1, ready_steps, get at 1. unfold bind at 1.
  destruct (get_ready_steps _ _ _ _ _) as [l|e]; cbn.
  2: { split; [right; by eexists|by apply inv_over]. }
  destruct (negb (str_in s l)); [split; [by left|by apply inv_over]|].
  by apply dispatch_ready_over.
Qed.

Lemma discard_over s cur q0 f0 rep w :
  over s cur q0 f0 rep w → inv cur q0 f0 rep (discard_pending s w).2.
Proof.
  intros [[Hq Hg] Hl]. split; [done|]. cbn.
  destruct Hg as [G1 G2 G3 G4 G5 G6 G7 G8 G9 G10]. split; try done.
  cbn. intros x Hx Hin. destruct (G5 x Hx Hin) as [Hp Ht]. split; [|done].
  assert (x ≠ s) by (intros ->; by apply Hl). set_solver.
Qed.

Lemma spawn_held s ph cur q0 f0 rep w :
  inv (s :: cur) q0 f0 rep w → inv cur q0 f0 rep (set_tasks (w_tasks w ++ [THeld s ph]) w)
  ∧ inv cur q0 f0 rep (set_tasks (w_tasks w ++ [TDispatch s ph]) w).
Proof.
  intros [Hq Hg].
  assert (∀ t, task_step t = Some s → is_barrier t = false →
    inv cur q0 f0 rep (set_tasks (w_tasks w ++ [t]) w)) as H.
  { intros t Ht Hb. split; [done|]. cbn. unfold task_steps.
    rewrite omap_app. cbn. rewrite Ht. cbn.
    eapply (good_perm (s :: cur ++ task_steps (w_tasks w))); [unfold task_steps; solve_Permutation|].
    destruct Hg as [G1 G2 G3 G4 G5 G6 G7 G8 G9 G10]. split; try done.
    intros t' [?| ->%list_elem_of_singleton]%elem_of_app; auto. }
  split; by apply H.
Qed.

Lemma dispatch_step_inv s q0 f0 rep w :
  inv [s] q0 f0 rep w → inv [] q0 f0 rep (dispatch_step s w).
Proof.
  intros Hinv. unfold dispatch_step, dispatch_body.
  destruct (gate_ok s w) as [g Hg]. pose proof (gate_calm s w) as Hc.
  destruct (gate_before_dispatch s w) as [r w1] eqn:Eg. cbn in Hg, Hc. subst r.
  rewrite (bind_ok _ _ _ _ _ Eg). assert (inv [s] q0 f0 rep w1) as H1 by by eapply inv_calm.
  destruct g; cbn [ret].
  - pose proof (dispatch_open_over s [] _ _ _ _ H1) as H2.
    destruct (dispatch_open s w1) as [r w2]. destruct H2 as [[-> | [e ->]] H2];
      by apply discard_over.
  - by apply discard_over, inv_over.
  - by apply discard_over, inv_over.
  - by apply spawn_held.
Qed.

(** ** The scan keeps the invariant *)

Lemma scan_start_calm s w :
  s ∈ keys (sr_steps (w_reg w)) → barrier_steps (w_plan w) = ∅ →
  ∃ w', (scan_start s w = (Ok None, w') ∧ calm [] w w')
  ∨ (scan_start s w = (Ok (Some Finished), w') ∧ calm [s] w w'
    ∧ s ∈ notified_ready (w_disp w')).
Proof.
  intros Hs Hbar. unfold scan_start. destruct (gate_ok s w) as [g Hg].
  pose proof (gate_calm s w) as Hc0.
  destruct (gate_before_dispatch s w) as [r w0] eqn:Eg. cbn in Hg, Hc0. subst r.
  rewrite (bind_ok _ _ _ _ _ Eg). destruct g; try (exists w0; by left).
  rewrite (bind_ok _ _ _ _ _ (get_condition_ok s w0 ltac:(by rewrite (c_steps _ _ _ Hc0)))).
  set (c := sr_conditions (w_reg w0) !! s).
  rewrite bind_unit by done. set (w1 := (on_disp _ w0).2).
  assert (calm [] w0 w1) as H1 by (apply calm_same; try done; cbn; set_solver).
  clearbody w1.
  assert ((claim_uut s w1).1 = Ok tt) as Hc.
  { unfold claim_uut, bind, get. repeat case_match; done. }
  rewrite (bind_unit _ _ _ Hc). pose proof (claim_calm s w1) as H2.
  set (w2 := (claim_uut s w1).2) in *. clearbody w2.
  rewrite bind_unit by done.
  pose proof (calm_pub STEP_STARTED (StepStartedData s (condition_str <$> c)) w2 ltac:(done)) as H3.
  rewrite started_one in H3. set (w3 := (bus_pub _ _ w2).2) in *. clearbody w3.
  rewrite !bind_get. rewrite !bind_unit by done. set (w4 := (on_disp _ w3).2).
  assert (calm [] w3 w4) as H4 by (apply calm_same; try done; cbn; set_solver).
  assert (s ∈ notified_ready (w_disp w4)) as Hn by (cbn; set_solver). clearbody w4.
  assert (calm [s] w w4) as Hall.
  { eapply calm_then, H4. eapply calm_after, H3.
    exact (calm_then _ _ _ _ (calm_then _ _ _ _ Hc0 H1) H2). }
  rewrite (bind_ok _ _ _ _ _ (start_barrier_none s w4 ltac:(by rewrite (c_barrier _ _ _ Hall)))).
  exists w4. right. by split_and!.
Qed.

Lemma scan_one_inv s q0 f0 rep w :
  status_of w s = Some PENDING → inv [] q0 f0 rep w →
  let '(r, w') := scan_one s w in
  (∀ o, r = Ok (Some o) → o = Finished) ∧ inv [] q0 f0 rep w'
  ∧ ∀ x, x ≠ s → status_of w' x = status_of w x.
Proof.
  intros Hst Hinv. unfold scan_one. unfold bind at 1, get at 1.
  destruct (bool_decide _ || bool_decide _) eqn:Eb; [split_and!; [naive_solver|done|done]|].
  apply orb_false_iff in Eb as [Hn%bool_decide_eq_false Hp%bool_decide_eq_false].
  destruct Hinv as [Hq Hg] eqn:Ei. clear Ei.
  assert (s ∉ f0 ++ started (drop q0 (eb_queue (w_bus w)))) as Hfl.
  { intros Hin. by destruct (g_flight _ _ _ _ Hg s Hin). }
  rewrite bind_lift. destruct (evaluate_step_skip w s) as [[]|e].
  3: { by split_and!. }
  { unfold skip_step. destruct (get_skip_reason w s) as [reason|e].
    2: { by split_and!. }
    destruct (skip_keeps s reason _ _ _ _ _ Hst Hfl Hinv) as [H2 Hx].
    unfold bind. destruct (handle_step_skipped _ _ w) as [[[]|e] w2]; cbn in *;
      split_and!; naive_solver. }
  destruct (negb (can_schedule w s)); [split_and!; [naive_solver|done|done]|].
  rewrite (bind_ok _ _ _ _ _ (fault_none s w (g_injector _ _ _ _ Hg))).
  destruct (scan_start_calm s w) as (w' & [[-> Hc]|(-> & Hc & Hn')]).
  { by eapply status_registered. }
  { exact (g_barrier _ _ _ _ Hg). }
  - split_and!; [naive_solver|by eapply inv_calm|].
    intros x _. unfold status_of. by rewrite (c_steps _ _ _ Hc).
  - split_and!; [naive_solver| |].
    + eapply inv_start; try done.
      * destruct (g_final _ _ _ _ Hg s ltac:(by left)) as [|(_ & ? & _)]; done.
      * intros Hin. by destruct (g_task _ _ _ _ Hg s ltac:(by left) Hin).
    + intros x _. unfold status_of. by rewrite (c_steps _ _ _ Hc).
Qed.

Lemma scan_steps_inv l q0 f0 rep : ∀ w,
  NoDup l → (∀ s, s ∈ l → status_of w s = Some PENDING) → inv [] q0 f0 rep w →
  let '(r, w') := scan_steps l w in
  (∀ o, r = Ok o → o = ScanOver) ∧ inv [] q0 f0 rep w'.
Proof.
  induction l as [|s l IH]; intros w Hnd Hp Hinv; [split; [naive_solver|done]|].
  cbn [scan_steps]. apply NoDup_cons in Hnd as [Hs Hnd].
  pose proof (scan_one_inv s _ _ _ _ (Hp s ltac:(by left)) Hinv) as H1.
  unfold bind. destruct (scan_one s w) as [[o|e] w1]; destruct H1 as (Ho & H1 & Hx).
  2: { split; [naive_solver|done]. }
  destruct o as [o|]; [|split; [naive_solver|done]].
  rewrite (Ho o eq_refl). apply IH; [done| |done].
  intros x Hin. rewrite Hx by (by intros ->). apply Hp. by right.
Qed.

Lemma filter_res_sub {A} (f : A → res bool) l l' :
  filter_res f l = Ok l' → l' `sublist_of` l ∧ ∀ x, x ∈ l' → f x = Ok true.
Proof.
  revert l'. induction l as [|x l IH]; intros l'; cbn; [intros [= <-]; split; [done|set_solver]|].
  destruct (f x) as [b|e] eqn:Ef; [|done]. cbn.
  destruct (filter_res f l) as [r|e]; [|done]. cbn. intros [= <-].
  destruct (IH r eq_refl) as [Hsub Hall]. destruct b.
  - split; [by apply sublist_skip|]. intros y [->|Hy]%elem_of_cons; auto.
  - split; [by apply sublist_cons|done].
Qed.

Lemma get_ready_pending sev r vs rm now l :
  dict_wf (sr_steps r) → get_ready_steps sev r vs rm now = Ok l →
  NoDup l ∧ ∀ s, s ∈ l → sr_steps r !! s = Some PENDING.
Proof.
  unfold get_ready_steps. intros Hwf.
  destruct (filter_res _ _) as [r'|e] eqn:Er; [|done]. intros [= <-].
  apply filter_res_sub in Er as [Hsub Hall]. split.
  - eapply sublist_NoDup; [exact Hwf|]. by apply fmap_sublist.
  - intros s ([s' st] & -> & Hin)%list_elem_of_fmap. specialize (Hall _ Hin).
    unfold step_ready in Hall. cbn in Hall. case_decide as Hst; [|done]. subst.
    apply elem_of_items; [done|]. by eapply elem_of_sublist.
Qed.

Lemma emergency_scan_inv q0 f0 rep w :
  inv [] q0 f0 rep w →
  let '(r, w') := emergency_scan w in
  (∀ o, r = Ok o → o = ScanOver) ∧ inv [] q0 f0 rep w'.
Proof.
  intros Hinv. pose proof (g_wf _ _ _ _ (proj2 Hinv)) as Hwf. unfold emergency_scan. unfold bind at 1, get at 1.
  destruct (paused (w_gate w)); [split; [naive_solver|done]|].
  unfold ready_steps. unfold bind at 1 2, get at 1.
  destruct (get_ready_steps _ _ _ _ _) as [l|e] eqn:El; cbn; [|split; [naive_solver|done]].
  destruct (get_ready_pending _ _ _ _ _ _ Hwf El) as [Hnd Hp].
  by apply scan_steps_inv.
Qed.

(** ** Delivery keeps the invariant *)

(** What is known of a step while the handler of its terminal event runs. *)
Definition settled (ts f : list string) (rep : gset string) (w : World) (s : string) : Prop :=
  s ∉ f ∧ (live w rep s → s ∉ ts ∧ finals_in w s = 0).

Lemma good_forget s ts f rep w w' :
  settled ts f rep w s → good ts f rep w →
  sr_steps (w_reg w') = sr_steps (w_reg w) → w_tasks w' = w_tasks w →
  w_injector w' = w_injector w → w_plan w' = w_plan w → w_bus w' = w_bus w →
  notified_ready (w_disp w) ⊆ {[ s ]} ∪ notified_ready (w_disp w') →
  pending_dispatch (w_disp w) ⊆ {[ s ]} ∪ pending_dispatch (w_disp w') →
  good ts f rep w'.
Proof.
  intros [Hf Hl] [G1 G2 G3 G4 G5 G6 G7 G8 G9 G10] Hs Ht Hi Hpl Hb Hn Hp.
  assert (∀ x, finals_in w' x = finals_in w x) as HF by (intros; unfold finals_in; by rewrite Hb).
  unfold live, status_of in *.
  split; unfold live, status_of; rewrite ?Hs, ?Ht, ?Hi, ?Hpl, ?Hb; try done.
  - intros x Hx. rewrite HF. destruct (G2 x Hx) as (? & ? & ? & ?).
    assert (x ≠ s) by (by intros ->). set_solver.
  - intros x Hx. rewrite HF. destruct (decide (x = s)) as [->|Hne]; [left; by apply Hl|].
    destruct (G4 x Hx) as [|(? & ? & ?)]; [by left|right; set_solver].
  - intros x Hx Hin. assert (x ≠ s) by (intros ->; by destruct (Hl Hx)).
    destruct (G5 x Hx Hin). set_solver.
Qed.

(** The state of a delivery: the queue does not move. *)
Definition delivering (q : list (option Event)) (f : list string) (rep : gset string)
    (w : World) : Prop :=
  eb_queue (w_bus w) = q ∧ good (task_steps (w_tasks w)) f rep w.

Lemma delivering_inv q f rep w :
  delivering q f rep w ↔ eb_queue (w_bus w) = q ∧ inv [] (length q) f rep w.
Proof.
  unfold delivering, inv. split; intros [<- H]; (split; [done|]).
  - split; [done|]. by rewrite drop_all, app_nil_r.
  - destruct H as [_ H]. by rewrite drop_all, app_nil_r in H.
Qed.

Lemma schedule_queue q k : preserves (λ w, eb_queue (w_bus w) = q) (schedule_dispatch_for_key k).
Proof.
  unfold schedule_dispatch_for_key. apply preserves_bind; [apply preserves_get|].
  intros w. apply preserves_for_each. intros s w' Hw. unfold schedule_dispatch, bind, get.
  destruct (_ || _); [done|]. cbn. by destruct (can_spawn _).
Qed.

Lemma schedule_delivering q f rep k : preserves (delivering q f rep) (schedule_dispatch_for_key k).
Proof.
  intros w [Hq Hi]%delivering_inv. apply delivering_inv.
  split; [by apply schedule_queue|by apply schedule_for_key_keeps].
Qed.

Lemma delivering_calm q f rep w w' :
  calm [] w w' → eb_queue (w_bus w') = eb_queue (w_bus w) →
  delivering q f rep w → delivering q f rep w'.
Proof.
  intros Hc Hq [<- Hg]. split; [done|]. rewrite (c_tasks _ _ _ Hc). by eapply good_calm.
Qed.

Lemma settle_delivering s q f rep w :
  settled (task_steps (w_tasks w)) f rep w s → delivering q f rep w →
  delivering q f rep (settle_bookkeeping s w).2.
Proof.
  intros Hset [Hq Hg]. unfold settle_bookkeeping. rewrite !bind_unit by done.
  set (w1 := (discard_pending s _).2).
  assert (delivering q f rep w1) as H1.
  { split; [done|]. eapply good_forget; try done; cbn; intros x Hx;
      destruct (decide (x = s)); set_solver. }
  clearbody w1. unfold release_uut_claim. rewrite bind_get.
  repeat case_match; try done. eapply delivering_calm, H1; [|done]. by apply calm_same.
Qed.

Lemma snapshot_calm w :
  calm [] w (maybe_snapshot w).2 ∧ eb_queue (w_bus (maybe_snapshot w).2) = eb_queue (w_bus w)
  ∧ (maybe_snapshot w).1 = Ok tt.
Proof.
  unfold maybe_snapshot. rewrite bind_get. case_match; [|by split_and!; [apply calm_refl|..]].
  split_and!; [by apply calm_same|done|done].
Qed.

Lemma on_status_delivering ev q f rep w :
  (∀ s, is_final s (ev_type ev, ev_data ev) = true → settled (task_steps (w_tasks w)) f rep w s) →
  ev_type ev = STEP_STATUS_CHANGED → delivering q f rep w →
  delivering q f rep (on_step_status_changed ev w).2.
Proof.
  intros Hset Ht Hd. unfold on_step_status_changed.
  set (body := match data_new_status (ev_data ev), data_step_id (ev_data ev) with
    | Some _, Some _ => _ | _, _ => _ end).
  assert (delivering q f rep (body w).2 ∧ (body w).1 = Ok tt) as [H1 Hok].
  { subst body. destruct (data_new_status (ev_data ev)) as [n|] eqn:En; [|done].
    destruct (data_step_id (ev_data ev)) as [s|] eqn:Es; [|done].
    destruct (str_in n _) eqn:Ein; [|done]. split.
    - apply settle_delivering; [|done]. apply Hset. unfold is_final. cbn [fst snd].
      rewrite Ht, Es, En, Ein. by rewrite !bool_decide_true.
    - unfold settle_bookkeeping, release_uut_claim. rewrite !bind_unit, bind_get by done.
      by repeat case_match. }
  rewrite bind_unit by done. set (w1 := (body w).2) in *. clearbody w1.
  destruct (snapshot_calm w1) as (Hc & Hq & Hr). rewrite bind_unit by done.
  assert (delivering q f rep (maybe_snapshot w1).2) as H2 by by eapply delivering_calm.
  destruct (data_step_id _); [by apply schedule_delivering|done].
Qed.

Lemma own_cons cb cbs :
  own_callbacks (cb :: cbs) = if decide (cb ∈ handlers.*2) then cb :: own_callbacks cbs
    else own_callbacks cbs.
Proof. unfold own_callbacks. rewrite filter_cons. by case_decide. Qed.

Lemma call_one_calm ev cb w :
  let w1 := (call_handler cb ev w).2 in
  let w2 := (call_one w_bus set_bus call_handler ev cb w).2 in
  (call_one w_bus set_bus call_handler ev cb w).1 = Ok tt
  ∧ calm [] w1 w2 ∧ eb_queue (w_bus w2) = eb_queue (w_bus w1)
  ∧ w_tasks w2 = w_tasks w1.
Proof.
  cbn zeta. unfold call_one, try_except, bind.
  destruct (call_handler cb ev w) as [[[]|e] w1]; cbn; split_and!; try done;
    split; try done; exists []; by rewrite app_nil_r.
Qed.

(** The callbacks of one event. *)
Lemma callbacks_delivering ev q f rep cbs : ∀ w,
  (ev_type ev = STEP_STATUS_CHANGED → length (own_callbacks cbs) ≤ 1) →
  (ON_STATUS ∈ cbs → ev_type ev = STEP_STATUS_CHANGED) →
  (own_callbacks cbs ≠ [] → ∀ s, is_final s (ev_type ev, ev_data ev) = true →
    settled (task_steps (w_tasks w)) f rep w s) →
  delivering q f rep w →
  delivering q f rep (for_each cbs (call_one w_bus set_bus call_handler ev) w).2.
Proof.
  induction cbs as [|cb cbs IH]; intros w Hown Hst Hset Hd; [done|]. cbn [for_each].
  destruct (call_one_calm ev cb w) as (Hok & Hc & Hq & Ht).
  rewrite (bind_unit _ _ _ Hok). rewrite own_cons in *.
  set (w1 := (call_handler cb ev w).2) in *.
  set (w2 := (call_one _ _ _ ev cb w).2) in *.
  destruct (decide (cb ∈ handlers.*2)) as [Hcb|Hcb].
  - assert (delivering q f rep w1) as H1.
    { subst w1. unfold call_handler.
      case_decide; [by apply schedule_delivering|].
      case_decide; [|case_decide; [by apply schedule_delivering|done]].
      subst cb. apply on_status_delivering; [by apply Hset|apply Hst; by left|done]. }
    apply IH; [intros Hs; specialize (Hown Hs); cbn in Hown; lia| | |by eapply delivering_calm].
    { intros Hin. apply Hst. by right. }
    intros Hne s Hf. exfalso. assert (ev_type ev = STEP_STATUS_CHANGED) as Hs.
    { unfold is_final in Hf. cbn in Hf. by destruct (decide (ev_type ev = STEP_STATUS_CHANGED));
        [|rewrite bool_decide_false in Hf]. }
    specialize (Hown Hs). cbn in Hown. destruct (own_callbacks cbs); [done|cbn in Hown; lia].
  - assert (w1 = w) as E1.
    { subst w1. unfold call_handler. cbn in Hcb.
      rewrite !decide_False; [done|set_solver..]. }
    apply IH; [done|intros Hin; apply Hst; by right| |eapply delivering_calm; try done; by rewrite E1].
    intros Hne s Hf. specialize (Hset Hne s Hf). unfold settled, live, status_of in *.
    by rewrite Ht, (c_steps _ _ _ Hc), (c_finals _ _ _ Hc), E1.
Qed.

Lemma finals_pop s ev q w :
  eb_queue (w_bus w) = Some ev :: q →
  finals_in w s = ((if is_final s (ev_type ev, ev_data ev) then 1 else 0)
    + finals_in (set_bus (set_queue q (w_bus w)) w) s)%nat.
Proof.
  intros Hq. unfold finals_in. cbn [sink_events bus_sink w_bus set_bus].
  rewrite (queued_set_queue_cons ev q) by done. cbn [app].
  by rewrite finals_cons.
Qed.

(** The invariant without what concerns the terminal events: it survives losing
    them. *)
Lemma good_pop ev q f rep w :
  eb_queue (w_bus w) = Some ev :: q → good (task_steps (w_tasks w)) f rep w →
  let w1 := set_bus (set_queue q (w_bus w)) w in
  good (task_steps (w_tasks w1)) f rep w1
  ∧ ∀ s, is_final s (ev_type ev, ev_data ev) = true →
  settled (task_steps (w_tasks w1)) f rep w1 s.
Proof.
  intros Hq [G1 G2 G3 G4 G5 G6 G7 G8 G9 G10]. cbn zeta.
  set (w1 := set_bus (set_queue q (w_bus w)) w).
  assert (∀ s, finals_in w s = ((if is_final s (ev_type ev, ev_data ev) then 1 else 0)
    + finals_in w1 s)%nat) as HF by (intros s; by apply finals_pop).
  split; [split; try done|].
  - intros s Hs. destruct (G2 s Hs) as (? & Hz & ? & ?). rewrite HF in Hz. split_and!; [done|lia|done|done].
  - intros s Hs. destruct (G4 s Hs) as [Hz|(Hz & ? & ?)]; rewrite HF in Hz; [left; lia|].
    destruct (is_final s _); [left; lia|right; split_and!; [lia|done|done]].
  - intros s Hf. split.
    + intros Hs. destruct (G2 s Hs) as (_ & Hz & _). rewrite HF, Hf in Hz. lia.
    + intros Hl. destruct (G4 s Hl) as [Hz|(Hz & ? & ?)]; rewrite HF, Hf in Hz; [lia|].
      split; [done|lia].
Qed.

Lemma deliver_good r w w' f rep :
  process_one w_bus set_bus call_handler w = (r, w') →
  good (task_steps (w_tasks w)) f rep w → good (task_steps (w_tasks w')) f rep w'.
Proof.
  unfold process_one. destruct (eb_queue (w_bus w)) as [|[ev|] q] eqn:Eq; intros [= <- <-] Hg.
  - done.
  - destruct (good_pop ev q f rep w Eq Hg) as [H1 Hset].
    set (w1 := set_bus _ w) in *. unfold dispatch_event. unfold bind at 1, gets.
    assert (wired (w_bus w1)) as [Hown Hst] by apply (g_handler _ _ _ _ H1).
    apply (callbacks_delivering ev q f rep (callbacks ev (w_bus w1)) w1).
    + intros Ht. unfold callbacks. rewrite Ht. apply Hown.
    + apply Hst.
    + intros _. apply Hset.
    + split; done.
  - destruct Hg as [G1 G2 G3 G4 G5 G6 G7 G8 G9 G10].
    assert (∀ s, finals_in (set_bus (set_queue q (w_bus w)) w) s = finals_in w s) as HF.
    { intros s. unfold finals_in. cbn. unfold queued. cbn. by rewrite Eq. }
    split; try done; cbn; intros s Hs; rewrite HF; [by apply G2|by apply G4].
Qed.

(** ** Tasks and the loop *)

Lemma task_taken i t w :
  w_tasks w !! i = Some t →
  task_steps (w_tasks w) ≡ₚ option_list (task_step t) ++ task_steps (delete i (w_tasks w)).
Proof.
  intros Hi. unfold task_steps. rewrite (delete_Permutation _ _ _ Hi) at 1. cbn.
  by destruct (task_step t).
Qed.

Lemma inv_of_good f rep w cur ts :
  ts ≡ₚ cur ++ task_steps (w_tasks w) → good ts f rep w →
  inv cur (length (eb_queue (w_bus w))) f rep w.
Proof.
  intros Hts Hg. split; [done|]. rewrite drop_all. cbn. rewrite app_nil_r. by eapply good_perm.
Qed.

Lemma good_of_inv q0 f rep w :
  inv [] q0 f rep w → good (task_steps (w_tasks w)) (f ++ started (drop q0 (eb_queue (w_bus w)))) rep w.
Proof. by intros [_ H]. Qed.

Lemma good_fewer_tasks ts f rep w l :
  (∀ t, t ∈ l → t ∈ w_tasks w) → good ts f rep w → good ts f rep (set_tasks l w).
Proof.
  intros Hl [G1 G2 G3 G4 G5 G6 G7 G8 G9 G10]. split; try done. intros t Ht. by apply G8, Hl.
Qed.

Lemma after_scan_inv in_loop q0 f0 rep (x : res scan_end * World) :
  (∀ o, x.1 = Ok o → o = ScanOver) → inv [] q0 f0 rep x.2 → inv [] q0 f0 rep (after_scan in_loop x).
Proof.
  destruct x as [[o|e] w]; cbn; intros Ho Hi.
  - rewrite (Ho o eq_refl). destruct in_loop; [|done]. eapply inv_calm, Hi. by apply calm_same.
  - destruct in_loop; [|done]. eapply inv_calm, Hi. by apply calm_same.
Qed.

Lemma forced_scan_inv in_loop q0 f0 rep w :
  inv [] q0 f0 rep w → inv [] q0 f0 rep (after_scan in_loop (emergency_scan w)).
Proof.
  intros Hi. pose proof (emergency_scan_inv _ _ _ _ Hi) as H.
  destruct (emergency_scan w) as [r w']. destruct H as [Ho H].
  by apply (after_scan_inv in_loop q0 f0 rep (r, w')).
Qed.

Lemma loop_scan_inv c q0 f0 rep w : inv [] q0 f0 rep w → inv [] q0 f0 rep (loop_scan c w).
Proof.
  intros Hi. unfold loop_scan. destruct (_ || _).
  - by apply forced_scan_inv.
  - eapply inv_calm, Hi. by apply calm_same.
Qed.

Lemma internal_good f rep w w' :
  internal w w' → good (task_steps (w_tasks w)) f rep w →
  good (task_steps (w_tasks w')) (f ++ new_starts w w') rep w'.
Proof.
  intros Hint Hg. unfold new_starts. destruct Hint as [i t missing w w' Hi Hr|w w' Hl].
  - pose proof (task_taken i t w Hi) as Hperm.
    set (w0 := set_tasks (delete i (w_tasks w)) w) in *.
    assert (inv (option_list (task_step t)) (length (eb_queue (w_bus w))) f rep w0) as Hinv.
    { change (w_bus w) with (w_bus w0). eapply inv_of_good; [exact Hperm|].
      apply good_fewer_tasks; [|done]. intros t' Ht'.
      by eapply elem_of_sublist, sublist_delete. }
    assert (is_barrier t = false) as Hbar.
    { apply (g_tasks _ _ _ _ Hg). by eapply list_elem_of_lookup_2. }
    apply good_of_inv. destruct t as [s [| |]|s [| |]|s n ids o|]; cbn in Hr; try done;
      injection Hr as <-.
    + destruct (pause_event _); [by apply dispatch_step_inv|]. by apply spawn_held.
    + by apply dispatch_step_inv.
    + apply (discard_over s [] _ _ _ w0), inv_over, Hinv.
    + apply (forced_scan_inv false _ _ _ w0), Hinv.
  - assert (inv [] (length (eb_queue (w_bus w))) f rep w) as Hinv by by eapply inv_of_good.
    apply good_of_inv. unfold loop_step in Hl.
    assert (∀ v, inv [] (length (eb_queue (w_bus w))) f rep v →
      inv [] (length (eb_queue (w_bus w))) f rep (loop_top v)) as Htop.
    { intros v Hv. unfold loop_top. destruct (_ && _); (eapply inv_calm, Hv; by apply calm_same). }
    destruct (loop_at (w_life w)); try done; injection Hl as <-.
    + by apply Htop.
    + by apply loop_scan_inv.
    + unfold loop_wake. destruct (stop_event _); [eapply inv_calm, Hinv; by apply calm_same|].
      by apply Htop.
Qed.

(** ** The executors' steps *)

(** A status update of [s], with what it may do to the ghost state. *)
Lemma good_update s st old ts f f' rep rep' w :
  status_of w s = Some old →
  NoDup f' → (∀ x, x ∈ f' → x ∈ f) → (s ∈ f' → is_terminal st = false ∧ s ∉ rep') →
  (∀ x, x ≠ s → x ∈ rep' → x ∈ rep) →
  (s ∈ rep' → st ≠ PENDING) →
  (st = PENDING ∨ s ∈ rep' →
    (finals_in w s = 0 ∨ (finals_in w s = 1 ∧ is_terminal st = false))
    ∧ (is_terminal st = true ∨ finals_in w s = 1 →
      s ∈ notified_ready (w_disp w) ∧ s ∉ ts)
    ∧ (s ∈ ts → s ∈ pending_dispatch (w_disp w) ∧ times s ts = 1)) →
  good ts f rep w → good ts f' rep' (reg_update s st w).2.
Proof.
  intros Hold Hnd Hf Hsf Hrep Hsrep Hlive [G1 G2 G3 G4 G5 G6 G7 G8 G9 G10].
  destruct (reg_update_inv s st w old Hold)
    as (w' & -> & Hs & HF & Hd & Hpl & Ht & Hi & _ & Hsub & _). cbn [snd].
  assert (∀ x, status_of w' x = if decide (s = x) then Some st else status_of w x) as Hst.
  { intros x. unfold status_of. by rewrite Hs, dict_lookup_insert. }
  assert (∀ x, x ≠ s → finals_in w' x = finals_in w x) as HF'.
  { intros x Hx. rewrite HF. by rewrite bool_decide_false. }
  assert (∀ x, x ≠ s → live w' rep' x → live w rep x) as Hlive'.
  { intros x Hx [Hp|Hr]; [left|right; by apply Hrep].
    rewrite Hst, decide_False in Hp by done. done. }
  assert (finals_in w' s = finals_in w s ∨ (is_terminal st = true ∧ finals_in w' s = S (finals_in w s)))
    as HFs.
  { rewrite HF. destruct (is_terminal st); [|by rewrite andb_false_r; left].
    destruct (_ && _ && _); cbn; [right; by split|by left]. }
  split; unfold wired, type_callbacks; rewrite ?Hd, ?Hi, ?Hpl, ?Ht, ?Hsub; try done.
  - intros x Hx. destruct (G2 x (Hf x Hx)) as (? & Hz & Hr & ?).
    destruct (decide (x = s)) as [->|Hne].
    + destruct (Hsf Hx) as [Hter ?]. destruct HFs as [->|[? _]]; [by split_and!|congruence].
    + rewrite HF' by done. split_and!; try done. intros Hin. by apply Hr, Hrep.
  - intros x Hx. rewrite Hst. destruct (decide (s = x)) as [<-|Hne].
    + intros [=]. by apply Hsrep.
    + apply G3, Hrep; auto.
  - intros x Hl. destruct (decide (x = s)) as [->|Hne].
    2: { rewrite HF' by done. apply G4, Hlive'; done. }
    assert (st = PENDING ∨ s ∈ rep') as Hl'.
    { destruct Hl as [Hl|Hl]; [left|by right]. rewrite Hst, decide_True in Hl by done. naive_solver. }
    destruct (Hlive Hl') as (Hz & Hn & _). destruct HFs as [->|[Hter ->]].
    + destruct Hz as [Hz|[Hz _]]; [by left|right]. split; [done|]. apply Hn. by right.
    + destruct Hz as [->|[_ ?]]; [|congruence]. right. split; [done|]. apply Hn. by left.
  - intros x Hl Hin. destruct (decide (x = s)) as [->|Hne]; [|apply G5; auto].
    apply Hlive; [|done]. destruct Hl as [Hl|Hl]; [left|by right].
    rewrite Hst, decide_True in Hl by done. naive_solver.
  - rewrite Hs. by apply dict_wf_insert.
Qed.

Lemma reg_update_unregistered s st w : status_of w s = None → (reg_update s st w).2 = w.
Proof.
  intros H. unfold reg_update, zoom, update_status. unfold status_of in H. rewrite H.
  by destruct w.
Qed.

Lemma good_unreport s ts f rep w : good ts f rep w → good ts f (rep ∖ {[ s ]}) w.
Proof.
  intros [G1 G2 G3 G4 G5 G6 G7 G8 G9 G10].
  assert (∀ x, live w (rep ∖ {[ s ]}) x → live w rep x) as Hl.
  { intros x [?|?]; [by left|right; set_solver]. }
  split; try done; eauto.
  - intros x Hx. destruct (G2 x Hx) as (? & ? & ? & ?). split_and!; try done. set_solver.
  - intros x Hx. apply G3. set_solver.
Qed.

Lemma running_good s ts f rep w :
  s ∈ f → good ts f rep w → good ts f rep (reg_update s RUNNING w).2.
Proof.
  intros Hs Hg. destruct (g_flight _ _ _ _ Hg s Hs) as (Hn & Hz & Hr & Ht).
  destruct (status_of w s) as [old|] eqn:Eo; [|by rewrite reg_update_unregistered].
  eapply good_update; try done; [apply (g_nodup _ _ _ _ Hg)|].
  intros [?|?]; done.
Qed.

Lemma report_good s st ts f1 f2 rep w :
  is_terminal st = true → good ts (f1 ++ s :: f2) rep w →
  good ts (f1 ++ f2) ({[ s ]} ∪ rep) (reg_update s st w).2.
Proof.
  intros Hst Hg. destruct (g_flight _ _ _ _ Hg s ltac:(set_solver)) as (Hn & Hz & Hr & Ht).
  pose proof (g_nodup _ _ _ _ Hg) as Hnd.
  assert (f1 ++ s :: f2 ≡ₚ s :: f1 ++ f2) as Hperm by solve_Permutation.
  rewrite Hperm in Hnd. apply NoDup_cons in Hnd as [Hnin Hnd].
  assert (∀ x, x ∈ f1 ++ f2 → x ∈ f1 ++ s :: f2) as Hsub by set_solver.
  destruct (status_of w s) as [old|] eqn:Eo.
  - eapply (good_update s st old ts (f1 ++ s :: f2)); [done|done|done|by intros ?| | | |done].
    + intros x Hx. set_solver.
    + intros _. by intros ->.
    + intros _. split_and!; [by left|done|done].
  - rewrite reg_update_unregistered by done. destruct Hg as [G1 G2 G3 G4 G5 G6 G7 G8 G9 G10].
    split; try done.
    + intros x Hx. destruct (G2 x (Hsub x Hx)) as (? & ? & ? & ?). split_and!; try done.
      rewrite elem_of_union, elem_of_singleton. intros [->|?]; done.
    + intros x [->%elem_of_singleton|Hx]%elem_of_union; [by rewrite Eo|auto].
    + intros x [Hx|[->%elem_of_singleton|Hx]%elem_of_union]; [apply G4; by left|by left|apply G4; by right].
    + intros x [Hx|[->%elem_of_singleton|Hx]%elem_of_union]; [apply G5; by left|done|apply G5; by right].
Qed.

(** Back to PENDING while the result is being judged. *)
Lemma pending_good s old ts f rep w :
  s ∈ rep → status_of w s = Some old → good ts f rep w →
  good ts f (rep ∖ {[ s ]}) (reg_update s PENDING w).2.
Proof.
  intros Hs Hold Hg.
  eapply (good_update s PENDING old ts f); [done|apply (g_nodup _ _ _ _ Hg)|done| | | | |done].
  - intros _. split; [done|set_solver].
  - set_solver.
  - set_solver.
  - intros _. assert (live w rep s) as Hl by by right.
    split_and!; [|intros [?|Hz]; [done|]|by apply (g_task _ _ _ _ Hg)];
      destruct (g_final _ _ _ _ Hg s Hl) as [?|(? & ? & ?)]; auto; lia.
Qed.

(** Settled on a status other than PENDING. *)
Lemma settle_good s st old ts f rep w :
  s ∈ rep → status_of w s = Some old → st ≠ PENDING → good ts f rep w →
  good ts f (rep ∖ {[ s ]}) (reg_update s st w).2.
Proof.
  intros Hs Hold Hst Hg.
  eapply (good_update s st old ts f); [done|apply (g_nodup _ _ _ _ Hg)|done| | | | |done].
  - intros Hf. by destruct (g_flight _ _ _ _ Hg s Hf) as (_ & _ & ? & _).
  - set_solver.
  - set_solver.
  - intros [?|?]; [done|set_solver].
Qed.

Lemma settle_failure_good s cfg st old ts f rep w :
  s ∈ rep → status_of w s = Some old → st = ERROR ∨ st = FAILED → good ts f rep w →
  good ts f (rep ∖ {[ s ]}) (settle_terminal_failure s cfg st w).2.
Proof.
  intros Hs Hold Hst Hg. unfold settle_terminal_failure.
  assert (st ≠ PENDING) as Hne by by destruct Hst as [-> | ->].
  destruct (reg_update_inv s st w old Hold) as (w1 & Hu & _).
  case_decide; [|case_decide; by eapply settle_good].
  pose proof (settle_good s st old ts f rep w Hs Hold Hne Hg) as Hset.
  rewrite Hu in Hset. by rewrite (bind_ok _ _ _ _ _ Hu).
Qed.

Lemma bind_ret_snd {S A B} (m : M S A) (b : B) (w : S) : (bind m (λ _, ret b) w).2 = (m w).2.
Proof. unfold bind. by destruct (m w) as [[?|?] ?]. Qed.

Lemma reg_update_tasks s st w : w_tasks (reg_update s st w).2 = w_tasks w.
Proof.
  destruct (status_of w s) as [old|] eqn:Eo; [|by rewrite reg_update_unregistered].
  by destruct (reg_update_inv s st w old Eo) as (w' & -> & _ & _ & _ & _ & ? & _).
Qed.

Lemma handle_tasks s st w : w_tasks (handle_step_result s st w).2 = w_tasks w.
Proof.
  assert (∀ {A} (m : M StepRegistry A), preserves (λ v, w_tasks v = w_tasks w) (on_reg m)) as Hreg.
  { intros A m v Hv. unfold on_reg, zoom. by destruct (m (w_reg v)). }
  assert (∀ s st, preserves (λ v, w_tasks v = w_tasks w) (reg_update s st)) as Hup.
  { intros s' st' v Hv. by rewrite reg_update_tasks. }
  assert (preserves (λ v, w_tasks v = w_tasks w) (handle_step_result s st)) as H.
  2: { by apply H. }
  unfold handle_step_result, settle_terminal_failure.
  apply preserves_bind; [apply preserves_get|]. intros v.
  repeat first [case_match | case_decide | apply preserves_bind; intros | apply preserves_ret
    | apply preserves_raise | apply Hreg | apply Hup].
Qed.

Lemma judge_good s st f rep ts w :
  s ∈ rep → good ts f rep w → good ts f (rep ∖ {[ s ]}) (handle_step_result s st w).2.
Proof.
  intros Hs Hg. unfold handle_step_result. rewrite bind_get.
  destruct (decide (s ∈ keys (sr_steps (w_reg w)))) as [Hin|Hnin].
  2: { unfold get_config. rewrite require_raise by done. by apply good_unreport. }
  unfold get_config. rewrite require_ok by done. cbn [gets fst].
  set (cfg := get_default s default_config (sr_configs (w_reg w))).
  assert (∃ old, status_of w s = Some old) as [old Hold] by by apply elem_of_keys.
  destruct st; try by apply good_unreport.
  - unfold reset_retry_count, reset_repeat_count.
    rewrite (bind_ok _ _ _ _ _ (on_reg_modify _ s w Hin)).
    erewrite bind_ok by (apply on_reg_modify; exact Hin).
    apply good_unreport. eapply good_calm, Hg. by apply calm_same.
  - destruct (repeat_on_measurement_fail cfg); cbn [negb].
    2: { rewrite bind_ret_snd. eapply settle_failure_good; eauto. }
    unfold get_repeat_count. rewrite (bind_ok _ _ _ _ _ (on_reg_get _ s w Hin)).
    destruct (_ || _); [|rewrite bind_ret_snd; eapply settle_failure_good; eauto].
    unfold increment_repeat_count.
    rewrite (bind_ok _ _ _ _ _ (on_reg_increment _ _ s w Hin)), bind_ret_snd.
    eapply pending_good; [done|exact Hold|]. eapply good_calm, Hg. by apply calm_same.
  - unfold get_retry_count. rewrite (bind_ok _ _ _ _ _ (on_reg_get _ s w Hin)).
    destruct (_ && _); [|rewrite bind_ret_snd; eapply settle_failure_good; eauto].
    unfold increment_retry_count.
    rewrite (bind_ok _ _ _ _ _ (on_reg_increment _ _ s w Hin)), bind_ret_snd.
    eapply pending_good; [done|exact Hold|]. eapply good_calm, Hg. by apply calm_same.
Qed.

(** ** The surroundings *)

Lemma bus_change_finals b b' :
  bus_change b b' → eb_subscribers b' = eb_subscribers b
  ∧ ∀ s, finals s (sink_events b') = finals s (sink_events b).
Proof.
  destruct 1 as [t d b [Ht _]|t d b [Ht _]|b|b|r i b|b|b].
  - split; [done|]. intros s. rewrite (finals_perm s _ _ (sink_publish t d b)), finals_cons.
    by rewrite is_final_foreign.
  - split; [unfold bus_publish_sync; by repeat case_match|]. intros s.
    change (bus_publish_sync t d b) with (publish_sync t d b).
    by rewrite (finals_perm s _ _ (publish_sync_accepts t d b)), finals_cons, is_final_foreign.
  - unfold run_scheduled. destruct (eb_scheduled b) as [|[t d] l] eqn:Es; [done|].
    split; [done|]. intros s. apply finals_perm. cbn. rewrite queued_publish, Es.
    unfold queued. cbn. solve_Permutation.
  - split; [done|]. intros s. apply finals_perm. cbn. unfold queued. cbn.
    rewrite app_nil_r. solve_Permutation.
  - done.
  - unfold bus_start. by case_match.
  - unfold bus_stop. case_match; [|done]. split; [done|]. intros s. unfold finals.
    cbn. unfold queued. cbn. by rewrite omap_app, app_nil_r.
Qed.

Lemma good_bus ts f rep w b' :
  bus_change (w_bus w) b' → good ts f rep w → good ts f rep (set_bus b' w).
Proof.
  intros [Hs HF]%bus_change_finals [G1 G2 G3 G4 G5 G6 G7 G8 G9 G10].
  assert (∀ s, finals_in (set_bus b' w) s = finals_in w s) as HF' by apply HF.
  split; unfold wired, type_callbacks; cbn; rewrite ?Hs; try done;
    intros s Hx; rewrite HF'; [by apply G2|by apply G4].
Qed.

Lemma task_steps_wake l : task_steps (wake <$> l) = task_steps l.
Proof. induction l as [|[s ph|s ph|s n i o|] l IH]; unfold task_steps in *; cbn; by rewrite ?IH. Qed.

Lemma open_gate_good f rep w :
  good (task_steps (w_tasks w)) f rep w →
  good (task_steps (w_tasks (open_gate w))) f rep (open_gate w).
Proof.
  intros [G1 G2 G3 G4 G5 G6 G7 G8 G9 G10]. cbn. rewrite task_steps_wake.
  split; try done. cbn. intros t (t' & -> & Ht)%list_elem_of_fmap.
  specialize (G8 _ Ht). by destruct t'.
Qed.

Lemma control_good f rep w w' :
  control w w' → good (task_steps (w_tasks w)) f rep w → good (task_steps (w_tasks w')) f rep w'.
Proof.
  intros Hc Hg. destruct Hc as [w|w|w|mode target w|w|w].
  - eapply good_calm, Hg. by apply calm_same.
  - unfold resume. rewrite bind_unit by done.
    eapply good_calm, open_gate_good, Hg. by apply calm_same.
  - eapply good_calm, Hg. by apply calm_same.
  - unfold arm_step_mode. destruct (negb _); [done|]. rewrite bind_unit by done.
    apply open_gate_good. eapply good_calm, Hg. by apply calm_same.
  - unfold force_scan. destruct (can_spawn _); [|done]. cbn. unfold task_steps. rewrite omap_app.
    cbn. rewrite app_nil_r. destruct Hg as [G1 G2 G3 G4 G5 G6 G7 G8 G9 G10]. split; try done.
    cbn. intros t [?| ->%list_elem_of_singleton]%elem_of_app; auto.
  - assert (base.filter (λ t, is_scan_task t = false) (w_tasks w) = w_tasks w) as Hf.
    { pose proof (g_tasks _ _ _ _ Hg) as Ht. revert Ht. generalize (w_tasks w).
      induction l as [|t l IH]; [done|]. intros Ht. rewrite filter_cons, IH by set_solver.
      case_decide as Hn; [done|]. exfalso. specialize (Ht t ltac:(left)). by destruct t. }
    unfold emergency_shutdown, end_scan_task. cbn. rewrite Hf.
    eapply good_calm, Hg. by apply calm_same.
Qed.

Lemma sys_step_good x y :
  sys_step x y → good (task_steps (w_tasks (s_world x))) (s_flight x) (s_reported x) (s_world x) →
  good (task_steps (w_tasks (s_world y))) (s_flight y) (s_reported y) (s_world y).
Proof.
  destruct 1; cbn [s_world s_flight s_reported]; intros Hg.
  - by apply internal_good.
  - by eapply deliver_good.
  - by apply good_bus.
  - by eapply control_good.
  - destruct H as (Hp & Hd & _ & _ & Hr & Hb & Ht & Hi). rewrite Ht.
    eapply good_calm, Hg. apply calm_same; by rewrite ?Hp, ?Hd, ?Hr, ?Hb, ?Ht, ?Hi.
  - assert (w_tasks (reg_update s RUNNING w).2 = w_tasks w) as -> by apply reg_update_tasks.
    by apply running_good.
  - assert (w_tasks (reg_update s st w).2 = w_tasks w) as -> by apply reg_update_tasks.
    by apply report_good.
  - rewrite handle_tasks. by apply judge_good.
Qed.

Lemma fresh_good w : fresh w → good (task_steps (w_tasks w)) [] ∅ w.
Proof.
  intros (Ht & Hn & Hp & Hi & Hb & Hev & Hw & Hwf). rewrite Ht.
  assert (∀ s, finals_in w s = 0) as HF.
  { intros s. unfold finals_in, finals. apply length_zero_iff_nil.
    destruct (base.filter _ _) as [|[t d] l] eqn:El; [done|].
    assert ((t, d) ∈ base.filter (λ e, is_final s e = true) (sink_events (w_bus w)))
      as [Hf Hin]%list_elem_of_filter by (rewrite El; left).
    rewrite is_final_foreign in Hf; [done|]. by eapply Hev. }
  split; try done; [apply NoDup_nil_2|set_solver|intros s _; by left|set_solver|].
  rewrite Ht. set_solver.
Qed.
End system.

(** ** Properties *)

(** C3. No step is started twice. From a freshly started scheduler without barrier steps and
    without a fault injector, in every state that any interleaving of dispatch tasks, scans, forced
    scans, event deliveries, pauses, single steps, shutdowns, foreign events, environment changes
    and executor reports can reach, no step has two executions in flight: each one that is in
    flight is on record as notified, is not awaiting a judgement, and no task is about to
    dispatch it. (A second start or stop, loop steps and new registrations are no steps of the
    model; barriers and injectors do break the property, see Divergences.v.) *)
Theorem single_flight {E : SchedulerEnv} (w0 : World) (y : Sys) (Hfresh : fresh w0)
    (Hreach : rtc sys_step (mkSys w0 [] ∅) y) :
  NoDup (s_flight y)
  ∧ ∀ s, s ∈ s_flight y →
      s ∈ notified_ready (w_disp (s_world y)) ∧ s ∉ s_reported y
      ∧ s ∉ task_steps (w_tasks (s_world y)).
Proof.
  assert (good (task_steps (w_tasks (s_world y))) (s_flight y) (s_reported y) (s_world y)) as Hg.
  { apply fresh_good in Hfresh. remember (mkSys w0 [] ∅) as x eqn:Ex.
    assert (good (task_steps (w_tasks (s_world x))) (s_flight x) (s_reported x) (s_world x)) as Hx
      by by subst.
    clear Ex Hfresh. induction Hreach; eauto using sys_step_good. }
  split; [apply (g_nodup _ _ _ _ Hg)|]. intros s Hs.
  by destruct (g_flight _ _ _ _ Hg s Hs) as (? & _ & ? & ?).
Qed.

(** The plain scheduler over one step "a" that waits for nothing. *)
#[local] Existing Instance plain_env.

Definition plain_registry : StepRegistry := (register "a" None None (reg_init true)).2.
Definition plain_world : World :=
  (scheduler_start (new_scheduler plain_registry (vs_init true) (rm_init true) None None None
                      None None bus_init plain_os)).2.

(** Two iterations of the loop task: the yield, then the scan that starts "a". *)
Definition plain_yielded : World := loop_top plain_world.
Definition plain_scanned : World := loop_scan 0 plain_yielded.

Lemma single_flight_witness :
  let y := mkSys plain_scanned
             (([] ++ new_starts plain_world plain_yielded)
              ++ new_starts plain_yielded plain_scanned) ∅ in
  s_flight y = ["a"] ∧ NoDup (s_flight y).
Proof.
  split; [vm_compute; reflexivity|].
  refine (proj1 (single_flight plain_world _ _ _)).
  - split_and!; try reflexivity; try (intros t d Hin; by apply elem_of_nil in Hin).
    + split; [vm_compute; apply le_n|]. intros t Ht. destruct t; try reflexivity;
        vm_compute in Ht; repeat (apply elem_of_cons in Ht as [Ht|Ht]; [discriminate Ht|]);
        by apply elem_of_nil in Ht.
    + apply NoDup_singleton.
  - eapply rtc_l; [|eapply rtc_l; [|apply rtc_refl]].
    + apply Sy_internal. apply In_loop. reflexivity.
    + apply Sy_internal. apply In_loop. reflexivity.
Defined.
