(* ===== verification/Starts.v ===== *)
(** * When a step is started

    What must hold for a STEP_STARTED event to be published, on both dispatch paths
    and with every feature on (barriers and injected faults included): nothing starts
    while the scheduler is paused, and a dispatch task starts its own step only, once,
    and only if every check of the code passes. *)

From stdpp Require Import sorting.
From S2P Require Import Prelude PyDict PyStr Types VariableSpace EventBus ResourceManager ConditionEvaluator StepRegistry EdgeBreakpoints UutSync StateSnapshot Scheduler Dispatch System.

Section starts.
Context {E : SchedulerEnv}.

(** From [q0] on the queue has grown by events that start the steps [l]. *)
Definition grown (q0 : list (option Event)) (l : list string) (w : World) : Prop :=
  ∃ q, eb_queue (w_bus w) = q0 ++ q ∧ started q = l.
Notation silent q0 := (grown q0 []).

(** The same with the scheduler paused. *)
Definition hushed (q0 : list (option Event)) (w : World) : Prop :=
  paused (w_gate w) = true ∧ silent q0 w.

Lemma silent_refl w : silent (eb_queue (w_bus w)) w.
Proof. exists []. by rewrite app_nil_r. Qed.

Lemma grown_starts l w w' : grown (eb_queue (w_bus w)) l w' → new_starts w w' = l.
Proof. intros (q & Hq & Hs). unfold new_starts. rewrite Hq. by rewrite drop_app_length. Qed.

(** A property of worlds that publishing other events, registry updates, the
    dispatch bookkeeping and new tasks keep: both of the above are. *)
Record robust (I : World → Prop) : Prop := {
  rb_disp : ∀ f, preserves I (on_disp f);
  rb_reg : ∀ A (m : M StepRegistry A), preserves I (on_reg m);
  rb_update : ∀ s st, preserves I (reg_update s st);
  rb_pub : ∀ t d, t ≠ STEP_STARTED → preserves I (bus_pub t d);
  rb_spawn : ∀ t, preserves I (spawn t);
  rb_mgr : ∀ f, preserves I (modify (λ w, set_mgr (f (w_uuts w)) w));
  rb_injector : ∀ x, preserves I (modify (set_injector x))
}.

Lemma grown_pub q0 l t d w :
  grown q0 l w →
  grown q0 (l ++ started [Some (mkEvent t d (get_event_category t))]) (bus_pub t d w).2.
Proof.
  intros (q & Hq & Hs). exists (q ++ [Some (mkEvent t d (get_event_category t))]).
  split.
  { change (eb_queue (w_bus w) ++ [Some (mkEvent t d (get_event_category t))]
      = q0 ++ q ++ [Some (mkEvent t d (get_event_category t))]).
    by rewrite Hq, <-app_assoc. }
  unfold started in *. by rewrite omap_app, Hs.
Qed.

Lemma grown_pub_other q0 l t d w :
  t ≠ STEP_STARTED → grown q0 l w → grown q0 l (bus_pub t d w).2.
Proof.
  intros Ht Hw. apply (grown_pub _ _ t d) in Hw. unfold started in Hw. cbn in Hw.
  by rewrite decide_False, app_nil_r in Hw.
Qed.

Lemma reg_update_queue s st w :
  eb_queue (w_bus (reg_update s st w).2) = eb_queue (w_bus w)
  ∧ w_gate (reg_update s st w).2 = w_gate w.
Proof.
  destruct (status_of w s) as [old|] eqn:Eo; [|by rewrite reg_update_unregistered].
  by destruct (reg_update_inv s st w old Eo) as (w' & -> & _ & _ & _ & _ & _ & _ & ? & _ & ? & _).
Qed.

Lemma grown_robust q0 l : robust (grown q0 l).
Proof.
  split; try (intros; intros w Hw; exact Hw).
  - intros A m w Hw. unfold on_reg, zoom. by destruct (m (w_reg w)).
  - intros s st w Hw. unfold grown. by rewrite (proj1 (reg_update_queue s st w)).
  - intros t d Ht w. by apply grown_pub_other.
Qed.

Lemma hushed_robust q0 : robust (hushed q0).
Proof.
  split; try (intros; intros w Hw; exact Hw).
  - intros A m w Hw. unfold on_reg, zoom. by destruct (m (w_reg w)).
  - intros s st w Hw. unfold hushed, grown. destruct (reg_update_queue s st w) as [-> ->]. done.
  - intros t d Ht w [Hp Hw]. split; [done|]. by apply grown_pub_other.
Qed.

Section robust.
Variable I : World → Prop.
Hypothesis HI : robust I.

#[local] Hint Extern 1 (preserves I _) =>
    first [apply (rb_disp I HI) | apply (rb_reg I HI) | apply (rb_update I HI)
    | apply (rb_spawn I HI) | apply (rb_injector I HI)
    | apply (rb_pub I HI); discriminate] : ate.

(** Case analysis and the rules of [preserves], down to the primitives. *)
Ltac keep :=
  repeat first
  [ done
    | solve [auto with ate nocore]
    | apply preserves_try_except; [|intros ? ? ?; simplify_eq]
    | apply preserves_bind; [|intros ?]
    | apply preserves_for_each; intros ?
    | case_match; simplify_eq
    | case_decide; simplify_eq ].

Lemma update_or_register_keeps s st : preserves I (update_or_register s st).
Proof. unfold update_or_register. keep. Qed.

Lemma settle_failure_keeps s c st : preserves I (settle_terminal_failure s c st).
Proof. unfold settle_terminal_failure. keep. Qed.
#[local] Hint Resolve update_or_register_keeps settle_failure_keeps : ate.

Lemma handle_result_keeps s st : preserves I (handle_step_result s st).
Proof. unfold handle_step_result. keep. Qed.
#[local] Hint Resolve handle_result_keeps : ate.

Lemma fault_keeps s : preserves I (check_scheduler_fault s).
Proof. unfold check_scheduler_fault. keep. Qed.

Lemma discard_keeps s : preserves I (discard_pending s).
Proof. unfold discard_pending. keep. Qed.
#[local] Hint Resolve discard_keeps fault_keeps : ate.

Lemma schedule_keeps k : preserves I (schedule_dispatch_for_key k).
Proof. unfold schedule_dispatch_for_key, schedule_dispatch. keep. Qed.
#[local] Hint Resolve schedule_keeps : ate.

Lemma skipped_keeps s r : preserves I (handle_step_skipped s r).
Proof. unfold handle_step_skipped. keep. Qed.

Lemma skip_step_keeps s w : preserves I (skip_step s w).
Proof.
  unfold skip_step. destruct (get_skip_reason w s); [apply skipped_keeps|apply preserves_raise].
Qed.

Lemma barrier_settle_keeps s n m : preserves I (barrier_settle s n m).
Proof.
  unfold barrier_settle. case_decide; [keep|].
  apply preserves_bind; [|intros []; keep].
  apply (rb_mgr I HI (λ u, (λ m', foldl (λ m uid, fail_missing n uid m) m'
              (merge_sort String.le (elements m))) <$> u)).
Qed.
#[local] Hint Resolve skipped_keeps barrier_settle_keeps : ate.

Lemma run_barrier_keeps s : preserves I (run_barrier_step s).
Proof. unfold run_barrier_step. keep. Qed.
#[local] Hint Resolve run_barrier_keeps : ate.

Lemma start_barrier_keeps s : preserves I (start_barrier s).
Proof. unfold start_barrier. keep. Qed.
End robust.

(** ** While paused *)

Lemma gate_hushed q0 s w :
  hushed q0 w → gate_before_dispatch s w = (Ok GatePaused, w).
Proof. intros [Hp _]. unfold gate_before_dispatch. by rewrite bind_get, Hp. Qed.

Lemma scan_start_hushed q0 s : preserves (hushed q0) (scan_start s).
Proof.
  intros w Hw. unfold scan_start. by rewrite (bind_ok _ _ _ _ _ (gate_hushed _ s w Hw)).
Qed.

Lemma scan_one_hushed q0 s : preserves (hushed q0) (scan_one s).
Proof.
  unfold scan_one. apply preserves_bind; [apply preserves_get|]. intros w.
  destruct (_ || _); [apply preserves_ret|].
  apply preserves_bind; [apply preserves_lift|]. intros [].
  - apply preserves_bind; [|intros []; apply preserves_ret].
    apply skip_step_keeps, hushed_robust.
  - destruct (negb _); [apply preserves_ret|].
    apply preserves_bind; [apply fault_keeps, hushed_robust|].
    intros []; [apply preserves_ret|apply scan_start_hushed].
Qed.

Lemma scan_steps_hushed q0 l : preserves (hushed q0) (scan_steps l).
Proof.
  induction l as [|s l IH]; cbn; [apply preserves_ret|].
  apply preserves_bind; [apply scan_one_hushed|].
  intros [[]|]; try apply preserves_ret; apply IH.
Qed.

Lemma after_scan_hushed q0 b x : hushed q0 x.2 → hushed q0 (after_scan b x).
Proof. destruct x as [[[]|e] w]; by destruct b. Qed.

Lemma emergency_hushed q0 w : hushed q0 w → emergency_scan w = (Ok ScanOver, w).
Proof. intros [Hp _]. unfold emergency_scan. by rewrite bind_get, Hp. Qed.

Lemma dispatch_hushed q0 s w : hushed q0 w → hushed q0 (dispatch_step s w).
Proof.
  intros Hw. unfold dispatch_step, dispatch_body.
  rewrite (bind_ok _ _ _ _ _ (gate_hushed _ s w Hw)). cbn. done.
Qed.

(** Nothing starts while the scheduler is paused: no task and no turn of the scan
    loop, run in a paused state, publishes a STEP_STARTED, whatever barriers complete
    or faults are injected meanwhile, and the scheduler stays paused. *)
Theorem pause_blocks_starts (w w' : World) (Hint : internal w w')
  (Hp : paused (w_gate w) = true) :
  new_starts w w' = [] ∧ paused (w_gate w') = true.
Proof.
  cut (hushed (eb_queue (w_bus w)) w').
  { intros [? ?]. split; [by apply grown_starts|done]. }
  assert (hushed (eb_queue (w_bus w)) w) as Hw by (split; [done|apply silent_refl]).
  revert Hw. generalize (eb_queue (w_bus w)) as q0. intros q0 Hw.
  destruct Hint as [i t missing w w' Hi Hr|w w' Hl].
  - set (w0 := set_tasks (delete i (w_tasks w)) w) in *.
    assert (hushed q0 w0) as H0 by exact Hw. clearbody w0.
    destruct t as [s [| |]|s [| |]|s n ids [[b rest]|]|]; cbn [run_task] in Hr; try done;
      injection Hr as <-.
    + destruct (pause_event _); [by apply dispatch_hushed|done].
    + by apply dispatch_hushed.
    + done.
    + apply after_scan_hushed. apply (preserves_bind (hushed q0)); [|intros []|done].
      * apply barrier_settle_keeps, hushed_robust.
      * apply scan_steps_hushed.
    + apply (discard_keeps (hushed q0) (hushed_robust q0) s).
      by apply (barrier_settle_keeps (hushed q0) (hushed_robust q0)).
    + rewrite (emergency_hushed _ _ H0). by apply after_scan_hushed.
  - unfold loop_step in Hl.
    assert (hushed q0 (loop_top w)) as Htop by (unfold loop_top; by destruct (_ && _)).
    destruct (loop_at (w_life w)); try done; injection Hl as <-; [done| |].
    + unfold loop_scan. destruct (_ || _); [|done].
      rewrite (emergency_hushed _ _ Hw). by apply after_scan_hushed.
    + unfold loop_wake. by destruct (stop_event _).
Qed.

(** ** What a dispatch checks *)

(** The worlds a dispatch decides in: same plan, registry, variables, resources,
    units, bookkeeping and clock. *)
Definition same_inputs (w w' : World) : Prop :=
  w_plan w' = w_plan w ∧ w_reg w' = w_reg w ∧ w_vs w' = w_vs w ∧ w_rm w' = w_rm w
    ∧ w_uuts w' = w_uuts w ∧ w_disp w' = w_disp w ∧ w_os w' = w_os w
    ∧ w_adaptive w' = w_adaptive w ∧ w_injector w' = w_injector w
    ∧ force_next_pending (w_gate w') = force_next_pending (w_gate w).

Lemma skip_ext s w w' : same_inputs w w' → evaluate_step_skip w' s = evaluate_step_skip w s.
Proof.
  intros (Hp & Hr & Hv & Hm & _ & _ & Ho & Ha & _).
  unfold evaluate_step_skip, basic_skip, adaptive_rule, evaluate_skip_expression, config_skip_if.
  by rewrite Hp, Hr, Hv, Hm, Ho, Ha.
Qed.

Lemma can_schedule_ext s w w' : same_inputs w w' → can_schedule w' s = can_schedule w s.
Proof.
  intros (Hp & _ & _ & _ & Hu & Hd & _). unfold can_schedule. by rewrite Hp, Hu, Hd.
Qed.

(** Every check [_dispatch_step] makes before it starts a step. *)
Definition may_start (w : World) (s : string) : Prop :=
  gate_open w s
    ∧ sr_steps (w_reg w) !! s = Some PENDING
    ∧ (force_next_pending (w_gate w) = true ∨ evaluate_step_skip w s = Ok false)
    ∧ s ∉ notified_ready (w_disp w)
    ∧ (∃ l, get_ready_steps simple_eval (w_reg w) (Some (w_vs w)) (Some (w_rm w))
      (os_now (w_os w)) = Ok l ∧ s ∈ l)
    ∧ can_schedule w s = true
    ∧ (∀ inj, w_injector w = Some inj → (check_scheduler_raise s inj).1 = None).

Lemma take_force_spec w :
  ∃ w', take_force_next w = (Ok (force_next_pending (w_gate w)), w')
  ∧ w_bus w' = w_bus w
  ∧ w_plan w' = w_plan w ∧ w_reg w' = w_reg w ∧ w_vs w' = w_vs w ∧ w_rm w' = w_rm w
  ∧ w_uuts w' = w_uuts w ∧ w_disp w' = w_disp w ∧ w_os w' = w_os w
  ∧ w_adaptive w' = w_adaptive w ∧ w_injector w' = w_injector w.
Proof.
  unfold take_force_next. rewrite bind_get.
  destruct (force_next_pending _); eexists; split; try reflexivity; by split_and!.
Qed.

Lemma start_step_grown q0 s w :
  silent q0 w → grown q0 [] (start_step s w).2 ∨ grown q0 [s] (start_step s w).2.
Proof.
  intros Hw. unfold start_step. rewrite bind_get, bind_unit by done.
  set (w1 := (on_disp _ w).2). assert (silent q0 w1) as H1 by exact Hw. clearbody w1.
  destruct (on_reg (get_condition s) w1) as [[c|e] w2] eqn:Ec.
  2: { left. rewrite (bind_raise _ _ _ _ _ Ec). cbn.
  pose proof (rb_reg _ (grown_robust q0 []) _ (get_condition s) w1 H1) as H2.
  by rewrite Ec in H2. }
  rewrite (bind_ok _ _ _ _ _ Ec).
  pose proof (rb_reg _ (grown_robust q0 []) _ (get_condition s) w1 H1) as H2.
  rewrite Ec in H2. cbn in H2. right.
  assert ((check_pool_exhaustion c w2).1 = Ok tt ∧ silent q0 (check_pool_exhaustion c w2).2)
    as [Hok H3].
  { unfold check_pool_exhaustion. rewrite bind_get. repeat case_match; try done.
    split; [done|]. by apply grown_pub_other. }
  rewrite (bind_unit _ _ _ Hok). set (w3 := (check_pool_exhaustion c w2).2) in *. clearbody w3.
  assert ((claim_uut s w3).1 = Ok tt ∧ silent q0 (claim_uut s w3).2) as [Hok4 H4].
  { unfold claim_uut. rewrite bind_get. by repeat case_match. }
  rewrite (bind_unit _ _ _ Hok4). set (w4 := (claim_uut s w3).2) in *. clearbody w4.
  rewrite bind_unit by done. set (w5 := (bus_pub _ _ w4).2).
  assert (grown q0 [s] w5) as H5 by by apply (grown_pub q0 [] STEP_STARTED).
  clearbody w5. rewrite bind_unit by done.
  by apply (start_barrier_keeps _ (grown_robust q0 [s]) s).
Qed.

Lemma dispatch_open_grown q0 s w :
  silent q0 w →
  silent q0 (dispatch_open s w).2
  ∨ (grown q0 [s] (dispatch_open s w).2
    ∧ sr_steps (w_reg w) !! s = Some PENDING
    ∧ (force_next_pending (w_gate w) = true ∨ evaluate_step_skip w s = Ok false)
    ∧ s ∉ notified_ready (w_disp w)
    ∧ (∃ l, get_ready_steps simple_eval (w_reg w) (Some (w_vs w)) (Some (w_rm w))
      (os_now (w_os w)) = Ok l ∧ s ∈ l)
    ∧ can_schedule w s = true
    ∧ (∀ inj, w_injector w = Some inj → (check_scheduler_raise s inj).1 = None)).
Proof.
  intros Hw. unfold dispatch_open. rewrite bind_get.
  destruct (sr_steps (w_reg w) !! s) as [st|] eqn:Est; [|by left].
  destruct (bool_decide (st = PENDING)) eqn:Ep; cbn [negb]; [|by left].
  apply bool_decide_eq_true in Ep as ->.
  destruct (take_force_spec w) as (w1 & Hf & Hb & Hp & Hr & Hv & Hm & Hu & Hd & Ho & Ha & Hi).
  rewrite (bind_ok _ _ _ _ _ Hf), bind_get.
  assert (silent q0 w1) as H1 by (unfold grown; by rewrite Hb).
  assert (evaluate_step_skip w1 s = evaluate_step_skip w s) as Hskip.
  { unfold evaluate_step_skip, basic_skip, adaptive_rule, evaluate_skip_expression, config_skip_if.
    by rewrite Hp, Hr, Hv, Hm, Ho, Ha. }
  rewrite bind_lift, Hskip.
  destruct (if force_next_pending (w_gate w) then _ else _) as [[]|e] eqn:Esk; [| |by left].
  { left. apply preserves_bind with (I := silent q0); [|intros []; apply preserves_ret|done].
    apply skip_step_keeps, grown_robust. }
  destruct (bool_decide _) eqn:En; [by left|]. apply bool_decide_eq_false in En.
  unfold ready_steps. unfold bind at 1 3. rewrite bind_get, Hr, Hv, Hm, Ho.
  destruct (get_ready_steps _ _ _ _ _) as [l|e] eqn:El; cbn; [|by left].
  destruct (str_in s l) eqn:Eq; cbn [negb]; [|by left]. apply bool_decide_eq_true in Eq.
  unfold dispatch_ready. rewrite !bind_get.
  assert (can_schedule w1 s = can_schedule w s) as ->.
  { unfold can_schedule. by rewrite Hp, Hu, Hd. }
  destruct (can_schedule w s) eqn:Ecs; cbn [negb]; [|by left].
  pose proof (fault_keeps _ (grown_robust q0 []) s w1 H1) as Hfk.
  destruct (check_scheduler_fault s w1) as [[b|e] w2] eqn:Efa; cbn in Hfk.
  2: { left. by rewrite !(bind_raise _ _ _ _ _ Efa). }
  rewrite !(bind_ok _ _ _ _ _ Efa). destruct b; [by left|].
  assert (∀ inj, w_injector w = Some inj → (check_scheduler_raise s inj).1 = None) as Hinj.
  { intros inj Hinj. rewrite <-Hi in Hinj. revert Efa. unfold check_scheduler_fault.
    rewrite bind_get, Hinj. destruct (check_scheduler_raise s inj) as [[m|] inj']; [|done].
    rewrite bind_unit by done. unfold bind. cbn.
    repeat (case_match; try done; simplify_eq). }
  destruct (start_step_grown q0 s w2 Hfk) as [?|?]; [by left|right].
  rewrite Hd in En. split_and!; try done; [|by eexists].
  destruct (force_next_pending _); [by left|by right].
Qed.

Lemma dispatch_step_starts (s : string) (w : World) :
  let w' := dispatch_step s w in
  new_starts w w' = [] ∨ (new_starts w w' = [s] ∧ may_start w s).
Proof.
  cbn zeta.
  cut (silent (eb_queue (w_bus w)) (dispatch_step s w)
    ∨ (grown (eb_queue (w_bus w)) [s] (dispatch_step s w) ∧ may_start w s)).
  { intros [?|[? ?]]; [left|right; split; [|done]]; by apply grown_starts. }
  pose proof (silent_refl w) as Hw. revert Hw. generalize (eb_queue (w_bus w)) as q0.
  intros q0 Hw. unfold dispatch_step, dispatch_body.
  destruct (gate_spec s w) as (g & w1 & Hg & Hd & Hr & Hp & _ & Hv & Hm & Hu & Hi & Ha & Ho & _ & _ & H).
  rewrite (bind_ok _ _ _ _ _ Hg). destruct g; cbn [ret].
  - destruct H as (Hopen & HG & HB).
    assert (silent q0 w1) as H1 by (unfold grown; by rewrite HB).
    assert (same_inputs w w1) as Hsame by (split_and!; try done; by rewrite HG).
    destruct (dispatch_open_grown q0 s w1 H1) as [H2|(H2 & Hst & Hf & Hn & Hl & Hc & Hinj)].
    + left. destruct (dispatch_open s w1) as [[[]|e] w2]; done.
    + right. split; [destruct (dispatch_open s w1) as [[[]|e] w2]; done|].
      rewrite (skip_ext s _ _ Hsame) in Hf. rewrite (can_schedule_ext s _ _ Hsame) in Hc.
      rewrite Hr, Hv, Hm, Ho in *. rewrite Hd in Hn. rewrite HG in Hf.
      split_and!; try done. intros inj. rewrite <-Hi. apply Hinj.
  - left. by destruct H as [_ ->].
  - left. destruct H as (_ & _ & _ & _ & _ & HB). cbn. unfold grown. cbn. by rewrite HB.
  - left. destruct H as (_ & _ & _ & _ & en & bp & en' & _ & _ & _ & HB).
    cbn. unfold grown. cbn. rewrite HB.
    by apply (grown_pub_other q0 [] BREAKPOINT_HIT _ w).
Qed.

(** C4. A dispatch task starts its own step only, at most once, and only if every check
    passes in the state it runs in: the gate is open, the step is PENDING, no skip rule
    holds (or the operator forces the next step), it is not on record as started, it is
    among the ready steps, its unit is free, and no fault is injected. *)
Theorem dispatch_starts_only_ready (s : string) (w : World) :
  let w' := dispatch_step s w in
  new_starts w w' = [] ∨ (new_starts w w' = [s] ∧ may_start w s).
Proof. apply dispatch_step_starts. Qed.
End starts.

(** ** Witnesses *)

#[local] Existing Instance plain_env.

(** The plain scheduler, paused before its first scan. *)
Definition paused_world : World := (pause (loop_top plain_world)).2.

Lemma pause_blocks_starts_witness : new_starts paused_world (loop_scan 0 paused_world) = [].
Proof.
  refine (proj1 (pause_blocks_starts paused_world (loop_scan 0 paused_world) _ _)).
  - apply In_loop. reflexivity.
  - reflexivity.
Defined.

(** Without the pause the same turn starts the step. *)
Example unpaused_starts : new_starts (loop_top plain_world) (loop_scan 0 (loop_top plain_world)) = ["a"].
Proof. vm_compute. reflexivity. Qed.
