(* ===== verification/Bootstrap.v ===== *)
(** * From a test plan to a booted scheduler (class [PlanBootstrapper] of
    scheduler/jetstream_worker.py)

    The worker flattens the plan it receives, registers every step with the condition it
    derives from the step, and hands the scheduler the positions of the steps in the plan
    and their skip expressions. Loops are entries of their own, followed by their bodies.
    [plan_entries] is the reference: the entries of a plan, in order. The second half of
    the file composes this with the scheduler and shows what becomes of a step that has a
    [skip_if] expression. *)

From Stdlib Require Import FunctionalExtensionality.
From S2P Require Import Prelude PyDict PyStr Types VariableSpace EventBus ResourceManager ConditionEvaluator StepRegistry EdgeBreakpoints UutSync StateSnapshot Scheduler Dispatch Dsl System Starts.

Section bootstrap.
Context {E : SchedulerEnv}.

Definition MAX_RECURSION_DEPTH : Z := 10.

Definition skip_condition (e : string) : Condition := mkCondition None None (Some e) None.

Definition step_condition (step : YamlStep) : option Condition :=
  match ys_skip_if step with
  | Some e => Some (skip_condition e)
  | None =>
      match ys_preconditions step with
      | p :: _ => Some (mkCondition (Some p) (Some "PASSED") None None)
      | [] => None
      end
  end.

Definition loop_condition (loop : LoopSpec) : option Condition := skip_condition <$> yl_skip_if loop.

(** ** Flattening *)

(** [result] and [self._positions], which [_flatten_items] fills. *)
Record Flat : Type := mkFlat {
  fl_steps : list (string * option Condition);
  fl_positions : pydict string StepPosition
}.

Definition flat_init : Flat := mkFlat [] ∅.

Definition add_flat (id : string) (c : option Condition) (p : StepPosition) (f : Flat) : Flat :=
  mkFlat (fl_steps f ++ [(id, c)]) (<[id := p]> (fl_positions f)).

(** [for order, item in enumerate(items)] *)
Definition enumerate_each {A S} (body : Z → A → M S unit) : Z → list A → M S unit :=
  fix go order l :=
    match l with
    | [] => ret tt
    | x :: l' => body order x ;;; go (order + 1)%Z l'
    end.

Definition nesting_error : exc :=
  CustomError "RecursionError"
    ("YamlLoop nesting exceeds max depth " +:+ pretty MAX_RECURSION_DEPTH).

Definition below_limit (depth : Z) (m : M Flat unit) : M Flat unit :=
  if (MAX_RECURSION_DEPTH <? depth)%Z then raise nesting_error else m.

Fixpoint flatten_item (depth : Z) (parent : option string) (order : Z) (item : YamlNode) :
    M Flat unit :=
  match item with
  | StepNode s _ => modify (add_flat (ys_id s) (step_condition s) (mkPos parent order depth))
  | LoopNode spec steps =>
      modify (add_flat (yl_id spec) (loop_condition spec) (mkPos parent order depth)) ;;;
      below_limit (depth + 1)
        (enumerate_each (flatten_item (depth + 1) (Some (yl_id spec))) 0 steps)
  end.

(** [_flatten_items] *)
Definition flatten_items (items : list YamlNode) (depth : Z) (parent : option string) :
    M Flat unit :=
  below_limit depth (enumerate_each (flatten_item depth parent) 0 items).

(** [_flatten]: what it returns, and the positions it leaves. *)
Definition flatten (plan : YamlPlan) : res Flat :=
  let '(r, f) := flatten_items (yp_steps plan) 0 None flat_init in
  match r with Ok _ => Ok f | Raise e => Raise e end.

Definition add_skip (id : string) (skip_if reason : option string)
    (result : pydict string (string * option string)) : pydict string (string * option string) :=
  match skip_if with Some e => <[id := (e, reason)]> result | None => result end.

(** [_collect_skip_conditions] *)
Fixpoint collect_skip (result : pydict string (string * option string)) (item : YamlNode) :
    pydict string (string * option string) :=
  match item with
  | StepNode s _ => add_skip (ys_id s) (ys_skip_if s) (ys_skip_reason s) result
  | LoopNode spec steps =>
      foldl collect_skip (add_skip (yl_id spec) (yl_skip_if spec) (yl_skip_reason spec) result)
        steps
  end.

(** ** The bootstrapper *)

(** The constructor: fresh components wired together. *)
Definition new_bootstrapper (ast_nodes : string → option (list string)) (breakpoint_defs : pyval)
    (injector : FaultInjector) (snapshot : option Disk) (os : Os) : World :=
  let edge_bps := (parse_breakpoint_defs ast_nodes breakpoint_defs).1 in
  new_scheduler (reg_init true) (vs_init true) (rm_init true) None
    (match edge_bps with [] => None | _ => Some (new_engine edge_bps) end)
    (Some injector) None snapshot bus_init os.

Definition register_new (sc : string * option Condition) : M World unit :=
  w <- get ;;
  if has_step (w_reg w) sc.1 then ret tt else on_reg (register sc.1 sc.2 None).

Definition bootstrap (plan : YamlPlan) : M World unit :=
  flat <- lift (flatten plan) ;;
  for_each (fl_steps flat) register_new ;;;
  modify (compile_plan (fl_steps flat)) ;;;
  (if decide (items (fl_positions flat) = []) then ret tt
   else modify (register_step_hierarchy (fl_positions flat))) ;;;
  let skips := foldl collect_skip ∅ (yp_steps plan) in
  if decide (items skips = []) then ret tt else modify (register_skip_conditions skips).

(** ** The reference *)

Record PlanEntry : Type := mkEntry {
  pe_id : string;
  pe_condition : option Condition;
  pe_skip : option (string * option string);
  pe_position : StepPosition
}.

Definition skip_of (skip_if reason : option string) : option (string * option string) :=
  (λ e, (e, reason)) <$> skip_if.

(** The concatenation of [f] over the items, with their ranks. *)
Definition enumerated {A B} (f : Z → A → list B) : Z → list A → list B :=
  fix go order l := match l with [] => [] | x :: l' => f order x ++ go (order + 1)%Z l' end.

Fixpoint entries (depth : Z) (parent : option string) (order : Z) (item : YamlNode) :
    list PlanEntry :=
  match item with
  | StepNode s _ =>
      [mkEntry (ys_id s) (step_condition s) (skip_of (ys_skip_if s) (ys_skip_reason s))
         (mkPos parent order depth)]
  | LoopNode spec steps =>
      mkEntry (yl_id spec) (loop_condition spec) (skip_of (yl_skip_if spec) (yl_skip_reason spec))
        (mkPos parent order depth)
      :: enumerated (entries (depth + 1) (Some (yl_id spec))) 0 steps
  end.

Definition plan_entries (plan : YamlPlan) : list PlanEntry :=
  enumerated (entries 0 None) 0 (yp_steps plan).

(** How deep loops are nested. *)
Fixpoint loop_levels (item : YamlNode) : Z :=
  match item with
  | StepNode _ _ => 0
  | LoopNode _ steps => 1 + foldr (λ n m, Z.max (loop_levels n) m) 0%Z steps
  end.
Definition plan_levels (items : list YamlNode) : Z :=
  foldr (λ n m, Z.max (loop_levels n) m) 0%Z items.

(** What a list of entries adds to the two accumulators. *)
Definition flat_add (l : list PlanEntry) (f : Flat) : Flat :=
  foldl (λ f e, add_flat (pe_id e) (pe_condition e) (pe_position e) f) f l.
Definition skips_add (l : list PlanEntry) (d : pydict string (string * option string)) :=
  foldl (λ d e, opt_set (pe_id e) (pe_skip e) d) d l.

Definition first_entry (s : string) (l : list PlanEntry) : option PlanEntry :=
  head (base.filter (λ e, pe_id e = s) l).
Definition last_entry (s : string) (l : list PlanEntry) : option PlanEntry :=
  last (base.filter (λ e, pe_id e = s) l).

Lemma plan_levels_nonneg l : (0 <= plan_levels l)%Z.
Proof. induction l as [|n l IH]; cbn; [lia|]. fold (plan_levels l). lia. Qed.

Lemma plan_levels_cons n l : plan_levels (n :: l) = Z.max (loop_levels n) (plan_levels l).
Proof. done. Qed.

Lemma flat_add_app l l' f : flat_add (l ++ l') f = flat_add l' (flat_add l f).
Proof. apply foldl_app. Qed.

Lemma enumerate_each_fails {A S} (body : Z → A → M S unit) l (P : exc → Prop) :
  Exists (λ x, ∀ o s, ∃ e s', body o x s = (Raise e, s') ∧ P e) l →
  (∀ o x s, match body o x s with (Raise e, _) => P e | _ => True end) →
  ∀ o s, ∃ e s', enumerate_each body o l s = (Raise e, s') ∧ P e.
Proof.
  intros Hl Hb. induction l as [|x l IH]; intros o s; [by apply Exists_nil in Hl|].
  cbn. unfold bind. specialize (Hb o x s) as Hx.
  destruct (body o x s) as [[[]|e] s'] eqn:Ex; [|by do 2 eexists].
  apply Exists_cons in Hl as [Hl|Hl]; [|by apply IH].
  destruct (Hl o s) as (e & s1 & He & _). by rewrite Ex in He.
Qed.

Lemma enumerate_each_runs {A} (body : Z → A → M Flat unit) (f : Z → A → list PlanEntry) l :
  Forall (λ x, ∀ o s, body o x s = (Ok tt, flat_add (f o x) s)) l →
  ∀ o s, enumerate_each body o l s = (Ok tt, flat_add (enumerated f o l) s).
Proof.
  induction 1 as [|x l Hx Hl IH]; intros o s; [done|].
  change (enumerated f o (x :: l)) with (f o x ++ enumerated f (o + 1) l). rewrite flat_add_app.
  cbn. rewrite (bind_ok _ _ _ _ _ (Hx o s)). apply IH.
Qed.

(** Only the nesting stops the flattening. *)
Lemma flatten_item_raises n : ∀ depth parent order s,
  match flatten_item depth parent order n s with (Raise e, _) => e = nesting_error | _ => True end.
Proof.
  induction n as [st inner _|spec steps IH] using YamlNode_ind'; intros depth parent order s; [done|].
  cbn [flatten_item]. rewrite bind_unit by done. unfold below_limit.
  destruct (MAX_RECURSION_DEPTH <? depth + 1)%Z; [done|].
  cbn [modify snd]. set (s1 := add_flat _ _ _ s). clearbody s1. revert s1. generalize 0%Z as o.
  induction IH as [|n steps Hn _ IHs]; intros o s1; [done|]. cbn. unfold bind.
  specialize (Hn (depth + 1)%Z (Some (yl_id spec)) o s1).
  destruct (flatten_item _ _ _ _ _) as [[[]|e] s2]; [apply IHs|done].
Qed.

(** What the flattening of an item does, below the limit and past it. *)
Definition flattens (depth : Z) (n : YamlNode) : Prop :=
  ∀ parent order s,
  if decide (depth + loop_levels n <= MAX_RECURSION_DEPTH)%Z
  then flatten_item depth parent order n s = (Ok tt, flat_add (entries depth parent order n) s)
  else ∃ s', flatten_item depth parent order n s = (Raise nesting_error, s').

Lemma flatten_list_spec depth parent l : Forall (flattens depth) l →
  (depth <= MAX_RECURSION_DEPTH)%Z → ∀ o s,
  if decide (depth + plan_levels l <= MAX_RECURSION_DEPTH)%Z
  then enumerate_each (flatten_item depth parent) o l s
       = (Ok tt, flat_add (enumerated (entries depth parent) o l) s)
  else ∃ s', enumerate_each (flatten_item depth parent) o l s = (Raise nesting_error, s').
Proof.
  intros Hl Hd o s. case_decide as Hdec.
  - apply enumerate_each_runs. induction Hl as [|n l Hn _ IH]; constructor.
    + intros o' s'. specialize (Hn parent o' s'). rewrite plan_levels_cons in Hdec.
      by rewrite decide_True in Hn by lia.
    + apply IH. rewrite plan_levels_cons in Hdec. lia.
  - destruct (enumerate_each_fails (flatten_item depth parent) l (.= nesting_error))
      with (o := o) (s := s) as (e & s' & He & ->); [| |by eexists].
    + induction Hl as [|n l Hn _ IH]; [cbn in Hdec; lia|].
      rewrite plan_levels_cons in Hdec. apply Exists_cons.
      destruct (decide (depth + loop_levels n <= MAX_RECURSION_DEPTH)%Z).
      * right. apply IH. lia.
      * left. intros o' s'. specialize (Hn parent o' s'). rewrite decide_False in Hn by lia.
        destruct Hn as [s2 Hn]. by do 2 eexists.
    + intros o' n s'. apply flatten_item_raises.
Qed.

Lemma flatten_item_spec n : ∀ depth, (depth <= MAX_RECURSION_DEPTH)%Z → flattens depth n.
Proof.
  induction n as [st inner _|spec steps IH] using YamlNode_ind'; intros depth Hd parent order s.
  { rewrite decide_True by (cbn; lia). done. }
  change (loop_levels (LoopNode spec steps)) with (1 + plan_levels steps)%Z.
  pose proof (plan_levels_nonneg steps) as Hn. cbn [flatten_item entries].
  rewrite bind_unit by done. cbn [modify snd].
  unfold below_limit. destruct (MAX_RECURSION_DEPTH <? depth + 1)%Z eqn:El.
  { rewrite decide_False by lia. by eexists. }
  apply Z.ltb_ge in El.
  assert (Forall (flattens (depth + 1)) steps) as Hall by (apply Forall_forall; intros n Hin; rewrite Forall_forall in IH; by apply IH).
  pose proof (flatten_list_spec (depth + 1) (Some (yl_id spec)) steps Hall El 0%Z
    (add_flat (yl_id spec) (loop_condition spec) (mkPos parent order depth) s)) as H.
  rewrite <-Z.add_assoc in H. exact H.
Qed.

Lemma flatten_spec plan :
  flatten plan = if decide (plan_levels (yp_steps plan) <= MAX_RECURSION_DEPTH)%Z
    then Ok (flat_add (plan_entries plan) flat_init) else Raise nesting_error.
Proof.
  assert (Forall (flattens 0) (yp_steps plan)) as Hall.
  { apply Forall_forall. intros n _. by apply flatten_item_spec. }
  pose proof (flatten_list_spec 0 None _ Hall ltac:(done) 0%Z flat_init) as H.
  unfold flatten. change (flatten_items (yp_steps plan) 0 None)
    with (enumerate_each (flatten_item 0 None) 0 (yp_steps plan)).
  rewrite Z.add_0_l in H. case_decide; [by rewrite H|]. by destruct H as [s' ->].
Qed.

(** ** The accumulators, entry by entry *)

Lemma flat_add_steps l f :
  fl_steps (flat_add l f) = fl_steps f ++ ((λ e, (pe_id e, pe_condition e)) <$> l).
Proof.
  revert f. induction l as [|e l IH]; intros f; [by rewrite app_nil_r|].
  change (flat_add (e :: l) f)
    with (flat_add l (add_flat (pe_id e) (pe_condition e) (pe_position e) f)).
  rewrite IH. cbn. by rewrite <-(assoc (++)).
Qed.

Lemma flat_add_positions l s :
  fl_positions (flat_add l flat_init) !! s = pe_position <$> last_entry s l.
Proof.
  unfold last_entry. induction l as [|e l IH] using rev_ind; [done|].
  rewrite flat_add_app. cbn [flat_add foldl add_flat fl_positions].
  rewrite dict_lookup_insert, filter_app, filter_cons, filter_nil, last_app. case_decide; subst; [done|].
  exact IH.
Qed.

Lemma skips_add_app l l' d : skips_add (l ++ l') d = skips_add l' (skips_add l d).
Proof. apply foldl_app. Qed.

Lemma collect_skip_spec n : ∀ depth parent order d,
  collect_skip d n = skips_add (entries depth parent order n) d.
Proof.
  induction n as [s inner _|spec steps IH] using YamlNode_ind'; intros depth parent order d.
  { cbn. unfold add_skip, opt_set, skip_of. by destruct (ys_skip_if s). }
  cbn [collect_skip entries].
  change (skips_add (?e :: ?l) d) with (skips_add l (opt_set (pe_id e) (pe_skip e) d)).
  cbn [pe_id pe_skip].
  replace (add_skip _ _ _ d)
    with (opt_set (yl_id spec) (skip_of (yl_skip_if spec) (yl_skip_reason spec)) d)
    by (unfold add_skip, skip_of, opt_set; by destruct (yl_skip_if spec)).
  generalize (opt_set (yl_id spec) (skip_of (yl_skip_if spec) (yl_skip_reason spec)) d) as d'.
  generalize 0%Z as o. clear d. induction IH as [|n l Hn _ IHl]; intros o d'; [done|].
  cbn [foldl]. rewrite (Hn (depth + 1)%Z (Some (yl_id spec)) o), IHl with (o := (o + 1)%Z).
  symmetry. apply skips_add_app.
Qed.

Lemma collect_plan plan : foldl collect_skip ∅ (yp_steps plan) = skips_add (plan_entries plan) ∅.
Proof.
  unfold plan_entries. generalize 0%Z at 2 as o.
  generalize (∅ : pydict string (string * option string)) as d.
  induction (yp_steps plan) as [|n l IH]; intros d o; [done|].
  cbn [foldl]. rewrite IH with (o := (o + 1)%Z), (collect_skip_spec n 0 None o).
  symmetry. apply skips_add_app.
Qed.

(** The last entry of a name that has a skip expression. *)
Definition skip_entry (s : string) (l : list PlanEntry) : option (string * option string) :=
  last (omap (λ e, if decide (pe_id e = s) then pe_skip e else None) l).

Lemma skips_add_lookup l s : skips_add l ∅ !! s = skip_entry s l.
Proof.
  unfold skip_entry. induction l as [|e l IH] using rev_ind; [done|].
  rewrite skips_add_app, omap_app, last_app. cbn. unfold opt_set. rewrite <-IH.
  destruct (pe_skip e) as [k|] eqn:Ek; [rewrite dict_lookup_insert|]; case_decide; cbn; done.
Qed.

(** ** Registration *)

Definition register_one (r : StepRegistry) (sc : string * option Condition) : StepRegistry :=
  if has_step r sc.1 then r
  else mkReg (<[sc.1 := PENDING]> (sr_steps r)) (opt_set sc.1 sc.2 (sr_conditions r))
         (sr_configs r) (<[sc.1 := 0%Z]> (sr_retry_counts r))
         (<[sc.1 := 0%Z]> (sr_repeat_counts r)) (sr_has_bus r).

Definition empty_id : exc := ValueError "step_id cannot be empty".

Lemma register_new_spec sc w :
  register_new sc w =
    if has_step (w_reg w) sc.1 then (Ok tt, w)
    else if is_blank sc.1 then (Raise empty_id, set_reg (w_reg w) w)
    else (Ok tt, set_reg (register_one (w_reg w) sc) w).
Proof.
  unfold register_new, register_one. rewrite bind_get.
  destruct (has_step (w_reg w) sc.1) eqn:Eh; [done|].
  unfold on_reg, zoom, register. destruct (is_blank sc.1); [done|]. rewrite bind_get.
  unfold has_step in Eh. by rewrite Eh.
Qed.

Lemma set_reg_id (w : World) : set_reg (w_reg w) w = w.
Proof. by destruct w. Qed.

Lemma register_all l : ∀ w,
  (∀ s, is_blank s = true → has_step (w_reg w) s = false) →
  if decide (Forall (λ sc, is_blank sc.1 = false) l)
  then for_each l register_new w = (Ok tt, set_reg (foldl register_one (w_reg w) l) w)
  else ∃ r, for_each l register_new w = (Raise empty_id, set_reg r w).
Proof.
  induction l as [|sc l IH]; intros w Hw.
  { rewrite decide_True by constructor. cbn. by rewrite set_reg_id. }
  assert (is_blank sc.1 = true ∨ register_new sc w = (Ok tt, set_reg (register_one (w_reg w) sc) w)
    ∧ is_blank sc.1 = false) as [Hb|[Hr Hb]].
  { rewrite register_new_spec. destruct (is_blank sc.1) eqn:Eb; [by left|right].
    unfold register_one. destruct (has_step _ _); by rewrite ?set_reg_id. }
  - rewrite decide_False by (intros [? _]%Forall_cons; congruence). exists (w_reg w).
    cbn [for_each]. rewrite (bind_raise _ _ _ empty_id (set_reg (w_reg w) w)); [done|].
    by rewrite register_new_spec, Hw, Hb.
  - cbn [for_each]. rewrite (bind_ok _ _ _ _ _ Hr).
    specialize (IH (set_reg (register_one (w_reg w) sc) w)).
    assert (∀ s, is_blank s = true → has_step (register_one (w_reg w) sc) s = false) as Hw'.
    { intros s Hs. specialize (Hw s Hs). revert Hw. unfold register_one.
      destruct (has_step (w_reg w) sc.1); [done|]. unfold has_step, has_key. cbn.
      rewrite dict_lookup_insert_ne; [done|]. intros <-. congruence. }
    specialize (IH Hw'). cbn [foldl].
    destruct (decide (Forall _ l)) as [Hl|Hl].
    + by rewrite decide_True by by constructor.
    + rewrite decide_False by by intros [_ ?]%Forall_cons. exact IH.
Qed.

Definition entry_steps (l : list PlanEntry) : list (string * option Condition) :=
  (λ e, (pe_id e, pe_condition e)) <$> l.
Definition registered (l : list PlanEntry) : StepRegistry :=
  foldl register_one (reg_init true) (entry_steps l).

Lemma registered_snoc l e :
  registered (l ++ [e]) = register_one (registered l) (pe_id e, pe_condition e).
Proof. unfold registered, entry_steps. by rewrite fmap_app, foldl_app. Qed.

Lemma first_entry_none s l : s ∉ pe_id <$> l → first_entry s l = None.
Proof.
  intros Hs. unfold first_entry. rewrite (proj2 (list_filter_empty _ l)); [done|].
  intros e' Hin' <-. apply Hs. by apply list_elem_of_fmap_2.
Qed.

Lemma first_entry_snoc s l e :
  first_entry s (l ++ [e]) =
    if decide (s ∈ pe_id <$> l) then first_entry s l
    else if decide (pe_id e = s) then Some e else None.
Proof.
  case_decide as Hin; [|apply first_entry_none in Hin]; unfold first_entry in *;
    rewrite filter_app, head_app.
  - destruct (head _) eqn:Eh; [done|]. exfalso. apply head_None in Eh.
    apply list_elem_of_fmap in Hin as (e' & -> & Hin).
    by apply (proj1 (list_filter_empty _ l) Eh e' Hin).
  - rewrite Hin, filter_cons, filter_nil. by case_decide.
Qed.

Lemma registered_spec l :
  (∀ s, sr_steps (registered l) !! s = if decide (s ∈ pe_id <$> l) then Some PENDING else None)
  ∧ (∀ s, sr_conditions (registered l) !! s = first_entry s l ≫= pe_condition)
  ∧ sr_configs (registered l) = ∅.
Proof.
  induction l as [|e l (Hs & Hc & Hf)] using rev_ind; [done|].
  assert (∀ s, s ∉ pe_id <$> l → sr_conditions (registered l) !! s = None) as Hnew.
  { intros s' Hs'. by rewrite Hc, first_entry_none. }
  rewrite registered_snoc. setoid_rewrite first_entry_snoc. rewrite fmap_app.
  cbn [fmap list_fmap]. unfold register_one, has_step, has_key. cbn [fst snd]. rewrite Hs.
  destruct (decide (pe_id e ∈ pe_id <$> l)) as [Hin|Hin].
  - rewrite bool_decide_true by eauto. split_and!; [intros s|intros s|done].
    + rewrite Hs. rewrite (decide_ext _ (s ∈ (pe_id <$> l) ++ [pe_id e])); [done|set_solver].
    + case_decide; [apply Hc|]. rewrite decide_False by by intros <-. by apply Hnew.
  - rewrite bool_decide_false by by intros [? ?].
    split_and!; [intros s|intros s|done]; cbn [sr_steps sr_conditions].
    + rewrite dict_lookup_insert, Hs.
      destruct (decide (pe_id e = s)) as [<-|Hne]; repeat case_decide; set_solver.
    + unfold opt_set. destruct (decide (pe_id e = s)) as [<-|Hne].
      * rewrite decide_False by done. cbn. destruct (pe_condition e); [|by apply Hnew].
        by rewrite dict_lookup_insert_eq.
      * transitivity (sr_conditions (registered l) !! s).
        { destruct (pe_condition e); [by rewrite dict_lookup_insert_ne|done]. }
        case_decide; [apply Hc|by apply Hnew].
Qed.

(** ** The booted scheduler *)

(** What the scheduler holds after the bootstrap of a plan with these entries. *)
Record booted (l : list PlanEntry) (w w' : World) : Prop := {
  bt_steps : ∀ s, sr_steps (w_reg w') !! s = if decide (s ∈ pe_id <$> l) then Some PENDING else None;
  bt_conditions : ∀ s, sr_conditions (w_reg w') !! s = first_entry s l ≫= pe_condition;
  bt_configs : sr_configs (w_reg w') = ∅;
  bt_index : dependency_index (w_plan w') = build_index (entry_steps l);
  bt_positions : ∀ s, step_positions (w_plan w') !! s = pe_position <$> last_entry s l;
  bt_skips : ∀ s, skip_conditions (w_plan w') !! s = skip_entry s l;
  bt_barriers : barrier_steps (w_plan w') = ∅;
  bt_rest : w' = set_reg (w_reg w') (set_plan (w_plan w') w)
}.

Lemma pos_empty (d : pydict string StepPosition) s : items d = [] → d !! s = None.
Proof. by destruct d as [[]]. Qed.

Lemma bootstrap_spec (ast_nodes : string → option (list string)) (defs : pyval)
    (injector : FaultInjector) (snapshot : option Disk) (os : Os) (plan : YamlPlan) :
  let w := new_bootstrapper ast_nodes defs injector snapshot os in
  let l := plan_entries plan in
  let '(r, w') := bootstrap plan w in
  if decide (MAX_RECURSION_DEPTH < plan_levels (yp_steps plan))%Z then r = Raise nesting_error
  else if decide (Exists (λ e, is_blank (pe_id e) = true) l) then r = Raise empty_id
  else r = Ok tt ∧ booted l w w'.
Proof.
  cbn zeta. unfold bootstrap. rewrite flatten_spec.
  set (w := new_bootstrapper _ _ _ _ _). set (l := plan_entries plan).
  destruct (decide (MAX_RECURSION_DEPTH < plan_levels (yp_steps plan))%Z).
  { by rewrite decide_False by lia. }
  rewrite decide_True by lia. cbn [lift]. rewrite bind_ret_l.
  rewrite flat_add_steps. cbn [fl_steps flat_init app]. fold (entry_steps l).
  pose proof (register_all (entry_steps l) w ltac:(done)) as Hr.
  destruct (decide (Exists _ l)) as [Hb|Hb].
  { rewrite decide_False in Hr.
    - destruct Hr as [r Hr]. by rewrite (bind_raise _ _ _ _ _ Hr).
    - intros Hall. apply Exists_exists in Hb as (e & He & Hb). rewrite Forall_forall in Hall.
      specialize (Hall (pe_id e, pe_condition e)). cbn in Hall. rewrite Hall in Hb; [done|].
      by apply (list_elem_of_fmap_2 (λ e, (pe_id e, pe_condition e))). }
  rewrite decide_True in Hr.
  2: { apply Forall_fmap, Forall_forall. intros e He. cbn.
       destruct (is_blank (pe_id e)) eqn:Eb; [|done]. destruct Hb. apply Exists_exists. eauto. }
  rewrite (bind_ok _ _ _ _ _ Hr), collect_plan. fold l.
  change (foldl register_one (w_reg w) (entry_steps l)) with (registered l).
  destruct (registered_spec l) as (Hs & Hc & Hf).
  set (reg := registered l) in *. clearbody reg. rewrite bind_unit by done.
  pose proof (flat_add_positions l) as Hp. pose proof (skips_add_lookup l) as Hk.
  repeat case_decide; cbn; (split; [done|split]); cbn; try done; intros s;
    rewrite <-?Hp, <-?Hk;
    [by destruct (fl_positions _) as [[]]|by destruct (skips_add _ _) as [[]]
    |by destruct (fl_positions _) as [[]]|by destruct (skips_add _ _) as [[]]].
Qed.

(** C9. What the bootstrapper makes of a plan: loops nested more than ten deep are a
    RecursionError, and an empty step name a ValueError, before anything is scheduled.
    Otherwise every step and loop of the plan is registered PENDING with the condition of
    its first occurrence and no execution configuration, the dependency index covers every
    occurrence, each name has the position and the skip expression of its last occurrence,
    and nothing else of the scheduler has changed. *)
Theorem bootstrap_contract (ast_nodes : string → option (list string)) (defs : pyval)
    (injector : FaultInjector) (snapshot : option Disk) (os : Os) (plan : YamlPlan) :
  let w := new_bootstrapper ast_nodes defs injector snapshot os in
  let l := plan_entries plan in
  let '(r, w') := bootstrap plan w in
  if decide (MAX_RECURSION_DEPTH < plan_levels (yp_steps plan))%Z then r = Raise nesting_error
  else if decide (Exists (λ e, is_blank (pe_id e) = true) l) then r = Raise empty_id
  else r = Ok tt ∧ booted l w w'.
Proof. apply bootstrap_spec. Qed.

(** ** What becomes of a step with a [skip_if]

    Its expression is both its condition and its skip rule. *)

(** The truth value of an expression: it depends on the variables and the clock only,
    since the evaluators know no outputs and no completion times. *)
Definition expression_value (vs : VariableSpace) (now : Z) (e : string) : option bool :=
  eval_bool simple_eval (new_evaluator ∅ None (Some vs)) now e.

Lemma expression_value_any (reg : StepRegistry) rm vs now e :
  eval_bool simple_eval (new_evaluator (status_results reg) rm (Some vs)) now e
  = expression_value vs now e.
Proof.
  unfold expression_value, eval_bool, ce_env. cbn. do 3 f_equal.
  extensionality step. extensionality key. unfold step_outputs, status_results. cbn.
  rewrite dict_lookup_map, dict_lookup_empty. by destruct (sr_steps reg !! step).
Qed.

Lemma filter_res_in {A} (f : A → res bool) l k x :
  filter_res f l = Ok k → x ∈ k → f x = Ok true.
Proof.
  revert k. induction l as [|y l IH]; intros k; cbn; [by intros [= <-] ?%elem_of_nil|].
  destruct (f y) as [b|e] eqn:Ef; cbn; [|done].
  destruct (filter_res f l) as [k'|e]; cbn; [|done]. intros [= <-].
  destruct b; [intros [->|?]%elem_of_cons; [done|]|intros ?]; by eapply IH.
Qed.

(** Being ready means that the expression is true. *)
Lemma ready_expression reg vs rm now l s e :
  get_ready_steps simple_eval reg (Some vs) rm now = Ok l → s ∈ l →
  sr_conditions reg !! s = Some (skip_condition e) → expression_value vs now e = Some true.
Proof.
  unfold get_ready_steps. destruct (filter_res _ _) as [k|] eqn:Ek; cbn; [|done].
  intros [= <-] ([s' st] & -> & Hin)%list_elem_of_fmap Hc. cbn in Hc.
  apply (filter_res_in _ _ _ _ Ek) in Hin. cbn in Hin. unfold step_ready in Hin.
  case_decide; [|done]. rewrite Hc in Hin. cbn in Hin. rewrite expression_value_any in Hin.
  injection Hin as Hin. rewrite andb_true_r in Hin.
  by destruct (expression_value vs now e) as [[]|].
Qed.

(** The plan of a step whose condition is its skip expression. *)
Definition skips_itself (s e : string) (w : World) : Prop :=
  (∃ r, skip_conditions (w_plan w) !! s = Some (e, r))
  ∧ sr_conditions (w_reg w) !! s = Some (skip_condition e) ∧ is_blank e = false.

(** Its skip rule holds, whatever the adaptive one answers or raises. *)
Lemma expression_skips s e r w :
  skip_conditions (w_plan w) !! s = Some (e, r) → is_blank e = false →
  expression_value (w_vs w) (os_now (w_os w)) e = Some true → evaluate_step_skip w s ≠ Ok false.
Proof.
  intros Hs Hb He.
  assert (basic_skip w s = true) as Hk.
  { unfold basic_skip. rewrite Hs. unfold evaluate_skip_expression, evaluate_skip_condition.
    by rewrite Hb, expression_value_any, He. }
  unfold evaluate_step_skip. rewrite Hk. destruct (adaptive_rule w s) as [[a c]|]; [|done].
  destruct (should_skip a _ _ c) as [b|x]; [|done]. cbn. by rewrite orb_true_r.
Qed.

(** From [q0] on, [s] is not started, and what decides about [s] stays as in [w0]. *)
Definition inert (w0 : World) (s : string) (q0 : list (option Event)) (w : World) : Prop :=
  w_plan w = w_plan w0 ∧ w_vs w = w_vs w0 ∧ w_os w = w_os w0
  ∧ ∃ q, eb_queue (w_bus w) = q0 ++ q ∧ s ∉ started q.

Lemma inert_pub w0 s q0 t d w :
  inert w0 s q0 w → s ∉ started [Some (mkEvent t d (get_event_category t))] →
  inert w0 s q0 (bus_pub t d w).2.
Proof.
  intros (? & ? & ? & q & Hq & Hs) Hn. split_and!; [done..|].
  exists (q ++ [Some (mkEvent t d (get_event_category t))]). split.
  - change (eb_queue (w_bus w) ++ [Some (mkEvent t d (get_event_category t))]
      = q0 ++ q ++ [Some (mkEvent t d (get_event_category t))]).
    by rewrite Hq, <-app_assoc.
  - unfold started in *. rewrite omap_app. set_solver.
Qed.

Lemma reg_update_inputs s st w :
  w_plan (reg_update s st w).2 = w_plan w ∧ w_vs (reg_update s st w).2 = w_vs w
  ∧ w_os (reg_update s st w).2 = w_os w.
Proof. unfold reg_update, zoom. by destruct (update_status _ _ _) as [r [? ?]]. Qed.

Lemma inert_robust w0 s q0 : robust (inert w0 s q0).
Proof.
  split; try (intros; intros w Hw; exact Hw).
  - intros A m w Hw. unfold on_reg, zoom. by destruct (m (w_reg w)).
  - intros i st w Hw. unfold inert. rewrite (proj1 (reg_update_queue i st w)).
    by destruct (reg_update_inputs i st w) as (-> & -> & ->).
  - intros t d Ht w Hw. apply inert_pub; [done|]. unfold started. cbn.
    rewrite decide_False by done. set_solver.
Qed.

Lemma gate_inert w0 s q0 t : preserves (inert w0 s q0) (gate_before_dispatch t).
Proof.
  intros w Hw. unfold gate_before_dispatch. rewrite bind_get.
  destruct (paused _); [done|]. destruct (should_pause_for_step_mode w t); [done|].
  destruct (w_bps w) as [en|]; [|done]. destruct (check_step_bp _ _ _ _) as [[bp|] en']; [|done].
  rewrite bind_unit by done. rewrite bind_unit by done.
  apply (inert_pub w0 s q0 BREAKPOINT_HIT _ (set_bps (Some en') w)); [done|set_solver].
Qed.

Lemma claim_uut_inert w0 s q0 t : preserves (inert w0 s q0) (claim_uut t).
Proof. intros w Hw. unfold claim_uut. rewrite bind_get. by repeat case_match. Qed.

Lemma scan_start_inert w0 s q0 t : t ≠ s → preserves (inert w0 s q0) (scan_start t).
Proof.
  intros Ht. pose proof (inert_robust w0 s q0) as HI.
  assert (∀ c, preserves (inert w0 s q0) (bus_pub STEP_STARTED (StepStartedData t c))) as Hpub.
  { intros c w Hw. apply inert_pub; [done|]. unfold started. cbn. set_solver. }
  unfold scan_start. apply preserves_bind; [apply gate_inert|].
  intros []; try apply preserves_ret.
  apply preserves_bind; [apply (rb_reg _ HI)|]. intros c.
  apply preserves_bind; [apply (rb_disp _ HI)|]. intros _.
  apply preserves_bind; [apply claim_uut_inert|]. intros _.
  apply preserves_bind; [apply Hpub|]. intros _.
  apply preserves_bind; [apply preserves_get|]. intros w.
  apply preserves_bind; [apply (rb_disp _ HI)|]. intros _.
  apply preserves_bind; [by apply start_barrier_keeps|]. intros o. apply preserves_ret.
Qed.

(** The skip rule of [s] holds as long as [w0]'s plan, variables and clock stand. *)
Definition skip_holds (w0 : World) (s : string) : Prop :=
  ∃ e r, skip_conditions (w_plan w0) !! s = Some (e, r) ∧ is_blank e = false
    ∧ expression_value (w_vs w0) (os_now (w_os w0)) e = Some true.

Lemma scan_one_inert w0 s q0 t :
  t ≠ s ∨ skip_holds w0 s → preserves (inert w0 s q0) (scan_one t).
Proof.
  intros Ht w Hw. pose proof (inert_robust w0 s q0) as HI. unfold scan_one. rewrite bind_get.
  destruct (_ || _); [done|]. rewrite bind_lift. destruct (evaluate_step_skip w t) as [[]|x] eqn:Esk; [| |done].
  { by apply (preserves_bind (inert w0 s q0));
      [apply skip_step_keeps|intros []; apply preserves_ret|]. }
  destruct (can_schedule w t); [|done]. cbn [negb].
  assert (t ≠ s) as Hts.
  { intros ->. destruct Ht as [?|(e & r & Hs & Hb & He)]; [done|].
    destruct Hw as (Hp & Hv & Ho & _). rewrite <-Hp in Hs. rewrite <-Hv, <-Ho in He.
    by apply (expression_skips s e r w Hs Hb He) in Esk. }
  apply (preserves_bind (inert w0 s q0)); [by apply fault_keeps| |done].
  intros []; [apply preserves_ret|by apply scan_start_inert].
Qed.

Lemma scan_steps_inert w0 s q0 l :
  s ∉ l ∨ skip_holds w0 s → preserves (inert w0 s q0) (scan_steps l).
Proof.
  intros Hl. induction l as [|t l IH]; cbn; [apply preserves_ret|].
  apply preserves_bind; [apply scan_one_inert; set_solver|].
  intros [[]|]; try apply preserves_ret; apply IH; set_solver.
Qed.

Lemma emergency_scan_inert s e w :
  skips_itself s e w → inert w s (eb_queue (w_bus w)) (emergency_scan w).2.
Proof.
  intros ((r & Hs) & Hc & Hb).
  assert (inert w s (eb_queue (w_bus w)) w) as Hw.
  { split_and!; [done..|]. exists []. rewrite app_nil_r. split; [done|]. by intros ?%elem_of_nil. }
  unfold emergency_scan. rewrite bind_get. destruct (paused _); [done|].
  unfold ready_steps. unfold bind at 1. rewrite bind_get.
  destruct (get_ready_steps _ _ _ _ _) as [l|] eqn:El; [|done]. cbn.
  apply scan_steps_inert; [|done]. destruct (decide (s ∈ l)) as [Hin|?]; [right|by left].
  exists e, r. split_and!; [done..|]. by eapply ready_expression.
Qed.

(** Neither dispatch path starts such a step, except that an operator's forced step
    ignores the skip rule on the reactive path. *)
Lemma skips_itself_never_starts s e t w :
  skips_itself s e w →
  (force_next_pending (w_gate w) = false → s ∉ new_starts w (dispatch_step t w))
  ∧ s ∉ new_starts w (emergency_scan w).2.
Proof.
  intros H. split.
  - intros Hf. destruct (dispatch_step_starts t w) as [->|[-> Hm]]; [by intros ?%elem_of_nil|].
    intros ->%list_elem_of_singleton. destruct H as ((r & Hs) & Hc & Hb).
    destruct Hm as (_ & _ & Hsk & _ & (l & Hl & Hin) & _).
    pose proof (ready_expression _ _ _ _ _ _ _ Hl Hin Hc) as He.
    destruct Hsk as [?|Hsk]; [congruence|]. by apply (expression_skips t e r w Hs Hb He) in Hsk.
  - destruct (emergency_scan_inert s e w H) as (_ & _ & _ & q & Hq & Hs).
    unfold new_starts. by rewrite Hq, drop_app_length.
Qed.

Lemma entries_skip n : ∀ depth parent order,
  Forall (λ e, ∀ x r, pe_skip e = Some (x, r) → pe_condition e = Some (skip_condition x))
    (entries depth parent order n).
Proof.
  assert (∀ o r x r', skip_of o r = Some (x, r') → o = Some x) as Hof.
  { intros o r x r'. unfold skip_of. destruct o; cbn; [by intros [= -> _]|done]. }
  induction n as [s inner _|spec steps IH] using YamlNode_ind'; intros depth parent order; cbn.
  - repeat constructor. cbn. unfold step_condition. by intros x r ->%Hof.
  - constructor.
    + cbn. unfold loop_condition. by intros x r ->%Hof.
    + generalize 0%Z as o. induction IH as [|n steps Hn _ IHs]; intros o; [constructor|].
      apply Forall_app. split; [apply Hn|apply IHs].
Qed.

Lemma plan_entries_skip plan :
  Forall (λ e, ∀ x r, pe_skip e = Some (x, r) → pe_condition e = Some (skip_condition x))
    (plan_entries plan).
Proof.
  unfold plan_entries. generalize 0%Z at 2 as o. induction (yp_steps plan) as [|n l IH]; intros o;
    [constructor|]. apply Forall_app. split; [apply entries_skip|apply IH].
Qed.

(** With distinct names, the first and the last entry of a name are the entry. *)
Lemma the_entry (l : list PlanEntry) e :
  NoDup (pe_id <$> l) → e ∈ l → base.filter (λ e', pe_id e' = pe_id e) l = [e].
Proof.
  intros Hnd Hin. apply list_elem_of_split in Hin as (l1 & l2 & ->).
  rewrite fmap_app, fmap_cons, NoDup_app, NoDup_cons in Hnd. destruct Hnd as (_ & H1 & H2 & _).
  rewrite filter_app, filter_cons_True by done.
  rewrite (proj2 (list_filter_empty _ l1)), (proj2 (list_filter_empty _ l2)); [done| |].
  - intros e' Hin He. apply H2. rewrite <-He. by apply list_elem_of_fmap_2.
  - intros e' Hin He. apply (H1 (pe_id e')); [by apply list_elem_of_fmap_2|]. rewrite He. left.
Qed.

Lemma skip_entry_filter s l :
  skip_entry s l = last (omap pe_skip (base.filter (λ e, pe_id e = s) l)).
Proof.
  unfold skip_entry. f_equal. induction l as [|e l IH]; [done|]. rewrite filter_cons. cbn.
  case_decide; cbn; by rewrite IH.
Qed.

(** C11. A step or loop that has a [skip_if] never runs on its own. The bootstrapper makes
    the expression its condition, and its skip rule as well: while the expression is false
    the step is not ready, and once it is true the step is skipped. So in every state of a
    run of the plan (the plan and the conditions as booted, whatever the statuses,
    variables, resources and pending tasks), neither a dispatch nor a scan starts it, unless
    the operator forces the next step. *)
Theorem skip_if_never_starts (plan : YamlPlan) (w0 w : World) (e : PlanEntry) (x : string)
    (r : option string) (t : string)
  (Hboot : booted (plan_entries plan) w0 w)
  (Hid : NoDup (pe_id <$> plan_entries plan))
  (He : e ∈ plan_entries plan) (Hx : pe_skip e = Some (x, r)) (Hb : is_blank x = false)
  (w' : World) (Hplan : w_plan w' = w_plan w)
  (Hconds : sr_conditions (w_reg w') = sr_conditions (w_reg w)) :
  (force_next_pending (w_gate w') = false → pe_id e ∉ new_starts w' (dispatch_step t w'))
  ∧ pe_id e ∉ new_starts w' (emergency_scan w').2.
Proof.
  apply (skips_itself_never_starts _ x). pose proof (the_entry _ e Hid He) as Hfe.
  split_and!; [|rewrite Hconds|done].
  - exists r. rewrite Hplan, (bt_skips _ _ _ Hboot), skip_entry_filter, Hfe. cbn. by rewrite Hx.
  - rewrite (bt_conditions _ _ _ Hboot). unfold first_entry. rewrite Hfe. cbn.
    pose proof (plan_entries_skip plan) as Hall. rewrite Forall_forall in Hall. by eapply Hall.
Qed.

End bootstrap.

(** ** Witnesses and examples *)

(** Expressions "True" and "False". *)
#[local] Instance bool_env : SchedulerEnv := {|
  simple_eval _ e := if decide (e = "True") then Some (PyBool true)
    else if decide (e = "False") then Some (PyBool false) else None;
  simple_eval_names _ _ := None;
  json_dump _ := None;
  json_load _ := None;
  temp_name _ := ".snapshot-1.tmp";
  SkipConditions := unit;
  AdaptiveEvaluator := unit;
  should_skip _ _ _ _ := Ok false;
  skip_reason_of _ _ _ _ := Ok None;
  FaultInjector := unit;
  check_scheduler_raise _ i := (None, i)
|}.

Definition script_step (id : string) (preconditions : list string) (skip_if : option string) : YamlNode :=
  StepNode (mkStep id None "run.py" ∅ preconditions [] ∅ 60 0 None None None None None None false
    skip_if None None) [].

Definition some_plan (steps : list YamlNode) : YamlPlan := mkPlanDsl "plan" "1.0" ∅ 1 1 None steps.

Definition boot (steps : list YamlNode) : World :=
  (bootstrap (some_plan steps)
    (new_bootstrapper (λ _, None) PyNone (tt : FaultInjector) None plain_os)).2.

(** The first scan of a started scheduler. *)
Definition first_scan (w : World) : World :=
  loop_scan 0 (loop_top (scheduler_start w).2).
Definition starts_of (steps : list YamlNode) : list string :=
  new_starts (boot steps) (first_scan (boot steps)).

Example skip_is_not_configured : starts_of [script_step "a" [] None] = ["a"].
Proof. vm_compute. reflexivity. Qed.

(** A step that is not to be skipped is not run either: the scheduler's own tests say
    that with a false [skip_if] the step is dispatched. *)
Example false_skip_if_blocks : starts_of [script_step "a" [] (Some "False")] = [].
Proof. vm_compute. reflexivity. Qed.

(** A [skip_if] replaces the preconditions: "b" is skipped before "a" has run. *)
Example skip_if_drops_preconditions :
  sr_steps (w_reg (first_scan (boot [script_step "a" [] None; script_step "b" ["a"] (Some "True")])))
    !! "b" = Some SKIPPED.
Proof. vm_compute. reflexivity. Qed.

(** Only the first precondition counts: "c" starts while "b" is PENDING. *)
Definition two_preconditions : World :=
  (reg_update "a" PASSED (boot [script_step "a" [] None; script_step "b" ["x"] None;
                                script_step "c" ["a"; "b"] None])).2.
Example second_precondition_ignored :
  sr_steps (w_reg two_preconditions) !! "b" = Some PENDING
  ∧ new_starts two_preconditions (first_scan two_preconditions) = ["c"].
Proof. vm_compute. done. Qed.

(** Steps inside a loop body start once, beside their loop, whatever its count. *)
Example loop_bodies_are_flat :
  starts_of [LoopNode (default_loop "l" FOR) [script_step "a" [] None]] = ["l"; "a"].
Proof. vm_compute. reflexivity. Qed.

Lemma skip_if_never_starts_witness :
  "a" ∉ new_starts (boot [script_step "a" [] (Some "True")])
    (emergency_scan (boot [script_step "a" [] (Some "True")])).2.
Proof.
  pose (l := [script_step "a" [] (Some "True")]).
  pose proof (bootstrap_spec (λ _, None) PyNone (tt : FaultInjector) None plain_os (some_plan l)) as Hc.
  cbn zeta in Hc. fold (boot l) in Hc.
  assert (booted (plan_entries (some_plan l))
    (new_bootstrapper (λ _, None) PyNone (tt : FaultInjector) None plain_os) (boot l)) as Hboot.
  { unfold boot. destruct (bootstrap _ _) as [r w']. cbn in Hc. apply Hc. }
  refine (proj2 (skip_if_never_starts (some_plan l) _ (boot l)
    (mkEntry "a" (Some (skip_condition "True")) (Some ("True", None)) (mkPos None 0 0)) "True" None "a"
    Hboot _ _ _ _ (boot l) _ _)); try reflexivity.
  - cbn. repeat constructor. by intros ?%elem_of_nil.
  - cbn. left.
Defined.
