(* ===== verification/DryRun.v ===== *)
(** * Dry runs (simulation/dry_run_scheduler.py)

    [DryRunScheduler] walks a plan without executing it: each step is skipped, blocked or
    passed, using the real registry, resource manager and condition evaluator. [done] is the
    dictionary [completed_statuses], which the steps and loops of one run share. Durations and
    the time stamps of decisions are left out. *)

From S2P Require Import Prelude PyDict PyStr Types VariableSpace EventBus ResourceManager ConditionEvaluator StepRegistry Scheduler Dispatch Dsl System Starts Bootstrap.

Inductive StepDecisionType : Type := PASS | FAIL | SKIP | BLOCKED | ERROR_DECISION | NOT_REACHED.

#[export] Instance StepDecisionType_eq_dec : EqDecision StepDecisionType.
Proof. solve_decision. Defined.

Record StepDecision : Type := mkDecision {
  sd_step_id : string;
  sd_decision : StepDecisionType;
  sd_reason : string;
  sd_condition_met : bool;
  sd_resources_acquired : list string;
  sd_skip_if_evaluated : option string;
  sd_skip_if_result : option bool
}.

Record DryRunResult : Type := mkResult {
  dr_plan_name : string;
  dr_plan_version : string;
  dr_decisions : list StepDecision;
  dr_total_steps : nat;
  dr_passed : nat;
  dr_failed : nat;
  dr_skipped : nat;
  dr_blocked : nat;
  dr_errors : nat;
  dr_not_reached : nat;
  dr_deadlock_detected : bool;
  dr_deadlock_steps : list string
}.

Definition all_passed (r : DryRunResult) : bool :=
  (dr_failed r =? 0)%nat && (dr_errors r =? 0)%nat && (dr_blocked r =? 0)%nat.
Definition get_decision (r : DryRunResult) (step_id : string) : option StepDecision :=
  head (base.filter (λ d, sd_step_id d = step_id) (dr_decisions r)).
Definition get_failed_steps (r : DryRunResult) : list StepDecision :=
  base.filter (λ d, sd_decision d = FAIL) (dr_decisions r).
Definition get_skipped_steps (r : DryRunResult) : list StepDecision :=
  base.filter (λ d, sd_decision d = SKIP) (dr_decisions r).

Section dry_run.
Context {E : SchedulerEnv} (now : Z).

Definition MAX_WHILE_ITERATIONS : Z := 100.

Record Dry : Type := mkDry {
  dry_reg : StepRegistry;
  dry_rm : ResourceManager;
  dry_vs : VariableSpace;
  dry_bus : EventBus;
  dry_done : pydict string StepStatus
}.

Definition set_dry_reg r x := mkDry r (dry_rm x) (dry_vs x) (dry_bus x) (dry_done x).
Definition set_dry_rm m x := mkDry (dry_reg x) m (dry_vs x) (dry_bus x) (dry_done x).
Definition set_dry_bus b x := mkDry (dry_reg x) (dry_rm x) (dry_vs x) b (dry_done x).
Definition set_dry_done d x := mkDry (dry_reg x) (dry_rm x) (dry_vs x) (dry_bus x) d.

Definition new_dry_run (has_bus : bool) (vs : VariableSpace) (bus : EventBus) : Dry :=
  mkDry (reg_init has_bus) (rm_init has_bus) vs bus ∅.

Definition on_dry_reg {A} (m : M StepRegistry A) : M Dry A := zoom dry_reg set_dry_reg m.
Definition on_dry_rm {A} (m : M ResourceManager A) : M Dry A := zoom dry_rm set_dry_rm m.

Definition dry_update (step_id : string) (st : StepStatus) : M Dry unit :=
  zoom (λ x, (dry_reg x, dry_bus x)) (λ p x, set_dry_reg p.1 (set_dry_bus p.2 x))
    (update_status step_id st).

(** [_update_registry_status] *)
Definition update_registry_status (step_id : string) (st : StepStatus) : M Dry unit :=
  try_except (dry_update step_id st)
    (λ e, match e with
          | KeyError _ => Some (on_dry_reg (register step_id None None) ;;; dry_update step_id st)
          | _ => None
          end).

Definition dry_release (r owner : string) : M Dry unit :=
  zoom (λ x, (dry_rm x, dry_bus x)) (λ p x, set_dry_rm p.1 (set_dry_bus p.2 x)) (release r owner).

(** ** Registration *)

Definition first_precondition (s : YamlStep) : option Condition :=
  match ys_preconditions s with
  | p :: _ => Some (mkCondition (Some p) (Some "PASSED") None None)
  | [] => None
  end.

(** [_build_step_conditions] *)
Fixpoint add_conditions (d : pydict string (option Condition)) (n : YamlNode) :
    pydict string (option Condition) :=
  match n with
  | StepNode s _ => <[ys_id s := first_precondition s]> d
  | LoopNode _ steps => foldl add_conditions d steps
  end.
Definition build_step_conditions (plan : YamlPlan) : pydict string (option Condition) :=
  foldl add_conditions ∅ (yp_steps plan).

Definition register_once (id : string) (c : option Condition) : M Dry unit :=
  x <- get ;;
  if has_step (dry_reg x) id then ret tt else on_dry_reg (register id c None).

(** [_register_steps] *)
Fixpoint register_items (conditions : pydict string (option Condition)) (n : YamlNode) : M Dry unit :=
  match n with
  | StepNode s _ => register_once (ys_id s) (get_default (ys_id s) None conditions)
  | LoopNode spec steps =>
      register_once (yl_id spec) None ;;;
      (fix go l := match l with [] => ret tt | m :: l' => register_items conditions m ;;; go l' end) steps
  end.
Definition register_steps (plan : YamlPlan) (conditions : pydict string (option Condition)) : M Dry unit :=
  modify (λ x, set_dry_reg (clear (dry_reg x)) x) ;;;
  for_each (yp_steps plan) (register_items conditions).

(** ** Steps *)

Definition evaluate_dry_skip (x : Dry) (expression : string) : bool :=
  evaluate_skip_condition simple_eval
    (new_evaluator (status_results (dry_reg x)) (Some (dry_rm x)) (Some (dry_vs x))) now expression.

Definition evaluate_skip_if (x : Dry) (s : YamlStep) : option bool :=
  match ys_skip_if s with
  | Some e => if is_blank e then None else Some (evaluate_dry_skip x e)
  | None => None
  end.

Definition not_passed (done : pydict string StepStatus) (p : string) : bool :=
  negb (bool_decide (done !! p = Some PASSED)).
Definition evaluate_preconditions (s : YamlStep) (done : pydict string StepStatus) : bool :=
  forallb (λ p, negb (not_passed done p)) (ys_preconditions s).
Definition find_failed_precondition (s : YamlStep) (done : pydict string StepStatus) : string :=
  default (default "" (head (ys_preconditions s)))
    (head (base.filter (λ p, not_passed done p = true) (ys_preconditions s))).
Definition status_name (o : option StepStatus) : string :=
  match o with None => "NOT_PROCESSED" | Some st => status_value st end.

(** Acquire in order, up to the first refusal: what was acquired, and whether all were. *)
Fixpoint acquire_all (owner : string) (l acquired : list string) : M Dry (list string * bool) :=
  match l with
  | [] => ret (acquired, true)
  | r :: l' =>
      ok <- on_dry_rm (acquire r owner (Some 0%Z)) ;;
      if ok : bool then acquire_all owner l' (acquired ++ [r]) else ret (acquired, false)
  end.

Definition process_step (s : YamlStep) (assume_pass : bool) : M Dry StepDecision :=
  x <- get ;;
  let skip_result := evaluate_skip_if x s in
  if bool_decide (skip_result = Some true) then
    update_registry_status (ys_id s) SKIPPED ;;;
    ret (mkDecision (ys_id s) SKIP ("skip_if condition met: " +:+ default "None" (ys_skip_if s))
           true [] (ys_skip_if s) (Some true))
  else if negb (evaluate_preconditions s (dry_done x)) then
    let failed := find_failed_precondition s (dry_done x) in
    update_registry_status (ys_id s) PENDING ;;;
    ret (mkDecision (ys_id s) BLOCKED
           ("Precondition not met: '" +:+ failed +:+ "' (status: "
            +:+ status_name (dry_done x !! failed) +:+ ")")
           false [] (ys_skip_if s) (Some false))
  else
    let resource_ids := keys (ys_resources s) in
    a <- acquire_all (ys_id s) resource_ids [] ;;
    let '(acquired, ok) := a in
    for_each acquired (λ r, dry_release r (ys_id s)) ;;;
    if ok : bool then
      update_registry_status (ys_id s) PASSED ;;;
      ret (mkDecision (ys_id s) PASS
             (if assume_pass then "All preconditions and resources satisfied"
              else "All checks passed (no execution performed)")
             true acquired (ys_skip_if s) skip_result)
    else
      update_registry_status (ys_id s) PENDING ;;;
      ret (mkDecision (ys_id s) BLOCKED
             ("Resource unavailable: could not acquire all required resources "
              +:+ repr_strs resource_ids)
             true [] (ys_skip_if s) skip_result).

Definition decision_to_status (d : StepDecision) : StepStatus :=
  match sd_decision d with
  | PASS => PASSED | FAIL => FAILED | SKIP => SKIPPED | ERROR_DECISION => ERROR
  | BLOCKED | NOT_REACHED => PENDING
  end.

Definition record_status (id : string) (st : StepStatus) : M Dry unit :=
  modify (λ x, set_dry_done (<[id := st]> (dry_done x)) x).

(** A step, and its entry in the dictionary. *)
Definition process_and_record (s : YamlStep) (assume_pass : bool) : M Dry (list StepDecision) :=
  d <- process_step s assume_pass ;;
  record_status (ys_id s) (decision_to_status d) ;;;
  ret [d].

(** ** Loops *)

(** The lists that the calls of a loop return, one after another. *)
Definition gather {A B S} (f : A → M S (list B)) : list A → M S (list B) :=
  fix go l :=
    match l with
    | [] => ret []
    | a :: l' => r <- f a ;; rs <- go l' ;; ret (r ++ rs)
    end.

Definition dry_iterations (spec : LoopSpec) : nat :=
  match yl_type spec with
  | FOR => Z.to_nat (Z.min (default 1%Z (yl_count spec)) MAX_WHILE_ITERATIONS)
  | WHILE | FOREACH => 1
  end.

(** The copy of a child step in iteration [i] of loop [loop_id]. *)
Definition iteration_step (loop_id : string) (i : nat) (child : YamlStep) : YamlStep :=
  {| ys_id := loop_id +:+ "#" +:+ pretty i +:+ "#" +:+ ys_id child; ys_type := None;
     ys_script := ys_script child; ys_params := ys_params child;
     ys_preconditions := ys_preconditions child; ys_depends_on := [];
     ys_resources := ys_resources child; ys_timeout := ys_timeout child;
     ys_retry := ys_retry child; ys_on_fail := ys_on_fail child; ys_on_failure := None;
     ys_uut_affinity := None; ys_barrier_name := None; ys_action := None; ys_fixture_id := None;
     ys_export_outputs := ys_export_outputs child; ys_skip_if := ys_skip_if child;
     ys_skip_reason := ys_skip_reason child; ys_condition := None |}.

Definition loop_skip (x : Dry) (spec : LoopSpec) : option string :=
  match yl_skip_if spec with
  | Some e => if negb (is_blank e) && evaluate_dry_skip x e then Some e else None
  | None => None
  end.

(** [_process_loop] for a loop; for a child step, its copy in an iteration. *)
Fixpoint process_item (scope : string * nat) (assume_pass : bool) (n : YamlNode) :
    M Dry (list StepDecision) :=
  match n with
  | StepNode child _ =>
      let step := iteration_step scope.1 scope.2 child in
      register_once (ys_id step) (first_precondition child) ;;;
      process_and_record step assume_pass
  | LoopNode spec steps =>
      x <- get ;;
      match loop_skip x spec with
      | Some e =>
          update_registry_status (yl_id spec) SKIPPED ;;;
          ret [mkDecision (yl_id spec) SKIP ("Loop skip_if condition met: " +:+ e) true [] (Some e)
                 (Some true)]
      | None =>
          gather (λ i, gather (process_item (yl_id spec, i) assume_pass) steps)
            (seq 0 (dry_iterations spec))
      end
  end.

(** An item of the plan. *)
Definition process_top (assume_pass : bool) (n : YamlNode) : M Dry (list StepDecision) :=
  match n with
  | StepNode s _ => process_and_record s assume_pass
  | LoopNode spec _ =>
      decisions <- process_item ("", 0%nat) assume_pass n ;;
      record_status (yl_id spec)
        (if forallb (λ d, bool_decide (sd_decision d = PASS)) decisions then PASSED else FAILED) ;;;
      ret decisions
  end.

Definition count (t : StepDecisionType) (l : list StepDecision) : nat :=
  length (base.filter (λ d, sd_decision d = t) l).

Definition summarise (plan : YamlPlan) (decisions : list StepDecision) : DryRunResult :=
  let blocked_steps := sd_step_id <$> base.filter (λ d, sd_decision d = BLOCKED) decisions in
  mkResult (yp_name plan) (yp_version plan) decisions (length decisions) (count PASS decisions)
    (count FAIL decisions) (count SKIP decisions) (count BLOCKED decisions)
    (count ERROR_DECISION decisions) (count NOT_REACHED decisions)
    (0 <? length blocked_steps)%nat blocked_steps.

(** [dry_run] *)
Definition dry_run (plan : YamlPlan) (assume_pass : bool) : M Dry DryRunResult :=
  register_steps plan (build_step_conditions plan) ;;;
  modify (set_dry_done ∅) ;;;
  decisions <- gather (process_top assume_pass) (yp_steps plan) ;;
  ret (summarise plan decisions).
End dry_run.

(** ** What a dry run should decide

    A specification over the plan alone. A walk goes through the items in order, each
    iteration of a loop through its body, and records, latest first, which steps and top-level
    loops passed and what was decided for each. *)

Fixpoint latest {B} (id : string) (log : list (string * B)) : option B :=
  match log with
  | [] => None
  | (id', b) :: log' => if decide (id' = id) then Some b else latest id log'
  end.

Record Walked : Type := mkWalked {
  wk_results : list (string * bool);
  wk_decisions : list (string * StepDecisionType)
}.

(** What the registry keeps of a decision. *)
Definition recorded (t : StepDecisionType) : StepStatus :=
  match t with PASS => PASSED | SKIP => SKIPPED | FAIL => FAILED | ERROR_DECISION => ERROR
  | BLOCKED | NOT_REACHED => PENDING end.

Definition add_decision (d : StepDecision) (w : Walked) : Walked :=
  mkWalked (wk_results w) ((sd_step_id d, sd_decision d) :: wk_decisions w).
Definition add_result (id : string) (passed : bool) (w : Walked) : Walked :=
  mkWalked ((id, passed) :: wk_results w) (wk_decisions w).
Definition add_step (d : StepDecision) (w : Walked) : Walked :=
  add_result (sd_step_id d) (bool_decide (sd_decision d = PASS)) (add_decision d w).

(** Items one after another. *)
Inductive in_turn {A} (R : Walked → A → list StepDecision → Walked → Prop) :
    Walked → list A → list StepDecision → Walked → Prop :=
  | turn_nil w : in_turn R w [] [] w
  | turn_cons w a ds w1 l ds' w2 :
      R w a ds w1 → in_turn R w1 l ds' w2 → in_turn R w (a :: l) (ds ++ ds') w2.

Section walk.
Context {E : SchedulerEnv} (now : Z) (vs : VariableSpace).

(** A skip expression that is not blank is true, for a registry that knows the decisions so far,
    with no resource taken. *)
Definition skips (w : Walked) (expression : option string) (answer : Prop) : Prop :=
  ∃ reg rm,
    (∀ id t, latest id (wk_decisions w) = Some t → sr_steps reg !! id = Some (recorded t))
    ∧ (∀ r, get_owner rm r = None)
    ∧ (answer ↔ ∃ e, expression = Some e ∧ is_blank e = false
         ∧ evaluate_skip_condition simple_eval
             (new_evaluator (status_results reg) (Some rm) (Some vs)) now e = true).

(** The decision on a step: skipped if its expression says so; otherwise passed if the latest
    result of each of its preconditions is a pass, and blocked if not. *)
Definition judged (w : Walked) (id : string) (preconditions : list string) (skip_if : option string)
    (d : StepDecision) : Prop :=
  sd_step_id d = id
  ∧ skips w skip_if (sd_decision d = SKIP)
  ∧ (sd_decision d = SKIP
     ∨ sd_decision d = PASS ∧ (∀ p, p ∈ preconditions → latest p (wk_results w) = Some true)
     ∨ sd_decision d = BLOCKED ∧ (∃ p, p ∈ preconditions ∧ latest p (wk_results w) ≠ Some true)).

Inductive walk_item : string * nat → Walked → YamlNode → list StepDecision → Walked → Prop :=
  | walk_copy scope w child inner d :
      judged w (scope.1 +:+ "#" +:+ pretty scope.2 +:+ "#" +:+ ys_id child) (ys_preconditions child)
        (ys_skip_if child) d →
      walk_item scope w (StepNode child inner) [d] (add_step d w)
  | walk_skip scope w spec steps d :
      sd_step_id d = yl_id spec → sd_decision d = SKIP → skips w (yl_skip_if spec) True →
      walk_item scope w (LoopNode spec steps) [d] (add_decision d w)
  | walk_loop scope w spec steps ds w' :
      skips w (yl_skip_if spec) False →
      in_turn (λ w i ds w', in_turn (walk_item (yl_id spec, i)) w steps ds w')
        w (seq 0 (dry_iterations spec)) ds w' →
      walk_item scope w (LoopNode spec steps) ds w'.

(** The items of the plan; a loop passes if each of its decisions is PASS. *)
Inductive walk_top : Walked → YamlNode → list StepDecision → Walked → Prop :=
  | walk_step w s inner d :
      judged w (ys_id s) (ys_preconditions s) (ys_skip_if s) d →
      walk_top w (StepNode s inner) [d] (add_step d w)
  | walk_top_loop w spec steps ds w' :
      walk_item ("", 0%nat) w (LoopNode spec steps) ds w' →
      walk_top w (LoopNode spec steps) ds
        (add_result (yl_id spec) (bool_decide (Forall (λ d, sd_decision d = PASS) ds)) w').

Definition walks (plan : YamlPlan) (ds : list StepDecision) : Prop :=
  ∃ w, in_turn walk_top (mkWalked [] []) (yp_steps plan) ds w.
End walk.

(** ** What a dry run does *)

Section results.
Context {E : SchedulerEnv} (now : Z).

(** The decision without the resources: what the step's skip expression and preconditions give. *)
Definition verdict (x : Dry) (s : YamlStep) (assume_pass : bool) : StepDecision :=
  let skip_result := evaluate_skip_if now x s in
  if bool_decide (skip_result = Some true) then
    mkDecision (ys_id s) SKIP ("skip_if condition met: " +:+ default "None" (ys_skip_if s))
      true [] (ys_skip_if s) (Some true)
  else if negb (evaluate_preconditions s (dry_done x)) then
    let failed := find_failed_precondition s (dry_done x) in
    mkDecision (ys_id s) BLOCKED
      ("Precondition not met: '" +:+ failed +:+ "' (status: "
       +:+ status_name (dry_done x !! failed) +:+ ")")
      false [] (ys_skip_if s) (Some false)
  else
    mkDecision (ys_id s) PASS
      (if assume_pass then "All preconditions and resources satisfied"
       else "All checks passed (no execution performed)")
      true (keys (ys_resources s)) (ys_skip_if s) skip_result.

(** The manager is quiet and [o] holds the resources [X], nobody else anything. *)
Definition holds (o : string) (X : gset string) (m : ResourceManager) : Prop :=
  rm_quiet m ∧ ∀ r, rm_owners m !! r = if decide (r ∈ X) then Some o else None.

(** All resources are free. *)
Definition free (x : Dry) : Prop := ∀ o, holds o ∅ (dry_rm x).

(** The registry has a new status of [id]; the rest is as before. *)
Definition moved (id : string) (st : StepStatus) (x x' : Dry) : Prop :=
  dry_rm x' = dry_rm x ∧ dry_done x' = dry_done x ∧ dry_vs x' = dry_vs x
  ∧ ∀ j, sr_steps (dry_reg x') !! j = if decide (id = j) then Some st else sr_steps (dry_reg x) !! j.

Definition same_but_rm (x x' : Dry) : Prop :=
  dry_done x' = dry_done x ∧ dry_vs x' = dry_vs x ∧ dry_reg x' = dry_reg x.

Lemma holds_nothing o o' m : holds o ∅ m → holds o' ∅ m.
Proof. intros [Hq Ho]. split; [done|]. intros r. specialize (Ho r). by rewrite decide_False in Ho |- *. Qed.

Lemma acquire_holds o X r t m :
  holds o X m → r ∉ X → ∃ m', acquire r o t m = (Ok true, m') ∧ holds o ({[r]} ∪ X) m'.
Proof.
  intros [Hq Ho] Hr. pose proof (acquire_contract r o t m Hq) as H.
  destruct (acquire r o t m) as [x m']. destruct H as [Hq' H].
  rewrite (Ho r), decide_False in H by done. destruct H as [-> Ho'].
  exists m'. split; [done|]. split; [done|]. intros k. rewrite Ho', dict_lookup_insert.
  destruct (decide (r = k)) as [->|Hk]; [by rewrite decide_True by set_solver|].
  rewrite Ho. destruct (decide (k ∈ X)); [by rewrite decide_True by set_solver|].
  by rewrite decide_False by set_solver.
Qed.

Lemma release_holds o X r m (b : EventBus) :
  holds o ({[r]} ∪ X) m → r ∉ X → ∃ m' b', release r o (m, b) = (Ok tt, (m', b')) ∧ holds o X m'.
Proof.
  intros [Hq Ho] Hr. pose proof (release_contract r o m b Hq) as H.
  destruct (release r o (m, b)) as [x [m' b']]. destruct H as [Hq' H].
  rewrite decide_True in H by (rewrite Ho, decide_True by set_solver; done).
  destruct H as (-> & Ho' & _ & _). exists m', b'. split; [done|]. split; [done|].
  intros k. rewrite Ho', dict_lookup_delete.
  destruct (decide (r = k)) as [->|Hk]; [by rewrite decide_False|].
  rewrite Ho. destruct (decide (k ∈ X)); [by rewrite decide_True by set_solver|].
  by rewrite decide_False by set_solver.
Qed.

Lemma acquire_all_spec o l : ∀ acquired x,
  NoDup (acquired ++ l) → holds o (list_to_set acquired) (dry_rm x) →
  ∃ x', acquire_all o l acquired x = (Ok (acquired ++ l, true), x') ∧ same_but_rm x x'
        ∧ holds o (list_to_set (acquired ++ l)) (dry_rm x').
Proof.
  induction l as [|r l IH]; intros acquired x Hnd Hx; cbn [acquire_all].
  - exists x. by rewrite app_nil_r in *.
  - destruct (acquire_holds o _ r (Some 0%Z) (dry_rm x) Hx) as (m & Hm & Hh).
    { apply NoDup_app in Hnd as (_ & Hd & _). rewrite elem_of_list_to_set. intros H.
      apply (Hd r H). by left. }
    assert (on_dry_rm (acquire r o (Some 0%Z)) x = (Ok true, set_dry_rm m x)) as Hon
      by (unfold on_dry_rm, zoom; by rewrite Hm).
    rewrite (bind_ok _ _ _ _ _ Hon).
    destruct (IH (acquired ++ [r]) (set_dry_rm m x)) as (x' & Hx' & Hd & Hh');
      [by rewrite <- app_assoc| |].
    { assert ((list_to_set (acquired ++ [r]) : gset string) = {[r]} ∪ list_to_set acquired) as ->
        by set_solver. done. }
    exists x'. by rewrite <- app_assoc in Hx', Hh'.
Qed.

Lemma release_all_spec o l : ∀ x,
  NoDup l → holds o (list_to_set l) (dry_rm x) →
  ∃ x', for_each l (λ r, dry_release r o) x = (Ok tt, x') ∧ same_but_rm x x'
        ∧ holds o ∅ (dry_rm x').
Proof.
  induction l as [|r l IH]; intros x Hnd Hx; cbn [for_each]; [by exists x|].
  apply NoDup_cons in Hnd as [Hr Hnd].
  destruct (release_holds o (list_to_set l) r (dry_rm x) (dry_bus x)) as (m & b & Hm & Hh);
    [done|by rewrite elem_of_list_to_set|].
  assert (dry_release r o x = (Ok tt, set_dry_rm m (set_dry_bus b x))) as Hrel
    by (unfold dry_release, zoom; by rewrite Hm).
  rewrite (bind_ok _ _ _ _ _ Hrel). exact (IH (set_dry_rm m (set_dry_bus b x)) Hnd Hh).
Qed.

Lemma register_unknown id c m :
  is_blank id = false → sr_steps m !! id = None →
  ∃ m', register id c None m = (Ok tt, m') ∧ sr_steps m' = <[id := PENDING]> (sr_steps m).
Proof.
  intros Hid Hm. unfold register, has_key. rewrite Hid, bind_get, Hm, bool_decide_false by (by intros [? ?]).
  by eexists.
Qed.

Lemma dry_update_spec id st x old :
  sr_steps (dry_reg x) !! id = Some old → ∃ x', dry_update id st x = (Ok tt, x') ∧ moved id st x x'.
Proof.
  intros Hid. unfold dry_update, zoom, update_status. cbn [fst snd]. rewrite Hid.
  eexists. split; [reflexivity|]. split_and!; [done..|]. intros j. apply dict_lookup_insert.
Qed.

Lemma update_registry_status_spec id st x :
  is_blank id = false → ∃ x', update_registry_status id st x = (Ok tt, x') ∧ moved id st x x'.
Proof.
  intros Hid. unfold update_registry_status. destruct (sr_steps (dry_reg x) !! id) as [old|] eqn:Eid.
  - destruct (dry_update_spec id st x old Eid) as (x' & Hu & Hs). exists x'. split; [|done].
    by apply try_except_ok.
  - destruct (register_unknown id None (dry_reg x) Hid Eid) as (m & Hm & Hp).
    destruct (dry_update_spec id st (set_dry_reg m x) PENDING) as (x' & Hu & Hs);
      [cbn; by rewrite Hp, dict_lookup_insert_eq|].
    assert (moved id st x x') as Hs'.
    { destruct Hs as (Hr & Hd & Hv & Hj). split_and!; [done..|]. intros j. rewrite Hj.
      destruct (decide (id = j)) as [|Hne]; [done|]. cbn. by rewrite Hp, dict_lookup_insert_ne. }
    exists x'. split; [|done].
    assert (dry_update id st x = (Raise (not_registered id), x)) as Hraise.
    { unfold dry_update, zoom, update_status. cbn [fst snd]. rewrite Eid. by destruct x. }
    rewrite (try_except_caught _ _ _ _ _ _ Hraise eq_refl).
    assert (on_dry_reg (register id None None) x = (Ok tt, set_dry_reg m x)) as Hreg
      by (unfold on_dry_reg, zoom; by rewrite Hm).
    by rewrite (bind_ok _ _ _ _ _ Hreg).
Qed.

(** The status a step gets is that of its decision. *)
Lemma process_step_spec s b x :
  free x → is_blank (ys_id s) = false → dict_wf (ys_resources s) →
  ∃ x', process_step now s b x = (Ok (verdict x s b), x') ∧ free x' ∧ dry_done x' = dry_done x
    ∧ dry_vs x' = dry_vs x
    ∧ ∀ j, sr_steps (dry_reg x') !! j =
        if decide (ys_id s = j) then Some (recorded (sd_decision (verdict x s b))) else sr_steps (dry_reg x) !! j.
Proof.
  intros Hx Hid Hwf. unfold process_step, verdict. rewrite bind_get.
  destruct (bool_decide _).
  { destruct (update_registry_status_spec (ys_id s) SKIPPED x Hid) as (x' & Hu & Hr & Hd & Hv & Hj).
    exists x'. rewrite (bind_ok _ _ _ _ _ Hu). unfold free. by rewrite Hr. }
  destruct (negb _).
  { destruct (update_registry_status_spec (ys_id s) PENDING x Hid) as (x' & Hu & Hr & Hd & Hv & Hj).
    exists x'. rewrite (bind_ok _ _ _ _ _ Hu). unfold free. by rewrite Hr. }
  destruct (acquire_all_spec (ys_id s) (keys (ys_resources s)) [] x Hwf (Hx _))
    as (x1 & H1 & (Hd1 & Hv1 & Hr1) & Hh1). cbn in H1, Hh1.
  destruct (release_all_spec (ys_id s) _ x1 Hwf Hh1) as (x2 & H2 & (Hd2 & Hv2 & Hr2) & Hh2).
  destruct (update_registry_status_spec (ys_id s) PASSED x2 Hid) as (x3 & H3 & Hr & Hd3 & Hv3 & Hj3).
  exists x3. rewrite (bind_ok _ _ _ _ _ H1). cbn beta iota.
  rewrite (bind_ok _ _ _ _ _ H2), (bind_ok _ _ _ _ _ H3). split; [done|].
  split; [intros o; rewrite Hr; by eapply holds_nothing|].
  split_and!; [congruence..|]. intros j. by rewrite Hj3, Hr2, Hr1.
Qed.

(** Identifiers are not blank and resource dictionaries are well formed. *)
Fixpoint named (n : YamlNode) : Prop :=
  match n with
  | StepNode s _ => is_blank (ys_id s) = false ∧ dict_wf (ys_resources s)
  | LoopNode spec steps =>
      is_blank (yl_id spec) = false ∧ foldr and True (map named steps)
  end.

Lemma named_loop spec steps :
  named (LoopNode spec steps) → is_blank (yl_id spec) = false ∧ Forall named steps.
Proof.
  intros [Hid H]. split; [done|]. clear Hid. induction steps as [|n l IH]; [done|].
  destruct H. constructor; auto.
Qed.

(** A decision is one of three, and a step is blocked exactly by its preconditions. *)
Definition sound (d : StepDecision) : Prop :=
  (sd_decision d = PASS ∧ sd_condition_met d = true)
  ∨ (sd_decision d = SKIP ∧ sd_condition_met d = true)
  ∨ (sd_decision d = BLOCKED ∧ sd_condition_met d = false).

Notation good m := (ensures free (Forall sound) (λ _, False) m).
Notation runs m := (ensures free (λ _, True) (λ _, False) m).

Lemma verdict_sound x s b : sound (verdict x s b).
Proof.
  unfold verdict, sound. destruct (bool_decide _); [by right; left|].
  destruct (negb _); [by right; right|by left].
Qed.

Lemma ensures_get (Q : Dry → Prop) : (∀ x, Q x) → ensures free Q (λ _, False) get.
Proof. intros HQ x Hx. split; [done|apply HQ]. Qed.

Lemma record_runs id st : runs (record_status id st).
Proof. by intros x Hx. Qed.

Lemma update_runs id st : is_blank id = false → runs (update_registry_status id st).
Proof.
  intros Hid x Hx. destruct (update_registry_status_spec id st x Hid) as (x' & -> & Hr & _).
  split; [|done]. cbn. intros o. by rewrite Hr.
Qed.

Lemma register_once_runs id c : is_blank id = false → runs (register_once id c).
Proof.
  intros Hid. unfold register_once. intros x Hx. rewrite bind_get. unfold has_step, has_key.
  case_bool_decide as Hk; [done|].
  destruct (register_unknown id c (dry_reg x) Hid) as (m & Hm & _); [by apply eq_None_not_Some|].
  unfold on_dry_reg, zoom. by rewrite Hm.
Qed.

Lemma process_and_record_good s b :
  is_blank (ys_id s) = false → dict_wf (ys_resources s) → good (process_and_record now s b).
Proof.
  intros Hid Hwf x Hx. destruct (process_step_spec s b x Hx Hid Hwf) as (x' & Hs & Hf & _).
  unfold process_and_record. rewrite (bind_ok _ _ _ _ _ Hs). split; [done|].
  by constructor; [apply verdict_sound|].
Qed.

Lemma gather_good {A} (f : A → M Dry (list StepDecision)) l :
  Forall (λ a, good (f a)) l → good (gather f l).
Proof.
  induction 1 as [|a l Ha _ IH]; [by apply ensures_ret|].
  cbn. eapply ensures_bind; [exact Ha|]. intros r Hr.
  eapply ensures_bind; [exact IH|]. intros rs Hrs. apply ensures_ret. by apply Forall_app.
Qed.

Lemma lstrip_inked a c : ∃ a', lstrip (a +:+ "#" +:+ c) = a' +:+ "#" +:+ c.
Proof.
  induction a as [|ch a [a' IH]]; [by exists ""|].
  destruct (is_space ch) eqn:Hs.
  - exists a'. change (lstrip (String ch (a +:+ "#" +:+ c)) = a' +:+ "#" +:+ c). cbn [lstrip]. by rewrite Hs.
  - exists (String ch a). change (lstrip (String ch (a +:+ "#" +:+ c)) = String ch (a +:+ "#" +:+ c)).
    cbn [lstrip]. by rewrite Hs.
Qed.

Lemma rstrip_inked a c : rstrip (a +:+ "#" +:+ c) ≠ "".
Proof.
  induction a as [|ch a IH].
  - change (rstrip (String "#" c) ≠ ""). cbn [rstrip]. by destruct (rstrip c).
  - change (rstrip (String ch (a +:+ "#" +:+ c)) ≠ ""). cbn [rstrip]. by destruct (rstrip _).
Qed.

Lemma is_blank_copy a c : is_blank (a +:+ "#" +:+ c) = false.
Proof.
  unfold is_blank, py_strip. rewrite !bool_decide_false; [done| |by destruct a].
  destruct (lstrip_inked a c) as [a' ->]. apply rstrip_inked.
Qed.

Lemma process_item_good n b : named n → ∀ scope, good (process_item now scope b n).
Proof.
  induction n as [s inner _|spec steps IH] using YamlNode_ind'; intros Hn scope; cbn [process_item].
  - destruct Hn as [Hid Hwf]. eapply ensures_bind; [apply register_once_runs, is_blank_copy|].
    intros [] _. apply process_and_record_good; [apply is_blank_copy|done].
  - apply named_loop in Hn as [Hid Hn].
    eapply ensures_bind; [by apply (ensures_get (λ _, True))|]. intros x _.
    destruct (loop_skip now x spec) as [e|].
    + eapply ensures_bind; [by apply update_runs|]. intros [] _. apply ensures_ret.
      constructor; [by right; left|constructor].
    + apply gather_good, Forall_forall. intros i _. apply gather_good.
      rewrite Forall_forall in IH, Hn. apply Forall_forall. intros m Hm. by apply IH, Hn.
Qed.

Lemma process_top_good n b : named n → good (process_top now b n).
Proof.
  intros Hn. destruct n as [s inner|spec steps]; cbn [process_top].
  - destruct Hn. by apply process_and_record_good.
  - eapply ensures_bind; [by apply process_item_good|]. intros ds Hds.
    eapply ensures_bind; [apply record_runs|]. intros [] _. by apply ensures_ret.
Qed.

Lemma for_each_runs {A} (f : A → M Dry unit) l : Forall (λ a, runs (f a)) l → runs (for_each l f).
Proof.
  induction 1 as [|a l Ha _ IH]; [by apply ensures_ret|].
  cbn. eapply ensures_bind; [exact Ha|]. by intros [] _.
Qed.

Lemma register_items_runs cs n : named n → runs (register_items cs n).
Proof.
  induction n as [s inner _|spec steps IH] using YamlNode_ind'; intros Hn; cbn [register_items].
  - apply register_once_runs, Hn.
  - apply named_loop in Hn as [Hid Hn].
    eapply ensures_bind; [by apply register_once_runs|]. intros [] _.
    induction steps as [|m l IHl]; [by apply ensures_ret|].
    apply Forall_cons in IH as [Hm IH], Hn as [Hnm Hn].
    eapply ensures_bind; [by apply Hm|]. intros [] _. by apply IHl.
Qed.

Lemma register_steps_runs plan cs : Forall named (yp_steps plan) → runs (register_steps plan cs).
Proof.
  intros Hn. unfold register_steps.
  eapply ensures_bind; [by apply (ensures_modify _ _ (λ _, True))|]. intros [] _.
  apply for_each_runs. eapply Forall_impl; [exact Hn|]. intros n. apply register_items_runs.
Qed.

Lemma decision_filter t l :
  (∀ d, d ∈ l → sd_decision d ≠ t) → base.filter (λ d, sd_decision d = t) l = [].
Proof. intros H. apply list_filter_empty. exact H. Qed.

Lemma count_none t l : Forall sound l → t ≠ PASS → t ≠ SKIP → t ≠ BLOCKED → count t l = 0%nat.
Proof.
  intros Hl H1 H2 H3. unfold count. rewrite decision_filter; [done|]. intros d Hd He.
  rewrite Forall_forall in Hl. destruct (Hl d Hd) as [[? _]|[[? _]|[? _]]]; congruence.
Qed.

Lemma count_sum l :
  Forall sound l → length l = (count PASS l + count SKIP l + count BLOCKED l)%nat.
Proof.
  unfold count. induction 1 as [|d l Hd _ IH]; [done|]. rewrite !filter_cons. cbn [length].
  destruct Hd as [[H _]|[[H _]|[H _]]]; rewrite H; repeat case_decide; try done; cbn [length]; lia.
Qed.

Lemma all_passed_iff plan l :
  Forall sound l → all_passed (summarise plan l) = true ↔ ∀ d, d ∈ l → sd_decision d ≠ BLOCKED.
Proof.
  intros Hl. unfold all_passed, summarise. cbn. rewrite !(count_none _ l Hl) by done. cbn.
  rewrite Nat.eqb_eq. unfold count. rewrite length_zero_iff_nil. split; [|apply decision_filter].
  intros H d Hd He. cut (d ∈ base.filter (λ d, sd_decision d = BLOCKED) l); [rewrite H; by apply not_elem_of_nil|].
  by apply list_elem_of_filter.
Qed.

Lemma summarise_counts plan l (r := summarise plan l) :
  Forall sound l →
  dr_failed r = 0%nat ∧ dr_errors r = 0%nat ∧ dr_not_reached r = 0%nat
  ∧ dr_total_steps r = (dr_passed r + dr_skipped r + dr_blocked r)%nat
  ∧ dr_deadlock_detected r = negb (all_passed r).
Proof.
  intros Hl. unfold r, all_passed, summarise. cbn. rewrite !(count_none _ l Hl) by done. cbn.
  split_and!; try done; [by apply count_sum|]. rewrite length_fmap. unfold count.
  by destruct (length _).
Qed.

Lemma free_new has_bus vs bus : free (new_dry_run has_bus vs bus).
Proof. intros o. split; intros r; [done|]. by rewrite decide_False by set_solver. Qed.

Lemma free_done d x : free (set_dry_done d x) ↔ free x.
Proof. done. Qed.

Lemma dry_run_good plan b x :
  Forall named (yp_steps plan) → free x →
  ∃ l x', dry_run now plan b x = (Ok (summarise plan l), x') ∧ free x' ∧ Forall sound l.
Proof.
  intros Hn Hx.
  assert (ensures free (λ r, ∃ l, r = summarise plan l ∧ Forall sound l) (λ _, False)
            (dry_run now plan b)) as H.
  { unfold dry_run. eapply ensures_bind; [by apply register_steps_runs|]. intros [] _.
    eapply ensures_bind; [by apply (ensures_modify _ _ (λ _, True))|]. intros [] _.
    eapply ensures_bind.
    - apply gather_good. eapply Forall_impl; [exact Hn|]. intros n. apply process_top_good.
    - intros l Hl. apply ensures_ret. by exists l. }
  specialize (H x Hx). destruct (dry_run now plan b x) as [[r|e] x']; [|by destruct H].
  destruct H as [Hf (l & -> & Hl)]. by exists l, x'.
Qed.

(** *** The decisions are a walk *)

Section walking.
Context (vs : VariableSpace) (b : bool).

(** The state after a walk: nothing is held, the dictionary knows what passed and the registry
    what was decided. *)
Record walked (x : Dry) (w : Walked) : Prop := {
  wd_free : free x;
  wd_vs : dry_vs x = vs;
  wd_results p : dry_done x !! p = Some PASSED ↔ latest p (wk_results w) = Some true;
  wd_decisions id t : latest id (wk_decisions w) = Some t → sr_steps (dry_reg x) !! id = Some (recorded t)
}.

Lemma walked_skips x w o (answer : Prop) :
  walked x w →
  (answer ↔ ∃ e, o = Some e ∧ is_blank e = false ∧ evaluate_dry_skip now x e = true) →
  skips now vs w o answer.
Proof.
  intros [Hf Hv _ Hd] Ha. exists (dry_reg x), (dry_rm x). split_and!; [exact Hd| |].
  - intros r. destruct (Hf "") as [_ Ho]. unfold get_owner. rewrite Ho. by rewrite decide_False by set_solver.
  - rewrite Ha. unfold evaluate_dry_skip. by rewrite Hv.
Qed.

Lemma skip_if_true x s :
  evaluate_skip_if now x s = Some true ↔
  ∃ e, ys_skip_if s = Some e ∧ is_blank e = false ∧ evaluate_dry_skip now x e = true.
Proof.
  unfold evaluate_skip_if. destruct (ys_skip_if s) as [e|]; [|naive_solver].
  destruct (is_blank e) eqn:Eb; [split; [done|]; intros (? & [= <-] & ? & _); congruence|].
  rewrite (inj_iff Some). split; [by exists e|]. by intros (? & [= <-] & _ & ?).
Qed.

Lemma evaluate_preconditions_spec s done :
  evaluate_preconditions s done = true ↔ ∀ p, p ∈ ys_preconditions s → done !! p = Some PASSED.
Proof.
  unfold evaluate_preconditions. rewrite forallb_forall. unfold not_passed.
  split; intros H p Hp; [apply list_elem_of_In in Hp|apply list_elem_of_In in Hp]; specialize (H p Hp);
    by rewrite negb_involutive, ?bool_decide_eq_true in *.
Qed.

Lemma verdict_judged x w s :
  walked x w → judged now vs w (ys_id s) (ys_preconditions s) (ys_skip_if s) (verdict x s b).
Proof.
  intros Hw. pose proof (evaluate_preconditions_spec s (dry_done x)) as Hp.
  setoid_rewrite (wd_results x w Hw) in Hp.
  assert (∀ d, sd_decision d = SKIP ↔ evaluate_skip_if now x s = Some true →
    skips now vs w (ys_skip_if s) (sd_decision d = SKIP)) as Hs.
  { intros d Hd. apply (walked_skips x); [done|]. by rewrite Hd, skip_if_true. }
  unfold verdict, judged. case_bool_decide as Hskip.
  { split_and!; [done|by apply Hs|by left]. }
  destruct (evaluate_preconditions s (dry_done x)) eqn:He; cbn [negb].
  - split_and!; [done|by apply Hs|]. right; left. split; [done|by apply Hp].
  - split_and!; [done|by apply Hs|]. right; right. split; [done|].
    destruct (decide (Exists (λ p, latest p (wk_results w) ≠ Some true) (ys_preconditions s))) as [H|H];
      [by apply Exists_exists in H|].
    enough (false = true) by done. apply Hp. intros p Hin. apply dec_stable. intros Hn. apply H.
    apply Exists_exists. by exists p.
Qed.

(** A step, and its entries in the dictionary and the registry. *)
Lemma process_and_record_walks s x w :
  walked x w → is_blank (ys_id s) = false → dict_wf (ys_resources s) →
  ∃ d x', process_and_record now s b x = (Ok [d], x') ∧ walked x' (add_step d w)
    ∧ judged now vs w (ys_id s) (ys_preconditions s) (ys_skip_if s) d.
Proof.
  intros Hw Hid Hwf.
  destruct (process_step_spec s b x (wd_free _ _ Hw) Hid Hwf) as (x' & Hp & Hf & Hd & Hv & Hj).
  exists (verdict x s b). eexists. split; [unfold process_and_record; by rewrite (bind_ok _ _ _ _ _ Hp)|].
  pose proof (verdict_judged x w s Hw) as Hjd. split; [|done].
  assert (sd_step_id (verdict x s b) = ys_id s) as Hsid by apply Hjd.
  split; cbn [set_dry_done dry_done dry_vs dry_reg dry_rm add_step add_result add_decision wk_results wk_decisions].
  - exact Hf.
  - by rewrite Hv, (wd_vs _ _ Hw).
  - intros p. rewrite Hd, Hsid, dict_lookup_insert. cbn [latest]. case_decide; [|apply (wd_results _ _ Hw)].
    unfold decision_to_status. destruct Hjd as (_ & _ & [->|[[-> _]|[-> _]]]); cbn; naive_solver.
  - intros id t. cbn [latest]. rewrite Hj, Hsid. case_decide; [by intros [= <-]|apply (wd_decisions _ _ Hw)].
Qed.

Lemma gather_walks {A} (f : A → M Dry (list StepDecision)) (R : Walked → A → list StepDecision → Walked → Prop) l :
  Forall (λ a, ∀ x w, walked x w → ∃ ds x' w', f a x = (Ok ds, x') ∧ walked x' w' ∧ R w a ds w') l →
  ∀ x w, walked x w → ∃ ds x' w', gather f l x = (Ok ds, x') ∧ walked x' w' ∧ in_turn R w l ds w'.
Proof.
  induction 1 as [|a l Ha _ IH]; intros x w Hw; [exists [], x, w; split_and!; [done..|constructor]|].
  destruct (Ha x w Hw) as (ds & x1 & w1 & H1 & Hw1 & HR).
  destruct (IH x1 w1 Hw1) as (ds' & x2 & w2 & H2 & Hw2 & HRs).
  exists (ds ++ ds'), x2, w2. cbn [gather]. fold (gather f).
  rewrite (bind_ok _ _ _ _ _ H1), (bind_ok _ _ _ _ _ H2). split_and!; [done..|]. by econstructor.
Qed.

Lemma loop_skip_spec x spec e :
  loop_skip now x spec = Some e ↔
  yl_skip_if spec = Some e ∧ is_blank e = false ∧ evaluate_dry_skip now x e = true.
Proof.
  unfold loop_skip. destruct (yl_skip_if spec) as [e'|]; [|naive_solver].
  destruct (is_blank e') eqn:Eb, (evaluate_dry_skip now x e') eqn:Ee; cbn;
    (split; [intros [= <-]; done|intros ([= <-] & ? & ?); congruence]).
Qed.

(** Registering a copy leaves the statuses there are. *)
Lemma register_once_walks id c x w :
  is_blank id = false → walked x w → ∃ x', register_once id c x = (Ok tt, x') ∧ walked x' w.
Proof.
  intros Hid Hw. unfold register_once. rewrite bind_get. unfold has_step, has_key.
  case_bool_decide as Hk; [by exists x|]. apply eq_None_not_Some in Hk.
  destruct (register_unknown id c (dry_reg x) Hid Hk) as (m & Hm & Hs).
  unfold on_dry_reg, zoom. rewrite Hm. eexists. split; [done|]. destruct Hw as [Hf Hv Hr Hd].
  split; [done..|]. intros j t Hj. cbn. rewrite Hs, dict_lookup_insert_ne; [by apply Hd|].
  intros <-. apply Hd in Hj. congruence.
Qed.

Lemma process_item_walks n : named n → ∀ scope x w, walked x w →
  ∃ ds x' w', process_item now scope b n x = (Ok ds, x') ∧ walked x' w' ∧ walk_item now vs scope w n ds w'.
Proof.
  induction n as [s inner _|spec steps IH] using YamlNode_ind'; intros Hn scope x w Hw; cbn [process_item].
  - destruct Hn as [Hid Hwf].
    destruct (register_once_walks (ys_id (iteration_step scope.1 scope.2 s)) (first_precondition s) x w
      (is_blank_copy _ _) Hw) as (x1 & H1 & Hw1). rewrite (bind_ok _ _ _ _ _ H1).
    destruct (process_and_record_walks (iteration_step scope.1 scope.2 s) x1 w Hw1 (is_blank_copy _ _) Hwf)
      as (d & x2 & H2 & Hw2 & Hj).
    exists [d], x2, (add_step d w). split_and!; [done..|]. by constructor.
  - apply named_loop in Hn as [Hid Hn]. rewrite bind_get.
    destruct (loop_skip now x spec) as [e|] eqn:Es.
    + apply loop_skip_spec in Es as (He & Hb & Ht).
      destruct (update_registry_status_spec (yl_id spec) SKIPPED x Hid) as (x1 & H1 & Hr & Hd & Hv & Hj).
      rewrite (bind_ok _ _ _ _ _ H1). do 3 eexists. split; [done|]. split; [|apply walk_skip; [done..|]].
      2: { apply (walked_skips x); [done|]. split; [by exists e|done]. }
      destruct Hw as [Hf Hv0 Hr0 Hd0]. split; [by unfold free; rewrite Hr|congruence|by rewrite Hd|].
      intros id t. cbn. rewrite Hj. case_decide; [by intros [= <-]|apply Hd0].
    + edestruct (gather_walks (λ i, gather (process_item now (yl_id spec, i) b) steps)
        (λ w i ds w', in_turn (walk_item now vs (yl_id spec, i)) w steps ds w'))
        as (ds & x' & w' & H & Hw' & HR); [|exact Hw|].
      2: { exists ds, x', w'. split_and!; [exact H|done|]. apply walk_loop; [|exact HR].
           apply (walked_skips x); [done|]. split; [done|]. intros (e & He). apply loop_skip_spec in He. congruence. }
      apply Forall_forall. intros i _ x0 w0 Hw0. apply gather_walks; [|done].
      rewrite Forall_forall in IH, Hn. apply Forall_forall. intros m Hm x1 w1. by apply IH, Hn.
Qed.

Lemma process_top_walks n : named n → ∀ x w, walked x w →
  ∃ ds x' w', process_top now b n x = (Ok ds, x') ∧ walked x' w' ∧ walk_top now vs w n ds w'.
Proof.
  intros Hn x w Hw. destruct n as [s inner|spec steps]; cbn [process_top].
  - destruct Hn as [Hid Hwf].
    destruct (process_and_record_walks s x w Hw Hid Hwf) as (d & x' & H & Hw' & Hj).
    exists [d], x', (add_step d w). split_and!; [done..|]. by constructor.
  - destruct (process_item_walks _ Hn ("", 0%nat) x w Hw) as (ds & x' & w' & H & Hw' & HR).
    rewrite (bind_ok _ _ _ _ _ H). do 3 eexists. split; [done|]. split; [|by apply walk_top_loop].
    assert (forallb (λ d, bool_decide (sd_decision d = PASS)) ds
      = bool_decide (Forall (λ d, sd_decision d = PASS) ds)) as ->.
    { apply eq_true_iff_eq. rewrite forallb_forall, bool_decide_eq_true, Forall_forall.
      setoid_rewrite bool_decide_eq_true. by setoid_rewrite list_elem_of_In. }
    destruct Hw' as [Hf Hv Hr Hd]. split; [done|done| |done].
    intros p. cbn. rewrite dict_lookup_insert. case_decide; [|apply Hr].
    destruct (bool_decide _); naive_solver.
Qed.
End walking.

(** Registering the plan changes the registry only. *)
Lemma register_once_vs vs id c : preserves (λ x, dry_vs x = vs) (register_once id c).
Proof.
  intros x Hx. unfold register_once. rewrite bind_get. destruct (has_step _ _); [done|].
  unfold on_dry_reg, zoom. by destruct (register _ _ _ _).
Qed.
Lemma register_items_vs vs cs n : preserves (λ x, dry_vs x = vs) (register_items cs n).
Proof.
  induction n as [s inner _|spec steps IH] using YamlNode_ind'; cbn [register_items]; [apply register_once_vs|].
  apply preserves_bind; [apply register_once_vs|]. intros _.
  induction IH as [|m l Hm _ IHl]; [apply preserves_ret|]. by apply preserves_bind.
Qed.
Lemma register_steps_vs vs plan cs : preserves (λ x, dry_vs x = vs) (register_steps plan cs).
Proof.
  unfold register_steps. apply preserves_bind; [by apply preserves_modify|]. intros _.
  apply preserves_for_each. intros n. apply register_items_vs.
Qed.

Lemma dry_run_walks plan b has_bus vs bus :
  Forall named (yp_steps plan) →
  ∃ l x', dry_run now plan b (new_dry_run has_bus vs bus) = (Ok (summarise plan l), x') ∧ free x' ∧ Forall sound l
    ∧ walks now vs plan l.
Proof.
  intros Hn.
  destruct (dry_run_good plan b _ Hn (free_new has_bus vs bus)) as (l & x' & Hr & Hf & Hl).
  exists l, x'. split_and!; [done..|]. unfold dry_run in Hr.
  apply bind_inv_ok in Hr as (? & x1 & Hreg & Hr). apply bind_inv_ok in Hr as (? & x2 & [= _ Hx2] & Hr).
  apply bind_inv_ok in Hr as (ds & x3 & Hg & [= Hds _]).
  assert (walked vs x2 (mkWalked [] [])) as Hw.
  { rewrite <- Hx2. pose proof (register_steps_runs plan (build_step_conditions plan) Hn _
      (free_new has_bus vs bus)) as [H _].
    pose proof (register_steps_vs vs plan (build_step_conditions plan) (new_dry_run has_bus vs bus) eq_refl) as Hv.
    rewrite Hreg in H, Hv. by split. }
  edestruct (gather_walks vs (process_top now b) (walk_top now vs) (yp_steps plan))
    as (ds' & x4 & w' & Hg' & _ & HR); [|exact Hw|].
  { eapply Forall_impl; [exact Hn|]. intros n Hnm. by apply process_top_walks. }
  rewrite Hg in Hg'. injection Hg' as <- _. exists w'. by rewrite <-Hds.
Qed.

(** C16. A dry run of any plan whose identifiers are not blank, on a new scheduler, gives a result:
    it never raises and leaves every resource free. Its decisions are those of a walk through
    the plan: in plan order, each loop unrolled (the first hundred of a FOR loop's iterations, one of any other), an
    item is skipped exactly if its skip expression is true given the statuses decided so far; a
    step is otherwise passed if the latest result of every precondition is a pass, and blocked if
    that of one of them is not, whatever its resources. A loop of the plan counts as passed, under its
    own name, if all its decisions are. No decision is ever FAIL, ERROR or NOT_REACHED, so
    that the three other counters add up to the total, and the run passes exactly when no deadlock is
    reported, that is, when no step is blocked; the deadlocked steps are the blocked ones. *)
Theorem dry_run_contract (plan : YamlPlan) (assume_pass has_bus : bool) (vs : VariableSpace)
    (bus : EventBus) (Hn : Forall named (yp_steps plan)) :
  ∃ r x', dry_run now plan assume_pass (new_dry_run has_bus vs bus) = (Ok r, x')
    ∧ (∀ id, get_owner (dry_rm x') id = None)
    ∧ walks now vs plan (dr_decisions r)
    ∧ (∀ d, d ∈ dr_decisions r →
         (sd_decision d = PASS ∨ sd_decision d = SKIP ∨ sd_decision d = BLOCKED)
         ∧ (sd_decision d = BLOCKED ↔ sd_condition_met d = false))
    ∧ dr_failed r = 0%nat ∧ dr_errors r = 0%nat ∧ dr_not_reached r = 0%nat
    ∧ dr_total_steps r = (dr_passed r + dr_skipped r + dr_blocked r)%nat
    ∧ dr_deadlock_detected r = negb (all_passed r)
    ∧ (all_passed r = true ↔ ∀ d, d ∈ dr_decisions r → sd_decision d ≠ BLOCKED)
    ∧ (∀ id, id ∈ dr_deadlock_steps r ↔
         ∃ d, d ∈ dr_decisions r ∧ sd_step_id d = id ∧ sd_decision d = BLOCKED).
Proof.
  destruct (dry_run_walks plan assume_pass has_bus vs bus Hn) as (l & x' & Hr & Hf & Hl & Hw).
  exists (summarise plan l), x'. split; [done|]. split.
  { intros id. destruct (Hf "") as [_ Ho]. unfold get_owner. rewrite Ho.
    by rewrite decide_False by set_solver. }
  split; [exact Hw|]. split.
  { intros d Hd. rewrite Forall_forall in Hl. destruct (Hl d Hd) as [[H1 H2]|[[H1 H2]|[H1 H2]]];
      rewrite H1, H2; naive_solver. }
  destruct (summarise_counts plan l Hl) as (? & ? & ? & ? & ?).
  split_and!; try done; [by apply all_passed_iff|]. intros id. cbn.
  rewrite list_elem_of_fmap. setoid_rewrite list_elem_of_filter. naive_solver.
Qed.

(** ** Plans of plain steps *)

(** Every precondition names an earlier item. *)
Fixpoint in_order (before : list string) (l : list YamlStep) : Prop :=
  match l with
  | [] => True
  | s :: l' => ys_preconditions s ⊆ before ∧ in_order (ys_id s :: before) l'
  end.

Definition plain (s : YamlStep) : YamlNode := StepNode s [].
Definition never_skipped (s : YamlStep) : Prop :=
  match ys_skip_if s with Some e => is_blank e = true | None => True end.

(** What passed so far is what was listed so far. *)
Definition passed_so_far (before : list string) (x : Dry) : Prop :=
  ∀ p, dry_done x !! p = Some PASSED ↔ p ∈ before.

Lemma verdict_plain before x s b :
  never_skipped s → passed_so_far before x →
  sd_decision (verdict x s b) =
    if decide (ys_preconditions s ⊆ before) then PASS else BLOCKED.
Proof.
  intros Hs Hb. unfold verdict.
  rewrite bool_decide_false; last first.
  { unfold evaluate_skip_if. unfold never_skipped in Hs. destruct (ys_skip_if s); [by rewrite Hs|done]. }
  assert (evaluate_preconditions s (dry_done x) = true ↔ ys_preconditions s ⊆ before) as Hp.
  { unfold evaluate_preconditions. rewrite forallb_forall. unfold not_passed. split; intros H p Hp.
    - apply list_elem_of_In, H in Hp. rewrite negb_involutive, bool_decide_eq_true in Hp. by apply Hb.
    - rewrite negb_involutive, bool_decide_eq_true. apply Hb, H. by apply list_elem_of_In. }
  destruct (evaluate_preconditions s (dry_done x)) eqn:He; cbn [negb].
  - by rewrite decide_True by tauto.
  - rewrite decide_False; [done|]. rewrite <- Hp. done.
Qed.

Definition passes (d : StepDecision) : Prop := sd_decision d ≠ BLOCKED.

Lemma process_plain before s b x :
  named (plain s) → never_skipped s → free x → passed_so_far before x →
  ∃ d x', process_top now b (plain s) x = (Ok [d], x') ∧ free x'
    ∧ sd_decision d = (if decide (ys_preconditions s ⊆ before) then PASS else BLOCKED)
    ∧ (passes d → passed_so_far (ys_id s :: before) x').
Proof.
  intros [Hid Hwf] Hs Hx Hb.
  destruct (process_step_spec s b x Hx Hid Hwf) as (x' & Hp & Hf & Hd & _).
  exists (verdict x s b), (set_dry_done (<[ys_id s := decision_to_status (verdict x s b)]> (dry_done x')) x').
  split; [|split; [done|split; [by apply verdict_plain|]]].
  - cbn [process_top plain]. unfold process_and_record. by rewrite (bind_ok _ _ _ _ _ Hp).
  - intros Hpass p. cbn. unfold decision_to_status, passes in *.
    rewrite (verdict_plain before) in * by done. case_decide; [|done].
    rewrite dict_lookup_insert, Hd.
    rewrite elem_of_cons. specialize (Hb p). destruct (decide (ys_id s = p)); naive_solver.
Qed.

Lemma gather_plain b l : ∀ before x,
  Forall (λ s, named (plain s) ∧ never_skipped s) l → free x → passed_so_far before x →
  ∃ ds x', gather (process_top now b) (plain <$> l) x = (Ok ds, x')
    ∧ (Forall passes ds ↔ in_order before l).
Proof.
  induction l as [|s l IH]; intros before x Hl Hx Hb; [by exists [], x|].
  apply Forall_cons in Hl as [[Hn Hs] Hl].
  destruct (process_plain before s b x Hn Hs Hx Hb) as (d & x1 & H1 & Hf1 & Hd & Hb1).
  cbn [gather fmap list_fmap]. rewrite (bind_ok _ _ _ _ _ H1). fold (gather (process_top now b)).
  case_decide as Hin.
  - destruct (IH (ys_id s :: before) x1 Hl Hf1 (Hb1 ltac:(unfold passes; by rewrite Hd))) as (ds & x2 & H2 & Hiff).
    exists (d :: ds), x2. rewrite (bind_ok _ _ _ _ _ H2). split; [done|].
    rewrite Forall_cons, Hiff. unfold passes. rewrite Hd. cbn [in_order]. intuition discriminate.
  - assert (ensures free (Forall sound) (λ _, False) (gather (process_top now b) (plain <$> l))) as H.
    { apply gather_good, Forall_fmap. eapply Forall_impl; [exact Hl|]. intros s' [Hn' _].
      by apply process_top_good. }
    specialize (H x1 Hf1). destruct (gather _ _ x1) as [[ds|e] x2] eqn:Hg; [|by destruct H].
    exists (d :: ds), x2. rewrite (bind_ok _ _ _ _ _ Hg). split; [done|].
    rewrite Forall_cons. unfold passes at 1. rewrite Hd. cbn [in_order]. intuition discriminate.
Qed.

(** C15. On a plan of plain steps without skip expressions a dry run passes exactly when the plan
    is listed in dependency order, each precondition naming an earlier step; any other
    order, and any precondition that is not in the plan, is reported as a deadlock. *)
Theorem plain_dry_run_iff (plan : YamlPlan) (l : list YamlStep) (assume_pass has_bus : bool)
    (vs : VariableSpace) (bus : EventBus) (Hplan : yp_steps plan = plain <$> l)
    (Hl : Forall (λ s, named (plain s) ∧ never_skipped s) l) :
  ∃ r x', dry_run now plan assume_pass (new_dry_run has_bus vs bus) = (Ok r, x')
    ∧ (all_passed r = true ↔ in_order [] l).
Proof.
  assert (Forall named (yp_steps plan)) as Hn.
  { rewrite Hplan, Forall_fmap. eapply Forall_impl; [exact Hl|]. by intros s []. }
  pose proof (dry_run_good plan assume_pass _ Hn (free_new has_bus vs bus)) as (ds & x' & Hr & _ & Hs).
  exists (summarise plan ds), x'. split; [done|]. rewrite all_passed_iff by done.
  unfold dry_run in Hr. apply bind_inv_ok in Hr as (? & x1 & Hreg & Hr).
  apply bind_inv_ok in Hr as (? & x2 & [= _ Hx2] & Hr).
  apply bind_inv_ok in Hr as (ds' & x3 & Hg & [= Hds _]).
  assert (free x2) as Hf.
  { rewrite <- Hx2. pose proof (register_steps_runs plan (build_step_conditions plan) Hn _
      (free_new has_bus vs bus)) as [H _]. by rewrite Hreg in H. }
  rewrite Hplan in Hg.
  destruct (gather_plain assume_pass l [] x2 Hl Hf) as (ds2 & x4 & Hg' & Hiff).
  { intros p. rewrite <- Hx2. split; [done|]. by intros ?%not_elem_of_nil. }
  rewrite Hg in Hg'. injection Hg' as -> _.
  rewrite <- Hiff, <- Hds, Forall_forall. done.
Qed.
End results.

(** ** Witnesses and examples *)

#[local] Existing Instance bool_env.

Definition dry_decisions (steps : list YamlNode) : list (string * StepDecisionType) :=
  match (dry_run 0 (some_plan steps) true (new_dry_run false (vs_init false) bus_init)).1 with
  | Ok r => (λ d, (sd_step_id d, sd_decision d)) <$> dr_decisions r
  | Raise _ => []
  end.

Definition ordered_plan : list YamlNode := [script_step "a" [] None; script_step "b" ["a"] None].
Definition plain_steps : list YamlStep :=
  omap (λ n, match n with StepNode s _ => Some s | LoopNode _ _ => None end) ordered_plan.

Example ordered_plan_passes : dry_decisions ordered_plan = [("a", PASS); ("b", PASS)].
Proof. vm_compute. reflexivity. Qed.

(** The same two steps in the other order: the dry run reports a deadlock, while the scheduler
    starts "a" at its first scan and finds "b" ready once it has passed. *)
Definition reordered : World :=
  (reg_update "a" PASSED (boot (reverse ordered_plan))).2.
Example listed_order_decides :
  dry_decisions (reverse ordered_plan) = [("b", BLOCKED); ("a", PASS)]
  ∧ starts_of (reverse ordered_plan) = ["a"]
  ∧ new_starts reordered (first_scan reordered) = ["b"].
Proof. vm_compute. done. Qed.

(** Inside a loop the copies have other names than the preconditions of their siblings: the
    second step of a body that depends on the first is always blocked. *)
Example loop_siblings_blocked :
  dry_decisions [LoopNode (default_loop "l" FOR) ordered_plan]
  = [("l#0#a", PASS); ("l#0#b", BLOCKED)].
Proof. vm_compute. reflexivity. Qed.

(** A skipped precondition blocks. *)
Example skipped_precondition_blocks :
  dry_decisions [script_step "a" [] (Some "True"); script_step "b" ["a"] None]
  = [("a", SKIP); ("b", BLOCKED)].
Proof. vm_compute. reflexivity. Qed.

(** With a false [skip_if] the dry run passes a step that the booted scheduler never starts. *)
Example false_skip_if_passes :
  dry_decisions [script_step "a" [] (Some "False")] = [("a", PASS)]
  ∧ starts_of [script_step "a" [] (Some "False")] = [].
Proof. vm_compute. done. Qed.

(** The condition of a WHILE loop is not looked at: false, and the body runs once. *)
Definition while_false : LoopSpec :=
  let d := default_loop "l" WHILE in
  mkLoop (yl_id d) (yl_type d) (yl_count d) (Some "False") (yl_collection d) (yl_iterator_var d)
    (yl_mode d) (yl_max_iterations d) (yl_skip_if d) (yl_skip_reason d) (yl_depends_on d).
Example while_body_runs_once :
  dry_decisions [LoopNode while_false [script_step "a" [] None]] = [("l#0#a", PASS)].
Proof. vm_compute. reflexivity. Qed.

Lemma named_ordered : Forall named ordered_plan.
Proof. repeat constructor; by apply dict_wf_empty. Qed.

Lemma dry_run_contract_witness :
  ∃ r x', dry_run 0 (some_plan ordered_plan) true
            (new_dry_run false (vs_init false) bus_init) = (Ok r, x')
    ∧ get_owner (dry_rm x') "DMM" = None ∧ dr_total_steps r = 2%nat.
Proof.
  destruct (dry_run_contract 0 (some_plan ordered_plan) true false (vs_init false) bus_init
    named_ordered) as (r & x' & Hr & Ho & _).
  exists r, x'. split; [exact Hr|]. split; [apply Ho|].
  assert ((dry_run 0 (some_plan ordered_plan) true
    (new_dry_run false (vs_init false) bus_init)).1 = Ok r) as H by (by rewrite Hr).
  vm_compute in H. by injection H as <-.
Defined.

Lemma plain_dry_run_iff_witness :
  ∃ r x', dry_run 0 (some_plan ordered_plan) true
            (new_dry_run false (vs_init false) bus_init) = (Ok r, x')
    ∧ all_passed r = true.
Proof.
  destruct (plain_dry_run_iff 0 (some_plan ordered_plan) plain_steps true false
    (vs_init false) bus_init eq_refl) as (r & x' & Hr & Hiff).
  - repeat constructor; by apply dict_wf_empty.
  - exists r, x'. split; [exact Hr|]. apply Hiff. cbn. set_solver.
Defined.
