(* ===== verification/AdaptiveSkip.v ===== *)
(** * Adaptive skipping (src/src/ate_platform/scheduler/adaptive_skip.py)

    Typed skip conditions, their parser, and the evaluator the scheduler asks. The SPC
    processor and the fault predictor are arguments, as in the code; floats are those of
    [PyFloats]. [adaptive_env] puts the evaluator behind the scheduler's interface. *)

From S2P Require Import Prelude PyDict PyStr PyNum Types VariableSpace EventBus ResourceManager ConditionEvaluator StepRegistry StateSnapshot Scheduler Dispatch System.

Inductive SkipConditionType : Type := DEPENDS_ON_RESULT | PRODUCT_CONTEXT | BATCH_QUALITY | FAULT_PROBABILITY.
Definition skip_type_value (t : SkipConditionType) : string :=
  match t with
  | DEPENDS_ON_RESULT => "depends_on_result" | PRODUCT_CONTEXT => "product_context"
  | BATCH_QUALITY => "batch_quality" | FAULT_PROBABILITY => "fault_probability"
  end.
Definition skip_types : list SkipConditionType :=
  [DEPENDS_ON_RESULT; PRODUCT_CONTEXT; BATCH_QUALITY; FAULT_PROBABILITY].

(** [SkipConditionType(v)] *)
Definition skip_type_of (v : pyval) : option SkipConditionType :=
  match v with
  | PyStr s => List.find (λ t, bool_decide (skip_type_value t = s)) skip_types
  | _ => None
  end.

Section adaptive.
Context `{PF : PyFloats}.

Inductive SkipCondition : Type :=
  | DependsOnResultCondition (step_id result : string)
  | ProductContextCondition (variable operator_str : string) (value : F)
  | BatchQualityCondition (product_type measurement_name operator_str : string) (threshold : F)
  | FaultProbabilityCondition (step_id operator_str : string) (threshold : F).

Record SkipConditions : Type := mkSkip {
  sc_conditions : list SkipCondition;
  sc_reason : option string
}.

(** ** Parsing *)

Definition VALID_RESULTS : list string := ["PASS"; "FAIL"].
Definition VALID_OPERATORS : list string := keys COMPARATORS.

Definition bad {A} (prefix msg : string) : res A := Raise (ValueError (prefix +:+ msg)).

(** A non-empty string, or the error. *)
Definition required (v : pyval) (prefix msg : string) : res string :=
  match true_str v with Some s => Ok s | None => bad prefix msg end.
Definition operator_of (v : pyval) (prefix what : string) : res string :=
  match true_str v with
  | Some op => if str_in op VALID_OPERATORS then Ok op
               else bad prefix (what +:+ repr_strs (py_sorted VALID_OPERATORS))
  | None => bad prefix (what +:+ repr_strs (py_sorted VALID_OPERATORS))
  end.
Definition number_of (v : pyval) (prefix msg : string) : res F :=
  if is_none v then bad prefix msg else py_float v.

(** [_parse_single_condition] *)
Definition parse_single_condition (cond_type : SkipConditionType) (cond : list (pyval * pyval)) (index : nat) :
    res SkipCondition :=
  let prefix := "skip_conditions.conditions[" +:+ pretty index +:+ "]" in
  let field k := map_get_default k PyNone cond in
  match cond_type with
  | DEPENDS_ON_RESULT =>
      step_id ← required (field "step_id") prefix " depends_on_result requires 'step_id' (str)";
      result ← required (field "result") prefix " depends_on_result requires 'result' (str)";
      if str_in (py_upper result) VALID_RESULTS
      then Ok (DependsOnResultCondition step_id (py_upper result))
      else bad prefix (" depends_on_result.result must be 'PASS' or 'FAIL', got '" +:+ result +:+ "'")
  | PRODUCT_CONTEXT =>
      variable ← required (field "variable") prefix " product_context requires 'variable' (str)";
      op ← operator_of (field "operator") prefix " product_context.operator must be one of ";
      value ← number_of (field "value") prefix " product_context requires 'value' (number)";
      Ok (ProductContextCondition variable op value)
  | BATCH_QUALITY =>
      pt ← required (field "product_type") prefix " batch_quality requires 'product_type' (str)";
      mn ← required (field "measurement_name") prefix " batch_quality requires 'measurement_name' (str)";
      op ← operator_of (field "operator") prefix " batch_quality.operator must be one of ";
      threshold ← number_of (field "threshold") prefix " batch_quality requires 'threshold' (number)";
      Ok (BatchQualityCondition pt mn op threshold)
  | FAULT_PROBABILITY =>
      step_id ← required (field "step_id") prefix " fault_probability requires 'step_id' (str)";
      op ← operator_of (field "operator") prefix " fault_probability.operator must be one of ";
      threshold ← number_of (field "threshold") prefix " fault_probability requires 'threshold' (number)";
      Ok (FaultProbabilityCondition step_id op threshold)
  end.

(** One entry of the list. *)
Definition parse_entry (i : nat) (cond : pyval) : res SkipCondition :=
  let prefix := "skip_conditions.conditions[" +:+ pretty i +:+ "]" in
  match cond with
  | PyMap l =>
      let cond_type := map_get_default "type" PyNone l in
      if is_none cond_type then bad prefix " missing 'type' key"
      else
        match skip_type_of cond_type with
        | None => bad prefix (" unknown type '" +:+ py_str cond_type +:+ "'. Valid types: "
                    +:+ repr_strs (skip_type_value <$> skip_types))
        | Some t => parse_single_condition t l i
        end
  | _ => bad prefix (" must be a dict, got " +:+ type_name cond)
  end.

Fixpoint parse_conditions (i : nat) (raw : list pyval) : res (list SkipCondition) :=
  match raw with
  | [] => Ok []
  | cond :: raw' => c ← parse_entry i cond; l ← parse_conditions (S i) raw'; Ok (c :: l)
  end.

(** [parse_skip_conditions] *)
Definition parse_skip_conditions (raw : list (pyval * pyval)) : res SkipConditions :=
  match map_get_default "conditions" (PyList []) raw with
  | PyList raw_conditions =>
      conditions ← parse_conditions 0 raw_conditions;
      match map_get_default "reason" PyNone raw with
      | PyNone => Ok (mkSkip conditions None)
      | PyStr reason => Ok (mkSkip conditions (Some reason))
      | v => Raise (ValueError ("skip_conditions.reason must be a string, got " +:+ type_name v))
      end
  | v => Raise (ValueError ("skip_conditions.conditions must be a list, got " +:+ type_name v))
  end.

(** ** Evaluation *)

(** A result the evaluator may meet: a StepStatus, what the scheduler records, a string. *)
Inductive any_result : Type :=
  | AStatus (s : StepStatus) | AResult (r : step_result) | AString (s : string) | AOther.

(** What [get_statistics] may return: None, an object with a [cpk], a dictionary, any other. *)
Inductive spc_stats : Type :=
  | StatsNone | StatsObject (cpk : pyval) | StatsDict (d : list (pyval * pyval)) | StatsOther.

Record AdaptiveConditionEvaluator : Type := mkAdaptive {
  ae_spc : option (string → string → res spc_stats);
  ae_predictor : option (string → string → Z → string → res F);
  ae_step_results : pydict string any_result;
  ae_variable_space : VariableSpace;
  ae_product_type : string;
  ae_time_of_day : Z;
  ae_instrument_id : string
}.

(** [__init__]; an empty table of results is replaced by a new one, which is empty too. *)
Definition new_adaptive (spc : option (string → string → res spc_stats))
    (predictor : option (string → string → Z → string → res F))
    (results : option (pydict string any_result)) (vs : option VariableSpace)
    (product_type : string) (time_of_day : Z) (instrument_id : string) : AdaptiveConditionEvaluator :=
  mkAdaptive spc predictor (default ∅ results) (default (vs_init false) vs) product_type time_of_day
    instrument_id.

(** [_extract_status] *)
Definition extract_status (r : any_result) : option string :=
  match r with
  | AStatus s => Some (status_value s)
  | AResult (ResultDict (Some (SVStatus s)) _) => Some (status_value s)
  | AResult (ResultDict (Some (SVName n)) _) => Some (py_upper n)
  | AResult _ => None
  | AString s => Some (py_upper s)
  | AOther => None
  end.

(** [_extract_cpk]: [float(cpk)], if there is one. *)
Definition float_or_none (cpk : pyval) : res (option F) :=
  if is_none cpk then Ok None else x ← py_float cpk; Ok (Some x).
Definition extract_cpk (stats : spc_stats) : res (option F) :=
  match stats with
  | StatsObject cpk => float_or_none cpk
  | StatsDict d => float_or_none (map_get_default "cpk" PyNone d)
  | _ => Ok None
  end.

Definition compare_with (op : string) (x y : F) : bool :=
  match COMPARATORS !! op with Some cmp => cmp x y | None => false end.

Definition eval_depends_on_result (e : AdaptiveConditionEvaluator) (step_id result : string) : bool :=
  match ae_step_results e !! step_id with
  | None => false
  | Some r =>
      match extract_status r with
      | None => false
      | Some status =>
          let expected := if decide (py_upper result = "PASS") then "PASSED" else "FAILED" in
          bool_decide (status = expected)
      end
  end.

(** [float] of the value may raise something the handler does not catch, as OverflowError. *)
Definition eval_product_context (e : AdaptiveConditionEvaluator) (variable op : string) (value : F) : res bool :=
  let v := vs_get (ae_variable_space e) variable PyNone in
  if is_none v then Ok false
  else match py_float v with
       | Ok x => Ok (compare_with op x value)
       | Raise x => if is_number_error x then Ok false else Raise x
       end.

(** The handler covers [get_statistics] only. *)
Definition eval_batch_quality (e : AdaptiveConditionEvaluator) (product_type measurement_name op : string)
    (threshold : F) : res bool :=
  match ae_spc e with
  | None => Ok false
  | Some get_statistics =>
      match get_statistics product_type measurement_name with
      | Raise _ => Ok false
      | Ok stats =>
          cpk ← extract_cpk stats;
          Ok match cpk with None => false | Some cpk => compare_with op cpk threshold end
      end
  end.

Definition eval_fault_probability (e : AdaptiveConditionEvaluator) (step_id op : string) (threshold : F) : bool :=
  match ae_predictor e with
  | None => false
  | Some get_step_fault_probability =>
      match get_step_fault_probability step_id (ae_product_type e) (ae_time_of_day e) (ae_instrument_id e) with
      | Raise _ => false
      | Ok prob => compare_with op prob threshold
      end
  end.

(** [_evaluate_single] *)
Definition evaluate_single (e : AdaptiveConditionEvaluator) (c : SkipCondition) : res bool :=
  match c with
  | DependsOnResultCondition step_id result => Ok (eval_depends_on_result e step_id result)
  | ProductContextCondition variable op value => eval_product_context e variable op value
  | BatchQualityCondition pt mn op threshold => eval_batch_quality e pt mn op threshold
  | FaultProbabilityCondition step_id op threshold => Ok (eval_fault_probability e step_id op threshold)
  end.

(** [all(self._evaluate_single(cond) for cond in conditions)]: up to the first that is false. *)
Fixpoint all_single (e : AdaptiveConditionEvaluator) (l : list SkipCondition) : res bool :=
  match l with
  | [] => Ok true
  | c :: l' => b ← evaluate_single e c; if b : bool then all_single e l' else Ok false
  end.

(** [should_skip] *)
Definition adaptive_should_skip (e : AdaptiveConditionEvaluator) (sc : SkipConditions) : res bool :=
  match sc_conditions sc with [] => Ok false | l => all_single e l end.

(** [type(c).__name__] *)
Definition condition_class (c : SkipCondition) : string :=
  match c with
  | DependsOnResultCondition _ _ => "DependsOnResultCondition"
  | ProductContextCondition _ _ _ => "ProductContextCondition"
  | BatchQualityCondition _ _ _ _ => "BatchQualityCondition"
  | FaultProbabilityCondition _ _ _ => "FaultProbabilityCondition"
  end.

(** [evaluate_skip_reason] *)
Definition evaluate_skip_reason (e : AdaptiveConditionEvaluator) (sc : SkipConditions) : res (option string) :=
  skip ← adaptive_should_skip e sc;
  Ok (if negb skip then None
      else
        match nonempty (sc_reason sc) with
        | Some reason => Some reason
        | None => Some ("Adaptive skip: " +:+ str_join ", " (condition_class <$> sc_conditions sc))
        end).

(** [prune_dependency_graph] *)
Fixpoint prune_steps (e : AdaptiveConditionEvaluator) (to_skip : gset string)
    (l : list (string * SkipConditions)) : res (gset string) :=
  match l with
  | [] => Ok to_skip
  | (step_id, conditions) :: l' =>
      skip ← adaptive_should_skip e conditions;
      prune_steps e (if skip : bool then {[ step_id ]} ∪ to_skip else to_skip) l'
  end.
Definition prune_dependency_graph (e : AdaptiveConditionEvaluator) (step_conditions : pydict string SkipConditions) :
    res (gset string) :=
  prune_steps e ∅ (items step_conditions).

(** ** Behind the scheduler's interface *)

(** [_step_results = ...; _variable_space = ...], as the scheduler sets them before it asks. *)
Definition at_schedule (e : AdaptiveConditionEvaluator) (results : pydict string step_result)
    (vs : VariableSpace) : AdaptiveConditionEvaluator :=
  mkAdaptive (ae_spc e) (ae_predictor e) (dict_map AResult results) vs (ae_product_type e)
    (ae_time_of_day e) (ae_instrument_id e).

Definition adaptive_env (base : SchedulerEnv) : SchedulerEnv := {|
  simple_eval := @simple_eval base;
  simple_eval_names := @simple_eval_names base;
  json_dump := @json_dump base;
  json_load := @json_load base;
  temp_name := @temp_name base;
  Scheduler.SkipConditions := SkipConditions;
  Scheduler.AdaptiveEvaluator := AdaptiveConditionEvaluator;
  should_skip e results vs sc := adaptive_should_skip (at_schedule e results vs) sc;
  skip_reason_of e results vs sc := evaluate_skip_reason (at_schedule e results vs) sc;
  FaultInjector := @FaultInjector base;
  check_scheduler_raise := @check_scheduler_raise base
|}.
End adaptive.

(** ** Parsing is exact *)

Section parsing.
Context `{PF : PyFloats}.

Definition valid_operator (op : string) : Prop := op ∈ VALID_OPERATORS.
Definition condition_valid (c : SkipCondition) : Prop :=
  match c with
  | DependsOnResultCondition step_id result => step_id ≠ "" ∧ result ∈ VALID_RESULTS
  | ProductContextCondition variable op _ => variable ≠ "" ∧ valid_operator op
  | BatchQualityCondition pt mn op _ => pt ≠ "" ∧ mn ≠ "" ∧ valid_operator op
  | FaultProbabilityCondition step_id op _ => step_id ≠ "" ∧ valid_operator op
  end.

(** The raw dictionary of a condition; [to_py] writes a float. *)
Definition raw_condition (to_py : F → pyval) (c : SkipCondition) : pyval :=
  let str k v := (PyStr k, PyStr v) in
  PyMap match c with
  | DependsOnResultCondition step_id result =>
      [str "type" "depends_on_result"; str "step_id" step_id; str "result" result]
  | ProductContextCondition variable op value =>
      [str "type" "product_context"; str "variable" variable; str "operator" op; (PyStr "value", to_py value)]
  | BatchQualityCondition pt mn op threshold =>
      [str "type" "batch_quality"; str "product_type" pt; str "measurement_name" mn; str "operator" op;
       (PyStr "threshold", to_py threshold)]
  | FaultProbabilityCondition step_id op threshold =>
      [str "type" "fault_probability"; str "step_id" step_id; str "operator" op; (PyStr "threshold", to_py threshold)]
  end.
Definition raw_skip (to_py : F → pyval) (sc : SkipConditions) : list (pyval * pyval) :=
  [(PyStr "conditions", PyList (raw_condition to_py <$> sc_conditions sc));
   (PyStr "reason", match sc_reason sc with Some r => PyStr r | None => PyNone end)].

Lemma rule_field_Ok v prefix msg s : required v prefix msg = Ok s ↔ v = PyStr s ∧ s ≠ "".
Proof.
  unfold required, true_str, bad. destruct v; cbn; try naive_solver. case_decide; naive_solver.
Qed.
Lemma operator_Ok v prefix msg s : operator_of v prefix msg = Ok s ↔ v = PyStr s ∧ s ≠ "" ∧ valid_operator s.
Proof.
  unfold operator_of, true_str, bad, valid_operator, str_in. destruct v; cbn; try naive_solver.
  case_decide; [naive_solver|]. case_bool_decide; naive_solver.
Qed.

Lemma parse_entry_valid i v c : parse_entry i v = Ok c → condition_valid c.
Proof.
  unfold parse_entry, bad. destruct v as [| | | | | |l|]; try done. destruct (is_none _); [done|].
  destruct (skip_type_of _) as [t|]; [|done]. destruct t; unfold parse_single_condition.
  - intros (a & [_ Ha]%rule_field_Ok & H)%res_bind_Ok. apply res_bind_Ok in H as (b & _ & H).
    unfold str_in, bad in H. case_bool_decide; [|done]. by injection H as <-.
  - intros (a & [_ Ha]%rule_field_Ok & H)%res_bind_Ok. apply res_bind_Ok in H as (b & (_ & _ & Hb)%operator_Ok & H).
    apply res_bind_Ok in H as (x & _ & [= <-]). done.
  - intros (a & [_ Ha]%rule_field_Ok & H)%res_bind_Ok. apply res_bind_Ok in H as (b & [_ Hb]%rule_field_Ok & H).
    apply res_bind_Ok in H as (op & (_ & _ & Hop)%operator_Ok & H). apply res_bind_Ok in H as (x & _ & [= <-]). done.
  - intros (a & [_ Ha]%rule_field_Ok & H)%res_bind_Ok. apply res_bind_Ok in H as (b & (_ & _ & Hb)%operator_Ok & H).
    apply res_bind_Ok in H as (x & _ & [= <-]). done.
Qed.

Lemma parse_conditions_valid i l cs : parse_conditions i l = Ok cs → Forall condition_valid cs.
Proof.
  revert i cs. induction l as [|v l IH]; intros i cs; cbn; [by intros [= <-]|].
  intros (c & Hc%parse_entry_valid & H)%res_bind_Ok. apply res_bind_Ok in H as (cs' & Hcs & [= <-]).
  constructor; [done|]. by eapply IH.
Qed.

Lemma valid_operator_true op : valid_operator op → op ≠ "".
Proof. intros Hop ->. revert Hop. unfold valid_operator. apply (bool_decide_unpack (¬ _)). by vm_compute. Qed.

Lemma parse_raw_condition to_py i c :
  (∀ x, is_none (to_py x) = false ∧ py_float (to_py x) = Ok x) →
  condition_valid c → parse_entry i (raw_condition to_py c) = Ok c.
Proof.
  intros Hto Hv.
  assert (∀ v s prefix msg, v = PyStr s → s ≠ "" → required v prefix msg = Ok s) as Hreq
    by (intros; by apply rule_field_Ok).
  assert (∀ v s prefix msg, v = PyStr s → valid_operator s → operator_of v prefix msg = Ok s) as Hop.
  { intros. apply operator_Ok. split_and!; [done|by apply valid_operator_true|done]. }
  assert (∀ x prefix msg, number_of (to_py x) prefix msg = Ok x) as Hnum.
  { intros x prefix msg. unfold number_of. destruct (Hto x) as [-> ->]. done. }
  destruct c; cbn in Hv.
  - change (parse_entry i (raw_condition _ _)) with (parse_single_condition DEPENDS_ON_RESULT
      [(PyStr "type", PyStr "depends_on_result"); (PyStr "step_id", PyStr step_id); (PyStr "result", PyStr result)] i).
    unfold parse_single_condition. cbv zeta. rewrite (Hreq (map_get_default "step_id" PyNone _) step_id); [|reflexivity|apply Hv]. cbn [mbind res_mbind res_bind].
    assert (py_upper result = result ∧ result ≠ "") as [E Hne].
    { destruct Hv as [_ Hr]. unfold VALID_RESULTS in Hr. rewrite !elem_of_cons in Hr.
      by destruct Hr as [->|[->|[]%elem_of_nil]]. }
    rewrite (Hreq (map_get_default "result" PyNone _) result); [|reflexivity|done]. cbn [mbind res_mbind res_bind]. rewrite E.
    unfold str_in. by rewrite bool_decide_eq_true_2 by apply Hv.
  - change (parse_entry i (raw_condition _ _)) with (parse_single_condition PRODUCT_CONTEXT
      [(PyStr "type", PyStr "product_context"); (PyStr "variable", PyStr variable);
       (PyStr "operator", PyStr operator_str); (PyStr "value", to_py value)] i).
    unfold parse_single_condition. cbv zeta. rewrite (Hreq (map_get_default "variable" PyNone _) variable); [|reflexivity|apply Hv]. cbn [mbind res_mbind res_bind].
    rewrite (Hop (map_get_default "operator" PyNone _) operator_str); [|reflexivity|apply Hv]. cbn [mbind res_mbind res_bind].
    change (map_get_default "value" PyNone _) with (to_py value). by rewrite Hnum.
  - change (parse_entry i (raw_condition _ _)) with (parse_single_condition BATCH_QUALITY
      [(PyStr "type", PyStr "batch_quality"); (PyStr "product_type", PyStr product_type);
       (PyStr "measurement_name", PyStr measurement_name); (PyStr "operator", PyStr operator_str);
       (PyStr "threshold", to_py threshold)] i).
    unfold parse_single_condition. cbv zeta. rewrite (Hreq (map_get_default "product_type" PyNone _) product_type); [|reflexivity|apply Hv]. cbn [mbind res_mbind res_bind].
    rewrite (Hreq (map_get_default "measurement_name" PyNone _) measurement_name); [|reflexivity|apply Hv]. cbn [mbind res_mbind res_bind].
    rewrite (Hop (map_get_default "operator" PyNone _) operator_str); [|reflexivity|apply Hv]. cbn [mbind res_mbind res_bind].
    change (map_get_default "threshold" PyNone _) with (to_py threshold). by rewrite Hnum.
  - change (parse_entry i (raw_condition _ _)) with (parse_single_condition FAULT_PROBABILITY
      [(PyStr "type", PyStr "fault_probability"); (PyStr "step_id", PyStr step_id);
       (PyStr "operator", PyStr operator_str); (PyStr "threshold", to_py threshold)] i).
    unfold parse_single_condition. cbv zeta. rewrite (Hreq (map_get_default "step_id" PyNone _) step_id); [|reflexivity|apply Hv]. cbn [mbind res_mbind res_bind].
    rewrite (Hop (map_get_default "operator" PyNone _) operator_str); [|reflexivity|apply Hv]. cbn [mbind res_mbind res_bind].
    change (map_get_default "threshold" PyNone _) with (to_py threshold). by rewrite Hnum.
Qed.

Lemma parse_raw_conditions to_py i cs :
  (∀ x, is_none (to_py x) = false ∧ py_float (to_py x) = Ok x) →
  Forall condition_valid cs → parse_conditions i (raw_condition to_py <$> cs) = Ok cs.
Proof.
  intros Hto Hv. revert i. induction Hv as [|c cs Hc Hv IH]; intros i; [done|].
  cbn [fmap list_fmap parse_conditions]. rewrite parse_raw_condition by done. cbn [mbind res_mbind res_bind].
  by rewrite IH.
Qed.

(** The parser of skip conditions is exact: everything it accepts is well formed (non-empty
    names, a known operator, PASS or FAIL), and every well-formed value is read back from its raw
    form, however floats are written, as long as [float] reads them back. *)
Theorem parse_skip_roundtrip (to_py : F → pyval)
  (Hto : ∀ x, is_none (to_py x) = false ∧ py_float (to_py x) = Ok x) :
  (∀ raw sc, parse_skip_conditions raw = Ok sc → Forall condition_valid (sc_conditions sc))
  ∧ (∀ sc, Forall condition_valid (sc_conditions sc) → parse_skip_conditions (raw_skip to_py sc) = Ok sc).
Proof.
  split.
  - intros raw sc. unfold parse_skip_conditions. destruct (map_get_default _ _ _) as [| | | | |l| |]; try done.
    intros (cs & Hcs%parse_conditions_valid & H)%res_bind_Ok.
    destruct (map_get_default _ _ _); try done; by injection H as <-.
  - intros sc Hv. unfold parse_skip_conditions, raw_skip.
    change (map_get_default "conditions" _ _) with (PyList (raw_condition to_py <$> sc_conditions sc)). cbn iota.
    rewrite parse_raw_conditions by done. cbn [mbind res_mbind res_bind].
    change (map_get_default "reason" _ _) with (match sc_reason sc with Some r => PyStr r | None => PyNone end).
    by destruct sc as [cs [r|]].
Qed.
End parsing.

(** ** What the scheduler gets *)

Section skipping.
Context `{PF : PyFloats} (base : SchedulerEnv).
#[local] Instance scheduler_env : SchedulerEnv := adaptive_env base.
Implicit Types (w : @World scheduler_env).

(** What a comparison operator says of two numbers. *)
Definition compares (op : string) (x y : F) : Prop := ∃ cmp, COMPARATORS !! op = Some cmp ∧ cmp x y = true.

(** The number an SPC processor gives: the [cpk] of an object or a dictionary. *)
Definition cpk_of (stats : spc_stats) : pyval :=
  match stats with
  | StatsObject cpk => cpk
  | StatsDict d => map_get_default "cpk" PyNone d
  | _ => PyNone
  end.

Definition condition_holds (w : @World scheduler_env) (e : AdaptiveConditionEvaluator) (c : SkipCondition) : Prop :=
  match c with
  | DependsOnResultCondition step_id result =>
      sr_steps (w_reg w) !! step_id = Some (if decide (result = "PASS") then PASSED else FAILED)
  | ProductContextCondition variable op value =>
      vs_get (w_vs w) variable PyNone ≠ PyNone
      ∧ ∃ x, py_float (vs_get (w_vs w) variable PyNone) = Ok x ∧ compares op x value
  | BatchQualityCondition pt mn op threshold =>
      ∃ get_statistics stats x, ae_spc e = Some get_statistics ∧ get_statistics pt mn = Ok stats
        ∧ cpk_of stats ≠ PyNone ∧ py_float (cpk_of stats) = Ok x ∧ compares op x threshold
  | FaultProbabilityCondition step_id op threshold =>
      ∃ predict p, ae_predictor e = Some predict
        ∧ predict step_id (ae_product_type e) (ae_time_of_day e) (ae_instrument_id e) = Ok p
        ∧ compares op p threshold
  end.

(** A condition that has no answer: its value has no float. A variable's TypeError and
    ValueError are caught; nothing is for a [cpk]. *)
Definition condition_raises (w : @World scheduler_env) (e : AdaptiveConditionEvaluator) (c : SkipCondition)
    (x : exc) : Prop :=
  match c with
  | ProductContextCondition variable _ _ =>
      vs_get (w_vs w) variable PyNone ≠ PyNone ∧ py_float (vs_get (w_vs w) variable PyNone) = Raise x
      ∧ (∀ m, x ≠ TypeError m ∧ x ≠ ValueError m)
  | BatchQualityCondition pt mn _ _ =>
      ∃ get_statistics stats, ae_spc e = Some get_statistics ∧ get_statistics pt mn = Ok stats
        ∧ cpk_of stats ≠ PyNone ∧ py_float (cpk_of stats) = Raise x
  | _ => False
  end.

(** The first condition that does not hold raises. *)
Definition conditions_raise (w : @World scheduler_env) (e : AdaptiveConditionEvaluator) (l : list SkipCondition)
    (x : exc) : Prop :=
  ∃ l1 c l2, l = l1 ++ c :: l2 ∧ (∀ d, d ∈ l1 → condition_holds w e d) ∧ condition_raises w e c x.

(** The basic rules alone: the scheduler without an evaluator. *)
Definition without_adaptive (w : @World scheduler_env) : @World scheduler_env :=
  mkWorld (w_plan w) (w_disp w) (w_gate w) (w_life w) (w_reg w) (w_vs w) (w_rm w) (w_uuts w) (w_bps w)
    (w_injector w) None (w_snapshot w) (w_bus w) (w_tasks w) (w_os w).

Lemma compare_with_true op x y : compare_with op x y = true ↔ compares op x y.
Proof. unfold compare_with, compares. destruct (COMPARATORS !! op); naive_solver. Qed.

#[local] Instance Ok_inj {A} : Inj (=) (=) (@Ok A).
Proof. by intros x y [= ->]. Qed.

Lemma nonempty_some o r : nonempty o = Some r → nonempty (Some r) = Some r.
Proof. unfold nonempty. destruct o; [|done]. case_decide; [done|]. intros [= <-]. by rewrite decide_False. Qed.

Lemma is_none_true v : is_none v = true ↔ v = PyNone.
Proof. by destruct v. Qed.

Lemma product_context_answers w e variable op value :
  let c := ProductContextCondition variable op value in
  let r := evaluate_single (at_schedule e (status_results (w_reg w)) (w_vs w)) c in
  (r = Ok true ↔ condition_holds w e c) ∧ (∀ x, r = Raise x ↔ condition_raises w e c x).
Proof.
  cbn. unfold eval_product_context. cbn [ae_variable_space at_schedule].
  generalize (vs_get (w_vs w) variable PyNone). intros v.
  destruct (is_none v) eqn:En; [apply is_none_true in En; naive_solver|].
  assert (v ≠ PyNone) by by intros ->.
  destruct (py_float v) as [y|x]; [split; [|naive_solver]|].
  { rewrite (inj_iff Ok), compare_with_true. naive_solver. }
  destruct (is_number_error x) eqn:Ex; [|rewrite is_number_error_false in Ex; naive_solver].
  split; [naive_solver|]. intros x'. split; [done|]. intros (_ & [= <-] & Hx).
  rewrite <-is_number_error_false in Hx. congruence.
Qed.

(** Neither side of the equivalences left can hold. *)
Ltac none_of_it :=
  repeat split; intros; repeat match goal with
  | H : ex _ |- _ => destruct H
  | H : _ ∧ _ |- _ => destruct H
  end; congruence.

Lemma batch_quality_answers w e pt mn op threshold :
  let c := BatchQualityCondition pt mn op threshold in
  let r := evaluate_single (at_schedule e (status_results (w_reg w)) (w_vs w)) c in
  (r = Ok true ↔ condition_holds w e c) ∧ (∀ x, r = Raise x ↔ condition_raises w e c x).
Proof.
  cbn. unfold eval_batch_quality. cbn [ae_spc at_schedule].
  destruct (ae_spc e) as [f|]; [|none_of_it].
  destruct (f pt mn) as [st|] eqn:Ef; [|none_of_it].
  assert (extract_cpk st = float_or_none (cpk_of st)) as -> by by destruct st.
  unfold float_or_none. destruct (is_none (cpk_of st)) eqn:En.
  { apply is_none_true in En. cbn. none_of_it. }
  assert (cpk_of st ≠ PyNone) by by intros E; rewrite E in En.
  destruct (py_float (cpk_of st)) as [y|x] eqn:Ey; cbn.
  - rewrite (inj_iff Ok), compare_with_true. split; [|none_of_it]. split; [by exists f, st, y|].
    intros (? & ? & ? & [= <-] & ? & ? & ? & ?). congruence.
  - split; [none_of_it|]. intros x'. split; [intros [= <-]; by exists f, st|].
    intros (? & ? & [= <-] & ? & ? & ?). congruence.
Qed.

(** Every well-formed condition: it holds, it does not, or it raises. *)
Lemma evaluate_single_answers w e c :
  condition_valid c →
  let r := evaluate_single (at_schedule e (status_results (w_reg w)) (w_vs w)) c in
  (r = Ok true ↔ condition_holds w e c) ∧ (∀ x, r = Raise x ↔ condition_raises w e c x).
Proof.
  intros Hv. destruct c; [|apply product_context_answers|apply batch_quality_answers|].
  - split; [|naive_solver]. cbn. rewrite (inj_iff Ok).
    unfold eval_depends_on_result, status_results. cbn [ae_step_results at_schedule].
    rewrite !dict_lookup_map. destruct Hv as [_ Hr]. unfold VALID_RESULTS in Hr. rewrite !elem_of_cons in Hr.
    destruct (sr_steps (w_reg w) !! step_id) as [s|]; [|naive_solver]. cbn.
    rewrite bool_decide_eq_true.
    destruct Hr as [->|[->|[]%elem_of_nil]]; cbn; destruct s; naive_solver.
  - split; [|naive_solver]. cbn. rewrite (inj_iff Ok). unfold eval_fault_probability.
    cbn [ae_predictor ae_product_type ae_time_of_day ae_instrument_id at_schedule].
    destruct (ae_predictor e) as [f|]; [|naive_solver].
    destruct (f _ _ _ _) as [p|] eqn:Ef; [rewrite compare_with_true|none_of_it].
    split; [by exists f, p|]. intros (? & ? & [= <-] & ? & ?). congruence.
Qed.

(** [all]: true when all hold; it raises with the first that does not hold, if that raises. *)
Lemma all_single_answers w e l :
  Forall condition_valid l →
  let r := all_single (at_schedule e (status_results (w_reg w)) (w_vs w)) l in
  (r = Ok true ↔ ∀ c, c ∈ l → condition_holds w e c) ∧ (∀ x, r = Raise x ↔ conditions_raise w e l x).
Proof.
  intros Hv. induction Hv as [|c l Hc Hv [IH IHx]]; cbn [all_single].
  { split; [split; [by intros _ c ?%elem_of_nil|done]|].
    intros x. split; [done|]. by intros ([|] & ? & ? & ? & _). }
  destruct (evaluate_single_answers w e c Hc) as [Ht Hx].
  assert (∀ x, condition_holds w e c → conditions_raise w e (c :: l) x ↔ conditions_raise w e l x) as Hin.
  { intros x H. split.
    - intros ([|d l1] & c' & l2 & [= -> ->] & Hl & Hr); [|exists l1, c', l2; set_solver].
      by apply Hx in Hr; apply Ht in H; rewrite Hr in H.
    - intros (l1 & c' & l2 & -> & Hl & Hr). exists (c :: l1), c', l2. split_and!; [done| |done].
      by intros d [->|?%Hl]%elem_of_cons. }
  destruct (evaluate_single _ c) as [[]|x] eqn:E; cbn [mbind res_mbind res_bind].
  - assert (condition_holds w e c) as H by by apply Ht. split; [|intros x; by rewrite IHx, Hin].
    rewrite IH. split; [by intros Hl d [->|?%Hl]%elem_of_cons|set_solver].
  - assert (¬ condition_holds w e c) as H by by intros H%Ht. split; [split; [done|set_solver]|].
    intros x. split; [done|]. intros ([|d l1] & c' & l2 & [= -> ->] & Hl & Hr); [by apply Hx in Hr|].
    destruct H. apply Hl. set_solver.
  - assert (¬ condition_holds w e c) as H by by intros H%Ht. split; [split; [done|set_solver]|].
    intros x'. split.
    + intros [= <-]. exists [], c, l. split_and!; [done|by intros d ?%elem_of_nil|by apply Hx].
    + intros ([|d l1] & c' & l2 & [= -> ->] & Hl & Hr); [by apply Hx|]. destruct H. apply Hl. set_solver.
Qed.

Lemma should_skip_answers w e sc :
  Forall condition_valid (sc_conditions sc) →
  let r := adaptive_should_skip (at_schedule e (status_results (w_reg w)) (w_vs w)) sc in
  (r = Ok true ↔ sc_conditions sc ≠ [] ∧ ∀ c, c ∈ sc_conditions sc → condition_holds w e c)
  ∧ (∀ x, r = Raise x ↔ conditions_raise w e (sc_conditions sc) x).
Proof.
  intros [Ht Hx]%(all_single_answers w e). unfold adaptive_should_skip.
  destruct (sc_conditions sc) as [|c l] eqn:E; [|split; [rewrite Ht; naive_solver|done]].
  split; [naive_solver|]. intros x. rewrite <-Hx. done.
Qed.

(** C27. Adaptive skipping, as the scheduler uses it, for a step with well-formed conditions. They
    are asked in order, up to the first that does not hold. Such a condition raises if its number
    has no float (a variable for which [float] raises something other than TypeError and ValueError, as
    OverflowError; a Cpk for which it raises at all), and then so does the whole check. Otherwise the step is skipped exactly
    if it has conditions and all hold, or the basic rules skip it. A result is compared with
    the status in the registry; a condition whose data is missing (no such step, no variable or
    not a number, no SPC processor or statistics, no predictor, an exception in either) does not
    hold, even for "!=". When the conditions hold, the reason given is theirs, if they have one. *)
Theorem adaptive_skip_exact (w : @World scheduler_env) (e : AdaptiveConditionEvaluator)
  (sc : SkipConditions) (step_id : string)
  (Hc : adaptive_skip_conditions (w_plan w) !! step_id = Some sc) (He : w_adaptive w = Some e)
  (Hv : Forall condition_valid (sc_conditions sc)) :
  let all_hold := sc_conditions sc ≠ [] ∧ ∀ c, c ∈ sc_conditions sc → condition_holds w e c in
  (∀ x, evaluate_step_skip w step_id = Raise x ↔ conditions_raise w e (sc_conditions sc) x)
  ∧ (evaluate_step_skip w step_id = Ok true ↔
     all_hold ∨ evaluate_step_skip (without_adaptive w) step_id = Ok true
                ∧ ∀ x, ¬ conditions_raise w e (sc_conditions sc) x)
  ∧ (all_hold → get_skip_reason w step_id =
       Ok (default ("Adaptive skip: " +:+ str_join ", " (condition_class <$> sc_conditions sc))
             (nonempty (sc_reason sc)))).
Proof.
  cbn zeta.
  assert (adaptive_rule w step_id = Some (e, sc)) as Hr.
  { unfold adaptive_rule. destruct (adaptive_skip_conditions (w_plan w) !! step_id) as [sc'|].
    - injection Hc as ->. by rewrite He.
    - discriminate Hc. }
  assert (evaluate_step_skip (without_adaptive w) step_id = Ok (basic_skip w step_id)) as Hr0.
  { unfold evaluate_step_skip, adaptive_rule. cbn. by destruct (_ !! step_id). }
  destruct (should_skip_answers w e sc Hv) as [Ht Hx].
  rewrite Hr0, (inj_iff Ok). unfold evaluate_step_skip, get_skip_reason. rewrite Hr.
  cbn [should_skip skip_reason_of scheduler_env adaptive_env]. setoid_rewrite <-Hx. rewrite <-Ht.
  unfold evaluate_skip_reason. destruct (adaptive_should_skip _ sc) as [b|y]; cbn [mbind res_mbind res_bind].
  - split_and!; [done| |].
    { destruct b, (basic_skip w step_id); cbn; split; try done; [by left..| |by intros [[=]|[[=] _]]].
      intros _. right. split; [done|]. by intros x [=]. }
    intros [= ->]. cbn [negb].
    by destruct (nonempty (sc_reason sc)) as [r|] eqn:E; [rewrite (nonempty_some _ _ E)|].
  - split_and!; [done| |done]. split; [done|]. intros [[=]|[_ H]]. by destruct (H y).
Qed.

(** Pruning, when it returns: exactly the steps whose conditions hold. *)
Lemma prune_steps_exact (e : AdaptiveConditionEvaluator) l (acc to_skip : gset string) step_id :
  prune_steps e acc l = Ok to_skip →
  step_id ∈ to_skip ↔ step_id ∈ acc ∨ ∃ sc, (step_id, sc) ∈ l ∧ adaptive_should_skip e sc = Ok true.
Proof.
  revert acc. induction l as [|[k c] l IH]; intros acc; cbn [prune_steps].
  { intros [= <-]. set_solver. }
  intros (b & Hb & ->%IH)%res_bind_Ok. setoid_rewrite elem_of_cons. split.
  - intros [Hin|(sc & ? & ?)]; [|right; by exists sc; auto].
    destruct b; [|by left]. apply elem_of_union in Hin as [->%elem_of_singleton|?]; [right; exists c|left]; auto.
  - intros [Hin|(sc & [[= -> ->]|Hin] & Hsc)]; [left; case_match; set_solver|left|right; by exists sc].
    rewrite Hb in Hsc. injection Hsc as ->. set_solver.
Qed.

Lemma prune_exact (e : AdaptiveConditionEvaluator) (conds : pydict string SkipConditions) to_skip step_id :
  dict_wf conds → prune_dependency_graph e conds = Ok to_skip →
  step_id ∈ to_skip ↔ ∃ sc, conds !! step_id = Some sc ∧ adaptive_should_skip e sc = Ok true.
Proof.
  intros Hwf ->%(prune_steps_exact e _ _ _ step_id). setoid_rewrite elem_of_items; [|done]. set_solver.
Qed.
End skipping.

(** ** Examples *)

#[local] Existing Instance whole_floats.
#[local] Instance example_env : SchedulerEnv := adaptive_env plain_env.

Definition example_conditions : SkipConditions :=
  mkSkip [DependsOnResultCondition "a" "FAIL"; ProductContextCondition "scope.n" "!=" 3%Z;
          BatchQualityCondition "p" "m" ">=" 2%Z] (Some "not needed").

(** "a" failed, the variable is 5, the Cpk is [cpk]. *)
Definition example_adaptive (cpk : option Z) : AdaptiveConditionEvaluator :=
  new_adaptive (Some (λ _ _, Ok (StatsObject match cpk with Some z => PyInt z | None => PyNone end))) None None None "" 12 "".
Definition example_world (cpk : option Z) : World :=
  let reg := set_status_dict (PyDict [("a", FAILED); ("b", PENDING)]) (reg_init false) in
  register_adaptive_skip_conditions (PyDict [("b", example_conditions)])
    (new_scheduler reg (set_scope (PyDict [("n", PyInt 5)]) (vs_init false)) (rm_init false)
       None None None (Some (example_adaptive cpk)) None bus_init plain_os).

Lemma example_valid : Forall condition_valid (sc_conditions example_conditions).
Proof.
  repeat constructor; try discriminate; apply (bool_decide_unpack (_ ∈ _)); vm_compute; exact I.
Qed.

Lemma parse_skip_roundtrip_witness :
  parse_skip_conditions (raw_skip PyInt example_conditions) = Ok example_conditions.
Proof. exact (proj2 (parse_skip_roundtrip PyInt ltac:(done)) example_conditions example_valid). Defined.

(** "b" is skipped with a Cpk of 2, and not without statistics. *)
Lemma adaptive_skip_exact_witness :
  evaluate_step_skip (example_world (Some 2%Z)) "b" = Ok true
  ∧ get_skip_reason (example_world (Some 2%Z)) "b" = Ok "not needed"
  ∧ evaluate_step_skip (example_world None) "b" = Ok false.
Proof.
  split; [|split]; [| |vm_compute; reflexivity].
  - apply (proj1 (proj2 (adaptive_skip_exact plain_env (example_world (Some 2%Z)) (example_adaptive (Some 2%Z))
      example_conditions "b" eq_refl eq_refl example_valid))). left. split; [discriminate|].
    intros c Hc. cbn in Hc. rewrite !elem_of_cons in Hc. destruct Hc as [->|[->|[->|[]%elem_of_nil]]].
    + vm_compute. reflexivity.
    + split; [vm_compute; discriminate|]. exists 5%Z. split; [vm_compute; reflexivity|].
      eexists. split; [reflexivity|]. vm_compute. reflexivity.
    + do 3 eexists. split; [reflexivity|]. split; [reflexivity|]. split; [discriminate|].
      split; [reflexivity|].
      eexists. split; [reflexivity|]. vm_compute. reflexivity.
  - vm_compute. reflexivity.
Defined.

(** ** A number beyond the floats *)

(** Floats up to 1000: [float] of a larger int raises OverflowError, as Python's does for ints
    beyond the largest float. *)
Definition narrow_float (v : pyval) : res Z :=
  x ← whole_float v;
  if (Z.abs x <=? 1000)%Z then Ok x else Raise (CustomError "OverflowError" "int too large to convert to float").
Definition narrow_floats : PyFloats := {|
  F := Z; py_float := narrow_float; f_cmp x y := Some (Z.compare x y); py_int := whole_float;
  py_int_int z := eq_refl
|}.

(** A plan with one adaptive rule for "b" about the variable "n"; "c" has none. *)
Definition overflow_world (n : Z) : @World (@adaptive_env narrow_floats plain_env) :=
  let _ := narrow_floats in
  let _ := @adaptive_env narrow_floats plain_env in
  let reg := set_status_dict (PyDict [("b", PENDING); ("c", PENDING)]) (reg_init false) in
  register_adaptive_skip_conditions
    (PyDict [("b", @mkSkip narrow_floats [@ProductContextCondition narrow_floats "scope.n" "<" 3%Z] None)])
    (new_scheduler reg (set_scope (PyDict [("n", PyInt n)]) (vs_init false)) (rm_init false)
       None None None (Some (@new_adaptive narrow_floats None None None None "" 12%Z "")) None bus_init plain_os).

(** The handler catches TypeError and ValueError: the OverflowError leaves the check. *)
Example overflow_escapes :
  @evaluate_step_skip (@adaptive_env narrow_floats plain_env) (overflow_world 7) "b" = Ok false
  ∧ @evaluate_step_skip (@adaptive_env narrow_floats plain_env) (overflow_world 2000) "b"
    = Raise (CustomError "OverflowError" "int too large to convert to float").
Proof. by vm_compute. Qed.

(** One such variable ends the scan before "c", which is as ready as "b". *)
Example overflow_stops_the_scan :
  let _ := @adaptive_env narrow_floats plain_env in
  ((scan_steps ["b"; "c"] (overflow_world 7)).1 = Ok ScanOver)
  ∧ (new_starts (overflow_world 7) (scan_steps ["b"; "c"] (overflow_world 7)).2 = ["b"; "c"])
  ∧ (scan_steps ["b"; "c"] (overflow_world 2000)).1
    = Raise (CustomError "OverflowError" "int too large to convert to float")
  ∧ new_starts (overflow_world 2000) (scan_steps ["b"; "c"] (overflow_world 2000)).2 = [].
Proof. by vm_compute. Qed.
