(* ===== verification/FaultInjector.v ===== *)
(** * Fault injection (src/src/ate_platform/simulation/fault_injector.py)

    Rules that turn calls of the network, protocol, instrument and scheduler layers into
    faults. Rules keep a count of their hits and a random generator, and are mutated in
    place, so a check returns the rules as they are afterwards, also when it raises. The
    clock is read through the injector. [faulty_env] puts it behind the scheduler's interface. *)

From S2P Require Import Prelude PyDict PyStr PyNum StateSnapshot Scheduler.

Definition LAYER_NETWORK : string := "network".
Definition LAYER_PROTOCOL : string := "protocol".
Definition LAYER_INSTRUMENT : string := "instrument".
Definition LAYER_SCHEDULER : string := "scheduler".
Definition ALL_LAYERS : list string := [LAYER_NETWORK; LAYER_PROTOCOL; LAYER_INSTRUMENT; LAYER_SCHEDULER].
Definition TRIGGER_TYPES : list string := ["count"; "probability"; "time"; "condition"; "state"].

(** A configuration dictionary. *)
Definition Config : Type := list (pyval * pyval).

Record FaultAction : Type := mkAction {
  fa_fault_id : string;
  fa_layer : string;
  fa_fault_type : pyval;
  fa_params : Config;
  fa_value : pyval
}.

Definition type_is (v : pyval) (l : list string) : bool :=
  match v with PyStr s => str_in s l | _ => false end.

Definition is_exception (a : FaultAction) : bool :=
  negb (type_is (fa_fault_type a) ["value_override"; "delay"; "packet_loss"; "reorder"]).

Definition is_key (k : string) (kv : pyval * pyval) : bool :=
  match kv.1 with PyStr k' => bool_decide (k' = k) | _ => false end.
Definition has_field (k : string) (l : Config) : bool := existsb (is_key k) l.

Definition tuple_repr (l : list string) : string := "(" +:+ str_join ", " (repr_str <$> l) +:+ ")".

Section injector.
Context `{PF : PyFloats} `{PR : !PyRandom} (eval_names : pydict string pyval → string → option pyval)
  {Clock : Type} (monotonic : Clock → Z * Clock) (seconds : Z → pyval).

Record FaultRule : Type := mkRule {
  fr_fault_id : string;
  fr_layer : string;
  fr_target : string;
  fr_method : string;
  fr_trigger : Config;
  fr_action : Config;
  fr_once : bool;
  fr_triggered_count : Z;
  fr_rng : Rng
}.

(** [FaultRule.__init__] *)
Definition new_rule (fault_id layer target method : string) (trigger action : Config) (once : bool) :
    res FaultRule :=
  if negb (str_in layer ALL_LAYERS) then
    Raise (ValueError ("Invalid layer '" +:+ layer +:+ "'. Must be one of " +:+ tuple_repr ALL_LAYERS))
  else
    let trigger := if has_field "type" trigger then trigger
                   else [(PyStr "type", PyStr "count"); (PyStr "value", PyInt 1)] in
    let type := map_get_default "type" PyNone trigger in
    if negb (type_is type TRIGGER_TYPES) then
      Raise (ValueError ("Invalid trigger type '" +:+ py_str type +:+ "'. Must be one of " +:+ tuple_repr TRIGGER_TYPES))
    else if negb (py_bool (map_get_default "type" PyNone action)) then
      Raise (ValueError "action.type is required")
    else Ok (mkRule fault_id layer target (if decide (method = "") then "*" else method) trigger action once 0
               (seeded (map_get_default "seed" PyNone action))).

Definition set_hits (n : Z) (r : FaultRule) : FaultRule :=
  mkRule (fr_fault_id r) (fr_layer r) (fr_target r) (fr_method r) (fr_trigger r) (fr_action r) (fr_once r) n (fr_rng r).
Definition set_rng (g : Rng) (r : FaultRule) : FaultRule :=
  mkRule (fr_fault_id r) (fr_layer r) (fr_target r) (fr_method r) (fr_trigger r) (fr_action r) (fr_once r)
    (fr_triggered_count r) g.

(** [x >= y] and [x < y] on floats. *)
Definition f_geb (x y : F) : bool := f_gtb x y || f_eqb x y.

(** Whether the trigger fires; only the generator may change. *)
Definition trigger_hit (context : pydict string pyval) : M FaultRule bool :=
  r <- get ;;
  let t := fr_trigger r in
  let type := map_get_default "type" PyNone t in
  if type_is type ["count"] then
    count <- lift (py_int (get_default "call_count" (PyInt 0) context)) ;;
    value <- lift (py_int (map_get_default "value" (PyInt 0) t)) ;;
    ret (value <=? count)%Z
  else if type_is type ["probability"] then
    let '(x, g) := random (fr_rng r) in
    modify (set_rng g) ;;;
    value <- lift (py_float (map_get_default "value" (PyInt 0) t)) ;;
    ret (f_ltb x value)
  else if type_is type ["time"] then
    elapsed <- lift (py_float (get_default "elapsed_s" (PyFloat "0.0") context)) ;;
    after <- lift (py_float (map_get_default "after_s" (PyInt 0) t)) ;;
    ret (f_geb elapsed after)
  else if type_is type ["condition"; "state"] then
    let expr := map_get_default "expression" PyNone t in
    let expr := if py_bool expr then expr else map_get_default "condition" PyNone t in
    ret (match expr with
         | PyStr e =>
             if decide (e = "") then false
             else match eval_names context e with Some v => py_bool v | None => false end
         | _ => false
         end)
  else ret false.

(** [matches] *)
Definition matches (context : pydict string pyval) : M FaultRule bool :=
  r <- get ;;
  if fr_once r && (0 <? fr_triggered_count r)%Z then ret false
  else
    hit <- trigger_hit context ;;
    (if (hit : bool) then modify (λ r, set_hits (fr_triggered_count r + 1) r) else ret tt) ;;;
    ret hit.

(** [build_action] *)
Definition build_action (r : FaultRule) : FaultAction :=
  let act := fr_action r in
  mkAction (fr_fault_id r) (fr_layer r) (map_get_default "type" PyNone act)
    (base.filter (λ kv, negb (is_key "type" kv)) act)
    (map_get_default "value" PyNone act).

Record FaultInjector : Type := mkInjector {
  fi_rules : list FaultRule;
  fi_scheduler_rule_count : Z;
  fi_dispatch_counts : pydict string Z;
  fi_start_time : Z;
  fi_clock : Clock
}.

Definition set_rules (l : list FaultRule) (i : FaultInjector) : FaultInjector :=
  mkInjector l (fi_scheduler_rule_count i) (fi_dispatch_counts i) (fi_start_time i) (fi_clock i).
Definition set_dispatch_counts (d : pydict string Z) (i : FaultInjector) : FaultInjector :=
  mkInjector (fi_rules i) (fi_scheduler_rule_count i) d (fi_start_time i) (fi_clock i).
Definition set_clock (c : Clock) (i : FaultInjector) : FaultInjector :=
  mkInjector (fi_rules i) (fi_scheduler_rule_count i) (fi_dispatch_counts i) (fi_start_time i) c.

(** [time.monotonic()] *)
Definition read_clock : M FaultInjector Z := λ i,
  let '(t, c) := monotonic (fi_clock i) in (Ok t, set_clock c i).

(** [FaultInjector.__init__] *)
Definition new_injector (c : Clock) : FaultInjector :=
  let '(t, c') := monotonic c in mkInjector [] 0 ∅ t c'.

(** [add_rule] *)
Definition add_rule (rule : FaultRule) (i : FaultInjector) : FaultInjector :=
  mkInjector (fi_rules i ++ [rule])
    (if decide (fr_layer rule = LAYER_SCHEDULER) then fi_scheduler_rule_count i + 1 else fi_scheduler_rule_count i)%Z
    (fi_dispatch_counts i) (fi_start_time i) (fi_clock i).

(** [v or {}] where the code goes on to use a dictionary. *)
Definition dict_or_empty (v : pyval) : res Config :=
  match v with
  | PyMap l => Ok l
  | _ => if py_bool v then Raise (TypeError "not a mapping") else Ok []
  end.

(** [_parse_rule] *)
Definition parse_rule (cfg : Config) : res FaultRule :=
  let field k d := map_get_default k d cfg in
  let action := field "action" PyNone in
  let action := if is_none action then field "fault" PyNone else action in
  trigger ← dict_or_empty (field "trigger" PyNone);
  action ← dict_or_empty action;
  let id := field "fault_id" PyNone in
  new_rule (py_str (if py_bool id then id else field "id" PyNone))
    (py_str (field "layer" (PyStr LAYER_INSTRUMENT))) (py_str (field "target" (PyStr "*")))
    (py_str (field "method" (PyStr "*"))) trigger action (py_bool (field "once" (PyBool false))).

(** [load]: the rules before a malformed one stay. *)
Definition load_rules (config : list Config) : M FaultInjector unit :=
  for_each config (λ cfg, rule <- lift (parse_rule cfg) ;; modify (add_rule rule)).

(** [clear] *)
Definition clear_rules : M FaultInjector unit :=
  t <- read_clock ;;
  modify (λ i, mkInjector [] 0 ∅ t (fi_clock i)).

(** [_base_context] *)
Definition base_context (target method : string) (context : pydict string pyval) :
    M FaultInjector (pydict string pyval) :=
  t <- read_clock ;;
  i <- get ;;
  ret (dict_update (PyDict [("elapsed_s", seconds (t - fi_start_time i)); ("target", PyStr target);
                            ("method", PyStr method); ("call_count", PyInt 0)]) context).

(** Does the rule concern this call? *)
Definition concerns (layer target method : string) (r : FaultRule) : bool :=
  bool_decide (fr_layer r = layer)
  && (bool_decide (fr_target r = "*") || bool_decide (fr_target r = target))
  && (bool_decide (fr_method r = "*") || bool_decide (fr_method r = method)).

(** The loop over the rules: the first that matches acts. *)
Fixpoint first_match (layer target method : string) (ctx : pydict string pyval) (rules : list FaultRule) :
    res (option FaultAction) * list FaultRule :=
  match rules with
  | [] => (Ok None, [])
  | r :: rules' =>
      if concerns layer target method r then
        match matches ctx r with
        | (Ok true, r') => (Ok (Some (build_action r')), r' :: rules')
        | (Ok false, r') => let '(a, l) := first_match layer target method ctx rules' in (a, r' :: l)
        | (Raise e, r') => (Raise e, r' :: rules')
        end
      else let '(a, l) := first_match layer target method ctx rules' in (a, r :: l)
  end.

(** [intercept] *)
Definition intercept (layer target method : string) (context : pydict string pyval) :
    M FaultInjector (option FaultAction) :=
  ctx <- base_context target method context ;;
  i <- get ;;
  let '(a, l) := first_match layer target method ctx (fi_rules i) in
  modify (set_rules l) ;;;
  lift a.

Definition check_network (resource_id method : string) (context : pydict string pyval) :=
  intercept LAYER_NETWORK resource_id method context.
Definition check_protocol (resource_id method : string) (context : pydict string pyval) :=
  intercept LAYER_PROTOCOL resource_id method context.
Definition check_instrument (resource_id method : string) (context : pydict string pyval) :=
  intercept LAYER_INSTRUMENT resource_id method context.
Definition check_scheduler (step_id method : string) (context : pydict string pyval) :=
  intercept LAYER_SCHEDULER step_id method context.

Definition scheduler_fault_message (fault_id step_id : string) (uut_id : option string) : string :=
  "Fault '" +:+ fault_id +:+ "' injected at layer=scheduler (step=" +:+ step_id +:+ ", uut="
  +:+ default "None" uut_id +:+ ")".

(** [check_scheduler_raise] *)
Definition injector_check_raise (step_id : string) (uut_id : option string) (context : pydict string pyval) :
    M FaultInjector unit :=
  i <- get ;;
  if (fi_scheduler_rule_count i =? 0)%Z then ret tt
  else
    let ctx := match uut_id with Some u => <["uut_id" := PyStr u]> context | None => context end in
    let count := (get_default step_id 0 (fi_dispatch_counts i) + 1)%Z in
    modify (set_dispatch_counts (<[step_id := count]> (fi_dispatch_counts i))) ;;;
    action <- intercept LAYER_SCHEDULER step_id "*" (<["call_count" := PyInt count]> ctx) ;;
    match action with
    | None => ret tt
    | Some a => raise (SchedulerFaultError (scheduler_fault_message (fa_fault_id a) step_id uut_id))
    end.

(** [raise_for] *)
Definition raise_for (action : option FaultAction) : res unit :=
  match action with
  | None => Ok tt
  | Some a =>
      if negb (is_exception a) then Ok tt
      else
        let type := fa_fault_type a in
        let msg := "Fault '" +:+ fa_fault_id a +:+ "' injected at " +:+ fa_layer a +:+ " layer" in
        if type_is type ["connection_drop"; "checksum_error"] then Raise (CustomError "NetworkFaultError" msg)
        else if type_is type ["scpi_error"; "truncated_data"] then Raise (CustomError "ProtocolFaultError" msg)
        else if type_is type ["instrument_error"; "out_of_range"; "selftest_fail"; "mode_switch_fail"]
        then Raise (CustomError "InstrumentFaultError" msg)
        else if type_is type ["scheduler_error"] then Raise (SchedulerFaultError msg)
        else Raise (CustomError "FaultInjectionError" msg)
  end.
End injector.

(** ** When a count rule fires *)

Section counting.
Context `{PF : PyFloats} `{PR : !PyRandom} (eval_names : pydict string pyval → string → option pyval)
  {Clock : Type} (monotonic : Clock → Z * Clock) (seconds : Z → pyval).
#[local] Abbreviation FaultInjector := (FaultInjector (Clock := Clock)).
#[local] Abbreviation check_raise step := (injector_check_raise eval_names monotonic seconds step None ∅).
Implicit Types (i : FaultInjector) (r : FaultRule).

(** The dispatches of a run, in order; each asks the injector once. *)
Fixpoint dispatches (steps : list string) (i : FaultInjector) : list (res unit) * FaultInjector :=
  match steps with
  | [] => ([], i)
  | s :: steps' =>
      let '(x, i1) := check_raise s i in
      let '(l, i2) := dispatches steps' i1 in (x :: l, i2)
  end.

(** A rule that counts the dispatches of one step. *)
Record counts_step (step_id : string) (n : Z) (r : FaultRule) : Prop := {
  ct_layer : fr_layer r = LAYER_SCHEDULER;
  ct_target : fr_target r = step_id;
  ct_method : fr_method r = "*";
  ct_type : map_get_default "type" PyNone (fr_trigger r) = PyStr "count";
  ct_value : py_int (map_get_default "value" (PyInt 0) (fr_trigger r)) = Ok n
}.

Definition same_rule r r' : Prop :=
  fr_fault_id r' = fr_fault_id r ∧ fr_layer r' = fr_layer r ∧ fr_target r' = fr_target r
  ∧ fr_method r' = fr_method r ∧ fr_trigger r' = fr_trigger r ∧ fr_action r' = fr_action r
  ∧ fr_once r' = fr_once r.

Lemma bind_lift_state {S A B} (x : res A) (k : A → M S B) (P : S → Prop) s :
  P s → (∀ a, P (k a s).2) → P (bind (lift x) k s).2.
Proof. destruct x; cbn; auto. Qed.

Lemma trigger_hit_same ctx r : ∃ g, (trigger_hit eval_names ctx r).2 = set_rng g r.
Proof.
  assert (∃ g, r = set_rng g r) as Hr by (exists (fr_rng r); by destruct r).
  assert (∀ g', ∃ g, set_rng g' r = set_rng g r) as Hg by eauto.
  unfold trigger_hit. rewrite bind_get.
  repeat match goal with
  | |- ∃ g, (if ?b then _ else _).2 = _ => destruct b
  | |- ∃ g, ((if ?b then _ else _) r).2 = _ => destruct b
  | |- ∃ g, ((let '(_, _) := ?p in _) r).2 = _ => destruct p
  | |- ∃ g, (bind (lift _) _ r).2 = _ =>
      apply (bind_lift_state _ _ (λ r', ∃ g, r' = set_rng g r)); [done|intros ?]
  end; try done.
  rewrite bind_unit by done. cbn [modify snd].
  apply (bind_lift_state _ _ (λ r', ∃ g, r' = set_rng g r)); [eauto|intros ?; cbn; eauto].
Qed.

Lemma matches_same ctx r : same_rule r (matches eval_names ctx r).2.
Proof.
  unfold matches. rewrite bind_get. destruct (_ && _); [done|].
  destruct (trigger_hit_same ctx r) as [g Hg]. unfold bind.
  destruct (trigger_hit _ _ r) as [[[]|e] r']; cbn in Hg |- *; by rewrite Hg.
Qed.

Lemma first_match_same layer target method ctx rules :
  Forall2 same_rule rules (first_match eval_names layer target method ctx rules).2.
Proof.
  induction rules as [|r rules IH]; [constructor|]. cbn [first_match].
  assert (∀ l, Forall2 same_rule l l) as Hrefl by (induction l; by constructor).
  destruct (concerns _ _ _ r).
  - pose proof (matches_same ctx r) as Hr. destruct (matches _ _ r) as [[[]|e] r']; cbn in *; try by constructor.
    destruct (first_match _ _ _ _ _ rules). by constructor.
  - destruct (first_match _ _ _ _ _ rules). by constructor.
Qed.

(** A rule that does not concern the call is passed over. *)
Lemma first_match_keep layer target method ctx pre r post :
  concerns layer target method r = false →
  ∃ pre' post', (first_match eval_names layer target method ctx (pre ++ r :: post)).2 = pre' ++ r :: post'
    ∧ Forall2 same_rule (pre ++ post) (pre' ++ post').
Proof.
  intros Hr. induction pre as [|x pre IH]; cbn [first_match app].
  - rewrite Hr. pose proof (first_match_same layer target method ctx post) as H.
    destruct (first_match _ _ _ _ _ post) as [a l]. exists [], l. by split.
  - assert (∀ l, Forall2 same_rule l l) as Hrefl by (induction l; by constructor).
    destruct IH as (pre' & post' & E & HF). destruct (concerns _ _ _ x).
    + pose proof (matches_same ctx x) as Hx. destruct (matches _ _ x) as [[[]|e] x']; cbn [snd] in *.
      * exists (x' :: pre), post. split; [done|]. by constructor.
      * destruct (first_match _ _ _ _ _ (pre ++ r :: post)) as [a l]. cbn in E |- *. rewrite E.
        exists (x' :: pre'), post'. split; [done|]. by constructor.
      * exists (x' :: pre), post. split; [done|]. by constructor.
    + destruct (first_match _ _ _ _ _ (pre ++ r :: post)) as [a l]. cbn in E |- *. rewrite E.
      exists (x :: pre'), post'. split; [done|]. by constructor.
Qed.

(** Only the rule that concerns the call is asked. *)
Lemma first_match_only layer target method ctx pre r post :
  concerns layer target method r = true →
  (∀ x, x ∈ pre ++ post → concerns layer target method x = false) →
  first_match eval_names layer target method ctx (pre ++ r :: post) =
  match matches eval_names ctx r with
  | (Ok true, r') => (Ok (Some (build_action r')), pre ++ r' :: post)
  | (Ok false, r') => (Ok None, pre ++ r' :: post)
  | (Raise e, r') => (Raise e, pre ++ r' :: post)
  end.
Proof.
  intros Hr Hno. induction pre as [|x pre IH]; cbn [first_match app].
  - rewrite Hr. assert (first_match eval_names layer target method ctx post = (Ok None, post)) as ->.
    { clear Hr. induction post as [|y post IH]; [done|]. cbn [first_match]. rewrite (Hno y) by left.
      rewrite IH; [done|]. intros x Hx. apply Hno. by right. }
    by destruct (matches _ _ r) as [[[]|e] r'].
  - rewrite (Hno x) by left. rewrite IH by (intros y Hy; apply Hno; by right).
    by destruct (matches _ _ r) as [[[]|e] r'].
Qed.

Lemma matches_counting step_id n r c ctx :
  counts_step step_id n r → get_default "call_count" (PyInt 0) ctx = PyInt c →
  matches eval_names ctx r =
  if negb (fr_once r && (0 <? fr_triggered_count r)%Z) && (n <=? c)%Z
  then (Ok true, set_hits (fr_triggered_count r + 1) r) else (Ok false, r).
Proof.
  intros [_ _ _ Ht Hv] Hc. unfold matches. rewrite bind_get. destruct (_ && _); [done|]. cbn [negb andb].
  assert (trigger_hit eval_names ctx r = (Ok (n <=? c)%Z, r)) as E.
  { unfold trigger_hit. rewrite bind_get, Ht. cbn [type_is]. unfold str_in.
    rewrite bool_decide_eq_true_2 by left. rewrite Hc, py_int_int. cbn [lift]. erewrite bind_ok by done.
    rewrite Hv. cbn [lift]. by erewrite bind_ok by done. }
  rewrite (bind_ok _ _ _ _ _ E). by destruct (n <=? c)%Z.
Qed.

(** The state of the injector after a history with [k] dispatches of the step. *)
Record counting_inv (step_id : string) (n : Z) (once : bool) (fault_id : string) (k : Z) (i : FaultInjector) : Prop := {
  ci_active : fi_scheduler_rule_count i ≠ 0%Z;
  ci_count : get_default step_id 0%Z (fi_dispatch_counts i) = k;
  ci_nonneg : (0 ≤ k)%Z;
  ci_rules : ∃ pre r post, fi_rules i = pre ++ r :: post ∧ counts_step step_id n r ∧ fr_once r = once
    ∧ fr_fault_id r = fault_id ∧ (0 < fr_triggered_count r ↔ n ≤ k ∧ 0 < k)%Z ∧ (0 ≤ fr_triggered_count r)%Z
    ∧ ∀ x, x ∈ pre ++ post → concerns LAYER_SCHEDULER step_id "*" x = false
}.

Lemma concerns_same layer target method r r' :
  same_rule r r' → concerns layer target method r' = concerns layer target method r.
Proof. unfold concerns. by intros (_ & -> & -> & -> & _). Qed.

Lemma intercept_run layer target method context i :
  ∃ t c, monotonic (fi_clock i) = (t, c) ∧
  intercept eval_names monotonic seconds layer target method context i =
  let ctx := dict_update (PyDict [("elapsed_s", seconds (t - fi_start_time i)); ("target", PyStr target);
    ("method", PyStr method); ("call_count", PyInt 0)]) context in
  ((first_match eval_names layer target method ctx (fi_rules i)).1,
   set_rules (first_match eval_names layer target method ctx (fi_rules i)).2 (set_clock c i)).
Proof.
  destruct (monotonic (fi_clock i)) as [t c] eqn:Ec. exists t, c. split; [done|]. cbn zeta.
  unfold intercept, base_context. rewrite bind_assoc.
  erewrite bind_ok by (unfold read_clock; by rewrite Ec). rewrite bind_assoc, bind_get.
  erewrite bind_ok by done. rewrite bind_get. cbn [fi_rules set_clock fi_start_time].
  destruct (first_match _ _ _ _ _ (fi_rules i)) as [[a|e] l]; done.
Qed.

Lemma check_raise_run s i :
  fi_scheduler_rule_count i ≠ 0%Z →
  let count := (get_default s 0%Z (fi_dispatch_counts i) + 1)%Z in
  ∃ ctx c, get_default "call_count" (PyInt 0) ctx = PyInt count ∧
    let r := first_match eval_names LAYER_SCHEDULER s "*" ctx (fi_rules i) in
    check_raise s i =
      (match r.1 with
       | Ok None => Ok tt
       | Ok (Some act) => Raise (SchedulerFaultError (scheduler_fault_message (fa_fault_id act) s None))
       | Raise e => Raise e
       end,
       mkInjector r.2 (fi_scheduler_rule_count i) (<[s := count]> (fi_dispatch_counts i)) (fi_start_time i) c).
Proof.
  intros Hn. cbn zeta. set (count := (get_default s 0%Z (fi_dispatch_counts i) + 1)%Z).
  destruct (intercept_run LAYER_SCHEDULER s "*" (<["call_count" := PyInt count]> ∅)
    (set_dispatch_counts (<[s := count]> (fi_dispatch_counts i)) i)) as (t & c & _ & E). cbn zeta in E.
  set (ctx := dict_update _ _) in E. exists ctx, c. split; [reflexivity|].
  unfold injector_check_raise. rewrite bind_get, (proj2 (Z.eqb_neq _ _) Hn). cbn zeta. rewrite bind_unit by done.
  cbn [modify snd]. fold count. cbn [fi_rules set_dispatch_counts] in E.
  destruct (first_match _ _ _ _ ctx (fi_rules i)) as [a l]. cbn [fst snd] in E |- *.
  destruct a as [[act|]|e]; [by rewrite (bind_ok _ _ _ _ _ E)..|by rewrite (bind_raise _ _ _ _ _ E)].
Qed.

Lemma check_raise_idle s i : fi_scheduler_rule_count i = 0%Z → check_raise s i = (Ok tt, i).
Proof. intros H0. unfold injector_check_raise. by rewrite bind_get, H0. Qed.

Lemma counts_concerns step_id n r s :
  counts_step step_id n r → step_id ≠ "*" → concerns LAYER_SCHEDULER s "*" r = bool_decide (s = step_id).
Proof.
  intros [Hl Ht Hm _ _] Hne. unfold concerns. rewrite Hl, Ht, Hm.
  rewrite bool_decide_eq_true_2, bool_decide_eq_false_2 by done. cbn. rewrite andb_true_r.
  apply bool_decide_ext. done.
Qed.

(** One dispatch: of the step itself, or of another. *)
Lemma check_own step_id n once fid k i :
  step_id ≠ "*" → counting_inv step_id n once fid k i →
  (check_raise step_id i).1 =
    (if bool_decide (n ≤ k + 1)%Z && negb (once && bool_decide (n ≤ k ∧ 0 < k)%Z)
     then Raise (SchedulerFaultError (scheduler_fault_message fid step_id None)) else Ok tt)
  ∧ counting_inv step_id n once fid (k + 1) (check_raise step_id i).2.
Proof.
  intros Hne [Hact Hk Hk0 (pre & r & post & Hrules & Hr & <- & <- & Hh & Hpos & Hno)].
  destruct (check_raise_run step_id i Hact) as (ctx & c & Hctx & ->). cbn zeta. rewrite Hk, Hrules in *.
  rewrite (first_match_only _ _ _ _ pre r post); [|by rewrite (counts_concerns step_id n), bool_decide_eq_true|done].
  rewrite (matches_counting step_id n r _ _ Hr Hctx).
  assert (fr_once r && (0 <? fr_triggered_count r)%Z = fr_once r && bool_decide (n ≤ k ∧ 0 < k)%Z) as ->.
  { f_equal. destruct (Z.ltb_spec 0 (fr_triggered_count r));
      symmetry; [apply bool_decide_eq_true|apply bool_decide_eq_false]; intuition lia. }
  assert ((n <=? k + 1)%Z = bool_decide (n ≤ k + 1)%Z) as ->.
  { destruct (Z.leb_spec n (k + 1)); symmetry; [by apply bool_decide_eq_true|apply bool_decide_eq_false; lia]. }
  rewrite (andb_comm (bool_decide _)). destruct (negb _ && _) eqn:Eb; cbn [fst snd].
  - split; [done|]. split; cbn; [done|by rewrite get_default_insert, decide_True|lia|].
    exists pre, (set_hits (fr_triggered_count r + 1) r), post. split_and!; try done.
    + by destruct Hr.
    + apply andb_true_iff in Eb as [_ Eb%bool_decide_eq_true]. cbn. lia.
    + cbn. lia.
  - split; [done|]. split; cbn; [done|by rewrite get_default_insert, decide_True|lia|].
    exists pre, r, post. split_and!; try done. apply andb_false_iff in Eb as [Eb|Eb%bool_decide_eq_false].
    + apply negb_false_iff, andb_true_iff in Eb as [_ Eb%bool_decide_eq_true]. rewrite Hh. lia.
    + rewrite Hh. lia.
Qed.

Lemma check_other step_id n once fid k s i :
  step_id ≠ "*" → s ≠ step_id → counting_inv step_id n once fid k i →
  counting_inv step_id n once fid k (check_raise s i).2.
Proof.
  intros Hne Hs [Hact Hk Hk0 (pre & r & post & Hrules & Hr & Ho & Hf & Hh & Hpos & Hno)].
  destruct (check_raise_run s i Hact) as (ctx & c & Hctx & ->). cbn zeta. rewrite Hrules.
  destruct (first_match_keep LAYER_SCHEDULER s "*" ctx pre r post) as (pre' & post' & E & HF).
  { rewrite (counts_concerns step_id n) by done. by apply bool_decide_eq_false. }
  cbn [snd]. split; cbn; [done|by rewrite get_default_insert, decide_False|done|].
  exists pre', r, post'. split_and!; try done. intros x Hx.
  apply list_elem_of_lookup in Hx as [j Hj]. destruct (Forall2_lookup_r _ _ _ _ _ HF Hj) as (y & Hy & Hsame).
  rewrite (concerns_same _ _ _ _ _ Hsame). apply Hno. by eapply list_elem_of_lookup_2.
Qed.

Lemma dispatches_inv step_id n once fid k steps i :
  step_id ≠ "*" → counting_inv step_id n once fid k i →
  counting_inv step_id n once fid (k + Z.of_nat (length (base.filter (.= step_id) steps))) (dispatches steps i).2.
Proof.
  intros Hne. revert k i. induction steps as [|s steps IH]; intros k i Hi; cbn [dispatches]; [by rewrite Z.add_0_r|].
  rewrite filter_cons. destruct (decide (s = step_id)) as [->|Hs].
  - pose proof (check_own _ _ _ _ _ _ Hne Hi) as [_ H1]. destruct (check_raise step_id i) as [x i1].
    specialize (IH (k + 1)%Z i1 H1). destruct (dispatches steps i1) as [l i2]. cbn [snd length] in *.
    replace (k + Z.of_nat (S (length (base.filter (.= step_id) steps))))%Z
      with (k + 1 + Z.of_nat (length (base.filter (.= step_id) steps)))%Z by lia. done.
  - pose proof (check_other _ _ _ _ _ _ _ Hne Hs Hi) as H1. destruct (check_raise s i) as [x i1].
    specialize (IH k i1 H1). by destruct (dispatches steps i1) as [l i2].
Qed.

(** When a count rule of the scheduler layer fires. Let a fresh injector have a rule for one step
    with count [n], among any other rules that do not concern the step. After any history of
    dispatches, of this step and others, the next dispatch of the step, its [k]-th, fails exactly if
    [n <= k] and, for a "once" rule, it is the first such; the fault names the rule and the step. *)
Theorem count_rule_fires (step_id : string) (n : Z) (pre post : list FaultRule) (r : FaultRule)
  (i : FaultInjector) (steps : list string)
  (Hstep : step_id ≠ "*") (Hr : counts_step step_id n r) (Hfresh : fr_triggered_count r = 0%Z)
  (Hrules : fi_rules i = pre ++ r :: post)
  (Hother : ∀ x, x ∈ pre ++ post → concerns LAYER_SCHEDULER step_id "*" x = false)
  (Hactive : fi_scheduler_rule_count i ≠ 0%Z) (Hcounts : fi_dispatch_counts i = ∅) :
  let k := (Z.of_nat (length (base.filter (.= step_id) steps)) + 1)%Z in
  (check_raise step_id (dispatches steps i).2).1 =
  if bool_decide (n ≤ k)%Z && (negb (fr_once r) || bool_decide (k = Z.max n 1))
  then Raise (SchedulerFaultError (scheduler_fault_message (fr_fault_id r) step_id None)) else Ok tt.
Proof.
  assert (counting_inv step_id n (fr_once r) (fr_fault_id r) 0 i) as Hi.
  { split; [done|by rewrite Hcounts|done|]. exists pre, r, post. rewrite Hfresh. split_and!; try done; lia. }
  apply (dispatches_inv _ _ _ _ _ steps) in Hi; [|done]. cbn zeta. rewrite Z.add_0_l in Hi.
  rewrite (proj1 (check_own _ _ _ _ _ _ Hstep Hi)). set (m := Z.of_nat _). assert (0 ≤ m)%Z by lia.
  case_bool_decide as E1; [|done]. destruct (fr_once r); [|done]. cbn [andb orb negb].
  assert (negb (bool_decide (n ≤ m ∧ 0 < m)%Z) = bool_decide (m + 1 = Z.max n 1)%Z) as ->; [|done].
  rewrite <- bool_decide_not. apply bool_decide_ext. lia.
Qed.
End counting.

(** ** Behind the scheduler's interface *)

Section environment.
Context `{PF : PyFloats} `{PR : !PyRandom} (base : SchedulerEnv).
Context {Clock : Type} (monotonic : Clock → Z * Clock) (seconds : Z → pyval).
Hypothesis (Hseconds : ∀ t, is_Some (match py_float (seconds t) with Ok x => Some x | Raise _ => None end)).
#[local] Abbreviation names := (@simple_eval_names base).
#[local] Abbreviation FaultInjector := (FaultInjector (Clock := Clock)).

(** The numbers of a trigger are numbers. *)
Definition trigger_ok (t : Config) : Prop :=
  let type := map_get_default "type" PyNone t in
  (type = PyStr "count" → ∃ n, py_int (map_get_default "value" (PyInt 0) t) = Ok n)
  ∧ (type = PyStr "probability" → ∃ x, py_float (map_get_default "value" (PyInt 0) t) = Ok x)
  ∧ (type = PyStr "time" → ∃ x, py_float (map_get_default "after_s" (PyInt 0) t) = Ok x).
Definition injector_ok (i : FaultInjector) : Prop := Forall (λ r, trigger_ok (fr_trigger r)) (fi_rules i).

Definition dispatch_context (ctx : pydict string pyval) : Prop :=
  (∃ n, get_default "call_count" (PyInt 0) ctx = PyInt n)
  ∧ ∃ t, get_default "elapsed_s" (PyFloat "0.0") ctx = seconds t.

Lemma type_is_one v s : type_is v [s] = true → v = PyStr s.
Proof. destruct v; try done. cbn. unfold str_in. by intros ->%bool_decide_eq_true%list_elem_of_singleton. Qed.

Lemma matches_no_error ctx r :
  dispatch_context ctx → trigger_ok (fr_trigger r) → ∃ b, (matches names ctx r).1 = Ok b.
Proof.
  intros [[n Hn] [t Ht]] (Hc & Hp & Htm). unfold matches. rewrite bind_get. destruct (_ && _); [by exists false|].
  assert (∃ b r', trigger_hit names ctx r = (Ok b, r')) as (b & r' & E).
  { unfold trigger_hit. rewrite bind_get. destruct (type_is _ ["count"]) eqn:E1.
    { destruct (Hc (type_is_one _ _ E1)) as [m Hm]. rewrite Hn, py_int_int, Hm. cbn. by do 2 eexists. }
    destruct (type_is _ ["probability"]) eqn:E2.
    { destruct (Hp (type_is_one _ _ E2)) as [x Hx]. destruct (random _) as [y g]. rewrite Hx. cbn. by do 2 eexists. }
    destruct (type_is _ ["time"]) eqn:E3.
    { destruct (Htm (type_is_one _ _ E3)) as [x Hx]. rewrite Ht. destruct (Hseconds t) as [y Hy].
      destruct (py_float (seconds t)); [|done]. rewrite Hx. cbn. by do 2 eexists. }
    destruct (type_is _ ["condition"; "state"]); eexists _, _; reflexivity. }
  rewrite (bind_ok _ _ _ _ _ E). exists b. by destruct b.
Qed.

Lemma first_match_no_error layer target method ctx rules :
  dispatch_context ctx → Forall (λ r, trigger_ok (fr_trigger r)) rules →
  ∃ a, (first_match names layer target method ctx rules).1 = Ok a.
Proof.
  intros Hctx. induction 1 as [|r rules Hr Hrules IH]; [by exists None|]. cbn [first_match].
  destruct (concerns _ _ _ r).
  - destruct (matches_no_error ctx r Hctx Hr) as [b Hb]. destruct (matches _ _ r) as [x r']. cbn in Hb. subst x.
    destruct b; [by eexists|]. by destruct (first_match _ _ _ _ _ rules).
  - by destruct (first_match _ _ _ _ _ rules).
Qed.

(** A check passes or raises a SchedulerFaultError, and keeps the injector well formed. *)
Lemma check_raise_ok step_id i :
  injector_ok i →
  injector_ok (injector_check_raise names monotonic seconds step_id None ∅ i).2
  ∧ ∀ e, (injector_check_raise names monotonic seconds step_id None ∅ i).1 = Raise e → ∃ m, e = SchedulerFaultError m.
Proof.
  intros Hi. destruct (decide (fi_scheduler_rule_count i = 0%Z)) as [H0|Hn].
  { rewrite check_raise_idle by done. split; [done|]. by intros e [=]. }
  unfold injector_check_raise. rewrite bind_get, (proj2 (Z.eqb_neq _ _) Hn). cbn zeta. rewrite bind_unit by done.
  cbn [modify snd]. match goal with |- context [bind (intercept _ _ _ ?l ?s ?m ?c) _ ?j] =>
    destruct (intercept_run names monotonic seconds l s m c j) as (t & clk & _ & E) end.
  cbn zeta in E. match type of E with context [first_match _ ?l ?s ?m ?c ?rs] =>
    pose proof (first_match_same names l s m c rs) as Hsame;
    destruct (first_match_no_error l s m c rs) as [a Ha]; [|exact Hi|]; [by split; eexists|rewrite Ha in E]
  end.
  rewrite (bind_ok _ _ _ _ _ E).
  assert (∀ l, Forall2 same_rule (fi_rules i) l → Forall (λ r, trigger_ok (fr_trigger r)) l) as Hok.
  { intros l HF. apply Forall_forall. intros r' [j Hj]%list_elem_of_lookup.
    destruct (Forall2_lookup_r _ _ _ _ _ HF Hj) as (r & Hr & (_ & _ & _ & _ & -> & _)).
    unfold injector_ok in Hi. rewrite Forall_forall in Hi. apply Hi. by eapply list_elem_of_lookup_2. }
  destruct a as [a|]; (split; [by apply Hok|]); [intros e [= <-]; eauto|done].
Qed.

(** The injector as the scheduler's: only well-formed ones, so that no other exception gets out. *)
Definition OkInjector : Type := { i : FaultInjector | injector_ok i }.
Definition env_check_raise (step_id : string) (x : OkInjector) : option string * OkInjector :=
  let r := injector_check_raise names monotonic seconds step_id None ∅ (proj1_sig x) in
  (match r.1 with Raise (SchedulerFaultError m) => Some m | _ => None end,
   exist injector_ok r.2 (proj1 (check_raise_ok step_id _ (proj2_sig x)))).

Definition faulty_env : SchedulerEnv := {|
  simple_eval := @simple_eval base;
  simple_eval_names := @simple_eval_names base;
  json_dump := @json_dump base;
  json_load := @json_load base;
  temp_name := @temp_name base;
  SkipConditions := @SkipConditions base;
  AdaptiveEvaluator := @AdaptiveEvaluator base;
  should_skip := @should_skip base;
  skip_reason_of := @skip_reason_of base;
  Scheduler.FaultInjector := OkInjector;
  check_scheduler_raise := env_check_raise
|}.
End environment.

(** ** An example *)

#[local] Existing Instance whole_floats.
#[local] Instance toy_random : PyRandom := {|
  Rng := unit; seeded _ := (); random _ := (0%Z, ())
|}.

Definition third_time (once : bool) : Config :=
  [(PyStr "id", PyStr "F1"); (PyStr "layer", PyStr "scheduler"); (PyStr "target", PyStr "a");
   (PyStr "trigger", PyMap [(PyStr "type", PyStr "count"); (PyStr "value", PyInt 3)]);
   (PyStr "action", PyMap [(PyStr "type", PyStr "scheduler_error")]); (PyStr "once", PyBool once)].
Definition example_injector (once : bool) : FaultInjector (Clock := Z) :=
  (load_rules [third_time once] (new_injector (λ t, (t, t + 1)%Z) 0%Z)).2.

Example example_dispatches :
  is_ok <$> (dispatches (λ _ _, None) (λ t, (t, t + 1)%Z) PyInt ["a"; "b"; "a"; "a"; "a"; "b"] (example_injector true)).1
  = [true; true; true; false; true; true].
Proof. vm_compute. reflexivity. Qed.

Lemma count_rule_fires_witness :
  (injector_check_raise (λ _ _, None) (λ t, (t, t + 1)%Z) PyInt "a" None ∅
    (dispatches (λ _ _, None) (λ t, (t, t + 1)%Z) PyInt ["a"; "b"; "a"] (example_injector true)).2).1
  = Raise (SchedulerFaultError (scheduler_fault_message "F1" "a" None)).
Proof.
  exact (count_rule_fires (λ _ _, None) (λ t, (t, t + 1)%Z) PyInt "a" 3 [] []
    (mkRule "F1" "scheduler" "a" "*" [(PyStr "type", PyStr "count"); (PyStr "value", PyInt 3)]
       [(PyStr "type", PyStr "scheduler_error")] true 0 tt)
    (example_injector true) ["a"; "b"; "a"] ltac:(discriminate) ltac:(by split) eq_refl eq_refl
    ltac:(intros x Hx; by apply elem_of_nil in Hx) ltac:(discriminate) eq_refl).
Defined.
