(* ===== verification/Recovery.v ===== *)
(** * Crash recovery (scheduler/scanner_scheduler.py, state_snapshot.py)

    What [maybe_resume] makes of a snapshot, the round trip from [maybe_snapshot] in
    one process to [scheduler_start] in the next, and the snapshot that makes the
    start fail. *)

From S2P Require Import Prelude PyDict PyStr Types VariableSpace EventBus ResourceManager ConditionEvaluator StepRegistry EdgeBreakpoints UutSync StateSnapshot Scheduler Dispatch System.

Section recovery.
Context {E : SchedulerEnv}.

(** The recorded states that are strings, with the status each is restored to. *)
Definition recorded (l : list (pyval * pyval)) : list (string * StepStatus) :=
  omap (λ kv, match kv.2 with PyStr raw => Some (py_str kv.1, resume_target raw) | _ => None end) l.

Definition restore_steps (steps : pydict string StepStatus) (l : list (string * StepStatus)) :
    pydict string StepStatus := foldl (λ d kv, <[kv.1 := kv.2]> d) steps l.

(** What the restoration of statuses leaves alone. *)
Definition same_rest (w w' : World) : Prop :=
  w_disp w' = w_disp w ∧ w_plan w' = w_plan w ∧ w_tasks w' = w_tasks w
  ∧ w_life w' = w_life w ∧ w_vs w' = w_vs w ∧ eb_subscribers (w_bus w') = eb_subscribers (w_bus w)
  ∧ w_snapshot w' = w_snapshot w.

Lemma reg_update_rest s st w : same_rest w (reg_update s st w).2.
Proof.
  unfold reg_update, zoom, update_status. destruct (sr_steps (w_reg w) !! s); cbn.
  - split_and!; try done. unfold notify. case_match; [|done]. cbn. unfold bus_publish_sync.
    by repeat case_match.
  - by destruct w.
Qed.

Lemma restore_all l : ∀ w,
  let '(r, w') := for_each l restore_one w in
  same_rest w w' ∧
  if decide (Forall (λ kv, kv.1 ∈ keys (sr_steps (w_reg w))) (recorded l))
  then r = Ok tt ∧ sr_steps (w_reg w') = restore_steps (sr_steps (w_reg w)) (recorded l)
  else ∃ m, r = Raise (KeyError m).
Proof.
  induction l as [|[k v] l IH]; intros w; [by cbn|]. cbn [for_each].
  assert ((∃ raw, v = PyStr raw) ∨ ∀ raw, v ≠ PyStr raw) as [[raw ->]|Hv]
    by (destruct v; eauto).
  - change (recorded ((k, PyStr raw) :: l)) with ((py_str k, resume_target raw) :: recorded l).
    change (restore_one (k, PyStr raw)) with (reg_update (py_str k) (resume_target raw)).
    pose proof (reg_update_rest (py_str k) (resume_target raw) w) as Hrest.
    destruct (status_of w (py_str k)) as [old|] eqn:Eo.
    + destruct (reg_update_inv (py_str k) (resume_target raw) w old Eo) as (w1 & Hu & Hs & _).
      rewrite (bind_ok _ _ _ _ _ Hu). rewrite Hu in Hrest. cbn in Hrest.
      assert (keys (sr_steps (w_reg w1)) = keys (sr_steps (w_reg w))) as Hk.
      { rewrite Hs. apply keys_insert_Some. by exists old. }
      specialize (IH w1). rewrite Hk, Hs in IH.
      destruct (for_each l restore_one w1) as [r w']. destruct IH as [Hr IH].
      split; [unfold same_rest in *; naive_solver congruence|].
      assert (py_str k ∈ keys (sr_steps (w_reg w))) as Hin by (apply elem_of_keys; by exists old).
      destruct (decide (Forall _ (_ :: recorded l))) as [[_ Hall]%Forall_cons|Hall].
      * by rewrite decide_True in IH.
      * rewrite decide_False in IH; [done|]. intros ?. apply Hall. by constructor.
    + assert (reg_update (py_str k) (resume_target raw) w = (Raise (not_registered (py_str k)), w)) as Hu.
      { unfold reg_update, zoom, update_status. unfold status_of in Eo. rewrite Eo. by destruct w. }
      rewrite (bind_raise _ _ _ _ _ Hu). split; [done|].
      rewrite decide_False; [by eexists|]. intros [Hin _]%Forall_cons. cbn in Hin.
      apply elem_of_keys in Hin as [? Hin]. unfold status_of in Eo. congruence.
  - assert (restore_one (k, v) = ret tt) as ->.
    { destruct v; try done. exfalso. by eapply Hv. }
    assert (recorded ((k, v) :: l) = recorded l) as ->.
    { destruct v; try done. exfalso. by eapply Hv. }
    apply IH.
Qed.

(** The state after a successful restoration. *)
Definition resumed (snapshot : pyval) (l : list (pyval * pyval)) (w w' : World) : Prop :=
  sr_steps (w_reg w') = restore_steps (sr_steps (w_reg w)) (recorded l)
  ∧ w_vs w' = match state_get "variables" snapshot with
              | PyMap v => vs_restore (PyMap v) (w_vs w) | _ => w_vs w end
  ∧ resumed_from_snapshot (w_life w') = true
  ∧ w_disp w' = w_disp w ∧ w_plan w' = w_plan w ∧ w_tasks w' = w_tasks w.

Lemma resume_spec disk snapshot l w :
  w_snapshot w = Some disk → can_resume json_load disk = true →
  load json_load disk = Some snapshot → state_get "step_states" snapshot = PyMap l →
  let '(r, w') := maybe_resume w in
  w_snapshot w' = w_snapshot w ∧
  if decide (Forall (λ kv, kv.1 ∈ keys (sr_steps (w_reg w))) (recorded l))
    then r = Ok tt ∧ resumed snapshot l w w' ∧ running (w_life w') = running (w_life w)
    else (∃ m, r = Raise (KeyError m)) ∧ w_life w' = w_life w
  ∧ eb_subscribers (w_bus w') = eb_subscribers (w_bus w).
Proof.
  intros Hd Hc Hl Hs. unfold maybe_resume. rewrite bind_get, Hd, Hc, Hl, Hs. cbn [negb].
  pose proof (restore_all l w) as H. unfold bind at 1.
  destruct (for_each l restore_one w) as [r w1]. destruct H as ((H1 & H2 & H3 & H4 & H5 & H6 & H7) & H).
  destruct (decide _) as [Hall|Hall].
  - destruct H as [-> Hst]. unfold resumed.
    destruct (state_get "variables" snapshot); cbn; rewrite ?H5, ?H4, ?H7; by split_and!.
  - destruct H as [m ->]. split_and!; [by rewrite H7|by eexists|done|done].
Qed.

Lemma restore_other l : ∀ steps s, s ∉ l.*1 → restore_steps steps l !! s = steps !! s.
Proof.
  unfold restore_steps. induction l as [|[k st] l IH]; intros steps s Hs; [done|].
  cbn [foldl fst snd]. csimpl in Hs. rewrite IH by set_solver.
  rewrite dict_lookup_insert_ne; [done|]. intros ->. apply Hs. by left.
Qed.

Lemma restore_lookup l : ∀ steps s st,
  NoDup l.*1 → (s, st) ∈ l → restore_steps steps l !! s = Some st.
Proof.
  induction l as [|[k st'] l IH]; intros steps s st Hnd Hin; [by apply elem_of_nil in Hin|].
  csimpl in Hnd. apply NoDup_cons in Hnd as [Hk Hnd].
  change (restore_steps steps ((k, st') :: l)) with (restore_steps (<[k := st']> steps) l).
  apply elem_of_cons in Hin as [[= -> ->]|Hin]; [|by apply IH].
  rewrite restore_other by done. by rewrite dict_lookup_insert_eq.
Qed.

(** Finished steps keep their status, the others are run again. *)
Definition after_crash (st : StepStatus) : StepStatus := if is_terminal st then st else PENDING.

Lemma resume_target_value st : resume_target (status_value st) = after_crash st.
Proof. unfold resume_target. by rewrite status_of_value. Qed.

Lemma recorded_state (d : pydict string StepStatus) :
  recorded ((λ kv : string * StepStatus, (PyStr kv.1, PyStr (status_value kv.2))) <$> items d)
  = (λ kv, (kv.1, after_crash kv.2)) <$> items d.
Proof.
  unfold recorded. induction (items d) as [|[k st] l IH]; [done|]. csimpl.
  by rewrite IH, resume_target_value.
Qed.
End recovery.

(** ** Properties *)

Lemma start_resumes {E : SchedulerEnv} (w : World) (disk : Disk) (snapshot : pyval)
    (l : list (pyval * pyval)) (Hstopped : running (w_life w) = false)
    (Hdisk : w_snapshot w = Some disk) (Hcan : can_resume json_load disk = true)
    (Hload : load json_load disk = Some snapshot)
    (Hsteps : state_get "step_states" snapshot = PyMap l) :
  let '(r, w') := scheduler_start w in
  w_snapshot w' = w_snapshot w ∧
  if decide (Forall (λ kv, kv.1 ∈ keys (sr_steps (w_reg w))) (recorded l))
  then r = Ok tt ∧ resumed snapshot l w w' ∧ running (w_life w') = true
       ∧ loop_at (w_life w') = LoopTop
  else (∃ m, r = Raise (KeyError m)) ∧ running (w_life w') = true
       ∧ loop_at (w_life w') = loop_at (w_life w)
       ∧ eb_subscribers (w_bus w') = eb_subscribers (w_bus w)
       ∧ scheduler_start w' = (Ok tt, w').
Proof.
  unfold scheduler_start. rewrite bind_get, Hstopped, bind_unit by done.
  set (w1 := (modify _ w).2).
  pose proof (resume_spec disk snapshot l w1 Hdisk Hcan Hload Hsteps) as H.
  change (sr_steps (w_reg w1)) with (sr_steps (w_reg w)) in H.
  unfold bind. destruct (maybe_resume w1) as [r w2].
  destruct H as [Hsnap H]. destruct (decide _) as [Hall|Hall].
  - destruct H as (-> & (H1 & H2 & H3 & H4 & H5 & H6) & Hrun). cbn.
    unfold resumed. cbn. by split_and!.
  - destruct H as [[m ->] [Hlife Hsub]]. cbn.
    assert (running (w_life w2) = true) as Hrun by by rewrite Hlife.
    rewrite Hrun, Hlife, Hsub. split_and!; try done. by eexists.
Qed.

(** Resuming from a snapshot: if every step recorded in it is registered, start-up
    restores each recorded terminal status, resets the other recorded steps to PENDING,
    leaves unrecorded steps alone, restores the variables and flags the resumption;
    otherwise the KeyError of the first unknown step escapes, the scheduler is left
    marked as running with no handler subscribed, and a second [start] does nothing. *)
Theorem resume_contract {E : SchedulerEnv} (w : World) (disk : Disk) (snapshot : pyval)
    (l : list (pyval * pyval)) (Hstopped : running (w_life w) = false)
    (Hdisk : w_snapshot w = Some disk) (Hcan : can_resume json_load disk = true)
    (Hload : load json_load disk = Some snapshot)
    (Hsteps : state_get "step_states" snapshot = PyMap l) :
  let '(r, w') := scheduler_start w in
  if decide (Forall (λ kv, kv.1 ∈ keys (sr_steps (w_reg w))) (recorded l))
  then r = Ok tt ∧ resumed snapshot l w w' ∧ running (w_life w') = true
       ∧ loop_at (w_life w') = LoopTop
  else (∃ m, r = Raise (KeyError m)) ∧ running (w_life w') = true
       ∧ loop_at (w_life w') = loop_at (w_life w)
       ∧ eb_subscribers (w_bus w') = eb_subscribers (w_bus w)
       ∧ scheduler_start w' = (Ok tt, w').
Proof.
  pose proof (start_resumes w disk snapshot l Hstopped Hdisk Hcan Hload Hsteps) as H.
  destruct (scheduler_start w) as [r w']. by destruct H as [_ H].
Qed.

(** C20. The crash round trip: if the codec reads back the state it wrote, a scheduler
    started over the directory in which an earlier one saved its state, with the same
    steps registered, begins with the earlier terminal statuses, everything else
    PENDING, and the earlier variables restored into its variable space. *)
Theorem crash_roundtrip {E : SchedulerEnv} (w w2 : World) (disk : Disk) (text : string)
    (Hdisk : w_snapshot w = Some disk) (Hok : os_replace_ok (w_os w) = true)
    (Hdump : json_dump (get_state w) = Some text)
    (Hcodec : json_load text = Some (get_state w))
    (Hsome : sr_steps (w_reg w) ≠ ∅) (Hwf : dict_wf (sr_steps (w_reg w)))
    (Hkeys : keys (sr_steps (w_reg w2)) = keys (sr_steps (w_reg w)))
    (Hw2 : w_snapshot w2 = w_snapshot (maybe_snapshot w).2)
    (Hstopped : running (w_life w2) = false) :
  let '(r, w') := scheduler_start w2 in
  r = Ok tt
  ∧ (∀ s, sr_steps (w_reg w') !! s = after_crash <$> sr_steps (w_reg w) !! s)
  ∧ w_vs w' = vs_restore (vs_snapshot (w_vs w)) (w_vs w2).
Proof.
  unfold scheduler_start. rewrite bind_get, Hstopped, bind_unit by done.
  set (w1 := (modify _ w2).2).
  set (l := (λ kv : string * StepStatus, (PyStr kv.1, PyStr (status_value kv.2)))
              <$> items (sr_steps (w_reg w))).
  set (disk' := (save json_dump (temp_name disk) true (get_state w) disk).2).
  assert (w_snapshot w1 = Some disk') as H1.
  { change (w_snapshot w2 = Some disk'). rewrite Hw2. unfold maybe_snapshot.
    by rewrite bind_get, Hdisk, Hok. }
  assert (load json_load disk' = Some (get_state w)) as H2.
  { subst disk'. rewrite save_spec, Hdump. cbn [snd]. unfold load.
    rewrite lookup_insert_eq. cbn. by rewrite Hcodec. }
  assert (can_resume json_load disk' = true) as H3.
  { unfold can_resume. rewrite H2. cbn. destruct (sr_steps (w_reg w)) as [[|kv its]]; done. }
  pose proof (resume_spec disk' (get_state w) l w1 H1 H3 H2 eq_refl) as H.
  assert (recorded l = (λ kv, (kv.1, after_crash kv.2)) <$> items (sr_steps (w_reg w))) as Hrec
    by apply recorded_state.
  unfold bind. destruct (maybe_resume w1) as [r w3]. destruct H as [_ H].
  rewrite decide_True in H.
  2: { rewrite Hrec. apply Forall_fmap, Forall_forall. intros kv Hin. cbn.
       change (sr_steps (w_reg w1)) with (sr_steps (w_reg w2)). rewrite Hkeys.
       apply list_elem_of_fmap. by exists kv. }
  destruct H as (-> & (Hst & Hvs & _) & _). cbn. split_and!; [done| |exact Hvs].
  assert ((recorded l).*1 = keys (sr_steps (w_reg w))) as Hk.
  { rewrite Hrec, <-list_fmap_compose. done. }
  intros s. rewrite Hst. destruct (sr_steps (w_reg w) !! s) as [st|] eqn:Es.
  - apply restore_lookup; [by rewrite Hk|]. rewrite Hrec. apply list_elem_of_fmap.
    exists (s, st). split; [done|]. by apply elem_of_items.
  - rewrite restore_other by (rewrite Hk; by apply not_elem_of_keys).
    change (sr_steps (w_reg w1)) with (sr_steps (w_reg w2)).
    apply not_elem_of_keys. rewrite Hkeys. by apply not_elem_of_keys.
Qed.

(** ** Witnesses *)

(** The state of a scheduler whose step "a" has passed and "b" was running. *)
Definition crashed_state : pyval :=
  PyMap [(PyStr "step_states",
          PyMap [(PyStr "a", PyStr "PASSED"); (PyStr "b", PyStr "RUNNING")]);
         (PyStr "variables", vs_snapshot (vs_init false));
         (PyStr "timestamp", PyFloat "1")].

(** A codec for that state. *)
Definition codec_env : SchedulerEnv := {|
  simple_eval _ _ := None;
  simple_eval_names _ _ := None;
  json_dump _ := Some "state";
  json_load text := if decide (text = "state") then Some crashed_state else None;
  temp_name _ := ".snapshot-1.tmp";
  SkipConditions := unit;
  AdaptiveEvaluator := unit;
  should_skip _ _ _ _ := Ok false;
  skip_reason_of _ _ _ _ := Ok None;
  FaultInjector := unit;
  check_scheduler_raise _ i := (None, i)
|}.
#[local] Existing Instance codec_env.

Definition two_registered : StepRegistry := (register "b" None None
  (register "a" None None (reg_init false)).2).2.
Definition before_crash : World :=
  new_scheduler (set_status_dict (PyDict [("a", PASSED); ("b", RUNNING)]) two_registered)
    (vs_init false) (rm_init false) None None None None (Some ∅) bus_init plain_os.
Definition next_run : World :=
  new_scheduler two_registered (vs_init false) (rm_init false) None None None None
    (w_snapshot (maybe_snapshot before_crash).2) bus_init plain_os.

Lemma crash_roundtrip_witness :
  (scheduler_start next_run).1 = Ok tt
  ∧ sr_steps (w_reg (scheduler_start next_run).2) !! "a" = Some PASSED
  ∧ sr_steps (w_reg (scheduler_start next_run).2) !! "b" = Some PENDING.
Proof.
  assert (dict_wf (sr_steps (w_reg before_crash))) as Hwf.
  { apply NoDup_cons. split; [|apply NoDup_singleton].
    intros H%list_elem_of_singleton. discriminate H. }
  pose proof (crash_roundtrip before_crash next_run ∅ "state" eq_refl eq_refl eq_refl eq_refl
    ltac:(discriminate) Hwf eq_refl eq_refl eq_refl) as H.
  destruct (scheduler_start next_run) as [r w']. destruct H as (Hr & Hs & _).
  split_and!; [exact Hr|exact (Hs "a")|exact (Hs "b")].
Defined.

(** The same snapshot over a plan that no longer has step "b": the start fails. *)
Definition shrunk_run : World :=
  new_scheduler (register "a" None None (reg_init false)).2 (vs_init false) (rm_init false)
    None None None None (w_snapshot (maybe_snapshot before_crash).2) bus_init plain_os.

Lemma resume_contract_witness :
  (∃ m, (scheduler_start shrunk_run).1 = Raise (KeyError m))
  ∧ running (w_life (scheduler_start shrunk_run).2) = true.
Proof.
  pose proof (resume_contract shrunk_run
    (default ∅ (w_snapshot (maybe_snapshot before_crash).2)) crashed_state
    [(PyStr "a", PyStr "PASSED"); (PyStr "b", PyStr "RUNNING")]
    eq_refl eq_refl eq_refl eq_refl eq_refl) as H.
  destruct (scheduler_start shrunk_run) as [r w'].
  destruct (decide _) as [Hall|Hall].
  - exfalso. apply Forall_cons in Hall as [_ Hall]. apply Forall_cons in Hall as [Hb _].
    apply list_elem_of_singleton in Hb. discriminate Hb.
  - destruct H as (H1 & H2 & _). split; [exact H1|exact H2].
Defined.
