(* ===== verification/Worker.v ===== *)
(** * The worker that runs plans (class [JetStreamWorker] of scheduler/jetstream_worker.py)

    A worker pulls a task, boots a scheduler for its plan (WirePlans.v decodes it, Bootstrap.v
    boots it) and answers control messages about the execution it calls current. It does not
    wait for an execution to end before it pulls the next task, and an object it no longer
    refers to goes on: [wk_runs] holds the world of every scheduler it ever booted, and the
    worker's fields are positions in that list. All the schedulers of a worker save to the same
    snapshot directory, [wk_disk]. NATS, the clock and the process's environment are parameters;
    the worker's registration and heartbeat in the key-value store are not modelled. *)

From S2P Require Import Prelude PyDict PyStr Types VariableSpace EventBus ResourceManager ConditionEvaluator StepRegistry EdgeBreakpoints UutSync StateSnapshot Scheduler Dispatch Dsl Parser PlanFiles WirePlans System Bootstrap Recovery.

Section worker.
Context {E : SchedulerEnv}.
Context (ast_nodes : string → option (list string)) (fresh_injector : FaultInjector) (os : Os).
(** [injector.load([rule])]: the id and layer of the new rule (FaultInjector.v). *)
Context (load_rule : ydict → FaultInjector → res (string * string) * FaultInjector).

Record Worker : Type := mkWk {
  wk_runs : list World;
  wk_disk : option Disk;
  wk_scheduler : option nat;
  wk_event_bus : option nat;
  wk_injector : option nat;
  wk_execution_id : option string;
  wk_pending : option pyval;      (* the pending breakpoint definitions *)
  wk_running : bool
}.

Definition set_execution (x : option string) (k : Worker) : Worker :=
  mkWk (wk_runs k) (wk_disk k) (wk_scheduler k) (wk_event_bus k) (wk_injector k) x (wk_pending k)
    (wk_running k).
Definition set_pending (x : option pyval) (k : Worker) : Worker :=
  mkWk (wk_runs k) (wk_disk k) (wk_scheduler k) (wk_event_bus k) (wk_injector k)
    (wk_execution_id k) x (wk_running k).
Definition set_current (s b i : option nat) (k : Worker) : Worker :=
  mkWk (wk_runs k) (wk_disk k) s b i (wk_execution_id k) (wk_pending k) (wk_running k).
Definition set_worker_running (x : bool) (k : Worker) : Worker :=
  mkWk (wk_runs k) (wk_disk k) (wk_scheduler k) (wk_event_bus k) (wk_injector k)
    (wk_execution_id k) (wk_pending k) x.
Definition set_runs (runs : list World) (d : option Disk) (k : Worker) : Worker :=
  mkWk runs d (wk_scheduler k) (wk_event_bus k) (wk_injector k) (wk_execution_id k) (wk_pending k)
    (wk_running k).

(** A run as it stands, over the files as they are now. *)
Definition run_at (k : Worker) (i : nat) : option World := set_snapshot (wk_disk k) <$> wk_runs k !! i.

(** A computation on one of the schedulers. *)
Definition on_run {A} (i : nat) (m : M World A) : M Worker A := λ k,
  match run_at k i with
  | Some w => let '(r, w') := m w in (r, set_runs (<[i := w']> (wk_runs k)) (w_snapshot w') k)
  | None => (Raise (OtherError "no such run"), k)
  end.

(** ** Replies *)

Definition reply : Type := list (string * pyval).

Definition error_reply (error : string) (more : reply) : reply :=
  [("status", PyStr "error"); ("error", PyStr error)] ++ more.
Definition ok_reply (action : string) (more : reply) : reply :=
  [("status", PyStr "ok"); ("action", PyStr action)] ++ more.
Definition no_active_execution (run_id : string) : reply :=
  error_reply "no_active_execution" [("run_id", PyStr run_id)].

(** [self._current_execution_id != run_id or self._current_scheduler is None], negated: the
    scheduler to talk to. *)
Definition current (run_id : string) (k : Worker) : option nat :=
  if decide (wk_execution_id k = Some run_id) then wk_scheduler k else None.

(** [str(e)] of the exceptions a handler answers. *)
Definition rule_error (e : exc) : option string :=
  match e with
  | ValueError m | TypeError m => Some m
  | KeyError k => Some (repr_str k)
  | _ => None
  end.

(** [injector.load(...)] on the injector the worker refers to. *)
Definition load_into (j : nat) (rule : ydict) : M Worker (string * string) :=
  on_run j (λ w,
    match w_injector w with
    | Some injector =>
        let '(r, injector') := load_rule rule injector in (r, set_injector (Some injector') w)
    | None => (Raise (OtherError "no injector"), w)
    end).

(** ** Control messages *)

Definition handle_inject_fault (run_id : string) (payload : ydict) : M Worker reply :=
  k <- get ;;
  match current run_id k with
  | None => ret (no_active_execution run_id)
  | Some _ =>
      match wk_injector k with
      | None => ret (error_reply "no_fault_injector" [("run_id", PyStr run_id)])
      | Some j =>
          match dget payload "rule" PyNone with
          | PyMap rule =>
              if py_bool (py_or (dget rule "fault_id" PyNone) (dget rule "id" PyNone)) then
                try_except
                  (loaded <- load_into j rule ;;
                   ret (ok_reply "inject_fault"
                     [("fault_id", PyStr loaded.1); ("layer", PyStr loaded.2)]))
                  (λ e, (λ m, ret (error_reply "invalid_rule" [("detail", PyStr m)])) <$> rule_error e)
              else ret (error_reply "malformed_rule"
                     [("detail", PyStr "'rule' object with fault_id/id is required")])
          | _ => ret (error_reply "malformed_rule"
                   [("detail", PyStr "'rule' object with fault_id/id is required")])
          end
      end
  end.

(** What a step mode may not be given. *)
Definition bad_target (w : World) (mode : string) (target : pyval) (run_id : string) : option reply :=
  if decide (mode = "run_to_cursor") then
    match nonempty (as_str target) with
    | None => Some (error_reply "malformed_target"
        [("detail", PyStr "run_to_cursor requires a non-empty target_step_id")])
    | Some t =>
        if has_step (w_reg w) t then None
        else Some (error_reply "unknown_target"
          [("detail", PyStr ("target step " +:+ repr_str t +:+ " is not part of this plan"));
           ("run_id", PyStr run_id)])
    end
  else None.

(** A target that is not a string is stored by the other modes, which do not read it. *)
Definition handle_step_control (run_id : string) (payload : ydict) : M Worker reply :=
  k <- get ;;
  match current run_id k ≫= (λ i, (λ w, (i, w)) <$> run_at k i) with
  | None => ret (no_active_execution run_id)
  | Some (i, w) =>
      let mode := dget payload "mode" PyNone in
      let target := dget payload "target_step_id" PyNone in
      match as_str mode with
      | Some m =>
          if str_in m STEP_MODES then
            match bad_target w m target run_id with
            | Some r => ret r
            | None =>
                try_except
                  (on_run i (arm_step_mode m (as_str target)) ;;;
                   ret (ok_reply "step_control"
                     [("mode", mode);
                      ("target_step_id", if decide (m = "run_to_cursor") then target else PyNone)]))
                  (λ e, match e with
                        | ValueError d => Some (ret (error_reply "invalid_mode" [("detail", PyStr d)]))
                        | _ => None
                        end)
            end
          else ret (error_reply "invalid_mode" [("detail",
                 PyStr ("mode must be one of over|into|out|run_to_cursor, got " +:+ py_repr mode))])
      | None => ret (error_reply "invalid_mode" [("detail",
                  PyStr ("mode must be one of over|into|out|run_to_cursor, got " +:+ py_repr mode))])
      end
  end.

Definition armed_reply (defs : pyval) (phase : string) : reply :=
  let '(bps, dropped) := parse_breakpoint_defs ast_nodes defs in
  ok_reply "sync_breakpoints"
    [("armed", PyInt (Z.of_nat (length bps))); ("dropped", PyInt (Z.of_nat dropped)); ("phase", PyStr phase)].

Definition replace_breakpoints (defs : pyval) (w : World) : World :=
  let engine := default (new_engine []) (w_bps w) in
  set_bps (Some (engine_replace (parse_breakpoint_defs ast_nodes defs).1 engine)) w.

Definition handle_sync_breakpoints (run_id : string) (payload : ydict) : M Worker reply :=
  k <- get ;;
  let defs := dget payload "breakpoints" PyNone in
  match wk_scheduler k with
  | None =>
      modify (set_pending (Some (PyList (match defs with PyList l => l | _ => [] end)))) ;;;
      ret (armed_reply defs "pending")
  | Some i =>
      if decide (wk_execution_id k = Some run_id) then
        on_run i (modify (replace_breakpoints defs)) ;;;
        ret (armed_reply defs "active")
      else ret (no_active_execution run_id)
  end.

(** The PENDING steps of an aborted run become ERROR. *)
Definition abort_pending : M World unit :=
  w <- get ;;
  for_each (items (get_all_steps (w_reg w))) (λ '(step_id, status),
    if decide (status = PENDING) then
      try_except (reg_update step_id ERROR)
        (λ e, match e with KeyError _ => Some (ret tt) | _ => None end)
    else ret tt).

Definition abort_current : M Worker unit :=
  k <- get ;;
  match wk_scheduler k with
  | None => ret tt
  | Some i =>
      on_run i (abort_pending ;;; modify scheduler_stop) ;;;
      modify (λ k, set_execution None (set_current None (wk_event_bus k) None k))
  end.

Definition on_current (m : M World unit) : M Worker unit :=
  k <- get ;;
  match wk_scheduler k with None => ret tt | Some i => on_run i m end.

(** The actions that are not answered. *)
Definition silent_action (action : pyval) : M Worker unit :=
  if is_str action "abort" then abort_current
  else if is_str action "pause" then on_current pause
  else if is_str action "resume" then on_current resume
  else if is_str action "force_next" then on_current force_next
  else ret tt.

(** [_on_control_message]: what it replies, if anything. A payload that cannot be decoded is
    taken for an empty one. *)
Definition on_control_message (run_id : string) (payload : option pyval) : M Worker (option reply) :=
  d <- lift (as_dict (default (PyMap []) payload)) ;;
  let action := dget d "action" (PyStr "abort") in
  if is_str action "inject_fault" then r <- handle_inject_fault run_id d ;; ret (Some r)
  else if is_str action "step_control" then r <- handle_step_control run_id d ;; ret (Some r)
  else if is_str action "sync_breakpoints" then r <- handle_sync_breakpoints run_id d ;; ret (Some r)
  else
    k <- get ;;
    (if decide (wk_execution_id k = Some run_id) then silent_action action else ret tt) ;;;
    ret None.

(** ** Tasks *)

Record TaskMessage : Type := mkTask {
  tm_execution : string;        (* "" without a header *)
  tm_data : option pyval;       (* the JSON value, if it is one *)
  tm_ack : bool                 (* whether JetStream takes the acknowledgement *)
}.

(** The plan of a task. No result: an entry has a type its dataclass does not declare, which
    Python does not look at (see [typed_plan]). *)
Definition task_plan (data : option pyval) : option (res YamlPlan) :=
  match data with
  | None => Some (Raise (CustomError "JSONDecodeError" ""))
  | Some v =>
      match dict_to_yaml_plan v with
      | Raise e => Some (Raise e)
      | Ok p => Ok <$> typed_plan p
      end
  end.

(** The definitions the task carries, or those sent before it. *)
Definition task_breakpoints (data : option pyval) (k : Worker) : pyval :=
  match data with
  | Some (PyMap d) =>
      match dget d "breakpoints" PyNone with
      | PyList l => PyList l
      | _ => default PyNone (wk_pending k)
      end
  | _ => default PyNone (wk_pending k)
  end.

(** [PlanBootstrapper(...).bootstrap(...)]: the position of the new scheduler. *)
Definition boot_plan (plan : YamlPlan) (defs : pyval) : M Worker nat := λ k,
  let '(r, w) := bootstrap plan (new_bootstrapper ast_nodes defs fresh_injector (wk_disk k) os) in
  match r with
  | Ok _ => (Ok (length (wk_runs k)), set_runs (wk_runs k ++ [w]) (wk_disk k) k)
  | Raise e => (Raise e, k)
  end.

Definition FORWARDER : string := "worker.forwarder".
Definition FORWARDED_EVENT_TYPES : list EventType :=
  [STEP_STARTED; STEP_COMPLETED; STEP_FAILED; STEP_SKIPPED; STEP_STATUS_CHANGED; BREAKPOINT_HIT].

(** [_setup_status_forwarding] *)
Definition setup_status_forwarding (w : World) : World :=
  set_bus (foldl (λ b t, subscribe (Some t) FORWARDER b) (w_bus w) FORWARDED_EVENT_TYPES) w.

(** From the bootstrapped scheduler to the acknowledgement. *)
Definition start_run (i : nat) (msg : TaskMessage) : M Worker unit :=
  on_run i (modify setup_status_forwarding) ;;;
  on_run i (modify (λ w, set_bus (bus_start (w_bus w)) w)) ;;;
  on_run i scheduler_start ;;;
  if tm_ack msg then ret tt else raise (CustomError "NatsError" "ack").

Definition process_task (msg : TaskMessage) (plan : res YamlPlan) : M Worker unit :=
  plan <- lift plan ;;
  k <- get ;;
  let defs := task_breakpoints (tm_data msg) k in
  modify (set_pending None) ;;;
  i <- boot_plan plan defs ;;
  modify (set_current (Some i) (Some i) (Some i)) ;;;
  start_run i msg.

(** [pull_and_process_one], once it has a message. True: acknowledged; false: given back. *)
Definition pull_and_process_one (msg : TaskMessage) (plan : res YamlPlan) : M Worker bool :=
  modify (set_execution (Some (tm_execution msg))) ;;;
  try_except (process_task msg plan ;;; ret true)
    (λ _, Some (
      modify (λ k, set_execution None (set_current None (wk_event_bus k) None k)) ;;;
      ret false)).

(** [stop] *)
Definition worker_stop : M Worker unit :=
  modify (set_worker_running false) ;;;
  on_current (modify scheduler_stop) ;;;
  modify (λ k, set_current None (wk_event_bus k) None k) ;;;
  k <- get ;;
  match wk_event_bus k with
  | None => ret tt
  | Some i =>
      on_run i (modify (λ w, set_bus (bus_stop (w_bus w)) w)) ;;;
      modify (set_current None None None)
  end.

(** A step of the worker: a message or the end, in any order. *)
Inductive worker_op : Type :=
  | OpPull (msg : TaskMessage) (plan : res YamlPlan)
  | OpControl (run_id : string) (payload : option pyval)
  | OpStop.

Definition worker_exec (o : worker_op) (k : Worker) : Worker :=
  match o with
  | OpPull msg plan => (pull_and_process_one msg plan k).2
  | OpControl run_id payload => (on_control_message run_id payload k).2
  | OpStop => (worker_stop k).2
  end.
Definition worker_run (ops : list worker_op) (k : Worker) : Worker :=
  foldl (λ k o, worker_exec o k) k ops.

(** ** What a pull leaves alone *)

Section pull.
Context (i : nat) (w : World) (J : Worker → Prop).
Hypothesis Jrun : ∀ A j (m : M World A), j ≠ i → preserves J (on_run j m).
Hypothesis Jin : ∀ k, J k → wk_runs k !! i = Some w.
Hypothesis Jadd : ∀ k v, J k → J (set_runs (wk_runs k ++ [v]) (wk_disk k) k).
Hypothesis Jpending : ∀ k x, J k → J (set_pending x k).
Hypothesis Jcurrent : ∀ k j, J k → j ≠ i → J (set_current (Some j) (Some j) (Some j) k).
Hypothesis Jexecution : ∀ k x, J k → J (set_execution x k).
Hypothesis Jclear : ∀ k, J k → J (set_current None (wk_event_bus k) None k).

Lemma start_run_keeps j msg : j ≠ i → preserves J (start_run j msg).
Proof.
  intros Hj. repeat (apply preserves_bind; [by apply Jrun|intros _]).
  apply preserves_if; [apply preserves_ret|apply preserves_raise].
Qed.

Lemma process_keeps msg plan : preserves J (process_task msg plan).
Proof.
  unfold process_task. apply preserves_bind; [destruct plan; [apply preserves_ret|apply preserves_raise]|].
  intros p. apply preserves_bind; [apply preserves_get|]. intros k0.
  apply preserves_bind; [by apply preserves_modify; auto|]. intros _ k Hk.
  unfold bind at 1. unfold boot_plan. destruct (bootstrap _ _) as [[[]|e] v]; [|done].
  apply Jin in Hk as Hi. apply lookup_lt_Some in Hi.
  refine (preserves_bind J _ _ (preserves_modify J _ _) (λ _, start_run_keeps _ _ _) _ (Jadd k v Hk)); [|lia].
  intros q Hq. apply Jcurrent; [done|lia].
Qed.

Lemma pull_keeps msg plan : preserves J (pull_and_process_one msg plan).
Proof.
  unfold pull_and_process_one. apply preserves_bind; [apply preserves_modify; auto|]. intros _.
  apply preserves_try_except.
  - apply preserves_bind; [apply process_keeps|]. intros _. apply preserves_ret.
  - intros e m [= <-]. apply preserves_bind; [apply preserves_modify; auto|].
    intros _. apply preserves_ret.
Qed.
End pull.

Lemma on_run_others {A} i w j (m : M World A) : j ≠ i → preserves (λ k, wk_runs k !! i = Some w) (on_run j m).
Proof.
  intros Hj k Hk. unfold on_run. destruct (run_at k j) as [v|]; [|done].
  destruct (m v) as [r v']. cbn. by rewrite list_lookup_insert_ne.
Qed.

Lemma pull_keeps_runs i w msg plan : preserves (λ k, wk_runs k !! i = Some w) (pull_and_process_one msg plan).
Proof.
  apply (pull_keeps i w); try done.
  - intros A j m Hj. by apply on_run_others.
  - intros k v Hk. apply lookup_lt_Some in Hk as Hlt. cbn. by rewrite lookup_app_l.
Qed.

(** ** Runs the worker has lost sight of *)

Definition refers (k : Worker) (i : nat) : Prop :=
  wk_scheduler k = Some i ∨ wk_event_bus k = Some i ∨ wk_injector k = Some i.

(** Run [i] is [w], and no field leads to it. *)
Definition orphan (i : nat) (w : World) (k : Worker) : Prop := wk_runs k !! i = Some w ∧ ¬ refers k i.

Section orphan.
Context (i : nat) (w : World).
Notation I := (orphan i w).

Lemma on_run_orphan {A} j (m : M World A) : j ≠ i → preserves I (on_run j m).
Proof.
  intros Hj k [Hk Hr]. unfold on_run. destruct (run_at k j) as [v|]; [|done].
  destruct (m v) as [r v']. split; [|done]. cbn. by rewrite list_lookup_insert_ne.
Qed.

Lemma pending_orphan x : preserves I (modify (set_pending x)).
Proof. apply preserves_modify. by intros k. Qed.

Lemma clear_orphan x : preserves I (modify (λ k, set_execution x (set_current None (wk_event_bus k) None k))).
Proof. apply preserves_modify. intros k [Hk Hr]. split; [done|]. unfold refers in *. naive_solver. Qed.

Lemma on_current_orphan (m : M World unit) : preserves I (on_current m).
Proof.
  intros k Hk. unfold on_current. rewrite bind_get. destruct (wk_scheduler k) as [j|] eqn:Ej; [|done].
  apply on_run_orphan; [|done]. intros ->. apply Hk. by left.
Qed.

Lemma inject_orphan run_id d : preserves I (handle_inject_fault run_id d).
Proof.
  intros k Hk. unfold handle_inject_fault. rewrite bind_get.
  destruct (current run_id k); [|done]. destruct (wk_injector k) as [j|] eqn:Ej; [|done].
  destruct (dget d "rule" PyNone); try done. destruct (py_bool _); [|done].
  assert (j ≠ i) as Hj by (intros ->; apply Hk; by right; right).
  apply (preserves_try_except I); [| |done].
  - apply preserves_bind; [by apply on_run_orphan|]. intros x. apply preserves_ret.
  - intros e m'. destruct (rule_error e); [|done]. intros [= <-]. apply preserves_ret.
Qed.

Lemma step_control_orphan run_id d : preserves I (handle_step_control run_id d).
Proof.
  intros k Hk. unfold handle_step_control. rewrite bind_get.
  destruct (current run_id k) as [j|] eqn:Ec; [|done]. cbn. destruct (run_at k j) as [v|]; [|done]. cbn.
  assert (j ≠ i) as Hj.
  { intros ->. apply Hk. left. unfold current in Ec. by case_decide. }
  destruct (as_str _) as [m|]; [|done]. destruct (str_in m STEP_MODES); [|done].
  destruct (bad_target _ _ _ _); [done|]. apply (preserves_try_except I); [| |done].
  - apply preserves_bind; [by apply on_run_orphan|]. intros x. apply preserves_ret.
  - intros e m'. destruct e; try done. intros [= <-]. apply preserves_ret.
Qed.

Lemma sync_orphan run_id d : preserves I (handle_sync_breakpoints run_id d).
Proof.
  intros k Hk. unfold handle_sync_breakpoints. rewrite bind_get.
  destruct (wk_scheduler k) as [j|] eqn:Ej.
  - case_decide; [|done]. apply (preserves_bind I); [|intros x; apply preserves_ret|done].
    apply on_run_orphan. intros ->. apply Hk. by left.
  - apply (preserves_bind I); [apply pending_orphan|intros x; apply preserves_ret|done].
Qed.

Lemma silent_orphan action : preserves I (silent_action action).
Proof.
  unfold silent_action. repeat case_match; try apply on_current_orphan; [|apply preserves_ret].
  intros k Hk. unfold abort_current. rewrite bind_get.
  destruct (wk_scheduler k) as [j|] eqn:Ej; [|done].
  apply (preserves_bind I); [|intros x; apply (clear_orphan None)|done].
  apply on_run_orphan. intros ->. apply Hk. by left.
Qed.

Lemma control_orphan run_id payload : preserves I (on_control_message run_id payload).
Proof.
  unfold on_control_message. apply preserves_bind.
  { destruct (as_dict _); [apply preserves_ret|apply preserves_raise]. }
  intros d. assert (∀ m : M Worker reply, preserves I m → preserves I (r <- m ;; ret (Some r))) as Hret.
  { intros m Hm. apply preserves_bind; [done|]. intros r. apply preserves_ret. }
  repeat case_match; auto using inject_orphan, step_control_orphan, sync_orphan.
  apply preserves_bind; [apply preserves_get|]. intros k.
  apply preserves_bind; [|intros x; apply preserves_ret].
  case_decide; [apply silent_orphan|apply preserves_ret].
Qed.

Lemma pull_orphan msg plan : preserves I (pull_and_process_one msg plan).
Proof.
  apply (pull_keeps i w).
  - intros A j m Hj. by apply on_run_orphan.
  - by intros k [? _].
  - intros k v [Hk Hr]. split; [|done]. apply lookup_lt_Some in Hk as Hlt. cbn. by rewrite lookup_app_l.
  - intros k x [Hk Hr]. by split.
  - intros k j [Hk Hr] Hj. split; [done|]. unfold refers. cbn. naive_solver.
  - intros k x [Hk Hr]. by split.
  - intros k [Hk Hr]. split; [done|]. unfold refers in *. naive_solver.
Qed.

Lemma stop_orphan : preserves I worker_stop.
Proof.
  unfold worker_stop. apply preserves_bind; [apply preserves_modify; by intros k|]. intros _.
  apply preserves_bind; [apply on_current_orphan|]. intros _.
  apply preserves_bind.
  { apply preserves_modify. intros k [Hk Hr]. split; [done|]. unfold refers in *. naive_solver. }
  intros _ k Hk. rewrite bind_get. destruct (wk_event_bus k) as [j|] eqn:Ej; [|done].
  refine (preserves_bind I _ _ (on_run_orphan j _ _) (λ _, _) k Hk).
  - intros ->. apply Hk. by right; left.
  - apply preserves_modify. intros k' [Hk' _]. split; [done|]. unfold refers. naive_solver.
Qed.

Lemma worker_run_orphan ops k : I k → I (worker_run ops k).
Proof.
  revert k. induction ops as [|o ops IH]; intros k Hk; [done|]. apply IH.
  destruct o; [by apply pull_orphan|by apply control_orphan|by apply stop_orphan].
Qed.
End orphan.
(** A successful pull leaves the worker with the new run only. *)
Lemma pull_takes_over msg plan k k' :
  pull_and_process_one msg plan k = (Ok true, k') →
  ∃ j, length (wk_runs k) = j ∧ wk_scheduler k' = Some j ∧ wk_event_bus k' = Some j
    ∧ wk_injector k' = Some j ∧ wk_execution_id k' = Some (tm_execution msg).
Proof.
  unfold pull_and_process_one. rewrite bind_unit by done. set (k1 := (modify _ k).2).
  unfold try_except. destruct (bind (process_task msg plan) _ k1) as [[b|e] k2] eqn:Ep; [|done].
  intros [= -> <-]. apply bind_inv_ok in Ep as ([] & k3 & Ep & [= <-]).
  unfold process_task in Ep. destruct plan as [p|]; [|done]. cbn [lift] in Ep.
  rewrite bind_ret_l, bind_get, bind_unit in Ep by done. set (k4 := (modify _ k1).2) in *.
  apply bind_inv_ok in Ep as (j & k5 & Eb & Ep). rewrite bind_unit in Ep by done.
  set (k6 := (modify _ k5).2) in *. unfold boot_plan in Eb.
  destruct (bootstrap _ _) as [[[]|e] w]; [|done]. injection Eb as <- <-.
  exists (length (wk_runs k)). split; [done|].
  set (Q := λ q, wk_scheduler q = Some (length (wk_runs k)) ∧ wk_event_bus q = Some (length (wk_runs k))
    ∧ wk_injector q = Some (length (wk_runs k)) ∧ wk_execution_id q = Some (tm_execution msg)).
  assert (∀ A j (m : M World A), preserves Q (on_run j m)) as HQ.
  { intros A j m q Hq. unfold on_run. destruct (run_at q j) as [v|]; [|done]. by destruct (m v). }
  assert (preserves Q (start_run (length (wk_runs k)) msg)) as Hall.
  { repeat (apply preserves_bind; [apply HQ|intros _]).
    apply preserves_if; [apply preserves_ret|apply preserves_raise]. }
  assert (Q k6) as H6 by done. apply Hall in H6. by rewrite Ep in H6.
Qed.

(** C13. A worker forgets a run when it boots the next: once a task is pulled and acknowledged,
    no later message to the worker, whatever it is, and not even its own [stop], acts on any run
    booted earlier. A run that had not ended goes on, and nothing pauses or aborts it. *)
Theorem pulled_task_orphans_runs (msg : TaskMessage) (plan : res YamlPlan) (k k' : Worker)
    (i : nat) (w : World) (ops : list worker_op)
  (Hi : wk_runs k !! i = Some w)
  (Hpull : pull_and_process_one msg plan k = (Ok true, k')) :
  wk_runs k' !! i = Some w ∧ wk_runs (worker_run ops k') !! i = Some w
  ∧ wk_scheduler (worker_run ops k') ≠ Some i.
Proof.
  destruct (pull_takes_over _ _ _ _ Hpull) as (j & Hj & Hs & Hb & Hn & _).
  apply lookup_lt_Some in Hi as Hlt.
  pose proof (pull_keeps_runs i w msg plan k Hi) as Hk. rewrite Hpull in Hk. cbn in Hk.
  destruct (worker_run_orphan i w ops k') as [H1 H2].
  - split; [done|]. unfold refers. rewrite Hs, Hb, Hn. assert (j ≠ i) by lia. naive_solver.
  - split_and!; [done..|]. intros H. apply H2. by left.
Qed.
(** ** Whose messages are obeyed *)

(** C14. A control message acts on the run it names only: when the worker's current execution is
    another one, or none, every message leaves the worker and all its runs as they are, whatever
    its action and payload, with one exception: breakpoints sent while no scheduler is current
    are kept for the next task, whichever run they were meant for. *)
Theorem control_needs_its_run (run_id : string) (payload : option pyval) (k : Worker)
  (Hother : wk_execution_id k ≠ Some run_id) :
  let k' := (on_control_message run_id payload k).2 in
  k' = k ∨ (wk_scheduler k = None ∧ ∃ l, k' = set_pending (Some (PyList l)) k).
Proof.
  cbn zeta. unfold on_control_message. destruct (as_dict _) as [d|]; [|by left].
  cbn [lift]. rewrite bind_ret_l.
  assert (current run_id k = None) as Hc by (unfold current; by rewrite decide_False).
  repeat case_match.
  - left. rewrite (bind_ok _ _ _ (no_active_execution run_id) k); [done|].
    unfold handle_inject_fault. by rewrite bind_get, Hc.
  - left. rewrite (bind_ok _ _ _ (no_active_execution run_id) k); [done|].
    unfold handle_step_control. by rewrite bind_get, Hc.
  - destruct (wk_scheduler k) as [j|] eqn:Ej.
    + left. rewrite (bind_ok _ _ _ (no_active_execution run_id) k); [done|].
      unfold handle_sync_breakpoints. rewrite bind_get, Ej. by rewrite decide_False.
    + right. split; [done|].
      exists (match dget d "breakpoints" PyNone with PyList l => l | _ => [] end).
      erewrite bind_ok; [reflexivity|]. unfold handle_sync_breakpoints. by rewrite bind_get, Ej.
  - left. rewrite bind_get. by rewrite decide_False.
Qed.

(** ** Abort *)

Definition abort_status (st : StepStatus) : StepStatus := if decide (st = PENDING) then ERROR else st.

Lemma abort_each l : ∀ w, (∀ kv, kv ∈ l → sr_steps (w_reg w) !! kv.1 = Some kv.2) → NoDup l.*1 →
  let w' := (for_each l (λ '(step_id, status),
    if decide (status = PENDING) then
      try_except (reg_update step_id ERROR)
        (λ e, match e with KeyError _ => Some (ret tt) | _ => None end)
    else ret tt) w) in
  w'.1 = Ok tt ∧ ∀ s, sr_steps (w_reg w'.2) !! s =
    if decide (s ∈ l.*1) then abort_status <$> sr_steps (w_reg w) !! s else sr_steps (w_reg w) !! s.
Proof.
  induction l as [|[s0 st] l IH]; intros w Hl Hnd; [done|].
  csimpl in Hnd. apply NoDup_cons in Hnd as [Hs0 Hnd]. cbn [for_each].
  assert (sr_steps (w_reg w) !! s0 = Some st) as H0 by (apply (Hl (s0, st)); left).
  set (body := (if decide (st = PENDING) then _ else _ : M World unit)).
  assert (∃ w1, body w = (Ok tt, w1)
    ∧ ∀ s, sr_steps (w_reg w1) !! s = if decide (s = s0) then Some (abort_status st)
                                      else sr_steps (w_reg w) !! s) as (w1 & Hb & H1).
  { subst body. unfold abort_status. case_decide as Hst.
    - destruct (reg_update_inv s0 ERROR w st H0) as (w1 & Hu & Hs & _). exists w1.
      rewrite (try_except_ok _ _ _ _ _ Hu). split; [done|]. intros s. rewrite Hs, dict_lookup_insert.
      by repeat case_decide.
    - exists w. split; [done|]. intros s. by case_decide; subst. }
  rewrite (bind_ok _ _ _ _ _ Hb). destruct (IH w1) as [Hr Hs]; [|done|].
  - intros kv Hkv. rewrite H1. rewrite decide_False; [by apply Hl; right|].
    intros <-. apply Hs0. by apply list_elem_of_fmap_2.
  - split; [done|]. intros s. rewrite Hs, H1. csimpl.
    destruct (decide (s = s0)) as [->|Hne].
    + rewrite decide_False by done. rewrite decide_True by left. by rewrite H0.
    + destruct (decide (s ∈ l.*1)); [rewrite decide_True by by right|rewrite decide_False by set_solver]; done.
Qed.

Lemma abort_pending_spec w :
  dict_wf (sr_steps (w_reg w)) →
  ∃ w', abort_pending w = (Ok tt, w')
    ∧ ∀ s, sr_steps (w_reg w') !! s = abort_status <$> sr_steps (w_reg w) !! s.
Proof.
  intros Hwf. unfold abort_pending. rewrite bind_get. unfold get_all_steps.
  destruct (abort_each (items (sr_steps (w_reg w))) w) as [Hr Hs]; [|done|].
  { intros [s st] Hin. by apply elem_of_items. }
  eexists. split; [by rewrite <-Hr, <-surjective_pairing|]. intros s. rewrite Hs.
  case_decide as Hin; [done|]. apply not_elem_of_keys in Hin. by rewrite Hin.
Qed.

Lemma scheduler_stop_reg w : w_reg (scheduler_stop w) = w_reg w ∧ running (w_life (scheduler_stop w)) = false.
Proof.
  unfold scheduler_stop. destruct (running (w_life w)) eqn:Er; cbn [negb]; [|by rewrite Er].
  by case_match.
Qed.

(** Aborting the current run: every step that is PENDING becomes ERROR and the others keep
    their status (a step that is running goes on), the scheduler is stopped, the other runs are
    untouched, and the worker has no current run any more. *)
Theorem abort_contract (run_id : string) (d : ydict) (k : Worker) (i : nat) (w : World)
  (Hrun : wk_execution_id k = Some run_id) (Hcur : wk_scheduler k = Some i) (Hw : run_at k i = Some w)
  (Hwf : dict_wf (sr_steps (w_reg w))) (Hact : dget d "action" (PyStr "abort") = PyStr "abort") :
  ∃ k' w', on_control_message run_id (Some (PyMap d)) k = (Ok None, k')
  ∧ wk_runs k' = <[i := w']> (wk_runs k)
  ∧ (∀ s, sr_steps (w_reg w') !! s = abort_status <$> sr_steps (w_reg w) !! s)
  ∧ running (w_life w') = false
  ∧ wk_scheduler k' = None ∧ wk_execution_id k' = None ∧ wk_injector k' = None.
Proof.
  unfold on_control_message. cbn [from_option id as_dict lift]. rewrite bind_ret_l, Hact.
  change (is_str (PyStr "abort") "inject_fault") with false.
  change (is_str (PyStr "abort") "step_control") with false.
  change (is_str (PyStr "abort") "sync_breakpoints") with false. cbn iota.
  rewrite bind_get, decide_True by done.
  change (silent_action (PyStr "abort")) with abort_current.
  unfold bind at 1, abort_current. rewrite bind_get, Hcur.
  unfold on_run, bind at 1. rewrite Hw.
  destruct (abort_pending_spec w Hwf) as (w1 & Ha & Hs). rewrite (bind_ok _ _ _ _ _ Ha). cbn.
  destruct (scheduler_stop_reg w1) as [Hreg Hrunning].
  eexists _, _. split; [reflexivity|]. cbn. split_and!; try done. intros s. by rewrite Hreg.
Qed.
(** ** Snapshots of other runs *)

Lemma set_snapshot_id w : set_snapshot (w_snapshot w) w = w.
Proof. by destruct w. Qed.

Lemma on_run_spec {A} i (m : M World A) k w :
  run_at k i = Some w →
  ∃ k', on_run i m k = ((m w).1, k') ∧ run_at k' i = Some (m w).2
  ∧ k' = set_runs (<[i := (m w).2]> (wk_runs k)) (w_snapshot (m w).2) k.
Proof.
  intros Hw. unfold on_run. rewrite Hw. destruct (m w) as [r w'] eqn:Em. cbn.
  eexists. split_and!; [done| |done]. unfold run_at in *. cbn.
  apply fmap_Some in Hw as (v & Hv & _). apply lookup_lt_Some in Hv.
  rewrite list_lookup_insert_eq by done. cbn. by rewrite set_snapshot_id.
Qed.

(** The world the scheduler is started in. *)
Definition forwarded (w : World) : World :=
  let w1 := setup_status_forwarding w in set_bus (bus_start (w_bus w1)) w1.

Lemma start_run_spec i msg k w :
  run_at k i = Some w → tm_ack msg = true →
  ∃ k', start_run i msg k = ((scheduler_start (forwarded w)).1, k')
    ∧ wk_runs k' !! i = Some (scheduler_start (forwarded w)).2
    ∧ wk_disk k' = w_snapshot (scheduler_start (forwarded w)).2
    ∧ wk_scheduler k' = wk_scheduler k.
Proof.
  intros Hw Hack. unfold start_run.
  destruct (on_run_spec i (modify setup_status_forwarding) k w Hw) as (k1 & H1 & Hw1 & E1).
  rewrite (bind_ok _ _ _ _ _ H1).
  destruct (on_run_spec i (modify (λ w, set_bus (bus_start (w_bus w)) w)) k1 _ Hw1) as (k2 & H2 & Hw2 & E2).
  rewrite (bind_ok _ _ _ _ _ H2).
  destruct (on_run_spec i scheduler_start k2 _ Hw2) as (k3 & H3 & Hw3 & E3).
  change (modify (λ w, set_bus (bus_start (w_bus w)) w) (modify setup_status_forwarding w).2).2
    with (forwarded w) in *.
  exists k3. unfold bind. rewrite H3, Hack. split_and!.
  - by destruct (scheduler_start (forwarded w)) as [[[]|e] w'].
  - rewrite E3. apply fmap_Some in Hw2 as (v & Hv & _). apply lookup_lt_Some in Hv.
    by apply list_lookup_insert_eq.
  - by rewrite E3.
  - by rewrite E3, E2, E1.
Qed.

(** A plan the bootstrapper accepts. *)
Definition bootable (plan : YamlPlan) : Prop :=
  (plan_levels (yp_steps plan) <= MAX_RECURSION_DEPTH)%Z
  ∧ Forall (λ e, is_blank (pe_id e) = false) (plan_entries plan).

Lemma boot_plan_spec plan defs k :
  bootable plan →
  ∃ w, boot_plan plan defs k = (Ok (length (wk_runs k)), set_runs (wk_runs k ++ [w]) (wk_disk k) k)
  ∧ booted (plan_entries plan)
      (new_bootstrapper ast_nodes defs fresh_injector (wk_disk k) os) w.
Proof.
  intros [Hl Hb]. pose proof (bootstrap_spec ast_nodes defs fresh_injector (wk_disk k) os plan) as H.
  cbn zeta in H. unfold boot_plan. destruct (bootstrap _ _) as [r w].
  rewrite decide_False in H by lia. rewrite decide_False in H.
  - destruct H as [-> H]. by exists w.
  - rewrite Exists_exists. intros (e & He & Hx). rewrite Forall_forall in Hb. by rewrite Hb in Hx.
Qed.

(** C12. A snapshot is not tied to the execution that wrote it. If the snapshot directory holds a
    resumable state when a task is pulled, then, whichever execution and plan it is of, either
    it names steps of the new plan only, and the new run starts with the old statuses (a step
    that passed in the old run is not executed for the new one), or it names another step, and
    the task is given back, with its scheduler left marked as running. In both cases the
    snapshot stays, so the next delivery of a task finds it again. *)
Theorem pull_resumes_any_snapshot (msg : TaskMessage) (plan : YamlPlan) (k : Worker) (disk : Disk)
    (snapshot : pyval) (l : ydict)
  (Hplan : bootable plan) (Hack : tm_ack msg = true)
  (Hdisk : wk_disk k = Some disk) (Hcan : can_resume json_load disk = true)
  (Hload : load json_load disk = Some snapshot)
  (Hsteps : state_get "step_states" snapshot = PyMap l) (Hnd : NoDup (recorded l).*1) :
  let '(r, k') := pull_and_process_one msg (Ok plan) k in
  wk_disk k' = Some disk
  ∧ ∃ w, wk_runs k' !! length (wk_runs k) = Some w ∧ running (w_life w) = true
  ∧ if decide (Forall (λ kv, kv.1 ∈ pe_id <$> plan_entries plan) (recorded l))
    then r = Ok true ∧ wk_scheduler k' = Some (length (wk_runs k))
      ∧ (∀ s st, (s, st) ∈ recorded l → sr_steps (w_reg w) !! s = Some st)
      ∧ (∀ s, s ∈ pe_id <$> plan_entries plan → s ∉ (recorded l).*1 →
           sr_steps (w_reg w) !! s = Some PENDING)
    else r = Ok false ∧ wk_scheduler k' = None.
Proof.
  unfold pull_and_process_one. rewrite bind_unit by done. set (k1 := (modify _ k).2).
  unfold process_task. unfold try_except. unfold bind at 1. unfold bind at 1. cbn [lift ret].
  rewrite bind_get, bind_unit by done. set (defs := task_breakpoints _ _).
  set (k2 := (modify (set_pending None) k1).2).
  destruct (boot_plan_spec plan defs k2 Hplan) as (w0 & Hb & Hw0).
  rewrite (bind_ok _ _ _ _ _ Hb), bind_unit by done.
  change (length (wk_runs k2)) with (length (wk_runs k)) in *.
  set (k3 := (modify _ _).2). set (i := length (wk_runs k)) in *.
  assert (w_snapshot w0 = Some disk) as Hs0 by (rewrite (bt_rest _ _ _ Hw0); exact Hdisk).
  assert (run_at k3 i = Some w0) as Hrun.
  { unfold run_at. cbn. rewrite lookup_app_r by done. rewrite Nat.sub_diag. cbn.
    change (wk_disk k2) with (wk_disk k). by rewrite Hdisk, <-Hs0, set_snapshot_id. }
  destruct (start_run_spec i msg k3 w0 Hrun Hack) as (k4 & -> & Hw4 & Hd4 & Hc4).
  assert (running (w_life (forwarded w0)) = false) as Hnr by (rewrite (bt_rest _ _ _ Hw0); done).
  pose proof (start_resumes (forwarded w0) disk snapshot l Hnr Hs0 Hcan Hload Hsteps) as H.
  destruct (scheduler_start (forwarded w0)) as [r w]. cbn [fst snd] in *.
  destruct H as [Hsnap H]. change (w_snapshot (forwarded w0)) with (w_snapshot w0) in Hsnap.
  change (sr_steps (w_reg (forwarded w0))) with (sr_steps (w_reg w0)) in *.
  assert (∀ s, s ∈ keys (sr_steps (w_reg w0)) ↔ s ∈ pe_id <$> plan_entries plan) as Hk.
  { intros s. rewrite elem_of_keys, (bt_steps _ _ _ Hw0).
    destruct (decide (s ∈ pe_id <$> plan_entries plan)); (split; intros Hs);
      [done|by eexists|by destruct Hs|done]. }
  assert (Forall (λ kv, kv.1 ∈ keys (sr_steps (w_reg w0))) (recorded l)
    ↔ Forall (λ kv, kv.1 ∈ pe_id <$> plan_entries plan) (recorded l)) as Hall
    by (rewrite !Forall_forall; by setoid_rewrite Hk).
  destruct (decide (Forall (λ kv, kv.1 ∈ keys _) _)) as [Hyes|Hno].
  - destruct H as (-> & (Hst & _) & Hr & _). cbn. split; [congruence|]. exists w.
    rewrite (decide_True _ _ (proj1 Hall Hyes)). split_and!; [done..| |].
    + intros s st Hin. rewrite Hst. by apply restore_lookup.
    + intros s Hs Hn. change (sr_steps (w_reg w) !! s = Some PENDING). rewrite Hst, restore_other by done.
      rewrite (bt_steps _ _ _ Hw0). by rewrite decide_True.
  - destruct H as ([m ->] & Hr & _). cbn. split; [congruence|]. exists w.
    rewrite decide_False by by rewrite <-Hall. by split_and!.
Qed.
End worker.

(** ** Witnesses and examples *)

#[local] Existing Instance codec_env.

Abbreviation pull := (pull_and_process_one (λ _, None) (tt : FaultInjector) plain_os).
Abbreviation run_ops := (worker_run (λ _, None) (tt : FaultInjector) plain_os (λ _ i, (Ok ("f", "scheduler"), i))).
Abbreviation control := (on_control_message (λ _, None) (λ _ i, (Ok ("f", "scheduler"), i))).

Definition new_worker (disk : option Disk) : Worker := mkWk [] disk None None None None None true.
Definition task (execution : string) : TaskMessage := mkTask execution (Some (PyMap [])) true.
Definition steps_plan (ids : list string) : res YamlPlan :=
  Ok (some_plan ((λ s, script_step s [] None) <$> ids)).
Definition action (a : string) : option pyval := Some (PyMap [(PyStr "action", PyStr a)]).

(** A worker that runs "run-1", and the same after a second task. *)
Definition busy_worker : Worker := (pull (task "run-1") (steps_plan ["a"]) (new_worker None)).2.
Definition twice_busy : Worker := (pull (task "run-2") (steps_plan ["b"]) busy_worker).2.

Definition first_run : World := default next_run (run_at busy_worker 0).

Definition run_flags (k : Worker) : list (bool * bool) :=
  (λ w, (running (w_life w), paused (w_gate w))) <$> wk_runs k.

Example controls_reach_the_current_run :
  run_flags (control "run-1" (action "pause") busy_worker).2 = [(true, true)]
  ∧ run_flags (control "run-1" (action "abort") busy_worker).2 = [(false, false)].
Proof. vm_compute. done. Qed.

(** Both runs go on; the first cannot be paused or aborted, nor does the end of the worker stop it. *)
Example first_run_is_out_of_reach :
  run_flags (run_ops [OpControl "run-1" (action "pause"); OpControl "run-1" (action "abort"); OpStop]
    twice_busy) = [(true, false); (false, false)].
Proof. vm_compute. done. Qed.

Lemma pulled_task_orphans_runs_witness :
  run_flags busy_worker = [(true, false)]
  ∧ wk_runs (run_ops [OpControl "run-1" (action "abort"); OpStop] twice_busy) !! 0 = wk_runs busy_worker !! 0.
Proof.
  split; [vm_compute; reflexivity|].
  exact (proj1 (proj2 (pulled_task_orphans_runs (λ _, None) (tt : FaultInjector) plain_os
    (λ _ i, (Ok ("f", "scheduler"), i)) (task "run-2") (steps_plan ["b"]) busy_worker twice_busy 0
    first_run [OpControl "run-1" (action "abort"); OpStop]
    ltac:(vm_compute; reflexivity) ltac:(vm_compute; reflexivity)))).
Defined.

Lemma control_needs_its_run_witness :
  (control "run-9" (action "abort") busy_worker).2 = busy_worker
  ∨ (wk_scheduler busy_worker = None
     ∧ ∃ l, (control "run-9" (action "abort") busy_worker).2 = set_pending (Some (PyList l)) busy_worker).
Proof.
  apply (control_needs_its_run (λ _, None) (λ _ i, (Ok ("f", "scheduler"), i)) "run-9" (action "abort")
    busy_worker). vm_compute. discriminate.
Defined.

Lemma abort_contract_witness :
  ∃ k' w', (control "run-1" (action "abort") busy_worker) = (Ok None, k')
  ∧ wk_runs k' = [w'] ∧ sr_steps (w_reg w') !! "a" = Some ERROR.
Proof.
  destruct (abort_contract (λ _, None) (λ _ i, (Ok ("f", "scheduler"), i)) "run-1"
    [(PyStr "action", PyStr "abort")] busy_worker 0 first_run)
    as (k' & w' & Hk & Hr & Hs & _); try (vm_compute; reflexivity).
  - vm_compute. apply NoDup_singleton.
  - exists k', w'. split_and!; [exact Hk|rewrite Hr; vm_compute; reflexivity|].
    rewrite Hs. vm_compute. reflexivity.
Defined.

(** Breakpoints sent for one run while the worker is idle stop the next run, another one. *)
Definition step_breakpoint : pyval :=
  PyMap [(PyStr "id", PyStr "bp"); (PyStr "kind", PyStr "step"); (PyStr "target", PyStr "a")].
Example breakpoints_of_another_run :
  let k := (control "run-9" (Some (PyMap [(PyStr "action", PyStr "sync_breakpoints");
              (PyStr "breakpoints", PyList [step_breakpoint])])) (new_worker None)).2 in
  let k' := (pull (task "run-1") (steps_plan ["a"]) k).2 in
  (λ w, en_breakpoints <$> w_bps w) <$> wk_runs k' = [Some [mkBp "bp" "step" "a" None true]].
Proof. vm_compute. done. Qed.

(** The directory an interrupted run left behind: "a" passed, "b" was running. *)
Definition after_crash_disk : option Disk := w_snapshot (maybe_snapshot before_crash).2.

(** The same plan for another execution: "a" is not run again. *)
Lemma pull_resumes_any_snapshot_witness :
  ∃ w, wk_runs (pull (task "run-2") (steps_plan ["a"; "b"]) (new_worker after_crash_disk)).2 !! 0 = Some w
  ∧ sr_steps (w_reg w) !! "a" = Some PASSED.
Proof.
  pose (p := some_plan [script_step "a" [] None; script_step "b" [] None]).
  assert (bootable p) as Hplan by (split; [vm_compute; discriminate|repeat constructor]).
  pose (l := [(PyStr "a", PyStr "PASSED"); (PyStr "b", PyStr "RUNNING")]).
  assert (NoDup (recorded l).*1) as Hnd by (repeat constructor; set_solver).
  pose proof (pull_resumes_any_snapshot (λ _, None) (tt : FaultInjector) plain_os (task "run-2") p
    (new_worker after_crash_disk) (default ∅ after_crash_disk) crashed_state l
    Hplan eq_refl eq_refl eq_refl eq_refl eq_refl Hnd) as H.
  change (steps_plan ["a"; "b"]) with (Ok p : res YamlPlan).
  destruct (pull_and_process_one _ _ _ _ _ _) as [r k'].
  destruct H as (_ & w & Hw & _ & H). exists w. split; [exact Hw|].
  rewrite decide_True in H.
  - apply H. left.
  - repeat constructor; vm_compute; repeat (first [left | right]).
Defined.

(** A plan without step "b": every delivery of the task fails. *)
Example stale_snapshot_blocks :
  let k0 := new_worker after_crash_disk in
  let '(r1, k1) := pull (task "run-2") (steps_plan ["a"]) k0 in
  let '(r2, k2) := pull (task "run-2") (steps_plan ["a"]) k1 in
  (r1, r2, wk_disk k2, run_flags k2) = (Ok false, Ok false, after_crash_disk, [(true, false); (true, false)]).
Proof. vm_compute. done. Qed.

(** From the YAML of a sequence to the steps a worker starts: a dependency of DSL v3.2 is lost on
    the way, and both steps start at once; as a precondition it is kept. *)
Definition started_of_file (steps : list pyval) : option (list string) :=
  match build_plan (wire_file steps) with
  | Ok p => match task_plan (Some (wire_plan p)) with
            | Some (Ok plan) => Some (starts_of (yp_steps plan))
            | _ => None
            end
  | Raise _ => None
  end.
Example dependencies_do_not_arrive :
  started_of_file [wire_step_entry "a" []; wire_step_entry "b" [(PyStr "depends_on", PyList [PyStr "a"])]]
    = Some ["a"; "b"]
  ∧ started_of_file [wire_step_entry "a" []; wire_step_entry "b" [(PyStr "preconditions", PyList [PyStr "a"])]]
    = Some ["a"].
Proof. vm_compute. done. Qed.
