(* ===== verification/Divergences.v ===== *)
(** * Behaviours at odds with the scheduler's intent

    Theorems about the code as it is, where a comment or the purpose of the code says
    otherwise. *)

From S2P Require Import Prelude PyDict PyStr Types VariableSpace EventBus ResourceManager ConditionEvaluator StepRegistry EdgeBreakpoints UutSync StateSnapshot Scheduler Dispatch Watchdog System.

Section divergences.
Context {E : SchedulerEnv}.

(** The deadlock alarm never says how long the deadlock lasted: whatever the counter
    of scans without progress was, [_handle_potential_deadlock] resets it before it
    builds the event, so the published [consecutive_scans] is 0; the pending steps are
    listed exactly, in registration order. *)
Theorem deadlock_report_zero (w : World) :
  let w' := (handle_potential_deadlock w).2 in
  ∃ pending,
  eb_queue (w_bus w') = eb_queue (w_bus w)
  ++ [Some (mkEvent DEADLOCK_DETECTED (DeadlockDetectedData pending 0) CAT_ALARM)]
  ∧ pending `sublist_of` keys (sr_steps (w_reg w))
  ∧ (dict_wf (sr_steps (w_reg w)) →
    ∀ s, s ∈ pending ↔ sr_steps (w_reg w) !! s = Some PENDING).
Proof.
  cbn zeta. unfold handle_potential_deadlock. rewrite bind_get, bind_unit by done.
  eexists. split; [reflexivity|]. split.
  - apply fmap_sublist, sublist_filter.
  - intros Hwf s. rewrite list_elem_of_fmap. split.
    + intros ([k st] & -> & [Hst Hin]%list_elem_of_filter). cbn in *. subst.
      by apply elem_of_items.
    + intros Hs. exists (s, PENDING). split; [done|]. apply list_elem_of_filter.
      split; [done|]. by apply elem_of_items.
Qed.

(** A breakpoint can be spent on a step that is not going to run: the reactive
    path asks the breakpoint engine before it looks at the step's status, so a
    dispatch of a step that is finished, running or unknown still fires its breakpoint,
    publishes BREAKPOINT_HIT, pauses the scheduler and starts nothing. *)
Theorem breakpoint_before_status (s : string) (w : World) (en en' : EdgeBreakpointEngine)
  (bp : EdgeBreakpoint)
  (Hst : sr_steps (w_reg w) !! s ≠ Some PENDING)
  (Hpaused : paused (w_gate w) = false)
  (Hmode : should_pause_for_step_mode w s = false)
  (Hen : w_bps w = Some en)
  (Hhit : check_step_bp simple_eval_names s (build_variable_snapshot (Some (w_vs w))) en
    = (Some bp, en')) :
  let w' := dispatch_step s w in
  new_starts w w' = [] ∧ paused (w_gate w') = true ∧ w_bps w' = Some en'
  ∧ bp_id bp ∈ en_fired en'.
Proof.
  cbn zeta. destruct (gate_spec s w) as (g & w1 & Hg & _ & _ & _ & _ & _ & _ & _ & _ & _ & _ & _ & _ & H).
  unfold dispatch_step, dispatch_body. rewrite (bind_ok _ _ _ _ _ Hg). destruct g; cbn [ret].
  - destruct H as ((_ & _ & Hn) & _). specialize (Hn en Hen). by rewrite Hhit in Hn.
  - destruct H as [? _]. congruence.
  - destruct H as (_ & ? & _). congruence.
  - destruct H as (_ & _ & Hp & _ & en0 & bp0 & en0' & He & Hc & Hb & Hbus).
    rewrite Hen in He. injection He as <-. rewrite Hhit in Hc. injection Hc as <- <-.
    split_and!; [|done|done|].
    + unfold new_starts. cbn. rewrite Hbus.
      change (started (drop (length (eb_queue (w_bus w)))
        (eb_queue (w_bus w) ++ [Some (mkEvent BREAKPOINT_HIT
        (BreakpointHitData (bp_id bp) (bp_kind bp) (bp_target bp) s
        (build_variable_snapshot (Some (w_vs w)))) CAT_EVENT)])) = []).
      by rewrite drop_app_length.
    + apply check_step_bp_spec in Hhit as (_ & _ & _ & _ & _ & ->). set_solver.
Qed.
End divergences.

#[local] Existing Instance plain_env.

(** ** A scan outlives its list

    Step "b" is a barrier over one idle unit, step "a" needs resource "r". *)
Definition need_r : Condition := mkCondition None None None (Some ["r"]).
Definition barrier_registry : StepRegistry :=
  (register "a" (Some need_r) None (register "b" None None (reg_init true)).2).2.
Definition barrier_world : World :=
  let w := new_scheduler barrier_registry (vs_init true) (rm_init true)
             (Some (new_manager 1 None ∅)) None None None None (set_env true true bus_init)
             plain_os in
  (scheduler_start (compile_plan [("b", None); ("a", Some need_r)]
    (register_barrier_steps (dict_of_list [("b", "sync")]) 60000 w).2)).2.

(** The scan starts "b" and waits at the barrier with "a" left; a release of "r"
    dispatches "a" reactively; its executor reports PASSED, and the events are
    delivered. *)
Definition scan_waits : World := loop_scan 0 (loop_top barrier_world).
Definition deliver (w : World) : World := (process_one w_bus set_bus call_handler w).2.
Definition r_published : World :=
  set_bus (publish RESOURCE_RELEASED (ResourceReleasedData "r" "x") (w_bus scan_waits)) scan_waits.
Definition released : World := deliver (deliver r_published).
Definition a_started : World :=
  dispatch_step "a" (set_tasks (delete 1 (w_tasks released)) released).
Definition a_reported : World := (reg_update "a" PASSED a_started).2.
Definition a_passed : World := (handle_step_result "a" PASSED a_reported).2.
Definition a_published : World := set_bus (run_scheduled (w_bus a_passed)) a_passed.
Definition a_settled : World := deliver (deliver a_published).
(** The unit arrives, the barrier is complete, and the scan goes on with its list. *)
Definition scan_resumed : World :=
  after_scan true ((barrier_settle "b" "sync" ∅ ;;; scan_steps ["a"])
                     (set_tasks (delete 0 (w_tasks a_settled)) a_settled)).

(** The steps in flight along the run. *)
Definition flight1 : list string := [] ++ new_starts barrier_world (loop_top barrier_world).
Definition flight2 : list string := flight1 ++ new_starts (loop_top barrier_world) scan_waits.
Definition flight3 : list string := flight2 ++ new_starts released a_started.

Lemma flight3_eq : flight3 = ["b"] ++ "a" :: [].
Proof. vm_compute. reflexivity. Qed.

Lemma deliver_step w f rep : sys_step (mkSys w f rep) (mkSys (deliver w) f rep).
Proof. eapply Sy_deliver, surjective_pairing. Qed.

Lemma task_step' i t missing w w' f rep :
  w_tasks w !! i = Some t →
  run_task t missing (set_tasks (delete i (w_tasks w)) w) = Some w' →
  sys_step (mkSys w f rep) (mkSys w' (f ++ new_starts w w') rep).
Proof. intros H1 H2. eapply Sy_internal, In_task; eassumption. Qed.

Lemma loop_step' w w' f rep :
  loop_step w = Some w' → sys_step (mkSys w f rep) (mkSys w' (f ++ new_starts w w') rep).
Proof. intros H. by apply Sy_internal, In_loop. Qed.

Lemma run_open_gate s m w :
  pause_event (w_gate w) = true → run_task (TDispatch s NotStarted) m w = Some (dispatch_step s w).
Proof. intros H. cbn [run_task]. by rewrite H. Qed.

Lemma a_task_runs :
  run_task (TDispatch "a" NotStarted) ∅ (set_tasks (delete 1 (w_tasks released)) released)
  = Some a_started.
Proof. unfold a_started. apply run_open_gate. vm_compute. reflexivity. Qed.

Lemma barrier_task_runs :
  run_task (TBarrier "b" "sync" ["UUT_0"] (Some (true, ["a"]))) ∅
    (set_tasks (delete 0 (w_tasks a_settled)) a_settled) = Some scan_resumed.
Proof. unfold scan_resumed. cbn [run_task]. exact eq_refl. Qed.

Lemma scan_waits_reached : rtc sys_step (mkSys barrier_world [] ∅) (mkSys scan_waits flight2 ∅).
Proof.
  eapply (rtc_l _ _ (mkSys (loop_top barrier_world) flight1 ∅)).
  - apply (loop_step' barrier_world (loop_top barrier_world) []). vm_compute. reflexivity.
  - apply rtc_once, (loop_step' (loop_top barrier_world) scan_waits flight1).
    vm_compute. reflexivity.
Qed.

Lemma a_started_reached :
  rtc sys_step (mkSys scan_waits flight2 ∅) (mkSys a_started flight3 ∅).
Proof.
  eapply (rtc_l _ _ (mkSys r_published flight2 ∅)).
  { apply Sy_bus, Bc_publish. done. }
  eapply (rtc_l _ _ (mkSys (deliver r_published) flight2 ∅)); [exact (deliver_step _ _ _)|].
  eapply (rtc_l _ _ (mkSys released flight2 ∅)); [exact (deliver_step _ _ _)|].
  eapply (rtc_l _ _ (mkSys a_started flight3 ∅)); [|apply rtc_refl].
  apply (task_step' 1 (TDispatch "a" NotStarted) ∅ released a_started flight2).
  - vm_compute. reflexivity.
  - exact a_task_runs.
Qed.

Lemma a_settled_reached :
  rtc sys_step (mkSys a_started flight3 ∅)
    (mkSys a_settled (["b"] ++ []) (({[ "a" ]} ∪ ∅) ∖ {[ "a" ]})).
Proof.
  rewrite flight3_eq.
  eapply (rtc_l _ _ (mkSys a_reported (["b"] ++ []) ({[ "a" ]} ∪ ∅))).
  { exact (Sy_report a_started ["b"] "a" [] ∅ PASSED eq_refl). }
  eapply (rtc_l _ _ (mkSys a_passed (["b"] ++ []) (({[ "a" ]} ∪ ∅) ∖ {[ "a" ]}))).
  { apply (Sy_judge a_reported (["b"] ++ []) ({[ "a" ]} ∪ ∅) "a" PASSED). set_solver. }
  eapply (rtc_l _ _ (mkSys a_published (["b"] ++ []) (({[ "a" ]} ∪ ∅) ∖ {[ "a" ]}))).
  { exact (Sy_bus a_passed _ _ _ (Bc_scheduled (w_bus a_passed))). }
  eapply (rtc_l _ _ (mkSys (deliver a_published) _ _)); [exact (deliver_step a_published _ _)|].
  exact (rtc_once _ _ (deliver_step (deliver a_published) _ _)).
Qed.

(** A scan that waited at a barrier goes on with the ready list it computed before:
    there is a run of the system (a barrier step, a reactively dispatched step that
    passes meanwhile, the barrier's completion) after which the scan starts again a
    step whose status is PASSED. *)
Theorem barrier_scan_restarts_passed_step :
  ∃ f rep w',
    rtc sys_step (mkSys barrier_world [] ∅) (mkSys a_settled f rep)
    ∧ internal a_settled w'
    ∧ sr_steps (w_reg a_settled) !! "a" = Some PASSED
    ∧ sr_steps (w_reg w') !! "a" = Some PASSED
    ∧ new_starts a_settled w' = ["a"].
Proof.
  eexists _, _, scan_resumed. split_and!.
  - etrans; [exact scan_waits_reached|]. etrans; [exact a_started_reached|].
    exact a_settled_reached.
  - apply (In_task 0 (TBarrier "b" "sync" ["UUT_0"] (Some (true, ["a"]))) ∅ a_settled scan_resumed).
    + vm_compute. reflexivity.
    + exact barrier_task_runs.
  - vm_compute. reflexivity.
  - vm_compute. reflexivity.
  - vm_compute. reflexivity.
Qed.

(** ** Shutdown *)

(** The emergency shutdown stops the scan loop only: with the plain one-step plan,
    a reactive dispatch that is pending when the watchdog shuts the scheduler down still
    starts its step. *)
Theorem shutdown_leaves_dispatch :
  let w := emergency_shutdown plain_world in
  running (w_life w) = false ∧ loop_step w = None
  ∧ new_starts w (dispatch_step "a" w) = ["a"].
Proof. vm_compute. done. Qed.

(** ** The watchdog during a barrier wait *)

(** A scan waiting in a barrier step does not beat: with a watchdog started together
with the scheduler, the system that reaches [scan_waits] (a healthy scan, waiting for a
slow unit under test) is reported dead at the fourth check from the start, [HEARTBEAT_LOST] and
emergency shutdown, 20 seconds after the start where the barrier may wait for 60. *)
Theorem barrier_wait_trips_watchdog :
  let d := watchdog_start scheduler_beat barrier_world (new_watchdog 5000) in
  let checks := [λ _, scan_waits; id; id; id] in
  let w := (watchdog_loop scheduler_beat (Some scheduler_emit) (Some scheduler_shutdown)
              checks d barrier_world).2 in
  rtc sys_step (mkSys barrier_world [] ∅) (mkSys scan_waits flight2 ∅)
  ∧ loop_step scan_waits = None ∧ running (w_life scan_waits) = true
  ∧ (barrier_default_timeout (w_plan scan_waits) = 60000)%Z
  ∧ running (w_life w) = false ∧ loop_at (w_life w) = LoopNone
  ∧ Some HEARTBEAT_LOST ∈ map (option_map ev_type) (eb_queue (w_bus w)).
Proof.
  intros d checks w. split_and!; [exact scan_waits_reached|vm_compute; reflexivity..|].
  apply list_elem_of_In. vm_compute. auto.
Qed.

(** ** Witness of [breakpoint_before_status]: a passed step with a breakpoint on it. *)
Definition bp_a : EdgeBreakpoint := mkBp "bp1" "step" "a" None true.
Definition bp_world : World :=
  new_scheduler (set_status_dict (PyDict [("a", PASSED)]) plain_registry) (vs_init true)
    (rm_init true) None (Some (new_engine [bp_a])) None None None bus_init plain_os.

Lemma breakpoint_before_status_witness :
  new_starts bp_world (dispatch_step "a" bp_world) = []
  ∧ paused (w_gate (dispatch_step "a" bp_world)) = true.
Proof.
  destruct (breakpoint_before_status "a" bp_world (new_engine [bp_a])
    (mkEngine [bp_a] ({[ "bp1" ]} ∪ ∅)) bp_a) as (H1 & H2 & _).
  - discriminate.
  - reflexivity.
  - reflexivity.
  - reflexivity.
  - reflexivity.
  - split; [exact H1|exact H2].
Defined.

(** ** A stale failure

    An injected fault makes "a" FAILED and, as it is to be repeated, PENDING again. The event of
    the failure is delivered only after the next scan has started "a", and is taken for the end
    of that execution: "a" is no longer on record as notified, and a later scan starts it again
    while the first execution is under way. *)
Module StaleFault.
(** An injector that fires once. *)
Definition faulted_env : SchedulerEnv := {|
  simple_eval := @simple_eval plain_env;
  simple_eval_names := @simple_eval_names plain_env;
  json_dump := @json_dump plain_env;
  json_load := @json_load plain_env;
  temp_name := @temp_name plain_env;
  SkipConditions := unit;
  AdaptiveEvaluator := unit;
  should_skip _ _ _ _ := Ok false;
  skip_reason_of _ _ _ _ := Ok None;
  FaultInjector := bool;
  check_scheduler_raise _ fires := (if fires then Some "fault" else None, false)
|}.
#[local] Existing Instance faulted_env.

Definition repeated : StepRegistry :=
  (register "a" None (Some (mkConfig 0 0 true 3 false None "continue")) (reg_init true)).2.
Definition faulted_world : World :=
  (scheduler_start (new_scheduler repeated (vs_init true) (rm_init true) None None (Some true) None None
     (set_env true true bus_init) plain_os)).2.
(** Steps of the scan loop, and the delivery of every event there is. *)
Definition loop_steps (n : nat) (w : World) : World := Nat.iter n (λ w, default w (loop_step w)) w.
Definition all_delivered (w : World) : World :=
  let w' := set_bus (run_scheduled (w_bus w)) w in
  Nat.iter (length (eb_queue (w_bus w'))) (λ w, (process_one w_bus set_bus call_handler w).2) w'.
Definition after_fault : World := loop_steps 2 faulted_world.
Definition first_start : World := loop_steps 2 after_fault.
Definition stale_delivered : World := all_delivered first_start.

Example stale_failure_starts_twice :
  (new_starts faulted_world after_fault, new_starts after_fault first_start,
   new_starts stale_delivered (loop_steps 2 stale_delivered)) = ([], ["a"], ["a"]).
Proof. vm_compute. reflexivity. Qed.
End StaleFault.
