(* ===== verification/Sql.v ===== *)
(** * SQL tables

    What the offline stores use of SQLite: a table is the list of its rows in rowid order;
    a statement is a pure function of it, and [rowcount] the number of rows it touched. A
    statement is committed before the next one starts, so a crash leaves the table as the
    last statement left it. *)

From Stdlib Require Export Sorting.Sorted.
From S2P Require Import Prelude.

Section table.
Context {R : Type}.
Implicit Types (P : R → bool) (rows : list R).

(** [SELECT ... WHERE P] in rowid order, and [fetchone()]. *)
Definition sql_select P rows : list R := base.filter P rows.
Definition sql_first P rows : option R := head (sql_select P rows).
Definition sql_count P rows : Z := Z.of_nat (length (sql_select P rows)).
(** [UPDATE ... SET f WHERE P] and [DELETE ... WHERE P]; both touch [sql_count P] rows. *)
Definition sql_update P (f : R → R) rows : list R := (λ r, if P r then f r else r) <$> rows.
Definition sql_delete P rows : list R := base.filter (λ r, negb (P r)) rows.

Lemma sql_select_cons P r rows :
  sql_select P (r :: rows) = if P r then r :: sql_select P rows else sql_select P rows.
Proof. unfold sql_select. rewrite filter_cons. by destruct (P r). Qed.

Lemma sql_count_cons P r rows :
  sql_count P (r :: rows) = ((if P r then 1 else 0) + sql_count P rows)%Z.
Proof. unfold sql_count. rewrite sql_select_cons. destruct (P r); cbn [length]; lia. Qed.

Lemma elem_of_select P rows r : r ∈ sql_select P rows ↔ r ∈ rows ∧ P r = true.
Proof. unfold sql_select. rewrite list_elem_of_filter, Is_true_true. naive_solver. Qed.

Lemma elem_of_delete P rows r : r ∈ sql_delete P rows ↔ r ∈ rows ∧ P r = false.
Proof.
  unfold sql_delete. rewrite list_elem_of_filter, Is_true_true, negb_true_iff. naive_solver.
Qed.

Lemma elem_of_update P f rows r :
  r ∈ sql_update P f rows ↔ ∃ r0, r0 ∈ rows ∧ r = if P r0 then f r0 else r0.
Proof. unfold sql_update. rewrite list_elem_of_fmap. naive_solver. Qed.

Lemma sql_first_Some P rows r : sql_first P rows = Some r → r ∈ rows ∧ P r = true.
Proof.
  unfold sql_first. intros H. apply elem_of_select. destruct (sql_select P rows); [done|].
  injection H as <-. left.
Qed.

Lemma sql_first_None P rows : sql_first P rows = None ↔ ∀ r, r ∈ rows → P r = false.
Proof.
  unfold sql_first. split.
  - intros H r Hr. destruct (P r) eqn:E; [|done].
    assert (r ∈ sql_select P rows) as Hin by by apply elem_of_select.
    destruct (sql_select P rows); [by apply elem_of_nil in Hin|done].
  - intros H. destruct (sql_select P rows) as [|r l] eqn:E; [done|].
    assert (r ∈ sql_select P rows) as [Hr HP]%elem_of_select by (rewrite E; left).
    by rewrite H in HP.
Qed.

Lemma sql_count_zero P rows : (sql_count P rows =? 0)%Z = true ↔ ∀ r, r ∈ rows → P r = false.
Proof.
  rewrite <- sql_first_None. unfold sql_count, sql_first.
  destruct (sql_select P rows); [done|]. split; [|done].
  rewrite Z.eqb_eq. cbn [length]. lia.
Qed.

(** The columns a statement does not set stay. *)
Lemma update_column {A} (g : R → A) P f rows :
  (∀ r, g (f r) = g r) → g <$> sql_update P f rows = g <$> rows.
Proof.
  intros Hg. unfold sql_update. rewrite <- list_fmap_compose. apply list_fmap_ext.
  intros _ r _. cbn. case_match; auto.
Qed.

Lemma delete_sublist P rows : sql_delete P rows `sublist_of` rows.
Proof. apply sublist_filter. Qed.

Lemma Forall_delete (Q : R → Prop) P rows : Forall Q rows → Forall Q (sql_delete P rows).
Proof. rewrite !Forall_forall. intros H r [Hr _]%elem_of_delete. auto. Qed.

(** With distinct keys a row is found by its key. *)
Lemma sql_first_unique {A} (g : R → A) P rows r :
  NoDup (g <$> rows) → r ∈ rows → P r = true →
  (∀ r', r' ∈ rows → P r' = true → g r' = g r) → sql_first P rows = Some r.
Proof.
  intros Hnd Hr HP Hu. unfold sql_first.
  assert (∀ r', r' ∈ sql_select P rows → g r' = g r) as Hall.
  { intros r' [? ?]%elem_of_select. auto. }
  assert (r ∈ sql_select P rows) as Hin by by apply elem_of_select.
  assert (NoDup (g <$> sql_select P rows)) as Hnd'.
  { eapply sublist_NoDup; [exact Hnd|]. apply fmap_sublist, sublist_filter. }
  destruct (sql_select P rows) as [|x l]; [by apply elem_of_nil in Hin|]. cbn. f_equal.
  apply elem_of_cons in Hin as [->|Hin]; [done|]. exfalso.
  csimpl in Hnd'. apply NoDup_cons in Hnd' as [Hn _]. apply Hn. rewrite (Hall x) by left.
  apply list_elem_of_fmap. exists r. split; [|done]. symmetry. apply Hall. by right.
Qed.
End table.

(** ** Sorted columns *)

Lemma StronglySorted_sublist {A} (R : A → A → Prop) l k :
  l `sublist_of` k → StronglySorted R k → StronglySorted R l.
Proof.
  induction 1 as [|x l k Hs IH|x l k Hs IH]; intros H; [done| |]; inversion_clear H as [|? ? Hk Hx].
  - constructor; [auto|]. rewrite Forall_forall in Hx |- *. intros y Hy. apply Hx.
    by eapply sublist_subseteq.
  - auto.
Qed.

Lemma StronglySorted_snoc {A} (R : A → A → Prop) l x :
  StronglySorted R l → Forall (λ y, R y x) l → StronglySorted R (l ++ [x]).
Proof.
  induction 1 as [|y l Hs IH Hy]; intros Hx; cbn; [repeat constructor|].
  apply Forall_cons in Hx as [? ?]. constructor; [auto|]. apply Forall_app. by split; [|constructor].
Qed.
