(* ===== verification/UploadQueue.v ===== *)
(** * The upload queue (src/src/ate_platform/offline/upload_queue.py)

    Records of finished executions wait in a SQLite table until the cloud acknowledges
    them: [pending], then [uploaded], then [acked], kept for a retention period after that.
    Each call is one committed statement, so the table of any reachable state is also what a
    crash leaves behind. Times are integer ticks of [time.time()]. *)

From S2P Require Import Prelude PyDict PyStr Sql.

Inductive UploadState : Type := StPending | StUploaded | StAcked.
#[export] Instance UploadState_eq_dec : EqDecision UploadState.
Proof. solve_decision. Defined.

Record UploadRecord : Type := mkRecord {
  ur_id : Z;
  ur_station_id : string;
  ur_execution_id : string;
  ur_seq_no : Z;
  ur_state : UploadState;
  ur_payload_path : string;
  ur_retries : Z;
  ur_created_at : Z;
  ur_uploaded_at : option Z;
  ur_acked_at : option Z;
  ur_retained_until : option Z
}.

#[export] Instance UploadRecord_eq_dec : EqDecision UploadRecord.
Proof. solve_decision. Defined.

(** [7 * 24 * 3600.0] seconds, in milliseconds. *)
Definition DEFAULT_RETENTION_SECONDS : Z := 7 * 24 * 3600 * 1000.
Definition SCHEMA_VERSION : Z := 1.

(** A database file: its schema version, the rows by id, and the AUTOINCREMENT counter. *)
Record QueueDb : Type := mkDb {
  db_user_version : Z;
  db_rows : list UploadRecord;
  db_last_id : Z
}.
Definition empty_db : QueueDb := mkDb 0 [] 0.

Record UploadQueue : Type := mkQueue {
  uq_db : QueueDb;
  uq_retention : Z
}.

Definition uq_rows (q : UploadQueue) : list UploadRecord := db_rows (uq_db q).
Definition set_rows (rows : list UploadRecord) (q : UploadQueue) : UploadQueue :=
  mkQueue (mkDb (db_user_version (uq_db q)) rows (db_last_id (uq_db q))) (uq_retention q).

Definition newer_schema_error (path : string) (current : Z) : exc :=
  CustomError "UploadQueueError" ("upload queue db at " +:+ path +:+ " has schema v" +:+ pretty current
    +:+ ", but this code only understands v" +:+ pretty SCHEMA_VERSION).

(** [__init__] on the file at [path]: the table is created only if it is missing. *)
Definition open_queue (path : string) (retention_seconds : Z) (db : QueueDb) : res UploadQueue :=
  if (retention_seconds <? 0)%Z then Raise (ValueError "retention_seconds must be >= 0")
  else if (SCHEMA_VERSION <? db_user_version db)%Z
  then Raise (newer_schema_error path (db_user_version db))
  else
    let version := if (db_user_version db =? 0)%Z then SCHEMA_VERSION else db_user_version db in
    Ok (mkQueue (mkDb version (db_rows db) (db_last_id db)) retention_seconds).

Definition has_id (id : Z) (r : UploadRecord) : bool := (ur_id r =? id)%Z.
Definition in_state (s : UploadState) (r : UploadRecord) : bool := bool_decide (ur_state r = s).
Definition has_record_key (station execution : string) (seq : Z) (r : UploadRecord) : bool :=
  bool_decide (ur_station_id r = station) && bool_decide (ur_execution_id r = execution)
  && (ur_seq_no r =? seq)%Z.

Definition enqueue (station_id execution_id : string) (seq_no : Z) (payload_path : string) (now : Z) :
    M UploadQueue UploadRecord :=
  if decide (payload_path = "") then raise (ValueError "payload_path must be a non-empty str")
  else
    q <- get ;;
    match sql_first (has_record_key station_id execution_id seq_no) (uq_rows q) with
    | Some existing => ret existing
    | None =>
        let id := (db_last_id (uq_db q) + 1)%Z in
        let row := mkRecord id station_id execution_id seq_no StPending payload_path 0 now
                     None None None in
        put (mkQueue (mkDb (db_user_version (uq_db q)) (uq_rows q ++ [row]) id) (uq_retention q)) ;;;
        q' <- get ;;
        match sql_first (has_id id) (uq_rows q') with
        | Some r => ret r
        | None => raise (TypeError "'NoneType' object is not subscriptable")
        end
    end.

(** An UPDATE, and whether it changed a row. *)
Definition update_where (P : UploadRecord → bool) (f : UploadRecord → UploadRecord) : M UploadQueue bool :=
  q <- get ;;
  modify (set_rows (sql_update P f (uq_rows q))) ;;;
  ret (0 <? sql_count P (uq_rows q))%Z.

Definition set_uploaded (now : Z) (r : UploadRecord) : UploadRecord :=
  mkRecord (ur_id r) (ur_station_id r) (ur_execution_id r) (ur_seq_no r) StUploaded (ur_payload_path r)
    (ur_retries r) (ur_created_at r) (Some now) (ur_acked_at r) (ur_retained_until r).
Definition set_acked (now retained : Z) (r : UploadRecord) : UploadRecord :=
  mkRecord (ur_id r) (ur_station_id r) (ur_execution_id r) (ur_seq_no r) StAcked (ur_payload_path r)
    (ur_retries r) (ur_created_at r) (ur_uploaded_at r) (Some now) (Some retained).
Definition add_retry (r : UploadRecord) : UploadRecord :=
  mkRecord (ur_id r) (ur_station_id r) (ur_execution_id r) (ur_seq_no r) (ur_state r) (ur_payload_path r)
    (ur_retries r + 1) (ur_created_at r) (ur_uploaded_at r) (ur_acked_at r) (ur_retained_until r).

Definition mark_uploaded (record_id now : Z) : M UploadQueue bool :=
  update_where (λ r, has_id record_id r && in_state StPending r) (set_uploaded now).
Definition mark_acked (record_id now : Z) : M UploadQueue bool :=
  retention <- gets uq_retention ;;
  update_where (λ r, has_id record_id r && negb (in_state StAcked r))
    (set_acked now (now + retention)).
Definition record_retry (record_id : Z) : M UploadQueue bool :=
  update_where (has_id record_id) add_retry.

(** [state = 'acked' AND retained_until <= ts]; a NULL is not. *)
Definition expired (ts : Z) (r : UploadRecord) : bool :=
  in_state StAcked r &&
  match ur_retained_until r with Some t => (t <=? ts)%Z | None => false end.

Definition purge_expired (now : option Z) (clock : Z) : M UploadQueue Z :=
  let ts := default clock now in
  q <- get ;;
  modify (set_rows (sql_delete (expired ts) (uq_rows q))) ;;;
  ret (sql_count (expired ts) (uq_rows q)).

Definition queue_get (record_id : Z) (q : UploadQueue) : option UploadRecord :=
  sql_first (has_id record_id) (uq_rows q).
Definition list_pending (q : UploadQueue) : list UploadRecord :=
  sql_select (in_state StPending) (uq_rows q).
Definition list_all (q : UploadQueue) : list UploadRecord := uq_rows q.

(** [stats]: the counts per state and their sum. *)
Definition queue_stats (q : UploadQueue) : Z * Z * Z * Z :=
  let count s := sql_count (in_state s) (uq_rows q) in
  (count StPending, count StUploaded, count StAcked,
   count StPending + count StUploaded + count StAcked)%Z.

(** ** Histories *)

Inductive queue_op : Type :=
  | OpEnqueue (station execution : string) (seq : Z) (payload : string) (now : Z)
  | OpUploaded (id now : Z)
  | OpAcked (id now : Z)
  | OpRetry (id : Z)
  | OpPurge (now : option Z) (clock : Z)
  | OpRestart (path : string).   (* a crash, and the file opened again *)

Definition run_op (op : queue_op) (q : UploadQueue) : UploadQueue :=
  match op with
  | OpEnqueue s e n p now => (enqueue s e n p now q).2
  | OpUploaded id now => (mark_uploaded id now q).2
  | OpAcked id now => (mark_acked id now q).2
  | OpRetry id => (record_retry id q).2
  | OpPurge now clock => (purge_expired now clock q).2
  | OpRestart path =>
      match open_queue path (uq_retention q) (uq_db q) with Ok q' => q' | Raise _ => q end
  end.

Definition run_ops (ops : list queue_op) (q : UploadQueue) : UploadQueue :=
  foldl (λ q op, run_op op q) q ops.

(** The columns a state allows. *)
Definition row_ok (retention : Z) (r : UploadRecord) : Prop :=
  (0 ≤ ur_retries r)%Z ∧ ur_payload_path r ≠ "" ∧
  match ur_state r with
  | StPending => ur_uploaded_at r = None ∧ ur_acked_at r = None ∧ ur_retained_until r = None
  | StUploaded => is_Some (ur_uploaded_at r) ∧ ur_acked_at r = None ∧ ur_retained_until r = None
  | StAcked => ∃ t, ur_acked_at r = Some t ∧ ur_retained_until r = Some (t + retention)%Z
  end.

Definition record_key (r : UploadRecord) : string * string * Z :=
  (ur_station_id r, ur_execution_id r, ur_seq_no r).

Record queue_ok (q : UploadQueue) : Prop := {
  qo_ids : StronglySorted Z.lt (ur_id <$> uq_rows q);
  qo_range : Forall (λ r, (0 < ur_id r ≤ db_last_id (uq_db q))%Z) (uq_rows q);
  qo_next : (0 ≤ db_last_id (uq_db q))%Z;
  qo_keys : NoDup (record_key <$> uq_rows q);
  qo_rows : Forall (row_ok (uq_retention q)) (uq_rows q)
}.

Lemma has_record_key_true s e n r : has_record_key s e n r = true ↔ record_key r = (s, e, n).
Proof.
  unfold has_record_key, record_key. rewrite !andb_true_iff, !bool_decide_eq_true, Z.eqb_eq.
  naive_solver.
Qed.

Lemma sorted_ids_nodup q : queue_ok q → NoDup (ur_id <$> uq_rows q).
Proof.
  intros [Hs _ _ _ _]. induction Hs as [|x l Hs IH Hx]; [constructor|]. constructor; [|done].
  intros Hin. rewrite Forall_forall in Hx. specialize (Hx x Hin). lia.
Qed.

Lemma queue_get_row q r : queue_ok q → r ∈ uq_rows q → queue_get (ur_id r) q = Some r.
Proof.
  intros Hq Hr. apply (sql_first_unique ur_id); [by apply sorted_ids_nodup|done| |].
  - apply Z.eqb_refl.
  - intros r' _ E. by apply Z.eqb_eq in E.
Qed.

(** An UPDATE that keeps ids and keys keeps the invariant if it keeps the columns right. *)
Lemma update_ok P f q :
  (∀ r, ur_id (f r) = ur_id r) → (∀ r, record_key (f r) = record_key r) →
  (∀ r, P r = true → row_ok (uq_retention q) r → row_ok (uq_retention q) (f r)) →
  queue_ok q → queue_ok (update_where P f q).2.
Proof.
  intros Hid Hkey Hrow [Hs Hr Hn Hk Hok]. unfold update_where. rewrite bind_get. cbn.
  split; cbn; [|clear Hs|done| |].
  - unfold uq_rows. by rewrite update_column.
  - apply Forall_fmap. eapply Forall_impl; [exact Hr|]. cbn. intros r. case_match; by rewrite ?Hid.
  - by rewrite update_column.
  - apply Forall_fmap. eapply Forall_impl; [exact Hok|]. cbn. intros r. case_match; auto.
Qed.

Lemma mark_uploaded_ok id now q : queue_ok q → queue_ok (mark_uploaded id now q).2.
Proof.
  apply update_ok; [done..|]. intros r [_ Hp]%andb_true_iff (? & ? & Hst).
  apply bool_decide_eq_true in Hp. rewrite Hp in Hst. destruct Hst as (_ & ? & ?).
  split_and!; [done..|]. cbn. eauto.
Qed.

Lemma mark_acked_ok id now q : queue_ok q → queue_ok (mark_acked id now q).2.
Proof.
  intros Hq. unfold mark_acked, bind, gets. apply update_ok; [done..| |done].
  intros r _ (? & ? & _). split_and!; [done..|]. cbn. eauto.
Qed.

Lemma record_retry_ok id q : queue_ok q → queue_ok (record_retry id q).2.
Proof.
  apply update_ok; [done..|]. intros r _ (? & ? & Hst). split_and!; [cbn; lia|done|]. exact Hst.
Qed.

Lemma purge_expired_ok now clock q : queue_ok q → queue_ok (purge_expired now clock q).2.
Proof.
  intros [Hs Hr Hn Hk Hok]. unfold purge_expired. rewrite bind_get. cbn.
  pose proof (delete_sublist (expired (default clock now)) (uq_rows q)) as Hsub.
  split; cbn; [|by apply Forall_delete|done| |by apply Forall_delete].
  - eapply StronglySorted_sublist; [|exact Hs]. by apply fmap_sublist.
  - eapply sublist_NoDup; [exact Hk|]. by apply fmap_sublist.
Qed.

(** ** Enqueueing *)

Lemma enqueue_spec s e n p now q :
  queue_ok q →
  match enqueue s e n p now q with
  | (Ok r, q') =>
      p ≠ "" ∧ record_key r = (s, e, n) ∧ queue_ok q' ∧
      (q' = q ∧ r ∈ uq_rows q
       ∨ (∀ r', r' ∈ uq_rows q → record_key r' ≠ (s, e, n)) ∧ uq_rows q' = uq_rows q ++ [r]
         ∧ ur_state r = StPending ∧ ur_payload_path r = p)
  | (Raise err, q') => p = "" ∧ err = ValueError "payload_path must be a non-empty str" ∧ q' = q
  end.
Proof.
  intros Hq. unfold enqueue. case_decide as Hp; [done|]. rewrite bind_get.
  destruct (sql_first _ (uq_rows q)) as [r|] eqn:Hf.
  { apply sql_first_Some in Hf as [Hr Hk%has_record_key_true]. cbn. split_and!; [done..|]. by left. }
  rewrite sql_first_None in Hf.
  assert (∀ r', r' ∈ uq_rows q → record_key r' ≠ (s, e, n)) as Hfresh.
  { intros r' Hr' Hk%has_record_key_true. by rewrite (Hf _ Hr') in Hk. }
  rewrite bind_unit by done. cbn [put snd]. rewrite bind_get.
  set (row := mkRecord _ _ _ _ _ _ _ _ _ _ _). set (q' := mkQueue _ _).
  assert (queue_ok q') as Hq'.
  { destruct Hq as [Hs Hr Hn Hk Hok]. split; unfold q'; cbn.
    - rewrite fmap_app. clear -Hs Hr. revert Hr Hs. unfold uq_rows. generalize (db_rows (uq_db q)).
      intros l Hr. induction Hr as [|x l Hx Hl IH]; intros Hs; [repeat constructor|].
      csimpl in *. inversion_clear Hs as [|? ? Hs' Hx']. constructor; [auto|].
      apply Forall_app. split; [done|]. constructor; [cbn; lia|done].
    - apply Forall_app. split; [|by constructor; [cbn; lia|]].
      eapply Forall_impl; [exact Hr|]. cbn. lia.
    - lia.
    - rewrite fmap_app. apply NoDup_app. split_and!; [done| |apply NoDup_singleton].
      intros k (r & E1 & Hr')%list_elem_of_fmap E2%list_elem_of_singleton.
      apply (Hfresh r Hr'). by rewrite <- E1, E2.
    - apply Forall_app. split; [done|]. by constructor. }
  assert (sql_first (has_id (db_last_id (uq_db q) + 1)) (uq_rows q') = Some row) as ->.
  { apply (queue_get_row q' row); [done|]. apply elem_of_app. right. left. }
  cbn. split_and!; [done..|]. right. by split.
Qed.

Lemma enqueue_ok s e n p now q : queue_ok q → queue_ok (enqueue s e n p now q).2.
Proof.
  intros Hq. pose proof (enqueue_spec s e n p now q Hq) as H.
  destruct (enqueue _ _ _ _ _ q) as [[r|err] q']; [by destruct H as (_ & _ & ? & _)|].
  by destruct H as (_ & _ & ->).
Qed.

Lemma open_queue_ok path retention db q :
  open_queue path retention db = Ok q →
  uq_rows q = db_rows db ∧ db_last_id (uq_db q) = db_last_id db ∧ uq_retention q = retention.
Proof. unfold open_queue. repeat case_match; intros; by simplify_eq. Qed.

Lemma restart_ok path q : queue_ok q → queue_ok (run_op (OpRestart path) q).
Proof.
  intros [Hs Hr Hn Hk Hok]. cbn. destruct (open_queue _ _ _) as [q'|e] eqn:E; [|done].
  apply open_queue_ok in E as (H1 & H2 & H3). unfold uq_rows in *.
  by split; unfold uq_rows; rewrite ?H1, ?H2, ?H3.
Qed.

Lemma run_op_ok op q : queue_ok q → queue_ok (run_op op q).
Proof.
  destruct op; [apply enqueue_ok|apply mark_uploaded_ok|apply mark_acked_ok|apply record_retry_ok|
    apply purge_expired_ok|apply restart_ok].
Qed.

Lemma open_empty_ok path retention q : open_queue path retention empty_db = Ok q → queue_ok q.
Proof.
  intros E. apply open_queue_ok in E as (H1 & H2 & _). unfold uq_rows in *.
  split; unfold uq_rows; rewrite ?H1, ?H2; cbn; solve [done|constructor].
Qed.

(** ** Nothing is lost *)

Definition state_rank (s : UploadState) : nat :=
  match s with StPending => 0 | StUploaded => 1 | StAcked => 2 end.

(** The same record, further on its way. *)
Record progress (r r' : UploadRecord) : Prop := {
  pr_id : ur_id r' = ur_id r;
  pr_key : record_key r' = record_key r;
  pr_payload : ur_payload_path r' = ur_payload_path r;
  pr_created : ur_created_at r' = ur_created_at r;
  pr_rank : state_rank (ur_state r) ≤ state_rank (ur_state r');
  pr_retries : (ur_retries r ≤ ur_retries r')%Z;
  pr_acked : ur_state r = StAcked → ur_state r' = StAcked ∧ ur_acked_at r' = ur_acked_at r
}.

Lemma progress_refl r : progress r r.
Proof. by split. Qed.
Lemma progress_trans r1 r2 r3 : progress r1 r2 → progress r2 r3 → progress r1 r3.
Proof.
  intros [] []. split; try congruence; try lia. intros H.
  destruct (pr_acked0 H) as [H2 E2]. destruct (pr_acked1 H2). split; congruence.
Qed.

(** The record was acknowledged at [t] and a purge ran when its retention was over. *)
Definition purged (ops : list queue_op) (retention : Z) (r : UploadRecord) : Prop :=
  ∃ t now clock,
    (ur_acked_at r = Some t ∨ OpAcked (ur_id r) t ∈ ops) ∧
    OpPurge now clock ∈ ops ∧ (t + retention ≤ default clock now)%Z.

Lemma update_progress P f q r :
  (∀ r, P r = true → progress r (f r)) → r ∈ uq_rows q →
  ∃ r', r' ∈ uq_rows (update_where P f q).2 ∧ progress r r' ∧ r' = if P r then f r else r.
Proof.
  intros Hf Hr. exists (if P r then f r else r). split_and!; [|case_match; auto using progress_refl|done].
  unfold update_where. rewrite bind_get. cbn. apply elem_of_update. eauto.
Qed.

(** One operation on one record: it stays, moving forward only; or it was expired and is
    purged. A new acknowledgement is one of this very operation. *)
Lemma run_op_row op q r :
  queue_ok q → r ∈ uq_rows q →
  (∃ r', r' ∈ uq_rows (run_op op q) ∧ progress r r' ∧
    ∀ t, ur_acked_at r' = Some t → ur_acked_at r = Some t ∨ op = OpAcked (ur_id r) t)
  ∨ ∃ now clock t, op = OpPurge now clock ∧ ur_acked_at r = Some t
      ∧ (t + uq_retention q ≤ default clock now)%Z.
Proof.
  intros Hq Hr. destruct op as [s e n p now|id now|id now|id|now clock|path].
  - left. exists r. split_and!; [|apply progress_refl|by left]. cbn.
    pose proof (enqueue_spec s e n p now q Hq) as H.
    destruct (enqueue s e n p now q) as [[r0|err] q'].
    + destruct H as (_ & _ & _ & [[-> _]|(_ & H & _)]); [done|]. cbn. rewrite H.
      apply elem_of_app. by left.
    + by destruct H as (_ & _ & ->).
  - left. destruct (update_progress (λ r, has_id id r && in_state StPending r) (set_uploaded now) q r)
      as (r' & ? & ? & ->); [|done|].
    { intros r0 [_ Hp]%andb_true_iff. apply bool_decide_eq_true in Hp.
      split; try done; cbn; rewrite Hp; [cbn; lia|done]. }
    eexists. split_and!; [done..|]. intros t. case_match; by left.
  - left. destruct (update_progress (λ r, has_id id r && negb (in_state StAcked r))
      (set_acked now (now + uq_retention q)) q r) as (r' & ? & ? & ->); [|done|].
    { intros r0 [_ Hp]%andb_true_iff. apply negb_true_iff, bool_decide_eq_false in Hp.
      split; try done; cbn. destruct (ur_state r0); cbn; lia. }
    eexists. split_and!; [done..|]. intros t. case_match eqn:E; [|by left]. cbn. intros [= ->].
    right. apply andb_true_iff in E as [E _]. apply Z.eqb_eq in E. by rewrite E.
  - left. destruct (update_progress (has_id id) add_retry q r) as (r' & ? & ? & ->); [|done|].
    { intros r0 _. split; try done; cbn; lia. }
    eexists. split_and!; [done..|]. intros t. case_match; by left.
  - destruct (expired (default clock now) r) eqn:He.
    + right. apply andb_true_iff in He as [Hs He]. apply bool_decide_eq_true in Hs.
      pose proof (qo_rows _ Hq) as Hrows. rewrite Forall_forall in Hrows.
      destruct (Hrows r Hr) as (_ & _ & Hst). rewrite Hs in Hst. destruct Hst as (t & Ht & Hret).
      rewrite Hret in He. exists now, clock, t. split_and!; [done..|lia].
    + left. exists r. split_and!; [|apply progress_refl|by left].
      change (r ∈ sql_delete (expired (default clock now)) (uq_rows q)). by apply elem_of_delete.
  - left. exists r. split_and!; [|apply progress_refl|by left]. cbn.
    destruct (open_queue _ _ _) as [q'|err] eqn:E; [|done].
    apply open_queue_ok in E as (E & _ & _). by rewrite E.
Qed.

Lemma run_op_retention op q : uq_retention (run_op op q) = uq_retention q.
Proof.
  destruct op; try done; cbn.
  - unfold enqueue. case_decide; [done|]. rewrite bind_get. case_match; [done|].
    rewrite bind_unit by done. cbn [put snd]. rewrite bind_get. by case_match.
  - destruct (open_queue _ _ _) eqn:E; [|done]. by apply open_queue_ok in E as (_ & _ & ->).
Qed.

Lemma run_ops_row ops q r :
  queue_ok q → r ∈ uq_rows q →
  queue_ok (run_ops ops q) ∧
  ((∃ r', r' ∈ uq_rows (run_ops ops q) ∧ progress r r' ∧
     ∀ t, ur_acked_at r' = Some t → ur_acked_at r = Some t ∨ OpAcked (ur_id r) t ∈ ops)
   ∨ purged ops (uq_retention q) r).
Proof.
  revert q r. induction ops as [|op ops IH]; intros q r Hq Hr.
  { split; [done|]. left. exists r. split_and!; [done|apply progress_refl|by left]. }
  cbn. pose proof (run_op_ok op q Hq) as Hq1.
  destruct (run_op_row op q r Hq Hr) as [(r1 & Hr1 & Hp1 & Ha1)|(now & clock & t & -> & Ht & Hle)].
  - destruct (IH _ r1 Hq1 Hr1) as [? [(r' & ? & Hp' & Ha')|(t & now & clock & Ht & Hpu & Hle)]];
      (split; [done|]).
    + left. exists r'. split_and!; [done|by eapply progress_trans|].
      intros t Ht. destruct (Ha' t Ht) as [H1|H1].
      * destruct (Ha1 t H1) as [?| ->]; [by left|right; left].
      * right. rewrite (pr_id _ _ Hp1) in H1. by right.
    + right. exists t, now, clock. rewrite run_op_retention in Hle. split_and!; [|by right|done].
      destruct Ht as [Ht|Ht].
      * destruct (Ha1 t Ht) as [?| ->]; [by left|right; left].
      * right. rewrite (pr_id _ _ Hp1) in Ht. by right.
  - assert (∀ q, queue_ok q → queue_ok (run_ops ops q)) as Hok.
    { clear. induction ops as [|op ops IH]; intros q Hq; [done|]. by apply IH, run_op_ok. }
    split; [by apply Hok|]. right. exists t, now, clock. split_and!; [by left|left|done].
Qed.

(** C23. No unacknowledged record is lost, whatever happens: after any sequence of queue
    operations, crashes and restarts, a record that was in the queue is still there with its
    id, key, payload and creation time, at the same or a later state, or it had been
    acknowledged and a purge ran after its retention period. The queue stays well formed. *)
Theorem queue_no_loss (ops : list queue_op) (q : UploadQueue) (r : UploadRecord)
  (Hq : queue_ok q) (Hr : r ∈ uq_rows q) :
  queue_ok (run_ops ops q) ∧
  ((∃ r', r' ∈ uq_rows (run_ops ops q) ∧ progress r r') ∨ purged ops (uq_retention q) r).
Proof.
  destruct (run_ops_row ops q r Hq Hr) as [H1 [(r' & ? & ? & _)|?]]; split; eauto.
Qed.

(** Enqueueing is idempotent per (station, execution, sequence number): a first call
    appends one PENDING record under a fresh id, any later call with the same key, whatever
    its payload and however far the record has come, returns the record and changes
    nothing; an empty payload path is refused. *)
Theorem enqueue_idempotent (s e p p' : string) (n now now' : Z) (q : UploadQueue) (Hq : queue_ok q) :
  match enqueue s e n p now q with
  | (Ok r, q') =>
      record_key r = (s, e, n) ∧ queue_ok q'
      ∧ (q' = q ∨ uq_rows q' = uq_rows q ++ [r] ∧ ur_state r = StPending
         ∧ ∀ r', r' ∈ uq_rows q → (ur_id r' < ur_id r)%Z ∧ record_key r' ≠ record_key r)
      ∧ (p' ≠ "" → enqueue s e n p' now' q' = (Ok r, q'))
  | (Raise err, q') => p = "" ∧ q' = q
  end.
Proof.
  pose proof (enqueue_spec s e n p now q Hq) as H.
  destruct (enqueue s e n p now q) as [[r|err] q']; [|by destruct H as (? & _ & ?)].
  destruct H as (_ & Hk & Hq' & H). split_and!; [done..| |].
  - destruct H as [[-> _]|(Hfresh & Hrows & Hst & _)]; [by left|]. right. split_and!; [done..|].
    intros r' Hr'. split; [|rewrite Hk; by apply Hfresh].
    pose proof (qo_ids _ Hq') as Hs. rewrite Hrows, fmap_app in Hs.
    clear -Hs Hr'. induction (uq_rows q) as [|x l IH]; [by apply elem_of_nil in Hr'|].
    csimpl in Hs. inversion_clear Hs as [|? ? Hs' Hx]. apply elem_of_cons in Hr' as [->|Hr'].
    + rewrite Forall_forall in Hx. apply Hx, elem_of_app. right. by apply list_elem_of_singleton.
    + by apply IH.
  - intros Hp. pose proof (enqueue_spec s e n p' now' q' Hq') as H'.
    assert (r ∈ uq_rows q') as Hr.
    { destruct H as [[-> ?]|(_ & -> & _)]; [done|]. apply elem_of_app. right; left. }
    destruct (enqueue s e n p' now' q') as [[r2|err] q2]; [|by destruct H' as [? _]].
    destruct H' as (_ & Hk2 & _ & [[-> Hr2]|(Hf & _)]); [|by destruct (Hf r Hr)].
    do 2 f_equal. pose proof (qo_keys _ Hq') as Hnd.
    apply list_elem_of_lookup in Hr as [i Hi]. apply list_elem_of_lookup in Hr2 as [j Hj].
    assert (i = j) as ->; [|congruence].
    eapply (NoDup_lookup _ _ _ (record_key r) Hnd); rewrite list_lookup_fmap.
    + by rewrite Hi.
    + by rewrite Hj, <- Hk2 in * ; cbn; congruence.
Qed.

(** The totals [stats] reports. *)
Lemma stats_total q :
  let '(p, u, a, total) := queue_stats q in
  total = Z.of_nat (length (uq_rows q)) ∧ p = Z.of_nat (length (list_pending q)).
Proof.
  split; [|done]. induction (uq_rows q) as [|r l IH]; [done|]. rewrite !sql_count_cons.
  assert (in_state StPending r = bool_decide (ur_state r = StPending)
    ∧ in_state StUploaded r = bool_decide (ur_state r = StUploaded)
    ∧ in_state StAcked r = bool_decide (ur_state r = StAcked)) as (-> & -> & ->) by done.
  cbn [length]. destruct (ur_state r); cbn [bool_decide]; repeat (case_bool_decide; [|done]);
    repeat case_bool_decide; try done; lia.
Qed.

Definition example_queue : UploadQueue :=
  match open_queue "q.db" 100 empty_db with Ok q => q | Raise _ => mkQueue empty_db 0 end.

(** Three executions; the second is acknowledged, a crash, a purge too early and one in time. *)
Definition example_history : list queue_op :=
  [OpEnqueue "st" "e1" 1 "a.jsonl" 5; OpEnqueue "st" "e2" 1 "b.jsonl" 6; OpUploaded 2 7;
   OpAcked 2 8; OpRestart "q.db"; OpEnqueue "st" "e2" 1 "c.jsonl" 9; OpPurge (Some 50) 0;
   OpRetry 1; OpPurge None 108]%Z.

Example history_result :
  (λ r, (ur_id r, ur_execution_id r, ur_state r, ur_retries r)) <$> uq_rows (run_ops example_history example_queue)
  = [(1, "e1", StPending, 1)]%Z.
Proof. vm_compute. reflexivity. Qed.

Lemma example_queue_ok : queue_ok example_queue.
Proof. by apply (open_empty_ok "q.db" 100). Qed.

Lemma queue_no_loss_witness :
  let q := run_ops (take 4 example_history) example_queue in
  ∃ r, r ∈ uq_rows q ∧ ur_state r = StAcked ∧ purged (drop 4 example_history) 100 r.
Proof.
  intros q. assert (queue_ok q) as Hq.
  { unfold q, run_ops, example_history. cbn [take foldl]. do 4 apply run_op_ok. apply example_queue_ok. }
  set (r := default (mkRecord 0 "" "" 0 StPending "" 0 0 None None None) (uq_rows q !! 1%nat)).
  assert (r ∈ uq_rows q) as Hr by (vm_compute; right; left).
  exists r. split; [exact Hr|]. split; [vm_compute; reflexivity|].
  destruct (queue_no_loss (drop 4 example_history) q r Hq Hr) as [_ [(r' & Hr' & [Hid])|H]].
  - exfalso. vm_compute in Hr', Hid. apply list_elem_of_singleton in Hr'. rewrite Hr' in Hid. discriminate.
  - exact H.
Defined.

Lemma enqueue_idempotent_witness :
  ∃ r q', enqueue "st" "e1" 1 "a.jsonl" 5 example_queue = (Ok r, q')
  ∧ enqueue "st" "e1" 1 "b.jsonl" 9 q' = (Ok r, q').
Proof.
  pose proof (enqueue_idempotent "st" "e1" "a.jsonl" "b.jsonl" 1 5 9 example_queue example_queue_ok) as H.
  destruct (enqueue _ _ _ "a.jsonl" _ _) as [[r|err] q'] eqn:E; [|vm_compute in E; discriminate].
  exists r, q'. split; [reflexivity|]. apply H. discriminate.
Defined.
