(* ===== verification/CacheStore.v ===== *)
(** * The offline cache (src/src/ate_platform/offline/cache_store.py)

    Versions of test sequences and fixture topologies kept for offline runs, in two SQLite
    tables. A version is usable only while its checksum matches and after the cloud has
    acknowledged it. Times are integer ticks of [time.time()]; SHA-256 is a parameter. *)

From S2P Require Import Prelude PyDict PyStr Sql.

Inductive CacheState : Type := StateCached | StateAcked.
#[export] Instance CacheState_eq_dec : EqDecision CacheState.
Proof. solve_decision. Defined.

Definition KIND_SEQUENCE : string := "sequence".
Definition KIND_TOPOLOGY : string := "topology".

Record CacheRow : Type := mkRow {
  cr_rowid : Z;
  cr_id : string;
  cr_version : string;
  cr_payload : string;
  cr_checksum : string;
  cr_state : CacheState;
  cr_created_at : Z;
  cr_acked_at : option Z
}.

Record EntryStatus : Type := mkStatus {
  es_kind : string;
  es_id : string;
  es_version : string;
  es_state : CacheState;
  es_checksum : string;
  es_created_at : Z;
  es_acked_at : option Z
}.

(** The two tables, each in rowid order. *)
Record OfflineCacheStore : Type := mkStore {
  oc_sequences : list CacheRow;
  oc_topologies : list CacheRow
}.
Definition empty_store : OfflineCacheStore := mkStore [] [].

Inductive Table : Type := Sequences | Topologies.
#[export] Instance Table_eq_dec : EqDecision Table.
Proof. solve_decision. Defined.

Definition rows_of (t : Table) (c : OfflineCacheStore) : list CacheRow :=
  match t with Sequences => oc_sequences c | Topologies => oc_topologies c end.
Definition set_table (t : Table) (rows : list CacheRow) (c : OfflineCacheStore) : OfflineCacheStore :=
  match t with
  | Sequences => mkStore rows (oc_topologies c)
  | Topologies => mkStore (oc_sequences c) rows
  end.
Definition kind_of (t : Table) : string :=
  match t with Sequences => KIND_SEQUENCE | Topologies => KIND_TOPOLOGY end.

(** [_resolve_table] *)
Definition resolve_table (kind : string) : res Table :=
  if decide (kind = KIND_SEQUENCE) then Ok Sequences
  else if decide (kind = KIND_TOPOLOGY) then Ok Topologies
  else Raise (ValueError ("unknown cache kind: " +:+ repr_str kind +:+ " (expected "
                +:+ repr_strs (py_sorted [KIND_SEQUENCE; KIND_TOPOLOGY]) +:+ ")")).

Definition has_entry (id version : string) (r : CacheRow) : bool :=
  bool_decide (cr_id r = id) && bool_decide (cr_version r = version).
Definition has_entry_id (id : string) (r : CacheRow) : bool := bool_decide (cr_id r = id).

(** [ORDER BY created_at DESC, rowid DESC], and with [id] first. *)
Definition newer (r r' : CacheRow) : Prop :=
  (cr_created_at r' < cr_created_at r ∨ cr_created_at r' = cr_created_at r ∧ cr_rowid r' ≤ cr_rowid r)%Z.
Definition listed_before (r r' : CacheRow) : Prop :=
  if decide (cr_id r = cr_id r') then newer r r' else String.le (cr_id r) (cr_id r').
#[export] Instance newer_dec : RelDecision newer.
Proof. intros r r'. unfold newer. apply _. Defined.
#[export] Instance listed_before_dec : RelDecision listed_before.
Proof. intros r r'. unfold listed_before. case_decide; apply _. Defined.

Definition newest_first (rows : list CacheRow) : list CacheRow := merge_sort newer rows.
Definition by_entry (rows : list CacheRow) : list CacheRow := merge_sort listed_before rows.

(** The rowid of a new row: one more than the largest. *)
Definition next_rowid (rows : list CacheRow) : Z := (foldr Z.max 0 (cr_rowid <$> rows) + 1)%Z.

Definition entry_name (kind id : string) : string := kind +:+ "/" +:+ id.
Definition CacheMissError (kind id : string) : exc :=
  CustomError "CacheMissError" (entry_name kind id +:+ ": no cached versions").
Definition VersionMismatchError (kind id version : string) : exc :=
  CustomError "VersionMismatchError" (entry_name kind id +:+ "@" +:+ version +:+ ": version never cached").
Definition CorruptionError (kind id version : string) : exc :=
  CustomError "CorruptionError" (entry_name kind id +:+ "@" +:+ version
    +:+ ": checksum mismatch — refusing to serve").
Definition NotAckedError (kind id version : string) : exc :=
  CustomError "NotAckedError" (entry_name kind id +:+ "@" +:+ version
    +:+ ": cached but not cloud-ACKed; not usable offline (doc §10.5.4.1)").

Section cache.
Context (sha256_checksum : string → string).

(** The checksum [s[:12]] of a message. *)
Definition prefix12 (s : string) : string := String.substring 0 12 s.

(** A checksum given by the caller must be the computed one. *)
Definition check_checksum (kind entry_id version : string) (checksum : option string) (computed : string) :
    M OfflineCacheStore unit :=
  match checksum with
  | Some provided =>
      if decide (provided = computed) then ret tt
      else raise (ValueError ("checksum mismatch for " +:+ entry_name kind entry_id +:+ "@" +:+ version
             +:+ ": provided " +:+ prefix12 provided +:+ "… != computed " +:+ prefix12 computed +:+ "…"))
  | None => ret tt
  end.

(** [_store] *)
Definition store (kind entry_id version payload : string) (checksum : option string) (now : Z) :
    M OfflineCacheStore unit :=
  let computed := sha256_checksum payload in
  check_checksum kind entry_id version checksum computed ;;;
  table <- lift (resolve_table kind) ;;
  rows <- gets (rows_of table) ;;
  let fresh := mkRow (next_rowid rows) entry_id version payload computed StateCached now None in
  match sql_first (has_entry entry_id version) rows with
  | Some row =>
      if decide (cr_payload row = payload ∧ cr_checksum row = computed) then ret tt
      else modify (set_table table (sql_delete (has_entry entry_id version) rows ++ [fresh]))
  | None => modify (set_table table (rows ++ [fresh]))
  end.

Definition store_sequence (seq_id version payload : string) (checksum : option string) (now : Z) :=
  store KIND_SEQUENCE seq_id version payload checksum now.
Definition store_topology (topo_id version payload : string) (checksum : option string) (now : Z) :=
  store KIND_TOPOLOGY topo_id version payload checksum now.

Definition ack_row (ts : Z) (r : CacheRow) : CacheRow :=
  mkRow (cr_rowid r) (cr_id r) (cr_version r) (cr_payload r) (cr_checksum r) StateAcked
    (cr_created_at r) (Some ts).

(** [mark_acked] *)
Definition mark_acked_entry (kind entry_id version : string) (acked_at : option Z) (now : Z) :
    M OfflineCacheStore bool :=
  table <- lift (resolve_table kind) ;;
  rows <- gets (rows_of table) ;;
  modify (set_table table (sql_update (has_entry entry_id version) (ack_row (default now acked_at)) rows)) ;;;
  ret (0 <? sql_count (has_entry entry_id version) rows)%Z.

(** What [get_usable] makes of the row it found. *)
Definition serve (kind entry_id : string) (require_acked : bool) (r : CacheRow) : res string :=
  if decide (sha256_checksum (cr_payload r) = cr_checksum r) then
    if require_acked && negb (bool_decide (cr_state r = StateAcked))
    then Raise (NotAckedError kind entry_id (cr_version r))
    else Ok (cr_payload r)
  else Raise (CorruptionError kind entry_id (cr_version r)).

(** [get_usable]; it only reads. *)
Definition get_usable (kind entry_id : string) (version : option string) (require_acked : bool)
    (c : OfflineCacheStore) : res string :=
  table ← resolve_table kind;
  let rows := rows_of table c in
  match version with
  | None =>
      match head (newest_first (sql_select (has_entry_id entry_id) rows)) with
      | None => Raise (CacheMissError kind entry_id)
      | Some r => serve kind entry_id require_acked r
      end
  | Some v =>
      match sql_first (has_entry entry_id v) rows with
      | None =>
          match sql_first (has_entry_id entry_id) rows with
          | Some _ => Raise (VersionMismatchError kind entry_id v)
          | None => Raise (CacheMissError kind entry_id)
          end
      | Some r => serve kind entry_id require_acked r
      end
  end.

Definition entry_status (kind : string) (r : CacheRow) : EntryStatus :=
  mkStatus kind (cr_id r) (cr_version r) (cr_state r) (cr_checksum r) (cr_created_at r) (cr_acked_at r).

(** [list_cached] *)
Definition list_cached (kind : option string) (c : OfflineCacheStore) : res (list EntryStatus) :=
  let kinds := match kind with Some k => [k] | None => [KIND_SEQUENCE; KIND_TOPOLOGY] end in
  entries ← mapM (λ k, table ← resolve_table k; Ok (entry_status k <$> by_entry (rows_of table c))) kinds;
  Ok (mjoin entries).

(** [delete] *)
Definition cache_delete (kind entry_id : string) (version : option string) : M OfflineCacheStore Z :=
  table <- lift (resolve_table kind) ;;
  rows <- gets (rows_of table) ;;
  let P := match version with Some v => has_entry entry_id v | None => has_entry_id entry_id end in
  modify (set_table table (sql_delete P rows)) ;;;
  ret (sql_count P rows).

(** The rows of [prune] to delete: all but the first [n] of each id, in [by_entry] order. *)
Definition doomed (n : Z) (rows : list CacheRow) : list (string * string) :=
  let per_id := foldl (λ d r, <[cr_id r := get_default (cr_id r) [] d ++ [cr_version r]]> d) ∅ (by_entry rows) in
  '(eid, vers) ← items per_id; (λ ver, (eid, ver)) <$> drop (Z.to_nat n) vers.

Definition prune (kind : string) (keep_last_n : Z) : M OfflineCacheStore Z :=
  if (keep_last_n <? 1)%Z then raise (ValueError "keep_last_n must be >= 1")
  else
    table <- lift (resolve_table kind) ;;
    rows <- gets (rows_of table) ;;
    let d := doomed keep_last_n rows in
    modify (set_table table (foldl (λ l '(eid, ver), sql_delete (has_entry eid ver) l) rows d)) ;;;
    ret (Z.of_nat (length d)).
End cache.

(** ** Tables *)

Lemma resolve_table_Ok kind t : resolve_table kind = Ok t ↔ kind = kind_of t.
Proof.
  unfold resolve_table. split; [by repeat case_decide; intros; simplify_eq|].
  intros ->. by destruct t.
Qed.

Lemma rows_of_set t t' rows c :
  rows_of t' (set_table t rows c) = if decide (t = t') then rows else rows_of t' c.
Proof. by destruct t, t'. Qed.

Lemma rows_of_set_eq t rows c : rows_of t (set_table t rows c) = rows.
Proof. by destruct t. Qed.

Lemma has_entry_true id v r : has_entry id v r = true ↔ cr_id r = id ∧ cr_version r = v.
Proof. unfold has_entry. by rewrite andb_true_iff, !bool_decide_eq_true. Qed.
Lemma has_entry_false id v r : has_entry id v r = false ↔ ¬ (cr_id r = id ∧ cr_version r = v).
Proof. by rewrite <- has_entry_true, not_true_iff_false. Qed.

Definition entry_key (r : CacheRow) : string * string := (cr_id r, cr_version r).

Record rows_ok (rows : list CacheRow) : Prop := {
  ro_keys : NoDup (entry_key <$> rows);
  ro_rowids : StronglySorted Z.lt (cr_rowid <$> rows)
}.
Definition cache_ok (c : OfflineCacheStore) : Prop := ∀ t, rows_ok (rows_of t c).

Lemma empty_store_ok : cache_ok empty_store.
Proof. intros t. destruct t; split; constructor. Qed.

Lemma next_rowid_fresh rows r : r ∈ rows → (cr_rowid r < next_rowid rows)%Z.
Proof.
  unfold next_rowid. intros Hr.
  assert (cr_rowid r ≤ foldr Z.max 0 (cr_rowid <$> rows))%Z; [|lia].
  induction rows as [|x l IH]; [by apply elem_of_nil in Hr|]. csimpl.
  apply elem_of_cons in Hr as [->|Hr]; [lia|]. specialize (IH Hr). lia.
Qed.

Lemma rows_ok_sublist l k : l `sublist_of` k → rows_ok k → rows_ok l.
Proof.
  intros Hsub [Hk Hr]. split; [by eapply sublist_NoDup; [exact Hk|apply fmap_sublist]|].
  eapply StronglySorted_sublist; [|exact Hr]. by apply fmap_sublist.
Qed.

Lemma rows_ok_snoc rows rows' r :
  rows' `sublist_of` rows → rows_ok rows → cr_rowid r = next_rowid rows →
  (∀ r', r' ∈ rows' → entry_key r' ≠ entry_key r) → rows_ok (rows' ++ [r]).
Proof.
  intros Hsub Hok Hid Hf. destruct (rows_ok_sublist _ _ Hsub Hok) as [Hk Hr].
  split; rewrite fmap_app; cbn.
  - apply NoDup_app. split_and!; [done| |apply NoDup_singleton].
    intros k (r' & -> & Hr')%list_elem_of_fmap E%list_elem_of_singleton. by eapply Hf.
  - apply StronglySorted_snoc; [done|]. apply Forall_fmap, Forall_forall. intros x Hx. cbn.
    rewrite Hid. apply next_rowid_fresh. by eapply sublist_subseteq.
Qed.

Lemma sql_update_rows_ok P f rows :
  (∀ r, entry_key (f r) = entry_key r) → (∀ r, cr_rowid (f r) = cr_rowid r) →
  rows_ok rows → rows_ok (sql_update P f rows).
Proof. intros Hk Hr [? ?]. split; by rewrite update_column. Qed.

Lemma set_table_ok t rows c : cache_ok c → rows_ok rows → cache_ok (set_table t rows c).
Proof. intros Hc Hr t'. rewrite rows_of_set. case_decide; [done|apply Hc]. Qed.

(** ** Histories *)

Inductive cache_op : Type :=
  | CStore (kind id version payload : string) (checksum : option string) (now : Z)
  | CAck (kind id version : string) (at_ : option Z) (now : Z)
  | CDelete (kind id : string) (version : option string)
  | CPrune (kind : string) (n : Z)
  | CTamper (t : Table) (id version payload : string).  (* the file is changed from outside *)

Definition tamper_row (payload : string) (r : CacheRow) : CacheRow :=
  mkRow (cr_rowid r) (cr_id r) (cr_version r) payload (cr_checksum r) (cr_state r)
    (cr_created_at r) (cr_acked_at r).

Section histories.
Context (sha256_checksum : string → string).
#[local] Abbreviation store := (store sha256_checksum).
#[local] Abbreviation get_usable := (get_usable sha256_checksum).

Definition run_cache_op (op : cache_op) (c : OfflineCacheStore) : OfflineCacheStore :=
  match op with
  | CStore k id v p ck now => (store k id v p ck now c).2
  | CAck k id v a now => (mark_acked_entry k id v a now c).2
  | CDelete k id v => (cache_delete k id v c).2
  | CPrune k n => (prune k n c).2
  | CTamper t id v p => set_table t (sql_update (has_entry id v) (tamper_row p) (rows_of t c)) c
  end.
Definition run_cache (ops : list cache_op) (c : OfflineCacheStore) : OfflineCacheStore :=
  foldl (λ c op, run_cache_op op c) c ops.

(** The four outcomes of [_store]. *)
Lemma store_spec k id v p ck now c :
  cache_ok c →
  match store k id v p ck now c with
  | (Ok _, c') => ∃ t, k = kind_of t ∧ (ck = None ∨ ck = Some (sha256_checksum p)) ∧
      ((∃ r, r ∈ rows_of t c ∧ entry_key r = (id, v) ∧ cr_payload r = p
          ∧ cr_checksum r = sha256_checksum p ∧ c' = c)
       ∨ (∀ r, r ∈ rows_of t c → entry_key r = (id, v) →
            ¬ (cr_payload r = p ∧ cr_checksum r = sha256_checksum p))
         ∧ c' = set_table t (sql_delete (has_entry id v) (rows_of t c) ++
              [mkRow (next_rowid (rows_of t c)) id v p (sha256_checksum p) StateCached now None]) c)
  | (Raise e, c') => c' = c ∧ (∃ m, e = ValueError m)
      ∧ ((∀ t, k ≠ kind_of t) ∨ ck ≠ None ∧ ck ≠ Some (sha256_checksum p))
  end.
Proof.
  intros Hc. unfold CacheStore.store.
  assert (check_checksum k id v ck (sha256_checksum p) c = (Ok tt, c)
      ∧ (ck = None ∨ ck = Some (sha256_checksum p))
    ∨ (∃ m, check_checksum k id v ck (sha256_checksum p) c = (Raise (ValueError m), c))
      ∧ ck ≠ None ∧ ck ≠ Some (sha256_checksum p)) as Hck.
  { unfold check_checksum. destruct ck as [ck|]; [|by left; auto].
    case_decide as Hd; [left; split; [done|]; right; by f_equal|right].
    split; [by eexists|]. by split; [|intros [=]]. }
  destruct Hck as [[Hck H0]|[[m Hck] H0]]; [|rewrite (bind_raise _ _ _ _ _ Hck); eauto 10].
  rewrite (bind_ok _ _ _ _ _ Hck).
  destruct (resolve_table k) as [t|e] eqn:Ht.
  2: { rewrite (bind_raise _ _ _ e c) by done. split; [done|].
       split; [unfold resolve_table in Ht; repeat case_decide; simplify_eq; eauto|].
       left. intros t Hkt. apply resolve_table_Ok in Hkt. congruence. }
  apply resolve_table_Ok in Ht. rewrite (bind_ok _ _ _ t c) by done.
  rewrite (bind_ok _ _ _ (rows_of t c) c) by done.
  destruct (sql_first _ _) as [r|] eqn:Hf.
  - apply sql_first_Some in Hf as [Hr Hk%has_entry_true]. destruct Hk as [Hk1 Hk2].
    assert (entry_key r = (id, v)) as Hkey by (unfold entry_key; congruence).
    case_decide as Hd; exists t; (split_and!; [done|done|]).
    + left. destruct Hd. by exists r.
    + right. split; [|done]. intros r' Hr' Hk'. 
      assert (r' = r) as ->; [|done]. destruct (Hc t) as [Hnd _].
      apply list_elem_of_lookup in Hr as [i Hi]. apply list_elem_of_lookup in Hr' as [j Hj].
      assert (i = j) as ->; [|congruence].
      apply (NoDup_lookup _ _ _ (id, v) Hnd); rewrite list_lookup_fmap; [rewrite Hi|rewrite Hj];
        cbn; congruence.
  - rewrite sql_first_None in Hf. exists t. split_and!; [done|done|]. right.
    assert (∀ r, r ∈ rows_of t c → entry_key r ≠ (id, v)) as Hn.
    { intros r Hr [= <- <-]. specialize (Hf r Hr). apply has_entry_false in Hf. by apply Hf. }
    split; [intros r Hr Hk; by destruct (Hn r Hr)|].
    assert (sql_delete (has_entry id v) (rows_of t c) = rows_of t c) as ->; [|done].
    unfold sql_delete. clear -Hf. induction (rows_of t c) as [|r l IH]; [done|].
    rewrite filter_cons, decide_True, IH; [done| |].
    + intros r' Hr'. apply Hf. by right.
    + apply Is_true_true. rewrite Hf; [done|left].
Qed.

Lemma mark_acked_entry_state k id v a now c :
  (mark_acked_entry k id v a now c).2 = c
  ∨ ∃ t, k = kind_of t ∧ (mark_acked_entry k id v a now c).2 =
      set_table t (sql_update (has_entry id v) (ack_row (default now a)) (rows_of t c)) c.
Proof.
  unfold mark_acked_entry. destruct (resolve_table k) as [t|e] eqn:Ht; [|by left].
  right. exists t. split; [by apply resolve_table_Ok|done].
Qed.

(** Deleting and pruning keep a part of one table. *)
Lemma cache_delete_state k id v c :
  (cache_delete k id v c).2 = c
  ∨ ∃ t rows, rows `sublist_of` rows_of t c ∧ (cache_delete k id v c).2 = set_table t rows c.
Proof.
  unfold cache_delete. destruct (resolve_table k) as [t|e]; [|by left].
  right. exists t. eexists. split; [apply delete_sublist|done].
Qed.

Lemma delete_all_sublist d rows :
  foldl (λ l '(eid, ver), sql_delete (has_entry eid ver) l) rows d `sublist_of` rows.
Proof.
  revert rows. induction d as [|[eid ver] d IH]; intros rows; cbn; [done|].
  etrans; [apply IH|apply delete_sublist].
Qed.

Lemma prune_state k n c :
  (prune k n c).2 = c
  ∨ ∃ t rows, rows `sublist_of` rows_of t c ∧ (prune k n c).2 = set_table t rows c.
Proof.
  unfold prune. case_match; [by left|]. destruct (resolve_table k) as [t|e]; [|by left].
  right. exists t. eexists. split; [apply delete_all_sublist|done].
Qed.

(** The operation stores [p] as that version, with no checksum or the right one; it
    acknowledges that version. *)
Definition stores (op : cache_op) (t : Table) (id v p : string) : Prop :=
  ∃ ck now, op = CStore (kind_of t) id v p ck now ∧ (ck = None ∨ ck = Some (sha256_checksum p)).
Definition acks (op : cache_op) (t : Table) (id v : string) : Prop :=
  ∃ a now, op = CAck (kind_of t) id v a now.

(** The effect of one operation on one table: a part of it, with at most a new
    unacknowledged row, one acknowledged key, or one tampered key. *)
Inductive table_step (t : Table) (rows : list CacheRow) (op : cache_op) : list CacheRow → Prop :=
  | step_less rows' : rows' `sublist_of` rows →
      (∀ r p, r ∈ rows' → stores op t (cr_id r) (cr_version r) p → cr_checksum r = sha256_checksum p) →
      table_step t rows op rows'
  | step_store id v p now : stores op t id v p →
      (∀ id' v' p', stores op t id' v' p' → id' = id ∧ v' = v) →
      table_step t rows op (sql_delete (has_entry id v) rows ++
        [mkRow (next_rowid rows) id v p (sha256_checksum p) StateCached now None])
  | step_ack id v ts : acks op t id v →
      table_step t rows op (sql_update (has_entry id v) (ack_row ts) rows)
  | step_tamper id v p : (∀ id' v' p', ¬ stores op t id' v' p') →
      table_step t rows op (sql_update (has_entry id v) (tamper_row p) rows).

Lemma kind_of_inj t t' : kind_of t = kind_of t' → t = t'.
Proof. by destruct t, t'. Qed.

(** An operation that is no store changes a table only as its kind allows. *)
Lemma step_same t c op :
  (∀ id v p, ¬ stores op t id v p) → table_step t (rows_of t c) op (rows_of t c).
Proof. intros H. apply step_less; [done|]. intros r p _ Hs. by destruct (H _ _ _ Hs). Qed.

Lemma step_part t t' rows c op :
  (∀ id v p, ¬ stores op t id v p) → rows `sublist_of` rows_of t' c →
  table_step t (rows_of t c) op (rows_of t (set_table t' rows c)).
Proof.
  intros H Hs. rewrite rows_of_set. case_decide; subst; [|by apply step_same].
  apply step_less; [done|]. intros r p _ Hst. by destruct (H _ _ _ Hst).
Qed.

Lemma run_cache_op_step op c t :
  cache_ok c → table_step t (rows_of t c) op (rows_of t (run_cache_op op c)).
Proof.
  intros Hc. destruct op as [k id v p ck now|k id v a now|k id v|k n|t' id v p]; cbn.
  - pose proof (store_spec k id v p ck now c Hc) as H.
    destruct (store k id v p ck now c) as [[[]|e] c']; cbn.
    + destruct H as (t' & -> & Hck & [(r & Hr & Hk & Hp & Hs & ->)|(_ & ->)]).
      * apply step_less; [done|]. intros r' p' Hr' (ck' & now' & [= E1 E2 E3 E4 _ _] & _).
        apply kind_of_inj in E1 as ->. destruct (Hc t) as [Hnd _].
        rewrite <- E4, <- Hs. f_equal. apply list_elem_of_lookup in Hr as [i Hi].
        apply list_elem_of_lookup in Hr' as [j Hj]. assert (i = j) as ->; [|congruence].
        apply (NoDup_lookup _ _ _ (entry_key r) Hnd); rewrite list_lookup_fmap;
          [by rewrite Hi|rewrite Hj, Hk, E2, E3; done].
      * rewrite rows_of_set. case_decide as E; [subst|].
        -- apply step_store; [by exists ck, now|]. intros id' v' p' (? & ? & [=] & _). by split.
        -- apply step_same. intros id' v' p' (? & ? & [= E1] & _). by apply kind_of_inj in E1.
    + destruct H as (-> & _ & H). apply step_same. intros id' v' p' (? & ? & [= E1 E2 E3 E4 E5 E6] & Hck).
      destruct H as [H|[? ?]]; [by apply (H t)|destruct Hck; congruence].
  - assert (∀ id' v' p', ¬ stores (CAck k id v a now) t id' v' p') as Hn by by intros ? ? ? (? & ? & ? & _).
    destruct (mark_acked_entry_state k id v a now c) as [->|(t' & -> & ->)]; [by apply step_same|].
    rewrite rows_of_set. case_decide; subst; [|by apply step_same]. apply step_ack. by exists a, now.
  - assert (∀ id' v' p', ¬ stores (CDelete k id v) t id' v' p') as Hn by by intros ? ? ? (? & ? & ? & _).
    destruct (cache_delete_state k id v c) as [->|(t' & rows & ? & ->)]; [by apply step_same|by apply step_part].
  - assert (∀ id' v' p', ¬ stores (CPrune k n) t id' v' p') as Hn by by intros ? ? ? (? & ? & ? & _).
    destruct (prune_state k n c) as [->|(t' & rows & ? & ->)]; [by apply step_same|by apply step_part].
  - assert (∀ id' v' p', ¬ stores (CTamper t' id v p) t id' v' p') as Hn by by intros ? ? ? (? & ? & ? & _).
    rewrite rows_of_set. case_decide; subst; [by apply step_tamper|by apply step_same].
Qed.

(** ** Only acknowledged content is served *)

Definition row_known (ops : list cache_op) (t : Table) (r : CacheRow) : Prop :=
  ∃ op p, op ∈ ops ∧ stores op t (cr_id r) (cr_version r) p ∧ cr_checksum r = sha256_checksum p.

Definition row_acked (ops : list cache_op) (t : Table) (r : CacheRow) : Prop :=
  ∃ ops1 ack ops2, ops = ops1 ++ ack :: ops2 ∧ acks ack t (cr_id r) (cr_version r) ∧
    row_known ops1 t r ∧
    ∀ op p, op ∈ ops2 → stores op t (cr_id r) (cr_version r) p → cr_checksum r = sha256_checksum p.

Definition history_ok (ops : list cache_op) (t : Table) (rows : list CacheRow) : Prop :=
  ∀ r, r ∈ rows → row_known ops t r ∧ (cr_state r = StateAcked → row_acked ops t r).

Lemma row_known_mono ops op t r : row_known ops t r → row_known (ops ++ [op]) t r.
Proof. intros (o & p & Ho & ?). exists o, p. split; [|done]. apply elem_of_app. by left. Qed.

Lemma row_acked_mono ops op t r :
  (∀ p, stores op t (cr_id r) (cr_version r) p → cr_checksum r = sha256_checksum p) →
  row_acked ops t r → row_acked (ops ++ [op]) t r.
Proof.
  intros Hop (ops1 & ack & ops2 & -> & Ha & Hk & H). exists ops1, ack, (ops2 ++ [op]).
  split_and!; [by rewrite <- (assoc (++))|done|done|].
  intros o p [Ho| ->%list_elem_of_singleton]%elem_of_app; eauto.
Qed.

Lemma history_ok_step ops op t rows rows' :
  table_step t rows op rows' → history_ok ops t rows → history_ok (ops ++ [op]) t rows'.
Proof.
  assert (op ∈ ops ++ [op]) as Hop by (apply elem_of_app; right; left).
  intros Hstep H. destruct Hstep as [rows' Hsub Hst|id v p now Hst Huniq|id v ts Hack|id v p Hno]; intros r Hr.
  - destruct (H r) as [Hk Ha]; [by eapply sublist_subseteq|]. split; [by apply row_known_mono|].
    intros Hs. apply row_acked_mono; [|auto]. intros p. by apply Hst.
  - apply elem_of_app in Hr as [Hr| ->%list_elem_of_singleton].
    + apply elem_of_delete in Hr as [Hr Hne%has_entry_false]. destruct (H r Hr) as [Hk Ha].
      split; [by apply row_known_mono|]. intros Hs. apply row_acked_mono; [|auto].
      intros p' Hp'. destruct (Huniq _ _ _ Hp') as [? ?]. by destruct Hne.
    + split; [|done]. by exists op, p.
  - apply elem_of_update in Hr as (r0 & Hr0 & ->). destruct (H r0 Hr0) as [Hk Ha].
    assert (∀ p, stores op t (cr_id r0) (cr_version r0) p → cr_checksum r0 = sha256_checksum p) as Hno.
    { intros p (? & ? & -> & _). by destruct Hack as (? & ? & ?). }
    case_match eqn:He.
    + apply has_entry_true in He as [<- <-]. split; [by apply row_known_mono|]. intros _.
      exists ops, op, []. split_and!; [done|done|exact Hk|]. by intros ? ? ?%elem_of_nil.
    + split; [by apply row_known_mono|]. intros Hs. apply row_acked_mono; auto.
  - apply elem_of_update in Hr as (r0 & Hr0 & ->). destruct (H r0 Hr0) as [Hk Ha].
    split.
    + case_match; by apply (row_known_mono _ _ _ r0).
    + intros Hs. assert (cr_state r0 = StateAcked) as Hs0 by by case_match.
      assert (row_acked (ops ++ [op]) t r0) as Hx.
      { apply row_acked_mono; [|auto]. intros p' Hp'. by destruct (Hno _ _ _ Hp'). }
      by case_match.
Qed.

Lemma table_step_ok t rows op rows' : table_step t rows op rows' → rows_ok rows → rows_ok rows'.
Proof.
  intros Hstep Hok. destruct Hstep as [rows' Hsub _|id v p now _ _|id v ts _|id v p _].
  - by eapply rows_ok_sublist.
  - apply (rows_ok_snoc rows); [apply delete_sublist|done|done|].
    intros r [_ Hne%has_entry_false]%elem_of_delete [= E1 E2]. by apply Hne.
  - by apply sql_update_rows_ok.
  - by apply sql_update_rows_ok.
Qed.

Lemma run_cache_op_ok op c : cache_ok c → cache_ok (run_cache_op op c).
Proof. intros Hc t. eapply table_step_ok; [by apply run_cache_op_step|apply Hc]. Qed.

Lemma run_cache_history ops t :
  cache_ok (run_cache ops empty_store) ∧ history_ok ops t (rows_of t (run_cache ops empty_store)).
Proof.
  induction ops as [|op ops [Hc Hh]] using rev_ind.
  { split; [apply empty_store_ok|]. intros r Hr. by destruct t; apply elem_of_nil in Hr. }
  unfold run_cache. rewrite foldl_app. cbn. fold (run_cache ops empty_store).
  split; [by apply run_cache_op_ok|]. eapply history_ok_step; [by apply run_cache_op_step|done].
Qed.

(** The row a read is answered from. *)
Lemma get_usable_row k id v req c p :
  get_usable k id v req c = Ok p →
  ∃ t r, k = kind_of t ∧ r ∈ rows_of t c ∧ cr_id r = id ∧ (∀ v', v = Some v' → cr_version r = v')
    ∧ cr_payload r = p ∧ sha256_checksum p = cr_checksum r ∧ (req = true → cr_state r = StateAcked).
Proof.
  unfold CacheStore.get_usable. intros (t & Ht & H)%res_bind_Ok. apply resolve_table_Ok in Ht.
  assert (∀ r, serve sha256_checksum k id req r = Ok p →
    cr_payload r = p ∧ sha256_checksum p = cr_checksum r ∧ (req = true → cr_state r = StateAcked)) as Hserve.
  { intros r. unfold serve. case_decide as Hd; [|done]. destruct req; cbn.
    - case_bool_decide; cbn; [|done]. intros [= <-]. done.
    - intros [= <-]. done. }
  destruct v as [v|].
  - destruct (sql_first (has_entry id v) _) as [r|] eqn:Hf; [|by case_match].
    apply sql_first_Some in Hf as [Hr [Hi Hv]%has_entry_true].
    exists t, r. split_and!; [done|done|done|by intros ? [= <-]|by apply Hserve..].
  - destruct (newest_first _) as [|r l] eqn:Hn; [done|]. cbn in H.
    assert (r ∈ newest_first (sql_select (has_entry_id id) (rows_of t c))) as Hr by (rewrite Hn; left).
    unfold newest_first in Hr. rewrite merge_sort_Permutation in Hr.
    apply elem_of_select in Hr as [Hr Hi%bool_decide_eq_true].
    exists t, r. split_and!; [done|done|done|done|by apply Hserve..].
Qed.

(** The acknowledgement gate, through any history of stores, acknowledgements,
    deletions, prunes and outside changes of the file: what [get_usable] serves is content
    whose hash is that of a payload stored under the entry and version before an
    acknowledgement of that version, and no other content was stored under it since. *)
Theorem usable_was_acked (ops : list cache_op) (kind id : string) (v : option string) (p : string)
  (H : get_usable kind id v true (run_cache ops empty_store) = Ok p) :
  ∃ t ver ops1 ack ops2 op p0,
    kind = kind_of t ∧ (∀ v', v = Some v' → ver = v') ∧ ops = ops1 ++ ack :: ops2
    ∧ acks ack t id ver ∧ op ∈ ops1 ∧ stores op t id ver p0
    ∧ sha256_checksum p = sha256_checksum p0
    ∧ ∀ op' p', op' ∈ ops2 → stores op' t id ver p' → sha256_checksum p = sha256_checksum p'.
Proof.
  apply get_usable_row in H as (t & r & -> & Hr & Hi & Hv & Hp & Hsha & Hst).
  destruct (run_cache_history ops t) as [_ Hh]. destruct (Hh r Hr) as [_ Ha].
  destruct (Ha (Hst eq_refl)) as (ops1 & ack & ops2 & -> & Hack & (op & p0 & Hop & Hs & Hc) & Hlater).
  rewrite Hi in *. exists t, (cr_version r), ops1, ack, ops2, op, p0.
  split_and!; [done|done|done|done|done|done|congruence|].
  intros op' p' Hop' Hs'. rewrite Hsha. eauto.
Qed.

(** A pinned read is answered from the row of that key. *)
Lemma get_pinned t id v r req c :
  cache_ok c → r ∈ rows_of t c → entry_key r = (id, v) →
  get_usable (kind_of t) id (Some v) req c = serve sha256_checksum (kind_of t) id req r.
Proof.
  intros Hc Hr Hk. unfold CacheStore.get_usable.
  rewrite (proj2 (resolve_table_Ok (kind_of t) t) eq_refl). cbn [mbind res_mbind res_bind].
  rewrite (sql_first_unique entry_key _ _ r); [done|apply Hc|done| |].
  - apply has_entry_true. injection Hk as -> ->. done.
  - intros r' _ [E1 E2]%has_entry_true. rewrite Hk. unfold entry_key. by rewrite E1, E2.
Qed.

(** After a store without a given checksum the version is there with that content. *)
Lemma store_plain t id v p now c :
  cache_ok c →
  let c1 := (store (kind_of t) id v p None now c).2 in
  ∃ r, r ∈ rows_of t c1 ∧ entry_key r = (id, v) ∧ cr_payload r = p ∧ cr_checksum r = sha256_checksum p
    ∧ (c1 = c ∨ cr_state r = StateCached ∧
       ∀ r', r' ∈ rows_of t c → entry_key r' = (id, v) →
         ¬ (cr_payload r' = p ∧ cr_checksum r' = sha256_checksum p)).
Proof.
  intros Hc. cbn zeta. pose proof (store_spec (kind_of t) id v p None now c Hc) as H.
  destruct (store _ _ _ _ _ _ _) as [[[]|e] c1]; cbn.
  - destruct H as (t' & ->%kind_of_inj & _ & [(r & ? & ? & ? & ? & ->)|(Hno & ->)]).
    + exists r. split_and!; [done..|]. by left.
    + eexists. rewrite rows_of_set_eq. split_and!; [apply elem_of_app; right; left|done..|].
      by right.
  - destruct H as (_ & _ & [H|[? _]]); [by destruct (H t)|done].
Qed.

(** Storing and acknowledging a version makes exactly that content usable: before the
    acknowledgement the offline path refuses it unless the very same content had been
    acknowledged already, the online diagnosis can read it, and after it both return the
    payload stored. *)
Theorem store_ack_get (t : Table) (id v p : string) (now now' : Z) (c : OfflineCacheStore)
  (Hc : cache_ok c) :
  let c1 := (store (kind_of t) id v p None now c).2 in
  let c2 := (mark_acked_entry (kind_of t) id v None now' c1).2 in
  get_usable (kind_of t) id (Some v) false c1 = Ok p
  ∧ (get_usable (kind_of t) id (Some v) true c1 = Ok p ↔ get_usable (kind_of t) id (Some v) true c = Ok p)
  ∧ get_usable (kind_of t) id (Some v) true c2 = Ok p.
Proof.
  cbn zeta. destruct (store_plain t id v p now c Hc) as (r & Hr & Hk & Hp & Hs & Hcase).
  set (c1 := (store (kind_of t) id v p None now c).2) in *.
  assert (cache_ok c1) as Hc1 by (apply (run_cache_op_ok (CStore _ _ _ _ _ _)); done).
  pose proof (get_pinned t id v r false c1 Hc1 Hr Hk) as Hget.
  pose proof (get_pinned t id v r true c1 Hc1 Hr Hk) as Hgate.
  assert (∀ req, serve sha256_checksum (kind_of t) id req r =
    if req && negb (bool_decide (cr_state r = StateAcked)) then Raise (NotAckedError (kind_of t) id v)
    else Ok p) as Hserve.
  { intros req. unfold serve. rewrite Hp, decide_True by done. injection Hk as _ ->. done. }
  rewrite Hserve in Hget, Hgate. split_and!; [done| |].
  - destruct Hcase as [Hsame|[Hst Hno]]; [by rewrite Hsame|]. rewrite Hgate, Hst. cbn.
    split; [done|]. intros (t' & r' & Ht & Hr' & Hi & Hv & Hp' & Hsha & _)%get_usable_row.
    apply kind_of_inj in Ht as <-. destruct (Hno r' Hr'); [|by rewrite Hp', Hsha].
    unfold entry_key. by rewrite Hi, (Hv v).
  - assert (mark_acked_entry (kind_of t) id v None now' c1 =
      (Ok (0 <? sql_count (has_entry id v) (rows_of t c1))%Z, 
       set_table t (sql_update (has_entry id v) (ack_row now') (rows_of t c1)) c1)) as ->.
    { unfold mark_acked_entry. by rewrite (proj2 (resolve_table_Ok (kind_of t) t) eq_refl). }
    rewrite (get_pinned t id v (ack_row now' r) true); [| | |done].
    + unfold serve. cbn. by rewrite Hp, decide_True by done.
    + apply set_table_ok; [done|]. by apply sql_update_rows_ok.
    + cbn [snd]. rewrite rows_of_set_eq. apply elem_of_update. exists r. split; [done|].
      injection Hk as Hk1 Hk2. by rewrite (proj2 (has_entry_true id v r)).
Qed.
End histories.

(** ** An example *)

Definition toy_hash (s : string) : string := "#" +:+ s.

Definition example_cache_history : list cache_op :=
  [CStore "sequence" "s" "v1" "old" None 1; CAck "sequence" "s" "v1" None 2;
   CStore "sequence" "s" "v2" "new" None 3; CTamper Topologies "s" "v1" "x"; CPrune "sequence" 2]%Z.

Example example_gate :
  let c := run_cache toy_hash example_cache_history empty_store in
  get_usable toy_hash "sequence" "s" (Some "v1") true c = Ok "old"
  ∧ get_usable toy_hash "sequence" "s" None true c = Raise (NotAckedError "sequence" "s" "v2")
  ∧ get_usable toy_hash "sequence" "s" (Some "v3") true c = Raise (VersionMismatchError "sequence" "s" "v3")
  ∧ get_usable toy_hash "topology" "s" None true c = Raise (CacheMissError "topology" "s").
Proof. vm_compute. split_and!; reflexivity. Qed.

Lemma usable_was_acked_witness :
  ∃ p0, (∃ op t, op ∈ example_cache_history ∧ stores toy_hash op t "s" "v1" p0)
    ∧ toy_hash "old" = toy_hash p0.
Proof.
  destruct (usable_was_acked toy_hash example_cache_history "sequence" "s" (Some "v1") "old")
    as (t & ver & ops1 & ack & ops2 & op & p0 & _ & Hv & E & _ & Hop & Hs & Hp & _);
    [vm_compute; reflexivity|].
  rewrite (Hv "v1" eq_refl) in Hs. exists p0. split; [|exact Hp]. exists op, t. split; [|exact Hs].
  rewrite E. apply elem_of_app. left. exact Hop.
Defined.

Lemma store_ack_get_witness :
  get_usable toy_hash "topology" "t" (Some "1") true
    (mark_acked_entry "topology" "t" "1" None 2 (store toy_hash "topology" "t" "1" "x" None 1 empty_store).2).2
  = Ok "x".
Proof. exact (proj2 (proj2 (store_ack_get toy_hash Topologies "t" "1" "x" 1 2 empty_store empty_store_ok))). Defined.

(** ** The two orders agree *)

#[export] Instance newer_total : Total newer.
Proof. intros r r'. unfold newer. lia. Qed.
#[export] Instance newer_trans : Transitive newer.
Proof. intros r1 r2 r3. unfold newer. lia. Qed.
#[export] Instance listed_before_total : Total listed_before.
Proof.
  intros r r'. unfold listed_before. destruct (decide (cr_id r = cr_id r')) as [E|E].
  - rewrite decide_True by done. apply newer_total.
  - rewrite decide_False by congruence. apply (total String.le).
Qed.
#[export] Instance listed_before_trans : Transitive listed_before.
Proof.
  intros r1 r2 r3. unfold listed_before.
  destruct (decide (cr_id r1 = cr_id r2)) as [E1|E1], (decide (cr_id r2 = cr_id r3)) as [E2|E2].
  - rewrite decide_True by congruence. apply newer_trans.
  - rewrite decide_False by congruence. by rewrite E1.
  - rewrite decide_False by congruence. by rewrite <- E2.
  - intros H1 H2. case_decide as E3; [|by etrans].
    destruct E1. rewrite <- E3 in H2. by apply (anti_symm String.le).
Qed.

Lemma rows_ok_rowid rows r r' :
  rows_ok rows → r ∈ rows → r' ∈ rows → newer r r' → newer r' r → r = r'.
Proof.
  intros [_ Hs] Hr Hr' H1 H2. assert (cr_rowid r = cr_rowid r') as E by (unfold newer in *; lia).
  assert (NoDup (cr_rowid <$> rows)) as Hnd.
  { clear -Hs. induction Hs as [|x l Hs IH Hx]; [constructor|]. constructor; [|done].
    intros Hin. rewrite Forall_forall in Hx. specialize (Hx x Hin). lia. }
  apply list_elem_of_lookup in Hr as [i Hi]. apply list_elem_of_lookup in Hr' as [j Hj].
  assert (i = j) as ->; [|congruence].
  apply (NoDup_lookup _ _ _ (cr_rowid r) Hnd); rewrite list_lookup_fmap; [by rewrite Hi|by rewrite Hj, E].
Qed.

(** The first row of an entry in the listing is its newest one. *)
Lemma first_listed_newest rows id :
  rows_ok rows →
  sql_first (has_entry_id id) (by_entry rows) = head (newest_first (sql_select (has_entry_id id) rows)).
Proof.
  intros Hok. assert (StronglySorted listed_before (by_entry rows)) as Hl by (apply StronglySorted_merge_sort; apply _).
  assert (StronglySorted newer (newest_first (sql_select (has_entry_id id) rows))) as Hn
    by (apply StronglySorted_merge_sort; apply _).
  assert (∀ r, r ∈ by_entry rows ↔ r ∈ rows) as Hbe by (intros r; unfold by_entry; by rewrite merge_sort_Permutation).
  assert (∀ r, r ∈ newest_first (sql_select (has_entry_id id) rows) ↔ r ∈ rows ∧ cr_id r = id) as Hnf.
  { intros r. unfold newest_first. rewrite merge_sort_Permutation, elem_of_select.
    unfold has_entry_id. by rewrite bool_decide_eq_true. }
  destruct (newest_first _) as [|h l].
  { apply sql_first_None. intros r Hr. apply bool_decide_eq_false. intros E.
    assert (r ∈ []) as Hnil by (apply Hnf; split; [by apply Hbe|done]). by apply elem_of_nil in Hnil. }
  cbn. assert (h ∈ rows ∧ cr_id h = id) as [Hh Hid] by (apply Hnf; left).
  assert (∀ r, r ∈ rows → cr_id r = id → newer h r) as Hmax.
  { intros r Hr Hi. assert (r ∈ h :: l) as Hin by by apply Hnf. inversion_clear Hn as [|? ? _ Hall].
    apply elem_of_cons in Hin as [->|Hin]; [unfold newer; lia|]. rewrite Forall_forall in Hall. auto. }
  clear Hnf Hn. destruct (sql_first (has_entry_id id) (by_entry rows)) as [x|] eqn:Ex.
  2: { rewrite sql_first_None in Ex. assert (has_entry_id id h = false) as Hf by by apply Ex, Hbe.
       by apply bool_decide_eq_false in Hf. }
  f_equal. pose proof (sql_first_Some _ _ _ Ex) as [Hx Hxi%bool_decide_eq_true].
  apply Hbe in Hx as Hx'. apply (rows_ok_rowid rows); [done..| |by apply Hmax].
  assert (h ∈ by_entry rows) as Hh' by by apply Hbe.
  clear -Hl Hh' Ex Hid Hxi. revert Hl Hh' Ex. generalize (by_entry rows) as k. intros k Hl.
  induction Hl as [|y k Hl IH Hy]; intros Hin Hx; [by apply elem_of_nil in Hin|].
  unfold sql_first in Hx. rewrite sql_select_cons in Hx. rewrite Forall_forall in Hy.
  destruct (has_entry_id id y) eqn:E.
  - injection Hx as ->. apply elem_of_cons in Hin as [->|Hin]; [unfold newer; lia|].
    specialize (Hy h Hin). unfold listed_before in Hy. by rewrite decide_True in Hy by congruence.
  - apply elem_of_cons in Hin as [->|Hin]; [by apply bool_decide_eq_false in E|]. by apply IH.
Qed.
