(* ===== verification/VersionLock.v ===== *)
(** * Version locks (src/src/ate_platform/offline/version_lock.py)

    While a station runs offline, an execution pins the version of each sequence and
    topology it uses. The lock table is a dict in memory; the versions are in the cache. *)

From S2P Require Import Prelude PyDict PyStr Sql CacheStore.

Record VersionLock : Type := mkLock {
  vl_kind : string;
  vl_entry_id : string;
  vl_version : string;
  vl_execution_id : string;
  vl_locked_at : Z
}.
#[export] Instance VersionLock_eq_dec : EqDecision VersionLock.
Proof. solve_decision. Defined.

(** The manager, with the cache it shares. *)
Record LockManager : Type := mkManager {
  lm_cache : OfflineCacheStore;
  lm_online : bool;
  lm_locks : pydict (string * string) VersionLock
}.
Definition new_lock_manager (cache : OfflineCacheStore) : LockManager := mkManager cache true ∅.

Definition set_cache (c : OfflineCacheStore) (m : LockManager) : LockManager :=
  mkManager c (lm_online m) (lm_locks m).
Definition set_locks (l : pydict (string * string) VersionLock) (m : LockManager) : LockManager :=
  mkManager (lm_cache m) (lm_online m) l.
Definition set_online (online : bool) (m : LockManager) : LockManager :=
  mkManager (lm_cache m) online (lm_locks m).

Definition OnlineLockRejectedError (kind id : string) : exc :=
  CustomError "OnlineLockRejectedError" (entry_name kind id
    +:+ ": refusing to lock while online (version locks only apply during offline autonomy, doc §10.5.4.2)").
Definition AlreadyLockedError (existing : VersionLock) (kind id version execution : string) : exc :=
  CustomError "AlreadyLockedError" (entry_name kind id +:+ ": locked to " +:+ vl_version existing +:+ " by "
    +:+ vl_execution_id existing +:+ "; cannot lock " +:+ version +:+ "/" +:+ execution).
Definition LockedVersionImmutableError (existing : VersionLock) (kind id version : string) : exc :=
  CustomError "LockedVersionImmutableError" (entry_name kind id +:+ "@" +:+ version
    +:+ ": locked snapshot is immutable while " +:+ vl_execution_id existing
    +:+ " is running (doc §10.5.4.2)").

Section locks.
Context (sha256_checksum : string → string).

Definition cache_get (kind id : string) (version : option string) : M LockManager string :=
  m <- get ;; lift (get_usable sha256_checksum kind id version true (lm_cache m)).

Definition add_lock (l : VersionLock) (m : LockManager) : LockManager :=
  set_locks (<[(vl_kind l, vl_entry_id l) := l]> (lm_locks m)) m.

(** [acquire] *)
Definition acquire_lock (kind entry_id version execution_id : string) (now : Z) :
    M LockManager VersionLock :=
  m <- get ;;
  if lm_online m then raise (OnlineLockRejectedError kind entry_id)
  else
    match lm_locks m !! (kind, entry_id) with
    | Some existing =>
        if decide (vl_version existing = version ∧ vl_execution_id existing = execution_id)
        then ret existing
        else raise (AlreadyLockedError existing kind entry_id version execution_id)
    | None =>
        cache_get kind entry_id (Some version) ;;;
        let l := mkLock kind entry_id version execution_id now in
        modify (add_lock l) ;;;
        ret l
    end.

(** [_latest_acked_version]: the first listed version of the entry, if acknowledged. *)
Definition latest_acked_version (kind entry_id : string) (c : OfflineCacheStore) : res (option string) :=
  l ← list_cached (Some kind) c;
  Ok (match base.filter (λ s, es_id s = entry_id) l with
      | s :: _ => if decide (es_state s = StateAcked) then Some (es_version s) else None
      | [] => None
      end).

(** [resolve_pinned] *)
Definition resolve_pinned (kind entry_id execution_id : string) (now : Z) :
    M LockManager (string * string) :=
  m <- get ;;
  match lm_locks m !! (kind, entry_id) with
  | Some existing =>
      payload <- cache_get kind entry_id (Some (vl_version existing)) ;;
      ret (vl_version existing, payload)
  | None =>
      version <- lift (latest_acked_version kind entry_id (lm_cache m)) ;;
      payload <- cache_get kind entry_id version ;;
      (if lm_online m then ret tt
       else modify (add_lock (mkLock kind entry_id (default "" version) execution_id now))) ;;;
      ret (default "" version, payload)
  end.

(** [store_update] *)
Definition store_update (kind entry_id version payload : string) (checksum : option string) (now : Z) :
    M LockManager unit :=
  match resolve_table kind with
  | Raise e => raise e
  | Ok _ =>
      m <- get ;;
      match lm_locks m !! (kind, entry_id) with
      | Some existing =>
          if decide (vl_version existing = version)
          then raise (LockedVersionImmutableError existing kind entry_id version)
          else ret tt
      | None => ret tt
      end ;;;
      zoom lm_cache set_cache (store sha256_checksum kind entry_id version payload checksum now)
  end.

(** [release], [release_for_execution], [release_all] *)
Definition release_lock (kind entry_id : string) : M LockManager bool :=
  m <- get ;;
  modify (set_locks (delete (kind, entry_id) (lm_locks m))) ;;;
  ret (has_key (kind, entry_id) (lm_locks m)).

Definition locked_by (execution_id : string) (d : pydict (string * string) VersionLock) :
    list (string * string) :=
  (base.filter (λ kv, vl_execution_id kv.2 = execution_id) (items d)).*1.

Definition release_for_execution (execution_id : string) : M LockManager Z :=
  m <- get ;;
  let doomed := locked_by execution_id (lm_locks m) in
  modify (set_locks (foldl (λ d k, delete k d) (lm_locks m) doomed)) ;;;
  ret (Z.of_nat (length doomed)).

Definition release_all : M LockManager Z :=
  m <- get ;;
  modify (set_locks ∅) ;;;
  ret (Z.of_nat (dict_len (lm_locks m))).

Definition get_lock (kind entry_id : string) (m : LockManager) : option VersionLock :=
  lm_locks m !! (kind, entry_id).

(** [list_locks]: by kind, entry and version. *)
Definition lock_le (a b : VersionLock) : Prop :=
  if decide (vl_kind a = vl_kind b) then
    if decide (vl_entry_id a = vl_entry_id b) then String.le (vl_version a) (vl_version b)
    else String.le (vl_entry_id a) (vl_entry_id b)
  else String.le (vl_kind a) (vl_kind b).
#[export] Instance lock_le_dec : RelDecision lock_le.
Proof. intros a b. unfold lock_le. repeat case_decide; apply _. Defined.
Definition list_locks (m : LockManager) : list VersionLock := stable_sort lock_le (values (lm_locks m)).
End locks.

(** ** Resolution *)

Section resolution.
Context (sha256_checksum : string → string).
#[local] Abbreviation resolve_pinned := (resolve_pinned sha256_checksum).
#[local] Abbreviation get_usable := (get_usable sha256_checksum).

Lemma list_cached_one t c :
  list_cached (Some (kind_of t)) c = Ok (entry_status (kind_of t) <$> by_entry (rows_of t c)).
Proof.
  unfold list_cached. cbn. rewrite (proj2 (resolve_table_Ok (kind_of t) t) eq_refl). cbn.
  by rewrite app_nil_r.
Qed.

Lemma filter_status kind id rows :
  base.filter (λ s, es_id s = id) (entry_status kind <$> rows) = entry_status kind <$> sql_select (has_entry_id id) rows.
Proof.
  induction rows as [|r l IH]; [done|]. csimpl. rewrite filter_cons, sql_select_cons.
  unfold has_entry_id at 1. cbn. case_decide as E; rewrite IH; [by rewrite bool_decide_eq_true_2|].
  by rewrite bool_decide_eq_false_2.
Qed.

(** The version taken is that of the newest row, if it is acknowledged. *)
Lemma latest_acked_version_spec t id c :
  cache_ok c →
  latest_acked_version (kind_of t) id c =
  Ok (match head (newest_first (sql_select (has_entry_id id) (rows_of t c))) with
      | Some r => if decide (cr_state r = StateAcked) then Some (cr_version r) else None
      | None => None
      end).
Proof.
  intros Hc. unfold latest_acked_version. rewrite list_cached_one. cbn [mbind res_mbind res_bind].
  rewrite filter_status, <- (first_listed_newest _ _ (Hc t)). unfold sql_first. f_equal.
  by destruct (sql_select _ _).
Qed.

(** What resolving a version means. With a lock, the locked version is read and
    nothing changes. Without one, the version is that of the newest cached row, which must
    be acknowledged and intact; offline it is then locked for this execution, online it is
    not. On an exception nothing changes. The empty version the code falls back to never
    occurs. *)
Theorem resolve_pinned_contract (kind id execution : string) (now : Z) (m : LockManager)
  (Hc : cache_ok (lm_cache m)) :
  match resolve_pinned kind id execution now m with
  | (Raise _, m') => m' = m
  | (Ok (v, p), m') =>
      get_usable kind id (Some v) true (lm_cache m) = Ok p
      ∧ match lm_locks m !! (kind, id) with
        | Some l => v = vl_version l ∧ m' = m
        | None =>
            (∃ t r, kind = kind_of t ∧ cr_version r = v ∧ cr_state r = StateAcked ∧
              head (newest_first (sql_select (has_entry_id id) (rows_of t (lm_cache m)))) = Some r)
            ∧ m' = if lm_online m then m else add_lock (mkLock kind id v execution now) m
        end
  end.
Proof.
  unfold VersionLock.resolve_pinned. rewrite bind_get.
  destruct (lm_locks m !! (kind, id)) as [l|] eqn:Hl.
  { unfold cache_get, bind, get. cbn. destruct (CacheStore.get_usable _ _ _ _ _ _) eqn:Hg; by cbn. }
  destruct (resolve_table kind) as [t|e] eqn:Ht.
  2: { unfold latest_acked_version, list_cached. cbn. by rewrite Ht. }
  apply resolve_table_Ok in Ht as ->. rewrite latest_acked_version_spec by done.
  unfold bind at 1. cbn [lift ret].
  destruct (head (newest_first _)) as [r|] eqn:Hh; cycle 1.
  { unfold cache_get, bind, get, CacheStore.get_usable.
    rewrite (proj2 (resolve_table_Ok (kind_of t) t) eq_refl). cbn. by rewrite Hh. }
  assert (r ∈ rows_of t (lm_cache m) ∧ cr_id r = id) as [Hr Hid].
  { assert (r ∈ newest_first (sql_select (has_entry_id id) (rows_of t (lm_cache m)))) as Hin
      by (destruct (newest_first _); [done|]; injection Hh as ->; left).
    unfold newest_first in Hin. rewrite merge_sort_Permutation in Hin.
    apply elem_of_select in Hin as [? ?%bool_decide_eq_true]. done. }
  unfold cache_get, bind, get. cbn beta iota. case_decide as Hs; cbn [lift ret].
  - rewrite (get_pinned sha256_checksum t id (cr_version r) r) by (done || by rewrite <- Hid).
    destruct (serve sha256_checksum (kind_of t) id true r) as [p|e] eqn:Hv; cbn; [|done].
    destruct (lm_online m); cbn; (split; [|split; [by exists t, r|done]]);
      by rewrite (get_pinned sha256_checksum t id (cr_version r) r) by (done || by rewrite <- Hid).
  - unfold CacheStore.get_usable. rewrite (proj2 (resolve_table_Ok (kind_of t) t) eq_refl).
    cbn [mbind res_mbind res_bind]. rewrite Hh. unfold serve. case_decide; [|done].
    by rewrite bool_decide_eq_false_2.
Qed.

(** ** Pinned versions *)

Inductive lock_op : Type :=
  | LOnline (online : bool)
  | LAcquire (kind id version execution : string) (now : Z)
  | LResolve (kind id execution : string) (now : Z)
  | LUpdate (kind id version payload : string) (checksum : option string) (now : Z)
  | LAck (kind id version : string) (at_ : option Z) (now : Z)   (* the cloud acknowledges a version *)
  | LRelease (kind id : string)
  | LReleaseExecution (execution : string)
  | LReleaseAll.

Definition run_lock_op (op : lock_op) (m : LockManager) : LockManager :=
  match op with
  | LOnline b => set_online b m
  | LAcquire k i v e now => (acquire_lock sha256_checksum k i v e now m).2
  | LResolve k i e now => (resolve_pinned k i e now m).2
  | LUpdate k i v p ck now => (store_update sha256_checksum k i v p ck now m).2
  | LAck k i v a now => set_cache (mark_acked_entry k i v a now (lm_cache m)).2 m
  | LRelease k i => (release_lock k i m).2
  | LReleaseExecution e => (release_for_execution e m).2
  | LReleaseAll => (release_all m).2
  end.
Definition run_locks (ops : list lock_op) (m : LockManager) : LockManager :=
  foldl (λ m op, run_lock_op op m) m ops.

(** The operation releases this lock. *)
Definition releases (l : VersionLock) (op : lock_op) : Prop :=
  match op with
  | LRelease k i => k = vl_kind l ∧ i = vl_entry_id l
  | LReleaseExecution e => e = vl_execution_id l
  | LReleaseAll => True
  | _ => False
  end.

(** The lock is in the table, and its version is there, acknowledged, with payload [p]. *)
Record pinned (l : VersionLock) (p : string) (m : LockManager) : Prop := {
  pi_cache : cache_ok (lm_cache m);
  pi_wf : dict_wf (lm_locks m);
  pi_lock : lm_locks m !! (vl_kind l, vl_entry_id l) = Some l;
  pi_row : ∃ t r, vl_kind l = kind_of t ∧ r ∈ rows_of t (lm_cache m)
    ∧ entry_key r = (vl_entry_id l, vl_version l) ∧ cr_payload r = p
    ∧ sha256_checksum p = cr_checksum r ∧ cr_state r = StateAcked
}.

Lemma pinned_usable l p m :
  cache_ok (lm_cache m) → dict_wf (lm_locks m) → lm_locks m !! (vl_kind l, vl_entry_id l) = Some l →
  pinned l p m ↔ get_usable (vl_kind l) (vl_entry_id l) (Some (vl_version l)) true (lm_cache m) = Ok p.
Proof.
  intros Hc Hwf Hl. split.
  - intros [_ _ _ (t & r & -> & Hr & Hk & Hp & Hs & Hst)].
    rewrite (get_pinned sha256_checksum t _ _ r) by done. unfold serve.
    rewrite Hp, decide_True by done. by rewrite bool_decide_eq_true_2.
  - intros (t & r & Ht & Hr & Hi & Hv & Hp & Hs & Hst)%get_usable_row. split; [done..|].
    exists t, r. split_and!; try done; [|by apply Hst]. unfold entry_key. by rewrite Hi, (Hv _ eq_refl).
Qed.

Lemma pinned_set_locks l p m d :
  pinned l p m → dict_wf d → d !! (vl_kind l, vl_entry_id l) = Some l → pinned l p (set_locks d m).
Proof. by intros [] ??. Qed.

Lemma lookup_delete_keys (ks : list (string * string)) (d : pydict (string * string) VersionLock) k :
  foldl (λ d k, delete k d) d ks !! k = if decide (k ∈ ks) then None else d !! k.
Proof.
  revert d. induction ks as [|k' ks IH]; intros d; cbn.
  { rewrite decide_False; [done|apply not_elem_of_nil]. }
  rewrite IH, dict_lookup_delete. destruct (decide (k ∈ ks)).
  - by rewrite decide_True by (by right).
  - destruct (decide (k' = k)) as [->|Hne]; [by rewrite decide_True by left|].
    rewrite decide_False; [done|]. rewrite elem_of_cons. intros [?|?]; congruence.
Qed.

Lemma add_lock_pinned l p m l' :
  pinned l p m → lm_locks m !! (vl_kind l', vl_entry_id l') = None → pinned l p (add_lock l' m).
Proof.
  intros Hp Hn. apply pinned_set_locks; [done|by apply dict_wf_insert, Hp|].
  rewrite dict_lookup_insert_ne; [apply Hp|]. intros E. pose proof (pi_lock _ _ _ Hp). congruence.
Qed.

Lemma acquire_state k i v e now m :
  (acquire_lock sha256_checksum k i v e now m).2 = m
  ∨ lm_locks m !! (k, i) = None ∧
    (acquire_lock sha256_checksum k i v e now m).2 = add_lock (mkLock k i v e now) m.
Proof.
  unfold acquire_lock. rewrite bind_get. destruct (lm_online m); [by left|].
  destruct (lm_locks m !! (k, i)) as [x|] eqn:E; [left; by case_decide|].
  unfold cache_get, bind, get. destruct (CacheStore.get_usable _ _ _ _ _ _); [by right|by left].
Qed.

Lemma resolve_state k i e now m :
  (resolve_pinned k i e now m).2 = m
  ∨ lm_locks m !! (k, i) = None ∧ ∃ v,
    (resolve_pinned k i e now m).2 = add_lock (mkLock k i v e now) m.
Proof.
  unfold VersionLock.resolve_pinned. rewrite bind_get.
  destruct (lm_locks m !! (k, i)) as [x|] eqn:E; unfold cache_get, bind, get.
  - left. cbn. by destruct (CacheStore.get_usable _ _ _ _ _ _).
  - destruct (latest_acked_version _ _ _) as [v|]; [|by left]. cbn.
    destruct (CacheStore.get_usable _ _ _ _ _ _); [|by left]. cbn.
    destruct (lm_online m); [by left|]. right. eauto.
Qed.

(** Rows of other keys survive a store, acknowledged ones an acknowledgement. *)
Lemma store_keeps_row t r k i v p ck now c :
  cache_ok c → r ∈ rows_of t c → (k, (i, v)) ≠ (kind_of t, entry_key r) →
  r ∈ rows_of t (store sha256_checksum k i v p ck now c).2.
Proof.
  intros Hc Hr Hne. pose proof (store_spec sha256_checksum k i v p ck now c Hc) as H.
  destruct (store _ _ _ _ _ _ _ c) as [[[]|e] c']; cbn; [|by destruct H as (-> & _)].
  destruct H as (t' & -> & _ & [(r' & _ & _ & _ & _ & ->)|(_ & ->)]); [done|].
  rewrite rows_of_set. case_decide; [subst|done]. apply elem_of_app. left. apply elem_of_delete.
  split; [done|]. apply has_entry_false. intros [E1 E2]. apply Hne. unfold entry_key. by rewrite E1, E2.
Qed.

Lemma run_lock_op_pinned l p op m :
  ¬ releases l op → pinned l p m → pinned l p (run_lock_op op m).
Proof.
  intros Hrel Hp. destruct op as [b|k i v e now|k i e now|k i v p' ck now|k i v a now|k i|e|]; cbn [run_lock_op releases] in Hrel |- *.
  - by destruct Hp.
  - destruct (acquire_state k i v e now m) as [->|[? ->]]; [done|by apply add_lock_pinned].
  - destruct (resolve_state k i e now m) as [->|[? [v ->]]]; [done|by apply add_lock_pinned].
  - unfold store_update. destruct (resolve_table k); [|done]. rewrite bind_get.
    assert (∀ (f : M LockManager unit), f m = (Ok tt, m) → (k, (i, v)) ≠ (vl_kind l, (vl_entry_id l, vl_version l)) →
      pinned l p (bind f (λ _, zoom lm_cache set_cache (store sha256_checksum k i v p' ck now)) m).2) as Hz.
    { intros f Hf Hne. rewrite (bind_ok _ _ _ _ _ Hf). unfold zoom.
      pose proof (run_cache_op_ok sha256_checksum (CStore k i v p' ck now) _ (pi_cache _ _ _ Hp)) as Hok.
      cbn in Hok. destruct Hp as [Hc Hwf Hl (t & r & Ht & Hr & Hk & ? & ? & ?)].
      pose proof (store_keeps_row t r k i v p' ck now (lm_cache m) Hc Hr) as Hin.
      destruct (store _ _ _ _ _ _ _ (lm_cache m)) as [x c']. cbn in *. split; [done..|].
      exists t, r. split_and!; try done. apply Hin. by rewrite Hk, <- Ht. }
    destruct (lm_locks m !! (k, i)) as [x|] eqn:Hx.
    + case_decide as Hv; [done|]. apply Hz; [done|]. intros [= -> -> ->].
      pose proof (pi_lock _ _ _ Hp). congruence.
    + apply Hz; [done|]. intros [= -> -> ->]. pose proof (pi_lock _ _ _ Hp). congruence.
  - pose proof (run_cache_op_ok sha256_checksum (CAck k i v a now) _ (pi_cache _ _ _ Hp)) as Hok. cbn in Hok.
    destruct Hp as [Hc Hwf Hl (t & r & Ht & Hr & Hk & Hpl & Hs & Hst)]. split; [done..|].
    cbn [lm_cache set_cache].
    destruct (mark_acked_entry_state k i v a now (lm_cache m)) as [->|(t' & _ & ->)];
      [exists t, r; by split_and!|].
    destruct (decide (t' = t)) as [->|Hne].
    + exists t, (if has_entry i v r then ack_row (default now a) r else r).
      rewrite rows_of_set_eq. split_and!; [done|apply elem_of_update; eauto|by case_match..].
    + exists t, r. rewrite rows_of_set, decide_False by done. by split_and!.
  - apply pinned_set_locks; [done|by apply dict_wf_delete, Hp|].
    rewrite dict_lookup_delete_ne; [apply Hp|]. intros [= -> ->]. by apply Hrel.
  - assert (∀ ks (d : pydict (string * string) VersionLock), dict_wf d → dict_wf (foldl (λ d k, delete k d) d ks)) as Hdw.
    { induction ks as [|k ks IH]; intros d Hd; [done|]. by apply IH, dict_wf_delete. }
    apply pinned_set_locks; [done|by apply Hdw, Hp|]. rewrite lookup_delete_keys.
    rewrite decide_False; [apply Hp|]. unfold locked_by.
    intros ((k & l') & E & [He Hin]%list_elem_of_filter)%list_elem_of_fmap. cbn in *. subst k.
    apply elem_of_items in Hin; [|apply Hp]. pose proof (pi_lock _ _ _ Hp) as Hl. cbn in *.
    rewrite Hl in Hin. by injection Hin as <-.
  - done.
Qed.

(** A pinned version is immutable. Once a version is locked and readable, then through
    any sequence of lock-manager calls (updates of every entry, acknowledgements, other
    executions acquiring and resolving, going online and offline) that do not release this
    lock, the lock stays and every resolution of the entry, by whichever execution, answers
    the same version with the same payload. *)
Theorem pinned_version_immutable (l : VersionLock) (p : string) (ops : list lock_op) (m : LockManager)
  (Hc : cache_ok (lm_cache m)) (Hwf : dict_wf (lm_locks m))
  (Hl : lm_locks m !! (vl_kind l, vl_entry_id l) = Some l)
  (Hp : get_usable (vl_kind l) (vl_entry_id l) (Some (vl_version l)) true (lm_cache m) = Ok p)
  (Hops : Forall (λ op, ¬ releases l op) ops) (execution : string) (now : Z) :
  let m' := run_locks ops m in
  lm_locks m' !! (vl_kind l, vl_entry_id l) = Some l
  ∧ resolve_pinned (vl_kind l) (vl_entry_id l) execution now m' = (Ok (vl_version l, p), m').
Proof.
  cbn zeta. assert (pinned l p (run_locks ops m)) as H.
  { apply pinned_usable in Hp; [|done..]. clear -Hp Hops. revert m Hp.
    induction Hops as [|op ops Hop _ IH]; intros m Hp; [done|]. by apply IH, run_lock_op_pinned. }
  split; [apply H|]. unfold VersionLock.resolve_pinned. rewrite bind_get, (pi_lock _ _ _ H).
  apply pinned_usable in H as Hg; [|apply H..]. unfold cache_get, bind, get. by rewrite Hg.
Qed.
End resolution.

(** ** Examples *)

Definition example_manager : LockManager :=
  run_locks toy_hash [LOnline false; LResolve "sequence" "s" "run1" 10]
    (new_lock_manager (run_cache toy_hash
       [CStore "sequence" "s" "v1" "old" None 1; CAck "sequence" "s" "v1" None 2]%Z empty_store)).

Definition example_lock_ops : list lock_op :=
  [LUpdate "sequence" "s" "v2" "new" None 11; LAck "sequence" "s" "v2" None 12;
   LUpdate "sequence" "s" "v1" "evil" None 13; LAcquire "sequence" "s" "v2" "run2" 14;
   LReleaseExecution "run2"].

Lemma example_cache_ok ops : cache_ok (run_cache toy_hash ops empty_store).
Proof.
  induction ops as [|op ops IH] using rev_ind; [apply empty_store_ok|].
  unfold run_cache. rewrite foldl_app. by apply run_cache_op_ok.
Qed.

Lemma pinned_version_immutable_witness :
  (resolve_pinned toy_hash "sequence" "s" "run3" 15 (run_locks toy_hash example_lock_ops example_manager)).1
  = Ok ("v1", "old").
Proof.
  assert (cache_ok (lm_cache example_manager)) as Hc by exact (example_cache_ok _).
  assert (Forall (λ op, ¬ releases (mkLock "sequence" "s" "v1" "run1" 10) op) example_lock_ops) as Hops.
  { unfold example_lock_ops. repeat (apply List.Forall_cons;
      [cbn; intros H; solve [destruct H|discriminate H]|]). apply List.Forall_nil. }
  pose proof (proj2 (pinned_version_immutable toy_hash (mkLock "sequence" "s" "v1" "run1" 10) "old"
    example_lock_ops example_manager Hc
    ltac:(apply (bool_decide_unpack _); vm_compute; exact I) eq_refl eq_refl
    Hops "run3" 15)) as H.
  exact (f_equal fst H).
Defined.

(** An update that arrives offline makes the entry unusable for new executions until it is
    acknowledged, although an older acknowledged version is there. *)
Example update_blocks_new_executions :
  let m := run_locks toy_hash [LRelease "sequence" "s"; LUpdate "sequence" "s" "v2" "new" None 11] example_manager in
  (resolve_pinned toy_hash "sequence" "s" "run2" 12 m).1 = Raise (NotAckedError "sequence" "s" "v2")
  ∧ get_usable toy_hash "sequence" "s" (Some "v1") true (lm_cache m) = Ok "old".
Proof. vm_compute. split; reflexivity. Qed.

Lemma resolve_pinned_contract_witness :
  ∃ m', resolve_pinned toy_hash "sequence" "s" "run2" 12 example_manager = (Ok ("v1", "old"), m')
  ∧ m' = example_manager.
Proof.
  assert (cache_ok (lm_cache example_manager)) as Hc by exact (example_cache_ok _).
  pose proof (resolve_pinned_contract toy_hash "sequence" "s" "run2" 12 example_manager Hc) as H.
  eexists. split; [vm_compute; reflexivity|].
  destruct (resolve_pinned toy_hash "sequence" "s" "run2" 12 example_manager) as [[[v p]|e] m'] eqn:E.
  - vm_compute in E. injection E as <- <- <-. reflexivity.
  - vm_compute in E. discriminate.
Defined.
