(* ===== verification/ScriptCache.v ===== *)
(** * The script cache (src/src/ate_platform/offline/script_cache.py)

    Scripts on disk: a content file and a JSON sidecar per version, in one directory per
    script. The disk is a map from (directory, file name) to content; a write is a temporary
    file renamed into place, so it is atomic. SHA-256 and the JSON codec of the sidecar are
    parameters; a sidecar that does not decode counts as absent, as in the code. *)

From S2P Require Import Prelude PyDict PyStr CacheStore.

Definition CONTENT_SUFFIX : string := ".script".
Definition META_SUFFIX : string := ".meta.json".

Record ScriptMeta : Type := mkMeta {
  sm_script_id : string;
  sm_version : string;
  sm_sha256 : string;
  sm_stored_at : Z;
  sm_seq : Z;
  sm_size : Z
}.

Record ScriptStatus : Type := mkScriptStatus {
  ss_script_id : string;
  ss_version : string;
  ss_checksum : string;
  ss_stored_at : Z;
  ss_size_bytes : Z;
  ss_intact : bool
}.

(** The files under the cache root. *)
Definition Path : Type := string * string.
Definition Disk : Type := pydict Path string.

(** ** Names *)

(** [quote(raw, safe="")]: letters, digits and [_.-~] stay, other bytes become %XX. *)
Definition hex_upper (n : nat) : ascii := ascii_of_nat (if (n <? 10)%nat then 48 + n else 55 + n).
Definition unreserved (a : ascii) : bool :=
  is_alpha a || is_digit a || bool_decide (a ∈ ["_"%char; "."%char; "-"%char; "~"%char]).
Fixpoint quote (s : string) : string :=
  match s with
  | EmptyString => ""
  | String a s' =>
      if unreserved a then String a (quote s')
      else String "%" (String (hex_upper (nat_of_ascii a / 16))
             (String (hex_upper (nat_of_ascii a mod 16)) (quote s')))
  end.

Definition starts_with_dot (s : string) : bool :=
  match s with String "." _ => true | _ => false end.

(** [_safe_name] *)
Definition safe_name (raw : string) : res string :=
  let encoded := quote raw in
  if bool_decide (encoded = "") || starts_with_dot encoded
  then Raise (ValueError ("unusable cache name derived from " +:+ repr_str raw))
  else Ok encoded.

(** [Path.with_suffix]: the part from the last dot on is replaced, unless that dot is the
    first or the last character of the name. *)
Fixpoint last_suffix (s : string) : option (string * string) :=
  match s with
  | EmptyString => None
  | String a s' =>
      match last_suffix s' with
      | Some (stem, suffix) => Some (String a stem, suffix)
      | None => if Ascii.eqb a "." then Some ("", s) else None
      end
  end.
Definition stem (name : string) : string :=
  match last_suffix name with
  | Some (base, suffix) =>
      if bool_decide (base = "") || bool_decide (suffix = ".") then name else base
  | None => name
  end.
Definition with_suffix (name suffix : string) : string := stem name +:+ suffix.

(** [glob("*" + suffix)] *)
Fixpoint ends_with (suffix s : string) : bool :=
  bool_decide (s = suffix) || match s with String _ s' => ends_with suffix s' | EmptyString => false end.

Definition script_name (id version : string) : string := "scripts/" +:+ id +:+ "@" +:+ version.
Definition ScriptMissError (id : string) : exc :=
  CustomError "ScriptMissError" ("scripts/" +:+ id +:+ ": no cached versions").
Definition ScriptVersionMismatchError (id version : string) : exc :=
  CustomError "ScriptVersionMismatchError" (script_name id version +:+ ": version never cached").
Definition ScriptCorruptionError (id first_bad : string) : exc :=
  CustomError "ScriptCorruptionError" ("scripts/" +:+ id
    +:+ ": all cached versions failed verification (newest bad: "
    +:+ (if decide (first_bad = "") then "?" else first_bad) +:+ ") — refusing to serve").

Section scripts.
Context (sha256 : string → string) (json_dumps : ScriptMeta → string)
  (json_loads : string → option ScriptMeta).

(** [_script_dir], [_paths] *)
Definition script_dir (script_id : string) : res string := safe_name script_id.
Definition paths (script_id version : string) : res (Path * Path) :=
  dir ← script_dir script_id;
  base ← safe_name version;
  Ok ((dir, with_suffix base CONTENT_SUFFIX), (dir, with_suffix base META_SUFFIX)).

Definition read_meta (path : Path) (d : Disk) : option ScriptMeta := d !! path ≫= json_loads.

(** [m["stored_at"], m["seq"]], descending. *)
Definition meta_newer (a b : ScriptMeta) : Prop :=
  (sm_stored_at b < sm_stored_at a ∨ sm_stored_at b = sm_stored_at a ∧ sm_seq b ≤ sm_seq a)%Z.
#[export] Instance meta_newer_dec : RelDecision meta_newer.
Proof. intros a b. unfold meta_newer. apply _. Defined.

(** The sidecars of a directory. *)
Definition metas_in (dir : string) (d : Disk) : list ScriptMeta :=
  '(path, content) ← items d;
  if bool_decide (path.1 = dir) && ends_with META_SUFFIX path.2
  then option_list (json_loads content) else [].

(** [_iter_metas]: the versions of a script, newest first. *)
Definition iter_metas (script_id : string) (d : Disk) : res (list ScriptMeta) :=
  dir ← script_dir script_id;
  Ok (stable_sort meta_newer (metas_in dir d)).

(** [max(seqs, default=-1) + 1] *)
Definition next_seq (script_id : string) (d : Disk) : res Z :=
  metas ← iter_metas script_id d;
  Ok (match sm_seq <$> metas with
      | [] => 0
      | s :: l => foldr Z.max s l + 1
      end)%Z.

(** [_verify] *)
Definition verify (path : Path) (expected_sha : string) (d : Disk) : bool :=
  match d !! path with Some content => bool_decide (sha256 content = expected_sha) | None => false end.

(** [store_script]; both renames are atomic. Reading back the temporary file gives what was
    written to it. *)
Definition store_script (script_id version content : string) (checksum : option string) (now : Z) :
    M Disk unit :=
  if bool_decide (script_id = "") || bool_decide (version = "")
  then raise (ValueError "script_id and version must be non-empty")
  else
    let computed := sha256 content in
    match checksum with
    | Some provided =>
        if decide (provided = computed) then ret tt
        else raise (ValueError ("checksum mismatch for " +:+ script_name script_id version
               +:+ ": provided " +:+ prefix12 provided +:+ "… != computed " +:+ prefix12 computed +:+ "…"))
    | None => ret tt
    end ;;;
    p <- lift (paths script_id version) ;;
    let '(content_path, meta_path) := p in
    d <- get ;;
    if match read_meta meta_path d with
       | Some existing => bool_decide (sm_sha256 existing = computed) && verify content_path computed d
       | None => false
       end
    then ret tt
    else
      modify (insert content_path content) ;;;
      d <- get ;;
      seq <- lift (next_seq script_id d) ;;
      let meta := mkMeta script_id version computed now seq (Z.of_nat (String.length content)) in
      modify (insert meta_path (json_dumps meta)).

(** The loop over the candidates. *)
Fixpoint first_intact (script_id : string) (candidates : list ScriptMeta) (first_bad : option string)
    (d : Disk) : res string :=
  match candidates with
  | [] => Raise (ScriptCorruptionError script_id (default "" first_bad))
  | m :: candidates' =>
      p ← paths script_id (sm_version m);
      match (if verify p.1 (sm_sha256 m) d then d !! p.1 else None) with
      | Some content => Ok content
      | None =>
          first_intact script_id candidates'
            (match first_bad with Some _ => first_bad | None => Some (sm_version m) end) d
      end
  end.

(** [get_script] *)
Definition get_script (script_id : string) (version : option string) (d : Disk) : res string :=
  metas ← iter_metas script_id d;
  match metas with
  | [] => Raise (ScriptMissError script_id)
  | _ =>
      match version with
      | None => first_intact script_id metas None d
      | Some v =>
          match base.filter (λ m, sm_version m = v) metas with
          | [] => Raise (ScriptVersionMismatchError script_id v)
          | pinned =>
              first_intact script_id (pinned ++ base.filter (λ m, sm_version m ≠ v) metas) None d
          end
      end
  end.

(** [_all_ids] *)
Definition all_ids (d : Disk) : list string :=
  py_sorted (remove_dups ('(path, content) ← items d;
    if ends_with META_SUFFIX path.2 then
      match json_loads content with
      | Some m => if decide (sm_script_id m = "") then [] else [sm_script_id m]
      | None => []
      end
    else [])).

Definition script_status (sid : string) (d : Disk) (m : ScriptMeta) : res ScriptStatus :=
  p ← paths sid (sm_version m);
  Ok (mkScriptStatus sid (sm_version m) (sm_sha256 m) (sm_stored_at m) (sm_size m)
        (verify p.1 (sm_sha256 m) d)).

Definition status_le (a b : ScriptStatus) : Prop :=
  if decide (ss_script_id a = ss_script_id b) then (ss_stored_at b ≤ ss_stored_at a)%Z
  else String.le (ss_script_id a) (ss_script_id b).
#[export] Instance status_le_dec : RelDecision status_le.
Proof. intros a b. unfold status_le. case_decide; apply _. Defined.

(** [list_scripts] *)
Definition list_scripts (script_id : option string) (d : Disk) : res (list ScriptStatus) :=
  let ids := match script_id with Some s => [s] | None => all_ids d end in
  entries ← mapM (λ sid, metas ← iter_metas sid d; mapM (script_status sid d) metas) ids;
  Ok (stable_sort status_le (mjoin entries)).

(** One version's two files. *)
Definition unlink (path : Path) : M Disk bool :=
  d <- get ;; modify (delete path) ;;; ret (has_key path d).

(** [delete] *)
Definition delete_script (script_id : string) (version : option string) : M Disk Z :=
  d <- get ;;
  metas <- lift (iter_metas script_id d) ;;
  let targets := sm_version <$> metas in
  let targets := match version with Some v => base.filter (.= v) targets | None => targets end in
  (fix go targets removed :=
     match targets with
     | [] => ret removed
     | ver :: targets' =>
         p <- lift (paths script_id ver) ;;
         unlink p.1 ;;;
         had_meta <- unlink p.2 ;;
         go targets' (if (had_meta : bool) then removed + 1 else removed)%Z
     end) targets 0%Z.

(** [prune] *)
Definition prune_scripts (keep_last_n : Z) : M Disk Z :=
  if (keep_last_n <? 1)%Z then raise (ValueError "keep_last_n must be >= 1")
  else
    d <- get ;;
    (fix go ids removed :=
       match ids with
       | [] => ret removed
       | sid :: ids' =>
           d <- get ;;
           metas <- lift (iter_metas sid d) ;;
           r <- (fix go' vers removed :=
                   match vers with
                   | [] => ret removed
                   | ver :: vers' => n <- delete_script sid (Some ver) ;; go' vers' (removed + n)%Z
                   end) (drop (Z.to_nat keep_last_n) (sm_version <$> metas)) removed ;;
           go ids' r
       end) (all_ids d) 0%Z.
End scripts.

(** ** Reading *)

Lemma ends_with_refl s : ends_with s s = true.
Proof. destruct s; cbn; by rewrite bool_decide_eq_true_2. Qed.

Lemma ends_with_app s suffix : ends_with suffix (s +:+ suffix) = true.
Proof.
  induction s as [|a s IH]; str_simp; [apply ends_with_refl|]. cbn. rewrite IH. apply orb_true_r.
Qed.

Section reading.
Context (sha256 : string → string) (json_loads : string → option ScriptMeta).
#[local] Abbreviation get_script := (get_script sha256 json_loads).

Lemma elem_of_metas_in dir d m :
  m ∈ metas_in json_loads dir d ↔
  ∃ path content, (path, content) ∈ items d ∧ path.1 = dir ∧ ends_with META_SUFFIX path.2 = true
    ∧ json_loads content = Some m.
Proof.
  unfold metas_in. rewrite list_elem_of_bind. split.
  - intros ([path content] & Hm & Hin). destruct (bool_decide _ && _) eqn:E; [|by apply elem_of_nil in Hm].
    apply andb_true_iff in E as [?%bool_decide_eq_true ?]. exists path, content. split_and!; [done..|].
    destruct (json_loads content); cbn in Hm; [|by apply elem_of_nil in Hm].
    by apply list_elem_of_singleton in Hm as ->.
  - intros (path & content & Hin & Hp & He & Hl). exists (path, content). split; [|done].
    rewrite bool_decide_eq_true_2, He, Hl by done. cbn. left.
Qed.

Lemma first_intact_Ok sid ms bad d c :
  first_intact sha256 sid ms bad d = Ok c →
  ∃ m p, m ∈ ms ∧ paths sid (sm_version m) = Ok p ∧ d !! p.1 = Some c ∧ sha256 c = sm_sha256 m.
Proof.
  revert bad. induction ms as [|m ms IH]; intros bad; cbn; [done|].
  intros (p & Hp & H)%res_bind_Ok. destruct (verify sha256 p.1 (sm_sha256 m) d) eqn:Hv.
  - unfold verify in Hv. destruct (d !! p.1) as [c'|] eqn:Hc; [|done]. injection H as ->.
    apply bool_decide_eq_true in Hv. exists m, p. split; [left|done].
  - destruct (IH _ H) as (m' & p' & ? & ?). exists m', p'. split; [by right|done].
Qed.

(** The first candidate that verifies is served. *)
Lemma first_intact_head sid m ms bad d p c :
  paths sid (sm_version m) = Ok p → d !! p.1 = Some c → sha256 c = sm_sha256 m →
  first_intact sha256 sid (m :: ms) bad d = Ok c.
Proof.
  intros Hp Hc Hs. cbn. rewrite Hp. cbn. unfold verify. rewrite Hc. by rewrite bool_decide_eq_true_2.
Qed.

(** Damaged scripts are never served. Whatever is on the disk, content that
    [get_script] returns is the content file of a version with a sidecar in the script's
    directory, and its hash is the one the sidecar records. *)
Theorem served_is_verified (sid c : string) (v : option string) (d : Disk)
  (H : get_script sid v d = Ok c) :
  ∃ dir m p, script_dir sid = Ok dir ∧ m ∈ metas_in json_loads dir d
    ∧ paths sid (sm_version m) = Ok p ∧ d !! p.1 = Some c ∧ sha256 c = sm_sha256 m.
Proof.
  unfold ScriptCache.get_script in H. apply res_bind_Ok in H as (metas & Hm & H).
  unfold iter_metas in Hm. apply res_bind_Ok in Hm as (dir & Hdir & [= <-]).
  assert (∀ m, m ∈ stable_sort meta_newer (metas_in json_loads dir d) → m ∈ metas_in json_loads dir d) as Hsort.
  { intros m. by rewrite stable_sort_perm. }
  assert (∀ ms, (∀ m, m ∈ ms → m ∈ metas_in json_loads dir d) →
    first_intact sha256 sid ms None d = Ok c → ∃ dir m p, script_dir sid = Ok dir
    ∧ m ∈ metas_in json_loads dir d ∧ paths sid (sm_version m) = Ok p ∧ d !! p.1 = Some c ∧ sha256 c = sm_sha256 m)
    as Hfi.
  { intros ms Hms (m & p & Hin & ?)%first_intact_Ok. exists dir, m, p. split_and!; [done|by apply Hms|naive_solver..]. }
  destruct (stable_sort _ _) as [|m0 ms] eqn:E; [done|]. destruct v as [v|].
  - destruct (base.filter (λ m, sm_version m = v) (m0 :: ms)) as [|m1 ms1] eqn:E1; [done|].
    apply (Hfi _) in H; [done|]. intros m [Hin|Hin]%elem_of_app; apply Hsort.
    + rewrite <- E1 in Hin. by apply list_elem_of_filter in Hin as [_ ?].
    + by apply list_elem_of_filter in Hin as [_ ?].
  - by apply (Hfi _) in H.
Qed.
End reading.

(** ** Dotted versions *)

Section dotted.
Context (sha256 : string → string) (json_dumps : ScriptMeta → string)
  (json_loads : string → option ScriptMeta).
Hypothesis (Hcodec : ∀ m, json_loads (json_dumps m) = Some m).

(** The disk with the one version [m] of "fw", under the file names of 1.0.x. *)
Definition one_version (content : string) (m : ScriptMeta) : Disk :=
  PyDict [(("fw", "1.0.script"), content); (("fw", "1.0.meta.json"), json_dumps m)].

Lemma one_version_metas content m : iter_metas json_loads "fw" (one_version content m) = Ok [m].
Proof.
  unfold iter_metas. change (script_dir "fw") with (Ok "fw"). cbn [mbind res_mbind res_bind].
  assert (metas_in json_loads "fw" (one_version content m) = [m]) as ->; [|done].
  unfold metas_in, one_version. cbn [items].
  change (option_list (json_loads (json_dumps m)) ++ [] = [m]). by rewrite Hcodec.
Qed.

Lemma one_version_get content m v :
  sm_version m = v → v = "1.0.1" ∨ v = "1.0.2" → sm_sha256 m = sha256 content →
  get_script sha256 json_loads "fw" (Some v) (one_version content m) = Ok content.
Proof.
  intros Hv Hvs Hs. unfold get_script. rewrite one_version_metas. cbn [mbind res_mbind res_bind].
  rewrite filter_cons, decide_True by done. cbn [app].
  assert (paths "fw" (sm_version m) = Ok (("fw", "1.0.script"), ("fw", "1.0.meta.json"))) as Hp
    by (rewrite Hv; by destruct Hvs as [->| ->]).
  by apply (first_intact_head _ _ _ _ _ _ _ content Hp).
Qed.

Lemma one_version_store a m b t :
  sm_sha256 m ≠ sha256 b →
  (store_script sha256 json_dumps json_loads "fw" "1.0.2" b None t (one_version a m)).2
  = one_version b (mkMeta "fw" "1.0.2" (sha256 b) t (sm_seq m + 1) (Z.of_nat (String.length b))).
Proof.
  intros Hne. unfold store_script. cbn [bool_decide orb].
  change (bool_decide ("fw" = "") || bool_decide ("1.0.2" = "")) with false. cbn iota.
  rewrite bind_unit by done. cbn [ret snd].
  rewrite (bind_ok _ _ _ (("fw", "1.0.script"), ("fw", "1.0.meta.json")) (one_version a m)) by done.
  rewrite bind_get.
  assert (read_meta json_loads ("fw", "1.0.meta.json") (one_version a m) = Some m) as ->.
  { unfold read_meta. change (json_loads (json_dumps m) = Some m). apply Hcodec. }
  rewrite bool_decide_eq_false_2 by done. cbn [andb].
  rewrite bind_unit by done. rewrite bind_get.
  change (modify _ (one_version a m)).2 with (one_version b m).
  unfold next_seq. rewrite one_version_metas. cbn [mbind res_mbind res_bind fmap list_fmap foldr lift].
  done.
Qed.
End dotted.

(** Versions that differ after the last dot share their files. Caching 1.0.1 and then
    1.0.2 of a script leaves one version: [with_suffix] replaces ".1" and ".2" by the file
    suffix, so the second store overwrites both files of the first, and asking for 1.0.1
    fails although it was cached a moment ago. *)
Theorem dotted_versions_collide (sha256 : string → string) (json_dumps : ScriptMeta → string)
  (json_loads : string → option ScriptMeta) (a b : string) (t1 t2 : Z)
  (Hcodec : ∀ m, json_loads (json_dumps m) = Some m) (Hne : sha256 a ≠ sha256 b) :
  let d1 := (store_script sha256 json_dumps json_loads "fw" "1.0.1" a None t1 ∅).2 in
  let d2 := (store_script sha256 json_dumps json_loads "fw" "1.0.2" b None t2 d1).2 in
  get_script sha256 json_loads "fw" (Some "1.0.1") d1 = Ok a
  ∧ get_script sha256 json_loads "fw" (Some "1.0.2") d2 = Ok b
  ∧ get_script sha256 json_loads "fw" (Some "1.0.1") d2 = Raise (ScriptVersionMismatchError "fw" "1.0.1")
  ∧ dict_len d2 = 2.
Proof.
  cbn zeta. set (m1 := mkMeta "fw" "1.0.1" (sha256 a) t1 0 (Z.of_nat (String.length a))).
  change (store_script sha256 json_dumps json_loads "fw" "1.0.1" a None t1 ∅).2
    with (one_version json_dumps a m1).
  rewrite one_version_store by done. set (m2 := mkMeta _ "1.0.2" _ _ _ _).
  split_and!; [by apply one_version_get; auto|by apply one_version_get; auto| |done].
  unfold get_script. rewrite one_version_metas by done. done.
Qed.

(** ** Examples

    A codec for any countable type: its code in binary digits. *)

Fixpoint digits_of (p : positive) : string :=
  match p with
  | xH => ""
  | xO p => String "0" (digits_of p)
  | xI p => String "1" (digits_of p)
  end.
Fixpoint of_digits (s : string) : option positive :=
  match s with
  | EmptyString => Some xH
  | String "0" s => xO <$> of_digits s
  | String "1" s => xI <$> of_digits s
  | String _ _ => None
  end.
Lemma of_digits_of p : of_digits (digits_of p) = Some p.
Proof. by induction p as [p IH|p IH|]; cbn; rewrite ?IH. Qed.

#[export] Instance ScriptMeta_eq_dec : EqDecision ScriptMeta.
Proof. solve_decision. Defined.
#[export] Instance ScriptMeta_countable : Countable ScriptMeta.
Proof.
  apply (inj_countable' (λ m, (sm_script_id m, sm_version m, sm_sha256 m, sm_stored_at m, sm_seq m, sm_size m))
    (λ '(a, b, c, d, e, f), mkMeta a b c d e f)). by intros [].
Defined.

Definition bin_dumps (m : ScriptMeta) : string := digits_of (encode m).
Definition bin_loads (s : string) : option ScriptMeta := of_digits s ≫= decode.
Lemma bin_codec m : bin_loads (bin_dumps m) = Some m.
Proof. unfold bin_loads, bin_dumps. rewrite of_digits_of. apply decode_encode. Qed.

Definition example_disk : Disk :=
  (store_script toy_hash bin_dumps bin_loads "fw" "1.0.1" "A" None 5 ∅).2.

Lemma served_is_verified_witness :
  get_script toy_hash bin_loads "fw" None example_disk = Ok "A"
  ∧ ∃ m, sm_sha256 m = toy_hash "A" ∧ m ∈ metas_in bin_loads "fw" example_disk.
Proof.
  assert (get_script toy_hash bin_loads "fw" None example_disk = Ok "A") as H.
  { unfold example_disk. set (m := mkMeta "fw" "1.0.1" (toy_hash "A") 5 0 1).
    change (store_script toy_hash bin_dumps bin_loads "fw" "1.0.1" "A" None 5 ∅).2
      with (one_version bin_dumps "A" m).
    unfold get_script. rewrite (one_version_metas _ _ bin_codec). reflexivity. }
  split; [exact H|].
  destruct (served_is_verified toy_hash bin_loads "fw" "A" None example_disk H)
    as (dir & m & p & Hdir & Hm & _ & _ & Hs).
  injection Hdir as <-. exists m. split; [symmetry; exact Hs|exact Hm].
Defined.

Lemma dotted_versions_collide_witness :
  let d1 := (store_script toy_hash bin_dumps bin_loads "fw" "1.0.1" "A" None 5 ∅).2 in
  let d2 := (store_script toy_hash bin_dumps bin_loads "fw" "1.0.2" "B" None 6 d1).2 in
  get_script toy_hash bin_loads "fw" (Some "1.0.1") d2 = Raise (ScriptVersionMismatchError "fw" "1.0.1").
Proof.
  destruct (dotted_versions_collide toy_hash bin_dumps bin_loads "A" "B" 5 6 bin_codec ltac:(discriminate))
    as (_ & _ & H & _).
  exact H.
Defined.
