(* ===== verification/Heartbeat.v ===== *)
(** * Heartbeat monitor (src/src/ate_platform/offline/heartbeat.py)

    Decides whether the station is cut off from the cloud: a poll that finds the last beat
    too old is a miss, and enough consecutive misses turn the state to offline; one beat
    turns it back. Listeners are called on each turn, under the lock; [on_transition] says
    which of them raise. Times are integer ticks of the monotonic clock. *)

From S2P Require Import Prelude PyDict PyStr.

Inductive LinkState : Type := ONLINE | OFFLINE.
#[export] Instance LinkState_eq_dec : EqDecision LinkState.
Proof. solve_decision. Defined.

(** 10 seconds, in milliseconds. *)
Definition DEFAULT_HEARTBEAT_TIMEOUT_SECONDS : Z := 10000.
Definition DEFAULT_REQUIRED_MISSES : Z := 2.

Section monitor.
Context {L : Type} (on_transition : L → LinkState → LinkState → option exc).

Record HeartbeatMonitor : Type := mkMonitor {
  hm_timeout : Z;
  hm_required_misses : Z;
  hm_state : LinkState;
  hm_paused : bool;
  hm_misses : Z;
  hm_last_beat_at : option Z;
  hm_entered_offline_at : option Z;
  hm_baseline : Z;
  hm_listeners : list L;
  hm_calls : list (L * LinkState * LinkState)   (* the calls made, oldest first *)
}.

Record HeartbeatStatus : Type := mkHbStatus {
  hs_state : LinkState;
  hs_paused : bool;
  hs_consecutive_misses : Z;
  hs_last_beat_at : option Z;
  hs_seconds_since_last_beat : option Z;
  hs_entered_offline_at : option Z
}.

(** [__init__] *)
Definition new_monitor (timeout_seconds required_misses now : Z) : res HeartbeatMonitor :=
  if (timeout_seconds <=? 0)%Z then Raise (ValueError "timeout_seconds must be > 0")
  else if (required_misses <? 1)%Z then Raise (ValueError "required_misses must be >= 1")
  else Ok (mkMonitor timeout_seconds required_misses ONLINE false 0 None None now [] []).

Definition set_counters (misses : Z) (last : option Z) (baseline : Z) (m : HeartbeatMonitor) : HeartbeatMonitor :=
  mkMonitor (hm_timeout m) (hm_required_misses m) (hm_state m) (hm_paused m) misses last
    (hm_entered_offline_at m) baseline (hm_listeners m) (hm_calls m).
Definition set_misses (misses : Z) (m : HeartbeatMonitor) : HeartbeatMonitor :=
  set_counters misses (hm_last_beat_at m) (hm_baseline m) m.
Definition set_paused_flag (b : bool) (m : HeartbeatMonitor) : HeartbeatMonitor :=
  mkMonitor (hm_timeout m) (hm_required_misses m) (hm_state m) b (hm_misses m) (hm_last_beat_at m)
    (hm_entered_offline_at m) (hm_baseline m) (hm_listeners m) (hm_calls m).
Definition set_link (s : LinkState) (entered : option Z) (m : HeartbeatMonitor) : HeartbeatMonitor :=
  mkMonitor (hm_timeout m) (hm_required_misses m) s (hm_paused m) (hm_misses m) (hm_last_beat_at m)
    entered (hm_baseline m) (hm_listeners m) (hm_calls m).
Definition add_call (c : L * LinkState * LinkState) (m : HeartbeatMonitor) : HeartbeatMonitor :=
  mkMonitor (hm_timeout m) (hm_required_misses m) (hm_state m) (hm_paused m) (hm_misses m)
    (hm_last_beat_at m) (hm_entered_offline_at m) (hm_baseline m) (hm_listeners m) (hm_calls m ++ [c]).

(** [_status_locked] *)
Definition status_locked (now : Z) (m : HeartbeatMonitor) : HeartbeatStatus :=
  mkHbStatus (hm_state m) (hm_paused m) (hm_misses m) (hm_last_beat_at m)
    ((λ t, now - t)%Z <$> hm_last_beat_at m) (hm_entered_offline_at m).

(** [_transition_locked]: the state first, then the listeners, until one raises. *)
Definition transition_locked (old new : LinkState) (at_ : Z) : M HeartbeatMonitor unit :=
  modify (set_link new (if decide (new = OFFLINE) then Some at_ else None)) ;;;
  m <- get ;;
  for_each (hm_listeners m) (λ cb,
    modify (add_call (cb, old, new)) ;;;
    match on_transition cb old new with Some e => raise e | None => ret tt end).

(** [record_beat] *)
Definition record_beat (now : Z) : M HeartbeatMonitor HeartbeatStatus :=
  modify (set_counters 0 (Some now) now) ;;;
  m <- get ;;
  (if decide (hm_state m = OFFLINE) then transition_locked OFFLINE ONLINE now else ret tt) ;;;
  gets (status_locked now).

(** [check] *)
Definition heartbeat_check (now : Z) : M HeartbeatMonitor HeartbeatStatus :=
  m <- get ;;
  (if hm_paused m then ret tt
   else
     (if (hm_timeout m <? now - hm_baseline m)%Z then modify (set_misses (hm_misses m + 1))
      else modify (set_misses 0)) ;;;
     m <- get ;;
     if bool_decide (hm_state m = ONLINE) && (hm_required_misses m <=? hm_misses m)%Z
     then transition_locked ONLINE OFFLINE now else ret tt) ;;;
  gets (status_locked now).

(** [pause_local], [resume_local], [add_listener] *)
Definition pause_local (now : Z) : M HeartbeatMonitor HeartbeatStatus :=
  modify (set_paused_flag true) ;;; gets (status_locked now).
Definition resume_local (now : Z) : M HeartbeatMonitor HeartbeatStatus :=
  modify (set_paused_flag false) ;;;
  modify (λ m, set_counters 0 (hm_last_beat_at m) now m) ;;;
  gets (status_locked now).
Definition add_listener (cb : L) (m : HeartbeatMonitor) : HeartbeatMonitor :=
  mkMonitor (hm_timeout m) (hm_required_misses m) (hm_state m) (hm_paused m) (hm_misses m)
    (hm_last_beat_at m) (hm_entered_offline_at m) (hm_baseline m) (hm_listeners m ++ [cb]) (hm_calls m).

(** ** What a transition does *)

(** The listeners up to and including the first that raises. *)
Fixpoint called (old new : LinkState) (l : list L) : list L :=
  match l with
  | [] => []
  | cb :: l' => cb :: match on_transition cb old new with Some _ => [] | None => called old new l' end
  end.
Definition add_calls (old new : LinkState) (l : list L) (m : HeartbeatMonitor) : HeartbeatMonitor :=
  mkMonitor (hm_timeout m) (hm_required_misses m) (hm_state m) (hm_paused m) (hm_misses m)
    (hm_last_beat_at m) (hm_entered_offline_at m) (hm_baseline m) (hm_listeners m)
    (hm_calls m ++ ((λ cb, (cb, old, new)) <$> l)).

Lemma notify_state old new l m :
  (for_each l (λ cb, modify (add_call (cb, old, new)) ;;;
     match on_transition cb old new with Some e => raise e | None => ret tt end) m).2
  = add_calls old new (called old new l) m.
Proof.
  revert m. induction l as [|cb l IH]; intros m; [destruct m; unfold add_calls; cbn; by rewrite app_nil_r|].
  cbn [for_each called]. unfold bind at 1. rewrite bind_unit by done. cbn [modify snd].
  destruct (on_transition cb old new) as [e|].
  - done.
  - cbn [ret]. rewrite IH. unfold add_calls, add_call. cbn. by rewrite <- (assoc (++)).
Qed.

Lemma transition_state old new at_ m :
  (transition_locked old new at_ m).2 =
  add_calls old new (called old new (hm_listeners m))
    (set_link new (if decide (new = OFFLINE) then Some at_ else None) m).
Proof. unfold transition_locked. rewrite bind_unit by done. rewrite bind_get. apply notify_state. Qed.

Lemma bind_gets_state {S A B} (m : M S A) (f : S → B) s : (bind m (λ _, gets f) s).2 = (m s).2.
Proof. unfold bind, gets. by destruct (m s) as [[] ]. Qed.

(** The state after each call. *)
Lemma record_beat_state now m :
  (record_beat now m).2 =
  let m1 := set_counters 0 (Some now) now m in
  match hm_state m with
  | ONLINE => m1
  | OFFLINE => add_calls OFFLINE ONLINE (called OFFLINE ONLINE (hm_listeners m)) (set_link ONLINE None m1)
  end.
Proof.
  unfold record_beat. rewrite bind_unit by done. rewrite bind_get, bind_gets_state. cbn [modify snd].
  case_decide as E; cbn in E; rewrite ?E.
  - by rewrite transition_state, decide_False by done.
  - by destruct (hm_state m).
Qed.

Definition late (now : Z) (m : HeartbeatMonitor) : bool := (hm_timeout m <? now - hm_baseline m)%Z.

Lemma heartbeat_check_state now m :
  (heartbeat_check now m).2 =
  if hm_paused m then m
  else
    let m1 := set_misses (if late now m then hm_misses m + 1 else 0)%Z m in
    if bool_decide (hm_state m = ONLINE) && (hm_required_misses m <=? hm_misses m1)%Z
    then add_calls ONLINE OFFLINE (called ONLINE OFFLINE (hm_listeners m)) (set_link OFFLINE (Some now) m1)
    else m1.
Proof.
  unfold heartbeat_check, late. rewrite bind_get, bind_gets_state. destruct (hm_paused m); [done|].
  rewrite bind_unit by by destruct (_ <? _)%Z.
  set (m1 := set_misses _ m).
  replace ((if (hm_timeout m <? now - hm_baseline m)%Z then modify (set_misses (hm_misses m + 1))
    else modify (set_misses 0)) m).2 with m1 by (unfold m1; by destruct (_ <? _)%Z).
  rewrite bind_get. cbn [hm_state hm_required_misses m1 set_misses set_counters].
  destruct (bool_decide _ && _); [|done]. rewrite transition_state. by rewrite decide_True.
Qed.

(** ** Detection *)

Inductive hb_op : Type :=
  | HBeat (now : Z) | HCheck (now : Z) | HPause (now : Z) | HResume (now : Z) | HListen (cb : L).

Definition run_hb_op (op : hb_op) (m : HeartbeatMonitor) : HeartbeatMonitor :=
  match op with
  | HBeat now => (record_beat now m).2
  | HCheck now => (heartbeat_check now m).2
  | HPause now => (pause_local now m).2
  | HResume now => (resume_local now m).2
  | HListen cb => add_listener cb m
  end.
Definition run_hb (ops : list hb_op) (m : HeartbeatMonitor) : HeartbeatMonitor :=
  foldl (λ m op, run_hb_op op m) m ops.

Lemma run_hb_cons op ops m : run_hb (op :: ops) m = run_hb ops (run_hb_op op m).
Proof. done. Qed.
Lemma run_hb_snoc ops op m : run_hb (ops ++ [op]) m = run_hb_op op (run_hb ops m).
Proof. unfold run_hb. by rewrite foldl_app. Qed.

(** The configuration never changes. *)
Lemma run_hb_op_config op m :
  hm_timeout (run_hb_op op m) = hm_timeout m ∧ hm_required_misses (run_hb_op op m) = hm_required_misses m.
Proof.
  destruct op; cbn [run_hb_op]; try done.
  - rewrite record_beat_state. by destruct (hm_state m).
  - rewrite heartbeat_check_state. destruct (hm_paused m); [done|]. cbn zeta.
    by destruct (bool_decide _ && _).
Qed.

Lemma run_hb_config ops m :
  hm_timeout (run_hb ops m) = hm_timeout m ∧ hm_required_misses (run_hb ops m) = hm_required_misses m.
Proof.
  induction ops as [|op ops [IH1 IH2]] using rev_ind; [done|]. rewrite run_hb_snoc.
  destruct (run_hb_op_config op (run_hb ops m)). split; congruence.
Qed.

(** The polls that find [base] more than [timeout] ago. *)
Definition is_late_poll (timeout base : Z) (op : hb_op) : bool :=
  match op with HCheck t => (timeout <? t - base)%Z | _ => false end.
Definition late_polls (timeout base : Z) (ops : list hb_op) : Z :=
  Z.of_nat (length (base.filter (is_late_poll timeout base) ops)).

Definition is_beat (op : hb_op) : bool := match op with HBeat _ => true | _ => false end.
Definition restarts (op : hb_op) : bool := match op with HBeat _ | HResume _ => true | _ => false end.

(** The misses counted are late polls since the baseline was last set. *)
Definition counted (ops : list hb_op) (m : HeartbeatMonitor) : Prop :=
  ∃ ops1 seg, ops = ops1 ++ seg ∧ forallb (λ op, negb (restarts op)) seg = true ∧
    hm_baseline (run_hb ops m) = hm_baseline (run_hb ops1 m) ∧
    (hm_misses (run_hb ops m) ≤ late_polls (hm_timeout m) (hm_baseline (run_hb ops1 m)) seg)%Z.

Lemma late_polls_snoc timeout base ops op :
  late_polls timeout base (ops ++ [op]) =
  (late_polls timeout base ops +
   match op with HCheck t => if (timeout <? t - base)%Z then 1 else 0 | _ => 0 end)%Z.
Proof.
  unfold late_polls. rewrite filter_app, length_app, Nat2Z.inj_add. f_equal.
  rewrite filter_cons, filter_nil. destruct op as [|t| | |]; try done. cbn [is_late_poll].
  by destruct (timeout <? t - base)%Z.
Qed.

Lemma counted_snoc ops op m : (hm_misses m = 0)%Z → counted ops m → counted (ops ++ [op]) m.
Proof.
  intros H0 (ops1 & seg & -> & Hseg & Hb & Hm).
  assert (∀ k, hm_misses (run_hb_op op (run_hb (ops1 ++ seg) m)) = k → restarts op = false →
    hm_baseline (run_hb_op op (run_hb (ops1 ++ seg) m)) = hm_baseline (run_hb (ops1 ++ seg) m) →
    (k ≤ late_polls (hm_timeout m) (hm_baseline (run_hb ops1 m)) (seg ++ [op]))%Z → counted ((ops1 ++ seg) ++ [op]) m) as Hext.
  { intros k <- Hr Hb' Hk. exists ops1, (seg ++ [op]). rewrite <- (assoc (++)). split_and!; [done| | |].
    - rewrite forallb_app, Hseg. cbn. by rewrite Hr.
    - by rewrite (assoc (++)), run_hb_snoc, Hb'.
    - by rewrite (assoc (++)), run_hb_snoc. }
  assert (∀ k, run_hb ((ops1 ++ seg) ++ [op]) m = k → hm_misses k = 0%Z → counted ((ops1 ++ seg) ++ [op]) m) as Hnew.
  { intros k E Hk. exists ((ops1 ++ seg) ++ [op]), []. rewrite E, app_nil_r, Hk. split_and!; [done..|unfold late_polls; lia]. }
  destruct op as [t|t|t|t|cb].
  - eapply Hnew; [done|]. rewrite run_hb_snoc. cbn [run_hb_op]. rewrite record_beat_state. by case_match.
  - destruct (run_hb_config (ops1 ++ seg) m) as [Ht _].
    eapply Hext; [done|done| |]; cbn [run_hb_op]; rewrite heartbeat_check_state.
    + destruct (hm_paused _); [done|]. cbn zeta. by destruct (bool_decide _ && _).
    + rewrite late_polls_snoc, <- Hb, <- Ht. fold (late t (run_hb (ops1 ++ seg) m)).
      assert (hm_misses (run_hb (ops1 ++ seg) m) ≤ late_polls (hm_timeout (run_hb (ops1 ++ seg) m))
        (hm_baseline (run_hb (ops1 ++ seg) m)) seg)%Z by by rewrite Ht, Hb.
      assert (∀ b, 0 ≤ late_polls (hm_timeout (run_hb (ops1 ++ seg) m)) b seg)%Z by (intros; unfold late_polls; lia).
      specialize (H1 (hm_baseline (run_hb (ops1 ++ seg) m))).
      destruct (hm_paused _); [destruct (late t _); lia|]. cbn zeta.
      destruct (bool_decide _ && _); cbn; destruct (late t _); lia.
  - eapply Hext; [done..|]. rewrite late_polls_snoc, Z.add_0_r. done.
  - eapply Hnew; [done|]. by rewrite run_hb_snoc.
  - eapply Hext; [done..|]. rewrite late_polls_snoc, Z.add_0_r. done.
Qed.

(** Why the station is offline: enough late polls after the baseline, and no beat since. *)
Definition silence (ops : list hb_op) (m : HeartbeatMonitor) : Prop :=
  ∃ ops1 seg ops2, ops = ops1 ++ seg ++ ops2 ∧ forallb (λ op, negb (restarts op)) seg = true ∧
    forallb (λ op, negb (is_beat op)) ops2 = true ∧
    (hm_required_misses m ≤ late_polls (hm_timeout m) (hm_baseline (run_hb ops1 m)) seg)%Z.

Lemma offline_silence ops m :
  hm_state m = ONLINE → (hm_misses m = 0)%Z →
  counted ops m ∧ (hm_state (run_hb ops m) = OFFLINE → silence ops m).
Proof.
  intros Hon H0. induction ops as [|op ops [Hc Hs]] using rev_ind.
  { split; [|cbn; congruence]. exists [], []. split_and!; [done..|]. cbn. unfold late_polls. lia. }
  pose proof (counted_snoc ops op m H0 Hc) as Hc'. split; [done|]. intros Hoff.
  assert (hm_state (run_hb ops m) = OFFLINE → is_beat op = false → silence (ops ++ [op]) m) as Hkeep.
  { intros (ops1 & seg & ops2 & -> & ? & Hb & ?)%Hs Hop. exists ops1, seg, (ops2 ++ [op]).
    split_and!; [by rewrite <- !(assoc (++))|done| |done]. rewrite forallb_app, Hb. cbn. by rewrite Hop. }
  pose proof Hoff as Hoff'. rewrite run_hb_snoc in Hoff. destruct op as [t|t|t|t|cb]; cbn [run_hb_op] in Hoff.
  - rewrite record_beat_state in Hoff. destruct (hm_state (run_hb ops m)) eqn:E; [cbn in Hoff; congruence|done].
  - destruct (hm_state (run_hb ops m)) eqn:E; [|by apply Hkeep].
    destruct Hc' as (ops1 & seg & Heq & Hseg & _ & Hm). exists ops1, seg, [].
    rewrite app_nil_r. split_and!; [done..|]. etrans; [|exact Hm].
    destruct (run_hb_config ops m) as [_ Hr]. rewrite run_hb_snoc. cbn [run_hb_op]. rewrite <- Hr.
    rewrite heartbeat_check_state in Hoff |- *. destruct (hm_paused _); [congruence|]. rewrite E in Hoff |- *.
    cbn [bool_decide] in *. rewrite bool_decide_eq_true_2 in Hoff |- * by done. cbn [andb] in *.
    destruct (Z.leb_spec (hm_required_misses (run_hb ops m))
      (hm_misses (set_misses (if late t (run_hb ops m) then hm_misses (run_hb ops m) + 1 else 0)%Z (run_hb ops m))));
      [done|cbn in Hoff; congruence].
  - by apply Hkeep.
  - by apply Hkeep.
  - by apply Hkeep.
Qed.

(** Late polls in a row. *)
Lemma late_run ts m :
  hm_paused m = false → hm_state m = ONLINE → (hm_misses m < hm_required_misses m)%Z →
  Forall (λ t, hm_timeout m < t - hm_baseline m)%Z ts →
  hm_state (run_hb (HCheck <$> ts) m) =
  if (hm_required_misses m <=? hm_misses m + Z.of_nat (length ts))%Z then OFFLINE else ONLINE.
Proof.
  revert m. induction ts as [|t ts IH]; intros m Hp Hon Hlt Hall.
  { cbn [fmap list_fmap length run_hb foldl]. destruct (Z.leb_spec (hm_required_misses m) (hm_misses m + Z.of_nat 0)); [lia|exact Hon]. }
  apply Forall_cons in Hall as [Ht Hall]. rewrite fmap_cons, run_hb_cons. cbn [run_hb_op length].
  rewrite heartbeat_check_state, Hp, Hon, bool_decide_eq_true_2 by done.
  unfold late. rewrite (proj2 (Z.ltb_lt _ _) Ht). cbn [andb hm_misses set_misses set_counters].
  destruct (Z.leb_spec (hm_required_misses m) (hm_misses m + 1)) as [Hle|Hgt].
  - set (m1 := add_calls _ _ _ _).
    assert (∀ ts m, hm_state m = OFFLINE → hm_state (run_hb (HCheck <$> ts) m) = OFFLINE) as Hstay.
    { clear. induction ts as [|t ts IH]; intros m Hm; [done|]. rewrite fmap_cons, run_hb_cons.
      apply IH. cbn [run_hb_op]. rewrite heartbeat_check_state. destruct (hm_paused m); [done|].
      by rewrite Hm. }
    rewrite Hstay by done. destruct (Z.leb_spec (hm_required_misses m) (hm_misses m + Z.of_nat (S (length ts)))); [done|lia].
  - rewrite IH; [|done..|done].
    cbn [hm_required_misses hm_misses set_misses set_counters].
    replace (hm_misses m + 1 + Z.of_nat (length ts))%Z with (hm_misses m + Z.of_nat (S (length ts)))%Z by lia.
    done.
Qed.

(** The monitor detects exactly silence. From a fresh monitor, whatever the calls,
    pauses and failing listeners: the state is offline only if at some point the required
    number of polls all found the last beat (or start, or resumption) more than the
    time-out ago, with no beat after that; that many late polls in a row do turn it
    offline, and not before; one beat makes it online again. *)
Theorem heartbeat_detects_silence (timeout required start : Z) (m : HeartbeatMonitor)
  (Hm : new_monitor timeout required start = Ok m) (ops : list hb_op) :
  (hm_state (run_hb ops m) = OFFLINE → silence ops m)
  ∧ (∀ ts, Forall (λ t, timeout < t - start)%Z ts →
       hm_state (run_hb (HCheck <$> ts) m) = if (required <=? Z.of_nat (length ts))%Z then OFFLINE else ONLINE)
  ∧ ∀ t, hm_state (run_hb (ops ++ [HBeat t]) m) = ONLINE ∧ hm_misses (run_hb (ops ++ [HBeat t]) m) = 0%Z.
Proof.
  unfold new_monitor in Hm. destruct (Z.leb_spec timeout 0); [done|].
  destruct (Z.ltb_spec required 1); [done|]. injection Hm as <-. split_and!.
  - by apply offline_silence.
  - intros ts Hts. rewrite late_run; [done|done|done|cbn; lia|exact Hts].
  - intros t. rewrite run_hb_snoc. cbn [run_hb_op]. rewrite record_beat_state. by case_match.
Qed.
End monitor.

Lemma heartbeat_detects_silence_witness :
  ∃ m : HeartbeatMonitor (L := unit), new_monitor 10000 2 0 = Ok m ∧
  hm_state (run_hb (λ _ _ _, None) (HCheck <$> [10001; 10002]%Z) m) = OFFLINE ∧
  hm_state (run_hb (λ _ _ _, None) ((HCheck <$> [10001]%Z) ++ [HBeat 10002]) m) = ONLINE.
Proof.
  eexists. split; [reflexivity|].
  pose proof (λ ops, heartbeat_detects_silence (λ (_ : unit) _ _, None) 10000 2 0 _ eq_refl ops) as H.
  split.
  - rewrite (proj1 (proj2 (H [])) [10001; 10002]%Z); [reflexivity|].
    apply (bool_decide_unpack _). vm_compute. exact I.
  - apply (proj2 (proj2 (H (HCheck <$> [10001]%Z))) 10002%Z).
Defined.
