(* ===== verification/ResultCache.v ===== *)
(** * The result cache (src/src/ate_platform/data/cache.py)

    Results and pending uploads in one SQLite database. Every call holds the lock of the cache from
    its first statement to its last, so calls are atomic; a table is the list of its rows (Sql.v).
    Times are the texts [datetime.now().isoformat()] gives, and [cutoff] is what SQLite answers for
    [datetime('now', ?)]. The JSON codec is a parameter; the age in [queue_stats] and the WAL
    checkpoints are left out. *)

From S2P Require Import Prelude PyDict PyStr Types Sql.

(** A result as the data layer holds it: nothing checks that the status is a member. *)
Inductive DataStatus : Type :=
  | Member (s : StepStatus)
  | Loose (v : pyval).
Record DataResult : Type := mkResult {
  dr_status : DataStatus;
  dr_outputs : pyval;
  dr_error : pyval
}.

(** [result.status.value] *)
Definition data_status_value (s : DataStatus) : res string :=
  match s with
  | Member s => Ok (status_value s)
  | Loose v => Raise (CustomError "AttributeError"
                 ("'" +:+ type_name v +:+ "' object has no attribute 'value'"))
  end.

Record ResultRow : Type := mkResultRow {
  rr_sequence_id : option string;
  rr_step_id : string;
  rr_status : string;
  rr_outputs : string;
  rr_error : pyval;
  rr_timestamp : string
}.
Record QueueRow : Type := mkQueueRow {
  qr_id : Z;
  qr_payload : string;
  qr_retry_count : Z;
  qr_created_at : string
}.
#[export] Instance QueueRow_eq_dec : EqDecision QueueRow.
Proof. solve_decision. Defined.

Record SQLiteCache : Type := mkCache {
  sc_connected : bool;
  sc_results : list ResultRow;
  sc_queue : list QueueRow;
  sc_last_id : Z;
  sc_max_queue_size : Z;
  sc_total_pruned : Z;
  sc_cleanup_running : bool
}.
Definition set_connected (b : bool) (c : SQLiteCache) :=
  mkCache b (sc_results c) (sc_queue c) (sc_last_id c) (sc_max_queue_size c) (sc_total_pruned c) b.
Definition set_results (l : list ResultRow) (c : SQLiteCache) :=
  mkCache (sc_connected c) l (sc_queue c) (sc_last_id c) (sc_max_queue_size c) (sc_total_pruned c)
    (sc_cleanup_running c).
Definition set_queue (l : list QueueRow) (c : SQLiteCache) :=
  mkCache (sc_connected c) (sc_results c) l (sc_last_id c) (sc_max_queue_size c) (sc_total_pruned c)
    (sc_cleanup_running c).
Definition count_pruned (n : Z) (c : SQLiteCache) :=
  mkCache (sc_connected c) (sc_results c) (sc_queue c) (sc_last_id c) (sc_max_queue_size c)
    (sc_total_pruned c + n) (sc_cleanup_running c).

(** [__init__], on the tables the file has. *)
Definition new_cache (max_queue_size max_queue_age_seconds : Z) (results : list ResultRow) (queue : list QueueRow)
    (last_id : Z) : res SQLiteCache :=
  if (max_queue_size <=? 0)%Z then Raise (ValueError "max_queue_size must be greater than 0")
  else if (max_queue_age_seconds <=? 0)%Z then Raise (ValueError "max_queue_age_seconds must be greater than 0")
  else Ok (mkCache false results queue last_id max_queue_size 0 false).

Definition connect : M SQLiteCache unit :=
  c <- get ;;
  if sc_connected c then raise (RuntimeError "Already connected to database")
  else modify (set_connected true).
Definition close : M SQLiteCache unit := modify (set_connected false).
Definition when_connected {A} (m : SQLiteCache → M SQLiteCache A) : M SQLiteCache A :=
  c <- get ;;
  if sc_connected c then m c else raise (RuntimeError "Not connected to database").

(** ** The upload queue *)

Definition insert_row (payload : string) (retry_count : Z) (now : string) (c : SQLiteCache) : SQLiteCache :=
  let id := (sc_last_id c + 1)%Z in
  mkCache (sc_connected c) (sc_results c) (sc_queue c ++ [mkQueueRow id payload retry_count now]) id
    (sc_max_queue_size c) (sc_total_pruned c) (sc_cleanup_running c).

(** [ORDER BY created_at ASC]; equal times stay in the order of insertion. *)
Definition older (r r' : QueueRow) : Prop := String.le (qr_created_at r) (qr_created_at r').
#[export] Instance older_dec : RelDecision older.
Proof. intros r r'. unfold older. apply _. Defined.
Definition oldest_first (rows : list QueueRow) : list QueueRow := stable_sort older rows.

Definition prune_excess_entries (c : SQLiteCache) : SQLiteCache :=
  let excess := (Z.of_nat (length (sc_queue c)) - sc_max_queue_size c)%Z in
  if (0 <? excess)%Z then
    let ids := qr_id <$> take (Z.to_nat excess) (oldest_first (sc_queue c)) in
    count_pruned excess (set_queue (sql_delete (λ r, bool_decide (qr_id r ∈ ids)) (sc_queue c)) c)
  else c.
Definition enqueue_upload (payload now : string) : M SQLiteCache unit :=
  when_connected (λ _, modify (λ c, prune_excess_entries (insert_row payload 0 now c))).

Definition aged (cutoff : string) (r : QueueRow) : bool := String.ltb (qr_created_at r) cutoff.
Definition cleanup_aged_entries (cutoff : string) : M SQLiteCache Z :=
  c <- get ;;
  if sc_connected c then
    let deleted := sql_count (aged cutoff) (sc_queue c) in
    modify (set_queue (sql_delete (aged cutoff) (sc_queue c))) ;;;
    modify (count_pruned deleted) ;;;
    ret deleted
  else ret 0%Z.
(** The size and the count of deleted rows. *)
Definition cache_stats (c : SQLiteCache) : Z * Z :=
  (if sc_connected c then Z.of_nat (length (sc_queue c)) else 0, sc_total_pruned c)%Z.

(** ** Results *)

Section results.
Context (json_dumps : pyval → res string) (json_loads : string → res pyval).

Definition of_step (step_id : string) (r : ResultRow) : bool := bool_decide (rr_step_id r = step_id).
Definition of_sequence (sequence_id : string) (r : ResultRow) : bool :=
  bool_decide (rr_sequence_id r = Some sequence_id).

(** [INSERT OR REPLACE], on a table in which [step_id] is UNIQUE *)
Definition save_result (step_id : string) (result : DataResult) (sequence_id : option string) (now : string) :
    M SQLiteCache unit :=
  when_connected (λ _,
    outputs <- lift (json_dumps (dr_outputs result)) ;;
    status <- lift (data_status_value (dr_status result)) ;;
    modify (λ c, set_results (sql_delete (of_step step_id) (sc_results c) ++
      [mkResultRow sequence_id step_id status outputs (dr_error result) now]) c)).

Definition read_row (r : ResultRow) : res DataResult :=
  match status_of_name (rr_status r) with
  | Some status => outputs ← json_loads (rr_outputs r); Ok (mkResult (Member status) outputs (rr_error r))
  | None => Raise (ValueError (repr_str (rr_status r) +:+ " is not a valid StepStatus"))
  end.
Definition get_result (step_id : string) : M SQLiteCache (option DataResult) :=
  when_connected (λ c,
    match sql_first (of_step step_id) (sc_results c) with
    | None => ret None
    | Some row => r <- lift (read_row row) ;; ret (Some r)
    end).

Definition earlier (r r' : ResultRow) : Prop := String.le (rr_timestamp r) (rr_timestamp r').
#[export] Instance earlier_dec : RelDecision earlier.
Proof. intros r r'. unfold earlier. apply _. Defined.
Definition get_sequence_results (sequence_id : string) : M SQLiteCache (list DataResult) :=
  when_connected (λ c, lift (mapM read_row (stable_sort earlier (sql_select (of_sequence sequence_id) (sc_results c))))).
End results.

(** ** The queue stays bounded *)

(** Ids are distinct and come from the counter. *)
Definition queue_wf (c : SQLiteCache) : Prop :=
  NoDup (qr_id <$> sc_queue c) ∧ Forall (λ r, (qr_id r ≤ sc_last_id c)%Z) (sc_queue c).

Lemma insert_row_wf payload retries now c : queue_wf c → queue_wf (insert_row payload retries now c).
Proof.
  intros [Hnd Hle]. split; cbn [sc_queue insert_row sc_last_id].
  - rewrite fmap_app. apply NoDup_app. split_and!; [done| |apply NoDup_singleton].
    intros id (r & -> & Hr)%list_elem_of_fmap Hin%list_elem_of_singleton.
    rewrite Forall_forall in Hle. specialize (Hle r Hr). cbn in *. lia.
  - apply Forall_app. split; [|by constructor; [cbn; lia|]].
    eapply Forall_impl; [exact Hle|]. cbn. lia.
Qed.
Lemma delete_wf P c : queue_wf c → queue_wf (set_queue (sql_delete P (sc_queue c)) c).
Proof.
  intros [Hnd Hle]. split; cbn.
  - eapply sublist_NoDup; [exact Hnd|]. apply fmap_sublist, delete_sublist.
  - by apply Forall_delete.
Qed.

(** Deleting the rows with the ids of a part of a table leaves the other part. *)
Lemma delete_part (part rest : list QueueRow) :
  NoDup (qr_id <$> part ++ rest) →
  sql_delete (λ r, bool_decide (qr_id r ∈ qr_id <$> part)) (part ++ rest) = rest.
Proof.
  intros Hnd. unfold sql_delete. rewrite filter_app. rewrite fmap_app in Hnd.
  apply NoDup_app in Hnd as (_ & Hdis & _).
  rewrite (proj2 (list_filter_empty _ part)), list_filter_all; [done| |].
  - intros r Hr. rewrite bool_decide_eq_false_2; [done|].
    intros Hin. apply (Hdis _ Hin). by apply list_elem_of_fmap_2.
  - intros r Hr. rewrite bool_decide_eq_true_2; [by intros []|]. by apply list_elem_of_fmap_2.
Qed.

Lemma prune_spec c (c' := prune_excess_entries c) (excess := (length (sc_queue c) - Z.to_nat (sc_max_queue_size c))) :
  queue_wf c → (0 < sc_max_queue_size c)%Z →
  queue_wf c' ∧ sc_queue c' ≡ₚ drop excess (oldest_first (sc_queue c)) ∧
  sc_total_pruned c' = (sc_total_pruned c + Z.of_nat excess)%Z ∧
  (StronglySorted older (sc_queue c) → sc_queue c' = drop excess (sc_queue c)).
Proof.
  intros Hwf Hmax. subst c'. unfold prune_excess_entries. destruct (Z.ltb_spec 0 (Z.of_nat (length (sc_queue c)) - sc_max_queue_size c)) as [Hl|Hl].
  2: { assert (excess = 0) as -> by lia. cbn. split_and!; [done|unfold oldest_first; by rewrite stable_sort_perm|lia|done]. }
  replace (Z.to_nat _) with excess by lia. cbn [sc_queue count_pruned set_queue sc_total_pruned].
  assert (∀ rows, rows ≡ₚ sc_queue c →
    sql_delete (λ r, bool_decide (qr_id r ∈ qr_id <$> take excess rows)) rows = drop excess rows) as Hdel.
  { intros rows Hp. pose proof (delete_part (take excess rows) (drop excess rows)) as H. rewrite take_drop in H. apply H.
    rewrite Hp. apply Hwf. }
  split_and!; [by apply delete_wf| |lia|].
  - rewrite <-(Hdel (oldest_first (sc_queue c))) by apply stable_sort_perm. unfold sql_delete, oldest_first.
    apply filter_Permutation. symmetry. apply stable_sort_perm.
  - intros Hs. unfold oldest_first. rewrite stable_sort_id by done. by apply Hdel.
Qed.

(** The queue stays bounded and loses only its oldest entries: on a connected cache whose rows
    have distinct ids, an upload is always accepted, the table has at most as many rows afterwards
    as its maximum, every row that went is counted, and, when the clock was never set back, the
    rows that stay are the newest ones in their order, the new one last. *)
Theorem enqueue_bounded c payload now :
  sc_connected c = true → (0 < sc_max_queue_size c)%Z → queue_wf c →
  ∃ c', enqueue_upload payload now c = (Ok tt, c') ∧ queue_wf c' ∧
    (Z.of_nat (length (sc_queue c')) ≤ sc_max_queue_size c)%Z ∧
    (sc_total_pruned c' - sc_total_pruned c = Z.of_nat (length (sc_queue c)) + 1 - Z.of_nat (length (sc_queue c')))%Z ∧
    (StronglySorted older (sc_queue c) → Forall (λ r, String.le (qr_created_at r) now) (sc_queue c) →
     ∃ k, sc_queue c' = drop k (sc_queue c) ++ [mkQueueRow (sc_last_id c + 1) payload 0 now]).
Proof.
  intros Hc Hmax Hwf. pose proof (insert_row_wf payload 0 now c Hwf) as Hwf'.
  destruct (prune_spec _ Hwf' Hmax) as (Hq & Hperm & Hn & Hs).
  eexists. split; [unfold enqueue_upload, when_connected; rewrite bind_get, Hc; done|].
  apply Permutation_length in Hperm. rewrite length_drop in Hperm. unfold oldest_first in Hperm.
  rewrite (stable_sort_perm _ _) in Hperm. cbn [sc_queue insert_row sc_max_queue_size sc_total_pruned] in *.
  rewrite length_app in *. cbn [length] in *. split_and!; [done|lia|lia|].
  intros Hsort Hnow. rewrite Hs by (by apply StronglySorted_snoc). eexists. rewrite drop_app_le by lia. done.
Qed.

(** ** A result comes back *)

Section roundtrip.
Context (json_dumps : pyval → res string) (json_loads : string → res pyval).

Lemma first_other step other rows :
  other ≠ step → sql_first (of_step other) (sql_delete (of_step step) rows) = sql_first (of_step other) rows.
Proof.
  intros Hne. unfold sql_first, sql_select, sql_delete. f_equal. rewrite list_filter_filter_l; [done|].
  intros r Hr. unfold of_step in *. apply bool_decide_unpack in Hr. by rewrite bool_decide_eq_false_2 by congruence.
Qed.
Lemma first_app {R} (P : R → bool) rows rows' :
  sql_first P (rows ++ rows') = match sql_first P rows with Some r => Some r | None => sql_first P rows' end.
Proof. unfold sql_first, sql_select. rewrite filter_app. by destruct (base.filter P rows). Qed.
Lemma first_deleted step rows : sql_first (of_step step) (sql_delete (of_step step) rows) = None.
Proof. apply sql_first_None. by intros r [_ ?]%elem_of_delete. Qed.

Lemma first_single {R} (P : R → bool) r : sql_first P [r] = if P r then Some r else None.
Proof. unfold sql_first, sql_select. rewrite filter_cons. by destruct (P r). Qed.

(** A saved result is what is read afterwards, for its step, provided the JSON codec reads back
    the text it made of the outputs; what is read for every other step stays as it was. A result
    whose outputs cannot be encoded or whose status is no member changes nothing. *)
Theorem save_get_roundtrip step result sequence now c :
  sc_connected c = true →
  (∀ text, json_dumps (dr_outputs result) = Ok text → json_loads text = Ok (dr_outputs result)) →
  let '(r, c') := save_result json_dumps step result sequence now c in
  (∀ other, other ≠ step → (get_result json_loads other c').1 = (get_result json_loads other c).1) ∧
  match r with
  | Ok _ => (get_result json_loads step c').1 = Ok (Some result)
  | Raise _ => c' = c ∧ ((∃ e, json_dumps (dr_outputs result) = Raise e) ∨ ∃ v, dr_status result = Loose v)
  end.
Proof.
  intros Hc Hcodec. unfold save_result, get_result, when_connected. rewrite bind_get, Hc.
  destruct (json_dumps (dr_outputs result)) as [text|e] eqn:Ed; cbn; [|eauto].
  destruct (dr_status result) as [s|v] eqn:Es; cbn; [|eauto 6].
  split.
  - intros other Hne. unfold bind, get. cbn. rewrite Hc, first_app, first_other, first_single by done.
    destruct (sql_first (of_step other) (sc_results c)); [by destruct (read_row _ _)|].
    unfold of_step. cbn. by rewrite bool_decide_eq_false_2 by congruence.
  - unfold bind, get. cbn. rewrite Hc, first_app, first_deleted, first_single.
    unfold of_step at 1. cbn [rr_step_id]. rewrite bool_decide_eq_true_2 by done. unfold read_row.
    cbn [rr_status rr_outputs rr_error]. rewrite status_of_value, Hcodec by done. cbn.
    destruct result; cbn in *; subst. done.
Qed.
End roundtrip.

(** ** Ageing *)

Lemma compare_days p q a b : String.length p = String.length q →
  String.compare (p +:+ a) (q +:+ b) =
  match String.compare p q with Eq => String.compare a b | o => o end.
Proof.
  revert q. induction p as [|c p IH]; intros [|d q] [=]; [done|].
  change (String c p +:+ a) with (String c (p +:+ a)). change (String d q +:+ b) with (String d (q +:+ b)). cbn [String.compare].
  destruct (Ascii.compare c d); [by apply IH|done..].
Qed.

(** Entries age by the day: [datetime.isoformat] puts a "T" between date and time and SQLite's
    [datetime] a space, which comes first, so whatever the age limit is, the periodic cleanup
    deletes a row exactly when its date is before that of the cutoff. *)
Lemma aged_by_day r day time day' time' :
  qr_created_at r = day +:+ "T" +:+ time → String.length day = String.length day' →
  aged (day' +:+ " " +:+ time') r = String.ltb day day'.
Proof.
  intros Hr Hl. unfold aged, String.ltb. rewrite Hr, compare_days by done. by destruct (String.compare day day').
Qed.

(** ** Examples *)

Definition row (id : Z) (at_ : string) : QueueRow := mkQueueRow id "{}" 0 at_.
Definition two_rows : SQLiteCache :=
  mkCache true [] [row 1 "2026-03-01T08:00:00"; row 2 "2026-03-01T08:00:01"] 2 2 0 true.

Lemma two_rows_wf : queue_wf two_rows.
Proof. split; [by apply (bool_decide_unpack _)|]. repeat constructor; by vm_compute. Qed.
Lemma enqueue_bounded_witness :
  ∃ c', enqueue_upload "{}" "2026-03-01T08:00:02" two_rows = (Ok tt, c') ∧ queue_wf c' ∧
    (Z.of_nat (length (sc_queue c')) ≤ 2)%Z ∧ (sc_total_pruned c' - 0 = 2 + 1 - Z.of_nat (length (sc_queue c')))%Z ∧
    (StronglySorted older (sc_queue two_rows) → Forall (λ r, String.le (qr_created_at r) "2026-03-01T08:00:02") (sc_queue two_rows) →
     ∃ k, sc_queue c' = drop k (sc_queue two_rows) ++ [mkQueueRow 3 "{}" 0 "2026-03-01T08:00:02"]).
Proof. apply (enqueue_bounded two_rows "{}" "2026-03-01T08:00:02"); [done|done|apply two_rows_wf]. Defined.

(** An entry of the morning outlives a maximal age of an hour until the next day. *)
Example old_entry_stays :
  (cleanup_aged_entries "2026-03-01 23:00:00" two_rows).1 = Ok 0%Z ∧
  (cleanup_aged_entries "2026-03-02 00:00:00" two_rows).1 = Ok 2%Z.
Proof. by vm_compute. Qed.

Definition volts : DataResult := mkResult (Member PASSED) (PyMap [(PyStr "volts", PyInt 5)]) PyNone.
Definition toy_dumps (v : pyval) : res string :=
  match v with PyMap [(PyStr "volts", PyInt 5)] => Ok "5" | PyMap _ => Ok "{}" | _ => Raise (TypeError "") end%Z.
Definition toy_loads (s : string) : res pyval :=
  if decide (s = "5") then Ok (dr_outputs volts) else Ok (PyMap []).
Lemma save_get_roundtrip_witness :
  let '(r, c') := save_result toy_dumps "measure" volts (Some "seq_1") "2026-03-01T08:00:02" two_rows in
  (∀ other, other ≠ "measure" → (get_result toy_loads other c').1 = (get_result toy_loads other two_rows).1) ∧
  match r with
  | Ok _ => (get_result toy_loads "measure" c').1 = Ok (Some volts)
  | Raise _ => c' = two_rows ∧ ((∃ e, toy_dumps (dr_outputs volts) = Raise e) ∨ ∃ v, dr_status volts = Loose v)
  end.
Proof. apply (save_get_roundtrip toy_dumps toy_loads "measure" volts (Some "seq_1")); [done|]. by intros text [= <-]. Defined.

(** Results are kept by step alone: a second sequence takes the result of the first. *)
Example other_sequence_loses_result :
  let save seq := save_result toy_dumps "measure" volts (Some seq) "2026-03-01T08:00:02" in
  let c := (save "seq_2" (save "seq_1" two_rows).2).2 in
  ((get_sequence_results toy_loads "seq_1" c).1, (get_sequence_results toy_loads "seq_2" c).1) = (Ok [], Ok [volts]).
Proof. by vm_compute. Qed.
