(* ===== verification/Resume.v ===== *)
(** * Uploading results (src/src/ate_platform/data/resume.py)

    [ResumeManager]: results wait in memory and in the table of ResultCache.v until the publisher
    takes them, and are loaded back after a restart. The upload loop, the callers of
    [upload_result] and [retry_pending] and the start, the stop and the crash of the process are
    steps between their awaits; what the publisher answers is a choice of the environment.
    Parameters: the JSON codec, and [json_extract(payload, '$.step_id')] of SQLite, [None] where it
    raises. Log messages are left out; so are the sleeps, and a call of [start] ends before [stop]
    is called. *)

From S2P Require Import Prelude PyDict PyStr Types Sql ResultCache.

Record PendingMessage : Type := mkPendingMessage {
  pm_step_id : pyval;
  pm_result : DataResult;
  pm_sequence_id : pyval;
  pm_retry_count : Z
}.
Definition count_retry (m : PendingMessage) : PendingMessage :=
  mkPendingMessage (pm_step_id m) (pm_result m) (pm_sequence_id m) (pm_retry_count m + 1).

(** Where the upload loop is: waiting for a message, or with one in hand; while the manager stops,
    with those that remain. *)
Inductive UploadPhase : Type :=
  | Stopped
  | Idle
  | Attempting (m : PendingMessage)
  | Removing (m : PendingMessage)
  | Updating (m : PendingMessage)
  | BackingOff (m : PendingMessage)
  | Draining
  | DrainRemoving (m : PendingMessage).
Inductive PublishAnswer : Type := NoPublisher | NotConnected | Accepted | Refused | PublishRaised.

(** The manager; [rs_sending] are the messages of the calls of [upload_result] under way. The last
    three are a record of what happened: the rows written for results, the messages the publisher
    took and those given up. *)
Record ResumeManager : Type := mkResume {
  rs_cache : option SQLiteCache;
  rs_max_retries : Z;
  rs_pending : list PendingMessage;
  rs_running : bool;
  rs_phase : UploadPhase;
  rs_sending : list PendingMessage;
  rs_written : list (Z * PendingMessage);
  rs_published : list PendingMessage;
  rs_given_up : list PendingMessage
}.
Definition new_manager (cache : option SQLiteCache) (max_retries : Z) : ResumeManager :=
  mkResume cache max_retries [] false Stopped [] [] [] [].
Definition set_cache (c : option SQLiteCache) (s : ResumeManager) :=
  mkResume c (rs_max_retries s) (rs_pending s) (rs_running s) (rs_phase s) (rs_sending s)
    (rs_written s) (rs_published s) (rs_given_up s).
Definition set_pending (l : list PendingMessage) (s : ResumeManager) :=
  mkResume (rs_cache s) (rs_max_retries s) l (rs_running s) (rs_phase s) (rs_sending s)
    (rs_written s) (rs_published s) (rs_given_up s).
Definition set_phase (p : UploadPhase) (s : ResumeManager) :=
  mkResume (rs_cache s) (rs_max_retries s) (rs_pending s) (rs_running s) p (rs_sending s)
    (rs_written s) (rs_published s) (rs_given_up s).
Definition set_running (b : bool) (s : ResumeManager) :=
  mkResume (rs_cache s) (rs_max_retries s) (rs_pending s) b (rs_phase s) (rs_sending s)
    (rs_written s) (rs_published s) (rs_given_up s).
Definition set_sending (l : list PendingMessage) (s : ResumeManager) :=
  mkResume (rs_cache s) (rs_max_retries s) (rs_pending s) (rs_running s) (rs_phase s) l
    (rs_written s) (rs_published s) (rs_given_up s).
Definition note_written (e : list (Z * PendingMessage)) (s : ResumeManager) :=
  mkResume (rs_cache s) (rs_max_retries s) (rs_pending s) (rs_running s) (rs_phase s) (rs_sending s)
    (rs_written s ++ e) (rs_published s) (rs_given_up s).
Definition note_published (m : PendingMessage) (s : ResumeManager) :=
  mkResume (rs_cache s) (rs_max_retries s) (rs_pending s) (rs_running s) (rs_phase s) (rs_sending s)
    (rs_written s) (rs_published s ++ [m]) (rs_given_up s).
Definition note_given_up (m : PendingMessage) (s : ResumeManager) :=
  mkResume (rs_cache s) (rs_max_retries s) (rs_pending s) (rs_running s) (rs_phase s) (rs_sending s)
    (rs_written s) (rs_published s) (rs_given_up s ++ [m]).

(** [v = ?] in SQLite, for the values JSON has; a NULL equals nothing. *)
Definition sql_integer (v : pyval) : option Z :=
  match v with PyInt z => Some z | PyBool b => Some (Z.b2z b) | _ => None end.
Definition sql_equal (v w : pyval) : bool :=
  match v, w with
  | PyStr s, PyStr s' => bool_decide (s = s')
  | PyFloat r, PyFloat r' => bool_decide (r = r')
  | _, _ => bool_decide (sql_integer v = sql_integer w ∧ sql_integer v ≠ None)
  end.

Section resume.
Context (json_dumps : pyval → res string) (json_loads : string → res pyval) (step_of : string → option pyval).

(** [_build_payload] *)
Definition build_payload (now : string) (m : PendingMessage) : res string :=
  status ← data_status_value (dr_status (pm_result m));
  json_dumps (PyMap [(PyStr "step_id", pm_step_id m); (PyStr "sequence_id", pm_sequence_id m);
    (PyStr "status", PyStr status); (PyStr "outputs", dr_outputs (pm_result m));
    (PyStr "error", dr_error (pm_result m)); (PyStr "timestamp", PyStr now)]).

(** ** The table *)

(** Whether a statement that reads the step of each row raises. *)
Definition malformed (rows : list QueueRow) : bool :=
  existsb (λ r, match step_of (qr_payload r) with None => true | Some _ => false end) rows.
Definition has_step (step_id : pyval) (r : QueueRow) : bool :=
  match step_of (qr_payload r) with Some v => sql_equal v step_id | None => false end.

(** [_persist_message], [_remove_message] and [_update_retry_count]: without a table, or when
    something raises, they do nothing. *)
Definition on_table (f : SQLiteCache → SQLiteCache) (s : ResumeManager) : ResumeManager :=
  match rs_cache s with
  | Some c => if sc_connected c then set_cache (Some (f c)) s else s
  | None => s
  end.
Definition persist_message (now : string) (m : PendingMessage) (s : ResumeManager) : ResumeManager :=
  match rs_cache s, build_payload now m with
  | Some c, Ok payload =>
      if sc_connected c then
        note_written [(sc_last_id c + 1, m)%Z] (on_table (insert_row payload (pm_retry_count m) now) s)
      else s
  | _, _ => s
  end.
Definition remove_message (step_id : pyval) : ResumeManager → ResumeManager :=
  on_table (λ c, if malformed (sc_queue c) then c
                 else set_queue (sql_delete (has_step step_id) (sc_queue c)) c).
Definition update_retry_count (now : string) (m : PendingMessage) : ResumeManager → ResumeManager :=
  on_table (λ c, match build_payload now m with
                 | Ok payload =>
                     if malformed (sc_queue c) then c
                     else set_queue (sql_update (has_step (pm_step_id m))
                            (λ r, mkQueueRow (qr_id r) payload (pm_retry_count m) (qr_created_at r)) (sc_queue c)) c
                 | Raise _ => c
                 end).

(** [_load_pending_messages]: rows that are no JSON or lack an entry are skipped; any other error
    ends the loading with the messages read so far. *)
Definition get_entry (k : string) (v : pyval) : res pyval :=
  match v with
  | PyMap d => match find (λ kv, bool_decide (as_str kv.1 = Some k)) d with
               | Some kv => Ok kv.2
               | None => Raise (KeyError (repr_str k))
               end
  | _ => Raise (TypeError "string indices must be integers")
  end.
Definition entry_or (k : string) (default : pyval) (v : pyval) : pyval :=
  match get_entry k v with Ok w => w | Raise _ => default end.
Definition read_message (r : QueueRow) : res PendingMessage :=
  data ← json_loads (qr_payload r);
  status ← get_entry "status" data;
  step_id ← get_entry "step_id" data;
  Ok (mkPendingMessage step_id
        (mkResult (Loose status) (entry_or "outputs" (PyMap []) data) (entry_or "error" PyNone data))
        (entry_or "sequence_id" PyNone data) (qr_retry_count r)).
Definition is_decode_error (e : exc) : bool :=
  match e with KeyError _ => true | CustomError cls _ => bool_decide (cls = "JSONDecodeError") | _ => false end.
Fixpoint read_messages (rows : list QueueRow) : list PendingMessage :=
  match rows with
  | [] => []
  | r :: rows' =>
      match read_message r with
      | Ok m => m :: read_messages rows'
      | Raise e => if is_decode_error e then read_messages rows' else []
      end
  end.
Definition load_pending_messages (s : ResumeManager) : list PendingMessage :=
  match rs_cache s with
  | Some c => if sc_connected c then read_messages (oldest_first (sc_queue c)) else []
  | None => []
  end.

(** ** Publishing *)

(** [_attempt_upload] *)
Definition attempt_upload (answer : PublishAnswer) (now : string) (m : PendingMessage) (s : ResumeManager) :
    bool * ResumeManager :=
  match answer with
  | NoPublisher | NotConnected => (false, s)
  | _ => match build_payload now m, answer with
         | Ok _, Accepted => (true, note_published m s)
         | _, _ => (false, s)
         end
  end.

(** The upload loop, one await after the other. *)
Definition after_attempt (answer : PublishAnswer) (now : string) (m : PendingMessage) (s : ResumeManager) :
    ResumeManager :=
  let '(success, s) := attempt_upload answer now m s in
  if success then set_phase (Removing m) s
  else if (rs_max_retries s <=? pm_retry_count m)%Z then set_phase (Removing m) (note_given_up m s)
  else set_phase (Updating (count_retry m)) s.
Definition upload_step (answer : PublishAnswer) (now : string) (s : ResumeManager) : ResumeManager :=
  match rs_phase s with
  | Idle => if rs_running s then
              match rs_pending s with
              | m :: l => set_phase (Attempting m) (set_pending l s)
              | [] => s
              end
            else set_phase Stopped s
  | Attempting m => after_attempt answer now m s
  | Removing m => set_phase Idle (remove_message (pm_step_id m) s)
  | Updating m => set_phase (BackingOff m) (update_retry_count now m s)
  | BackingOff m => set_phase Idle (set_pending (rs_pending s ++ [m]) s)
  (* _process_remaining *)
  | Draining =>
      match rs_pending s with
      | [] => set_phase Stopped s
      | m :: l =>
          let '(success, s) := attempt_upload answer now m (set_pending l s) in
          set_phase (if success then DrainRemoving m else Draining) s
      end
  | DrainRemoving m => set_phase Draining (remove_message (pm_step_id m) s)
  | Stopped => s
  end.

(** ** Calls *)

(** [upload_result], up to the write and after it. *)
Definition upload_result (result : DataResult) (step_id : string) (sequence_id : option string) (now : string)
    (s : ResumeManager) : ResumeManager :=
  let m := mkPendingMessage (PyStr step_id) result (from_option PyStr PyNone sequence_id) 0 in
  let s := persist_message now m s in
  set_sending (rs_sending s ++ [m]) s.
Definition put_pending (m : PendingMessage) (s : ResumeManager) : ResumeManager :=
  set_pending (rs_pending s ++ [m]) s.
Definition retry_pending (s : ResumeManager) : ResumeManager :=
  let messages := base.filter (λ m, pm_retry_count m < rs_max_retries s)%Z (load_pending_messages s) in
  set_pending (rs_pending s ++ messages) s.
Definition recover (s : ResumeManager) : ResumeManager :=
  set_pending (rs_pending s ++ load_pending_messages s) s.
Definition start (s : ResumeManager) : ResumeManager :=
  if rs_running s then s else set_phase Idle (recover (set_running true s)).
Definition stop (s : ResumeManager) : ResumeManager :=
  if rs_running s then set_phase Draining (set_running false s) else s.
(** What the process holds in memory is gone. *)
Definition crash (s : ResumeManager) : ResumeManager :=
  set_sending [] (set_phase Stopped (set_running false (set_pending [] s))).

(** What the manager does once results were handed to it. *)
Inductive own_step : ResumeManager → ResumeManager → Prop :=
  | R_upload answer now s : own_step s (upload_step answer now s)
  | R_put m l1 l2 s : rs_sending s = l1 ++ m :: l2 → own_step s (put_pending m (set_sending (l1 ++ l2) s))
  | R_retry s : own_step s (retry_pending s)
  | R_start s : rs_running s = true ∨ rs_phase s = Stopped → own_step s (start s)
  | R_stop s : own_step s (stop s)
  | R_crash s : own_step s (crash s).
Inductive resume_step : ResumeManager → ResumeManager → Prop :=
  | R_own s s' : own_step s s' → resume_step s s'
  | R_submit result step_id sequence_id now s : resume_step s (upload_result result step_id sequence_id now s).
End resume.

(** ** Memory and table *)

Create Rewrite HintDb resume.
Lemma on_table_pending f s : rs_pending (on_table f s) = rs_pending s.
Proof. unfold on_table. by repeat case_match. Qed.
Lemma on_table_sending f s : rs_sending (on_table f s) = rs_sending s.
Proof. unfold on_table. by repeat case_match. Qed.
Lemma on_table_phase f s : rs_phase (on_table f s) = rs_phase s.
Proof. unfold on_table. by repeat case_match. Qed.
Lemma on_table_running f s : rs_running (on_table f s) = rs_running s.
Proof. unfold on_table. by repeat case_match. Qed.
Lemma on_table_max f s : rs_max_retries (on_table f s) = rs_max_retries s.
Proof. unfold on_table. by repeat case_match. Qed.
Lemma on_table_record f s :
  (rs_written (on_table f s), rs_published (on_table f s), rs_given_up (on_table f s)) =
  (rs_written s, rs_published s, rs_given_up s).
Proof. unfold on_table. by repeat case_match. Qed.
Lemma on_table_written f s : rs_written (on_table f s) = rs_written s.
Proof. by injection (on_table_record f s). Qed.
Lemma on_table_published f s : rs_published (on_table f s) = rs_published s.
Proof. by injection (on_table_record f s). Qed.
Lemma on_table_given_up f s : rs_given_up (on_table f s) = rs_given_up s.
Proof. by injection (on_table_record f s). Qed.
#[export] Hint Rewrite on_table_pending on_table_sending on_table_phase on_table_running on_table_max
  on_table_written on_table_published on_table_given_up : resume.

(** ** What came back from the table is not published *)

Section recovered.
Context (json_dumps : pyval → res string) (json_loads : string → res pyval) (step_of : string → option pyval).
#[local] Abbreviation own_step := (own_step json_dumps json_loads step_of).
#[local] Abbreviation upload_step := (upload_step json_dumps step_of).

Definition recovered (m : PendingMessage) : Prop := ∃ v, dr_status (pm_result m) = Loose v.
Definition in_hand (p : UploadPhase) : list PendingMessage :=
  match p with
  | Attempting m | Removing m | Updating m | BackingOff m | DrainRemoving m => [m]
  | Stopped | Idle | Draining => []
  end.
(** Every message in memory came from the table. *)
Definition all_recovered (s : ResumeManager) : Prop :=
  Forall recovered (rs_pending s) ∧ Forall recovered (in_hand (rs_phase s)) ∧ Forall recovered (rs_sending s).

Lemma recovered_payload now m : recovered m → ∃ e, build_payload json_dumps now m = Raise e.
Proof. intros [v Hv]. unfold build_payload. rewrite Hv. by eexists. Qed.
Lemma recovered_attempt answer now m s : recovered m → attempt_upload json_dumps answer now m s = (false, s).
Proof. intros [e He]%(recovered_payload now). unfold attempt_upload. rewrite He. by destruct answer. Qed.
Lemma loaded_recovered s : Forall recovered (load_pending_messages json_loads s).
Proof.
  unfold load_pending_messages. destruct (rs_cache s) as [c|]; [|done]. destruct (sc_connected c); [|done].
  induction (oldest_first (sc_queue c)) as [|r l IH]; [done|]. cbn.
  destruct (read_message json_loads r) as [m|e] eqn:E; [|by destruct (is_decode_error e)].
  constructor; [|done]. unfold read_message in E.
  do 3 (apply res_bind_Ok in E as (? & _ & E)). injection E as <-. by eexists.
Qed.

Lemma upload_recovered answer now s : all_recovered s →
  all_recovered (upload_step answer now s) ∧ rs_published (upload_step answer now s) = rs_published s.
Proof.
  unfold all_recovered. intros (Hp & Hh & Hs). unfold Resume.upload_step, after_attempt.
  destruct (rs_phase s) as [| |m|m|m|m| |m] eqn:Ep; cbn [in_hand] in Hh; decompose_Forall_hyps.
  - by rewrite Ep.
  - destruct (rs_running s); [|done]. destruct (rs_pending s) as [|m l] eqn:El; [by rewrite El, Ep|].
    cbn. decompose_Forall_hyps. eauto.
  - rewrite recovered_attempt by done. case_match; cbn; eauto.
  - unfold remove_message. cbn. autorewrite with resume. eauto.
  - unfold update_retry_count. cbn. autorewrite with resume. eauto.
  - cbn. split_and!; [|done..]. apply Forall_app_2; eauto.
  - destruct (rs_pending s) as [|m l] eqn:El; [cbn; rewrite El; eauto|]. decompose_Forall_hyps.
    rewrite recovered_attempt by done. cbn. eauto.
  - unfold remove_message. cbn. autorewrite with resume. eauto.
Qed.
Lemma own_step_recovered s s' : own_step s s' → all_recovered s →
  all_recovered s' ∧ rs_published s' = rs_published s.
Proof.
  intros Hs H. destruct Hs as [answer now s|m l1 l2 s E|s|s Hst|s|s].
  - by apply upload_recovered.
  - destruct H as (Hp & Hh & Hl). rewrite E in Hl. decompose_Forall_hyps. split; [|done].
    split_and!; cbn; [|done|]; apply Forall_app_2; eauto.
  - destruct H as (Hp & Hh & Hl). split; [|done]. split_and!; cbn; [|done..].
    apply Forall_app_2; [done|]. apply list_forall_filter, loaded_recovered.
  - unfold start. destruct (rs_running s); [done|]. destruct H as (Hp & Hh & Hl). split; [|done].
    split_and!; cbn; [|done..]. apply Forall_app_2; [done|]. apply (loaded_recovered (set_running true s)).
  - unfold stop. destruct (rs_running s); [|done]. destruct H as (Hp & Hh & Hl). by split_and!.
  - by split_and!.
Qed.

(** A result that was waiting in the table when the process ended is never published: whatever
    the publisher would answer and however often the manager is started, stopped, crashes, retries
    and recovers, until new results are handed to it nothing is published at all. *)
Theorem recovered_never_published s s' :
  rtc own_step (crash s) s' → rs_published s' = rs_published s.
Proof.
  intros Hr. enough (all_recovered s' ∧ rs_published s' = rs_published s) as [_ ?] by done.
  change (rs_published s) with (rs_published (crash s)). revert s' Hr. apply rtc_ind_r; [by split_and!|].
  intros s1 s2 _ Hs [Ha <-]. by apply own_step_recovered.
Qed.

(** The steps of the upload loop, with what the publisher answers and the clock shows at each. *)
Definition upload_steps (answers : list (PublishAnswer * string)) (s : ResumeManager) : ResumeManager :=
  fold_left (λ s a, upload_step a.1 a.2 s) answers s.

(** A round that fails changes the retry count in memory only. *)
Lemma failed_round a1 a2 a3 a4 m s :
  recovered m → rs_phase s = Idle → rs_running s = true → rs_pending s = [m] → (pm_retry_count m < rs_max_retries s)%Z →
  upload_steps [a1; a2; a3; a4] s = set_pending [count_retry m] s.
Proof.
  intros Hm Hi Hr Hp Hlt. assert (recovered (count_retry m)) as Hm' by done.
  destruct (recovered_payload a3.2 _ Hm') as [e He].
  destruct s as [c max pend run phase sending written published given]; cbn in *. subst. unfold upload_steps. cbn.
  unfold after_attempt. rewrite (recovered_attempt a2.1 a2.2 m) by done. cbn.
  assert ((max <=? pm_retry_count m)%Z = false) as -> by lia. cbn. unfold update_retry_count, on_table. cbn.
  unfold build_payload in *. cbn in *. rewrite He. destruct c as [c|]; [|done]. by destruct (sc_connected c) eqn:E.
Qed.
Lemma last_round a1 a2 a3 m s c :
  recovered m → rs_phase s = Idle → rs_running s = true → rs_pending s = [m] → (rs_max_retries s ≤ pm_retry_count m)%Z →
  rs_cache s = Some c → sc_connected c = true → malformed step_of (sc_queue c) = false →
  upload_steps [a1; a2; a3] s =
  set_cache (Some (set_queue (sql_delete (has_step step_of (pm_step_id m)) (sc_queue c)) c)) (note_given_up m (set_pending [] s)).
Proof.
  intros Hm Hi Hr Hp Hle Hc Hcon Hmal.
  destruct s as [c' max pend run phase sending written published given]; cbn in *. subst. unfold upload_steps. cbn.
  unfold after_attempt. rewrite (recovered_attempt a2.1 a2.2 m) by done. cbn.
  assert ((max <=? pm_retry_count m)%Z = true) as -> by lia. cbn. unfold remove_message, on_table. cbn.
  by rewrite Hcon, Hmal.
Qed.

(** Recovered results are thrown away: when the loop takes up a message that was loaded from
    the table, then whatever the publisher answers, every attempt fails, and after one attempt
    more than the retries that remain the rows of that step are deleted, with nothing published. *)
Theorem recovered_discarded m s c answers :
  recovered m → rs_phase s = Idle → rs_running s = true → rs_pending s = [m] → (pm_retry_count m ≤ rs_max_retries s)%Z →
  rs_cache s = Some c → sc_connected c = true → malformed step_of (sc_queue c) = false →
  length answers = 4 * Z.to_nat (rs_max_retries s - pm_retry_count m) + 3 →
  let s' := upload_steps answers s in
  rs_phase s' = Idle ∧ rs_pending s' = [] ∧ rs_published s' = rs_published s ∧
  rs_cache s' = Some (set_queue (sql_delete (has_step step_of (pm_step_id m)) (sc_queue c)) c).
Proof.
  intros Hm Hi Hr Hp Hle Hc Hcon Hmal Hlen. remember (Z.to_nat (rs_max_retries s - pm_retry_count m)) as k eqn:Hk.
  revert m s answers Hm Hi Hr Hp Hle Hc Hlen Hk. induction k as [|k IH]; intros m s answers Hm Hi Hr Hp Hle Hc Hlen Hk.
  - destruct answers as [|a1 [|a2 [|a3 [|]]]]; try (cbn in Hlen; lia).
    cbv zeta. rewrite (last_round _ _ _ m s c) by (done || lia). by split_and!.
  - destruct answers as [|a1 [|a2 [|a3 [|a4 answers]]]]; try (cbn in Hlen; lia).
    cbv zeta. change (upload_steps (a1 :: a2 :: a3 :: a4 :: answers) s) with (upload_steps answers (upload_steps [a1; a2; a3; a4] s)).
    rewrite (failed_round _ _ _ _ m s) by (done || lia).
    apply (IH (count_retry m) (set_pending [count_retry m] s) answers); cbn in *; done || lia.
Qed.
End recovered.

(** ** What leaves the table was published or given up *)

Lemma sql_equal_str s v : sql_equal (PyStr s) v = true → v = PyStr s.
Proof.
  destruct v; cbn; try (intros [? ?]%bool_decide_eq_true_1; congruence). by intros ->%bool_decide_eq_true_1.
Qed.

(** A step id that a text column holds whole. *)
Definition nul_free (s : string) : Prop := Ascii.zero ∉ String.list_ascii_of_string s.

Section kept.
Context (json_dumps : pyval → res string) (json_loads : string → res pyval) (step_of : string → option pyval).
#[local] Abbreviation own_step := (own_step json_dumps json_loads step_of).
#[local] Abbreviation resume_step := (resume_step json_dumps json_loads step_of).
#[local] Abbreviation upload_step := (upload_step json_dumps step_of).
(** [json_extract] reads a step id that is a string back as it was written. (Ids of other types come
    only from rows that others wrote; what SQLite makes of those is left open.) *)
Hypothesis step_of_payload : ∀ now m payload sid,
  build_payload json_dumps now m = Ok payload → pm_step_id m = PyStr sid → nul_free sid →
  step_of payload = Some (PyStr sid).

(** The rows written for results are there, but for those of the steps in [settled]. *)
Definition row_of (c : SQLiteCache) (id : Z) (step_id : pyval) : Prop :=
  ∃ r, r ∈ sc_queue c ∧ qr_id r = id ∧ step_of (qr_payload r) = Some step_id.
Definition rows_ok (settled : pyval → Prop) (written : list (Z * PendingMessage)) (c : SQLiteCache) : Prop :=
  ∀ id m sid, (id, m) ∈ written → pm_step_id m = PyStr sid → nul_free sid → row_of c id (PyStr sid) ∨ settled (PyStr sid).

Lemma rows_ok_mono (K K' : pyval → Prop) w c : (∀ v, K v → K' v) → rows_ok K w c → rows_ok K' w c.
Proof. intros HK H id m sid Hin Hm Hs. destruct (H id m sid Hin Hm Hs) as [?|?]; eauto. Qed.
Lemma rows_ok_delete K w c v : K v → rows_ok K w c → rows_ok K w (set_queue (sql_delete (has_step step_of v) (sc_queue c)) c).
Proof.
  intros Hv H id m sid Hin Hm Hf. destruct (H id m sid Hin Hm Hf) as [(r & Hr & Hid & Hs)|?]; [|by right].
  destruct (has_step step_of v r) eqn:E.
  - right. unfold has_step in E. rewrite Hs in E. apply sql_equal_str in E as ->. done.
  - left. exists r. split_and!; [by apply elem_of_delete|done..].
Qed.
Lemma rows_ok_update K w c m payload retries :
  (∀ sid, pm_step_id m = PyStr sid → nul_free sid → step_of payload = Some (PyStr sid)) → rows_ok K w c →
  rows_ok K w (set_queue (sql_update (has_step step_of (pm_step_id m))
    (λ r, mkQueueRow (qr_id r) payload retries (qr_created_at r)) (sc_queue c)) c).
Proof.
  intros Hp H id m' sid Hin Hm Hf. destruct (H id m' sid Hin Hm Hf) as [(r & Hr & Hid & Hs)|?]; [left|by right].
  eexists. split; [by apply elem_of_update; exists r|]. destruct (has_step step_of (pm_step_id m) r) eqn:E; [|done].
  split; [done|]. unfold has_step in E. rewrite Hs in E. apply sql_equal_str in E. cbn. by apply Hp.
Qed.
Lemma rows_ok_insert K w c m payload retries now :
  (∀ sid, pm_step_id m = PyStr sid → nul_free sid → step_of payload = Some (PyStr sid)) → rows_ok K w c →
  rows_ok K (w ++ [((sc_last_id c + 1)%Z, m)]) (insert_row payload retries now c).
Proof.
  intros Hp H id m' sid [Hin|[= -> ->]%list_elem_of_singleton]%elem_of_app Hm Hf.
  - destruct (H id m' sid Hin Hm Hf) as [(r & Hr & ?)|?]; [left|by right].
    exists r. split; [apply elem_of_app; by left|done].
  - left. eexists. split; [apply elem_of_app; right; by left|]. split; [done|]. by apply Hp.
Qed.

Definition settled (s : ResumeManager) (v : pyval) : Prop :=
  ∃ m, pm_step_id m = v ∧
    (m ∈ rs_published s ∨ m ∈ rs_given_up s ∧ (rs_max_retries s ≤ pm_retry_count m)%Z).
Definition kept (s : ResumeManager) : Prop :=
  (∃ c, rs_cache s = Some c ∧ sc_connected c = true ∧ rows_ok (settled s) (rs_written s) c) ∧
  (∀ m, rs_phase s = Removing m ∨ rs_phase s = DrainRemoving m → settled s (pm_step_id m)).

(** Steps that leave the table alone. *)
Lemma kept_memory s s' :
  rs_cache s' = rs_cache s → rs_written s' = rs_written s → (∀ v, settled s v → settled s' v) →
  (∀ m, rs_phase s' = Removing m ∨ rs_phase s' = DrainRemoving m → settled s' (pm_step_id m)) →
  kept s → kept s'.
Proof.
  intros Hc Hw Hk Hp [(c & Ec & Hcon & Hrows) _]. split; [|done].
  exists c. rewrite Hc, Hw. split_and!; [done..|]. by eapply rows_ok_mono.
Qed.
(** Statements on the table. *)
Lemma kept_table f s p :
  (∀ c, rs_cache s = Some c → sc_connected c = true → sc_connected (f c) = true ∧
    (rows_ok (settled s) (rs_written s) c → rows_ok (settled s) (rs_written s) (f c))) →
  (∀ m, p ≠ Removing m ∧ p ≠ DrainRemoving m) → kept s → kept (set_phase p (on_table f s)).
Proof.
  intros Hf Hp [(c & Ec & Hcon & Hrows) _]. destruct (Hf c Ec Hcon) as [Hcon' Hrows'].
  assert (rs_cache (on_table f s) = Some (f c)) as Ec' by (unfold on_table; by rewrite Ec, Hcon).
  split; [|cbn; intros m [E|E]; destruct (Hp m); congruence].
  exists (f c). cbn. split_and!; [done..|]. autorewrite with resume.
  eapply rows_ok_mono; [|by apply Hrows']. intros v (m & ? & Hm). exists m. cbn. by autorewrite with resume.
Qed.

Lemma settled_published m s v : settled s v → settled (note_published m s) v.
Proof. intros (m' & ? & [?|?]); exists m'; cbn; rewrite elem_of_app; eauto. Qed.
Lemma settled_given_up m s v : settled s v → settled (note_given_up m s) v.
Proof. intros (m' & ? & [?|[? ?]]); exists m'; cbn; rewrite elem_of_app; eauto 6. Qed.
Lemma attempt_kept answer now m s : kept s →
  let '(b, s') := attempt_upload json_dumps answer now m s in
  rs_cache s' = rs_cache s ∧ rs_written s' = rs_written s ∧ rs_max_retries s' = rs_max_retries s ∧
  (∀ v, settled s v → settled s' v) ∧ (b = true → settled s' (pm_step_id m)).
Proof.
  intros _. unfold attempt_upload. destruct answer; try done; destruct (build_payload _ _ _); try done. cbn.
  split_and!; [done..|intros; by apply settled_published|]. intros _. exists m. cbn. split; [done|]. left.
  apply elem_of_app. right. by left.
Qed.

Lemma upload_kept answer now s : kept s → kept (upload_step answer now s).
Proof.
  intros Hk. unfold Resume.upload_step. destruct (rs_phase s) as [| |m|m|m|m| |m] eqn:Ep; [done|..].
  - destruct (rs_running s); [|apply (kept_memory s); try done; by intros ? [|]].
    destruct (rs_pending s); [done|]. apply (kept_memory s); try done. by intros ? [|].
  - unfold after_attempt. pose proof (attempt_kept answer now m s Hk) as H.
    destruct (attempt_upload json_dumps answer now m s) as [b s']. destruct H as (Hc & Hw & Hmax & Hm & Hb).
    destruct b; [|destruct (Z.leb_spec (rs_max_retries s') (pm_retry_count m))].
    + apply (kept_memory s); try done. intros m' [[= <-]|[=]]. by apply Hb.
    + apply (kept_memory s); try done; [intros; by apply settled_given_up, Hm|]. intros m' [[= <-]|[=]].
      exists m. split; [done|]. right. cbn. split; [apply elem_of_app; right; by left|done].
    + apply (kept_memory s); try done. by intros ? [|].
  - unfold remove_message. apply kept_table; [|done|done]. intros c _ Hcon. destruct (malformed _ _); [done|].
    split; [done|]. apply rows_ok_delete. apply Hk. by left.
  - unfold update_retry_count. apply kept_table; [|done|done]. intros c _ Hcon.
    destruct (build_payload json_dumps now m) as [p|] eqn:Eb; [|done]. destruct (malformed _ _); [done|].
    split; [done|]. apply rows_ok_update. intros sid. by eapply step_of_payload.
  - apply (kept_memory s); try done. by intros ? [|].
  - destruct (rs_pending s) as [|m l]; [apply (kept_memory s); try done; by intros ? [|]|].
    assert (kept (set_pending l s)) as Hk' by (apply (kept_memory s); try done; apply Hk).
    pose proof (attempt_kept answer now m _ Hk') as H.
    destruct (attempt_upload json_dumps answer now m (set_pending l s)) as [b s']. destruct H as (Hc & Hw & Hmax & Hm & Hb).
    apply (kept_memory (set_pending l s)); try done. destruct b; intros m' [[=]|[= <-]]. by apply Hb.
  - unfold remove_message. apply kept_table; [|done|done]. intros c _ Hcon. destruct (malformed _ _); [done|].
    split; [done|]. apply rows_ok_delete. apply Hk. by right.
Qed.

Lemma own_step_kept s s' : own_step s s' → kept s → kept s'.
Proof.
  intros Hs Hk. destruct Hs as [answer now s|m l1 l2 s E|s|s Hst|s|s].
  - by apply upload_kept.
  - apply (kept_memory s); try done. apply Hk.
  - apply (kept_memory s); try done. apply Hk.
  - unfold start. destruct (rs_running s); [done|]. apply (kept_memory s); try done. by intros ? [|].
  - unfold stop. destruct (rs_running s); [|done]. apply (kept_memory s); try done. by intros ? [|].
  - apply (kept_memory s); try done. by intros ? [|].
Qed.
Lemma submit_kept result step_id sequence_id now s :
  kept s → kept (upload_result json_dumps result step_id sequence_id now s).
Proof.
  intros Hk. unfold upload_result, persist_message. set (m := mkPendingMessage _ _ _ _).
  destruct Hk as [(c & Ec & Hcon & Hrows) Hp]. rewrite Ec.
  destruct (build_payload json_dumps now m) as [p|] eqn:Eb.
  - rewrite Hcon. unfold on_table. rewrite Ec, Hcon. split; [|exact Hp].
    eexists. cbn. split_and!; [done|done|]. apply rows_ok_insert; [intros sid; by eapply step_of_payload|exact Hrows].
  - split; [|exact Hp]. by exists c.
Qed.

(** C19. No result is lost from the table. Whatever results are handed in, and however the upload
    loop, the retries, stops, crashes and starts interleave (a start only once the upload loop is at
    work or has stopped, not while a stop is still draining it) and the publisher answers: the
    row written for a result is still in the table with its step, unless a message of that step
    was published or given up after as many retries as are allowed. *)
Theorem result_row_kept c0 max_retries s id m sid :
  sc_connected c0 = true → rtc resume_step (new_manager (Some c0) max_retries) s → (id, m) ∈ rs_written s →
  pm_step_id m = PyStr sid → nul_free sid →
  (∃ c, rs_cache s = Some c ∧ row_of c id (PyStr sid)) ∨
  ∃ m', pm_step_id m' = PyStr sid ∧
    (m' ∈ rs_published s ∨ m' ∈ rs_given_up s ∧ (rs_max_retries s ≤ pm_retry_count m')%Z).
Proof.
  intros Hc Hr Hin Hm Hf. assert (kept s) as [(c & Ec & _ & Hrows) _].
  { clear Hin. revert s Hr. apply rtc_ind_r.
    - split; [|by intros ? [|]]. exists c0. split_and!; [done..|]. by intros ? ? ? ?%elem_of_nil.
    - intros s1 s2 _ [s1' s2' Hs|? ? ? ? ?] Hk; [by eapply own_step_kept|by apply submit_kept]. }
  destruct (Hrows id m sid Hin Hm Hf) as [?|?]; eauto.
Qed.
End kept.

(** ** Examples *)

(** A codec that keeps the step of a payload. *)
Definition step_dumps (v : pyval) : res string :=
  match v with PyMap ((_, PyStr s) :: _) => Ok s | _ => Raise (TypeError "not JSON serializable") end.
Definition step_loads (s : string) : res pyval :=
  Ok (PyMap [(PyStr "step_id", PyStr s); (PyStr "status", PyStr "PASSED")]).
Definition json_step (s : string) : option pyval := Some (PyStr s).
Lemma json_step_payload now m payload sid :
  build_payload step_dumps now m = Ok payload → pm_step_id m = PyStr sid → nul_free sid →
  json_step payload = Some (PyStr sid).
Proof.
  unfold build_payload. intros (status & _ & E)%res_bind_Ok Hm _. cbn in E. rewrite Hm in E. by injection E as <-.
Qed.

Definition empty_cache : SQLiteCache := mkCache true [] [] 0 1000 0 true.
Definition passed : DataResult := mkResult (Member PASSED) (PyMap []) PyNone.
Definition submitted (s : ResumeManager) : ResumeManager := upload_result step_dumps passed "measure" None "t" s.
Definition one_waits : ResumeManager := submitted (new_manager (Some empty_cache) 3).
Definition message : PendingMessage := mkPendingMessage (PyStr "measure") passed PyNone 0.

Lemma result_row_kept_witness :
  (∃ c, rs_cache one_waits = Some c ∧ row_of json_step c 1 (PyStr "measure")) ∨
  ∃ m', pm_step_id m' = PyStr "measure" ∧
    (m' ∈ rs_published one_waits ∨ m' ∈ rs_given_up one_waits ∧ (3 ≤ pm_retry_count m')%Z).
Proof.
  apply (result_row_kept step_dumps step_loads json_step json_step_payload empty_cache 3 one_waits 1 message "measure");
    [done| |by left|done|apply (bool_decide_unpack (_ ∉ _)); vm_compute; exact I].
  apply rtc_once. apply (R_submit step_dumps step_loads json_step passed "measure" None "t").
Defined.

(** The process ends while the result waits, and is started again. *)
Definition restarted : ResumeManager := start step_loads (crash one_waits).
Lemma recovered_never_published_witness : rs_published restarted = rs_published one_waits.
Proof.
  apply (recovered_never_published step_dumps step_loads json_step). apply rtc_once, R_start. by right.
Defined.

(** A publisher that takes everything. *)
Definition always_accepted (n : nat) : list (PublishAnswer * string) := replicate n (Accepted, "t").
Definition loaded : PendingMessage :=
  mkPendingMessage (PyStr "measure") (mkResult (Loose (PyStr "PASSED")) (PyMap []) PyNone) PyNone 0.
Definition waiting_cache : SQLiteCache := mkCache true [] [mkQueueRow 1 "measure" 0 "t"] 1 1000 0 true.
Lemma recovered_discarded_witness :
  let s' := upload_steps step_dumps json_step (always_accepted 15) restarted in
  rs_phase s' = Idle ∧ rs_pending s' = [] ∧ rs_published s' = [] ∧
  rs_cache s' = Some (set_queue (sql_delete (has_step json_step (PyStr "measure")) (sc_queue waiting_cache)) waiting_cache).
Proof.
  apply (recovered_discarded step_dumps json_step loaded restarted waiting_cache (always_accepted 15));
    [by eexists|done|done|done|done|done|done|done|by vm_compute].
Defined.

(** The row of a later result of the same step goes with the first one's: here the process ends
    before the second is published, and nothing of it is left. *)
Example newer_result_deleted :
  let steps n := upload_steps step_dumps json_step (always_accepted n) in
  let s := steps 2 (put_pending message (submitted (start step_loads (new_manager (Some empty_cache) 3)))) in
  let s' := crash (steps 1 (submitted s)) in
  (sc_queue <$> rs_cache s', length (rs_published s'), length (rs_written s')) = (Some [], 1, 2).
Proof. by vm_compute. Qed.

(** A result that cannot be encoded is neither written nor published, and given up in silence. *)
Example unencodable_given_up :
  let bad _ : res string := Raise (TypeError "not JSON serializable") in
  let s := upload_result bad passed "measure" None "t" (start step_loads (new_manager (Some empty_cache) 0)) in
  let s' := upload_steps bad json_step (always_accepted 3) (put_pending message s) in
  (rs_written s', rs_published s', length (rs_given_up s'), rs_pending s') = ([], [], 1, []).
Proof. by vm_compute. Qed.
