(* ===== verification/ProcessExecutor.v ===== *)
(** * Script execution (src/src/ate_platform/executor/process_executor.py, step_executor.py)

    [ProcessExecutor]: what a script's end means, and the calls of [execute] as threads between
    their accesses to the pool, the table of running tasks, the counter and the event bus, which is
    taken to accept every event. What a script does is a choice of the environment; so is when a
    wait times out. [ThreadStepExecutor] reads scripts in a way of its own; the batch of
    [execute_batch] is at the end. [cancel] reads the table in one step, and the values a script
    leaves behind are values, modules and callables. *)

From S2P Require Import Prelude PyDict PyStr Types ResultCache.

(** ** Scripts *)

Inductive GlobalValue : Type := Plain (v : pyval) | AModule | ACallable.
(** How [exec] ends; the last is an exception such as SystemExit, which is no [Exception]. *)
Inductive ScriptEnd : Type :=
  | Completed (globals : list (string * GlobalValue))
  | AssertionFailed (message : string)
  | Crashed (cls message : string)
  | Left (e : exc).
Record ScriptResult : Type := mkScriptResult {
  sc_status : pyval;
  sc_outputs : pyval;
  sc_error : pyval
}.
Inductive ScriptOutcome : Type := Answered (r : ScriptResult) | Escaped (e : exc).

Definition skip_keys : list string := ["__name__"; "__file__"; "params"; "step_id"; "result"].
Definition script_outputs (globals : list (string * GlobalValue)) : list (pyval * pyval) :=
  omap (λ kv, match kv.2 with
              | Plain v => if String.prefix "_" kv.1 || str_in kv.1 skip_keys then None else Some (PyStr kv.1, v)
              | AModule | ACallable => None
              end) globals.
Definition global_named (k : string) (globals : list (string * GlobalValue)) : option GlobalValue :=
  snd <$> find (λ kv, bool_decide (kv.1 = k)) globals.

(** [_run_script_in_thread], and [_run_script], which is the same *)
Definition run_script (e : ScriptEnd) : ScriptOutcome :=
  match e with
  | Completed globals =>
      match global_named "result" globals with
      | Some (Plain (PyMap d)) =>
          Answered (mkScriptResult (map_get_default "status" (PyStr "PASSED") d) (map_get_default "outputs" (PyMap []) d)
            (map_get_default "error" PyNone d))
      | _ => Answered (mkScriptResult (PyStr "PASSED") (PyMap (script_outputs globals)) PyNone)
      end
  | AssertionFailed message =>
      Answered (mkScriptResult (PyStr "FAILED") (PyMap [])
        (PyStr (if decide (message = "") then "Assertion failed" else message)))
  | Crashed cls message => Answered (mkScriptResult (PyStr "ERROR") (PyMap []) (PyStr (cls +:+ ": " +:+ message)))
  | Left e => Escaped e
  end.

(** [ThreadStepExecutor._run_script] *)
Definition result_outputs (globals : list (string * GlobalValue)) : list (pyval * pyval) :=
  omap (λ kv, match kv.2 with
              | Plain v => if String.prefix "result_" kv.1
                           then Some (PyStr (String.substring 7 (String.length kv.1) kv.1), v) else None
              | AModule | ACallable => None
              end) globals.
Definition run_script_in_pool (path : string) (is_file : bool) (e : ScriptEnd) : res DataResult :=
  if negb is_file then Ok (mkResult (Member ERROR) (PyMap []) (PyStr ("Script not found: " +:+ path)))
  else match e with
       | Completed globals => Ok (mkResult (Member PASSED) (PyMap (result_outputs globals)) PyNone)
       | AssertionFailed message =>
           Ok (mkResult (Member FAILED) (PyMap [])
             (PyStr (if decide (message = "") then "Assertion failed in " +:+ path else message)))
       | Crashed cls message => Ok (mkResult (Member ERROR) (PyMap []) (PyStr (cls +:+ ": " +:+ message)))
       | Left e => Raise e
       end.

(** [StepStatus(value)] *)
Definition parse_status (v : pyval) : res StepStatus :=
  match v with
  | PyStr s => match status_of_name s with
               | Some st => Ok st
               | None => Raise (ValueError (py_repr v +:+ " is not a valid StepStatus"))
               end
  | _ => Raise (ValueError (py_repr v +:+ " is not a valid StepStatus"))
  end.

(** ** Calls *)

Record Call : Type := mkCall {
  ca_script : string;
  ca_step_id : string;
  ca_task_id : string;
  ca_timeout : string;
  ca_run_id : option string
}.
Definition error_result (message : string) : DataResult := mkResult (Member ERROR) (PyMap []) (PyStr message).
Definition script_not_found (c : Call) : DataResult := error_result ("Script not found: " +:+ ca_script c).
Definition unexpected (c : Call) (message : string) : DataResult :=
  error_result ("Unexpected error executing '" +:+ ca_script c +:+ "': " +:+ message).

(** How the wait for a job ends, and what the call makes of it. *)
Inductive WaitEnd : Type := GotOutcome (o : ScriptOutcome) | WaitTimedOut | WaitCancelled | PoolClosed (multiprocessing : bool).
Definition exc_text (e : exc) : string :=
  match e with
  | KeyError m | ValueError m | TypeError m | RuntimeError m | ResourceAcquireError m | ConditionTimeoutError m
  | CircuitBreakerOpenError m | SchedulerFaultError m | ExecutionAborted m | CustomError _ m | OtherError m => m
  end.
Definition settle (c : Call) (w : WaitEnd) : res DataResult :=
  match w with
  | GotOutcome (Answered r) =>
      match parse_status (sc_status r) with
      | Ok status => Ok (mkResult (Member status) (sc_outputs r) (sc_error r))
      | Raise e => Ok (unexpected c (exc_text e))
      end
  | GotOutcome (Escaped e) => Raise e
  | WaitTimedOut => Ok (error_result ("Script '" +:+ ca_script c +:+ "' timed out after " +:+ ca_timeout c +:+ "s"))
  | WaitCancelled => Ok (unexpected c "")
  | PoolClosed multiprocessing =>
      Ok (unexpected c (if multiprocessing then "Pool not running" else "cannot schedule new futures after shutdown"))
  end.

(** Where a call of [execute] is: before the event, the counter, the pool and the table, waiting
    for its job, and before the event, the counter and the table again. *)
Inductive CallPhase : Type :=
  | NotFound
  | Announcing
  | Entering
  | Submitting
  | Registering (job : nat)
  | Waiting (job : nat)
  | Settling (o : res DataResult)
  | Leaving (o : res DataResult)
  | Dropping (o : res DataResult)
  | Finished (o : res DataResult).
Inductive JobState : Type := Queued | Busy | Ended (e : ScriptEnd) | JobCancelled.
Record Job : Type := mkJob { jb_call : nat; jb_state : JobState }.
Record RunningTask : Type := mkTask { rt_step_id : string; rt_job : nat }.
(** An event of a call, or of [cancel]. *)
Record StatusEvent : Type := mkEvent {
  se_call : option nat;
  se_step_id : string;
  se_status : StepStatus;
  se_run_id : option string
}.
Record ProcessExecutor : Type := mkExecutor {
  px_max_workers : Z;
  px_multiprocessing : bool;
  px_closed : bool;
  px_active : Z;
  px_running : pydict string RunningTask;
  px_jobs : list Job;
  px_events : list StatusEvent;
  px_calls : list (Call * CallPhase)
}.
Definition new_executor (max_workers : Z) (multiprocessing : bool) : ProcessExecutor :=
  mkExecutor max_workers multiprocessing false 0 ∅ [] [] [].
Definition set_closed (x : ProcessExecutor) :=
  mkExecutor (px_max_workers x) (px_multiprocessing x) true (px_active x) (px_running x) (px_jobs x) (px_events x) (px_calls x).
Definition add_active (n : Z) (x : ProcessExecutor) :=
  mkExecutor (px_max_workers x) (px_multiprocessing x) (px_closed x) (px_active x + n) (px_running x) (px_jobs x)
    (px_events x) (px_calls x).
Definition set_running (d : pydict string RunningTask) (x : ProcessExecutor) :=
  mkExecutor (px_max_workers x) (px_multiprocessing x) (px_closed x) (px_active x) d (px_jobs x) (px_events x) (px_calls x).
Definition set_jobs (l : list Job) (x : ProcessExecutor) :=
  mkExecutor (px_max_workers x) (px_multiprocessing x) (px_closed x) (px_active x) (px_running x) l (px_events x) (px_calls x).
Definition publish_status (e : StatusEvent) (x : ProcessExecutor) :=
  mkExecutor (px_max_workers x) (px_multiprocessing x) (px_closed x) (px_active x) (px_running x) (px_jobs x)
    (px_events x ++ [e]) (px_calls x).
Definition set_calls (l : list (Call * CallPhase)) (x : ProcessExecutor) :=
  mkExecutor (px_max_workers x) (px_multiprocessing x) (px_closed x) (px_active x) (px_running x) (px_jobs x) (px_events x) l.

(** The status of a result, and the event of a call when it has one. *)
Definition member_of (r : DataResult) : option StepStatus :=
  match dr_status r with Member s => Some s | Loose _ => None end.
Definition publish_result (i : nat) (c : Call) (o : res DataResult) (x : ProcessExecutor) : ProcessExecutor :=
  match o with
  | Ok r => match member_of r with
            | Some s => publish_status (mkEvent (Some i) (ca_step_id c) s (ca_run_id c)) x
            | None => x
            end
  | Raise _ => x
  end.

(** The next access of the call [i]: its new phase and what it did; [None] while it waits. *)
Definition call_step (i : nat) (c : Call) (p : CallPhase) (x : ProcessExecutor) : option (CallPhase * ProcessExecutor) :=
  match p with
  | NotFound | Finished _ => None
  | Announcing => Some (Entering, publish_status (mkEvent (Some i) (ca_step_id c) RUNNING (ca_run_id c)) x)
  | Entering => Some (Submitting, add_active 1 x)
  | Submitting =>
      if px_closed x then Some (Settling (settle c (PoolClosed (px_multiprocessing x))), x)
      else Some (Registering (length (px_jobs x)), set_jobs (px_jobs x ++ [mkJob i Queued]) x)
  | Registering j =>
      Some (Waiting j, set_running (<[ca_task_id c := mkTask (ca_step_id c) j]> (px_running x)) x)
  | Waiting j =>
      match jb_state <$> px_jobs x !! j with
      | Some (Ended e) => Some (Settling (settle c (GotOutcome (run_script e))), x)
      | Some JobCancelled => Some (Settling (settle c WaitCancelled), x)
      | _ => None
      end
  | Settling o => Some (Leaving o, publish_result i c o x)
  | Leaving o => Some (Dropping o, add_active (-1) x)
  | Dropping o => Some (Finished o, set_running (delete (ca_task_id c) (px_running x)) x)
  end.
Definition set_call_phase (i : nat) (c : Call) (p : CallPhase) (x : ProcessExecutor) : ProcessExecutor :=
  set_calls (<[i := (c, p)]> (px_calls x)) x.
Definition set_job_state (j : nat) (st : JobState) (x : ProcessExecutor) : ProcessExecutor :=
  set_jobs (alter (λ b, mkJob (jb_call b) st) j (px_jobs x)) x.

(** [execute], up to its first event. *)
Definition execute (is_file : bool) (c : Call) (x : ProcessExecutor) : ProcessExecutor :=
  set_calls (px_calls x ++ [(c, if is_file then Announcing else NotFound)]) x.

(** [cancel] *)
Definition job_is_queued (j : nat) (x : ProcessExecutor) : bool :=
  match jb_state <$> px_jobs x !! j with Some Queued => true | _ => false end.
Definition cancel (step_id : string) (x : ProcessExecutor) : bool * ProcessExecutor :=
  match find (λ kv, bool_decide (rt_step_id kv.2 = step_id)) (items (px_running x)) with
  | None => (false, x)
  | Some (task_id, t) =>
      let x := set_running (delete task_id (px_running x)) x in
      let x := if negb (px_multiprocessing x) && job_is_queued (rt_job t) x
               then set_job_state (rt_job t) JobCancelled x else x in
      (true, publish_status (mkEvent None step_id SKIPPED None) x)
  end.

(** The jobs that keep a worker busy. *)
Definition is_busy (b : Job) : bool := match jb_state b with Busy => true | _ => false end.
Definition busy_workers (x : ProcessExecutor) : Z := Z.of_nat (length (base.filter (λ b, is_busy b = true) (px_jobs x))).

(** [get_pool_utilization], as a fraction. *)
Definition get_pool_utilization (x : ProcessExecutor) : Z * Z :=
  if (0 <? px_max_workers x)%Z then (px_active x, px_max_workers x) else (0, 1)%Z.

(** A script can end a worker's job this way: in a pool of processes an exception that is no
    [Exception] ends the worker process instead, and the job never ends. *)
Definition ends_job (e : ScriptEnd) (x : ProcessExecutor) : bool :=
  match e with Left _ => negb (px_multiprocessing x) | _ => true end.

Inductive executor_step : ProcessExecutor → ProcessExecutor → Prop :=
  | X_execute is_file c x : executor_step x (execute is_file c x)
  | X_call i c p p' x x' : px_calls x !! i = Some (c, p) → call_step i c p x = Some (p', x') →
      executor_step x (set_call_phase i c p' x')
  | X_timeout i c j st x : px_calls x !! i = Some (c, Waiting j) → jb_state <$> px_jobs x !! j = Some st →
      (st = Queued ∨ st = Busy) → executor_step x (set_call_phase i c (Settling (settle c WaitTimedOut)) x)
  | X_start j x : jb_state <$> px_jobs x !! j = Some Queued → (busy_workers x < px_max_workers x)%Z →
      executor_step x (set_job_state j Busy x)
  | X_end j e x : jb_state <$> px_jobs x !! j = Some Busy → ends_job e x = true →
      executor_step x (set_job_state j (Ended e) x)
  | X_cancel step_id x : executor_step x (cancel step_id x).2
  | X_shutdown x : executor_step x (set_closed x).

(** What [execute] returns, once it did. *)
Definition call_result (c : Call) (p : CallPhase) : option (res DataResult) :=
  match p with NotFound => Some (Ok (script_not_found c)) | Finished o => Some o | _ => None end.

(** ** The state of the executor *)

Definition events_of (i : nat) (x : ProcessExecutor) : list StepStatus :=
  se_status <$> base.filter (λ e, se_call e = Some i) (px_events x).
Definition final_event (o : res DataResult) : list StepStatus :=
  match o with Ok r => option_list (member_of r) | Raise _ => [] end.
Definition expected_events (p : CallPhase) : list StepStatus :=
  match p with
  | NotFound | Announcing => []
  | Entering | Submitting | Registering _ | Waiting _ | Settling _ => [RUNNING]
  | Leaving o | Dropping o | Finished o => RUNNING :: final_event o
  end.
(** The calls the counter counts and those that may have an entry in the table. *)
Definition is_counted (p : CallPhase) : bool :=
  match p with Submitting | Registering _ | Waiting _ | Settling _ | Leaving _ => true | _ => false end.
Definition is_registered (p : CallPhase) : bool :=
  match p with Waiting _ | Settling _ | Leaving _ | Dropping _ => true | _ => false end.
Definition counted_calls (l : list (Call * CallPhase)) : Z :=
  Z.of_nat (length (base.filter (λ cp : Call * CallPhase, is_counted cp.2 = true) l)).

(** What a call says of a script's end. A "result" dictionary gives the status, outputs and error,
    if the status is the name of one; without it the public plain values are the outputs. *)
Definition result_dict (globals : list (string * GlobalValue)) (d : list (pyval * pyval)) : Prop :=
  ∃ l1 l2, globals = l1 ++ ("result", Plain (PyMap d)) :: l2 ∧ "result" ∉ l1.*1.
Definition public_name (k : string) : Prop :=
  (∀ k', k ≠ "_" +:+ k') ∧ k ≠ "params" ∧ k ≠ "step_id" ∧ k ≠ "result".
Definition reports (c : Call) (e : ScriptEnd) (o : res DataResult) : Prop :=
  match e with
  | Left x => o = Raise x
  | AssertionFailed m =>
      ∃ m', o = Ok (mkResult (Member FAILED) (PyMap []) (PyStr m')) ∧ (m ≠ "" → m' = m) ∧ (m = "" → m' = "Assertion failed")
  | Crashed cls m => o = Ok (mkResult (Member ERROR) (PyMap []) (PyStr (cls +:+ ": " +:+ m)))
  | Completed globals =>
      (∃ d s, result_dict globals d ∧ map_get_default "status" (PyStr "PASSED") d = PyStr (status_value s)
         ∧ o = Ok (mkResult (Member s) (map_get_default "outputs" (PyMap []) d) (map_get_default "error" PyNone d)))
      ∨ (∃ d, result_dict globals d ∧ (∀ s, map_get_default "status" (PyStr "PASSED") d ≠ PyStr (status_value s))
         ∧ o = Ok (mkResult (Member ERROR) (PyMap []) (PyStr ("Unexpected error executing '" +:+ ca_script c +:+ "': "
                 +:+ py_repr (map_get_default "status" (PyStr "PASSED") d) +:+ " is not a valid StepStatus"))))
      ∨ (∃ l, (∀ d, ¬ result_dict globals d) ∧ o = Ok (mkResult (Member PASSED) (PyMap l) PyNone)
         ∧ ∀ k v, (k, v) ∈ l ↔ ∃ name, k = PyStr name ∧ (name, Plain v) ∈ globals ∧ public_name name)
  end.

(** A result is what the call makes of the outcome of its own job, unless the wait ended otherwise:
    by the time-out, because the job was cancelled, or because the pool had been shut down. *)
Definition result_ok (i : nat) (c : Call) (o : res DataResult) (x : ProcessExecutor) : Prop :=
  (∃ j e, px_jobs x !! j = Some (mkJob i (Ended e)) ∧ o = settle c (GotOutcome (run_script e)))
  ∨ o = settle c WaitTimedOut
  ∨ (∃ j, px_jobs x !! j = Some (mkJob i JobCancelled) ∧ o = settle c WaitCancelled)
  ∨ px_closed x = true ∧ o = settle c (PoolClosed (px_multiprocessing x)).
Definition phase_ok (i : nat) (c : Call) (p : CallPhase) (x : ProcessExecutor) : Prop :=
  match p with
  | Registering j | Waiting j => ∃ st, px_jobs x !! j = Some (mkJob i st)
  | Settling o | Leaving o | Dropping o | Finished o => result_ok i c o x
  | _ => True
  end.
Record executor_ok (x : ProcessExecutor) : Prop := {
  ok_calls : ∀ i c p, px_calls x !! i = Some (c, p) → events_of i x = expected_events p ∧ phase_ok i c p x;
  ok_no_events : ∀ i, length (px_calls x) ≤ i → events_of i x = [];
  ok_active : px_active x = counted_calls (px_calls x);
  ok_running : ∀ t v, px_running x !! t = Some v →
    ∃ i c p, px_calls x !! i = Some (c, p) ∧ ca_task_id c = t ∧ is_registered p = true
}.

(** Jobs keep their calls and how they ended; a pool that is shut down stays so. *)
Definition has_ended (st : JobState) : bool := match st with Ended _ | JobCancelled => true | _ => false end.
Definition jobs_grow (x x' : ProcessExecutor) : Prop :=
  px_multiprocessing x' = px_multiprocessing x ∧ (px_closed x = true → px_closed x' = true) ∧
  ∀ j b, px_jobs x !! j = Some b → ∃ b', px_jobs x' !! j = Some b' ∧ jb_call b' = jb_call b ∧
    (has_ended (jb_state b) = true → b' = b).
Lemma jobs_grow_refl x x' : px_multiprocessing x' = px_multiprocessing x → (px_closed x = true → px_closed x' = true) →
  px_jobs x' = px_jobs x → jobs_grow x x'.
Proof. intros Hm Hc E. split; [done|]. split; [done|]. rewrite E. eauto. Qed.
Lemma jobs_grow_app x x' l :
  px_multiprocessing x' = px_multiprocessing x → (px_closed x = true → px_closed x' = true) →
  px_jobs x' = px_jobs x ++ l → jobs_grow x x'.
Proof.
  intros Hm Hc E. split; [done|]. split; [done|]. intros j b Hb. exists b. rewrite E. split; [by apply lookup_app_l_Some|done].
Qed.
Lemma jobs_grow_state j st st' x :
  jb_state <$> px_jobs x !! j = Some st' → has_ended st' = false → jobs_grow x (set_job_state j st x).
Proof.
  intros Hst Hne. split; [done|]. split; [done|]. intros k b Hb. cbn. destruct (decide (j = k)) as [->|?].
  - rewrite list_lookup_alter_eq, Hb. eexists. split; [done|]. split; [done|]. rewrite Hb in Hst. cbn in Hst. congruence.
  - rewrite list_lookup_alter_ne by done. eauto.
Qed.
Lemma phase_ok_grow i c p x x' : jobs_grow x x' → phase_ok i c p x → phase_ok i c p x'.
Proof.
  intros (Hm & Hc & Hg). assert (∀ j st, has_ended st = true → px_jobs x !! j = Some (mkJob i st) →
    px_jobs x' !! j = Some (mkJob i st)) as Hk.
  { intros j st Hst Hj. destruct (Hg _ _ Hj) as (b' & Hb' & _ & E). by rewrite Hb', E. }
  assert (∀ o, result_ok i c o x → result_ok i c o x') as Hr.
  { intros o [(j & e & Hj & ->)|[->|[(j & Hj & ->)|[Hcl ->]]]].
    - left. exists j, e. split; [by apply Hk|done].
    - right; by left.
    - right; right; left. exists j. split; [by apply Hk|done].
    - do 3 right. rewrite Hm. split; [by apply Hc|done]. }
  assert (∀ j, (∃ st, px_jobs x !! j = Some (mkJob i st)) → ∃ st, px_jobs x' !! j = Some (mkJob i st)) as Hj.
  { intros j [st Hj]. destruct (Hg _ _ Hj) as ([k st'] & Hb' & E & _). cbn in E. subst. eauto. }
  destruct p; cbn; auto.
Qed.

Lemma counted_cons x l : counted_calls (x :: l) = (Z.b2z (is_counted x.2) + counted_calls l)%Z.
Proof. unfold counted_calls. rewrite filter_cons. destruct (is_counted x.2); case_decide; cbn [length Z.b2z]; done || lia. Qed.
Lemma counted_app l l' : counted_calls (l ++ l') = (counted_calls l + counted_calls l')%Z.
Proof. unfold counted_calls. rewrite filter_app, length_app. lia. Qed.
Lemma counted_insert l i x y : l !! i = Some x →
  counted_calls (<[i := y]> l) = (counted_calls l + Z.b2z (is_counted y.2) - Z.b2z (is_counted x.2))%Z.
Proof.
  revert i. induction l as [|z l IH]; intros [|i] Hi; [done..|injection Hi as ->|].
  - cbn [insert list_insert]. rewrite !counted_cons. lia.
  - change (<[S i := y]> (z :: l)) with (z :: <[i := y]> l). rewrite !counted_cons, (IH i Hi). lia.
Qed.

(** A step of the call [i] from [p] to [p'], with the events [new]. *)
Lemma call_ok i c p p' x x' new :
  executor_ok x → px_calls x !! i = Some (c, p) →
  px_calls x' = px_calls x → jobs_grow x x' →
  (∀ k, events_of k x' = events_of k x ++ if decide (k = i) then new else []) →
  expected_events p' = expected_events p ++ new → phase_ok i c p' x' →
  px_active x' = (px_active x + Z.b2z (is_counted p') - Z.b2z (is_counted p))%Z →
  (∀ t v, px_running x' !! t = Some v →
    t = ca_task_id c ∧ is_registered p' = true ∨
    px_running x !! t = Some v ∧ (is_registered p = true → is_registered p' = true ∨ t ≠ ca_task_id c)) →
  executor_ok (set_call_phase i c p' x').
Proof.
  intros [Hcalls Hno Hact Hrun] Hi Ec Hjobs Hev Hexp Hph Ha Hr.
  assert (i < length (px_calls x)) as Hlt by by eapply lookup_lt_Some.
  split; unfold set_call_phase; cbn [set_calls px_calls px_active px_running]; rewrite ?Ec.
  - intros k ck pk Hk. change (events_of k (set_calls _ x')) with (events_of k x'). rewrite Hev.
    destruct (decide (k = i)) as [->|Hne].
    + rewrite list_lookup_insert_eq in Hk by done. injection Hk as <- <-.
      destruct (Hcalls _ _ _ Hi) as [-> _]. split; [done|exact Hph].
    + rewrite list_lookup_insert_ne in Hk by done. rewrite app_nil_r. destruct (Hcalls _ _ _ Hk) as [? ?].
      split; [done|]. by apply (phase_ok_grow k ck pk x x').
  - intros k Hk. rewrite length_insert in Hk. change (events_of k (set_calls _ x')) with (events_of k x').
    rewrite Hev, decide_False by lia. rewrite app_nil_r. by apply Hno.
  - rewrite Ha, Hact, (counted_insert _ _ _ (c, p') Hi). done.
  - intros t v Ht. destruct (Hr t v Ht) as [[-> Hreg]|[Hold Hkeep]].
    + exists i, c, p'. rewrite list_lookup_insert_eq by done. by split_and!.
    + destruct (Hrun t v Hold) as (k & ck & pk & Hk & <- & Hreg). destruct (decide (k = i)) as [->|Hne].
      * assert (ck = c ∧ pk = p) as [-> ->] by (split; congruence).
        destruct (Hkeep Hreg) as [Hreg'|?]; [|done].
        exists i, c, p'. rewrite list_lookup_insert_eq by done. by split_and!.
      * exists k, ck, pk. rewrite list_lookup_insert_ne by done. by split_and!.
Qed.

Lemma events_publish e x k :
  events_of k (publish_status e x) = events_of k x ++ if decide (se_call e = Some k) then [se_status e] else [].
Proof. unfold events_of. cbn. rewrite filter_app, fmap_app, filter_cons. f_equal. by case_decide. Qed.
Lemma events_result i c o x k :
  events_of k (publish_result i c o x) = events_of k x ++ if decide (k = i) then final_event o else [].
Proof.
  unfold publish_result, final_event. destruct o as [r|e]; [destruct (member_of r) as [s|]|].
  - rewrite events_publish. cbn. f_equal. destruct (decide (k = i)) as [->|?]; [by rewrite decide_True|].
    rewrite decide_False; [done|]. congruence.
  - cbn. by destruct (decide _); rewrite app_nil_r.
  - by destruct (decide _); rewrite app_nil_r.
Qed.

Lemma call_step_ok i c p p' x x' :
  executor_ok x → px_calls x !! i = Some (c, p) → call_step i c p x = Some (p', x') →
  executor_ok (set_call_phase i c p' x').
Proof.
  intros Hok Hi Hs. destruct (ok_calls _ Hok _ _ _ Hi) as [_ Hph].
  assert (∀ k, events_of k x = events_of k x ++ if decide (k = i) then [] else []) as Hsame.
  { intros k. by destruct (decide _); rewrite app_nil_r. }
  destruct p as [| | | |j|j|o|o|o|o]; cbn -[settle] in Hs; try discriminate Hs.
  - injection Hs as <- <-. apply (call_ok i c Announcing _ x _ [RUNNING]); try done.
    + by apply jobs_grow_refl.
    + intros k. rewrite events_publish. cbn. f_equal. destruct (decide (k = i)) as [->|?]; [by rewrite decide_True|].
      rewrite decide_False; [done|congruence].
    + cbn. lia.
    + intros t v Ht. right. by split.
  - injection Hs as <- <-. apply (call_ok i c Entering _ x _ []); try done; [by apply jobs_grow_refl|cbn; lia|].
    intros t v Ht. right. by split.
  - destruct (px_closed x) eqn:Hcl; injection Hs as <- <-.
    + apply (call_ok i c Submitting _ x _ []); try done; [by apply jobs_grow_refl| |cbn; lia|].
      * by do 3 right.
      * intros t v Ht. right. by split.
    + apply (call_ok i c Submitting _ x _ []); try done; [by eapply jobs_grow_app| |cbn; lia|].
      * eexists. cbn. by rewrite lookup_app_r, Nat.sub_diag by lia.
      * intros t v Ht. right. by split.
  - injection Hs as <- <-. apply (call_ok i c (Registering j) _ x _ []); try done; [by apply jobs_grow_refl|cbn; lia|].
    intros t v Ht. cbn in Ht. destruct (decide (t = ca_task_id c)) as [->|Hne]; [by left|]. right.
    rewrite dict_lookup_insert_ne in Ht by done. by split.
  - destruct Hph as [st Hj]. rewrite Hj in Hs. cbn -[settle] in Hs.
    assert (∃ w, p' = Settling (settle c w) ∧ x' = x ∧ result_ok i c (settle c w) x) as (w & -> & -> & Hres).
    { destruct st as [| |e|]; try discriminate Hs; injection Hs as <- <-.
      - exists (GotOutcome (run_script e)). split_and!; [done..|]. left. eauto.
      - exists WaitCancelled. split_and!; [done..|]. right; right; left. eauto. }
    apply (call_ok i c (Waiting j) _ x _ []); try done; [by apply jobs_grow_refl|cbn; lia|].
    intros t v Ht. right. split; [done|]. by left.
  - injection Hs as <- <-. assert (px_calls (publish_result i c o x) = px_calls x ∧ px_jobs (publish_result i c o x) = px_jobs x ∧
      px_active (publish_result i c o x) = px_active x ∧ px_running (publish_result i c o x) = px_running x ∧
      px_multiprocessing (publish_result i c o x) = px_multiprocessing x ∧
      px_closed (publish_result i c o x) = px_closed x) as (E1 & E2 & E3 & E4 & E5 & E6).
    { unfold publish_result. repeat case_match; done. }
    assert (jobs_grow x (publish_result i c o x)) as Hg by (apply jobs_grow_refl; congruence).
    apply (call_ok i c (Settling o) _ x _ (final_event o)); try done; [apply events_result| |cbn; lia|].
    + by apply (phase_ok_grow i c (Settling o) x).
    + rewrite E4. intros t v Ht. right. split; [done|]. by left.
  - injection Hs as <- <-. apply (call_ok i c (Leaving o) _ x _ []); try done; [by apply jobs_grow_refl|by rewrite app_nil_r|cbn; lia|].
    intros t v Ht. right. split; [done|]. by left.
  - injection Hs as <- <-. apply (call_ok i c (Dropping o) _ x _ []); try done; [by apply jobs_grow_refl|by rewrite app_nil_r|cbn; lia|].
    intros t v Ht. cbn in Ht. destruct (decide (t = ca_task_id c)) as [->|Hne]; [by rewrite dict_lookup_delete_eq in Ht|]. right.
    rewrite dict_lookup_delete_ne in Ht by done. split; [done|]. by right.
Qed.

(** Steps that are none of a call: the events of calls and the calls stay, jobs grow, the table
    shrinks. *)
Lemma other_ok x x' :
  executor_ok x → px_calls x' = px_calls x → px_active x' = px_active x → jobs_grow x x' →
  (∀ i, events_of i x' = events_of i x) →
  (∀ t v, px_running x' !! t = Some v → px_running x !! t = Some v) → executor_ok x'.
Proof.
  intros [Hcalls Hno Hact Hrun] Ec Ea Hg Hev Hr. split; rewrite ?Ec, ?Ea; [|by intros; rewrite Hev; auto|done|eauto].
  intros i c p Hi. rewrite Hev. destruct (Hcalls _ _ _ Hi) as [? ?]. split; [done|]. by eapply phase_ok_grow.
Qed.
Lemma cancel_ok step_id x : executor_ok x → executor_ok (cancel step_id x).2.
Proof.
  intros Hok. unfold cancel. destruct (find _ _) as [[task t]|]; [|done]. cbn [snd].
  set (x1 := set_running _ x). match goal with |- executor_ok (publish_status _ ?y) => set (x2 := y) end.
  assert (px_calls x2 = px_calls x ∧ px_active x2 = px_active x ∧ px_running x2 = delete task (px_running x) ∧
    px_events x2 = px_events x ∧ jobs_grow x1 x2) as (E1 & E2 & E3 & E4 & Hg).
  { subst x2. unfold job_is_queued. destruct (jb_state <$> px_jobs x1 !! rt_job t) as [[]|] eqn:Es;
      rewrite ?andb_false_r, ?andb_true_r; try (split_and!; [done..|by apply jobs_grow_refl]).
    destruct (negb _); (split_and!; [done..|]); [|by apply jobs_grow_refl]. by eapply jobs_grow_state. }
  apply (other_ok x); try done.
  - intros i. rewrite events_publish. cbn. unfold events_of. by rewrite E4, app_nil_r.
  - cbn. rewrite E3. intros k v Hk. destruct (decide (k = task)) as [->|?]; [by rewrite dict_lookup_delete_eq in Hk|].
    by rewrite dict_lookup_delete_ne in Hk.
Qed.
Lemma execute_ok is_file c x : executor_ok x → executor_ok (execute is_file c x).
Proof.
  intros [Hcalls Hno Hact Hrun]. split; cbn [execute set_calls px_calls px_active px_running].
  - intros i ci p Hi. change (events_of i (execute is_file c x)) with (events_of i x).
    destruct (decide (i < length (px_calls x))) as [Hlt|Hge].
    + rewrite lookup_app_l in Hi by done. destruct (Hcalls _ _ _ Hi) as [? ?]. split; [done|].
      by apply (phase_ok_grow i ci p x); [apply jobs_grow_refl|].
    + rewrite lookup_app_r in Hi by lia. rewrite Hno by lia.
      apply list_lookup_singleton_Some in Hi as [_ [= <- <-]]. by destruct is_file.
  - intros i Hi. rewrite length_app in Hi. cbn in Hi. apply Hno. lia.
  - rewrite Hact, counted_app, counted_cons. change (counted_calls []) with 0%Z.
    destruct is_file; cbn [snd is_counted Z.b2z]; lia.
  - intros t v Ht. destruct (Hrun t v Ht) as (i & ci & p & Hi & ?). exists i, ci, p. split; [|done].
    by apply lookup_app_l_Some.
Qed.
Lemma executor_step_ok x x' : executor_step x x' → executor_ok x → executor_ok x'.
Proof.
  intros Hs Hok. destruct Hs as [is_file c x|i c p p' x x' Hi Hs|i c j st x Hi Hj Hst|j x Hj Hb|j e x Hj He|step_id x|x].
  - by apply execute_ok.
  - by eapply call_step_ok.
  - apply (call_ok i c (Waiting j) _ x x []); try done; [by apply jobs_grow_refl| | |cbn; lia|].
    + intros k. by destruct (decide _); rewrite app_nil_r.
    + right; by left.
    + intros t v Ht. right. split; [done|]. by left.
  - apply (other_ok x); try done. by eapply jobs_grow_state.
  - apply (other_ok x); try done. by eapply jobs_grow_state.
  - by apply cancel_ok.
  - by apply (other_ok x); try done; apply jobs_grow_refl.
Qed.
Lemma executor_reachable_ok n b x : rtc executor_step (new_executor n b) x → executor_ok x.
Proof.
  revert x. apply rtc_ind_r; [|intros; by eapply executor_step_ok].
  split; [by intros ? ? ?|done|done|by intros ? ?].
Qed.

(** C18. In every reachable state the counter of active workers is the number of calls between
    their two updates of it, and every entry of the table of running tasks belongs to a call that
    is under way; so when every call has returned, whatever was cancelled and whatever timed out,
    the counter is zero and the table empty. *)
Theorem executor_accounting max_workers multiprocessing x :
  rtc executor_step (new_executor max_workers multiprocessing) x →
  px_active x = counted_calls (px_calls x) ∧
  (∀ t v, px_running x !! t = Some v → ∃ i c p, px_calls x !! i = Some (c, p) ∧ ca_task_id c = t ∧ call_result c p = None) ∧
  ((∀ i c p, px_calls x !! i = Some (c, p) → is_Some (call_result c p)) →
   px_active x = 0%Z ∧ ∀ t, px_running x !! t = None).
Proof.
  intros Hok%executor_reachable_ok. assert (∀ t v, px_running x !! t = Some v →
    ∃ i c p, px_calls x !! i = Some (c, p) ∧ ca_task_id c = t ∧ call_result c p = None) as Hrun.
  { intros t v Ht. destruct (ok_running _ Hok t v Ht) as (i & c & p & Hi & ? & Hr). exists i, c, p.
    split_and!; [done..|]. by destruct p. }
  split_and!; [apply Hok|done|]. intros Hall. split.
  - rewrite (ok_active _ Hok). unfold counted_calls. rewrite (proj2 (list_filter_empty _ _)); [done|].
    intros [c p] [i Hi]%list_elem_of_lookup. destruct (Hall _ _ _ Hi) as [o Ho]. by destruct p.
  - intros t. destruct (px_running x !! t) as [v|] eqn:Ht; [|done].
    destruct (Hrun t v Ht) as (i & c & p & Hi & _ & Hn). destruct (Hall _ _ _ Hi) as [o Ho]. congruence.
Qed.

Lemma parse_status_Ok v s : parse_status v = Ok s ↔ v = PyStr (status_value s).
Proof.
  unfold parse_status. split.
  - destruct v; try done. destruct (status_of_name _) as [st|] eqn:E; [|done]. intros [= <-].
    f_equal. symmetry. by apply status_of_name_Some.
  - intros ->. by rewrite status_of_value.
Qed.
Lemma global_named_result globals d :
  global_named "result" globals = Some (Plain (PyMap d)) ↔ result_dict globals d.
Proof.
  unfold global_named, result_dict. induction globals as [|[k v] l IH]; cbn.
  - split; [done|]. by intros ([] & l2 & [=] & _).
  - case_bool_decide as Hk; cbn.
    + subst k. split; [intros [= ->]; exists [], l; by split; [|apply not_elem_of_nil]|].
      intros ([|[k' v'] l1] & l2 & [= -> ->] & Hn); [done|]. destruct Hn. by left.
    + rewrite IH. split.
      * intros (l1 & l2 & -> & Hn). exists ((k, v) :: l1), l2. split; [done|]. cbn. set_solver.
      * intros ([|[k' v'] l1] & l2 & [= -> ->] & Hn); [done|]. exists l1, l2. split; [done|]. cbn in Hn. set_solver.
Qed.
Lemma public_name_spec k : String.prefix "_" k || str_in k skip_keys = false ↔ public_name k.
Proof.
  unfold public_name, skip_keys, str_in. rewrite orb_false_iff, bool_decide_eq_false. split.
  - intros [Hp Hs]. split_and!; [|set_solver..]. intros k' ->. destruct k'; discriminate Hp.
  - intros (Hp & H1 & H2 & H3). split.
    + destruct k as [|a k]; [done|]. destruct (ascii_dec "_" a) as [<-|Hne]; [by destruct (Hp k)|].
      change ((if ascii_dec "_" a then String.prefix "" k else false) = false). by destruct (ascii_dec "_" a).
    + rewrite !elem_of_cons. intros [E|[E|[E|[E|[E|[]%elem_of_nil]]]]]; [by apply (Hp "_name__")|by apply (Hp "_file__")|done..].
Qed.
Lemma script_outputs_spec globals k v :
  (k, v) ∈ script_outputs globals ↔ ∃ name, k = PyStr name ∧ (name, Plain v) ∈ globals ∧ public_name name.
Proof.
  unfold script_outputs. rewrite list_elem_of_omap. setoid_rewrite <-public_name_spec. split.
  - intros ([name [w| |]] & Hin & H); try done. cbn in H. destruct (_ || _) eqn:E; [done|]. injection H as <- <-. eauto.
  - intros (name & -> & Hin & Hp). exists (name, Plain v). split; [done|]. cbn. by rewrite Hp.
Qed.

(** What the code makes of a script's end is what [reports] says. *)
Lemma settle_reports c e : reports c e (settle c (GotOutcome (run_script e))).
Proof.
  destruct e as [globals|m|cls m|x]; cbn [run_script reports]; [| |done|done].
  2: { eexists. split; [reflexivity|]. by case_decide. }
  destruct (global_named "result" globals) as [[[| | | | | |d|]| |]|] eqn:Eg;
    try (right; right; exists (script_outputs globals); split_and!; [|done|intros; apply script_outputs_spec];
         intros d' Hd%global_named_result; congruence).
  apply global_named_result in Eg. cbn [settle sc_status sc_outputs sc_error].
  set (v := map_get_default "status" _ d). destruct (parse_status v) as [s|e] eqn:Es.
  - apply parse_status_Ok in Es. left. exists d, s. by split_and!.
  - right; left. exists d. fold v. split_and!; [done| |].
    + intros s Hs. apply parse_status_Ok in Hs. congruence.
    + unfold parse_status in Es. repeat case_match; simplify_eq; done.
Qed.

Lemma executor_step_kept x x' : executor_step x x' → px_multiprocessing x' = px_multiprocessing x.
Proof.
  destruct 1 as [| i c p p' x x' Hi Hs| | | |step_id x|]; try done.
  - cbn. destruct p; cbn -[settle] in Hs; unfold publish_result in Hs; repeat case_match; by simplify_eq.
  - unfold cancel. by repeat case_match.
Qed.

(** C17. What a call of [execute] reports. When the script is missing it returns an ERROR and
    publishes nothing. Otherwise it has published RUNNING and then the status it returned, and
    nothing else, and what it returned is either a report of how its own job's script ended (the status,
    outputs and error of the script's "result", or ERROR when that names no status;
    without one PASSED with the public values as outputs; FAILED for an assertion, ERROR for
    another exception; and an exception that is no [Exception] is raised on, RUNNING being all
    that is published), or an ERROR that says why there is none: the wait timed out, the job had been cancelled, or the
    pool had been shut down. *)
Theorem execute_contract max_workers multiprocessing x i c p o :
  rtc executor_step (new_executor max_workers multiprocessing) x →
  px_calls x !! i = Some (c, p) → call_result c p = Some o →
  p = NotFound ∧ o = Ok (script_not_found c) ∧ events_of i x = [] ∨
  events_of i x = RUNNING :: final_event o ∧
    ((∃ j e, px_jobs x !! j = Some (mkJob i (Ended e)) ∧ reports c e o)
     ∨ (∃ m, o = Ok (mkResult (Member ERROR) (PyMap []) (PyStr m))
         ∧ (m = "Script '" +:+ ca_script c +:+ "' timed out after " +:+ ca_timeout c +:+ "s"
            ∨ m = "Unexpected error executing '" +:+ ca_script c +:+ "': "
              ∧ (∃ j, px_jobs x !! j = Some (mkJob i JobCancelled))
            ∨ m = "Unexpected error executing '" +:+ ca_script c +:+ "': "
                  +:+ (if multiprocessing then "Pool not running" else "cannot schedule new futures after shutdown")
              ∧ px_closed x = true))).
Proof.
  intros Hr Hi Ho. pose proof (executor_reachable_ok _ _ _ Hr) as Hok.
  assert (px_multiprocessing x = multiprocessing) as Hm.
  { clear -Hr. revert x Hr. apply rtc_ind_r; [done|]. intros x x' _ Hs <-. by apply executor_step_kept. }
  destruct (ok_calls _ Hok _ _ _ Hi) as [Hev Hph].
  destruct p; try discriminate Ho; injection Ho as <-; [by left|right]. split; [exact Hev|].
  destruct Hph as [(j & e & Hj & ->)|[->|[(j & Hj & ->)|[Hcl ->]]]]; [left|right; eexists; (split; [reflexivity|])..].
  - exists j, e. split; [done|apply settle_reports].
  - by left.
  - right; left. split; [by rewrite str_app_nil_r|eauto].
  - do 2 right. by rewrite <-Hm.
Qed.

(** The accesses a call has left. *)
Definition call_rank (p : CallPhase) : nat :=
  match p with
  | NotFound | Finished _ => 0 | Dropping _ => 1 | Leaving _ => 2 | Settling _ => 3 | Waiting _ => 4
  | Registering _ => 5 | Submitting => 6 | Entering => 7 | Announcing => 8
  end.
(** The steps of the call [i]: its accesses, and the time-out of its wait. *)
Inductive own_step (i : nat) : ProcessExecutor → ProcessExecutor → Prop :=
  | own_call c p p' x x' : px_calls x !! i = Some (c, p) → call_step i c p x = Some (p', x') →
      own_step i x (set_call_phase i c p' x')
  | own_timeout c j st x : px_calls x !! i = Some (c, Waiting j) → jb_state <$> px_jobs x !! j = Some st →
      (st = Queued ∨ st = Busy) → own_step i x (set_call_phase i c (Settling (settle c WaitTimedOut)) x).
Lemma own_step_executor i x x' : own_step i x x' → executor_step x x'.
Proof. destruct 1; [by eapply X_call|by eapply X_timeout]. Qed.

Lemma call_progress x i c p :
  executor_ok x → px_calls x !! i = Some (c, p) → call_result c p = None →
  ∃ p' x', own_step i x (set_call_phase i c p' x') ∧ px_calls x' = px_calls x ∧ call_rank p' < call_rank p.
Proof.
  intros Hok Hi Hn. destruct (ok_calls _ Hok _ _ _ Hi) as [_ Hph].
  destruct (call_step i c p x) as [[p' x']|] eqn:Es.
  - exists p', x'. split; [by apply (own_call i c p)|].
    destruct p as [| | | |j|j|o|o|o|o]; cbn in Es; try discriminate Es;
      [injection Es as <- <-; cbn; split; [done|lia]..| | | | | |].
    + destruct (px_closed x); injection Es as <- <-; cbn; (split; [done|lia]).
    + injection Es as <- <-; cbn; split; [done|lia].
    + destruct (jb_state <$> _) as [[]|]; try discriminate Es; injection Es as <- <-; cbn; (split; [done|lia]).
    + injection Es as <- <-. unfold publish_result. split; [by repeat case_match|cbn; lia].
    + injection Es as <- <-; cbn; split; [done|lia].
    + injection Es as <- <-; cbn; split; [done|lia].
  - destruct p as [| | | |j|j|o|o|o|o]; try discriminate; [cbn in Es; by destruct (px_closed x)|].
    destruct Hph as [st Hj]. cbn in Es. rewrite Hj in Es. cbn in Es.
    exists (Settling (settle c WaitTimedOut)), x. split; [|split; [done|cbn; lia]].
    apply (own_timeout i c j st); [done|by rewrite Hj|]. destruct st; (by auto) || discriminate Es.
Qed.

Lemma call_returns i c k : ∀ x p,
  call_rank p ≤ k → executor_ok x → px_calls x !! i = Some (c, p) →
  ∃ n x' p' o, n ≤ k ∧ nsteps (own_step i) n x x' ∧ px_calls x' !! i = Some (c, p') ∧ call_result c p' = Some o.
Proof.
  induction k as [|k IH]; intros x p Hk Hok Hi;
    (destruct (call_result c p) as [o|] eqn:Ho; [exists 0, x, p, o; split_and!; [lia|constructor|done..]|]).
  - by destruct p; cbn in Hk; try lia.
  - destruct (call_progress x i c p Hok Hi Ho) as (p1 & x1 & Hs & Ec & Hlt).
    destruct (IH (set_call_phase i c p1 x1) p1) as (n & x' & p' & o & Hn & Hr & ? & ?); [lia| | |].
    + by eapply executor_step_ok; [eapply own_step_executor|].
    + cbn. rewrite Ec. apply list_lookup_insert_eq. by eapply lookup_lt_Some.
    + exists (S n), x', p', o. split_and!; [lia| |done..]. by econstructor.
Qed.

(** C31. No script and no other call can hold a call up: from every reachable state, a call of
    [execute] can return by at most eight steps of its own, its accesses and its time-out, without
    a step of a worker or of another call. *)
Theorem calls_can_end max_workers multiprocessing x i c p :
  rtc executor_step (new_executor max_workers multiprocessing) x → px_calls x !! i = Some (c, p) →
  ∃ n x' p' o, n ≤ 8 ∧ nsteps (own_step i) n x x' ∧ px_calls x' !! i = Some (c, p') ∧ call_result c p' = Some o.
Proof. intros Hok%executor_reachable_ok. apply call_returns; [destruct p; cbn; lia|done]. Qed.

(** ** Batches *)

(** shared/types.py *)
Record ExecuteTask : Type := mkExecuteTask {
  et_script_path : string;
  et_params : pydict string pyval;
  et_step_id : option string;
  et_timeout : pyval;
  et_run_id : option string
}.

Section batch.
(** What [execute_async] may return or raise for a task. *)
Context (runs : ExecuteTask → res DataResult → Prop).

(** A coroutine of [execute_batch]: queued at the semaphore, in [execute_async], or at its end. *)
Inductive BatchSlot : Type := SlotWaiting | SlotRunning | SlotDone (o : res DataResult).
Record Batch : Type := mkBatch {
  ba_value : Z;  (* of the semaphore *)
  ba_slots : list (ExecuteTask * BatchSlot);
  ba_raised : option exc  (* the first exception, which [gather] raises at once *)
}.
Definition execute_batch (tasks : list ExecuteTask) (max_concurrency : option Z) (max_workers : Z) : res Batch :=
  let concurrency := default max_workers max_concurrency in
  if (concurrency <? 0)%Z then Raise (ValueError "Semaphore initial value must be >= 0")
  else Ok (mkBatch concurrency ((λ t, (t, SlotWaiting)) <$> tasks) None).

Definition first_raised (o : res DataResult) (raised : option exc) : option exc :=
  match raised, o with None, Raise e => Some e | _, _ => raised end.
(** The semaphore lets them in, in their order, while it has a unit left; each gives its back. *)
Inductive batch_step : Batch → Batch → Prop :=
  | B_enter v before t after raised :
      Forall (λ s, s.2 ≠ SlotWaiting) before → (0 < v)%Z →
      batch_step (mkBatch v (before ++ (t, SlotWaiting) :: after) raised)
        (mkBatch (v - 1) (before ++ (t, SlotRunning) :: after) raised)
  | B_leave v before t after raised o :
      runs t o →
      batch_step (mkBatch v (before ++ (t, SlotRunning) :: after) raised)
        (mkBatch (v + 1) (before ++ (t, SlotDone o) :: after) (first_raised o raised)).

(** What [await asyncio.gather(...)] gives, once it gives something. *)
Definition done_result (s : BatchSlot) : option DataResult :=
  match s with SlotDone (Ok r) => Some r | _ => None end.
Definition gathered (b : Batch) : option (res (list DataResult)) :=
  match ba_raised b with
  | Some e => Some (Raise e)
  | None => Ok <$> mapM (λ ts, done_result ts.2) (ba_slots b)
  end.

Definition is_in_flight (s : BatchSlot) : bool := match s with SlotRunning => true | _ => false end.
Definition in_flight (b : Batch) : Z :=
  Z.of_nat (length (base.filter (λ ts, is_in_flight ts.2 = true) (ba_slots b))).

(** The steps a coroutine has left. *)
Definition slot_rank (s : BatchSlot) : nat :=
  match s with SlotWaiting => 2 | SlotRunning => 1 | SlotDone _ => 0 end.
Definition batch_rank (b : Batch) : nat := sum_list_with (λ ts, slot_rank ts.2) (ba_slots b).

Record batch_ok (tasks : list ExecuteTask) (n : Z) (b : Batch) : Prop := {
  bo_value : (ba_value b + in_flight b = n)%Z;
  bo_nonneg : (0 ≤ ba_value b)%Z;
  bo_tasks : (ba_slots b).*1 = tasks;
  bo_runs t o : (t, SlotDone o) ∈ ba_slots b → runs t o;
  bo_raised e : ba_raised b = Some e → ∃ t, t ∈ tasks ∧ runs t (Raise e);
  bo_quiet t e : ba_raised b = None → (t, SlotDone (Raise e)) ∉ ba_slots b
}.

Lemma in_flight_split v before s after r :
  in_flight (mkBatch v (before ++ s :: after) r)
  = (in_flight (mkBatch v (before ++ after) r) + Z.b2z (is_in_flight s.2))%Z.
Proof.
  unfold in_flight. cbn [ba_slots]. rewrite !filter_app, filter_cons, !length_app.
  destruct (is_in_flight s.2); case_decide; cbn [length Z.b2z]; done || lia.
Qed.
Lemma in_flight_value v v' l r r' : in_flight (mkBatch v l r) = in_flight (mkBatch v' l r').
Proof. done. Qed.

Lemma batch_step_ok tasks n b b' :
  batch_step b b' → batch_ok tasks n b → batch_ok tasks n b' ∧ batch_rank b = S (batch_rank b').
Proof.
  intros Hs [Hv H0 Ht Hr Hx Hq]. destruct Hs as [v before t after raised Hb Hlt|v before t after raised o Ho].
  - split; [split; cbn [ba_value ba_slots ba_raised] in *; [|lia|by rewrite <-Ht, !fmap_app| |done|]|].
    + rewrite in_flight_split in *. cbn in *. rewrite (in_flight_value _ v _ _ raised). lia.
    + intros t' o Hin. apply Hr. rewrite elem_of_app, elem_of_cons in *. naive_solver.
    + intros t' e E Hin. apply (Hq t' e E). rewrite elem_of_app, elem_of_cons in *. naive_solver.
    + unfold batch_rank. cbn. rewrite !sum_list_with_app. cbn. lia.
  - split; [split; cbn [ba_value ba_slots ba_raised] in *; [| |by rewrite <-Ht, !fmap_app| | |]|].
    + rewrite in_flight_split in *. cbn in *. rewrite (in_flight_value _ v _ _ raised). lia.
    + lia.
    + intros t' o' Hin. rewrite elem_of_app, elem_of_cons in Hin. destruct Hin as [Hin|[[= -> ->]|Hin]]; [|done|];
        apply Hr; rewrite elem_of_app, elem_of_cons; auto.
    + intros e E. unfold first_raised in E. destruct raised as [e'|]; [by apply Hx|].
      destruct o as [|e0]; [done|]. injection E as ->. exists t. split; [|done].
      rewrite <-Ht, fmap_app, elem_of_app. right. by left.
    + intros t' e E Hin. unfold first_raised in E. destruct raised as [|]; [done|].
      rewrite elem_of_app, elem_of_cons in Hin. destruct Hin as [Hin|[[= -> <-]|Hin]]; [|done|];
        apply (Hq t' e eq_refl); rewrite elem_of_app, elem_of_cons; auto.
    + unfold batch_rank. cbn. rewrite !sum_list_with_app. cbn. lia.
Qed.

Lemma batch_start_ok tasks max_concurrency max_workers b :
  execute_batch tasks max_concurrency max_workers = Ok b →
  batch_ok tasks (default max_workers max_concurrency) b ∧ batch_rank b = 2 * length tasks.
Proof.
  unfold execute_batch. set (n := default max_workers max_concurrency). destruct (Z.ltb_spec n 0) as [?|Hn]; [done|].
  intros [= <-]. split; [split; cbn|].
  - unfold in_flight. cbn. rewrite (proj2 (list_filter_empty _ _)); [cbn; lia|]. by intros ts (t & -> & _)%list_elem_of_fmap.
  - done.
  - rewrite <-list_fmap_compose. apply list_fmap_id.
  - by intros t o (t' & [=] & _)%list_elem_of_fmap.
  - done.
  - intros t e _ (t' & [=] & _)%list_elem_of_fmap.
  - unfold batch_rank. cbn. induction tasks as [|t l IH]; [done|]. cbn in *. rewrite IH. lia.
Qed.

Lemma first_waiting (l : list (ExecuteTask * BatchSlot)) t : (t, SlotWaiting) ∈ l →
  ∃ before t' after, l = before ++ (t', SlotWaiting) :: after ∧ Forall (λ s, s.2 ≠ SlotWaiting) before.
Proof.
  induction l as [|[t0 s] l IH]; [by intros ?%elem_of_nil|]. intros Hin.
  destruct s as [| |o]; [by exists [], t0, l|..]; apply elem_of_cons in Hin as [[=]|Hin];
    destruct (IH Hin) as (before & t' & after & -> & Hb); eexists (_ :: before), t', after; (split; [done|by constructor]).
Qed.

(** Some coroutine can go on, or the batch has its results. *)
Lemma batch_progress tasks n b :
  (∀ t, t ∈ tasks → ∃ o, runs t o) → batch_ok tasks n b → n ≠ 0%Z →
  (∃ b', batch_step b b') ∨ is_Some (gathered b).
Proof.
  intros Hruns [Hv H0 Ht _ _ Hq] Hn. destruct b as [v slots raised]. cbn in *.
  destruct (decide (Exists (λ ts, is_in_flight ts.2 = true) slots)) as [([t s] & Hin & Hs)%Exists_exists|Hno].
  { destruct s; try discriminate Hs. left. destruct (Hruns t) as [o Ho].
    { rewrite <-Ht. by apply (list_elem_of_fmap_2 fst _ (t, SlotRunning)). }
    apply list_elem_of_split in Hin as (l1 & l2 & ->). eexists. by apply B_leave. }
  assert (in_flight (mkBatch v slots raised) = 0%Z) as Hz.
  { unfold in_flight. cbn. rewrite (proj2 (list_filter_empty _ _)); [done|]. intros ts Hin Hf. apply Hno.
    apply Exists_exists. eauto. }
  destruct raised as [e|]; [right; by eexists|].
  destruct (mapM (λ ts, done_result ts.2) slots) as [rs|] eqn:E; [right; unfold gathered; cbn; rewrite E; by eexists|].
  left. apply mapM_None in E. apply Exists_exists in E as ([t s] & Hin & Hs).
  destruct s as [| |[r|e]]; cbn in Hs; [| |done|by destruct (Hq t e eq_refl)].
  - destruct (first_waiting _ _ Hin) as (before & t' & after & -> & Hb). eexists. apply B_enter; [done|lia].
  - destruct Hno. apply Exists_exists. by exists (t, SlotRunning).
Qed.

(** C32. A batch. It never has more scripts under way than the concurrency asked for, or else the
    number of workers. When it returns, it returns for each task, in the order of the tasks, a
    result of executing that very task; when it raises, it raises what one of them raised. It
    takes at most two steps per task, and unless the concurrency is zero it has a step to take until it returns
    or raises; with a concurrency of zero it never starts one, nor returns. *)
Theorem batch_contract tasks max_concurrency max_workers b0 b k
    (n := default max_workers max_concurrency) (Hruns : ∀ t, t ∈ tasks → ∃ o, runs t o) :
  execute_batch tasks max_concurrency max_workers = Ok b0 → nsteps batch_step k b0 b →
  (in_flight b ≤ n)%Z ∧ k ≤ 2 * length tasks
  ∧ (∀ rs, gathered b = Some (Ok rs) → Forall2 (λ t r, runs t (Ok r)) tasks rs)
  ∧ (∀ e, gathered b = Some (Raise e) → ∃ t, t ∈ tasks ∧ runs t (Raise e))
  ∧ (n ≠ 0%Z → (∃ b', batch_step b b') ∨ is_Some (gathered b))
  ∧ (n = 0%Z → b = b0 ∧ (tasks ≠ [] → gathered b = None)).
Proof.
  intros H0 Hk. destruct (batch_start_ok _ _ _ _ H0) as [Hok0 Hr0]. fold n in Hok0.
  assert (batch_ok tasks n b ∧ batch_rank b0 = k + batch_rank b) as [Hok Hr].
  { clear H0 Hr0. induction Hk as [|k x y z Hs _ IH]; [done|].
    destruct (batch_step_ok _ _ _ _ Hs Hok0) as [Hoky Hry]. destruct (IH Hoky). split; [done|lia]. }
  split_and!.
  - pose proof (bo_value _ _ _ Hok). pose proof (bo_nonneg _ _ _ Hok). lia.
  - lia.
  - intros rs Hg. unfold gathered in Hg. destruct (ba_raised b); [done|].
    destruct (mapM _ (ba_slots b)) as [rs'|] eqn:E; [|done]. injection Hg as ->. apply mapM_Some in E.
    rewrite <-(bo_tasks _ _ _ Hok). apply Forall2_fmap_l. pose proof (bo_runs _ _ _ Hok) as Hd. clear -E Hd.
    induction E as [|[t s] r slots rs Hs _ IH]; constructor.
    + destruct s as [| |[r'|]]; try done. injection Hs as ->. apply Hd. by left.
    + apply IH. intros t' o Hin. apply Hd. by right.
  - intros e Hg. unfold gathered in Hg. destruct (ba_raised b) as [e'|] eqn:E; [|by destruct (mapM _ _)].
    injection Hg as ->. by apply (bo_raised _ _ _ Hok).
  - by apply (batch_progress tasks).
  - intros En. assert (b = b0) as ->.
    { destruct Hk as [|k x y z Hs _]; [done|]. exfalso. pose proof (bo_value _ _ _ Hok0) as Hv.
      pose proof (bo_nonneg _ _ _ Hok0) as Hv0. unfold execute_batch in H0. fold n in H0. rewrite En in H0. injection H0 as <-.
      inversion Hs as [? ? ? ? ? _ Hlt|? ? ? ? ? ? _ El].
      - cbn in *. unfold in_flight in Hv. lia.
      - assert ((t, SlotRunning) ∈ ((λ t, (t, SlotWaiting)) <$> tasks)) as (? & [=] & _)%list_elem_of_fmap.
        match goal with H : _ ++ _ :: _ = _ <$> _ |- _ => rewrite <-H end. apply elem_of_app. right. by left. }
    split; [done|]. intros Hne. unfold execute_batch in H0. fold n in H0. rewrite En in H0. injection H0 as <-.
    unfold gathered. cbn. by destruct tasks.
Qed.
End batch.

(** ** Examples *)

(** Steps by name. *)
Inductive action : Type :=
  | AExecute (c : Call) | ACall (i : nat) | ATimeout (i : nat) | AStart (j : nat) | AEnd (j : nat) (e : ScriptEnd)
  | ACancel (step_id : string).
Definition act (x : ProcessExecutor) (a : action) : ProcessExecutor :=
  match a with
  | AExecute c => execute true c x
  | ACall i =>
      match px_calls x !! i with
      | Some (c, p) => match call_step i c p x with Some (p', x') => set_call_phase i c p' x' | None => x end
      | None => x
      end
  | ATimeout i =>
      match px_calls x !! i with
      | Some (c, Waiting j) =>
          match jb_state <$> px_jobs x !! j with
          | Some (Queued | Busy) => set_call_phase i c (Settling (settle c WaitTimedOut)) x
          | _ => x
          end
      | _ => x
      end
  | AStart j => if job_is_queued j x && (busy_workers x <? px_max_workers x)%Z then set_job_state j Busy x else x
  | AEnd j e =>
      match jb_state <$> px_jobs x !! j with
      | Some Busy => if ends_job e x then set_job_state j (Ended e) x else x
      | _ => x
      end
  | ACancel step_id => (cancel step_id x).2
  end.
Definition acts (l : list action) (x : ProcessExecutor) : ProcessExecutor := fold_left act l x.
Lemma act_step x a : rtc executor_step x (act x a).
Proof.
  destruct a as [c|i|i|j|j e|step_id]; cbn.
  - apply rtc_once. constructor.
  - destruct (px_calls x !! i) as [[c p]|] eqn:Hi; [|done]. destruct (call_step i c p x) as [[p' x']|] eqn:Es; [|done].
    apply rtc_once. by apply (X_call i c p).
  - destruct (px_calls x !! i) as [[c []]|] eqn:Hi; try done. destruct (jb_state <$> _) as [[]|] eqn:Ej; try done.
    all: apply rtc_once; eapply X_timeout; eauto.
  - unfold job_is_queued. destruct (jb_state <$> _) as [[]|] eqn:Ej; try done. cbn.
    destruct (Z.ltb_spec (busy_workers x) (px_max_workers x)); [|done]. apply rtc_once. by apply X_start.
  - destruct (jb_state <$> _) as [[]|] eqn:Ej; try done. destruct (ends_job e x) eqn:Ee; [|done].
    apply rtc_once. by apply X_end.
  - apply rtc_once. constructor.
Qed.
Lemma acts_steps l x : rtc executor_step x (acts l x).
Proof. revert x. induction l as [|a l IH]; intros x; [done|]. etrans; [apply act_step|apply IH]. Qed.

Definition measure_call : Call := mkCall "measure.py" "measure" "task_1" "60.0" (Some "run").
Definition one_worker : ProcessExecutor := new_executor 1 false.
(** The call waits for its job, and goes to its end. *)
Definition until_waiting : list action := AExecute measure_call :: replicate 4 (ACall 0).
Definition to_the_end : list action := replicate 4 (ACall 0).
Definition passed_script : ScriptEnd := Completed [("result", Plain (PyMap [(PyStr "status", PyStr "PASSED")]))].
Definition run_of (l : list action) : ProcessExecutor := acts (until_waiting ++ l ++ to_the_end) one_worker.

Definition passed_run : ProcessExecutor := run_of [AStart 0; AEnd 0 passed_script].
Definition passed_result : DataResult := mkResult (Member PASSED) (PyMap []) PyNone.
Lemma executor_accounting_witness :
  px_active passed_run = counted_calls (px_calls passed_run) ∧
  (∀ t v, px_running passed_run !! t = Some v →
    ∃ i c p, px_calls passed_run !! i = Some (c, p) ∧ ca_task_id c = t ∧ call_result c p = None) ∧
  ((∀ i c p, px_calls passed_run !! i = Some (c, p) → is_Some (call_result c p)) →
   px_active passed_run = 0%Z ∧ ∀ t, px_running passed_run !! t = None).
Proof. apply (executor_accounting 1 false). apply acts_steps. Defined.
(** The call's script passed: RUNNING and PASSED are published. *)
Lemma execute_contract_witness :
  events_of 0 passed_run = [RUNNING; PASSED]
  ∧ ∃ j e, px_jobs passed_run !! j = Some (mkJob 0 (Ended e)) ∧ reports measure_call e (Ok passed_result).
Proof.
  destruct (execute_contract 1 false passed_run 0 measure_call (Finished (Ok passed_result)) (Ok passed_result))
    as [(H & _)|[Hev [H|(m & H & _)]]]; [apply acts_steps|by vm_compute|done|discriminate H| |discriminate H].
  split; [exact Hev|exact H].
Defined.
Definition hung_run : ProcessExecutor := acts (until_waiting ++ [AStart 0]) one_worker.
Lemma calls_can_end_witness :
  ∃ n x' p' o, n ≤ 8 ∧ nsteps (own_step 0) n hung_run x' ∧ px_calls x' !! 0 = Some (measure_call, p')
    ∧ call_result measure_call p' = Some o.
Proof. apply (calls_can_end 1 false hung_run 0 measure_call (Waiting 0)); [apply acts_steps|by vm_compute]. Defined.
(** Three tasks, two at a time; each answers with its own script. *)
Definition batch_task (n : string) : ExecuteTask := mkExecuteTask (n +:+ ".py") ∅ (Some n) (PyInt 60) None.
Definition own_script (t : ExecuteTask) : DataResult := mkResult (Member PASSED) (PyMap []) (PyStr (et_script_path t)).
Definition three_tasks : list ExecuteTask := [batch_task "a"; batch_task "b"; batch_task "c"].
Definition answers_own (t : ExecuteTask) (o : res DataResult) : Prop := o = Ok (own_script t).
Definition batch_at (v : Z) (sa sb sc : BatchSlot) : Batch :=
  mkBatch v [(batch_task "a", sa); (batch_task "b", sb); (batch_task "c", sc)] None.
Definition batch_done (n : string) : BatchSlot := SlotDone (Ok (own_script (batch_task n))).
(** "b" ends first. *)
Lemma batch_run :
  nsteps (batch_step answers_own) 6 (batch_at 2 SlotWaiting SlotWaiting SlotWaiting)
    (batch_at 2 (batch_done "a") (batch_done "b") (batch_done "c")).
Proof.
  apply (nsteps_l _ _ _ (batch_at 1 SlotRunning SlotWaiting SlotWaiting)); [by apply (B_enter _ 2 []); [constructor|]|].
  apply (nsteps_l _ _ _ (batch_at 0 SlotRunning SlotRunning SlotWaiting)); [by apply (B_enter _ 1 [_]); [repeat constructor|]|].
  apply (nsteps_l _ _ _ (batch_at 1 SlotRunning (batch_done "b") SlotWaiting)); [by apply (B_leave _ 0 [_])|].
  apply (nsteps_l _ _ _ (batch_at 0 SlotRunning (batch_done "b") SlotRunning)); [by apply (B_enter _ 1 [_; _]); [repeat constructor|]|].
  apply (nsteps_l _ _ _ (batch_at 1 (batch_done "a") (batch_done "b") SlotRunning)); [by apply (B_leave _ 0 [])|].
  apply (nsteps_l _ _ _ (batch_at 2 (batch_done "a") (batch_done "b") (batch_done "c"))); [by apply (B_leave _ 1 [_; _])|].
  constructor.
Qed.
Lemma batch_contract_witness :
  ∃ rs, gathered (batch_at 2 (batch_done "a") (batch_done "b") (batch_done "c")) = Some (Ok rs)
    ∧ Forall2 (λ t r, r = own_script t) three_tasks rs.
Proof.
  destruct (batch_contract answers_own three_tasks (Some 2%Z) 4 (batch_at 2 SlotWaiting SlotWaiting SlotWaiting)
    (batch_at 2 (batch_done "a") (batch_done "b") (batch_done "c")) 6) as (_ & _ & Hok & _).
  - intros t _. by eexists.
  - reflexivity.
  - exact batch_run.
  - eexists. split; [reflexivity|]. eapply Forall2_impl; [apply Hok; reflexivity|]. intros t r H. injection H as ->. done.
Defined.

(** A step that is cancelled while its script runs publishes what the script answered after the
    SKIPPED of [cancel]; one that is cancelled before its script starts publishes ERROR after it. *)
Example cancelled_step_goes_on :
  ((λ e, (se_step_id e, se_status e)) <$> px_events (run_of [AStart 0; ACancel "measure"; AEnd 0 passed_script]),
   (λ e, (se_step_id e, se_status e)) <$> px_events (run_of [ACancel "measure"])) =
  ([("measure", RUNNING); ("measure", SKIPPED); ("measure", PASSED)],
   [("measure", RUNNING); ("measure", SKIPPED); ("measure", ERROR)]).
Proof. by vm_compute. Qed.

(** [sys.exit] in a script goes through [execute], and its step is never reported as ended. *)
Example exit_escapes :
  let x := run_of [AStart 0; AEnd 0 (Left (CustomError "SystemExit" "0"))] in
  (call_result measure_call <$> (snd <$> px_calls x !! 0), events_of 0 x) =
  (Some (Some (Raise (CustomError "SystemExit" "0"))), [RUNNING]).
Proof. by vm_compute. Qed.

(** A script may say that it is still running, or be given a status nobody knows. *)
Example script_decides_status :
  let answer s := settle measure_call (GotOutcome (run_script (Completed [("result", Plain (PyMap [(PyStr "status", PyStr s)]))]))) in
  ((λ r, member_of r) <$> answer "RUNNING", (λ r, member_of r) <$> answer "passed") = (Ok (Some RUNNING), Ok (Some ERROR)).
Proof. by vm_compute. Qed.

(** After a time-out the script keeps its worker while the pool is reported idle; the next call
    can only time out. *)
Definition second_call : Call := mkCall "measure.py" "again" "task_2" "60.0" (Some "run").
Example hung_script_keeps_worker :
  let x := run_of [AStart 0; ATimeout 0] in
  let x' := acts [AExecute second_call; ACall 1; ACall 1; ACall 1; ACall 1; AStart 1] x in
  (get_pool_utilization x, busy_workers x, jb_state <$> px_jobs x' !! 1) = ((0, 1)%Z, 1%Z, Some Queued).
Proof. by vm_compute. Qed.

(** The two executors judge one script differently. *)
Example executors_disagree :
  let script := Completed [("result", Plain (PyMap [(PyStr "status", PyStr "FAILED")]))] in
  (member_of <$> settle measure_call (GotOutcome (run_script script)), member_of <$> run_script_in_pool "measure.py" true script) =
  (Ok (Some FAILED), Ok (Some PASSED)).
Proof. by vm_compute. Qed.
