(* ===== verification/CapacityGuard.v ===== *)
(** * Capacity guard (src/src/ate_platform/offline/capacity_guard.py)

    Watches the size of the cache directory and the age of its oldest file, reports each
    crossing of a threshold once, and pauses downloads while a hard threshold is exceeded.
    Sizes are bytes, ages and times integer ticks; [fmt0] is Python's ".0f" format. A
    listener that raises is ignored, so listeners are the list of calls made. *)

From S2P Require Import Prelude PyDict PyStr.

Inductive Signal : Type := SignalSize | SignalAge.
Inductive Level : Type := Soft | Hard.
#[export] Instance Signal_eq_dec : EqDecision Signal.
Proof. solve_decision. Defined.
#[export] Instance Level_eq_dec : EqDecision Level.
Proof. solve_decision. Defined.

Record CapacityAlert : Type := mkAlert {
  ca_kind : Signal;
  ca_level : Level;
  ca_value : Z;
  ca_threshold : Z;
  ca_message : string
}.

Record CapacityStatus : Type := mkCapStatus {
  cs_size_bytes : Z;
  cs_file_count : Z;
  cs_oldest_age_seconds : option Z;
  cs_soft_exceeded : bool;
  cs_hard_exceeded : bool;
  cs_downloads_paused : bool;
  cs_alerts : list CapacityAlert
}.

(** A file below the directory: its suffix in lower case, size and mtime. *)
Record FileInfo : Type := mkFile { fi_suffix : string; fi_size : Z; fi_mtime : Z }.
(** [None]: the directory does not exist. *)
Definition Directory : Type := option (list FileInfo).

Definition DEFAULT_SOFT_SIZE_BYTES : Z := 500 * 1024 * 1024.
Definition DEFAULT_SOFT_AGE_SECONDS : Z := 72 * 3600 * 1000.
Definition DEFAULT_TEMP_SUFFIXES : list string := [".tmp"; ".temp"; ".part"].

Definition counted_files (temp_suffixes : list string) (dir : Directory) : list FileInfo :=
  base.filter (λ f, fi_suffix f ∉ temp_suffixes) (default [] dir).

(** [_default_age_source]: the oldest modification time. *)
Definition oldest_mtime (temp_suffixes : list string) (dir : Directory) : option Z :=
  foldl (λ oldest f,
    match oldest with
    | Some t => if (fi_mtime f <? t)%Z then Some (fi_mtime f) else oldest
    | None => Some (fi_mtime f)
    end) None (counted_files temp_suffixes dir).

Section guard.
Context (fmt0 : Z → string) {L : Type}.

Record CapacityGuard : Type := mkGuard {
  cg_soft_size : Z;
  cg_soft_age : Z;
  cg_hard_size : Z;
  cg_hard_age : Z;
  cg_temp_suffixes : list string;
  cg_age_source : Directory → option Z;
  cg_latched : list (Signal * Level);
  cg_listeners : list L;
  cg_notified : list (L * CapacityAlert);
  cg_prev_paused : bool
}.

(** [__init__] *)
Definition new_guard (soft_size soft_age : Z) (hard_size hard_age : option Z)
    (temp_suffixes : list string) (age_source : option (Directory → option Z)) : res CapacityGuard :=
  let hs := default soft_size hard_size in
  let ha := default soft_age hard_age in
  if (soft_size <? 0)%Z then Raise (ValueError "soft_size_bytes must be >= 0")
  else if (soft_age <? 0)%Z then Raise (ValueError "soft_age_seconds must be >= 0")
  else if (hs <? soft_size)%Z then
    Raise (ValueError ("hard_size_bytes (" +:+ pretty hs +:+ ") must be >= soft_size_bytes ("
      +:+ pretty soft_size +:+ "): pause must never precede its own alert"))
  else if (ha <? soft_age)%Z then
    Raise (ValueError ("hard_age_seconds (" +:+ pretty ha +:+ ") must be >= soft_age_seconds ("
      +:+ pretty soft_age +:+ "): pause must never precede its own alert"))
  else
    let suffixes := py_lower <$> temp_suffixes in
    Ok (mkGuard soft_size soft_age hs ha suffixes
          (default (oldest_mtime suffixes) age_source) [] [] [] false).

(** [size > limit or (age is not None and age > age_limit)] *)
Definition exceeds (size : Z) (age : option Z) (size_limit age_limit : Z) : bool :=
  (size_limit <? size)%Z || match age with Some a => (age_limit <? a)%Z | None => false end.

(** [measure] *)
Definition measure (g : CapacityGuard) (dir : Directory) (now : Z) : CapacityStatus :=
  let files := counted_files (cg_temp_suffixes g) dir in
  let size := foldr Z.add 0%Z (fi_size <$> files) in
  let age := (λ t, Z.max 0 (now - t)) <$> cg_age_source g dir in
  let hard := exceeds size age (cg_hard_size g) (cg_hard_age g) in
  mkCapStatus size (Z.of_nat (length files)) age (exceeds size age (cg_soft_size g) (cg_soft_age g))
    hard hard [].

(** The four checks. *)
Definition checks (g : CapacityGuard) (s : CapacityStatus) : list (Signal * Level * option Z * Z) :=
  [(SignalSize, Soft, Some (cs_size_bytes s), cg_soft_size g);
   (SignalSize, Hard, Some (cs_size_bytes s), cg_hard_size g);
   (SignalAge, Soft, cs_oldest_age_seconds s, cg_soft_age g);
   (SignalAge, Hard, cs_oldest_age_seconds s, cg_hard_age g)].

Definition alert_for (kind : Signal) (level : Level) (value threshold : Z) : CapacityAlert :=
  mkAlert kind level value threshold
    ("offline cache " +:+ match kind with SignalSize => "size" | SignalAge => "age" end +:+ " "
     +:+ fmt0 value +:+ " " +:+ match kind with SignalSize => "bytes" | SignalAge => "seconds" end
     +:+ " exceeds " +:+ match level with Soft => "soft" | Hard => "hard" end
     +:+ " threshold " +:+ fmt0 threshold +:+ " (doc §10.5.4.5)").

Definition breached (value : option Z) (threshold : Z) : bool :=
  match value with Some v => (threshold <? v)%Z | None => false end.

(** One check: the latch and the alerts fired so far. *)
Definition run_check (c : Signal * Level * option Z * Z) (st : list (Signal * Level) * list CapacityAlert) :
    list (Signal * Level) * list CapacityAlert :=
  let '(kind, level, value, threshold) := c in
  let '(latched, fired) := st in
  let key := (kind, level) in
  match value with
  | None => (base.filter (.≠ key) latched, fired)
  | Some v =>
      if (threshold <? v)%Z && negb (bool_decide (key ∈ latched))
      then (latched ++ [key], fired ++ [alert_for kind level v threshold])
      else if negb (threshold <? v)%Z && bool_decide (key ∈ latched)
      then (base.filter (.≠ key) latched, fired)
      else (latched, fired)
  end.

(** [check] *)
Definition guard_check (g : CapacityGuard) (dir : Directory) (now : Z) : CapacityStatus * CapacityGuard :=
  let s := measure g dir now in
  let '(latched, fired) := foldl (λ st c, run_check c st) (cg_latched g, []) (checks g s) in
  let notified := a ← fired; (λ cb, (cb, a)) <$> cg_listeners g in
  (mkCapStatus (cs_size_bytes s) (cs_file_count s) (cs_oldest_age_seconds s) (cs_soft_exceeded s)
     (cs_hard_exceeded s) (cs_downloads_paused s) fired,
   mkGuard (cg_soft_size g) (cg_soft_age g) (cg_hard_size g) (cg_hard_age g) (cg_temp_suffixes g)
     (cg_age_source g) latched (cg_listeners g) (cg_notified g ++ notified) (cs_downloads_paused s)).

(** [add_listener], [can_download] *)
Definition add_capacity_listener (cb : L) (g : CapacityGuard) : CapacityGuard :=
  mkGuard (cg_soft_size g) (cg_soft_age g) (cg_hard_size g) (cg_hard_age g) (cg_temp_suffixes g)
    (cg_age_source g) (cg_latched g) (cg_listeners g ++ [cb]) (cg_notified g) (cg_prev_paused g).
Definition can_download (g : CapacityGuard) (dir : Directory) (now : Z) : bool * CapacityGuard :=
  let '(s, g') := guard_check g dir now in (negb (cs_downloads_paused s), g').

(** ** Edges *)

Definition over (g : CapacityGuard) (dir : Directory) (now : Z) (k : Signal * Level) : bool :=
  let s := measure g dir now in
  match k with
  | (SignalSize, Soft) => breached (Some (cs_size_bytes s)) (cg_soft_size g)
  | (SignalSize, Hard) => breached (Some (cs_size_bytes s)) (cg_hard_size g)
  | (SignalAge, Soft) => breached (cs_oldest_age_seconds s) (cg_soft_age g)
  | (SignalAge, Hard) => breached (cs_oldest_age_seconds s) (cg_hard_age g)
  end.

Definition alert_key (a : CapacityAlert) : Signal * Level := (ca_kind a, ca_level a).

Lemma run_check_spec kind level value threshold latched fired :
  let r := run_check (kind, level, value, threshold) (latched, fired) in
  (∀ k, k ∈ r.1 ↔ if decide (k = (kind, level)) then breached value threshold = true else k ∈ latched)
  ∧ alert_key <$> r.2 = (alert_key <$> fired) ++
      (if breached value threshold && negb (bool_decide ((kind, level) ∈ latched)) then [(kind, level)] else []).
Proof.
  cbn zeta. unfold run_check, breached. destruct value as [v|]; cbn [fst snd andb].
  2: { split; [|by rewrite app_nil_r]. intros k. rewrite list_elem_of_filter.
       case_decide; [|naive_solver]. split; [naive_solver|done]. }
  destruct (threshold <? v)%Z; cbn [andb negb]; case_bool_decide as Hin; cbn [negb fst snd].
  - split; [|by rewrite app_nil_r]. intros k. case_decide; subst; naive_solver.
  - split; [|by rewrite fmap_app]. intros k. rewrite elem_of_app, list_elem_of_singleton.
    case_decide; subst; naive_solver.
  - split; [|by rewrite app_nil_r]. intros k. rewrite list_elem_of_filter. case_decide; naive_solver.
  - split; [|by rewrite app_nil_r]. intros k. case_decide; subst; naive_solver.
Qed.

(** A list of checks with distinct keys decides each key on its own. *)
Definition check_key (c : Signal * Level * option Z * Z) : Signal * Level := c.1.1.
Definition check_over (c : Signal * Level * option Z * Z) : bool := breached c.1.2 c.2.

Lemma run_checks_spec cs latched fired :
  NoDup (check_key <$> cs) →
  let r := foldl (λ st c, run_check c st) (latched, fired) cs in
  (∀ k, k ∈ r.1 ↔ (∃ c, c ∈ cs ∧ check_key c = k ∧ check_over c = true)
                  ∨ k ∈ latched ∧ k ∉ check_key <$> cs)
  ∧ alert_key <$> r.2 = (alert_key <$> fired) ++
      (check_key <$> base.filter (λ c, check_over c ∧ check_key c ∉ latched) cs).
Proof.
  revert latched fired. induction cs as [|c cs IH]; intros latched fired Hnd; cbn zeta.
  { split; [|by rewrite app_nil_r]. intros k. cbn. split; [intros; right; split; [done|apply not_elem_of_nil]|].
    intros [(c & Hc & _)|[? _]]; [by apply elem_of_nil in Hc|done]. }
  rewrite fmap_cons in Hnd |- *. apply NoDup_cons in Hnd as [Hc Hnd]. cbn [foldl].
  assert (Hspec := run_check_spec c.1.1.1 c.1.1.2 c.1.2 c.2 latched fired).
  destruct c as [[[kind level] value] threshold]. cbn [fst snd] in Hspec.
  change (check_key (kind, level, value, threshold)) with (kind, level) in *.
  destruct Hspec as [Hl Hf]. destruct (run_check _ _) as [latched1 fired1]. cbn [fst snd] in Hl, Hf.
  destruct (IH latched1 fired1 Hnd) as [Hk Ha]. clear IH. split.
  - intros k. rewrite Hk, Hl. setoid_rewrite elem_of_cons. split.
    + intros [(c & Hin & <- & Ho)|[Hin Hn]]; [left; eauto|]. destruct (decide (k = (kind, level))) as [->|E].
      * left. by eexists; split; [left|].
      * right. split; [done|]. by intros [?|?].
    + intros [(c & [->|Hin] & <- & Ho)|[Hin Hn]].
      * right. change (check_key _) with (kind, level). by rewrite decide_True.
      * left. eauto.
      * right. rewrite decide_False by (intros ->; apply Hn; by left).
        split; [done|]. intros ?. apply Hn. by right.
  - rewrite Ha, Hf, <- (assoc (++)). f_equal. rewrite filter_cons.
    assert (base.filter (λ c, check_over c ∧ check_key c ∉ latched1) cs
      = base.filter (λ c, check_over c ∧ check_key c ∉ latched) cs) as ->.
    { apply list_filter_iff_strong. intros c Hin. rewrite Hl, decide_False; [done|].
      intros E. apply Hc. rewrite <- E. by apply list_elem_of_fmap_2. }
    change (check_key (kind, level, value, threshold)) with (kind, level).
    change (check_over (kind, level, value, threshold)) with (breached value threshold).
    destruct (breached value threshold); cbn [andb].
    + case_bool_decide as Hin; cbn [negb].
      * rewrite decide_False; [done|naive_solver].
      * rewrite decide_True; [done|by split].
    + rewrite decide_False; [done|naive_solver].
Qed.

(** The keys a guard watches, in the order of the checks. *)
Definition capacity_keys : list (Signal * Level) :=
  [(SignalSize, Soft); (SignalSize, Hard); (SignalAge, Soft); (SignalAge, Hard)].

Lemma checks_keys g s : check_key <$> checks g s = capacity_keys.
Proof. done. Qed.

Lemma checks_over g dir now c :
  c ∈ checks g (measure g dir now) → check_over c = over g dir now (check_key c).
Proof.
  unfold checks. rewrite !elem_of_cons. intros [->|[->|[->|[->|[]%elem_of_nil]]]]; done.
Qed.

(** Each threshold is edge-triggered: a check reports exactly the thresholds exceeded now and not
    latched before, in the order size/age by soft/hard, every listener is called once for each of them,
    and the latch afterwards is exactly the set of thresholds exceeded now, so a value that falls back
    re-arms its alert. Downloads are paused exactly while a hard threshold is exceeded, whatever
    the history, and a hard crossing is always also a soft one. *)
Theorem capacity_edge_triggered g dir now :
  (cg_soft_size g ≤ cg_hard_size g)%Z → (cg_soft_age g ≤ cg_hard_age g)%Z →
  (∀ k, k ∈ cg_latched g → k ∈ capacity_keys) →
  let '(s, g') := guard_check g dir now in
  (∀ k, k ∈ cg_latched g' ↔ k ∈ capacity_keys ∧ over g dir now k = true)
  ∧ alert_key <$> cs_alerts s = base.filter (λ k, over g dir now k ∧ k ∉ cg_latched g) capacity_keys
  ∧ cg_notified g' = cg_notified g ++ (a ← cs_alerts s; (λ cb, (cb, a)) <$> cg_listeners g)
  ∧ (cs_downloads_paused s = true ↔
      over g dir now (SignalSize, Hard) = true ∨ over g dir now (SignalAge, Hard) = true)
  ∧ (cs_downloads_paused s = true → cs_soft_exceeded s = true)
  ∧ (can_download g dir now).1 = negb (cs_downloads_paused s).
Proof.
  intros Hsize Hage Hkeys. unfold can_download, guard_check.
  assert (Hrun := run_checks_spec (checks g (measure g dir now)) (cg_latched g) []).
  rewrite checks_keys in Hrun. cbn zeta in Hrun |- *.
  destruct (foldl _ _ _) as [latched fired]. cbn [fst snd] in *.
  destruct Hrun as [Hl Hf]; [apply (bool_decide_unpack _); by vm_compute|].
  cbn [cg_latched cs_alerts cg_notified cs_downloads_paused cs_soft_exceeded cs_size_bytes].
  split_and!; [| |done| | |done].
  - intros k. rewrite Hl. split.
    + intros [(c & Hc & <- & Ho)|[Hin Hn]]; [|by destruct (Hn (Hkeys _ Hin))].
      rewrite <- (checks_keys g (measure g dir now)). split; [by apply list_elem_of_fmap_2|].
      by rewrite <- (checks_over g dir now c Hc).
    + intros [Hk Ho]. left. rewrite <- (checks_keys g (measure g dir now)) in Hk.
      apply list_elem_of_fmap in Hk as (c & -> & Hc). exists c.
      by rewrite (checks_over g dir now c Hc).
  - rewrite Hf. cbn [fmap list_fmap app].
    rewrite <- (checks_keys g (measure g dir now)), list_filter_fmap. by f_equal.
  - unfold over, breached, measure, exceeds. cbn. rewrite orb_true_iff. done.
  - unfold measure, exceeds. cbn. rewrite !orb_true_iff, !Z.ltb_lt.
    destruct (cg_age_source g dir) as [t|]; cbn; rewrite ?Z.ltb_lt; lia.
Qed.
End guard.

(** Two files of 4 and 5 bytes against thresholds of 6 and 8. *)
Definition example_guard : CapacityGuard (L := nat) :=
  match new_guard 6 100 (Some 8%Z) None [".tmp"] None with
  | Ok g => add_capacity_listener 1 g
  | Raise _ => mkGuard 0 0 0 0 [] (λ _, None) [] [] [] false
  end.
Definition example_dir : Directory := Some [mkFile ".json" 4 0; mkFile ".bin" 5 10; mkFile ".tmp" 90 0].

(** Size alerts first, the age alerts once the files are old, and downloads again once the
    directory is gone. *)
Example example_alerts :
  let '(s1, g1) := guard_check pretty example_guard example_dir 50 in
  let '(s2, g2) := guard_check pretty g1 example_dir 200 in
  let '(s3, g3) := guard_check pretty g2 None 300 in
  alert_key <$> cs_alerts s1 = [(SignalSize, Soft); (SignalSize, Hard)]
  ∧ alert_key <$> cs_alerts s2 = [(SignalAge, Soft); (SignalAge, Hard)]
  ∧ cs_alerts s3 = [] ∧ cs_downloads_paused s2 = true ∧ cs_downloads_paused s3 = false
  ∧ cg_latched g3 = [].
Proof. vm_compute. split_and!; reflexivity. Qed.

Lemma capacity_edge_triggered_witness :
  alert_key <$> cs_alerts (guard_check pretty example_guard example_dir 50).1
  = base.filter (λ k, over example_guard example_dir 50 k ∧ k ∉ cg_latched example_guard) capacity_keys
  ∧ over example_guard example_dir 50 (SignalSize, Hard) = true.
Proof.
  assert (H := capacity_edge_triggered pretty example_guard example_dir 50 ltac:(done) ltac:(done)
    ltac:(intros k Hk; by apply elem_of_nil in Hk)).
  destruct (guard_check _ _ _ _) as [s g1]. split; [exact (proj1 (proj2 H))|by vm_compute].
Defined.
