(* ===== verification/Reconciliation.v ===== *)
(** * Reconciliation after a reconnect (src/src/ate_platform/offline/reconciliation.py)

    One pass over the upload queue, the cache, the scripts and the version locks. The
    transport is the class [Uploader]: its calls run on an environment of their own and
    may raise. Time passes only during them; [env_now] is what the clocks read. *)

From S2P Require Import Prelude PyDict PyStr Sql UploadQueue CacheStore VersionLock ScriptCache.

Definition RESOLVE_CONFIRMED : string := "confirmed".
Definition RESOLVE_CONFLICT : string := "conflict".

Record VersionResolution : Type := mkResolution {
  vr_outcome : string;
  vr_new_version : option string
}.

Record QuarantinedItem : Type := mkItem {
  qi_reason : string;
  qi_station_id : option string;
  qi_execution_id : option string;
  qi_seq_no : option Z;
  qi_kind : option string;
  qi_entry_id : option string;
  qi_version : option string;
  qi_detail : string
}.

Record ReconcileReport : Type := mkReport {
  rr_started_at : Z;
  rr_finished_at : Z;
  rr_uploaded : Z;
  rr_acked : Z;
  rr_confirmed_entries : Z;
  rr_conflicts_resolved : Z;
  rr_quarantined : Z;
  rr_locks_released : Z;
  rr_ok : bool;
  rr_quarantine : list QuarantinedItem
}.

Definition duration (r : ReconcileReport) : Z := rr_finished_at r - rr_started_at r.

(** [ReconcileUploader] *)
Class Uploader (U : Type) : Type := {
  env_now : U → Z;
  upload_record : UploadRecord → M U bool;
  resolve_version : string → string → string → string → M U VersionResolution;
  report_script : string → string → string → M U bool
}.

(** [_advance]: the fields given replace those of the report. *)
Definition advance (report : ReconcileReport) (finished_at uploaded acked confirmed_entries
    conflicts_resolved quarantined locks_released : option Z) (ok : option bool)
    (quarantine : option (list QuarantinedItem)) : ReconcileReport :=
  mkReport (rr_started_at report) (default (rr_finished_at report) finished_at)
    (default (rr_uploaded report) uploaded) (default (rr_acked report) acked)
    (default (rr_confirmed_entries report) confirmed_entries)
    (default (rr_conflicts_resolved report) conflicts_resolved)
    (default (rr_quarantined report) quarantined) (default (rr_locks_released report) locks_released)
    (default (rr_ok report) ok) (default (rr_quarantine report) quarantine).

(** [isinstance(exc, OfflineCacheError)] *)
Definition is_cache_error (e : exc) : bool :=
  match e with
  | CustomError cls _ => str_in cls ["CacheMissError"; "VersionMismatchError"; "CorruptionError"; "NotAckedError"]
  | _ => false
  end.

Section reconciler.
Context {U : Type} `{!Uploader U} (sha256_checksum : string → string) (sha256 : string → string)
  (json_loads : string → option ScriptMeta).

(** The reconciler, what it is given, and its local variable [report]. The cache is the
    one the lock manager pins. *)
Record Reconciler : Type := mkReconciler {
  rc_queue : UploadQueue;
  rc_manager : LockManager;
  rc_scripts : Disk;
  rc_uploader : U;
  rc_upload_fn : option (UploadRecord → M U bool);
  rc_report : ReconcileReport;
  rc_last_report : option ReconcileReport
}.

Definition set_queue (q : UploadQueue) (w : Reconciler) : Reconciler :=
  mkReconciler q (rc_manager w) (rc_scripts w) (rc_uploader w) (rc_upload_fn w) (rc_report w) (rc_last_report w).
Definition set_manager (m : LockManager) (w : Reconciler) : Reconciler :=
  mkReconciler (rc_queue w) m (rc_scripts w) (rc_uploader w) (rc_upload_fn w) (rc_report w) (rc_last_report w).
Definition set_uploader (u : U) (w : Reconciler) : Reconciler :=
  mkReconciler (rc_queue w) (rc_manager w) (rc_scripts w) u (rc_upload_fn w) (rc_report w) (rc_last_report w).
Definition set_report (r : ReconcileReport) (w : Reconciler) : Reconciler :=
  mkReconciler (rc_queue w) (rc_manager w) (rc_scripts w) (rc_uploader w) (rc_upload_fn w) r (rc_last_report w).
Definition set_last_report (r : ReconcileReport) (w : Reconciler) : Reconciler :=
  mkReconciler (rc_queue w) (rc_manager w) (rc_scripts w) (rc_uploader w) (rc_upload_fn w) (rc_report w) (Some r).

Definition rc_cache (w : Reconciler) : OfflineCacheStore := lm_cache (rc_manager w).
Definition set_rc_cache (c : OfflineCacheStore) (w : Reconciler) : Reconciler :=
  set_manager (set_cache c (rc_manager w)) w.

Definition in_queue {A} : M UploadQueue A → M Reconciler A := zoom rc_queue set_queue.
Definition in_cache {A} : M OfflineCacheStore A → M Reconciler A := zoom rc_cache set_rc_cache.
Definition in_uploader {A} : M U A → M Reconciler A := zoom rc_uploader set_uploader.
Definition now : M Reconciler Z := gets (λ w, env_now (rc_uploader w)).

(** [_call_uploader]: the callback, if one is set, instead of the transport. *)
Definition upload_call (fn : option (UploadRecord → M U bool)) (record : UploadRecord) : M U bool :=
  match fn with Some f => f record | None => upload_record record end.
Definition call_uploader (record : UploadRecord) : M Reconciler bool :=
  w <- get ;;
  in_uploader (upload_call (rc_upload_fn w) record).

Definition quarantined_record (reason : string) (record : UploadRecord) : QuarantinedItem :=
  mkItem reason (Some (ur_station_id record)) (Some (ur_execution_id record)) (Some (ur_seq_no record))
    None None None ("payload preserved at " +:+ ur_payload_path record).

(** One record of phase 1, with the counters [uploaded], [acked], [quarantined] and the list. *)
Definition flush_record (record : UploadRecord) (acc : Z * Z * Z * list QuarantinedItem) :
    M Reconciler (Z * Z * Z * list QuarantinedItem) :=
  let '(uploaded, acked, quarantined, quarantine) := acc in
  reply <- try_except (accepted <- call_uploader record ;; ret (accepted, "upload_rejected"))
             (λ _, Some (ret (false, "upload_transport_error"))) ;;
  let '(accepted, reason) := reply in
  if accepted then
    t <- now ;; in_queue (mark_uploaded (ur_id record) t) ;;;
    t <- now ;; flipped <- in_queue (mark_acked (ur_id record) t) ;;
    ret (uploaded + 1, if (flipped : bool) then acked + 1 else acked, quarantined, quarantine)%Z
  else
    in_queue (record_retry (ur_id record)) ;;;
    ret (uploaded, acked, quarantined + 1, quarantine ++ [quarantined_record reason record])%Z.

(** [_flush_upload_queue] *)
Definition flush_upload_queue (report : ReconcileReport) : M Reconciler ReconcileReport :=
  pending <- gets (λ w, list_pending (rc_queue w)) ;;
  acc <- fold_m flush_record pending
           (rr_uploaded report, rr_acked report, rr_quarantined report, rr_quarantine report) ;;
  let '(uploaded, acked, quarantined, quarantine) := acc in
  ret (advance report None (Some uploaded) (Some acked) None None (Some quarantined) None None
         (Some quarantine)).

(** [_STORE_METHODS] *)
Definition store_method (kind : string) : option (string → string → string → option string → Z →
    M OfflineCacheStore unit) :=
  if decide (kind = KIND_SEQUENCE) then Some (store_sequence sha256_checksum)
  else if decide (kind = KIND_TOPOLOGY) then Some (store_topology sha256_checksum) else None.

(** [_apply_conflict_new_version] *)
Definition apply_conflict_new_version (status : EntryStatus) (new_version : option string) :
    M Reconciler bool :=
  match new_version with
  | None => ret false
  | Some nv =>
      if bool_decide (nv = "") || bool_decide (nv = es_version status) then ret false
      else
        match store_method (es_kind status) with
        | None => ret false
        | Some store_it =>
            try_except
              (c <- gets rc_cache ;;
               payload <- lift (get_usable sha256_checksum (es_kind status) (es_id status)
                                  (Some (es_version status)) false c) ;;
               t <- now ;; in_cache (store_it (es_id status) nv payload None t) ;;;
               t <- now ;; in_cache (mark_acked_entry (es_kind status) (es_id status) nv None t) ;;;
               in_cache (cache_delete (es_kind status) (es_id status) (Some (es_version status))) ;;;
               ret true)
              (λ e, if is_cache_error e then Some (ret false) else None)
        end
  end.

Definition quarantined_entry (status : EntryStatus) : QuarantinedItem :=
  mkItem "version_conflict" None None None (Some (es_kind status)) (Some (es_id status))
    (Some (es_version status)) "server conflict without usable new_version; local row preserved".

(** One entry of phase 2, with [confirmed], [conflicts], [quarantined] and the list. *)
Definition resolve_entry (status : EntryStatus) (acc : Z * Z * Z * list QuarantinedItem) :
    M Reconciler (Z * Z * Z * list QuarantinedItem) :=
  let '(confirmed, conflicts, quarantined, quarantine) := acc in
  if bool_decide (es_state status ≠ StateCached) then ret acc
  else
    answer <- try_except
      (r <- in_uploader (resolve_version (es_kind status) (es_id status) (es_version status)
                           (es_checksum status)) ;; ret (Some r))
      (λ _, Some (ret None)) ;;
    match answer with
    | None => ret acc
    | Some r =>
        if decide (vr_outcome r = RESOLVE_CONFIRMED) then
          t <- now ;;
          in_cache (mark_acked_entry (es_kind status) (es_id status) (es_version status) None t) ;;;
          ret (confirmed + 1, conflicts, quarantined, quarantine)%Z
        else if decide (vr_outcome r = RESOLVE_CONFLICT) then
          resolved <- apply_conflict_new_version status (vr_new_version r) ;;
          if (resolved : bool) then ret (confirmed, conflicts + 1, quarantined, quarantine)%Z
          else ret (confirmed, conflicts, quarantined + 1, quarantine ++ [quarantined_entry status])%Z
        else ret acc
    end.

(** [_resolve_cache_versions] *)
Definition resolve_cache_versions (report : ReconcileReport) : M Reconciler ReconcileReport :=
  c <- gets rc_cache ;;
  statuses <- lift (list_cached None c) ;;
  acc <- fold_m resolve_entry statuses
           (rr_confirmed_entries report, rr_conflicts_resolved report, rr_quarantined report,
            rr_quarantine report) ;;
  let '(confirmed, conflicts, quarantined, quarantine) := acc in
  ret (advance report None None None (Some confirmed) (Some conflicts) (Some quarantined) None None
         (Some quarantine)).

Definition quarantined_script (s : ScriptStatus) : QuarantinedItem :=
  mkItem "script_corrupt" None None None (Some "script") (Some (ss_script_id s)) (Some (ss_version s))
    "read-time SHA256 verification failed; files preserved on disk".

(** One script of phase 3. *)
Definition sweep_script (s : ScriptStatus) (acc : Z * list QuarantinedItem) :
    M Reconciler (Z * list QuarantinedItem) :=
  let '(quarantined, quarantine) := acc in
  if ss_intact s then
    try_except (in_uploader (report_script (ss_script_id s) (ss_version s) (ss_checksum s)) ;;; ret tt)
      (λ _, Some (ret tt)) ;;;
    ret acc
  else ret (quarantined + 1, quarantine ++ [quarantined_script s])%Z.

(** [_sweep_scripts] *)
Definition sweep_scripts (report : ReconcileReport) : M Reconciler ReconcileReport :=
  d <- gets rc_scripts ;;
  scripts <- lift (list_scripts sha256 json_loads None d) ;;
  acc <- fold_m sweep_script scripts (rr_quarantined report, rr_quarantine report) ;;
  let '(quarantined, quarantine) := acc in
  ret (advance report None None None None None (Some quarantined) None None (Some quarantine)).

(** [report = phase(report)] *)
Definition phase (f : ReconcileReport → M Reconciler ReconcileReport) : M Reconciler unit :=
  w <- get ;; r <- f (rc_report w) ;; modify (set_report r).

(** [reconcile] *)
Definition reconcile : M Reconciler ReconcileReport :=
  t <- now ;; t' <- now ;;
  modify (set_report (mkReport t t' 0 0 0 0 0 0 true [])) ;;;
  try_except
    (phase flush_upload_queue ;;;
     phase resolve_cache_versions ;;;
     phase sweep_scripts ;;;
     released <- zoom rc_manager set_manager release_all ;;
     t <- now ;;
     phase (λ report, ret (advance report (Some t) None None None None None (Some released) None None)))
    (λ _, Some (
     t <- now ;;
     phase (λ report, ret (advance report (Some t) None None None None None None (Some false) None)))) ;;;
  w <- get ;;
  modify (set_last_report (rc_report w)) ;;;
  ret (rc_report w).
End reconciler.
Arguments Reconciler : clear implicits.

(** ** Phase 1: every record accounted for *)

Section flush.
Context {U : Type} `{!Uploader U}.
Implicit Types (w : Reconciler U) (fn : option (UploadRecord → M U bool)).

(** What the transport made of one record: accepted or why not, and when. *)
Record Outcome : Type := mkOutcome {
  oc_record : UploadRecord;
  oc_accepted : bool;
  oc_reason : string;
  oc_at : Z
}.

Definition ask fn (record : UploadRecord) (u : U) : Outcome * U :=
  let '(r, u') := upload_call fn record u in
  (match r with
   | Ok b => mkOutcome record b "upload_rejected" (env_now u')
   | Raise _ => mkOutcome record false "upload_transport_error" (env_now u')
   end, u').

Fixpoint outcomes fn (records : list UploadRecord) (u : U) : list Outcome * U :=
  match records with
  | [] => ([], u)
  | r :: records' =>
      let '(o, u1) := ask fn r u in
      let '(os, u2) := outcomes fn records' u1 in (o :: os, u2)
  end.

Definition settle_record (retention : Z) (o : Outcome) (r : UploadRecord) : UploadRecord :=
  if oc_accepted o then set_acked (oc_at o) (oc_at o + retention) (set_uploaded (oc_at o) r)
  else add_retry r.
Definition outcome_of (os : list Outcome) (r : UploadRecord) : option Outcome :=
  List.find (λ o, (ur_id (oc_record o) =? ur_id r)%Z) os.
Definition settled (retention : Z) (os : list Outcome) (r : UploadRecord) : UploadRecord :=
  match outcome_of os r with Some o => settle_record retention o r | None => r end.

(** The counters and the quarantine after the outcomes. *)
Definition accepted_count (os : list Outcome) : Z := Z.of_nat (length (base.filter (λ o, oc_accepted o) os)).
Definition rejected (os : list Outcome) : list QuarantinedItem :=
  (λ o, quarantined_record (oc_reason o) (oc_record o)) <$> base.filter (λ o, negb (oc_accepted o)) os.

Lemma accepted_cons o os :
  accepted_count (o :: os) = ((if oc_accepted o then 1 else 0) + accepted_count os)%Z.
Proof. unfold accepted_count. rewrite filter_cons. destruct (oc_accepted o); cbn [Is_true]; case_decide; simpl length; [lia|done..|lia]. Qed.
Lemma rejected_cons o os :
  rejected (o :: os) =
  if oc_accepted o then rejected os else quarantined_record (oc_reason o) (oc_record o) :: rejected os.
Proof. unfold rejected. rewrite filter_cons. by destruct (oc_accepted o). Qed.

Lemma ask_record fn r u : oc_record (ask fn r u).1 = r.
Proof. unfold ask. destruct (upload_call fn r u) as [[b|e] u']; done. Qed.

Lemma outcomes_records fn rs u : oc_record <$> (outcomes fn rs u).1 = rs.
Proof.
  revert u. induction rs as [|r rs IH]; intros u; [done|]. cbn [outcomes].
  pose proof (ask_record fn r u) as Hr. destruct (ask fn r u) as [o u1]. specialize (IH u1).
  destruct (outcomes fn rs u1) as [os u2]. cbn in *. by rewrite Hr, IH.
Qed.

Lemma settle_record_id retention o r : ur_id (settle_record retention o r) = ur_id r.
Proof. unfold settle_record. by destruct (oc_accepted o). Qed.

Lemma has_id_row q r r' : queue_ok q → r ∈ uq_rows q → r' ∈ uq_rows q → ur_id r' = ur_id r → r' = r.
Proof.
  intros Hq Hr Hr' E. pose proof (queue_get_row q r Hq Hr) as H. rewrite <- E in H.
  rewrite (queue_get_row q r' Hq Hr') in H. congruence.
Qed.

Lemma count_pos P (rows : list UploadRecord) r : r ∈ rows → P r = true → (0 <? sql_count P rows)%Z = true.
Proof.
  intros Hr HP. apply Z.ltb_lt. assert (sql_count P rows ≠ 0%Z) as Hne.
  { intros E%Z.eqb_eq. rewrite sql_count_zero in E. by rewrite (E r Hr) in HP. }
  unfold sql_count in *. lia.
Qed.

(** One record: its row is settled, the others stay. *)
Lemma flush_record_spec w r up ack quar items_ :
  queue_ok (rc_queue w) → r ∈ uq_rows (rc_queue w) → ur_state r = StPending →
  ∃ q, flush_record r (up, ack, quar, items_) w
    = (Ok (let o := (ask (rc_upload_fn w) r (rc_uploader w)).1 in
           if oc_accepted o then (up + 1, ack + 1, quar, items_)%Z
           else (up, ack, quar + 1, items_ ++ [quarantined_record (oc_reason o) r])%Z),
       set_queue q (set_uploader (ask (rc_upload_fn w) r (rc_uploader w)).2 w))
    ∧ queue_ok q ∧ uq_retention q = uq_retention (rc_queue w)
    ∧ uq_rows q = (λ x, if (ur_id r =? ur_id x)%Z
                        then settle_record (uq_retention (rc_queue w)) (ask (rc_upload_fn w) r (rc_uploader w)).1 x
                        else x) <$> uq_rows (rc_queue w).
Proof.
  intros Hq Hr Hst. destruct w as [q m d u fn rep last]. cbn in *.
  unfold flush_record, call_uploader, ask, try_except, in_uploader, zoom, bind, get, set_uploader. cbn.
  destruct (upload_call fn r u) as [[[]|e] u'] eqn:Ef; cbn.
  2, 3: exists (record_retry (ur_id r) q).2;
    (split; [done|]);
    (split; [by apply record_retry_ok|]); (split; [done|]);
    unfold record_retry, update_where, bind, get, modify; cbn; unfold sql_update, settle_record; cbn;
    apply list_fmap_ext; intros _ x _; unfold has_id; by rewrite Z.eqb_sym.
  exists (mark_acked (ur_id r) (env_now u') (mark_uploaded (ur_id r) (env_now u') q).2).2.
  assert (∀ x, x ∈ uq_rows q → has_id (ur_id r) x = true → x = r) as Hid.
  { intros x Hx E%Z.eqb_eq. by apply (has_id_row q). }
  assert (set_uploaded (env_now u') r ∈ uq_rows (mark_uploaded (ur_id r) (env_now u') q).2) as Hr1.
  { cbn. apply elem_of_update. exists r. split; [done|]. unfold has_id, in_state.
    by rewrite Z.eqb_refl, bool_decide_eq_true_2. }
  split; [|split; [|split; [done|]]].
  - repeat f_equal; unfold bind, gets, update_where, get, modify; cbn;
      rewrite (count_pos _ _ _ Hr1); try done; unfold has_id; cbn; by rewrite Z.eqb_refl.
  - by apply mark_acked_ok, mark_uploaded_ok.
  - unfold mark_acked, mark_uploaded, update_where, bind, gets, get, modify. cbn.
    unfold sql_update. rewrite <- list_fmap_compose.
    apply list_fmap_ext. intros i x Hx%list_elem_of_lookup_2. cbn.
    destruct (has_id (ur_id r) x) eqn:E; unfold has_id in E.
    + rewrite (Hid x Hx E). unfold in_state. rewrite bool_decide_eq_true_2 by done. cbn.
      unfold has_id. cbn. rewrite Z.eqb_refl. cbn. done.
    + cbn. unfold has_id. rewrite E. cbn. by rewrite Z.eqb_sym, E.
Qed.

Lemma outcome_of_notin os r : ur_id r ∉ (ur_id ∘ oc_record) <$> os → outcome_of os r = None.
Proof.
  intros Hn. unfold outcome_of. destruct (List.find _ os) as [o|] eqn:E; [|done].
  apply List.find_some in E as [Ho E%Z.eqb_eq]. destruct Hn. apply list_elem_of_fmap.
  exists o. split; [done|]. by apply list_elem_of_In.
Qed.

Lemma flush_records_spec rs w up ack quar items_ :
  queue_ok (rc_queue w) → NoDup (ur_id <$> rs) →
  (∀ r, r ∈ rs → r ∈ uq_rows (rc_queue w) ∧ ur_state r = StPending) →
  let os := (outcomes (rc_upload_fn w) rs (rc_uploader w)).1 in
  ∃ q, fold_m flush_record rs (up, ack, quar, items_) w
    = (Ok (up + accepted_count os, ack + accepted_count os, quar + Z.of_nat (length (rejected os)),
           items_ ++ rejected os)%Z,
       set_queue q (set_uploader (outcomes (rc_upload_fn w) rs (rc_uploader w)).2 w))
    ∧ queue_ok q ∧ uq_retention q = uq_retention (rc_queue w)
    ∧ uq_rows q = settled (uq_retention (rc_queue w)) os <$> uq_rows (rc_queue w).
Proof.
  revert w up ack quar items_. induction rs as [|r rs IH]; intros w up ack quar items_ Hq Hnd Hrs; cbn zeta.
  { exists (rc_queue w). cbn. rewrite !Z.add_0_r, app_nil_r. split_and!; [by destruct w|done..|].
    by rewrite list_fmap_id. }
  apply NoDup_cons in Hnd as [Hn Hnd]. destruct (Hrs r) as [Hr Hp]; [left|].
  destruct (flush_record_spec w r up ack quar items_ Hq Hr Hp) as (q1 & Hrun & Hq1 & Hret & Hrows).
  cbn [fold_m outcomes]. rewrite (bind_ok _ _ _ _ _ Hrun).
  pose proof (ask_record (rc_upload_fn w) r (rc_uploader w)) as Ho.
  destruct (ask (rc_upload_fn w) r (rc_uploader w)) as [o u1]. cbn [fst snd] in *. clear Hrun.
  set (w1 := set_queue q1 (set_uploader u1 w)).
  assert (∀ r', r' ∈ rs → r' ∈ uq_rows (rc_queue w1) ∧ ur_state r' = StPending) as Hrs1.
  { intros r' Hr'. destruct (Hrs r') as [Hin ?]; [by right|]. split; [|done]. cbn. rewrite Hrows.
    apply list_elem_of_fmap. exists r'. split; [|done]. destruct (ur_id r =? ur_id r')%Z eqn:E; [|done].
    apply Z.eqb_eq in E. destruct Hn. rewrite E. by apply list_elem_of_fmap_2. }
  assert (∃ up1 ack1 quar1 items1,
    (if oc_accepted o then (up + 1, ack + 1, quar, items_)%Z
     else (up, ack, quar + 1, items_ ++ [quarantined_record (oc_reason o) r])%Z) = (up1, ack1, quar1, items1)
    ∧ ∀ os, (up1 + accepted_count os = up + accepted_count (o :: os)
      ∧ ack1 + accepted_count os = ack + accepted_count (o :: os)
      ∧ quar1 + Z.of_nat (length (rejected os)) = quar + Z.of_nat (length (rejected (o :: os))))%Z
      ∧ items1 ++ rejected os = items_ ++ rejected (o :: os)) as (up1 & ack1 & quar1 & items1 & -> & Hacc).
  { rewrite <- Ho. destruct (oc_accepted o) eqn:Ea; do 4 eexists; (split; [done|]);
      intros os; rewrite accepted_cons, rejected_cons, Ea; cbn [length app];
      rewrite <- ?(assoc (++)); split_and!; solve [lia|done]. }
  destruct (IH w1 up1 ack1 quar1 items1 Hq1 Hnd Hrs1) as (q2 & Hrun & Hq2 & Hret2 & Hrows2).
  exists q2. revert Hrun Hrows2. change (rc_upload_fn w1) with (rc_upload_fn w). change (rc_uploader w1) with u1.
  pose proof (outcomes_records (rc_upload_fn w) rs u1) as Hos.
  destruct (outcomes (rc_upload_fn w) rs u1) as [os u2]. cbn [fst snd] in *. intros Hrun Hrows2.
  destruct (Hacc os) as [(E1 & E2 & E3) E4]. rewrite E1, E2, E3, E4 in Hrun.
  split_and!; [by rewrite Hrun; destruct w|done|by rewrite Hret2, <- Hret|].
  rewrite Hrows2. cbn [rc_queue w1]. change (rc_queue w1) with q1. rewrite Hrows, Hret, <- list_fmap_compose.
  apply list_fmap_ext. intros _ x _. unfold settled, compose, outcome_of. cbn [List.find]. rewrite Ho.
  destruct (ur_id r =? ur_id x)%Z eqn:E; [|done]. apply Z.eqb_eq in E.
  fold (outcome_of os (settle_record (uq_retention (rc_queue w)) o x)). rewrite outcome_of_notin; [done|].
  rewrite settle_record_id, <- E. intros Hin. apply Hn. rewrite list_fmap_compose, Hos in Hin. exact Hin.
Qed.

Lemma pending_row q r : r ∈ list_pending q → r ∈ uq_rows q ∧ ur_state r = StPending.
Proof. by intros [? ?%bool_decide_eq_true]%elem_of_select. Qed.

Lemma flush_spec w report :
  queue_ok (rc_queue w) →
  let os := (outcomes (rc_upload_fn w) (list_pending (rc_queue w)) (rc_uploader w)).1 in
  ∃ q, flush_upload_queue report w
    = (Ok (advance report None (Some (rr_uploaded report + accepted_count os)%Z)
             (Some (rr_acked report + accepted_count os)%Z) None None
             (Some (rr_quarantined report + Z.of_nat (length (rejected os)))%Z) None None
             (Some (rr_quarantine report ++ rejected os))),
       set_queue q (set_uploader (outcomes (rc_upload_fn w) (list_pending (rc_queue w)) (rc_uploader w)).2 w))
    ∧ queue_ok q
    ∧ uq_rows q = settled (uq_retention (rc_queue w)) os <$> uq_rows (rc_queue w).
Proof.
  intros Hq. cbn zeta.
  assert (NoDup (ur_id <$> list_pending (rc_queue w))) as Hnd.
  { eapply sublist_NoDup; [by apply sorted_ids_nodup|]. apply fmap_sublist, sublist_filter. }
  destruct (flush_records_spec (list_pending (rc_queue w)) w (rr_uploaded report) (rr_acked report)
    (rr_quarantined report) (rr_quarantine report) Hq Hnd (pending_row _)) as (q & Hrun & Hq' & _ & Hrows).
  exists q. split_and!; [|done..].
  unfold flush_upload_queue, gets. erewrite bind_ok by done. by rewrite (bind_ok _ _ _ _ _ Hrun).
Qed.

(** Flushing the queue loses nothing. Every pending record is offered to the transport once, in
    the order of insertion; afterwards the table has the same rows in the same order, each pending
    one acknowledged if the transport accepted it, else still pending with one retry more, and no
    other row touched. The report counts the accepted as uploaded and as acked, and lists each
    rejected one with its reason; whatever the transport does, the phase does not raise. *)
Theorem flush_accounts (w : Reconciler U) (report : ReconcileReport) (Hq : queue_ok (rc_queue w)) :
  let os := (outcomes (rc_upload_fn w) (list_pending (rc_queue w)) (rc_uploader w)).1 in
  oc_record <$> os = list_pending (rc_queue w)
  ∧ ∃ q, flush_upload_queue report w
    = (Ok (advance report None (Some (rr_uploaded report + accepted_count os)%Z)
             (Some (rr_acked report + accepted_count os)%Z) None None
             (Some (rr_quarantined report + Z.of_nat (length (rejected os)))%Z) None None
             (Some (rr_quarantine report ++ rejected os))),
       set_queue q (set_uploader (outcomes (rc_upload_fn w) (list_pending (rc_queue w)) (rc_uploader w)).2 w))
    ∧ queue_ok q
    ∧ uq_rows q = settled (uq_retention (rc_queue w)) os <$> uq_rows (rc_queue w)
    ∧ (∀ r, r ∈ uq_rows (rc_queue w) →
        match outcome_of os r with
        | Some o => oc_record o = r ∧ ur_state r = StPending
        | None => ur_state r ≠ StPending
        end).
Proof.
  cbn zeta. split; [apply outcomes_records|].
  destruct (flush_spec w report Hq) as (q & Hrun & Hq' & Hrows). exists q. split_and!; [done..|].
  intros r Hr. pose proof (outcomes_records (rc_upload_fn w) (list_pending (rc_queue w)) (rc_uploader w)) as Hos.
  destruct (outcome_of _ r) as [o|] eqn:E.
  - apply List.find_some in E as [Ho%list_elem_of_In E%Z.eqb_eq].
    assert (oc_record o ∈ list_pending (rc_queue w)) as Hin by (rewrite <- Hos; by apply list_elem_of_fmap_2).
    apply pending_row in Hin as [Hin ?]. assert (oc_record o = r) as <- by by apply (has_id_row (rc_queue w)). done.
  - intros Hst. assert (r ∈ list_pending (rc_queue w)) as Hin.
    { apply elem_of_select. split; [done|]. by apply bool_decide_eq_true. }
    rewrite <- Hos in Hin. apply list_elem_of_fmap in Hin as (o & -> & Ho%list_elem_of_In).
    pose proof (List.find_none _ _ E o Ho) as Hne. cbn in Hne. by rewrite Z.eqb_refl in Hne.
Qed.
End flush.

(** ** Phase 2: cached versions *)

Section reversion.
Context (sha256_checksum : string → string).
#[local] Abbreviation store := (CacheStore.store sha256_checksum).

Lemma rows_key_inj rows r r' :
  rows_ok rows → r ∈ rows → r' ∈ rows → entry_key r = entry_key r' → r = r'.
Proof.
  intros [Hnd _] [i Hi]%list_elem_of_lookup [j Hj]%list_elem_of_lookup E.
  assert (i = j) as ->; [|congruence].
  apply (NoDup_lookup _ _ _ (entry_key r) Hnd); rewrite list_lookup_fmap; [by rewrite Hi|by rewrite Hj, E].
Qed.

Lemma has_entry_key id v r : has_entry id v r = bool_decide (entry_key r = (id, v)).
Proof.
  destruct (has_entry id v r) eqn:E; symmetry.
  - apply bool_decide_eq_true. apply has_entry_true in E as [<- <-]. done.
  - apply bool_decide_eq_false. intros [= <- <-]. apply has_entry_false in E. by apply E.
Qed.

(** The table after a store of [p] under (id, v): the other rows, and one with [p]. *)
Lemma store_rows t id v p now c :
  cache_ok c →
  let c1 := (store (kind_of t) id v p None now c).2 in
  cache_ok c1
  ∧ (store (kind_of t) id v p None now c).1 = Ok tt
  ∧ (∀ t', t' ≠ t → rows_of t' c1 = rows_of t' c)
  ∧ (∀ r, entry_key r ≠ (id, v) → r ∈ rows_of t c1 ↔ r ∈ rows_of t c)
  ∧ ∃ r, r ∈ rows_of t c1 ∧ entry_key r = (id, v) ∧ cr_payload r = p ∧ cr_checksum r = sha256_checksum p.
Proof.
  intros Hc. cbn zeta. split; [apply (run_cache_op_ok sha256_checksum (CStore _ _ _ _ _ _) c Hc)|].
  pose proof (store_spec sha256_checksum (kind_of t) id v p None now c Hc) as H.
  destruct (store _ _ _ _ _ _ c) as [[[]|e] c1]; cbn.
  2: { destruct H as (_ & _ & [H|[? _]]); [by destruct (H t)|done]. }
  split; [done|]. destruct H as (t' & ->%kind_of_inj & _ & [(r & ? & ? & ? & ? & ->)|(_ & ->)]).
  { split_and!; [done..|]. by exists r. }
  split_and!.
  - intros t1 Ht1. by rewrite rows_of_set, decide_False.
  - intros r Hr. rewrite rows_of_set_eq, elem_of_app, list_elem_of_singleton, elem_of_delete, has_entry_key.
    rewrite bool_decide_eq_false_2 by done. split; [|naive_solver].
    intros [[? _]| ->]; [done|]. by destruct Hr.
  - eexists. rewrite rows_of_set_eq, elem_of_app, list_elem_of_singleton. split; [by right|done].
Qed.

(** Moving a version: the other rows stay, the payload is acknowledged under the new one. *)
Lemma reversion_rows t id v nv p t1 t2 c :
  cache_ok c → nv ≠ v →
  let c1 := (store (kind_of t) id nv p None t1 c).2 in
  let c2 := (mark_acked_entry (kind_of t) id nv None t2 c1).2 in
  let c3 := (cache_delete (kind_of t) id (Some v) c2).2 in
  cache_ok c3
  ∧ (∀ t', t' ≠ t → rows_of t' c3 = rows_of t' c)
  ∧ (∀ r, entry_key r ≠ (id, v) → entry_key r ≠ (id, nv) → r ∈ rows_of t c3 ↔ r ∈ rows_of t c)
  ∧ (∀ r, r ∈ rows_of t c3 → entry_key r ≠ (id, v))
  ∧ (∀ r, r ∈ rows_of t c3 → entry_key r = (id, nv) → cr_state r = StateAcked ∧ cr_payload r = p)
  ∧ ∃ r, r ∈ rows_of t c3 ∧ entry_key r = (id, nv).
Proof.
  intros Hc Hne. cbn zeta. destruct (store_rows t id nv p t1 c Hc) as (Hc1 & _ & Ho1 & Hr1 & (r1 & Hin1 & Hk1 & Hp1 & _)).
  set (c1 := (store (kind_of t) id nv p None t1 c).2) in *.
  assert (Hc2 := run_cache_op_ok sha256_checksum (CAck (kind_of t) id nv None t2) c1 Hc1).
  assert (Hc3 := run_cache_op_ok sha256_checksum (CDelete (kind_of t) id (Some v)) _ Hc2). cbn [run_cache_op] in Hc3.
  split; [exact Hc3|]. clear Hc2 Hc3.
  assert ((cache_delete (kind_of t) id (Some v) (mark_acked_entry (kind_of t) id nv None t2 c1).2).2
    = set_table t (sql_delete (has_entry id v) (sql_update (has_entry id nv) (ack_row t2) (rows_of t c1))) c1) as ->.
  { unfold cache_delete, mark_acked_entry.
    rewrite (proj2 (resolve_table_Ok (kind_of t) t) eq_refl). cbn. destruct t; done. }
  assert (∀ r, r ∈ sql_delete (has_entry id v) (sql_update (has_entry id nv) (ack_row t2) (rows_of t c1)) ↔
    entry_key r ≠ (id, v) ∧ ∃ r0, r0 ∈ rows_of t c1 ∧ r = if bool_decide (entry_key r0 = (id, nv)) then ack_row t2 r0 else r0) as Hmem.
  { intros r. rewrite elem_of_delete, elem_of_update, has_entry_key, bool_decide_eq_false.
    setoid_rewrite has_entry_key. tauto. }
  split_and!.
  - intros t' Ht'. rewrite rows_of_set, decide_False by done. by apply Ho1.
  - intros r Hv Hnv. rewrite rows_of_set_eq, Hmem, <- Hr1 by done. split.
    + intros (_ & r0 & Hin & ->). by case_bool_decide as E.
    + intros Hin. split; [done|]. exists r. by rewrite bool_decide_eq_false_2.
  - intros r. rewrite rows_of_set_eq, Hmem. by intros [? _].
  - intros r. rewrite rows_of_set_eq, Hmem. intros (_ & r0 & Hin & ->) E.
    assert (entry_key r0 = (id, nv)) as E0 by (by case_bool_decide).
    rewrite bool_decide_eq_true_2 by done. split; [done|]. cbn.
    by rewrite (rows_key_inj _ r0 r1 (Hc1 t) Hin Hin1) by congruence.
  - exists (ack_row t2 r1). rewrite rows_of_set_eq, Hmem. split; [|done]. split.
    + change (entry_key (ack_row t2 r1)) with (entry_key r1). congruence.
    + exists r1. by rewrite bool_decide_eq_true_2.
Qed.

(** Acknowledging a version. *)
Lemma ack_rows t id v ts c :
  cache_ok c →
  let c1 := (mark_acked_entry (kind_of t) id v None ts c).2 in
  cache_ok c1
  ∧ (∀ t', t' ≠ t → rows_of t' c1 = rows_of t' c)
  ∧ (∀ r, r ∈ rows_of t c1 ↔ ∃ r0, r0 ∈ rows_of t c ∧ r = if bool_decide (entry_key r0 = (id, v)) then ack_row ts r0 else r0).
Proof.
  intros Hc. cbn zeta. split; [apply (run_cache_op_ok sha256_checksum (CAck _ _ _ _ _) c Hc)|].
  unfold mark_acked_entry. rewrite (proj2 (resolve_table_Ok (kind_of t) t) eq_refl). cbn. split.
  - intros t' Ht'. by rewrite rows_of_set, decide_False.
  - intros r. rewrite rows_of_set_eq, elem_of_update. by setoid_rewrite has_entry_key.
Qed.
End reversion.

Section resolve.
Context {U : Type} `{!Uploader U} (sha256_checksum : string → string).
Implicit Types (w : Reconciler U).
#[local] Abbreviation resolve_entry := (resolve_entry sha256_checksum).

(** Counters and list of phase 2. *)
Definition ResolveAcc : Type := Z * Z * Z * list QuarantinedItem.
Definition settled_count (acc : ResolveAcc) : Z := acc.1.1.1 + acc.1.1.2.

Definition ask_version (s : EntryStatus) (u : U) : option VersionResolution * U :=
  let '(r, u') := resolve_version (es_kind s) (es_id s) (es_version s) (es_checksum s) u in
  (match r with Ok x => Some x | Raise _ => None end, u').

(** What one entry can come to: kept, confirmed, moved to a new version, quarantined. *)
Inductive entry_step (t : Table) (s : EntryStatus) (answer : option VersionResolution) (now : Z) :
    ResolveAcc → OfflineCacheStore → ResolveAcc → OfflineCacheStore → Prop :=
  | entry_kept acc c :
      (∀ r, answer = Some r → vr_outcome r ≠ RESOLVE_CONFIRMED ∧ vr_outcome r ≠ RESOLVE_CONFLICT) →
      entry_step t s answer now acc c acc c
  | entry_confirmed r n m q l c :
      answer = Some r → vr_outcome r = RESOLVE_CONFIRMED →
      entry_step t s answer now (n, m, q, l) c (n + 1, m, q, l)%Z
        (mark_acked_entry (kind_of t) (es_id s) (es_version s) None now c).2
  | entry_moved r nv p n m q l c :
      answer = Some r → vr_outcome r = RESOLVE_CONFLICT → vr_new_version r = Some nv →
      nv ≠ es_version s → get_usable sha256_checksum (kind_of t) (es_id s) (Some (es_version s)) false c = Ok p →
      entry_step t s answer now (n, m, q, l) c (n, m + 1, q, l)%Z
        (cache_delete (kind_of t) (es_id s) (Some (es_version s))
          (mark_acked_entry (kind_of t) (es_id s) nv None now
            (store sha256_checksum (kind_of t) (es_id s) nv p None now c).2).2).2
  | entry_quarantined r n m q l c :
      answer = Some r → vr_outcome r = RESOLVE_CONFLICT →
      entry_step t s answer now (n, m, q, l) c (n, m, q + 1, l ++ [quarantined_entry s])%Z c.

Lemma store_method_of t :
  store_method sha256_checksum (kind_of t) = Some (store sha256_checksum (kind_of t)).
Proof. by destruct t. Qed.

Lemma get_usable_error k id v c e : get_usable sha256_checksum k id v false c = Raise e → k = KIND_SEQUENCE ∨ k = KIND_TOPOLOGY → is_cache_error e = true.
Proof.
  intros H Hk. unfold get_usable in H.
  assert (∃ t, resolve_table k = Ok t) as [t Ht] by (destruct Hk as [-> | ->]; eexists; done).
  rewrite Ht in H. cbn [mbind res_mbind res_bind] in H.
  assert (∀ r, serve sha256_checksum k id false r = Raise e → is_cache_error e = true) as Hserve.
  { intros r. unfold serve. case_decide; cbn [andb]; intros [= <-]; done. }
  destruct v; repeat case_match; simplify_eq; try done; eauto.
Qed.

Lemma ask_version_run s w :
  try_except (r <- in_uploader (resolve_version (es_kind s) (es_id s) (es_version s) (es_checksum s)) ;;
              ret (Some r)) (λ _, Some (ret None)) w
  = (Ok (ask_version s (rc_uploader w)).1, set_uploader (ask_version s (rc_uploader w)).2 w).
Proof.
  unfold try_except, in_uploader, zoom, bind, ask_version.
  by destruct (resolve_version _ _ _ _ (rc_uploader w)) as [[r|e] u'].
Qed.

(** A call on the cache that succeeds. *)
Lemma in_cache_run {A} (f : M OfflineCacheStore A) w a c :
  f (rc_cache w) = (Ok a, c) → in_cache f w = (Ok a, set_rc_cache c w).
Proof. intros H. unfold in_cache, zoom. by rewrite H. Qed.

Lemma mark_entry_run t id v ts c :
  ∃ b, mark_acked_entry (kind_of t) id v None ts c = (Ok b, (mark_acked_entry (kind_of t) id v None ts c).2).
Proof.
  unfold mark_acked_entry. rewrite (proj2 (resolve_table_Ok (kind_of t) t) eq_refl). by eexists.
Qed.
Lemma delete_run t id v c :
  ∃ n, cache_delete (kind_of t) id v c = (Ok n, (cache_delete (kind_of t) id v c).2).
Proof. unfold cache_delete. rewrite (proj2 (resolve_table_Ok (kind_of t) t) eq_refl). by eexists. Qed.

(** Applying a conflict: done completely or not at all. *)
Lemma apply_conflict_spec t s new_version w :
  cache_ok (rc_cache w) → es_kind s = kind_of t →
  let ts := env_now (rc_uploader w) in
  (∃ nv p, new_version = Some nv ∧ nv ≠ es_version s
    ∧ get_usable sha256_checksum (kind_of t) (es_id s) (Some (es_version s)) false (rc_cache w) = Ok p
    ∧ apply_conflict_new_version sha256_checksum s new_version w = (Ok true, set_rc_cache
        (cache_delete (kind_of t) (es_id s) (Some (es_version s))
          (mark_acked_entry (kind_of t) (es_id s) nv None ts
            (store sha256_checksum (kind_of t) (es_id s) nv p None ts (rc_cache w)).2).2).2 w))
  ∨ apply_conflict_new_version sha256_checksum s new_version w = (Ok false, w).
Proof.
  intros Hc Hk. cbn zeta. unfold apply_conflict_new_version. destruct new_version as [nv|]; [|by right].
  case_bool_decide as Hnil; [by right|]. cbn [orb]. case_bool_decide as Hnv; [by right|].
  rewrite Hk, store_method_of. unfold try_except, gets. erewrite bind_ok by done.
  destruct (get_usable _ _ _ _ _ _) as [p|e] eqn:Hg; cbn [lift].
  2: { right. rewrite (bind_raise _ _ _ e w) by done.
       rewrite (get_usable_error _ _ _ _ _ Hg); [done|]. destruct t; auto. }
  left. exists nv, p. split_and!; [done..|]. erewrite bind_ok by done. erewrite bind_ok by done.
  destruct (store_rows sha256_checksum t (es_id s) nv p (env_now (rc_uploader w)) (rc_cache w) Hc) as (_ & Hs & _).
  destruct (store _ _ _ _ _ _ _ (rc_cache w)) as [x c1] eqn:E1. cbn in Hs. subst x.
  rewrite (bind_ok _ _ _ _ _ (in_cache_run _ w _ _ E1)). erewrite bind_ok by done. cbn [snd].
  destruct (mark_entry_run t (es_id s) nv (env_now (rc_uploader w)) c1) as [b E2].
  rewrite (bind_ok _ _ _ _ _ (in_cache_run _ (set_rc_cache c1 w) _ _ E2)).
  set (c2 := (mark_acked_entry (kind_of t) (es_id s) nv None (env_now (rc_uploader w)) c1).2).
  destruct (delete_run t (es_id s) (Some (es_version s)) c2) as [n E3].
  by rewrite (bind_ok _ _ _ _ _ (in_cache_run _ (set_rc_cache c2 (set_rc_cache c1 w)) _ _ E3)).
Qed.

Lemma resolve_entry_spec t s acc w :
  cache_ok (rc_cache w) → es_kind s = kind_of t → es_state s = StateCached →
  ∃ acc' c, resolve_entry s acc w = (Ok acc', set_rc_cache c (set_uploader (ask_version s (rc_uploader w)).2 w))
    ∧ entry_step t s (ask_version s (rc_uploader w)).1 (env_now (ask_version s (rc_uploader w)).2)
        acc (rc_cache w) acc' c.
Proof.
  intros Hc Hk Hst. destruct acc as [[[n m] qn] l].
  unfold Reconciliation.resolve_entry. rewrite bool_decide_eq_false_2 by (intros []; done).
  rewrite (bind_ok _ _ _ _ _ (ask_version_run s w)).
  destruct (ask_version s (rc_uploader w)) as [answer u]. cbn [fst snd].
  set (w1 := set_uploader u w). assert (set_rc_cache (rc_cache w) w1 = w1) as Hw1 by (by destruct w as [? [] ? ? ? ? ?]).
  destruct answer as [r|]; [|do 2 eexists; split; [by rewrite Hw1|by apply entry_kept]].
  destruct (decide (vr_outcome r = RESOLVE_CONFIRMED)) as [Ho|Ho].
  { erewrite bind_ok by done. rewrite Hk.
    destruct (mark_entry_run t (es_id s) (es_version s) (env_now u) (rc_cache w)) as [b E].
    rewrite (bind_ok _ _ _ _ _ (in_cache_run _ w1 _ _ E)).
    do 2 eexists. split; [done|]. by eapply entry_confirmed. }
  destruct (decide (vr_outcome r = RESOLVE_CONFLICT)) as [Ho'|Ho'].
  2: { do 2 eexists. split; [by rewrite Hw1|]. apply entry_kept. intros r' [= <-]. done. }
  destruct (apply_conflict_spec t s (vr_new_version r) w1 Hc Hk) as [(nv & p & Hv & Hne & Hg & E)|E];
    rewrite (bind_ok _ _ _ _ _ E).
  - do 2 eexists. split; [done|]. eapply entry_moved; done.
  - exists (n, m, qn + 1, l ++ [quarantined_entry s])%Z, (rc_cache w). rewrite Hw1.
    split; [done|]. by eapply entry_quarantined.
Qed.
(** Every row still to be reported is among the statuses to come. *)
Definition unacked_in (ss : list EntryStatus) (c : OfflineCacheStore) : Prop :=
  ∀ t r, r ∈ rows_of t c → cr_state r = StateCached →
    ∃ s, s ∈ ss ∧ es_state s = StateCached ∧ es_kind s = kind_of t ∧ (es_id s, es_version s) = entry_key r.

Lemma entry_step_ok t s a ts acc c acc' c' :
  entry_step t s a ts acc c acc' c' → cache_ok c → cache_ok c'.
Proof.
  destruct 1 as [| |? nv p ????? _ _ _ Hne _|]; intros Hc; [done| | |done].
  - by apply ack_rows.
  - by apply (reversion_rows sha256_checksum t (es_id s) (es_version s) nv p ts ts c Hc Hne).
Qed.

Lemma entry_step_settled t s a ts acc c acc' c' ss :
  entry_step t s a ts acc c acc' c' → cache_ok c → es_kind s = kind_of t →
  unacked_in (s :: ss) c →
  (settled_count acc' = settled_count acc + 1)%Z ∧ unacked_in ss c'
  ∨ settled_count acc' = settled_count acc ∧ unacked_in (s :: ss) c'.
Proof.
  intros Hstep Hc Hk Hun. unfold settled_count.
  assert (∀ t' r, r ∈ rows_of t' c → cr_state r = StateCached →
    (kind_of t', entry_key r) ≠ (kind_of t, (es_id s, es_version s)) →
    ∃ s', s' ∈ ss ∧ es_state s' = StateCached ∧ es_kind s' = kind_of t' ∧ (es_id s', es_version s') = entry_key r) as Hrest.
  { intros t' r Hr Hst Hne. destruct (Hun t' r Hr Hst) as (s' & [-> | Hin]%elem_of_cons & H1 & H2 & H3); [|by exists s'].
    destruct Hne. by rewrite <- H2, <- H3, Hk. }
  destruct Hstep as [acc c _|x n m q l c _ _|x nv p n m q l c _ _ _ Hne _|x n m q l c _ _]; cbn; [by right| | |by right].
  - left. split; [lia|]. destruct (ack_rows sha256_checksum t (es_id s) (es_version s) ts c Hc) as (_ & Ho & Hr).
    intros t' r Hin Hst. destruct (decide (t' = t)) as [->|Hne].
    + apply Hr in Hin as (r0 & Hin & ->). case_bool_decide as E; [done|]. apply Hrest; [done..|congruence].
    + rewrite Ho in Hin by done. apply Hrest; [done..|]. intros [= ? _]. by apply Hne, kind_of_inj.
  - left. split; [lia|].
    destruct (reversion_rows sha256_checksum t (es_id s) (es_version s) nv p ts ts c Hc Hne) as (_ & Ho & Hr & Hno & Hack & _).
    intros t' r Hin Hst. destruct (decide (t' = t)) as [->|Hne'].
    + destruct (decide (entry_key r = (es_id s, nv))) as [E|E]; [by destruct (Hack r Hin E) as [E' _]; rewrite E' in Hst|].
      pose proof (Hno r Hin) as Hv. apply Hr in Hin; [|done..]. apply Hrest; [done..|congruence].
    + rewrite Ho in Hin by done. apply Hrest; [done..|]. intros [= ? _]. by apply Hne', kind_of_inj.
Qed.

(** The conflict answers, in order, as (kind, id, new version). *)
Fixpoint answers (ss : list EntryStatus) (u : U) : list (EntryStatus * option VersionResolution) * U :=
  match ss with
  | [] => ([], u)
  | s :: ss' =>
      if bool_decide (es_state s ≠ StateCached) then answers ss' u
      else
        let '(a, u1) := ask_version s u in
        let '(l, u2) := answers ss' u1 in ((s, a) :: l, u2)
  end.

Definition moved_to (sa : EntryStatus * option VersionResolution) : list (string * (string * string)) :=
  match sa.2 with
  | Some r =>
      if bool_decide (vr_outcome r = RESOLVE_CONFLICT)
      then (λ nv, (es_kind sa.1, (es_id sa.1, nv))) <$> option_list (vr_new_version r)
      else []
  | None => []
  end.

(** The payload of [r] is kept: its entry has a row with it, not acknowledged less, under
    its own version or one of the new ones. *)
Definition kept_row (t : Table) (moved : list (string * (string * string))) (r r' : CacheRow) : Prop :=
  cr_id r' = cr_id r ∧ cr_payload r' = cr_payload r ∧ (cr_state r = StateAcked → cr_state r' = StateAcked)
  ∧ (cr_version r' = cr_version r ∨ (kind_of t, entry_key r') ∈ moved).

Lemma entry_step_keeps t s a ts acc c acc' c' t' r moved :
  entry_step t s a ts acc c acc' c' → cache_ok c → es_kind s = kind_of t →
  r ∈ rows_of t' c → (kind_of t', entry_key r) ∉ moved_to (s, a) →
  ∃ r', r' ∈ rows_of t' c' ∧ kept_row t' (moved ++ moved_to (s, a)) r r'.
Proof.
  intros Hstep Hc Hk Hr Hn. assert (kept_row t' (moved ++ moved_to (s, a)) r r) as Hrefl by (split_and!; auto).
  destruct Hstep as [acc c _|x n m q l c Ha Ho|x nv p n m q l c Ha Ho Hv Hne Hg|x n m q l c _ _]; [by eauto| | |by eauto].
  - destruct (ack_rows sha256_checksum t (es_id s) (es_version s) ts c Hc) as (_ & Hother & Hrow).
    destruct (decide (t' = t)) as [->|Hne]; [|exists r; by rewrite Hother].
    eexists. split; [apply Hrow; by exists r|]. case_bool_decide; [|done]. split_and!; auto.
  - assert (moved_to (s, a) = [(kind_of t, (es_id s, nv))]) as Hm.
    { unfold moved_to. cbn. rewrite Ha, bool_decide_eq_true_2, Hv, Hk by done. done. }
    rewrite Hm in Hn |- *. rewrite list_elem_of_singleton in Hn.
    destruct (reversion_rows sha256_checksum t (es_id s) (es_version s) nv p ts ts c Hc Hne) as (_ & Hother & Hrow & _ & Hack & (r1 & Hin1 & Hk1)).
    destruct (decide (t' = t)) as [->|Hne']; [|exists r; rewrite Hother by done; split; [done|split_and!; auto]].
    destruct (decide (entry_key r = (es_id s, es_version s))) as [E|E].
    + exists r1. split; [done|]. destruct (Hack r1 Hin1 Hk1) as [Hst Hp].
      rewrite (get_pinned _ _ _ _ r) in Hg by done. unfold serve in Hg. case_decide; [|done]. cbn in Hg.
      injection E as E1 E2. injection Hk1 as Hk1 Hk2. split_and!; [congruence| |done|].
      * rewrite Hp. by injection Hg.
      * right. apply elem_of_app. right. apply list_elem_of_singleton. unfold entry_key. by rewrite Hk1, Hk2.
    + exists r. split; [|split_and!; auto]. apply Hrow; [done|congruence|done].
Qed.
Lemma kept_row_trans t m1 m2 r1 r2 r3 :
  kept_row t m1 r1 r2 → kept_row t m2 r2 r3 → kept_row t (m1 ++ m2) r1 r3.
Proof.
  intros (I1 & P1 & S1 & V1) (I2 & P2 & S2 & V2). split_and!; [congruence|congruence|auto|].
  destruct V2 as [V2|V2]; [|right; apply elem_of_app; by right].
  destruct V1 as [V1|V1]; [left; congruence|]. right. apply elem_of_app. left.
  assert (entry_key r3 = entry_key r2) as -> by (unfold entry_key; congruence). done.
Qed.

Definition all_moved (ss : list EntryStatus) (u : U) : list (string * (string * string)) :=
  (answers ss u).1 ≫= moved_to.

Lemma resolve_loop_spec ss acc w :
  cache_ok (rc_cache w) → (∀ s, s ∈ ss → ∃ t, es_kind s = kind_of t) →
  ∃ acc' c, fold_m resolve_entry ss acc w
      = (Ok acc', set_rc_cache c (set_uploader (answers ss (rc_uploader w)).2 w))
    ∧ cache_ok c
    ∧ (acc.1.1.1 ≤ acc'.1.1.1 ∧ acc.1.1.2 ≤ acc'.1.1.2)%Z
    ∧ ((answers ss (rc_uploader w)).1 = [] → c = rc_cache w)
    ∧ (settled_count acc' ≤ settled_count acc + Z.of_nat (length (answers ss (rc_uploader w)).1))%Z
    ∧ (unacked_in ss (rc_cache w) →
       settled_count acc' = (settled_count acc + Z.of_nat (length (answers ss (rc_uploader w)).1))%Z →
       unacked_in [] c)
    ∧ (NoDup (all_moved ss (rc_uploader w)) →
       ∀ t r, r ∈ rows_of t (rc_cache w) → (kind_of t, entry_key r) ∉ all_moved ss (rc_uploader w) →
       ∃ r', r' ∈ rows_of t c ∧ kept_row t (all_moved ss (rc_uploader w)) r r').
Proof.
  revert acc w. unfold all_moved. induction ss as [|s ss IH]; intros acc w Hc Hkinds.
  { exists acc, (rc_cache w). cbn. split_and!; [by destruct w as [? [] ? ? ? ? ?]|done|lia|lia|done|lia|done|].
    intros _ t r Hr _. exists r. split; [done|]. split_and!; auto. }
  cbn [fold_m answers]. destruct (decide (es_state s = StateCached)) as [Hst|Hst].
  2: { rewrite bool_decide_eq_true_2 by done.
       assert (resolve_entry s acc w = (Ok acc, w)) as E.
       { unfold Reconciliation.resolve_entry. destruct acc as [[[??]?]?]. by rewrite bool_decide_eq_true_2. }
       rewrite (bind_ok _ _ _ _ _ E).
       destruct (IH acc w Hc) as (acc' & c & Hrun & Hc' & Hmono & Hsame & Hle & Heq & Hkeep);
         [intros; apply Hkinds; by right|].
       exists acc', c. split_and!; [done|done|apply Hmono|apply Hmono|done|done| |done]. intros Hun. apply Heq. intros t r Hr Hs.
       destruct (Hun t r Hr Hs) as (s' & [-> | ?]%elem_of_cons & H2 & ?); [done|by exists s']. }
  rewrite bool_decide_eq_false_2 by (intros []; done). destruct (Hkinds s) as [t Hk]; [left|].
  destruct (resolve_entry_spec t s acc w Hc Hk Hst) as (acc1 & c1 & Hrun1 & Hstep).
  rewrite (bind_ok _ _ _ _ _ Hrun1). clear Hrun1. destruct (ask_version s (rc_uploader w)) as [a u1]. cbn [fst snd] in *.
  set (w1 := set_rc_cache c1 (set_uploader u1 w)).
  destruct (IH acc1 w1) as (acc' & c & Hrun & Hc' & Hmono & _ & Hle & Heq & Hkeep);
    [by eapply entry_step_ok|intros; apply Hkinds; by right|]. clear IH.
  change (rc_cache w1) with c1 in *. change (rc_uploader w1) with u1 in *.
  destruct (answers ss u1) as [l u2]. cbn [fst snd length] in *.
  assert ((settled_count acc1 ≤ settled_count acc + 1)%Z
    ∧ (acc.1.1.1 ≤ acc1.1.1.1 ∧ acc.1.1.2 ≤ acc1.1.1.2)%Z) as [Hone Hmono1].
  { destruct Hstep; unfold settled_count; cbn; lia. }
  exists acc', c. split_and!; [by rewrite Hrun; destruct w as [? [] ? ? ? ? ?]|done|lia|lia|done|lia| |].
  - intros Hun Hsum. destruct (entry_step_settled _ _ _ _ _ _ _ _ _ Hstep Hc Hk Hun) as [[E Hun1]|[E _]]; [|lia].
    apply Heq; [done|lia].
  - cbn [mbind list_bind]. intros Hnd t' r Hr Hn. rewrite elem_of_app in Hn. apply NoDup_app in Hnd as (Hnd1 & Hdisj & Hnd2).
    destruct (entry_step_keeps _ _ _ _ _ _ _ _ t' r [] Hstep Hc Hk Hr) as (r1 & Hr1 & Hkr1); [naive_solver|].
    destruct (Hkeep Hnd2 t' r1 Hr1) as (r2 & Hr2 & Hkr2).
    { destruct Hkr1 as (Hi & _ & _ & [Hv|Hm]); [|by apply Hdisj].
      assert (entry_key r1 = entry_key r) as -> by (unfold entry_key; congruence). naive_solver. }
    exists r2. split; [done|]. by eapply (kept_row_trans _ (moved_to (s, a))).
Qed.
End resolve.

(** ** A whole pass *)

Section pass.
Context {U : Type} `{!Uploader U} (sha256_checksum : string → string) (sha256 : string → string)
  (json_loads : string → option ScriptMeta).
Implicit Types (w : Reconciler U).

(** What phase 2 goes through. *)
Definition all_statuses (c : OfflineCacheStore) : list EntryStatus :=
  (entry_status KIND_SEQUENCE <$> by_entry (rows_of Sequences c))
  ++ (entry_status KIND_TOPOLOGY <$> by_entry (rows_of Topologies c)).

Lemma list_cached_all c : list_cached None c = Ok (all_statuses c).
Proof.
  unfold list_cached, all_statuses. cbn [mapM].
  change (resolve_table KIND_SEQUENCE) with (Ok Sequences). change (resolve_table KIND_TOPOLOGY) with (Ok Topologies).
  cbn [mbind res_mbind res_bind mret res_mret mjoin list_join]. by rewrite app_nil_r.
Qed.

Lemma elem_of_all_statuses c s :
  s ∈ all_statuses c ↔ ∃ t r, r ∈ rows_of t c ∧ s = entry_status (kind_of t) r.
Proof.
  unfold all_statuses. rewrite elem_of_app, !list_elem_of_fmap.
  setoid_rewrite merge_sort_Permutation. split.
  - intros [(r & -> & Hr)|(r & -> & Hr)]; [by exists Sequences, r|by exists Topologies, r].
  - intros ([] & r & Hr & ->); [left|right]; eauto.
Qed.

Lemma statuses_kinds c s : s ∈ all_statuses c → ∃ t, es_kind s = kind_of t.
Proof. intros (t & r & _ & ->)%elem_of_all_statuses. by exists t. Qed.

Lemma all_statuses_unacked c : unacked_in (all_statuses c) c.
Proof.
  intros t r Hr Hst. exists (entry_status (kind_of t) r). split_and!; [|done..].
  apply elem_of_all_statuses. eauto.
Qed.

Lemma resolve_spec w report :
  cache_ok (rc_cache w) →
  let ss := all_statuses (rc_cache w) in
  let n := Z.of_nat (length (answers ss (rc_uploader w)).1) in
  let m := all_moved ss (rc_uploader w) in
  ∃ confirmed conflicts q items_ c,
    resolve_cache_versions sha256_checksum report w
    = (Ok (advance report None None None (Some confirmed) (Some conflicts) (Some q) None None (Some items_)),
       set_rc_cache c (set_uploader (answers ss (rc_uploader w)).2 w))
    ∧ cache_ok c
    ∧ (rr_confirmed_entries report ≤ confirmed ∧ rr_conflicts_resolved report ≤ conflicts)%Z
    ∧ ((answers ss (rc_uploader w)).1 = [] → c = rc_cache w)
    ∧ (confirmed + conflicts ≤ rr_confirmed_entries report + rr_conflicts_resolved report + n)%Z
    ∧ ((confirmed + conflicts = rr_confirmed_entries report + rr_conflicts_resolved report + n)%Z →
       unacked_in [] c)
    ∧ (NoDup m → ∀ t r, r ∈ rows_of t (rc_cache w) → (kind_of t, entry_key r) ∉ m →
       ∃ r', r' ∈ rows_of t c ∧ kept_row t m r r').
Proof.
  intros Hc. cbn zeta. unfold resolve_cache_versions, gets. erewrite bind_ok by done.
  rewrite list_cached_all. erewrite bind_ok by done.
  destruct (resolve_loop_spec sha256_checksum (all_statuses (rc_cache w))
    (rr_confirmed_entries report, rr_conflicts_resolved report, rr_quarantined report, rr_quarantine report)
    w Hc (statuses_kinds _)) as ([[[n m] qn] l] & c & Hrun & Hc' & Hmono & Hsame & Hle & Heq & Hkeep).
  rewrite (bind_ok _ _ _ _ _ Hrun). exists n, m, qn, l, c. unfold settled_count in *. cbn in Hle, Heq, Hmono.
  split_and!; [done|done|apply Hmono|apply Hmono|done|done| |done]. apply Heq, all_statuses_unacked.
Qed.

(** Version conflicts lose no payload. If the new versions the server gives are new (not
    cached for their entry, none given twice), then for every row of the cache, whatever the server
    answers about it, the entry has afterwards a row with the same payload, under the same
    version or one of the new ones, and a row that was acknowledged still is. *)
Theorem conflicts_keep_payloads (w : Reconciler U) (report : ReconcileReport)
  (Hc : cache_ok (rc_cache w))
  (Hdistinct : NoDup (all_moved (all_statuses (rc_cache w)) (rc_uploader w)))
  (Hnew : ∀ t r, r ∈ rows_of t (rc_cache w) →
    (kind_of t, entry_key r) ∉ all_moved (all_statuses (rc_cache w)) (rc_uploader w)) :
  ∃ report' w', resolve_cache_versions sha256_checksum report w = (Ok report', w')
  ∧ ∀ t r, r ∈ rows_of t (rc_cache w) → ∃ r', r' ∈ rows_of t (rc_cache w')
      ∧ cr_id r' = cr_id r ∧ cr_payload r' = cr_payload r
      ∧ (cr_state r = StateAcked → cr_state r' = StateAcked)
      ∧ (cr_version r' = cr_version r
         ∨ (kind_of t, entry_key r') ∈ all_moved (all_statuses (rc_cache w)) (rc_uploader w)).
Proof.
  destruct (resolve_spec w report Hc) as (n & m & q & l & c & Hrun & _ & _ & _ & _ & _ & Hkeep).
  do 2 eexists. split; [done|]. intros t r Hr. by apply (Hkeep Hdistinct t r Hr), Hnew.
Qed.

(** Phase 3 only reads. *)
Lemma sweep_loop scripts acc w :
  ∃ acc' u, fold_m sweep_script scripts acc w = (Ok acc', set_uploader u w).
Proof.
  revert acc w. induction scripts as [|s l IH]; intros acc w.
  { exists acc, (rc_uploader w). by destruct w. }
  cbn [fold_m]. assert (∃ acc1 u1, sweep_script s acc w = (Ok acc1, set_uploader u1 w)) as (acc1 & u1 & E).
  { unfold sweep_script. destruct acc as [q items_]. destruct (ss_intact s).
    - unfold try_except, in_uploader, zoom, bind.
      destruct (report_script _ _ _ (rc_uploader w)) as [[b|e] u]; by do 2 eexists.
    - exists (q + 1, items_ ++ [quarantined_script s])%Z, (rc_uploader w). by destruct w. }
  rewrite (bind_ok _ _ _ _ _ E). destruct (IH acc1 (set_uploader u1 w)) as (acc' & u & ->). by exists acc', u.
Qed.

Lemma sweep_scripts_spec report w :
  match list_scripts sha256 json_loads None (rc_scripts w) with
  | Ok _ => ∃ q items_ u, sweep_scripts sha256 json_loads report w =
      (Ok (advance report None None None None None (Some q) None None (Some items_)), set_uploader u w)
  | Raise e => sweep_scripts sha256 json_loads report w = (Raise e, w)
  end.
Proof.
  unfold sweep_scripts, gets. erewrite bind_ok by done.
  destruct (list_scripts _ _ _ _) as [scripts|e]; [|done]. cbn [lift]. erewrite bind_ok by done.
  destruct (sweep_loop scripts (rr_quarantined report, rr_quarantine report) w) as ([q items_] & u & Hrun).
  exists q, items_, u. by rewrite (bind_ok _ _ _ _ _ Hrun).
Qed.

Lemma phase_ok f w r w' : f (rc_report w) w = (Ok r, w') → phase f w = (Ok tt, set_report r w').
Proof. intros H. unfold phase. rewrite bind_get. by rewrite (bind_ok _ _ _ _ _ H). Qed.
Lemma phase_raise f w e w' : f (rc_report w) w = (Raise e, w') → phase f w = (Raise e, w').
Proof. intros H. unfold phase. rewrite bind_get. by rewrite (bind_raise _ _ _ _ _ H). Qed.

(** The two phases before the scripts, which do not raise. *)
Definition started (w : Reconciler U) : Reconciler U :=
  set_report (mkReport (env_now (rc_uploader w)) (env_now (rc_uploader w)) 0 0 0 0 0 0 true []) w.

Definition pass_outcomes (w : Reconciler U) : list Outcome :=
  (outcomes (rc_upload_fn w) (list_pending (rc_queue w)) (rc_uploader w)).1.

(** What the pass of [reconcile] comes to. *)
Record pass_result (w : Reconciler U) (r : ReconcileReport) (w' : Reconciler U) : Prop := {
  ps_last : rc_last_report w' = Some r;
  ps_scripts : rc_scripts w' = rc_scripts w;
  ps_fn : rc_upload_fn w' = rc_upload_fn w;
  ps_ok : rr_ok r = is_ok (list_scripts sha256 json_loads None (rc_scripts w));
  ps_locks : lm_locks (rc_manager w') = if rr_ok r then ∅ else lm_locks (rc_manager w);
  ps_released : rr_locks_released r =
    if rr_ok r then Z.of_nat (dict_len (lm_locks (rc_manager w))) else 0%Z;
  ps_queue : queue_ok (rc_queue w');
  ps_cache : cache_ok (rc_cache w');
  ps_rows : uq_rows (rc_queue w') =
    settled (uq_retention (rc_queue w)) (pass_outcomes w) <$> uq_rows (rc_queue w);
  ps_uploaded : rr_uploaded r = accepted_count (pass_outcomes w);
  ps_acked : rr_acked r = rr_uploaded r;
  ps_settled :
    let u := (outcomes (rc_upload_fn w) (list_pending (rc_queue w)) (rc_uploader w)).2 in
    let n := Z.of_nat (length (answers (all_statuses (rc_cache w)) u).1) in
    (0 ≤ rr_confirmed_entries r ∧ 0 ≤ rr_conflicts_resolved r
     ∧ rr_confirmed_entries r + rr_conflicts_resolved r ≤ n)%Z
    ∧ (n = 0%Z → rc_cache w' = rc_cache w)
    ∧ ((rr_confirmed_entries r + rr_conflicts_resolved r)%Z = n → unacked_in [] (rc_cache w'))
}.

Lemma reconcile_run w :
  queue_ok (rc_queue w) → cache_ok (rc_cache w) →
  ∃ r w', reconcile sha256_checksum sha256 json_loads w = (Ok r, w') ∧ pass_result w r w'.
Proof.
  intros Hq Hc. unfold reconcile, now, gets. erewrite bind_ok by done. erewrite bind_ok by done.
  rewrite bind_unit by done. cbn [modify snd]. fold (started w).
  destruct (flush_spec (started w) (rc_report (started w)) Hq) as (q & E1 & Hq1 & Hrows).
  apply phase_ok in E1. set (w1 := set_report _ _) in E1. cbn [rc_upload_fn rc_uploader rc_queue started set_report] in *.
  destruct (resolve_spec w1 (rc_report w1) Hc) as (n & m & qn & l & c & E2 & Hc2 & Hmono & Hsame & Hle & Heq & _).
  apply phase_ok in E2. set (w2 := set_report _ _) in E2.
  assert (E3 := sweep_scripts_spec (rc_report w2) w2). change (rc_scripts w2) with (rc_scripts w) in E3.
  destruct (list_scripts _ _ _ _) as [scripts|e] eqn:Hl.
  - destruct E3 as (q3 & items3 & u3 & E3). apply phase_ok in E3. set (w3 := set_report _ _) in E3.
    do 2 eexists. split.
    { erewrite bind_ok.
      2: { apply try_except_ok. rewrite (bind_ok _ _ _ _ _ E1), (bind_ok _ _ _ _ _ E2), (bind_ok _ _ _ _ _ E3).
           erewrite bind_ok by done. erewrite bind_ok by done. by apply phase_ok. }
      rewrite bind_get. by rewrite bind_unit. }
    split; [done|done|done|by rewrite Hl|done..|].
    cbn zeta. split; [exact (conj (proj1 Hmono) (conj (proj2 Hmono) Hle))|]. split; [|exact Heq].
    intros En. apply Hsame. apply length_zero_iff_nil, Nat2Z.inj. exact En.
  - apply phase_raise in E3. do 2 eexists. split.
    { erewrite bind_ok.
      2: { erewrite try_except_caught; [|by rewrite (bind_ok _ _ _ _ _ E1), (bind_ok _ _ _ _ _ E2), (bind_raise _ _ _ _ _ E3)|done].
           erewrite bind_ok by done. by apply phase_ok. }
      rewrite bind_get. by rewrite bind_unit. }
    split; [done|done|done|by rewrite Hl|done..|].
    cbn zeta. split; [exact (conj (proj1 Hmono) (conj (proj2 Hmono) Hle))|]. split; [|exact Heq].
    intros En. apply Hsame. apply length_zero_iff_nil, Nat2Z.inj. exact En.
Qed.


(** The cached entries not yet reported. *)
Definition unreported (c : OfflineCacheStore) : Z :=
  Z.of_nat (length (base.filter (λ s, es_state s = StateCached) (all_statuses c))).

Lemma answers_length ss (u : U) :
  length (answers ss u).1 = length (base.filter (λ s, es_state s = StateCached) ss).
Proof.
  revert u. induction ss as [|s ss IH]; intros u; [done|]. cbn [answers]. rewrite filter_cons.
  destruct (decide (es_state s = StateCached)) as [E|E].
  - rewrite bool_decide_eq_false_2 by (intros []; done). destruct (ask_version s u) as [a u1].
    specialize (IH u1). destruct (answers ss u1) as [l u2]. cbn in *. by rewrite IH.
  - rewrite bool_decide_eq_true_2 by done. apply IH.
Qed.

Lemma unacked_none c : unacked_in [] c → unreported c = 0%Z.
Proof.
  intros Hun. unfold unreported. destruct (base.filter _ _) as [|s l] eqn:E; [done|]. exfalso.
  assert (s ∈ base.filter (λ s, es_state s = StateCached) (all_statuses c)) as Hs by (rewrite E; left).
  apply list_elem_of_filter in Hs as [Hst (t & r & Hr & ->)%elem_of_all_statuses].
  by destruct (Hun t r Hr Hst) as (s & ?%elem_of_nil & _).
Qed.

Lemma accepted_all os :
  accepted_count os = Z.of_nat (length os) → ∀ o, o ∈ os → oc_accepted o = true.
Proof.
  induction os as [|o os IH]; intros E o'; [by intros ?%elem_of_nil|]. rewrite accepted_cons in E.
  assert (accepted_count os ≤ Z.of_nat (length os))%Z as Hle.
  { unfold accepted_count. apply inj_le, length_filter. }
  cbn [length] in E. intros [-> |Hin]%elem_of_cons; destruct (oc_accepted o) eqn:Ea; try done; try lia.
  apply IH; [lia|done].
Qed.

(** With every pending record accepted nothing is pending afterwards. *)
Lemma pass_no_pending w r w' :
  queue_ok (rc_queue w) → pass_result w r w' →
  rr_uploaded r = Z.of_nat (length (list_pending (rc_queue w))) → list_pending (rc_queue w') = [].
Proof.
  intros Hq [] E. rewrite ps_uploaded0 in E.
  pose proof (outcomes_records (rc_upload_fn w) (list_pending (rc_queue w)) (rc_uploader w)) as Hos.
  fold (pass_outcomes w) in Hos. rewrite <- Hos, length_fmap in E.
  pose proof (accepted_all _ E) as Hall.
  destruct (list_pending (rc_queue w')) as [|x l] eqn:El; [done|]. exfalso.
  assert (x ∈ list_pending (rc_queue w')) as [Hx Hst]%pending_row by (rewrite El; left).
  rewrite ps_rows0 in Hx. apply list_elem_of_fmap in Hx as (x0 & -> & Hx0). unfold settled in Hst.
  destruct (outcome_of (pass_outcomes w) x0) as [o|] eqn:Eo.
  - apply List.find_some in Eo as [Ho%list_elem_of_In _]. unfold settle_record in Hst. by rewrite (Hall o Ho) in Hst.
  - assert (x0 ∈ list_pending (rc_queue w)) as Hin.
    { apply elem_of_select. split; [done|]. by apply bool_decide_eq_true. }
    rewrite <- Hos in Hin. apply list_elem_of_fmap in Hin as (o & -> & Ho%list_elem_of_In).
    pose proof (List.find_none _ _ Eo o Ho) as Hne. cbn in Hne. by rewrite Z.eqb_refl in Hne.
Qed.

(** C24. A pass of [reconcile] always ends with a report, which it keeps. The report is ok, and
    the locks are released and counted, exactly if the scripts could be listed; otherwise every lock
    is kept. And passes are idempotent: when the first had every pending record accepted and every
    unreported cache entry confirmed or moved, the second uploads, acknowledges, confirms, moves
    nothing and leaves queue and cache as they are, and releases nothing if the first was ok. *)
Theorem reconcile_contract (w : Reconciler U)
  (Hq : queue_ok (rc_queue w)) (Hc : cache_ok (rc_cache w)) :
  ∃ r w', reconcile sha256_checksum sha256 json_loads w = (Ok r, w')
  ∧ rc_last_report w' = Some r
  ∧ rr_ok r = is_ok (list_scripts sha256 json_loads None (rc_scripts w))
  ∧ lm_locks (rc_manager w') = (if rr_ok r then ∅ else lm_locks (rc_manager w))
  ∧ rr_locks_released r = (if rr_ok r then Z.of_nat (dict_len (lm_locks (rc_manager w))) else 0%Z)
  ∧ (rr_uploaded r = Z.of_nat (length (list_pending (rc_queue w))) →
     (rr_confirmed_entries r + rr_conflicts_resolved r)%Z = unreported (rc_cache w) →
     ∃ r2 w2, reconcile sha256_checksum sha256 json_loads w' = (Ok r2, w2)
     ∧ rr_uploaded r2 = 0%Z ∧ rr_acked r2 = 0%Z ∧ rr_confirmed_entries r2 = 0%Z
     ∧ rr_conflicts_resolved r2 = 0%Z ∧ (rr_ok r = true → rr_locks_released r2 = 0%Z)
     ∧ uq_rows (rc_queue w2) = uq_rows (rc_queue w') ∧ rc_cache w2 = rc_cache w').
Proof.
  destruct (reconcile_run w Hq Hc) as (r & w' & Hrun & Hp). exists r, w'.
  split_and!; [done|apply Hp|apply Hp|apply Hp|apply Hp|]. intros Hup Hset.
  destruct (reconcile_run w' (ps_queue _ _ _ Hp) (ps_cache _ _ _ Hp)) as (r2 & w2 & Hrun2 & Hp2).
  assert (pass_outcomes w' = []) as Hos.
  { unfold pass_outcomes. by rewrite (pass_no_pending w r w' Hq Hp Hup). }
  assert (Z.of_nat (length (answers (all_statuses (rc_cache w'))
    (outcomes (rc_upload_fn w') (list_pending (rc_queue w')) (rc_uploader w')).2).1) = 0%Z) as Hn.
  { rewrite answers_length. apply unacked_none. destruct (ps_settled _ _ _ Hp) as (_ & _ & H). apply H.
    by rewrite answers_length. }
  destruct (ps_settled _ _ _ Hp2) as ((? & ? & Hle) & Hsame & _). rewrite Hn in Hle.
  pose proof (ps_uploaded _ _ _ Hp2) as Hup2. rewrite Hos in Hup2. cbn in Hup2.
  exists r2, w2. split_and!; [done|done|by rewrite (ps_acked _ _ _ Hp2)|lia|lia| | |by apply Hsame].
  - intros Hok. rewrite (ps_released _ _ _ Hp2), (ps_locks _ _ _ Hp), Hok. by case_match.
  - rewrite (ps_rows _ _ _ Hp2), Hos. by rewrite list_fmap_id.
Qed.
End pass.

(** ** Examples *)

(** A transport with a clock as its environment: it accepts even sequence numbers, fails on 5,
    refuses the rest; it confirms "v1" and renames "v2". *)
#[local] Instance example_uploader : Uploader Z := {|
  env_now t := t;
  upload_record r t :=
    (if (ur_seq_no r =? 5)%Z then Raise (OtherError "down") else Ok (Z.even (ur_seq_no r)), (t + 1)%Z);
  resolve_version _ _ v _ t :=
    (Ok (if decide (v = "v2") then mkResolution RESOLVE_CONFLICT (Some "v3")
         else mkResolution RESOLVE_CONFIRMED None), (t + 1)%Z);
  report_script _ _ _ t := (Ok true, (t + 1)%Z)
|}.

Definition example_upload_ops : list queue_op :=
  [OpEnqueue "st" "run" 2 "p2" 1; OpEnqueue "st" "run" 5 "p5" 2; OpEnqueue "st" "run" 7 "p7" 3]%Z.

Definition example_reconciler (ops : list queue_op) (cache : list cache_op) : Reconciler Z :=
  mkReconciler (run_ops ops (mkQueue empty_db 100))
    (mkManager (run_cache toy_hash cache empty_store) false
       (PyDict [(("sequence", "s"), mkLock "sequence" "s" "v1" "run1" 10)]))
    ∅ 50%Z None (mkReport 0 0 0 0 0 0 0 0 true []) None.

Definition example_cached : list cache_op :=
  [CStore "sequence" "s" "v1" "old" None 1; CAck "sequence" "s" "v1" None 2;
   CStore "topology" "s" "v2" "new" None 3; CStore "topology" "t" "v1" "top" None 4]%Z.

Lemma example_queue_reachable ops : queue_ok (run_ops ops (mkQueue empty_db 100)).
Proof.
  assert (queue_ok (mkQueue empty_db 100)) as H by (split; cbn; solve [done|constructor]).
  revert H. generalize (mkQueue empty_db 100). induction ops as [|op ops IH]; intros q H; [done|].
  apply IH. by apply run_op_ok.
Qed.

Lemma flush_accounts_witness :
  ∃ q u, (flush_upload_queue (mkReport 0 0 0 0 0 0 0 0 true []) (example_reconciler example_upload_ops example_cached)).2
      = set_queue q (set_uploader u (example_reconciler example_upload_ops example_cached))
    ∧ (λ r, (ur_seq_no r, ur_state r, ur_retries r)) <$> uq_rows q
      = [(2, StAcked, 0); (5, StPending, 1); (7, StPending, 1)]%Z.
Proof.
  destruct (flush_accounts (example_reconciler example_upload_ops example_cached)
    (mkReport 0 0 0 0 0 0 0 0 true []) (example_queue_reachable _)) as (_ & q & H & _ & Hrows & _).
  exists q. eexists. split; [exact (f_equal snd H)|]. rewrite Hrows. vm_compute. reflexivity.
Defined.

Lemma conflicts_keep_payloads_witness :
  ∃ report' w', resolve_cache_versions toy_hash (mkReport 0 0 0 0 0 0 0 0 true [])
      (example_reconciler [] example_cached) = (Ok report', w')
    ∧ (∃ r, r ∈ rows_of Topologies (rc_cache w') ∧ cr_payload r = "new")
    ∧ rr_conflicts_resolved report' = 1%Z.
Proof.
  destruct (conflicts_keep_payloads toy_hash (example_reconciler [] example_cached)
    (mkReport 0 0 0 0 0 0 0 0 true []) (example_cache_ok _)
    ltac:(apply (bool_decide_unpack _); vm_compute; exact I)) as (report' & w' & H & Hkeep).
  { intros t r Hr. destruct t; cbn in Hr; repeat (apply elem_of_cons in Hr as [-> | Hr]; [apply (bool_decide_unpack _); vm_compute; exact I|]);
      by apply elem_of_nil in Hr. }
  exists report', w'. split; [exact H|]. split.
  - destruct (Hkeep Topologies (mkRow 1 "s" "v2" "new" "#new" StateCached 3 None)) as (r' & Hr' & _ & Hp & _).
    { assert (rows_of Topologies (rc_cache (example_reconciler [] example_cached)) =
        [mkRow 1 "s" "v2" "new" "#new" StateCached 3 None; mkRow 2 "t" "v1" "top" "#top" StateCached 4 None]) as ->
        by (vm_compute; reflexivity). left. }
    exists r'. split; [exact Hr'|exact Hp].
  - vm_compute in H. by injection H as <- _.
Defined.

Lemma reconcile_contract_witness :
  ∃ r w', reconcile toy_hash toy_hash bin_loads (example_reconciler [OpEnqueue "st" "run" 2 "p2" 1] example_cached)
      = (Ok r, w')
    ∧ lm_locks (rc_manager w') = ∅ ∧ rr_locks_released r = 1%Z
    ∧ ∃ r2 w2, reconcile toy_hash toy_hash bin_loads w' = (Ok r2, w2) ∧ rr_uploaded r2 = 0%Z.
Proof.
  destruct (reconcile_contract toy_hash toy_hash bin_loads
    (example_reconciler [OpEnqueue "st" "run" 2 "p2" 1] example_cached)
    (example_queue_reachable _) (example_cache_ok _)) as (r & w' & H & _ & Hok & Hl & Hr & H2).
  exists r, w'. rewrite Hok in Hl, Hr. split; [exact H|]. split; [exact Hl|]. split; [exact Hr|].
  destruct H2 as (r2 & w2 & Hrun & Hup & _).
  - vm_compute in H. injection H as <- _. reflexivity.
  - vm_compute in H. injection H as <- _. vm_compute. reflexivity.
  - exists r2, w2. split; [exact Hrun|exact Hup].
Defined.

(** A conflict that names a cached version overwrites it: the acknowledged payload is gone,
    the other one is acknowledged in its place. *)
Example conflict_overwrites_acked :
  let w := example_reconciler [] [CStore "sequence" "s" "v3" "acked" None 1; CAck "sequence" "s" "v3" None 2;
                                  CStore "sequence" "s" "v2" "local" None 3]%Z in
  let w' := (resolve_cache_versions toy_hash (mkReport 0 0 0 0 0 0 0 0 true []) w).2 in
  (λ r, (cr_version r, cr_payload r, cr_state r)) <$> rows_of Sequences (rc_cache w')
  = [("v3", "local", StateAcked)].
Proof. vm_compute. reflexivity. Qed.

(** A crash between the two marks of phase 1: no later pass offers the row again, and no
    purge removes it. *)
Example uploaded_row_stuck :
  let w := example_reconciler [OpEnqueue "st" "run" 2 "p2" 1; OpUploaded 1 2; OpRestart "q.db"]%Z [] in
  let w' := (reconcile toy_hash toy_hash bin_loads w).2 in
  ur_state <$> uq_rows (rc_queue w') = [StUploaded]
  ∧ ur_state <$> uq_rows (purge_expired (Some 1000000%Z) 0 (rc_queue w')).2 = [StUploaded].
Proof. vm_compute. split; reflexivity. Qed.
