(* ===== verification/WaitCycles.v ===== *)
(** * Cycles of a wait-for graph (src/src/ate_platform/simulation/contention.py)

    [_find_cycles] enumerates the elementary cycles of a directed graph by a depth-first
    search with an explicit stack, once from every node. [find_cycles_exact] compares it with
    the definition of an elementary cycle. The order in which a Python set gives its elements
    is a parameter. *)

From S2P Require Import Prelude PyDict PyStr.

(** [min(l)] and [l.index(x)] on strings. *)
Definition str_min (l : list string) : string :=
  match l with
  | [] => ""
  | x :: l' => foldl (λ m y, if decide (String.le m y) then m else y) x l'
  end.
Fixpoint index_of (x : string) (l : list string) : nat :=
  match l with
  | [] => 0
  | y :: l' => if decide (x = y) then 0 else S (index_of x l')
  end.

(** How a set is iterated over. *)
Class SetOrder : Type := {
  set_order : gset string → list string;
  set_order_elements X : set_order X ≡ₚ elements X
}.

Abbreviation graph := (pydict string (gset string)).

(** The list without its second half rotated behind the first: the least node comes first. *)
Definition normalize (path : list string) : list string :=
  let pivot := index_of (str_min path) path in drop pivot path ++ take pivot path.

Section search.
Context {SO : SetOrder} (adjacency : graph).

Abbreviation found := (pydict (list string) (list string)).
Abbreviation stack := (list (string * list string)).

(** One neighbour of the node at the end of [path]; the top of the stack comes first. *)
Definition push_one (start : string) (path : list string) (st : found * stack) (nxt : string) :
    found * stack :=
  if decide (nxt = start) then (set_default (normalize path) (normalize path) st.1, st.2)
  else if decide (nxt ∈ path) then st
  else (st.1, (nxt, path ++ [nxt]) :: st.2).

(** [adjacency.get(node, ())] *)
Definition neighbours (node : string) : list string :=
  match adjacency !! node with Some X => set_order X | None => [] end.

(** The [while] loop; [None] is a lack of fuel. *)
Fixpoint search (fuel : nat) (start : string) (cycles : found) (st : stack) : option found :=
  match fuel with
  | O => None
  | S fuel' =>
      match st with
      | [] => Some cycles
      | (node, path) :: st' =>
          let '(cycles', st'') := foldl (push_one start path) (cycles, st') (neighbours node) in
          search fuel' start cycles' st''
      end
  end.

(** Enough for every start: see [search_from]. *)
Definition nodes : gset string := list_to_set (keys adjacency) ∪ ⋃ (values adjacency).
Definition search_fuel : nat := S ((2 + size nodes) ^ S (size nodes)).

(** [_find_cycles] *)
Definition find_cycles : list (list string) :=
  values (foldl (λ cycles start, default cycles (search search_fuel start cycles [(start, [start])]))
    ∅ (keys adjacency)).

(** ** The reference *)

Definition edge (a b : string) : Prop := ∃ X, adjacency !! a = Some X ∧ b ∈ X.

(** From [a] through [l] to [b]. *)
Fixpoint walk (a : string) (l : list string) (b : string) : Prop :=
  match l with
  | [] => edge a b
  | x :: l' => edge a x ∧ walk x l' b
  end.

(** No node twice, each with an edge to the next and the last with one to the first. *)
Definition elementary (c : list string) : Prop :=
  match c with
  | [] => False
  | x :: l => NoDup c ∧ walk x l x
  end.

(** A cycle is written from its least node on. *)
Definition least_first (c : list string) : Prop :=
  match c with [] => False | x :: l => ∀ y, y ∈ l → String.le x y end.
End search.

(** ** Minima and rotations *)

Section rotation.
Implicit Types (l c : list string).

Lemma str_min_spec x l : str_min (x :: l) ∈ x :: l ∧ ∀ y, y ∈ x :: l → String.le (str_min (x :: l)) y.
Proof.
  cbn [str_min]. revert x. induction l as [|z l IH]; intros x.
  { split; [by left|]. intros y ->%list_elem_of_singleton. cbn. reflexivity. }
  cbn [foldl]. destruct (decide (String.le x z)) as [Hxz|Hxz].
  - destruct (IH x) as [H1 H2]. split; [set_solver|]. intros y Hy.
    rewrite !elem_of_cons in Hy. destruct Hy as [->|[->|Hy]]; [apply H2; set_solver| |apply H2; set_solver].
    transitivity x; [apply H2; set_solver|done].
  - destruct (total String.le x z) as [?|Hzx]; [done|]. destruct (IH z) as [H1 H2]. split; [set_solver|].
    intros y Hy. rewrite !elem_of_cons in Hy. destruct Hy as [->|[->|Hy]]; [|apply H2; set_solver..].
    transitivity z; [apply H2; set_solver|done].
Qed.

Lemma index_of_split x l : x ∈ l → ∃ l', drop (index_of x l) l = x :: l' ∧ x ∉ take (index_of x l) l.
Proof.
  induction l as [|y l IH]; [by intros ?%not_elem_of_nil|]. intros Hx. cbn [index_of].
  destruct (decide (x = y)) as [->|Hxy].
  - exists l. split; [done|]. apply not_elem_of_nil.
  - destruct IH as (l' & Hd & Ht); [set_solver|]. exists l'. cbn [drop take]. set_solver.
Qed.

Lemma normalize_split c :
  c ≠ [] → ∃ p q m, c = p ++ m :: q ∧ normalize c = m :: q ++ p ∧ m ∈ c ∧ ∀ y, y ∈ c → String.le m y.
Proof.
  destruct c as [|x l]; [done|]. intros _. destruct (str_min_spec x l) as [Hin Hle].
  destruct (index_of_split _ _ Hin) as (q & Hd & _).
  exists (take (index_of (str_min (x :: l)) (x :: l)) (x :: l)), q, (str_min (x :: l)).
  split_and!; [|unfold normalize; by rewrite Hd|done..]. rewrite <- Hd. by rewrite take_drop.
Qed.

Lemma normalize_least c : least_first c → normalize c = c.
Proof.
  destruct c as [|x l]; [done|]. cbn [least_first]. intros Hx.
  assert (str_min (x :: l) = x) as Hm.
  { destruct (str_min_spec x l) as [H1 H2]. apply (anti_symm String.le); [apply H2; by left|].
    apply elem_of_cons in H1 as [->|H1]; [reflexivity|by apply Hx]. }
  unfold normalize. rewrite Hm. cbn [index_of]. rewrite decide_True by done. cbn [drop take].
  by rewrite app_nil_r.
Qed.
End rotation.

Lemma lookup_items {K V} `{EqDecision K} (d : pydict K V) k v : d !! k = Some v → (k, v) ∈ items d.
Proof.
  destruct d as [l]. unfold lookup, dict_lookup. cbn [items].
  induction l as [|[k' v'] l IH]; [done|]. cbn [assoc_get].
  case_decide as Hk; [intros [= ->]; subst; by left|right; by apply IH].
Qed.

(** ** Walks *)

Section walks.
Context (adjacency : graph).
Notation walk := (walk adjacency).
Notation edge := (edge adjacency).
Notation elementary := (elementary adjacency).

Lemma walk_app a l m l' b : walk a (l ++ m :: l') b ↔ walk a l m ∧ walk m l' b.
Proof. revert a. induction l as [|x l IH]; intros a; [done|]. cbn. rewrite IH. tauto. Qed.

Lemma elementary_rotate p m q : elementary (p ++ m :: q) ↔ elementary (m :: q ++ p).
Proof.
  destruct p as [|x p]; [by rewrite app_nil_r|]. cbn [app WaitCycles.elementary].
  rewrite walk_app. change (m :: q ++ x :: p) with ((m :: q) ++ x :: p).
  assert ((m :: q) ++ x :: p ≡ₚ x :: p ++ m :: q) as -> by (rewrite Permutation_app_comm; done).
  rewrite walk_app. tauto.
Qed.

Lemma elementary_normalize c : elementary c → elementary (normalize c) ∧ least_first (normalize c).
Proof.
  intros Hc. destruct (normalize_split c) as (p & q & m & -> & Hn & _ & Hm); [by intros ->|].
  rewrite Hn. split; [by apply elementary_rotate|]. intros y Hy. apply Hm. set_solver.
Qed.

(** A list with a repeated element. *)
Lemma repeated {A} `{EqDecision A} (l : list A) :
  ¬ NoDup l → ∃ m p q r, l = p ++ m :: q ++ m :: r.
Proof.
  induction l as [|x l IH]; intros Hl; [by destruct Hl; constructor|].
  destruct (decide (x ∈ l)) as [Hx|Hx].
  - apply list_elem_of_split in Hx as (q & r & ->). by exists x, [], q, r.
  - destruct IH as (m & p & q & r & ->); [intros H; by destruct Hl; constructor|]. by exists m, (x :: p), q, r.
Qed.

Lemma walk_tc a l b : walk a l b → tc edge a b.
Proof.
  revert a. induction l as [|x l IH]; intros a; cbn; [apply tc_once|].
  intros [Hx Hl]. eapply tc_l; [exact Hx|by apply IH].
Qed.

Lemma tc_walk a b : tc edge a b → ∃ l, walk a l b.
Proof.
  induction 1 as [a b H|a x b H _ [l Hl]]; [by exists []|]. by exists (x :: l).
Qed.

(** A closed walk contains an elementary cycle. *)
Lemma closed_walk_cycle n : ∀ a l, length l < n → walk a l a → ∃ c, elementary c.
Proof.
  induction n as [|n IH]; intros a l Hn Hw; [lia|].
  destruct (decide (NoDup (a :: l))) as [Hnd|Hnd]; [by exists (a :: l)|].
  apply repeated in Hnd as (m & p & q & r & Heq).
  assert (∃ l', length l' < length l ∧ walk m l' m) as (l' & Hl' & Hw').
  { destruct p as [|x p]; simplify_eq/=.
    - exists q. apply walk_app in Hw as [Hw _]. rewrite length_app. cbn. split; [lia|done].
    - exists q. rewrite walk_app, walk_app in Hw. rewrite !length_app. cbn. rewrite length_app. cbn.
      split; [lia|apply Hw]. }
  apply (IH m l'); [lia|done].
Qed.

Lemma cycle_iff_tc : (∃ c, elementary c ∧ least_first c) ↔ ∃ a, tc edge a a.
Proof.
  split.
  - intros ([|a l] & He & _); [done|]. destruct He as [_ He]. exists a. by eapply walk_tc.
  - intros (a & [l Hl]%tc_walk). destruct (closed_walk_cycle (S (length l)) a l) as [c Hc]; [lia|done|].
    exists (normalize c). by apply elementary_normalize.
Qed.

Lemma normalize_perm c : normalize c ≡ₚ c.
Proof.
  unfold normalize. rewrite Permutation_app_comm. by rewrite take_drop.
Qed.
End walks.

(** ** The search *)

Section search_lemmas.
Context {SO : SetOrder} (adjacency : graph).
Notation walk := (walk adjacency).
Notation edge := (edge adjacency).
Notation elementary := (elementary adjacency).
Notation neighbours := (neighbours adjacency).

Lemma elem_of_neighbours a b : b ∈ neighbours a ↔ edge a b.
Proof.
  unfold WaitCycles.neighbours, WaitCycles.edge. destruct (adjacency !! a) as [X|].
  - rewrite set_order_elements, elem_of_elements. naive_solver.
  - split; [by intros ?%not_elem_of_nil|naive_solver].
Qed.

Lemma NoDup_neighbours a : NoDup (neighbours a).
Proof.
  unfold WaitCycles.neighbours. destruct (adjacency !! a) as [X|]; [|constructor].
  rewrite set_order_elements. apply NoDup_elements.
Qed.

Definition fresh (start : string) (path : list string) (nxt : string) : Prop :=
  nxt ≠ start ∧ nxt ∉ path.
#[local] Instance fresh_dec start path nxt : Decision (fresh start path nxt).
Proof. unfold fresh. apply _. Defined.

Definition record (start : string) (path l : list string) (cycles : pydict (list string) (list string)) :=
  if decide (start ∈ l) then set_default (normalize path) (normalize path) cycles else cycles.
Definition pushed (start : string) (path l : list string) : list (string * list string) :=
  (λ nxt, (nxt, path ++ [nxt])) <$> base.filter (fresh start path) l.

Lemma set_default_idem {K V} `{EqDecision K} (k : K) (v w : V) (d : pydict K V) :
  set_default k w (set_default k v d) = set_default k v d.
Proof.
  unfold set_default at 1. rewrite dict_lookup_set_default, decide_True by done.
  by destruct (d !! k).
Qed.

Lemma push_all start path l : ∀ cycles st,
  foldl (push_one start path) (cycles, st) l
  = (record start path l cycles, reverse (pushed start path l) ++ st).
Proof.
  induction l as [|x l IH]; intros cycles st; [done|].
  cbn [foldl]. unfold push_one at 2, record, pushed. rewrite filter_cons. cbn [fst snd].
  destruct (decide (x = start)) as [->|Hs].
  - rewrite (decide_False (P := fresh _ _ _)) by (by intros [? _]).
    rewrite IH. rewrite (decide_True (P := start ∈ start :: l)) by (by left). f_equal.
    unfold record. case_decide; [apply set_default_idem|done].
  - destruct (decide (x ∈ path)) as [Hp|Hp].
    + rewrite (decide_False (P := fresh _ _ _)) by (by intros [_ ?]). rewrite IH. f_equal.
      unfold record. by rewrite (decide_ext (start ∈ l) (start ∈ x :: l)) by set_solver.
    + rewrite (decide_True (P := fresh _ _ _)) by done. rewrite IH, fmap_cons, reverse_cons, <- app_assoc. f_equal.
      unfold record. by rewrite (decide_ext (start ∈ l) (start ∈ x :: l)) by set_solver.
Qed.

(** *** Fuel *)

Definition trail (start node : string) (path : list string) : Prop :=
  NoDup path ∧
  ((path = [start] ∧ node = start) ∨ ∃ l, path = start :: l ++ [node] ∧ walk start l node).

Lemma edge_nodes a b : edge a b → b ∈ nodes adjacency.
Proof.
  intros (X & HX & Hb). unfold nodes. apply elem_of_union_r, elem_of_union_list. exists X.
  split; [|done]. apply list_elem_of_fmap. exists (a, X). split; [done|]. by apply lookup_items.
Qed.

Lemma trail_nodes start node path :
  trail start node path → list_to_set path ⊆ ({[start]} ∪ nodes adjacency : gset string).
Proof.
  intros [_ [[-> _]|(l & -> & Hw)]]; [set_solver|].
  assert (∀ a, walk a l node → ∀ y, y ∈ l ++ [node] → y ∈ nodes adjacency) as H.
  { clear. induction l as [|x l IH]; intros a; cbn [WaitCycles.walk app]; intros Hw y Hy.
    - apply list_elem_of_singleton in Hy as ->. by eapply edge_nodes.
    - destruct Hw as [Hx Hw]. apply elem_of_cons in Hy as [->|Hy]; [by eapply edge_nodes|by eapply IH]. }
  intros y. rewrite elem_of_list_to_set, elem_of_cons. intros [->|Hy]; [set_solver|].
  apply elem_of_union_r. by apply (H start).
Qed.

Lemma trail_push start node path nxt :
  trail start node path → edge node nxt → fresh start path nxt → trail start nxt (path ++ [nxt]).
Proof.
  intros [Hnd Hp] He [_ Hf]. split.
  { apply NoDup_app. split_and!; [done| |apply NoDup_singleton].
    intros y Hy ->%list_elem_of_singleton. by apply Hf. }
  right. destruct Hp as [[-> ->]|(l & -> & Hw)]; [exists []; split; [reflexivity|exact He]|].
  exists (l ++ [node]). split; [done|]. by apply walk_app.
Qed.

(** A trail that closes is an elementary cycle. *)
Lemma trail_cycle start node path : trail start node path → edge node start → elementary path.
Proof.
  intros [Hnd [[-> ->]|(l & -> & Hw)]] He; [done|]. split; [done|]. by apply walk_app.
Qed.

Lemma trail_extend start node path rest :
  trail start node path → elementary (path ++ rest) →
  match rest with [] => edge node start | y :: _ => edge node y ∧ fresh start path y end.
Proof.
  intros [_ [[-> ->]|(l & -> & Hw)]] He.
  - destruct rest as [|y rest]; [apply He|]. destruct He as [Hnd [He _]]. split; [done|].
    apply NoDup_cons in Hnd as [Hy _]. unfold fresh. set_solver.
  - cbn [app] in He. destruct He as [Hnd He]. rewrite <- app_assoc in He. cbn [app] in He.
    apply walk_app in He as [_ He]. destruct rest as [|y rest]; [apply He|].
    destruct He as [He _]. split; [done|]. rewrite app_comm_cons in Hnd.
    apply NoDup_app in Hnd as (_ & Hd & _). unfold fresh. split; [intros ->; apply (Hd start)|]; set_solver.
Qed.

(** The weight of a stack: each entry counts for what its trail may still grow to. *)
Definition weight (e : string * list string) : nat :=
  (2 + size (nodes adjacency)) ^ (S (size (nodes adjacency)) - length e.2).

Lemma length_trail start node path : trail start node path → length path ≤ S (size (nodes adjacency)).
Proof.
  intros Ht. pose proof (trail_nodes _ _ _ Ht) as Hs. destruct Ht as [Hnd _].
  apply subseteq_size in Hs. rewrite size_list_to_set in Hs by done.
  pose proof (size_union_alt ({[start]} : gset string) (nodes adjacency)) as Hu.
  rewrite size_singleton in Hu.
  assert (size (nodes adjacency ∖ {[start]}) ≤ size (nodes adjacency)) by (apply subseteq_size; set_solver).
  lia.
Qed.

Lemma pushed_length start node path : length (pushed start path (neighbours node)) ≤ size (nodes adjacency).
Proof.
  unfold pushed. rewrite length_fmap.
  assert (NoDup (base.filter (fresh start path) (neighbours node))) as Hnd by apply NoDup_filter, NoDup_neighbours.
  rewrite <- (size_list_to_set (C := gset string)) by done. apply subseteq_size.
  intros y. rewrite elem_of_list_to_set, list_elem_of_filter, elem_of_neighbours. intros [_ Hy].
  by eapply edge_nodes.
Qed.

Lemma pushed_trail start node path e :
  trail start node path → e ∈ pushed start path (neighbours node) → trail start e.1 e.2.
Proof.
  intros Ht. unfold pushed. intros (y & -> & Hy)%list_elem_of_fmap.
  apply list_elem_of_filter in Hy as [Hf Hy]. apply elem_of_neighbours in Hy. by eapply trail_push.
Qed.

Lemma pushed_weight start node path :
  trail start node path →
  sum_list_with weight (pushed start path (neighbours node)) < weight (node, path).
Proof.
  intros Ht. pose proof (length_trail _ _ _ Ht) as Hl. pose proof (pushed_length start node path) as Hn.
  assert (∀ e, e ∈ pushed start path (neighbours node) →
    weight e = (2 + size (nodes adjacency)) ^ (size (nodes adjacency) - length path)
    ∧ length path ≤ size (nodes adjacency)) as Hw.
  { intros e He. pose proof (length_trail _ _ _ (pushed_trail _ _ _ _ Ht He)) as He2.
    unfold pushed in He. apply list_elem_of_fmap in He as (y & -> & _). unfold weight in *. cbn [snd] in *.
    rewrite length_app in *. cbn [length] in *. split; [f_equal; lia|lia]. }
  destruct (pushed start path (neighbours node)) as [|e0 l] eqn:Ep.
  { cbn. unfold weight. apply Nat.neq_0_lt_0, Nat.pow_nonzero. lia. }
  destruct (Hw e0) as [_ Hlen]; [by left|].
  assert (sum_list_with weight (e0 :: l)
    = length (e0 :: l) * (2 + size (nodes adjacency)) ^ (size (nodes adjacency) - length path)) as ->.
  { rewrite <- Ep in *. clear Ep Hn. generalize dependent (pushed start path (neighbours node)).
    intros k Hk. induction k as [|e k IH]; [done|]. cbn [sum_list_with length].
    rewrite IH by (intros; apply Hk; by right). destruct (Hk e) as [-> _]; [by left|]. lia. }
  unfold weight. cbn [snd].
  replace (S (size (nodes adjacency)) - length path) with (S (size (nodes adjacency) - length path)) by lia.
  rewrite Nat.pow_succ_r'.
  assert (0 < (2 + size (nodes adjacency)) ^ (size (nodes adjacency) - length path))
    by (apply Nat.neq_0_lt_0, Nat.pow_nonzero; lia).
  nia.
Qed.

(** *** What the search finds *)

(** Cycles are recorded once, under themselves. *)
Definition good_found (cycles : pydict (list string) (list string)) : Prop :=
  dict_wf cycles ∧ ∀ kv, kv ∈ items cycles → kv.1 = kv.2 ∧ elementary kv.1 ∧ least_first kv.1.

Lemma record_good start node path cycles :
  trail start node path → good_found cycles → good_found (record start path (neighbours node) cycles).
Proof.
  intros Ht [Hwf Hg]. unfold record. case_decide as Hs; [|done].
  apply elem_of_neighbours in Hs. split; [by apply dict_wf_set_default|]. intros [k v] Hkv.
  apply elem_of_items in Hkv; [|by apply dict_wf_set_default].
  rewrite dict_lookup_set_default in Hkv. case_decide as Hk.
  - subst k. injection Hkv as <-. unfold get_default.
    destruct (cycles !! normalize path) as [w|] eqn:Ew; cbn [default].
    + apply (Hg (normalize path, w)). by apply elem_of_items.
    + split; [done|]. by apply elementary_normalize, (trail_cycle start node).
  - apply (Hg (k, v)). by apply elem_of_items.
Qed.

Lemma record_keys start path l cycles k :
  k ∈ keys (record start path l cycles) ↔ k ∈ keys cycles ∨ (start ∈ l ∧ k = normalize path).
Proof.
  unfold record. case_decide; [|naive_solver]. rewrite !elem_of_keys, dict_lookup_set_default.
  case_decide; [|naive_solver]. subst. split; [naive_solver|]. intros _. by eexists.
Qed.

Lemma search_spec start fuel : ∀ cycles st,
  Forall (λ e, trail start e.1 e.2) st → sum_list_with weight st < fuel → good_found cycles →
  ∃ cycles', search adjacency fuel start cycles st = Some cycles' ∧ good_found cycles'
    ∧ (∀ k, k ∈ keys cycles → k ∈ keys cycles')
    ∧ ∀ e rest, e ∈ st → elementary (e.2 ++ rest) → normalize (e.2 ++ rest) ∈ keys cycles'.
Proof.
  induction fuel as [|fuel IH]; intros cycles st Hst Hw Hg; [lia|]. cbn [search].
  destruct st as [|[node path] st].
  { exists cycles. split_and!; try done. by intros e rest ?%not_elem_of_nil. }
  apply Forall_cons in Hst as [Ht Hst]. cbn [fst snd] in Ht. rewrite push_all.
  destruct (IH (record start path (neighbours node) cycles)
    (reverse (pushed start path (neighbours node)) ++ st)) as (cycles' & Hs & Hg' & Hk & Hc).
  - apply Forall_app. split; [|done]. apply Forall_forall. intros e He.
    rewrite elem_of_reverse in He. by eapply pushed_trail.
  - rewrite sum_list_with_app, sum_list_with_reverse. cbn [sum_list_with] in Hw.
    pose proof (pushed_weight _ _ _ Ht). lia.
  - by apply record_good.
  - exists cycles'. split_and!; [done|done| |].
    + intros k Hkk. apply Hk, record_keys. by left.
    + intros e rest He Hel. apply elem_of_cons in He as [->|He].
      * cbn [snd] in *. pose proof (trail_extend _ _ _ _ Ht Hel) as Hx. destruct rest as [|y rest].
        -- rewrite app_nil_r. apply Hk, record_keys. right. split; [by apply elem_of_neighbours|done].
        -- destruct Hx as [He Hf].
           replace (path ++ y :: rest) with ((y, path ++ [y]).2 ++ rest) in * by (cbn; by rewrite <- app_assoc).
           apply Hc; [|done]. apply elem_of_app. left. apply elem_of_reverse.
           unfold pushed. apply list_elem_of_fmap. exists y. split; [done|].
           apply list_elem_of_filter. split; [done|]. by apply elem_of_neighbours.
      * apply Hc; [|done]. apply elem_of_app. by right.
Qed.

Lemma search_from start cycles :
  good_found cycles →
  ∃ cycles', search adjacency (search_fuel adjacency) start cycles [(start, [start])] = Some cycles'
    ∧ good_found cycles' ∧ (∀ k, k ∈ keys cycles → k ∈ keys cycles')
    ∧ ∀ l, elementary (start :: l) → normalize (start :: l) ∈ keys cycles'.
Proof.
  intros Hg. destruct (search_spec start (search_fuel adjacency) cycles [(start, [start])])
    as (cycles' & Hs & Hg' & Hk & Hc).
  - apply Forall_singleton. split; [apply NoDup_singleton|by left].
  - cbn [sum_list_with]. unfold search_fuel, weight. cbn [snd length].
    assert ((2 + size (nodes adjacency)) ^ (S (size (nodes adjacency)) - 1)
      ≤ (2 + size (nodes adjacency)) ^ S (size (nodes adjacency))) by (apply Nat.pow_le_mono_r; lia).
    lia.
  - done.
  - exists cycles'. split_and!; try done. intros l Hl. apply (Hc (start, [start]) l); [by left|done].
Qed.

Lemma searches starts : ∀ cycles,
  good_found cycles →
  let cycles' := foldl (λ cycles start,
    default cycles (search adjacency (search_fuel adjacency) start cycles [(start, [start])])) cycles starts in
  good_found cycles' ∧ (∀ k, k ∈ keys cycles → k ∈ keys cycles')
  ∧ ∀ start l, start ∈ starts → elementary (start :: l) → normalize (start :: l) ∈ keys cycles'.
Proof.
  induction starts as [|s starts IH]; intros cycles Hg; cbn [foldl].
  { split_and!; try done. by intros start l ?%not_elem_of_nil. }
  destruct (search_from s cycles Hg) as (c1 & -> & Hg1 & Hk1 & Hc1). cbn [default].
  destruct (IH c1 Hg1) as (Hg2 & Hk2 & Hc2). split_and!; [done|by auto|].
  intros start l Hin Hl. apply elem_of_cons in Hin as [->|Hin]; [by apply Hk2, Hc1|by apply Hc2].
Qed.

Lemma find_cycles_spec c :
  c ∈ find_cycles adjacency ↔ elementary c ∧ least_first c.
Proof.
  unfold find_cycles. destruct (searches (keys adjacency) ∅) as ([Hwf Hg] & _ & Hc).
  { split; [apply dict_wf_empty|]. by intros kv ?%not_elem_of_nil. }
  set (cycles := foldl _ ∅ _) in *. unfold values. rewrite list_elem_of_fmap. split.
  - intros ([k v] & -> & Hkv). destruct (Hg _ Hkv) as (Heq & H). cbn in *. by subst.
  - intros [He Hl]. destruct c as [|x l]; [done|].
    assert (x ∈ keys adjacency) as Hx.
    { destruct He as [_ He]. apply elem_of_keys. destruct l as [|y l]; destruct He as (X & HX & _) || destruct He as [(X & HX & _) _]; eauto. }
    specialize (Hc x l Hx He). rewrite normalize_least in Hc by done.
    unfold keys in Hc. apply list_elem_of_fmap in Hc as ([k v] & Hk & Hkv).
    exists (k, v). split; [|done]. destruct (Hg _ Hkv) as [Hkk _]. cbn in *. congruence.
Qed.

Lemma NoDup_find_cycles : NoDup (find_cycles adjacency).
Proof.
  unfold find_cycles. destruct (searches (keys adjacency) ∅) as ([Hwf Hg] & _ & _).
  { split; [apply dict_wf_empty|]. by intros kv ?%not_elem_of_nil. }
  set (cycles := foldl _ ∅ _) in *. unfold values, dict_wf, keys in *.
  assert ((items cycles).*2 = (items cycles).*1) as ->; [|done].
  apply Forall_fmap_ext_1, Forall_forall. intros kv Hkv. symmetry. by apply Hg.
Qed.
End search_lemmas.

(** C37. The enumeration of cycles, for every graph: it ends, and it lists exactly the elementary
    cycles, those that visit no node twice, each once, written from its least node on; whatever
    the order in which the sets of neighbours are iterated over. *)
Theorem find_cycles_exact `{SetOrder} (adjacency : graph) :
  (∀ start cycles, good_found adjacency cycles →
     is_Some (search adjacency (search_fuel adjacency) start cycles [(start, [start])]))
  ∧ NoDup (find_cycles adjacency)
  ∧ ∀ c, c ∈ find_cycles adjacency ↔ elementary adjacency c ∧ least_first c.
Proof.
  split_and!; [|apply NoDup_find_cycles|apply find_cycles_spec].
  intros start cycles Hg. destruct (search_from adjacency start cycles Hg) as (c & -> & _). by eexists.
Qed.

(** ** Examples *)

#[export] Instance sorted_sets : SetOrder := {|
  set_order X := py_sorted (elements X);
  set_order_elements X := py_sorted_perm (elements X)
|}.

Definition triangle : graph :=
  PyDict [("a", {["b"; "c"]}); ("b", {["c"; "a"]}); ("c", {["a"; "b"]})].

(** Two cycles through the same three nodes are two cycles. *)
Example triangle_cycles :
  find_cycles triangle = [["a"; "c"]; ["a"; "c"; "b"]; ["a"; "b"]; ["a"; "b"; "c"]; ["b"; "c"]].
Proof. vm_compute. reflexivity. Qed.
