(* ===== verification/Contention.v ===== *)
(** * Contention on resources (src/src/ate_platform/simulation/contention.py)

    [ResourceContentionAnalyzer] replays a stream of lock events, refuses the streams no locks
    can produce, and reports waiting and holding times and the deadlocks: cycles of owners that
    wait for one another (WaitCycles.v). Times are ticks: [ticks] is [float(ts)] of a number.
    Bucket labels and means are left out. *)

From S2P Require Import Prelude PyDict PyStr WaitCycles.

Class Times : Type := {
  ticks : pyval → Z;
  show_ts : Z → string
}.

(** ** Data *)

Inductive LockEvent : Type := Wait | Acquire | Release.

#[export] Instance LockEvent_eq_dec : EqDecision LockEvent.
Proof. solve_decision. Defined.

(** [_TYPE_ALIASES] *)
Definition TYPE_ALIASES : pydict string LockEvent :=
  PyDict [("wait", Wait); ("lock_wait", Wait); ("wait_start", Wait);
          ("acquire", Acquire); ("lock_acquire", Acquire); ("acquired", Acquire);
          ("release", Release); ("lock_release", Release); ("released", Release)].

(** A normalized event: time, kind, resource, owner. *)
Record NormalEvent : Type := mkNormal {
  ne_ts : Z;
  ne_kind : LockEvent;
  ne_resource : string;
  ne_owner : string
}.

(** A row of the gantt chart; no end when it is open at the end of the stream. *)
Record GanttRow : Type := mkRow {
  gr_resource : string;
  gr_owner : string;
  gr_start : Z;
  gr_end : option Z;
  gr_wait : bool        (* "wait" or "hold" *)
}.

Record DeadlockEdge : Type := mkEdge {
  de_waiter : string;
  de_waits_for : string;
  de_held_by : string
}.

Record Deadlock : Type := mkDeadlock {
  dl_detected_at_ts : Z;
  dl_cycle_owners : list string;
  dl_involved_resources : list string;
  dl_edges : list DeadlockEdge
}.

Record ReplayState : Type := mkReplay {
  holders : pydict string string;
  open_holds : pydict string (string * Z);
  open_waits : pydict (string * string) Z;
  concurrent_waiters : pydict string Z;
  wait_samples : pydict string (list Z);
  hold_samples : pydict string (list Z);
  acquire_count : pydict string Z;
  release_count : pydict string Z;
  peak_waiters : pydict string Z;
  gantt : list GanttRow;
  deadlocks : list Deadlock;
  seen_cycles : gset (gset string)
}.

Definition new_replay : ReplayState := mkReplay ∅ ∅ ∅ ∅ ∅ ∅ ∅ ∅ ∅ [] [] ∅.

(** [d.setdefault(k, []).append(v)] and [d[k] = d.get(k, 0) + n] *)
Definition append_at (k : string) (v : Z) (d : pydict string (list Z)) : pydict string (list Z) :=
  <[k := get_default k [] d ++ [v]]> d.
Definition add_at (k : string) (n : Z) (d : pydict string Z) : pydict string Z :=
  <[k := (get_default k 0 d + n)%Z]> d.

Definition event_error (idx : nat) (msg : string) : exc :=
  ValueError ("event #" +:+ pretty idx +:+ ": " +:+ msg).

Section analyzer.
Context {SO : SetOrder} {TM : Times}.

(** ** Normalization *)

Fixpoint map_get (k : string) (l : list (pyval * pyval)) : option pyval :=
  match l with
  | [] => None
  | (PyStr k', v) :: l' => if decide (k = k') then Some v else map_get k l'
  | _ :: l' => map_get k l'
  end.

(** [_first_of] *)
Definition first_of (event : list (pyval * pyval)) (ks : list string) : pyval :=
  default PyNone (head (omap (λ k, map_get k event) ks)).

Definition is_number (v : pyval) : bool :=
  match v with PyInt _ | PyFloat _ => true | _ => false end.

(** [_normalize] *)
Definition normalize_event (idx : nat) (event : pyval) : res NormalEvent :=
  match event with
  | PyMap l =>
      let raw_type := first_of l ["type"; "event_type"] in
      match as_str raw_type ≫= λ s, TYPE_ALIASES !! s with
      | None =>
          Raise (event_error idx ("unknown event type " +:+ py_repr raw_type +:+ " - valid types: "
            +:+ str_join ", " (py_sorted (keys TYPE_ALIASES))))
      | Some kind =>
          let ts := first_of l ["ts"; "t"; "time"] in
          let resource := first_of l ["resource"; "resource_id"] in
          let owner := first_of l ["owner"; "owner_id"] in
          if negb (is_number ts) then
            Raise (event_error idx ("'ts' must be a number, got " +:+ py_repr ts))
          else if negb (py_bool resource) || negb (py_bool owner) then
            Raise (event_error idx ("'resource'/'owner' must be non-empty strings, got "
              +:+ py_repr resource +:+ "/" +:+ py_repr owner))
          else Ok (mkNormal (ticks ts) kind (py_str resource) (py_str owner))
      end
  | _ => Raise (event_error idx ("expected a mapping, got " +:+ type_name event))
  end.

(** ** Replay *)

(** [_apply_wait] *)
Definition apply_wait (idx : nat) (ts : Z) (resource owner : string) (s : ReplayState) :
    res ReplayState :=
  if has_key (resource, owner) (open_waits s) then
    Raise (event_error idx ("owner '" +:+ owner +:+ "' is already waiting for '" +:+ resource
      +:+ "' - resolve the previous wait first"))
  else
    let waiters := add_at resource 1 (concurrent_waiters s) in
    Ok (mkReplay (holders s) (open_holds s) (<[(resource, owner) := ts]> (open_waits s)) waiters
      (wait_samples s) (hold_samples s) (acquire_count s) (release_count s)
      (<[resource := Z.max (get_default resource 0%Z (peak_waiters s)) (get_default resource 0%Z waiters)]>
         (peak_waiters s))
      (gantt s) (deadlocks s) (seen_cycles s)).

(** [_apply_acquire] *)
Definition apply_acquire (idx : nat) (ts : Z) (resource owner : string) (s : ReplayState) :
    res ReplayState :=
  match holders s !! resource with
  | Some current =>
      if decide (current = owner) then
        Raise (event_error idx ("owner '" +:+ owner +:+ "' already holds '" +:+ resource +:+ "'"))
      else
        Raise (event_error idx ("'" +:+ resource +:+ "' is held by '" +:+ current +:+ "' but owner '"
          +:+ owner +:+ "' acquired it - mutual exclusion violated"))
  | None =>
      let holders' := <[resource := owner]> (holders s) in
      let open_holds' := <[resource := (owner, ts)]> (open_holds s) in
      let acquired := add_at resource 1 (acquire_count s) in
      match open_waits s !! (resource, owner) with
      | Some since =>
          Ok (mkReplay holders' open_holds' (delete (resource, owner) (open_waits s))
            (add_at resource (-1) (concurrent_waiters s))
            (append_at resource (ts - since) (wait_samples s)) (hold_samples s) acquired
            (release_count s) (peak_waiters s)
            (gantt s ++ [mkRow resource owner since (Some ts) true]) (deadlocks s) (seen_cycles s))
      | None =>
          Ok (mkReplay holders' open_holds' (open_waits s) (concurrent_waiters s) (wait_samples s)
            (hold_samples s) acquired (release_count s) (peak_waiters s) (gantt s) (deadlocks s)
            (seen_cycles s))
      end
  end.

(** [_apply_release] *)
Definition apply_release (idx : nat) (ts : Z) (resource owner : string) (s : ReplayState) :
    res ReplayState :=
  let refused :=
    Raise (event_error idx ("cannot release '" +:+ resource +:+ "' as '" +:+ owner
      +:+ "' (holder: '" +:+ default "None" (holders s !! resource)
      +:+ "') - release without matching acquire")) in
  match open_holds s !! resource with
  | None => refused
  | Some (holder, since) =>
      if decide (holder = owner) then
        Ok (mkReplay (delete resource (holders s)) (delete resource (open_holds s)) (open_waits s)
          (concurrent_waiters s) (wait_samples s) (append_at resource (ts - since) (hold_samples s))
          (acquire_count s) (add_at resource 1 (release_count s)) (peak_waiters s)
          (gantt s ++ [mkRow resource owner since (Some ts) false]) (deadlocks s) (seen_cycles s))
      else refused
  end.

Definition apply_event (idx : nat) (e : NormalEvent) (s : ReplayState) : res ReplayState :=
  match ne_kind e with
  | Wait => apply_wait idx (ne_ts e) (ne_resource e) (ne_owner e) s
  | Acquire => apply_acquire idx (ne_ts e) (ne_resource e) (ne_owner e) s
  | Release => apply_release idx (ne_ts e) (ne_resource e) (ne_owner e) s
  end.

(** ** Deadlocks *)

Definition add_wait (holding : pydict string string) (g : graph * pydict (string * string) (string * string))
    (w : string * string) : graph * pydict (string * string) (string * string) :=
  match holding !! w.1 with
  | None => g
  | Some held_by =>
      (<[w.2 := {[held_by]} ∪ get_default w.2 ∅ g.1]> g.1, <[(w.2, held_by) := (w.1, w.2)]> g.2)
  end.

(** [adjacency] and [edge_detail]: for an edge, the resource and the waiter. *)
Definition wait_edges (s : ReplayState) : graph * pydict (string * string) (string * string) :=
  foldl (add_wait (holders s)) (∅, ∅) (keys (open_waits s)).
Definition wait_graph (s : ReplayState) : graph := (wait_edges s).1.

(** The edges between members of the cycle; every edge of the graph has its detail. *)
Definition cycle_edges (g : graph * pydict (string * string) (string * string)) (cycle : list string) :
    list DeadlockEdge :=
  node ← cycle;
  omap (λ nxt, if decide (nxt ∈ cycle) then
                 (λ d, mkEdge d.2 d.1 nxt) <$> g.2 !! (node, nxt)
               else None) (neighbours g.1 node).

Definition report_cycle (g : graph * pydict (string * string) (string * string)) (ts : Z)
    (st : list Deadlock * gset (gset string)) (cycle : list string) :
    list Deadlock * gset (gset string) :=
  let key : gset string := list_to_set cycle in
  if decide (key ∈ st.2) then st
  else
    let edges := cycle_edges g cycle in
    (st.1 ++ [mkDeadlock ts cycle (py_sorted (elements (list_to_set (de_waits_for <$> edges) : gset string)))
                edges],
     {[key]} ∪ st.2).

(** [_detect_deadlocks] *)
Definition detect_deadlocks (ts : Z) (s : ReplayState) : ReplayState :=
  let g := wait_edges s in
  let live := find_cycles g.1 in
  let '(found, seen) := foldl (report_cycle g ts) (deadlocks s, seen_cycles s) live in
  mkReplay (holders s) (open_holds s) (open_waits s) (concurrent_waiters s) (wait_samples s)
    (hold_samples s) (acquire_count s) (release_count s) (peak_waiters s) (gantt s) found
    (seen ∩ list_to_set (list_to_set <$> live)).

(** One turn of the loop of [analyze]. *)
Definition replay_event (idx : nat) (e : NormalEvent) (p : option Z * ReplayState) :
    res (option Z * ReplayState) :=
  match p.1 with
  | Some prev =>
      if (ne_ts e <? prev)%Z then
        Raise (event_error idx ("ts " +:+ show_ts (ne_ts e) +:+ " goes backwards (previous "
          +:+ show_ts prev +:+ ") - lock event streams must be non-decreasing"))
      else s ← apply_event idx e p.2; Ok (Some (ne_ts e), detect_deadlocks (ne_ts e) s)
  | None => s ← apply_event idx e p.2; Ok (Some (ne_ts e), detect_deadlocks (ne_ts e) s)
  end.

Fixpoint replay_from (idx : nat) (l : list NormalEvent) (p : option Z * ReplayState) :
    res (option Z * ReplayState) :=
  match l with
  | [] => Ok p
  | e :: l' => p' ← replay_event idx e p; replay_from (S idx) l' p'
  end.

Definition replay (l : list NormalEvent) : res (option Z * ReplayState) :=
  replay_from 0 l (None, new_replay).

(** ** The report *)

(** [_close_open_intervals]: the waits left, earliest first; the rows of what is open. *)
Record OpenWait : Type := mkOpen { ow_owner : string; ow_resource : string; ow_since : Z }.

Definition earlier (a b : OpenWait) : Prop :=
  (ow_since a < ow_since b)%Z ∨ (ow_since a = ow_since b ∧ String.le (ow_owner a) (ow_owner b)).
#[local] Instance earlier_dec : RelDecision earlier.
Proof. unfold RelDecision, earlier. apply _. Defined.
Definition row_before (a b : GanttRow) : Prop := (gr_start a <= gr_start b)%Z.
#[local] Instance row_before_dec : RelDecision row_before.
Proof. unfold RelDecision, row_before. apply _. Defined.

Definition close_open_intervals (s : ReplayState) : list GanttRow * list OpenWait :=
  let unresolved := stable_sort earlier
    ((λ kv, mkOpen kv.1.2 kv.1.1 kv.2) <$> items (open_waits s)) in
  let waits := (λ w, mkRow (ow_resource w) (ow_owner w) (ow_since w) None true) <$> unresolved in
  let holds := (λ kv, mkRow kv.1 kv.2.1 kv.2.2 None false) <$> items (open_holds s) in
  (stable_sort row_before (gantt s ++ waits ++ holds), unresolved).

(** A bound of a bucket; [None] is infinity. *)
Definition bound_le (a b : option Z) : bool :=
  match a, b with
  | _, None => true
  | None, Some _ => false
  | Some x, Some y => (x <=? y)%Z
  end.

Record Analyzer : Type := mkAnalyzer {
  an_buckets : list (option Z);
  an_raw_events : list pyval
}.

(** [any(b <= a for a, b in zip(buckets, buckets[1:]))] *)
Fixpoint not_ascending (l : list (option Z)) : bool :=
  match l with
  | a :: ((b :: _) as l') => bound_le b a || not_ascending l'
  | _ => false
  end.

(** [__init__] *)
Definition new_analyzer (default_buckets : list (option Z)) (histogram_buckets : option (list (option Z))) :
    res Analyzer :=
  let buckets := default default_buckets histogram_buckets in
  if (length buckets <? 2)%nat || not_ascending buckets then
    Raise (ValueError "histogram_buckets must be ≥2 strictly ascending floats")
  else Ok (mkAnalyzer (if bool_decide (last buckets = Some None) then buckets else buckets ++ [None]) []).

(** [ingest] *)
Definition ingest (events : list pyval) (a : Analyzer) : Analyzer :=
  mkAnalyzer (an_buckets a) (an_raw_events a ++ events).

(** [max(bisect_right(buckets, value) - 1, 0)] *)
Definition bucket_index (buckets : list (option Z)) (value : Z) : nat :=
  (length (base.filter (λ b, bound_le b (Some value) = true) buckets) - 1)%nat.

Record IntervalStats : Type := mkStats {
  st_count : nat;
  st_total : Z;
  st_min : Z;
  st_max : Z;
  st_histogram : list nat
}.

Definition sum_Z (l : list Z) : Z := foldl Z.add 0%Z l.
Definition extreme (f : Z → Z → Z) (l : list Z) : Z :=
  match l with [] => 0%Z | x :: l' => foldl f x l' end.

(** [_interval_stats] *)
Definition interval_stats (buckets : list (option Z)) (samples : list Z) : IntervalStats :=
  mkStats (length samples) (sum_Z samples) (extreme Z.min samples) (extreme Z.max samples)
    (foldl (λ h v, alter S (bucket_index buckets v) h) (replicate (length buckets - 1) 0%nat) samples).

Record ResourceStats : Type := mkResourceStats {
  rs_acquire_count : Z;
  rs_release_count : Z;
  rs_contention_count : nat;
  rs_max_concurrent_waiters : Z;
  rs_wait : IntervalStats;
  rs_hold : IntervalStats
}.

(** [_compute_resource_stats] *)
Definition compute_resource_stats (buckets : list (option Z)) (s : ReplayState) :
    pydict string ResourceStats :=
  foldl (λ d r, <[r := mkResourceStats (get_default r 0%Z (acquire_count s))
                          (get_default r 0%Z (release_count s))
                          (length (get_default r [] (wait_samples s)))
                          (get_default r 0%Z (peak_waiters s))
                          (interval_stats buckets (get_default r [] (wait_samples s)))
                          (interval_stats buckets (get_default r [] (hold_samples s)))]> d) ∅
    (set_order (list_to_set (keys (acquire_count s)) ∪ list_to_set (keys (release_count s))
                ∪ list_to_set (keys (peak_waiters s)))).

Record Report : Type := mkReport {
  rp_events : nat;
  rp_owners : nat;
  rp_resources : pydict string ResourceStats;
  rp_gantt : list GanttRow;
  rp_deadlocks : list Deadlock;
  rp_unresolved_waits : list OpenWait
}.

Fixpoint normalize_all (idx : nat) (l : list pyval) : res (list NormalEvent) :=
  match l with
  | [] => Ok []
  | v :: l' => e ← normalize_event idx v; r ← normalize_all (S idx) l'; Ok (e :: r)
  end.

(** [analyze] *)
Definition analyze (a : Analyzer) : res Report :=
  events ← normalize_all 0 (an_raw_events a);
  p ← replay events;
  let '(rows, unresolved) := close_open_intervals p.2 in
  Ok (mkReport (length events) (size (list_to_set (ne_owner <$> events) : gset string))
        (compute_resource_stats (an_buckets a) p.2) rows (deadlocks p.2) unresolved).

(** [l[:n]] *)
Definition py_take {A} (n : Z) (l : list A) : list A :=
  take (if (n <? 0)%Z then length l - Z.to_nat (- n) else Z.to_nat n) l.

Definition contended_before (a b : string * nat) : Prop :=
  b.2 < a.2 ∨ (a.2 = b.2 ∧ String.le a.1 b.1).
#[local] Instance contended_before_dec : RelDecision contended_before.
Proof. unfold RelDecision, contended_before. apply _. Defined.

(** [top_contended] *)
Definition top_contended (n : Z) (a : Analyzer) : res (list (string * nat)) :=
  r ← analyze a;
  Ok (py_take n (stable_sort contended_before
    ((λ kv, (kv.1, rs_contention_count kv.2)) <$> items (rp_resources r)))).
End analyzer.

(** ** Who waits for whom *)

(** [a] waits for a resource that [b] holds. *)
Definition waits_for (s : ReplayState) (a b : string) : Prop :=
  ∃ r, (r, a) ∈ keys (open_waits s) ∧ holders s !! r = Some b.

Section results.
Context {SO : SetOrder} {TM : Times}.

Lemma wait_graph_edge s a b : edge (wait_graph s) a b ↔ waits_for s a b.
Proof.
  unfold waits_for, wait_graph, wait_edges. generalize (keys (open_waits s)) as l.
  induction l as [|[r o] l IH] using rev_ind.
  { split; [by intros (X & [=] & _)|]. by intros (r & ?%not_elem_of_nil & _). }
  rewrite foldl_app. cbn [foldl]. set (g := foldl _ _ l) in *. unfold add_wait. cbn [fst snd].
  setoid_rewrite elem_of_app. setoid_rewrite list_elem_of_singleton.
  assert (∀ P Q : Prop, (P ∨ Q) ↔ (Q ∨ P)) as Hor by tauto.
  destruct (holders s !! r) as [h|] eqn:Eh; cbn [fst].
  - unfold edge in *. setoid_rewrite dict_lookup_insert. destruct (decide (o = a)) as [->|Ho].
    + assert ((∃ X, Some ({[h]} ∪ get_default a ∅ g.1) = Some X ∧ b ∈ X) ↔
        b = h ∨ ∃ X, g.1 !! a = Some X ∧ b ∈ X) as ->.
      { unfold get_default. split.
        - intros (X & [= <-] & Hb). apply elem_of_union in Hb as [->%elem_of_singleton|Hb]; [by left|].
          right. destruct (g.1 !! a) as [X|]; [by exists X|by apply elem_of_empty in Hb].
        - intros Hb. eexists. split; [reflexivity|]. apply elem_of_union. rewrite elem_of_singleton.
          destruct Hb as [Hb|(X & HX & Hb)]; [by left|right]. by rewrite HX. }
      rewrite IH. split; [intros [->|(r' & ? & ?)]; eauto|].
      intros (r' & [?|[= ->]] & Hr'); [eauto|]. left. congruence.
    + rewrite IH. split; [naive_solver|]. intros (r' & [?|[= -> ->]] & ?); naive_solver.
  - rewrite IH. split; [naive_solver|]. intros (r' & [?|[= -> ->]] & ?); [naive_solver|congruence].
Qed.

(** ** The deadlocks that are reported *)

Notation owner_set c := (list_to_set c : gset string).

Definition covered (found : list Deadlock) (X : gset string) : Prop :=
  ∃ d, d ∈ found ∧ owner_set (dl_cycle_owners d) = X.

Lemma covered_app found new X : covered found X → covered (found ++ new) X.
Proof. intros (d & ? & ?). exists d. split; [|done]. apply elem_of_app. by left. Qed.

Lemma report_cycles g ts live : ∀ st,
  (∀ X, X ∈ st.2 → covered st.1 X) →
  let st' := foldl (report_cycle g ts) st live in
  (∃ new, st'.1 = st.1 ++ new ∧ ∀ d, d ∈ new → dl_detected_at_ts d = ts ∧ dl_cycle_owners d ∈ live)
  ∧ (∀ X, X ∈ st'.2 → covered st'.1 X)
  ∧ (∀ c, c ∈ live → owner_set c ∈ st'.2) ∧ (∀ X, X ∈ st.2 → X ∈ st'.2).
Proof.
  induction live as [|c live IH]; intros st Hst; cbn [foldl].
  { split_and!; [|done|by intros c ?%not_elem_of_nil|done].
    exists []. rewrite app_nil_r. split; [done|]. by intros d ?%not_elem_of_nil. }
  assert (∃ new, (report_cycle g ts st c).1 = st.1 ++ new
    ∧ (∀ d, d ∈ new → dl_detected_at_ts d = ts ∧ dl_cycle_owners d = c)
    ∧ (∀ X, X ∈ (report_cycle g ts st c).2 → covered (report_cycle g ts st c).1 X)
    ∧ owner_set c ∈ (report_cycle g ts st c).2
    ∧ ∀ X, X ∈ st.2 → X ∈ (report_cycle g ts st c).2) as (new & Hn & Hnew & Hc & Hin & Hmono).
  { unfold report_cycle. case_decide as Hseen; cbn [fst snd].
    - exists []. rewrite app_nil_r. split_and!; try done. by intros d ?%not_elem_of_nil.
    - eexists. split; [reflexivity|]. split_and!.
      + by intros d ->%list_elem_of_singleton.
      + intros X [->%elem_of_singleton|HX]%elem_of_union; [|by apply covered_app, Hst].
        eexists. split; [apply elem_of_app; right; by left|done].
      + set_solver.
      + set_solver. }
  destruct (IH _ Hc) as ((new' & Hn' & Hnew') & Hc' & Hin' & Hmono'). split_and!.
  - exists (new ++ new'). rewrite Hn', Hn, <- app_assoc. split; [done|].
    intros d [Hd|Hd]%elem_of_app; [destruct (Hnew d Hd) as [? ->]; split; [done|by left]|].
    destruct (Hnew' d Hd). split; [done|by right].
  - done.
  - intros c' [->|Hc2]%elem_of_cons; [by apply Hmono'|by apply Hin'].
  - intros X HX. by apply Hmono', Hmono.
Qed.

Definition seen_covered (s : ReplayState) : Prop := ∀ X, X ∈ seen_cycles s → covered (deadlocks s) X.

Lemma detect_spec ts s :
  seen_covered s →
  let s' := detect_deadlocks ts s in
  seen_covered s' ∧ wait_graph s' = wait_graph s
  ∧ (∃ new, deadlocks s' = deadlocks s ++ new
       ∧ ∀ d, d ∈ new → dl_detected_at_ts d = ts ∧ dl_cycle_owners d ∈ find_cycles (wait_graph s))
  ∧ ∀ c, c ∈ find_cycles (wait_graph s) → covered (deadlocks s') (owner_set c).
Proof.
  intros Hs. pose proof (report_cycles (wait_edges s) ts (find_cycles (wait_edges s).1)
    (deadlocks s, seen_cycles s) Hs) as H.
  unfold detect_deadlocks. destruct (foldl _ _ _) as [found seen]. destruct H as (Hn & Hc & Hin & _).
  cbn [fst snd] in *. split_and!; [|done|exact Hn|].
  - intros X HX. apply Hc. cbn [seen_cycles] in HX. set_solver.
  - intros c Hcy. by apply Hc, Hin.
Qed.

Lemma apply_event_keeps idx e s s' :
  apply_event idx e s = Ok s' → deadlocks s' = deadlocks s ∧ seen_cycles s' = seen_cycles s.
Proof.
  unfold apply_event, apply_wait, apply_acquire, apply_release.
  intros H. repeat case_match; simplify_eq; done.
Qed.

Lemma replay_event_Ok idx e p p' :
  replay_event idx e p = Ok p' →
  ∃ s, apply_event idx e p.2 = Ok s ∧ p' = (Some (ne_ts e), detect_deadlocks (ne_ts e) s).
Proof.
  unfold replay_event. intros H. repeat case_match; try done;
    apply res_bind_Ok in H as (s & Hs & [= <-]); eauto.
Qed.

Lemma replay_from_app l k idx p :
  replay_from idx (l ++ k) p = (p' ← replay_from idx l p; replay_from (idx + length l) k p').
Proof.
  revert idx p. induction l as [|e l IH]; intros idx p.
  { cbn. by rewrite Nat.add_0_r. }
  cbn [app replay_from length]. destruct (replay_event idx e p) as [p'|x]; [|done].
  cbn. rewrite IH. by replace (S idx + length l) with (idx + S (length l)) by lia.
Qed.

Lemma replay_snoc l e p :
  replay (l ++ [e]) = Ok p ↔ ∃ p', replay l = Ok p' ∧ replay_event (length l) e p' = Ok p.
Proof.
  unfold replay. rewrite replay_from_app, res_bind_Ok. cbn [replay_from].
  split; intros (p' & H1 & H2); exists p'; (split; [done|]).
  - apply res_bind_Ok in H2 as (p2 & H2 & [= <-]). done.
  - cbn. by rewrite H2.
Qed.

(** The state after some of the events of [l]. *)
Definition passes_through (l k : list NormalEvent) (s : ReplayState) : Prop :=
  k `prefix_of` l ∧ ∃ t, replay k = Ok (t, s).

Lemma passes_through_snoc l e k s :
  passes_through (l ++ [e]) k s → passes_through l k s ∨ k = l ++ [e].
Proof.
  intros [[q Hq] Hk]. destruct q as [|x q] using rev_ind; [right; by rewrite app_nil_r in Hq|].
  left. rewrite app_assoc in Hq. apply app_inj_tail in Hq as [-> _]. split; [by exists q|done].
Qed.

Lemma replay_deadlocks l : ∀ t s, replay l = Ok (t, s) →
  seen_covered s
  ∧ (∀ d, d ∈ deadlocks s → ∃ k e s', passes_through l (k ++ [e]) s' ∧ dl_detected_at_ts d = ne_ts e
       ∧ dl_cycle_owners d ∈ find_cycles (wait_graph s'))
  ∧ ∀ k s' c, passes_through l k s' → c ∈ find_cycles (wait_graph s') →
       covered (deadlocks s) (owner_set c).
Proof.
  induction l as [|e l IH] using rev_ind; intros t s Hr.
  - injection Hr as _ <-. split_and!; [by intros X HX|by intros d ?%not_elem_of_nil|].
    intros k s' c [[q Hq] (t' & Hk)]. destruct k; [|done]. injection Hk as _ <-.
    intros Hc%find_cycles_spec. destruct c as [|x c]; [by destruct Hc|].
    destruct Hc as [[_ Hw] _]. destruct c as [|y c]; destruct Hw as (X & [=] & _) || destruct Hw as [(X & [=] & _) _].
  - pose proof Hr as Hr'. apply replay_snoc in Hr as ([t0 s0] & Hl & He).
    apply replay_event_Ok in He as (s1 & Ha & [= -> ->]). cbn [snd] in Ha.
    destruct (IH t0 s0 Hl) as (Hs & Hd & Hc). destruct (apply_event_keeps _ _ _ _ Ha) as [Hdl Hse].
    assert (seen_covered s1) as Hs1 by (unfold seen_covered; by rewrite Hdl, Hse).
    destruct (detect_spec (ne_ts e) s1 Hs1) as (Hs2 & Hg & (new & Hn & Hnew) & Hcov).
    split_and!; [done| |].
    + intros d. rewrite Hn, Hdl. intros [Hd0|Hd0]%elem_of_app.
      * destruct (Hd d Hd0) as (k & e' & s' & [Hp Hk] & Hx). exists k, e', s'. split; [|done].
        split; [by apply prefix_app_r|done].
      * destruct (Hnew d Hd0). exists l, e, (detect_deadlocks (ne_ts e) s1).
        split; [split; [done|by eexists]|]. by rewrite Hg.
    + intros k s' c Hp Hcy. apply passes_through_snoc in Hp as Hp'. destruct Hp' as [Hp'| ->].
      * rewrite Hn, Hdl. by eapply covered_app, Hc.
      * destruct Hp as [_ (t' & Hk)]. rewrite Hr' in Hk. injection Hk as _ <-. apply Hcov. by rewrite <- Hg.
Qed.

(** Every edge of a reported cycle is a wait for a resource that the next owner holds. *)
Lemma edge_detail s a b d :
  (wait_edges s).2 !! (a, b) = Some d → d.2 = a ∧ (d.1, a) ∈ keys (open_waits s) ∧ holders s !! d.1 = Some b.
Proof.
  unfold wait_edges. generalize (keys (open_waits s)) as l.
  induction l as [|[r o] l IH] using rev_ind; [done|].
  rewrite foldl_app. cbn [foldl]. set (g := foldl _ _ l) in *. unfold add_wait. cbn [fst snd].
  intros Hd. destruct (holders s !! r) as [h|] eqn:Eh; cbn [fst snd] in Hd.
  - rewrite dict_lookup_insert in Hd. case_decide as Hk.
    + injection Hk as -> ->. injection Hd as <-. split_and!; [done| |done].
      apply elem_of_app. right. by left.
    + destruct (IH Hd) as (? & ? & ?). split_and!; [done| |done]. apply elem_of_app. by left.
  - destruct (IH Hd) as (? & ? & ?). split_and!; [done| |done]. apply elem_of_app. by left.
Qed.

(** The deadlocks of an accepted stream. Every one reported is a cycle of owners each of whom,
    right after an event at the time reported, waits for a resource that the next one holds;
    and every such cycle, at whatever point of the stream, is covered by a report with the same
    owners. So none is reported exactly when no owner ever waits, through others, for itself. *)
Theorem deadlocks_exact (l : list NormalEvent) (t : option Z) (s : ReplayState)
    (Hr : replay l = Ok (t, s)) :
  (∀ d, d ∈ deadlocks s → ∃ k e s', passes_through l (k ++ [e]) s' ∧ dl_detected_at_ts d = ne_ts e
     ∧ elementary (wait_graph s') (dl_cycle_owners d))
  ∧ (∀ k s' c, passes_through l k s' → elementary (wait_graph s') c → covered (deadlocks s) (list_to_set c))
  ∧ (deadlocks s = [] ↔ ∀ k s' a, passes_through l k s' → ¬ tc (waits_for s') a a).
Proof.
  destruct (replay_deadlocks l t s Hr) as (_ & Hd & Hc).
  assert (∀ k s' c, passes_through l k s' → elementary (wait_graph s') c →
    covered (deadlocks s) (list_to_set c)) as Hcov.
  { intros k s' c Hp He. destruct (elementary_normalize _ _ He) as [He' Hl].
    destruct (Hc k s' (normalize c) Hp) as (d & Hin & Hset); [by apply find_cycles_spec|].
    exists d. split; [done|]. rewrite Hset. apply set_eq. intros x.
    by rewrite !elem_of_list_to_set, normalize_perm. }
  assert (∀ s' a, tc (waits_for s') a a → ∃ c, elementary (wait_graph s') c) as Htc.
  { intros s' a Ha. destruct (proj2 (cycle_iff_tc (wait_graph s'))) as (c & Hel & _); [|by exists c].
    exists a. eapply (tc_congruence id); [|exact Ha]. intros x y. apply wait_graph_edge. }
  split_and!; [|exact Hcov|].
  - intros d Hin. destruct (Hd d Hin) as (k & e & s' & Hp & Ht & Hcy). exists k, e, s'.
    split_and!; [done|done|]. by apply find_cycles_spec.
  - split.
    + intros Hnil k s' a Hp Ha. destruct (Htc s' a Ha) as [c Hel].
      destruct (Hcov k s' c Hp Hel) as (d & Hin & _). rewrite Hnil in Hin. by apply not_elem_of_nil in Hin.
    + intros Hno. destruct (deadlocks s) as [|d ds]; [done|]. exfalso.
      destruct (Hd d) as (k & e & s' & Hp & _ & Hcy%find_cycles_spec); [by left|].
      destruct (proj1 (cycle_iff_tc (wait_graph s'))) as [a Ha]; [by eexists|].
      apply (Hno _ _ a Hp). eapply (tc_congruence id); [|exact Ha]. intros x y. apply wait_graph_edge.
Qed.

(** ** Accounts *)

Definition before (x : Z) (t : option Z) : Prop := match t with Some t => (x <= t)%Z | None => False end.

(** Two holds of one resource, in the order of the chart. *)
Definition hold_rows (s : ReplayState) (r : string) : list GanttRow :=
  base.filter (λ g, gr_wait g = false ∧ gr_resource g = r) (gantt s).
Definition ends_before (x : Z) (g : GanttRow) : Prop :=
  match gr_end g with Some e => (gr_start g <= e <= x)%Z | None => False end.
Definition apart (g h : GanttRow) : Prop := ends_before (gr_start h) g.

(** What is known after an accepted stream whose last time was [t]. *)
Record replay_ok (t : option Z) (s : ReplayState) : Prop := {
  ok_holders r : holders s !! r = fst <$> open_holds s !! r;
  ok_counts r : get_default r 0%Z (acquire_count s)
    = (get_default r 0 (release_count s) + if open_holds s !! r is Some _ then 1 else 0)%Z;
  ok_released r : Z.of_nat (length (get_default r [] (hold_samples s))) = get_default r 0%Z (release_count s);
  ok_rows r : Z.of_nat (length (hold_rows s r)) = get_default r 0%Z (release_count s);
  ok_open r o since : open_holds s !! r = Some (o, since) →
    before since t ∧ Forall (ends_before since) (hold_rows s r);
  ok_closed r : Forall (λ g, ∃ x, before x t ∧ ends_before x g) (hold_rows s r);
  ok_apart r : StronglySorted apart (hold_rows s r);
  ok_waits k since : open_waits s !! k = Some since → before since t;
  ok_samples r : Forall (λ v, 0 <= v)%Z (get_default r [] (wait_samples s) ++ get_default r [] (hold_samples s))
}.

Lemma replay_ok_init : replay_ok None new_replay.
Proof. split; intros; try done; constructor. Qed.

(** Only these parts of the state are accounts. *)
Lemma replay_ok_detect t ts s : replay_ok t s → replay_ok t (detect_deadlocks ts s).
Proof. unfold detect_deadlocks. destruct (foldl _ _ _). intros []. by split. Qed.

Lemma replay_ok_later t ts s :
  (∀ x, before x t → (x <= ts)%Z) → replay_ok t s → replay_ok (Some ts) s.
Proof.
  intros Hts []. split; try done.
  - intros r o since Ho. destruct (ok_open0 r o since Ho). split; [by apply Hts|done].
  - intros r. eapply Forall_impl; [apply ok_closed0|]. intros g (x & ? & ?). exists x. split; [by apply Hts|done].
  - intros k since Hk. apply Hts. by eapply ok_waits0.
Qed.

Lemma ends_before_le x y g : (x <= y)%Z → ends_before x g → ends_before y g.
Proof. unfold ends_before. destruct (gr_end g); [lia|done]. Qed.

Lemma filter_snoc {A} (P : A → Prop) `{∀ x, Decision (P x)} l x :
  base.filter P (l ++ [x]) = base.filter P l ++ if decide (P x) then [x] else [].
Proof. rewrite filter_app, filter_cons. by case_decide. Qed.

Lemma apart_snoc l g : StronglySorted apart l → Forall (λ h, apart h g) l → StronglySorted apart (l ++ [g]).
Proof.
  intros Hl Hg. apply StronglySorted_app_2; [|done|repeat constructor].
  rewrite Forall_forall in Hg. intros h x Hh ->%list_elem_of_singleton. by apply Hg.
Qed.

Lemma wait_keeps idx ts r o s s' : replay_ok (Some ts) s → apply_wait idx ts r o s = Ok s' → replay_ok (Some ts) s'.
Proof.
  unfold apply_wait. intros []. case_match; intros [= <-]. split; try done. cbn [open_waits].
  intros k since. rewrite dict_lookup_insert. case_decide; [intros [= ->]; cbn; lia|apply ok_waits0].
Qed.

Lemma acquire_keeps idx ts r o s s' :
  replay_ok (Some ts) s → apply_acquire idx ts r o s = Ok s' → replay_ok (Some ts) s'.
Proof.
  unfold apply_acquire. intros []. destruct (holders s !! r) as [h|] eqn:Eh; [by case_match|].
  assert (open_holds s !! r = None) as Eo.
  { rewrite ok_holders0 in Eh. by destruct (open_holds s !! r). }
  assert (∀ h oh ow cw ws hs ac rc pw g dl sc,
    h = <[r := o]> (holders s) → oh = <[r := (o, ts)]> (open_holds s) → ac = add_at r 1 (acquire_count s) →
    rc = release_count s → hs = hold_samples s →
    (∀ r', hold_rows (mkReplay h oh ow cw ws hs ac rc pw g dl sc) r' = hold_rows s r') →
    (∀ k since, ow !! k = Some since → before since (Some ts)) →
    (∀ r', Forall (λ v, 0 <= v)%Z (get_default r' [] ws)) →
    replay_ok (Some ts) (mkReplay h oh ow cw ws hs ac rc pw g dl sc)) as Hok.
  { intros h oh ow cw ws hs ac rc pw g dl sc -> -> -> -> -> Hrows Hw Hs.
    split; cbn [holders open_holds open_waits wait_samples hold_samples acquire_count release_count];
      try setoid_rewrite Hrows; try done.
    - intros r'. rewrite !dict_lookup_insert. by case_decide.
    - intros r'. unfold add_at. rewrite get_default_insert, dict_lookup_insert, (ok_counts0 r').
      case_decide; [subst r'; rewrite (ok_counts0 r), Eo; lia|done].
    - intros r' o' since. rewrite dict_lookup_insert. case_decide as Hr; [|apply ok_open0].
      intros [= <- <-]. subst r'. split; [cbn; lia|]. eapply Forall_impl; [apply ok_closed0|].
      intros g' (x & Hx & He). by eapply ends_before_le.
    - intros r'. apply Forall_app. split; [apply Hs|]. specialize (ok_samples0 r').
      by apply Forall_app in ok_samples0 as [_ ?]. }
  destruct (open_waits s !! (r, o)) as [since|] eqn:Ew; intros [= <-]; apply Hok; try done.
  - intros r'. unfold hold_rows. cbn [gantt]. rewrite filter_snoc, decide_False by (by intros [? _]).
    by rewrite app_nil_r.
  - intros k si. rewrite dict_lookup_delete. case_decide; [done|apply ok_waits0].
  - intros r'. unfold append_at. rewrite get_default_insert. pose proof (ok_samples0 r') as Hs.
    apply Forall_app in Hs as [Hs _]. case_decide; [subst r'|done]. apply Forall_app. split; [done|].
    apply Forall_singleton. specialize (ok_waits0 _ _ Ew). cbn in ok_waits0. lia.
  - intros r'. specialize (ok_samples0 r'). by apply Forall_app in ok_samples0 as [? _].
Qed.

Lemma release_keeps idx ts r o s s' :
  replay_ok (Some ts) s → apply_release idx ts r o s = Ok s' → replay_ok (Some ts) s'.
Proof.
  unfold apply_release. intros []. destruct (open_holds s !! r) as [[h since]|] eqn:Eo; [|done].
  case_decide as Hh; [|done]. intros [= <-]. subst h. destruct (ok_open0 r o since Eo) as [Hsince Hbefore].
  set (row := mkRow r o since (Some ts) false).
  assert (∀ r', base.filter (λ g, gr_wait g = false ∧ gr_resource g = r') (gantt s ++ [row])
    = hold_rows s r' ++ if decide (r = r') then [row] else []) as Hrows.
  { intros r'. rewrite filter_snoc. unfold hold_rows. f_equal. cbn [gr_wait gr_resource row].
    by apply decide_ext; naive_solver || (destruct (decide (r = r')) as [?|?]; [rewrite decide_True by done|rewrite decide_False by naive_solver]; done). }
  cbn in Hsince.
  split; cbn [holders open_holds open_waits wait_samples hold_samples acquire_count release_count];
    unfold hold_rows; cbn [gantt]; try setoid_rewrite Hrows; try done.
  - intros r'. rewrite !dict_lookup_delete. by case_decide.
  - intros r'. unfold add_at. rewrite get_default_insert, dict_lookup_delete, (ok_counts0 r').
    case_decide; [subst r'; rewrite Eo; lia|done].
  - intros r'. unfold add_at, append_at. rewrite !get_default_insert. case_decide; [subst r'|apply ok_released0].
    rewrite length_app. cbn [length]. rewrite <- ok_released0. lia.
  - intros r'. unfold add_at. rewrite get_default_insert, length_app, <- !ok_rows0.
    case_decide; [subst r'; cbn [length]; lia|cbn [length]; lia].
  - intros r' o' si. rewrite dict_lookup_delete. case_decide as Hr; [done|]. intros Ho.
    rewrite app_nil_r. by apply (ok_open0 r' o').
  - intros r'. apply Forall_app. split; [done|]. case_decide; [|done]. apply Forall_singleton.
    exists ts. cbn. lia.
  - intros r'. case_decide; [subst r'|by rewrite app_nil_r]. by apply apart_snoc.
  - intros r'. unfold append_at. rewrite get_default_insert. specialize (ok_samples0 r').
    case_decide; [subst r'|done]. rewrite app_assoc. apply Forall_app. split; [done|].
    apply Forall_singleton. lia.
Qed.

Lemma replay_keeps l : ∀ t s, replay l = Ok (t, s) → replay_ok t s.
Proof.
  induction l as [|e l IH] using rev_ind; intros t s Hr.
  { injection Hr as <- <-. apply replay_ok_init. }
  apply replay_snoc in Hr as ([t0 s0] & Hl & He).
  assert (∀ x, before x t0 → (x <= ne_ts e)%Z) as Hts.
  { unfold replay_event in He. cbn [fst] in He. destruct t0 as [t0|]; [|done]. cbn. intros x Hx.
    destruct (Z.ltb_spec (ne_ts e) t0); [done|lia]. }
  apply replay_event_Ok in He as (s1 & Ha & [= -> ->]). apply replay_ok_detect. cbn [snd] in Ha.
  pose proof (replay_ok_later _ _ _ Hts (IH _ _ Hl)) as Hok. unfold apply_event in Ha.
  destruct (ne_kind e); [by eapply wait_keeps|by eapply acquire_keeps|by eapply release_keeps].
Qed.

(** The accounts of an accepted stream: acquisitions are releases plus the hold still open;
    there is a holding time and a row in the chart for every release; rows of one resource do not
    overlap, each ending before the next starts and before the open hold; no time is negative. *)
Theorem replay_accounts (l : list NormalEvent) (t : option Z) (s : ReplayState) (r : string)
    (Hr : replay l = Ok (t, s)) :
  get_default r 0%Z (acquire_count s)
    = (get_default r 0 (release_count s) + if holders s !! r is Some _ then 1 else 0)%Z
  ∧ Z.of_nat (length (get_default r [] (hold_samples s))) = get_default r 0%Z (release_count s)
  ∧ Z.of_nat (length (hold_rows s r)) = get_default r 0%Z (release_count s)
  ∧ StronglySorted apart (hold_rows s r)
  ∧ (∀ o since, open_holds s !! r = Some (o, since) → Forall (ends_before since) (hold_rows s r))
  ∧ Forall (λ v, 0 <= v)%Z (get_default r [] (wait_samples s) ++ get_default r [] (hold_samples s)).
Proof.
  destruct (replay_keeps l t s Hr). rewrite ok_holders0, ok_counts0.
  split_and!; try done; [by destruct (open_holds s !! r)|]. intros o since Ho. by apply (ok_open0 r o).
Qed.

(** ** Which streams are accepted *)

(** Who holds [r], and whether [o] waits for it, by the events alone. *)
Definition holder_of (l : list NormalEvent) (r : string) : option string :=
  foldl (λ h e, if decide (ne_resource e = r) then
                  match ne_kind e with Acquire => Some (ne_owner e) | Release => None | Wait => h end
                else h) None l.
Definition waiting (l : list NormalEvent) (r o : string) : bool :=
  foldl (λ w e, if decide (ne_resource e = r ∧ ne_owner e = o) then
                  match ne_kind e with Wait => true | Acquire => false | Release => w end
                else w) false l.

(** May [e] follow the events [k]? *)
Definition legal (k : list NormalEvent) (e : NormalEvent) : Prop :=
  (∀ e', last k = Some e' → (ne_ts e' <= ne_ts e)%Z)
  ∧ match ne_kind e with
    | Wait => waiting k (ne_resource e) (ne_owner e) = false
    | Acquire => holder_of k (ne_resource e) = None
    | Release => holder_of k (ne_resource e) = Some (ne_owner e)
    end.

Definition same_locks (l : list NormalEvent) (s : ReplayState) : Prop :=
  (∀ r, holders s !! r = holder_of l r)
  ∧ ∀ r o, has_key (r, o) (open_waits s) = waiting l r o.

Lemma holder_of_snoc l e r :
  holder_of (l ++ [e]) r =
    if decide (ne_resource e = r) then
      match ne_kind e with Acquire => Some (ne_owner e) | Release => None | Wait => holder_of l r end
    else holder_of l r.
Proof. unfold holder_of. by rewrite foldl_app. Qed.
Lemma waiting_snoc l e r o :
  waiting (l ++ [e]) r o =
    if decide (ne_resource e = r ∧ ne_owner e = o) then
      match ne_kind e with Wait => true | Acquire => false | Release => waiting l r o end
    else waiting l r o.
Proof. unfold waiting. by rewrite foldl_app. Qed.

Lemma has_key_changed {V} (d d' : pydict (string * string) V) k : d !! k = d' !! k → has_key k d = has_key k d'.
Proof. unfold has_key. by intros ->. Qed.

Lemma apply_legal l idx e t s :
  replay_ok t s → same_locks l s →
  match apply_event idx e s with
  | Ok s' => same_locks (l ++ [e]) s'
  | Raise _ => True
  end
  ∧ (is_ok (apply_event idx e s) = true ↔
     match ne_kind e with
     | Wait => waiting l (ne_resource e) (ne_owner e) = false
     | Acquire => holder_of l (ne_resource e) = None
     | Release => holder_of l (ne_resource e) = Some (ne_owner e)
     end).
Proof.
  intros Hok [Hh Hw]. destruct e as [ts kind r o]. unfold apply_event. cbn [ne_kind ne_ts ne_resource ne_owner].
  assert (∀ s', kind ≠ Wait → (∀ r', holders s' !! r' = if decide (r = r') then if decide (kind = Acquire) then Some o else None else holders s !! r')
    → (∀ r' o', has_key (r', o') (open_waits s') = if decide (r = r' ∧ o = o' ∧ kind = Acquire) then false else has_key (r', o') (open_waits s))
    → same_locks (l ++ [mkNormal ts kind r o]) s') as Hsame.
  { intros s' Hk H1 H2. split.
    - intros r'. rewrite H1, holder_of_snoc, Hh. cbn. destruct (decide (r = r')); [|done]. destruct kind; [congruence|done|done].
    - intros r' o'. rewrite H2, waiting_snoc, Hw. cbn. destruct kind; [congruence| |];
        repeat case_decide; naive_solver. }
  destruct kind.
  - unfold apply_wait. rewrite <- Hw. destruct (has_key (r, o) (open_waits s)) eqn:Ek; [by split|]. split; [|done].
    split; cbn [holders open_waits].
    + intros r'. rewrite holder_of_snoc. cbn. destruct (decide (r = r')); by rewrite Hh.
    + intros r' o'. rewrite waiting_snoc. cbn. unfold has_key. rewrite dict_lookup_insert.
      destruct (decide ((r, o) = (r', o'))) as [H1|H1], (decide (r = r' ∧ o = o')) as [H2|H2]; naive_solver.
  - unfold apply_acquire. rewrite <- Hh. destruct (holders s !! r) as [h|] eqn:Eh; [by destruct (decide (h = o))|].
    destruct (open_waits s !! (r, o)) as [since|] eqn:Ew; (split; [|done]); apply Hsame; try done;
      cbn [holders open_waits]; try (intros r'; rewrite dict_lookup_insert; by destruct (decide (r = r'))).
    + intros r' o'. unfold has_key. rewrite dict_lookup_delete.
      destruct (decide ((r, o) = (r', o'))) as [H1|H1], (decide (r = r' ∧ o = o' ∧ Acquire = Acquire)) as [H2|H2]; naive_solver.
    + intros r' o'. destruct (decide (r = r' ∧ o = o' ∧ Acquire = Acquire)) as [H|]; [|done]. destruct H as (<- & <- & _). unfold has_key. by rewrite Ew.
  - unfold apply_release. rewrite <- Hh, (ok_holders _ _ Hok).
    destruct (open_holds s !! r) as [[h since]|] eqn:Eo; cbn [fmap option_fmap option_map fst]; [|by split].
    destruct (decide (h = o)) as [->|Hne]; [|split; [done|]; split; [done|congruence]].
    split; [|done]. apply Hsame; [done| |]; cbn [holders open_waits].
    + intros r'. rewrite dict_lookup_delete. by destruct (decide (r = r')).
    + intros r' o'. by rewrite decide_False by naive_solver.
Qed.

Lemma replay_locks l : ∀ t s, replay l = Ok (t, s) → same_locks l s ∧ t = ne_ts <$> last l.
Proof.
  induction l as [|e l IH] using rev_ind; intros t s Hr; [by injection Hr as <- <-|].
  apply replay_snoc in Hr as ([t0 s0] & Hl & He).
  apply replay_event_Ok in He as (s1 & Ha & [= -> ->]). cbn [snd] in Ha.
  pose proof (apply_legal l (length l) e t0 s0 (replay_keeps _ _ _ Hl) (proj1 (IH _ _ Hl))) as [H _].
  rewrite Ha in H. rewrite last_snoc. split; [|done].
  unfold detect_deadlocks. by destruct (foldl _ _ _).
Qed.

(** The streams that are accepted are exactly the histories of locks: times do not go back,
    nobody starts to wait twice, a resource is acquired when it is free and released by its
    holder; all this by the events alone. *)
Theorem replay_accepts_iff (l : list NormalEvent) :
  is_ok (replay l) = true ↔ ∀ k e, (k ++ [e]) `prefix_of` l → legal k e.
Proof.
  induction l as [|e l IH] using rev_ind.
  { split; [|done]. intros _ k e [q Hq]. by destruct k. }
  assert ((∀ k e', (k ++ [e']) `prefix_of` (l ++ [e]) → legal k e') ↔
    (∀ k e', (k ++ [e']) `prefix_of` l → legal k e') ∧ legal l e) as ->.
  { split.
    - intros H. split; [|by apply H]. intros k e' Hp. by apply H, prefix_app_r.
    - intros [H1 H2] k e' [q Hq]. destruct q as [|x q _] using rev_ind.
      + rewrite app_nil_r in Hq. by apply app_inj_tail in Hq as [<- <-].
      + rewrite app_assoc in Hq. apply app_inj_tail in Hq as [-> _]. apply H1. by exists q. }
  rewrite <- IH. clear IH. destruct (replay l) as [[t s]|x] eqn:Hl.
  - destruct (replay_locks _ _ _ Hl) as [Hs Ht].
    pose proof (apply_legal l (length l) e t s (replay_keeps _ _ _ Hl) Hs) as [_ Hiff].
    assert (is_ok (replay (l ++ [e])) = true ↔ is_ok (replay_event (length l) e (t, s)) = true) as ->.
    { unfold replay in *. rewrite replay_from_app, Hl. cbn. by destruct (replay_event _ _ _). }
    assert (is_ok (replay_event (length l) e (t, s)) = true ↔
      (∀ e', last l = Some e' → (ne_ts e' <= ne_ts e)%Z) ∧ is_ok (apply_event (length l) e s) = true) as ->.
    { unfold replay_event. cbn [fst snd]. rewrite Ht. destruct (last l) as [e'|]; cbn.
      - destruct (Z.ltb_spec (ne_ts e) (ne_ts e')) as [Hlt|Hle].
        + split; [done|]. intros [H _]. specialize (H e' eq_refl). lia.
        + destruct (apply_event _ _ _); cbn; split; [|done|done|by intros [_ ?]].
          intros _. split; [|done]. by intros ? [= <-].
      - destruct (apply_event _ _ _); cbn; naive_solver. }
    rewrite Hiff. unfold legal. cbn. tauto.
  - assert (is_ok (replay (l ++ [e])) = false) as ->; [|naive_solver].
    unfold replay in *. by rewrite replay_from_app, Hl.
Qed.
End results.

(** ** Witnesses and examples *)

#[local] Instance int_times : Times := {|
  ticks v := match v with PyInt z => z | _ => 0%Z end;
  show_ts z := pretty z
|}.

Definition raw (ts : Z) (kind resource owner : string) : pyval :=
  PyMap [(PyStr "ts", PyInt ts); (PyStr "type", PyStr kind); (PyStr "resource", PyStr resource);
         (PyStr "owner", PyStr owner)].

Definition analysis (events : list pyval) : res Report :=
  a ← new_analyzer [Some 0%Z; Some 1%Z; Some 5%Z; None] None; analyze (ingest events a).
Definition cycles_reported (events : list pyval) : option (list (Z * list string * list string)) :=
  match analysis events with
  | Ok r => Some ((λ d, (dl_detected_at_ts d, dl_cycle_owners d, dl_involved_resources d)) <$> rp_deadlocks r)
  | Raise _ => None
  end.

(** Two owners, two resources taken in opposite orders. *)
Definition crossing : list pyval :=
  [raw 0 "acquire" "X" "a"; raw 1 "lock_acquire" "Y" "b"; raw 2 "wait" "Y" "a"; raw 3 "wait" "X" "b"].
Example crossing_deadlocks : cycles_reported crossing = Some [(3%Z, ["a"; "b"], ["X"; "Y"])].
Proof. vm_compute. reflexivity. Qed.

(** [unresolved_waits] is documented as free of cycles; the deadlocked owners are in it. *)
Example deadlocked_waits_unresolved :
  (rp_unresolved_waits <$> analysis crossing) = Ok [mkOpen "a" "Y" 2; mkOpen "b" "X" 3].
Proof. vm_compute. reflexivity. Qed.

(** Two cycles of the same three owners: the second is not reported. *)
Definition both_ways : list pyval :=
  (raw 0 "acquire" "A" "a") :: (raw 0 "acquire" "B" "b") :: (raw 0 "acquire" "C" "c")
  :: [raw 1 "wait" "B" "a"; raw 1 "wait" "C" "b"; raw 1 "wait" "A" "c";
      raw 2 "wait" "C" "a"; raw 2 "wait" "B" "c"; raw 2 "wait" "A" "b"].
Example second_cycle_missing :
  cycles_reported both_ways
  = Some [(1%Z, ["a"; "b"; "c"], ["A"; "B"; "C"]); (2%Z, ["a"; "c"], ["A"; "C"]);
          (2%Z, ["b"; "c"], ["B"; "C"]); (2%Z, ["a"; "b"], ["A"; "B"])].
Proof. vm_compute. reflexivity. Qed.

(** An owner waiting for two resources of one holder: only the later one is named. *)
Example one_resource_missing :
  cycles_reported [raw 0 "acquire" "X" "b"; raw 0 "acquire" "Y" "b"; raw 0 "acquire" "Z" "a";
                   raw 1 "wait" "X" "a"; raw 2 "wait" "Y" "a"; raw 3 "wait" "Z" "b"]
  = Some [(3%Z, ["a"; "b"], ["Y"; "Z"])].
Proof. vm_compute. reflexivity. Qed.

Example ranking :
  (a ← new_analyzer [Some 0%Z; Some 1%Z] None;
   top_contended 1 (ingest [raw 0 "acquire" "X" "a"; raw 1 "wait" "X" "b"; raw 4 "release" "X" "a";
                            raw 5 "acquired" "X" "b"; raw 5 "acquire" "Y" "a"] a)) = Ok [("X", 1%nat)].
Proof. vm_compute. reflexivity. Qed.

Definition crossing_events : list NormalEvent :=
  match normalize_all 0 crossing with Ok l => l | Raise _ => [] end.
Definition crossing_state : ReplayState :=
  match replay crossing_events with Ok p => p.2 | Raise _ => new_replay end.

Lemma crossing_accepted : replay crossing_events = Ok (Some 3%Z, crossing_state).
Proof.
  assert ((fst <$> replay crossing_events) = Ok (Some 3%Z)) as H by (vm_compute; reflexivity).
  unfold crossing_state. destruct (replay crossing_events) as [[t s]|e]; [|done]. by injection H as ->.
Qed.

Lemma deadlocks_exact_witness :
  replay crossing_events = Ok (Some 3%Z, crossing_state)
  ∧ ∃ d, d ∈ deadlocks crossing_state ∧ ¬ (∀ k s' a, passes_through crossing_events k s' → ¬ tc (waits_for s') a a).
Proof.
  split; [exact crossing_accepted|].
  destruct (deadlocks_exact crossing_events (Some 3%Z) crossing_state crossing_accepted) as (_ & _ & Hiff).
  assert (length (deadlocks crossing_state) = 1%nat) as Hne by (vm_compute; reflexivity).
  destruct (deadlocks crossing_state) as [|d ds]; [discriminate|]. exists d. split; [by left|].
  intros Hno. by apply Hiff in Hno.
Defined.

Lemma replay_accounts_witness :
  replay crossing_events = Ok (Some 3%Z, crossing_state)
  ∧ get_default "X" 0%Z (acquire_count crossing_state) = 1%Z.
Proof.
  split; [exact crossing_accepted|].
  destruct (replay_accounts crossing_events (Some 3%Z) crossing_state "X" crossing_accepted) as [Ha _].
  rewrite Ha. vm_compute. reflexivity.
Defined.
