(* ===== verification/TopologyState.v ===== *)
(** * The live state of a fixture (src/src/ate_platform/runtime/topology_state.py)

    [TopologyRuntimeState]: the last known state of instruments, links, relays, fixtures and
    measurements of a run, and its faults. Every change is announced to one callback, whose
    exceptions are swallowed; here the announcements are a list, the answer of the callback does
    not matter. [now] is the clock. *)

From S2P Require Import Prelude PyDict PyStr.

Record InstrumentState : Type := mkInstrumentState {
  is_instrument_id : string; is_status : string; is_reading : pyval; is_error : option string
}.
Record LinkState : Type := mkLinkState { ls_link_id : string; ls_active : bool; ls_status : string }.
Record RelayState : Type := mkRelayState { rl_relay_id : string; rl_state : string }.
Record MeasurementState : Type := mkMeasurementState {
  ms_dut_id : string; ms_testpoint_id : string; ms_value : pyval; ms_status : string
}.
Record FixtureState : Type := mkFixtureState {
  fs_fixture_id : string; fs_status : string; fs_sensors : pydict string pyval
}.
Abbreviation fault_dict := (pydict string pyval).

(** [EVT_*] with their payloads. *)
Inductive Change : Type :=
  | EVT_INSTRUMENT (s : InstrumentState)
  | EVT_LINK (s : LinkState)
  | EVT_RELAY (s : RelayState)
  | EVT_MEASUREMENT (s : MeasurementState)
  | EVT_FIXTURE (s : FixtureState)
  | EVT_FAULT (fault : fault_dict) (location : list (string * pyval)).

Record TopologyRuntimeState : Type := mkRuntime {
  rt_run_id : string;
  rt_on_change : bool;                       (* is there a callback? *)
  rt_instruments : pydict string InstrumentState;
  rt_links : pydict string LinkState;
  rt_relays : pydict string RelayState;
  rt_fixtures : pydict string FixtureState;
  rt_measurements : pydict string MeasurementState;
  rt_faults : list fault_dict;
  rt_last_update : Z;
  rt_announced : list Change
}.

Definition new_runtime (run_id : string) (on_change : bool) : TopologyRuntimeState :=
  mkRuntime run_id on_change ∅ ∅ ∅ ∅ ∅ [] 0 [].

Section state.
Context (now : Z).

(** [_emit] *)
Definition emit_change (c : Change) (s : TopologyRuntimeState) : TopologyRuntimeState :=
  mkRuntime (rt_run_id s) (rt_on_change s) (rt_instruments s) (rt_links s) (rt_relays s) (rt_fixtures s)
    (rt_measurements s) (rt_faults s) now (rt_announced s ++ if rt_on_change s then [c] else []).

Definition update_instrument (id status : string) (reading : pyval) (error : option string)
    (s : TopologyRuntimeState) : TopologyRuntimeState :=
  let e := mkInstrumentState id status reading error in
  emit_change (EVT_INSTRUMENT e)
    (mkRuntime (rt_run_id s) (rt_on_change s) (<[id := e]> (rt_instruments s)) (rt_links s) (rt_relays s)
       (rt_fixtures s) (rt_measurements s) (rt_faults s) (rt_last_update s) (rt_announced s)).

Definition update_link (id : string) (active : bool) (status : string) (s : TopologyRuntimeState) :
    TopologyRuntimeState :=
  let e := mkLinkState id active status in
  emit_change (EVT_LINK e)
    (mkRuntime (rt_run_id s) (rt_on_change s) (rt_instruments s) (<[id := e]> (rt_links s)) (rt_relays s)
       (rt_fixtures s) (rt_measurements s) (rt_faults s) (rt_last_update s) (rt_announced s)).

Definition update_relay (id state : string) (s : TopologyRuntimeState) : TopologyRuntimeState :=
  let e := mkRelayState id state in
  emit_change (EVT_RELAY e)
    (mkRuntime (rt_run_id s) (rt_on_change s) (rt_instruments s) (rt_links s) (<[id := e]> (rt_relays s))
       (rt_fixtures s) (rt_measurements s) (rt_faults s) (rt_last_update s) (rt_announced s)).

Definition measurement_key (dut_id testpoint_id : string) : string := dut_id +:+ ":" +:+ testpoint_id.

Definition update_measurement (dut_id testpoint_id : string) (value : pyval) (status : string)
    (s : TopologyRuntimeState) : TopologyRuntimeState :=
  let e := mkMeasurementState dut_id testpoint_id value status in
  emit_change (EVT_MEASUREMENT e)
    (mkRuntime (rt_run_id s) (rt_on_change s) (rt_instruments s) (rt_links s) (rt_relays s) (rt_fixtures s)
       (<[measurement_key dut_id testpoint_id := e]> (rt_measurements s)) (rt_faults s) (rt_last_update s)
       (rt_announced s)).

Definition update_fixture (id status : string) (sensors : option (pydict string pyval))
    (s : TopologyRuntimeState) : TopologyRuntimeState :=
  let e := mkFixtureState id status (default ∅ sensors) in
  emit_change (EVT_FIXTURE e)
    (mkRuntime (rt_run_id s) (rt_on_change s) (rt_instruments s) (rt_links s) (rt_relays s)
       (<[id := e]> (rt_fixtures s)) (rt_measurements s) (rt_faults s) (rt_last_update s) (rt_announced s)).

(** [fault.get(k, default)] of the four entries of a location. *)
Definition fault_location (fault : fault_dict) : list (string * pyval) :=
  [("route_id", get_default "route_id" PyNone fault); ("testpoint_id", get_default "testpoint_id" PyNone fault);
   ("suspect_links", get_default "suspect_links" (PyList []) fault);
   ("suspect_relays", get_default "suspect_relays" (PyList []) fault)].

Definition add_fault (fault : fault_dict) (s : TopologyRuntimeState) : TopologyRuntimeState :=
  let fault := set_default "timestamp" (PyInt now) fault in
  emit_change (EVT_FAULT fault (fault_location fault))
    (mkRuntime (rt_run_id s) (rt_on_change s) (rt_instruments s) (rt_links s) (rt_relays s) (rt_fixtures s)
       (rt_measurements s) (rt_faults s ++ [fault]) (rt_last_update s) (rt_announced s)).
End state.

(** [clear_faults] announces nothing. *)
Definition clear_faults (s : TopologyRuntimeState) : TopologyRuntimeState :=
  mkRuntime (rt_run_id s) (rt_on_change s) (rt_instruments s) (rt_links s) (rt_relays s) (rt_fixtures s)
    (rt_measurements s) [] (rt_last_update s) (rt_announced s).

Record Snapshot : Type := mkSnapshot {
  sn_run_id : string;
  sn_instruments : list InstrumentState;
  sn_links : list LinkState;
  sn_relays : list RelayState;
  sn_fixtures : list FixtureState;
  sn_measurements : list MeasurementState;
  sn_faults : list fault_dict
}.

(** [snapshot] *)
Definition snapshot (s : TopologyRuntimeState) : Snapshot :=
  mkSnapshot (rt_run_id s) (values (rt_instruments s)) (values (rt_links s)) (values (rt_relays s))
    (values (rt_fixtures s)) (values (rt_measurements s)) (rt_faults s).

Definition get_instrument (id : string) (s : TopologyRuntimeState) : option InstrumentState :=
  rt_instruments s !! id.
Definition get_measurement (dut_id testpoint_id : string) (s : TopologyRuntimeState) :
    option MeasurementState := rt_measurements s !! measurement_key dut_id testpoint_id.

(** ** Announcements tell the state *)

Inductive Update : Type :=
  | UInstrument (id status : string) (reading : pyval) (error : option string)
  | ULink (id : string) (active : bool) (status : string)
  | URelay (id state : string)
  | UMeasurement (dut_id testpoint_id : string) (value : pyval) (status : string)
  | UFixture (id status : string) (sensors : option (pydict string pyval))
  | UFault (fault : fault_dict).

Definition apply_update (now : Z) (u : Update) (s : TopologyRuntimeState) : TopologyRuntimeState :=
  match u with
  | UInstrument id status reading error => update_instrument now id status reading error s
  | ULink id active status => update_link now id active status s
  | URelay id state => update_relay now id state s
  | UMeasurement dut tp value status => update_measurement now dut tp value status s
  | UFixture id status sensors => update_fixture now id status sensors s
  | UFault fault => add_fault now fault s
  end.

Definition run_updates (run_id : string) (l : list (Z * Update)) : TopologyRuntimeState :=
  foldl (λ s u, apply_update u.1 u.2 s) (new_runtime run_id true) l.

(** What a listener that keeps the last announcement of each identifier knows. *)
Definition listen {A} (sel : Change → option (string * A)) (l : list Change) : pydict string A :=
  dict_of_list (omap sel l).

Definition of_instrument (c : Change) : option (string * InstrumentState) :=
  match c with EVT_INSTRUMENT s => Some (is_instrument_id s, s) | _ => None end.
Definition of_link (c : Change) : option (string * LinkState) :=
  match c with EVT_LINK s => Some (ls_link_id s, s) | _ => None end.
Definition of_relay (c : Change) : option (string * RelayState) :=
  match c with EVT_RELAY s => Some (rl_relay_id s, s) | _ => None end.
Definition of_fixture (c : Change) : option (string * FixtureState) :=
  match c with EVT_FIXTURE s => Some (fs_fixture_id s, s) | _ => None end.
Definition of_measurement (c : Change) : option (string * MeasurementState) :=
  match c with
  | EVT_MEASUREMENT s => Some (measurement_key (ms_dut_id s) (ms_testpoint_id s), s)
  | _ => None
  end.
Definition of_fault (c : Change) : option fault_dict :=
  match c with EVT_FAULT f _ => Some f | _ => None end.

Definition heard (run_id : string) (l : list Change) : Snapshot :=
  mkSnapshot run_id (values (listen of_instrument l)) (values (listen of_link l)) (values (listen of_relay l))
    (values (listen of_fixture l)) (values (listen of_measurement l)) (omap of_fault l).

Lemma listen_snoc {A} (sel : Change → option (string * A)) l c :
  listen sel (l ++ [c]) = match sel c with Some (k, v) => <[k := v]> (listen sel l) | None => listen sel l end.
Proof.
  unfold listen. rewrite omap_app. cbn. destruct (sel c) as [[k v]|]; cbn; [|by rewrite app_nil_r].
  unfold dict_of_list, dict_update. cbn [items]. by rewrite foldl_app.
Qed.

Definition told (s : TopologyRuntimeState) : Prop :=
  rt_on_change s = true
  ∧ rt_instruments s = listen of_instrument (rt_announced s) ∧ rt_links s = listen of_link (rt_announced s)
  ∧ rt_relays s = listen of_relay (rt_announced s) ∧ rt_fixtures s = listen of_fixture (rt_announced s)
  ∧ rt_measurements s = listen of_measurement (rt_announced s) ∧ rt_faults s = omap of_fault (rt_announced s).

Lemma apply_update_told now u s : told s → told (apply_update now u s).
Proof.
  intros (Hc & H1 & H2 & H3 & H4 & H5 & H6).
  destruct u; cbn [apply_update]; unfold told, update_instrument, update_link, update_relay,
    update_measurement, update_fixture, add_fault, emit_change;
    cbn -[listen list_omap app]; rewrite Hc, !listen_snoc, omap_app; cbn -[listen];
    rewrite ?app_nil_r, <- H1, <- H2, <- H3, <- H4, <- H5, <- H6; by split_and!.
Qed.

(** A listener that was there from the start knows the state: keeping the last announcement
    of each identifier gives the snapshot, entry by entry and in the same order, and there is one
    announcement for every update; the time of the last one is kept. *)
Theorem announcements_tell_state (run_id : string) (l : list (Z * Update)) :
  let s := run_updates run_id l in
  heard run_id (rt_announced s) = snapshot s
  ∧ length (rt_announced s) = length l
  ∧ rt_last_update s = default 0%Z (fst <$> last l).
Proof.
  cbn zeta. assert (told (run_updates run_id l) ∧ rt_run_id (run_updates run_id l) = run_id
    ∧ length (rt_announced (run_updates run_id l)) = length l
    ∧ rt_last_update (run_updates run_id l) = default 0%Z (fst <$> last l)) as (Ht & Hr & Hlen & Hlast).
  { induction l as [|[now u] l IH] using rev_ind; [done|].
    unfold run_updates in *. rewrite foldl_app. cbn [foldl fst snd]. destruct IH as (Ht & Hr & Hlen & _).
    split_and!; [by apply apply_update_told| | |].
    - by destruct u.
    - destruct Ht as [Hc _]. rewrite length_app, <- Hlen.
      destruct u; cbn; rewrite Hc, length_app; done.
    - rewrite last_snoc. by destruct u. }
  destruct Ht as (_ & H1 & H2 & H3 & H4 & H5 & H6). split_and!; [|done|done].
  unfold heard, snapshot. by rewrite <- H1, <- H2, <- H3, <- H4, <- H5, <- H6, Hr.
Qed.

(** ** Examples *)

(** [clear_faults] is not announced: the listener keeps the faults. *)
Example cleared_faults_unheard :
  let s := clear_faults (run_updates "R" [(1%Z, UFault (PyDict [("route_id", PyStr "R1")]))]) in
  sn_faults (snapshot s) = [] ∧ length (sn_faults (heard "R" (rt_announced s))) = 1%nat.
Proof. vm_compute. done. Qed.

(** Identifiers with a colon: one measurement replaces another. *)
Example measurements_collide :
  sn_measurements (snapshot (run_updates "R"
    [(1%Z, UMeasurement "a:b" "c" (PyInt 1) "pass"); (2%Z, UMeasurement "a" "b:c" (PyInt 2) "fail")]))
  = [mkMeasurementState "a" "b:c" (PyInt 2) "fail"].
Proof. vm_compute. reflexivity. Qed.
