(* ===== verification/FaultLocalizer.v ===== *)
(** * Locating faults (src/src/ate_platform/runtime/fault_localizer.py)

    From the result of a failed step and the fixture topology (Topology.v) to the routes, links,
    relays and fixtures that may be at fault. A step result is a dictionary; [StepFault] holds
    its entries with the types the code assumes of them, absent and empty ones alike where the
    code does not tell them apart. *)

From S2P Require Import Prelude PyDict PyStr PyNum Topology.

(** Python compares an int with a float exactly, without converting it (10 to the 400 is above
    every float, and [float] of it raises): the order of a number and a float, and the equality
    of two numbers, are parameters. *)
Class NumberOrder `{PF : PyFloats} : Type := {
  num_cmp : pyval → F → option comparison;
  num_eqb : pyval → pyval → bool
}.

Section localizer.
Context `{NO : NumberOrder} (float_str : F → string).

(** ** Data *)

Definition fault_type_value (t : FaultType) : string :=
  match t with
  | OPEN_CIRCUIT => "open_circuit" | SHORT_CIRCUIT => "short_circuit" | OVER_VOLTAGE => "over_voltage"
  | OVER_CURRENT => "over_current" | COMMUNICATION => "communication"
  | MEASUREMENT_OUT_OF_RANGE => "measurement_out_of_range" | RELAY_FAULT => "relay_fault"
  end.
Definition severity_value (s : Severity) : string :=
  match s with SevWarning => "warning" | SevError => "error" | SevCritical => "critical" end.

Record FaultLocation : Type := mkLocation {
  fl_type : string;
  fl_message : string;
  fl_suggestion : option string;
  fl_route_id : option string;
  fl_testpoint_id : option string;
  fl_instrument_id : option string;
  fl_fixture_id : option string;
  fl_suspect_links : list string;
  fl_suspect_relays : list string;
  fl_severity : string
}.

Record StepFault : Type := mkStepFault {
  sf_step_id : string;
  sf_measurement : pydict string pyval;                 (* empty when absent *)
  sf_relay_states : option (pydict string pyval);
  sf_fixture_sensors : option (pydict string pyval)
}.

(** The location of a fault on a route, of severity "error". *)
Definition on_route (t : FaultType) (message suggestion : string) (r : Route) (tp : option string)
    (relays : list string) : FaultLocation :=
  mkLocation (fault_type_value t) message (Some suggestion) (Some (ro_id r)) tp None None
    (ro_links r) relays "error".

(** ** Indexes *)

(** [{x.id: x for x in l}]: later ones replace earlier ones. *)
Definition index_by {A} (key : A → string) (l : list A) : pydict string A :=
  dict_of_list ((λ a, (key a, a)) <$> l).
Definition route_index (topo : FixtureTopology) : pydict string Route := index_by ro_id (ft_routes topo).
Definition link_index (topo : FixtureTopology) : pydict string Link := index_by li_id (ft_links topo).
Definition fixture_index (topo : FixtureTopology) : pydict string Fixture := index_by fx_id (ft_fixtures topo).
Definition dut_index (topo : FixtureTopology) : pydict string DUT := index_by du_id (ft_duts topo).

Section with_topology.
Context (topo : FixtureTopology).

(** [_find_routes_for_step] *)
Definition find_routes_for_step (step_id : string) : list Route :=
  if decide (step_id = "") then values (route_index topo)
  else
    match base.filter (λ r, ro_associated_step r = Some step_id) (ft_routes topo) with
    | [] => values (route_index topo)
    | routes => routes
    end.

(** [_find_testpoint] and [_find_sensor]: the first with the name. *)
Definition find_testpoint (dut_id tp : string) : option TestPoint :=
  d ← dut_index topo !! dut_id; head (base.filter (λ t, tp_id t = tp) (du_test_points d)).
Definition find_sensor (fixture : option Fixture) (sensor_id : string) : option Sensor :=
  f ← fixture; head (base.filter (λ s, se_id s = sensor_id) (fx_sensors f)).

(** [_instrument_of_link] *)
Definition instrument_of_link (l : Link) : option string :=
  if decide (ep_entity_type (li_from l) = INSTRUMENT_CHANNEL) then Some (ep_entity_id (li_from l)) else None.

(** ** Measurements *)

(** [v == 0] *)
Definition is_zero (v : pyval) : bool :=
  is_number v && negb (py_bool v).

(** [expected.get(key) is not None and actual > expected[key]], or [<]: comparing anything but a
    number raises TypeError. *)
Definition beyond (side : comparison) (key : string) (v : pyval) (range : pydict string F) : res bool :=
  match range !! key with
  | None => Ok false
  | Some b =>
      if is_number v then Ok (bool_decide (num_cmp v b = Some side))
      else Raise (TypeError ("'" +:+ (if side is Gt then ">" else "<")
        +:+ "' not supported between instances of '" +:+ type_name v +:+ "' and 'float'"))
  end.

(** [_open_circuit] *)
Definition open_circuit (r : Route) (tp : option string) : FaultLocation :=
  on_route OPEN_CIRCUIT
    ("测试点 " +:+ (if truthy tp then default "" tp else "?") +:+ " 测量值为零，疑似链路开路")
    "检查接线是否松动、继电器是否正常闭合、DUT 是否正确放入" r tp (ro_relays r).

Definition bound_str (key : string) (range : pydict string F) : string :=
  default "" (float_str <$> range !! key).

(** The known test point of a measurement, with its range. *)
Definition known_range (m : pydict string pyval) : option (string * pydict string F) :=
  tp ← true_str (get_default "testpoint_id" PyNone m);
  dut ← true_str (get_default "dut_id" PyNone m);
  t ← find_testpoint dut tp;
  range ← tp_expected_range t;
  Some (tp, range).

(** [_analyze_measurement] *)
Definition analyze_measurement (m : pydict string pyval) (r : Route) : res (option FaultLocation) :=
  let actual := get_default "value" PyNone m in
  if is_none actual then Ok None
  else
    match known_range m with
    | Some (tp, range) =>
        if is_zero actual then Ok (Some (open_circuit r (Some tp)))
        else
          high ← beyond Gt "max" actual range;
          if high : bool then
            Ok (Some (on_route MEASUREMENT_OUT_OF_RANGE
              ("测试点 " +:+ tp +:+ " 测量值 " +:+ py_str actual +:+ " 高于上限 " +:+ bound_str "max" range)
              "检查电源设定值、DUT 是否存在过压故障" r (Some tp) (ro_relays r)))
          else
            low ← beyond Lt "min" actual range;
            if low : bool then
              Ok (Some (on_route MEASUREMENT_OUT_OF_RANGE
                ("测试点 " +:+ tp +:+ " 测量值 " +:+ py_str actual +:+ " 低于下限 " +:+ bound_str "min" range)
                "检查 DUT 输出是否正常、接触电阻是否过大" r (Some tp) (ro_relays r)))
            else Ok None
    | None =>
        if is_zero actual then
          Ok (Some (open_circuit r (as_str (get_default "testpoint_id" PyNone m))))
        else Ok None
    end.

(** ** Instruments and relays *)

(** The fault of a link from an instrument, when it is one of communication. *)
Definition link_fault (r : Route) (link_id : string) : option FaultLocation :=
  l ← link_index topo !! link_id;
  inst ← instrument_of_link l;
  fault ← li_fault_info l;
  match ft_type fault with
  | COMMUNICATION =>
      Some (mkLocation (fault_type_value COMMUNICATION)
        ("仪器 " +:+ inst +:+ " 通信故障：" +:+ ft_message fault)
        (Some (if truthy (ft_suggestion fault) then default "" (ft_suggestion fault)
               else "检查仪器通信线缆与地址配置，必要时重启仪器"))
        (Some (ro_id r)) None (Some inst) None [link_id] [] (severity_value (ft_severity fault)))
  | _ => None
  end.

(** [_check_instrument_status] *)
Definition check_instrument_status (r : Route) : option FaultLocation :=
  head (omap (link_fault r) (ro_links r)).

(** Is the state the script reported "closed"? *)
Definition is_closed (v : pyval) : bool :=
  match v with
  | PyMap l => bool_decide (as_str (map_get_default "state" PyNone l) = Some "closed")
  | PyBool b => b
  | v => bool_decide (as_str v = Some "closed")
  end.

Definition relay_open (states : pydict string pyval) (relay_id : string) : bool :=
  let v := get_default relay_id PyNone states in negb (is_none v) && negb (is_closed v).

Definition route_name (r : Route) : string := if decide (ro_name r = "") then ro_id r else ro_name r.

(** [_check_relay_states] *)
Definition check_relay_states (states : pydict string pyval) (r : Route) : option FaultLocation :=
  (λ relay_id, on_route RELAY_FAULT
     ("继电器 " +:+ relay_id +:+ " 未按预期闭合（路径 " +:+ route_name r +:+ "）")
     "检查继电器控制信号（GPIO/Modbus）、驱动电路与触点" r None [relay_id])
  <$> head (base.filter (λ x, relay_open states x = true) (ro_relays r)).

(** ** Sensors *)

(** [v == w]: numbers by value, whatever their class. *)
Fixpoint py_eqb (v w : pyval) : bool :=
  match v, w with
  | PyNone, PyNone => true
  | PyStr a, PyStr b | PyObj a, PyObj b => bool_decide (a = b)
  | PyList l, PyList l' =>
      (fix go l l' := match l, l' with
                      | [], [] => true
                      | a :: l, b :: l' => py_eqb a b && go l l'
                      | _, _ => false
                      end) l l'
  | PyMap l, PyMap l' =>
      (length l =? length l')%nat
      && forallb (λ kv, existsb (λ kv', py_eqb kv.1 kv'.1 && py_eqb kv.2 kv'.2) l') l
  | _, _ => is_number v && is_number w && num_eqb v w
  end.

(** [_out_of_range] *)
Definition out_of_range (v : pyval) (s : Sensor) : res bool :=
  match se_range s with
  | None => Ok false
  | Some range =>
      high ← beyond Gt "max" v range;
      if high : bool then Ok true else beyond Lt "min" v range
  end.

(** One reading. *)
Definition sensor_fault (fixture_id sensor_id : string) (reading : pyval) : res (option FaultLocation) :=
  let '(value, expected) :=
    match reading with
    | PyMap l => (map_get_default "value" PyNone l, map_get_default "expected" PyNone l)
    | v => (v, PyNone)
    end in
  match find_sensor (fixture_index topo !! fixture_id) sensor_id with
  | None => Ok None
  | Some s =>
      match se_type s with
      | POSITION =>
          if py_eqb value expected then Ok None
          else Ok (Some (mkLocation (fault_type_value RELAY_FAULT)
            ("夹具 " +:+ fixture_id +:+ " 传感器 " +:+ sensor_id +:+ " 未到位（值=" +:+ py_str value
             +:+ "，期望=" +:+ py_str expected +:+ "）")
            (Some "检查气缸是否卡滞、气源压力与电磁阀状态") None None None (Some fixture_id) [] [] "error"))
      | TEMPERATURE =>
          if is_number value then
            bad ← out_of_range value s;
            if bad : bool then
              Ok (Some (mkLocation (fault_type_value MEASUREMENT_OUT_OF_RANGE)
                ("夹具 " +:+ fixture_id +:+ " 温度传感器 " +:+ sensor_id +:+ " 读数 " +:+ py_str value
                 +:+ " 超量程")
                (Some "检查温控回路与散热状态") None None None (Some fixture_id) [] [] "warning"))
            else Ok None
          else Ok None
      | _ => Ok None
      end
  end.

(** [l.append(f(x))] for the results that are not None. *)
Definition collect {A} (f : A → res (option FaultLocation)) (l : list A) : res (list FaultLocation) :=
  omap id <$> mapM f l.

Definition fixture_readings (kv : string * pyval) : list (string * string * pyval) :=
  match kv.2 with
  | PyMap l => omap (λ r, match r.1 with PyStr s => Some (kv.1, s, r.2) | _ => None end) l
  | _ => []
  end.

(** [_check_fixture_sensors] *)
Definition check_fixture_sensors (sensors : pydict string pyval) : res (list FaultLocation) :=
  collect (λ x, sensor_fault x.1.1 x.1.2 x.2) (items sensors ≫= fixture_readings).

(** ** All clues *)

Definition has_clues (f : StepFault) : bool :=
  negb (bool_decide (items (sf_measurement f) = []))
  || bool_decide (is_Some (sf_relay_states f)) || bool_decide (is_Some (sf_fixture_sensors f)).

Definition nothing_found (f : StepFault) (r : Route) : FaultLocation :=
  on_route MEASUREMENT_OUT_OF_RANGE
    ("步骤 " +:+ sf_step_id f +:+ " 失败，路径 " +:+ route_name r +:+ " 未检出具体故障")
    "检查路径链路与继电器闭合状态，必要时重新校准仪器" r None (ro_relays r).

(** The locations in the order in which they are found. *)
Definition find_locations (f : StepFault) : res (list FaultLocation) :=
  let routes := find_routes_for_step (sf_step_id f) in
  by_measurement ←
    (if bool_decide (items (sf_measurement f) = []) then Ok []
     else collect (analyze_measurement (sf_measurement f)) routes);
  let by_instrument := omap check_instrument_status routes in
  let by_relay := omap (check_relay_states (default ∅ (sf_relay_states f))) routes in
  by_sensor ← check_fixture_sensors (default ∅ (sf_fixture_sensors f));
  let found := by_measurement ++ by_instrument ++ by_relay ++ by_sensor in
  Ok (match found, has_clues f, routes with
      | [], false, r :: _ => [nothing_found f r]
      | _, _, _ => found
      end).

(** [locations.sort(key=lambda loc: loc.severity != "critical")] *)
Definition not_later (a b : FaultLocation) : Prop :=
  fl_severity a = "critical" ∨ fl_severity b ≠ "critical".
#[export] Instance not_later_dec : RelDecision not_later.
Proof. unfold RelDecision, not_later. apply _. Defined.

(** [localize] *)
Definition localize (f : StepFault) : res (list FaultLocation) :=
  found ← find_locations f; Ok (stable_sort not_later found).
End with_topology.
End localizer.

(** ** What is located *)

Section results.
Context `{NO : NumberOrder} (float_str : F → string) (topo : FixtureTopology).

Lemma index_by_in {A} (key : A → string) l a : a ∈ values (index_by key l) → a ∈ l.
Proof.
  unfold values, index_by. intros ([k v] & -> & Hkv)%list_elem_of_fmap.
  apply elem_of_items in Hkv; [|apply dict_wf_of_list]. apply dict_of_list_lookup_inv in Hkv.
  apply list_elem_of_fmap in Hkv as (x & [= -> ->] & Hx). done.
Qed.

Lemma index_by_lookup {A} (key : A → string) l k a : index_by key l !! k = Some a → a ∈ l ∧ key a = k.
Proof.
  unfold index_by. intros Hk. apply dict_of_list_lookup_inv in Hk.
  apply list_elem_of_fmap in Hk as (x & [= -> ->] & Hx). done.
Qed.

(** A route that is searched for [step_id]. *)
Definition searched (step_id : string) (r : Route) : Prop :=
  r ∈ ft_routes topo
  ∧ (ro_associated_step r = Some step_id
     ∨ step_id = "" ∨ ∀ r', r' ∈ ft_routes topo → ro_associated_step r' ≠ Some step_id).

Lemma find_routes_searched step_id r : r ∈ find_routes_for_step topo step_id → searched step_id r.
Proof.
  unfold find_routes_for_step. case_decide as Hs.
  - intros Hr%index_by_in. split; [done|]. by right; left.
  - destruct (base.filter _ _) as [|r0 l] eqn:Ef.
    + intros Hr%index_by_in. split; [done|]. right; right. intros r' Hr' Ha.
      exact (proj1 (list_filter_empty _ _) Ef r' Hr' Ha).
    + rewrite <- Ef. intros [Ha Hr]%list_elem_of_filter. split; [done|by left].
Qed.

Lemma elem_of_collect {A} (f : A → res (option FaultLocation)) l locs loc :
  collect f l = Ok locs → loc ∈ locs ↔ ∃ a, a ∈ l ∧ f a = Ok (Some loc).
Proof.
  unfold collect. intros Hc. destruct (mapM f l) as [os|e] eqn:Em; [|done]. injection Hc as <-.
  apply res_mapM_Ok in Em. rewrite list_elem_of_omap. split.
  - intros (o & Ho & Hid). apply list_elem_of_lookup in Ho as [i Hi].
    destruct (Forall2_lookup_r _ _ _ _ _ Em Hi) as (a & Ha & Hf). exists a.
    split; [by eapply list_elem_of_lookup_2|]. cbn in Hid. by subst.
  - intros (a & Ha & Hf). apply list_elem_of_lookup in Ha as [i Hi].
    destruct (Forall2_lookup_l _ _ _ _ _ Em Hi) as (o & Ho & Hf'). rewrite Hf in Hf'. injection Hf' as <-.
    exists (Some loc). split; [by eapply list_elem_of_lookup_2|done].
Qed.

(** A location on route [r]: it suspects nothing off the route. *)
Definition blames (r : Route) (loc : FaultLocation) : Prop :=
  fl_route_id loc = Some (ro_id r) ∧ fl_suspect_links loc ⊆ ro_links r ∧ fl_suspect_relays loc ⊆ ro_relays r.

Lemma on_route_blames t m s r tp relays : relays ⊆ ro_relays r → blames r (on_route t m s r tp relays).
Proof. by repeat split. Qed.

Lemma analyze_blames m r loc : analyze_measurement float_str topo m r = Ok (Some loc) → blames r loc.
Proof.
  unfold analyze_measurement, open_circuit. intros H. destruct (is_none _); [done|].
  destruct (known_range _ _) as [[tp range]|]; destruct (is_zero _); try (injection H as <-; by apply on_route_blames); try done.
  apply res_bind_Ok in H as ([] & _ & H); [injection H as <-; by apply on_route_blames|].
  apply res_bind_Ok in H as ([] & _ & H); [injection H as <-; by apply on_route_blames|done].
Qed.

Lemma link_fault_spec r x loc :
  link_fault topo r x = Some loc ↔
  ∃ l inst fault, link_index topo !! x = Some l ∧ instrument_of_link l = Some inst
    ∧ li_fault_info l = Some fault ∧ ft_type fault = COMMUNICATION
    ∧ loc = mkLocation (fault_type_value COMMUNICATION)
        ("仪器 " +:+ inst +:+ " 通信故障：" +:+ ft_message fault)
        (Some (if truthy (ft_suggestion fault) then default "" (ft_suggestion fault)
               else "检查仪器通信线缆与地址配置，必要时重启仪器"))
        (Some (ro_id r)) None (Some inst) None [x] [] (severity_value (ft_severity fault)).
Proof.
  unfold link_fault. split.
  - destruct (link_index topo !! x) as [l|]; [|done]. cbn.
    destruct (instrument_of_link l) as [inst|] eqn:Ei; [|done]. cbn.
    destruct (li_fault_info l) as [fault|] eqn:Ef; [|done]. cbn.
    destruct (ft_type fault) eqn:Et; try done. intros [= <-]. by exists l, inst, fault.
  - intros (l & inst & fault & -> & Hi & Hf & Ht & ->). cbn. rewrite Hi. cbn. rewrite Hf. cbn. by rewrite Ht.
Qed.

Lemma head_Some_in {A} (l : list A) x : head l = Some x → x ∈ l.
Proof. destruct l; [done|]. intros [= ->]. by left. Qed.

Lemma instrument_blames r loc : check_instrument_status topo r = Some loc → blames r loc.
Proof.
  unfold check_instrument_status. intros Hh%head_Some_in. apply list_elem_of_omap in Hh as (x & Hx & Hl).
  apply link_fault_spec in Hl as (l & inst & fault & _ & _ & _ & _ & ->).
  split; [done|]. cbn. split; [|done || apply list_subseteq_nil]. by intros y ->%list_elem_of_singleton.
Qed.

Lemma relay_blames states r loc : check_relay_states states r = Some loc → blames r loc.
Proof.
  unfold check_relay_states. destruct (head _) as [x|] eqn:Eh; [|done]. intros [= <-].
  apply on_route_blames. apply head_Some_in, list_elem_of_filter in Eh as [_ Hx].
  by intros y ->%list_elem_of_singleton.
Qed.

Lemma sensor_names_fixture fx sensor reading loc :
  sensor_fault topo fx sensor reading = Ok (Some loc) →
  fl_route_id loc = None ∧ fl_fixture_id loc = Some fx ∧ ∃ f, f ∈ ft_fixtures topo ∧ fx_id f = fx.
Proof.
  unfold sensor_fault, find_sensor. intros H.
  destruct (match reading with PyMap l => _ | _ => _ end) as [value expected].
  destruct (fixture_index topo !! fx) as [f|] eqn:Ef; cbn in H; [|done].
  apply index_by_lookup in Ef as [Hf Hid].
  assert (∀ loc', fl_route_id loc' = None → fl_fixture_id loc' = Some fx → loc' = loc →
    fl_route_id loc = None ∧ fl_fixture_id loc = Some fx ∧ ∃ f, f ∈ ft_fixtures topo ∧ fx_id f = fx) as Hloc
    by (intros loc' ? ? <-; split_and!; [done|done|by exists f]).
  destruct (head _) as [s|]; [|done]. destruct (se_type s); try done.
  - destruct (py_eqb _ _); [done|]. injection H as H. by refine (Hloc _ _ _ H).
  - destruct (Topology.is_number _); [|done]. apply res_bind_Ok in H as ([] & _ & H); [|done].
    injection H as H. by refine (Hloc _ _ _ H).
Qed.

(** The sort puts the critical locations first and keeps the order otherwise. *)
Definition critical (loc : FaultLocation) : Prop := fl_severity loc = "critical".
#[local] Instance critical_dec loc : Decision (critical loc).
Proof. unfold critical. apply _. Defined.

Lemma insert_location x l1 l2 :
  Forall critical l1 → Forall (λ y, ¬ critical y) l2 →
  insert_sorted not_later x (l1 ++ l2)
  = if decide (critical x) then x :: l1 ++ l2 else l1 ++ x :: l2.
Proof.
  intros H1 H2. destruct (decide (critical x)) as [Hx|Hx].
  - destruct (l1 ++ l2) as [|y l]; [done|]. cbn. by rewrite decide_True by (by left).
  - induction H1 as [|y l1 Hy H1 IH].
    + destruct H2 as [|y l2 Hy H2]; [done|]. cbn. by rewrite decide_True by (by right).
    + cbn. rewrite decide_False by (by intros [?|?]). f_equal. apply IH.
Qed.

Lemma sort_locations l :
  stable_sort not_later l = base.filter critical l ++ base.filter (λ y, ¬ critical y) l.
Proof.
  induction l as [|x l IH]; [done|].
  change (stable_sort not_later (x :: l)) with (insert_sorted not_later x (stable_sort not_later l)).
  rewrite IH, insert_location, !filter_cons.
  - destruct (decide (critical x)) as [Hx|Hx].
    + by rewrite (decide_False (P := ¬ critical x)) by (by intros ?).
    + by rewrite (decide_True (P := ¬ critical x)).
  - apply Forall_forall. by intros y [? _]%list_elem_of_filter.
  - apply Forall_forall. by intros y [? _]%list_elem_of_filter.
Qed.

Lemma localize_Ok f locs :
  localize float_str topo f = Ok locs →
  ∃ found, find_locations float_str topo f = Ok found
    ∧ locs = base.filter critical found ++ base.filter (λ y, ¬ critical y) found
    ∧ ∀ loc, loc ∈ locs ↔ loc ∈ found.
Proof.
  unfold localize. intros (found & Hf & [= <-])%res_bind_Ok. exists found.
  split_and!; [done|apply sort_locations|]. intros loc. apply elem_of_stable_sort.
Qed.

(** The clues of the four kinds, each on the routes searched. *)
Lemma find_locations_Ok f found :
  find_locations float_str topo f = Ok found →
  ∃ ms ss,
    (if bool_decide (items (sf_measurement f) = []) then Ok []
     else collect (analyze_measurement float_str topo (sf_measurement f))
            (find_routes_for_step topo (sf_step_id f))) = Ok ms
    ∧ check_fixture_sensors topo (default ∅ (sf_fixture_sensors f)) = Ok ss
    ∧ let all := ms ++ omap (check_instrument_status topo) (find_routes_for_step topo (sf_step_id f))
                 ++ omap (check_relay_states (default ∅ (sf_relay_states f)))
                      (find_routes_for_step topo (sf_step_id f)) ++ ss in
      found = all
      ∨ all = [] ∧ has_clues f = false
        ∧ ∃ r, r ∈ find_routes_for_step topo (sf_step_id f) ∧ found = [nothing_found f r].
Proof.
  unfold find_locations. intros (ms & Hms & H)%res_bind_Ok. apply res_bind_Ok in H as (ss & Hss & H).
  injection H as <-. exists ms, ss. split_and!; [done|done|]. cbn zeta.
  destruct (ms ++ _) as [|x l]; [|by left]. destruct (has_clues f) eqn:Ec; [by left|].
  destruct (find_routes_for_step topo (sf_step_id f)) as [|r rs]; [by left|]. right.
  split_and!; [done|done|]. exists r. split; [by left|done].
Qed.

(** What is located, for a result without ill-typed measurements. The critical locations come
    first, each group in the order in which it was found. Every location with a route names one
    that was searched (the step's own routes, or all routes when the step has none), and suspects
    only links and relays of it; every other names a fixture of the topology. Nothing is missed:
    a relay of a searched route that is reported not closed, and a communication fault on a link
    from an instrument on a searched route, are located on that route; and without any clue an
    answer is given as long as there is a route. *)
Theorem localize_contract (f : StepFault) (locs : list FaultLocation)
    (Hl : localize float_str topo f = Ok locs) :
  (∃ found, find_locations float_str topo f = Ok found
     ∧ locs = base.filter critical found ++ base.filter (λ y, ¬ critical y) found)
  ∧ (∀ loc, loc ∈ locs →
       (∃ r, searched (sf_step_id f) r ∧ blames r loc)
       ∨ (fl_route_id loc = None ∧ ∃ fx, fl_fixture_id loc = Some (fx_id fx) ∧ fx ∈ ft_fixtures topo))
  ∧ (∀ r x, r ∈ find_routes_for_step topo (sf_step_id f) → x ∈ ro_relays r →
       relay_open (default ∅ (sf_relay_states f)) x = true →
       ∃ loc, loc ∈ locs ∧ fl_type loc = "relay_fault" ∧ fl_route_id loc = Some (ro_id r))
  ∧ (∀ r x l inst fault, r ∈ find_routes_for_step topo (sf_step_id f) → x ∈ ro_links r →
       link_index topo !! x = Some l → instrument_of_link l = Some inst →
       li_fault_info l = Some fault → ft_type fault = COMMUNICATION →
       ∃ loc, loc ∈ locs ∧ fl_type loc = "communication" ∧ fl_route_id loc = Some (ro_id r))
  ∧ (locs = [] → has_clues f = true ∨ find_routes_for_step topo (sf_step_id f) = []).
Proof.
  destruct (localize_Ok f locs Hl) as (found & Hfound & Hsort & Hin).
  pose proof Hfound as Hf. apply find_locations_Ok in Hf as (ms & ss & Hms & Hss & Hall).
  set (all := ms ++ _) in Hall. cbn zeta in Hall.
  assert (∀ loc, loc ∈ all → loc ∈ locs) as Hcomplete.
  { intros loc Hloc. apply Hin. destruct Hall as [->|(Hnil & _)]; [done|].
    rewrite Hnil in Hloc. by apply not_elem_of_nil in Hloc. }
  split_and!.
  - by exists found.
  - intros loc Hloc%Hin. destruct Hall as [->|(_ & _ & r & Hr & ->)].
    + unfold all in Hloc. rewrite !elem_of_app in Hloc. destruct Hloc as [H|[H|[H|H]]].
      * left. destruct (bool_decide _); [injection Hms as <-; by apply not_elem_of_nil in H|].
        apply (elem_of_collect _ _ _ _ Hms) in H as (r & Hr & Ha). exists r.
        split; [by apply find_routes_searched|by eapply analyze_blames].
      * left. apply list_elem_of_omap in H as (r & Hr & Ha). exists r.
        split; [by apply find_routes_searched|by apply instrument_blames].
      * left. apply list_elem_of_omap in H as (r & Hr & Ha). exists r.
        split; [by apply find_routes_searched|by eapply relay_blames].
      * right. apply (elem_of_collect _ _ _ _ Hss) in H as ([[fx se] v] & _ & Ha).
        apply sensor_names_fixture in Ha as (? & Hfx & g & Hg & Hid). split; [done|].
        exists g. by rewrite Hid.
    + apply list_elem_of_singleton in Hloc as ->. left. exists r.
      split; [by apply find_routes_searched|by apply on_route_blames].
  - intros r x Hr Hx Ho.
    assert (∃ loc, check_relay_states (default ∅ (sf_relay_states f)) r = Some loc
      ∧ fl_type loc = "relay_fault" ∧ fl_route_id loc = Some (ro_id r)) as (loc & Hc & ? & ?).
    { clear Hsort. unfold check_relay_states. destruct (base.filter _ _) as [|y l] eqn:Ef; [|eexists; split; [reflexivity|by split]].
      exfalso. exact (proj1 (list_filter_empty _ _) Ef x Hx Ho). }
    exists loc. split_and!; [|done..]. apply Hcomplete. unfold all. rewrite !elem_of_app. right; right; left.
    apply list_elem_of_omap. by exists r.
  - intros r x l inst fault Hr Hx H1 H2 H3 H4.
    assert (∃ loc, check_instrument_status topo r = Some loc
      ∧ fl_type loc = "communication" ∧ fl_route_id loc = Some (ro_id r)) as (loc & Hc & ? & ?).
    { unfold check_instrument_status. destruct (omap (link_fault topo r) (ro_links r)) as [|loc k] eqn:Eo.
      - exfalso. eapply not_elem_of_nil. rewrite <- Eo. apply list_elem_of_omap. exists x. split; [done|].
        apply link_fault_spec. by exists l, inst, fault.
      - exists loc. split; [done|].
        assert (loc ∈ omap (link_fault topo r) (ro_links r)) as Hin' by (rewrite Eo; by left).
        apply list_elem_of_omap in Hin' as (y & _ & Hy).
        apply link_fault_spec in Hy as (? & ? & ? & _ & _ & _ & _ & ->). done. }
    exists loc. split_and!; [|done..]. apply Hcomplete. unfold all. rewrite !elem_of_app. right; left.
    apply list_elem_of_omap. by exists r.
  - intros ->. destruct (has_clues f) eqn:Ec; [by left|]. right.
    destruct (find_routes_for_step topo (sf_step_id f)) as [|r rs] eqn:Er; [done|]. exfalso.
    assert (found = []) as ->.
    { destruct found as [|y k]; [done|]. exfalso. eapply not_elem_of_nil. apply Hin. by left. }
    unfold find_locations in Hfound. apply res_bind_Ok in Hfound as (m2 & _ & H).
    apply res_bind_Ok in H as (s2 & _ & H). rewrite Ec, Er in H. by destruct (m2 ++ _).
Qed.

(** The verdict on a measured number at a known test point: zero is an open circuit, whatever
    the range; otherwise it is out of range above the maximum or below the minimum, as far as
    they are given, and else no location is given on the route. *)
Theorem measurement_verdict (m : pydict string pyval) (r : Route) (tp : string)
    (range : pydict string F) (v := get_default "value" PyNone m)
    (Hk : known_range topo m = Some (tp, range)) (Hn : Topology.is_number v = true) :
  let above := ∃ b, range !! "max" = Some b ∧ num_cmp v b = Some Gt in
  let below := ∃ b, range !! "min" = Some b ∧ num_cmp v b = Some Lt in
  ∃ o, analyze_measurement float_str topo m r = Ok o
    ∧ (is_zero v = true → (fl_type <$> o) = Some "open_circuit")
    ∧ (is_zero v = false → above ∨ below → (fl_type <$> o) = Some "measurement_out_of_range")
    ∧ (is_zero v = false → ¬ above → ¬ below → o = None).
Proof.
  cbn zeta. unfold analyze_measurement. rewrite Hk. fold v.
  assert (∀ side key, ∃ b, beyond side key v range = Ok b
    ∧ (b = true ↔ ∃ x, range !! key = Some x ∧ num_cmp v x = Some side)) as Hb.
  { intros side key. unfold beyond. destruct (range !! key) as [x|]; [|exists false; naive_solver].
    rewrite Hn. eexists. split; [done|]. rewrite bool_decide_eq_true. naive_solver. }
  destruct (Hb Gt "max") as (above & -> & Ha), (Hb Lt "min") as (below & -> & Hl).
  destruct (is_none v) eqn:En; [by destruct v|].
  destruct (is_zero v); [eexists; split; [reflexivity|]; naive_solver|].
  destruct above; cbn; [eexists; split; [reflexivity|]; naive_solver|].
  destruct below; cbn; eexists; (split; [reflexivity|]); naive_solver.
Qed.
End results.

(** ** Witnesses and examples *)

#[local] Existing Instance whole_floats.
#[local] Instance whole_order : NumberOrder := {|
  num_cmp v b := match whole_float v with Ok x => Some (Z.compare x b) | Raise _ => None end;
  num_eqb v w := match whole_float v, whole_float w with Ok x, Ok y => (x =? y)%Z | _, _ => false end
|}.

Definition show_whole (z : F) : string := pretty (z : Z).
Definition volts (lo hi : Z) : pydict string F := PyDict [("min", lo); ("max", hi)].
Definition comm_fault : FaultInfo := mkFault COMMUNICATION SevWarning "timeout" (0%Z : @F whole_floats) "proxy" None.
Definition lab : FixtureTopology :=
  mkTopology "T" "lab" "1.0" "" []
    [mkFixture "FX" "fixture" "1.0" [] [] [mkSensor "clamp" POSITION "" None None;
       mkSensor "heat" TEMPERATURE "C" None (Some (volts 10 40))] [] FixIdle 1 ∅]
    [mkDUT "U" "board" None [mkTestPoint "TP1" "net" VOLTAGE (Some (volts 0 5)) None TpIdle] [] 0 0 DutIdle ∅]
    [mkLink "L1" (mkEndpoint INSTRUMENT_CHANNEL "DMM" "CH1") (mkEndpoint DUT_TESTPOINT "U" "TP1")
       SigSignal None None None LinkFault (Some comm_fault)]
    [mkRoute "R1" "" ["L1"] ["K1"; "K2"] false (Some "measure");
     mkRoute "R2" "" [] ["K3"] false (Some "other")] [].

Definition reading (dut tp : string) (v : pyval) : pydict string pyval :=
  PyDict [("dut_id", PyStr dut); ("testpoint_id", PyStr tp); ("value", v);
          ("expected_range", PyMap [(PyStr "max", PyInt 1)])].
Definition locate (f : StepFault) : option (list (string * option string * string)) :=
  match localize show_whole lab f with
  | Ok l => Some ((λ x, (fl_type x, fl_route_id x, fl_severity x)) <$> l)
  | Raise _ => None
  end.
Definition by_value (v : pyval) : StepFault := mkStepFault "measure" (reading "U" "TP1" v) None None.

Example too_high : locate (by_value (PyInt 7))
  = Some [("measurement_out_of_range", Some "R1", "error"); ("communication", Some "R1", "warning")].
Proof. vm_compute. reflexivity. Qed.

(** Zero volts, in a range that contains zero, are located as an open circuit. *)
Example zero_in_range : locate (by_value (PyInt 0))
  = Some [("open_circuit", Some "R1", "error"); ("communication", Some "R1", "warning")].
Proof. vm_compute. reflexivity. Qed.

(** The range that comes with the measurement is not looked at. *)
Example own_range_ignored :
  locate (mkStepFault "measure" (reading "U" "TP9" (PyInt 7)) None None)
  = Some [("communication", Some "R1", "warning")].
Proof. vm_compute. reflexivity. Qed.

(** The locations are not in the order of their severity: a warning comes before an error. *)
Example warning_first :
  locate (mkStepFault "measure" ∅ (Some (PyDict [("K2", PyStr "open")])) None)
  = Some [("communication", Some "R1", "warning"); ("relay_fault", Some "R1", "error")].
Proof. vm_compute. reflexivity. Qed.

(** A step without routes of its own is searched on every route. *)
Example foreign_route :
  locate (mkStepFault "unknown" ∅ (Some (PyDict [("K3", PyBool false)])) None)
  = Some [("communication", Some "R1", "warning"); ("relay_fault", Some "R2", "error")].
Proof. vm_compute. reflexivity. Qed.

Example sensors_located :
  locate (mkStepFault "other" ∅ None (Some (PyDict [("FX",
    PyMap [(PyStr "heat", PyInt 80); (PyStr "clamp", PyMap [(PyStr "value", PyInt 0); (PyStr "expected", PyBool false)])])])))
  = Some [("measurement_out_of_range", None, "warning")].
Proof. vm_compute. reflexivity. Qed.

Lemma localize_contract_witness :
  ∃ locs, localize show_whole lab (by_value (PyInt 7)) = Ok locs
    ∧ ∃ loc, loc ∈ locs ∧ fl_type loc = "communication" ∧ fl_route_id loc = Some "R1".
Proof.
  destruct (localize show_whole lab (by_value (PyInt 7))) as [locs|e] eqn:Hl; [|by vm_compute in Hl].
  exists locs. split; [reflexivity|].
  destruct (localize_contract _ _ _ _ Hl) as (_ & _ & _ & Hlink & _).
  refine (Hlink (mkRoute "R1" "" ["L1"] ["K1"; "K2"] false (Some "measure")) "L1" _ "DMM" comm_fault
    _ _ _ _ _ _); [by left|by left|reflexivity..].
Defined.

Lemma measurement_verdict_witness :
  known_range lab (reading "U" "TP1" (PyInt 7)) = Some ("TP1", volts 0 5)
  ∧ ∃ o, analyze_measurement show_whole lab (reading "U" "TP1" (PyInt 7))
           (mkRoute "R1" "" [] [] false None) = Ok o
         ∧ (fl_type <$> o) = Some "measurement_out_of_range".
Proof.
  split; [reflexivity|].
  destruct (measurement_verdict show_whole lab (reading "U" "TP1" (PyInt 7))
    (mkRoute "R1" "" [] [] false None) "TP1" (volts 0 5) eq_refl eq_refl) as (o & Ho & _ & H & _).
  exists o. split; [exact Ho|]. apply H; [reflexivity|]. left. exists 5%Z. split; reflexivity.
Defined.
