(* ===== verification/Stations.v ===== *)
(** * Hand-offs between stations (src/src/ate_platform/scheduler/station_orchestrator.py,
    src/src/shared/multi_station.py)

    A station that has finished a session writes a record under the session's key in a key-value
    bucket; the next station waits for it. The bucket, the JSON codec and the clock are parameters;
    a time stamp is its ISO text, [iso] parses one and writes it back. *)

From S2P Require Import Prelude PyDict PyStr PyNum Parser.

(** ** Data *)

Inductive HandoffStatus : Type := HandoffPending | HandoffDone | HandoffTimeout | HandoffFailed.

Record StationWorkflowConfig `{PyFloats} : Type := mkStation {
  sc_station_id : pyval;
  sc_name : pyval;
  sc_sequence_ref : pyval;
  sc_upstream_stations : list pyval;
  sc_timeout : F
}.

Record StationWorkflow `{PyFloats} : Type := mkWorkflow {
  wf_workflow_id : pyval;
  wf_name : pyval;
  wf_stations : list StationWorkflowConfig;
  wf_handoff_rules : ydict;
  wf_created_at : string
}.

Arguments mkStation {_} _ _ _ _ _.
Arguments mkWorkflow {_} _ _ _ _ _.

Record StationHandoff : Type := mkHandoff {
  sh_session_id : pyval;
  sh_station_id : pyval;
  sh_serial_number : pyval;
  sh_pass_fail : bool;
  sh_measurement_summary : ydict;
  sh_timestamp : string
}.

(** What a bucket answers to [get] and [put]. *)
Inductive KvAnswer : Type :=
  | KeyNotFound
  | KvFailed (msg : string)
  | KvEntry (value : option string).

Class KvBucket : Type := {
  Bucket : Type;
  kv_get : string → Bucket → KvAnswer;
  kv_put : string → string → Bucket → (string + Z) * Bucket   (* an error, or the revision *)
}.

Section stations.
Context `{PF : PyFloats} {KV : KvBucket}.
Context (iso : string → option string) (now_iso : string).
Context (float_value : F → pyval).
Context (json_dumps : pyval → option string) (json_loads : string → option pyval).

(** ** Dictionaries *)

Definition str_map (l : list (string * pyval)) : pyval := PyMap ((λ kv, (PyStr kv.1, kv.2)) <$> l).

(** The time stamp of a record; [now()] when it is missing or malformed. *)
Definition timestamp_of (v : pyval) : string := default now_iso (as_str v ≫= iso).

Definition handoff_to_dict (h : StationHandoff) : pyval :=
  str_map [("session_id", sh_session_id h); ("station_id", sh_station_id h);
           ("serial_number", sh_serial_number h); ("pass_fail", PyBool (sh_pass_fail h));
           ("measurement_summary", PyMap (sh_measurement_summary h));
           ("timestamp", PyStr (sh_timestamp h))].

Definition handoff_from_dict (data : pyval) : res StationHandoff :=
  d ← as_dict data;
  summary ← dict_copy (dget d "measurement_summary" (PyMap []));
  Ok (mkHandoff (dget d "session_id" (PyStr "")) (dget d "station_id" (PyStr ""))
        (dget d "serial_number" (PyStr "")) (py_bool (dget d "pass_fail" (PyBool true))) summary
        (timestamp_of (dget d "timestamp" PyNone))).

Definition station_to_dict (s : StationWorkflowConfig) : pyval :=
  str_map [("station_id", sc_station_id s); ("name", sc_name s); ("sequence_ref", sc_sequence_ref s);
           ("upstream_stations", PyList (sc_upstream_stations s)); ("timeout", float_value (sc_timeout s))].

Definition workflow_to_dict (w : StationWorkflow) : pyval :=
  str_map [("workflow_id", wf_workflow_id w); ("name", wf_name w);
           ("stations", PyList (station_to_dict <$> wf_stations w));
           ("handoff_rules", PyMap (wf_handoff_rules w)); ("created_at", PyStr (wf_created_at w))].

Definition station_from_dict (v : pyval) : res StationWorkflowConfig :=
  d ← as_dict v;
  upstream ← py_iter (dget d "upstream_stations" (PyList []));
  timeout ← py_float (dget d "timeout" (PyFloat "300.0"));
  Ok (mkStation (dget d "station_id" (PyStr "")) (dget d "name" (PyStr ""))
        (dget d "sequence_ref" (PyStr "")) upstream timeout).

Definition workflow_from_dict (data : pyval) : res StationWorkflow :=
  d ← as_dict data;
  members ← py_iter (dget d "stations" (PyList []));
  stations ← mapM station_from_dict members;
  rules ← dict_copy (dget d "handoff_rules" (PyMap []));
  Ok (mkWorkflow (dget d "workflow_id" (PyStr "")) (dget d "name" (PyStr "")) stations rules
        (timestamp_of (dget d "created_at" PyNone))).

(** ** The orchestrator *)

Definition workflow_key (workflow_id : string) : string := "workflow." +:+ workflow_id.
Definition handoff_key (session_id station_id : string) : string :=
  "session." +:+ session_id +:+ ".station." +:+ station_id +:+ ".done".

(** [self._kv]: none before [connect] and after [disconnect]. *)
Abbreviation connection := (option Bucket).

Definition ensure_connected : M connection Bucket :=
  c <- get ;;
  match c with
  | Some b => ret b
  | None => raise (RuntimeError "StationOrchestrator not connected - call connect() first")
  end.

(** [json.dumps(...).encode()], outside of any [try]. *)
Definition encode (v : pyval) : M connection string :=
  match json_dumps v with
  | Some text => ret text
  | None => raise (TypeError "Object is not JSON serializable")
  end.

(** [await self._kv.put(key, payload)], under [except Exception]. *)
Definition put_or (failure key payload : string) : M connection Z :=
  b <- ensure_connected ;;
  match kv_put key payload b with
  | (inr revision, b') => put (Some b') ;;; ret revision
  | (inl msg, b') => put (Some b') ;;; raise (RuntimeError (failure +:+ msg))
  end.

(** [register_workflow]; the identifier is written as a string in its key. *)
Definition register_workflow (w : StationWorkflow) : M connection Z :=
  ensure_connected ;;;
  payload <- encode (workflow_to_dict w) ;;
  put_or ("Failed to register workflow '" +:+ py_str (wf_workflow_id w) +:+ "': ")
    (workflow_key (py_str (wf_workflow_id w))) payload.

(** [get_workflow]: a value that is not JSON raises. *)
Definition get_workflow (workflow_id : string) : M connection (option StationWorkflow) :=
  b <- ensure_connected ;;
  match kv_get (workflow_key workflow_id) b with
  | KeyNotFound | KvEntry None => ret None
  | KvFailed msg => raise (RuntimeError ("Failed to get workflow '" +:+ workflow_id +:+ "': " +:+ msg))
  | KvEntry (Some text) =>
      match json_loads text with
      | None => raise (ValueError "Expecting value")
      | Some v => match workflow_from_dict v with Ok w => ret (Some w) | Raise e => raise e end
      end
  end.

(** [notify_done] *)
Definition notify_done (session_id station_id : string) (h : StationHandoff) : M connection Z :=
  if negb (bool_decide (as_str (sh_station_id h) = Some station_id)) then
    raise (ValueError ("station_id '" +:+ station_id +:+ "' does not match handoff.station_id '"
      +:+ py_str (sh_station_id h) +:+ "'"))
  else if negb (bool_decide (as_str (sh_session_id h) = Some session_id)) then
    raise (ValueError ("session_id '" +:+ session_id +:+ "' does not match handoff.session_id '"
      +:+ py_str (sh_session_id h) +:+ "'"))
  else
    ensure_connected ;;;
    payload <- encode (handoff_to_dict h) ;;
    put_or ("Failed to write handoff for session '" +:+ session_id +:+ "' station '" +:+ station_id +:+ "': ")
      (handoff_key session_id station_id) payload.

(** [_decode_handoff_entry]: a value that is not JSON counts as a hand-off that passed. *)
Definition decode_handoff_entry (value : option string) : res StationHandoff :=
  match value ≫= json_loads with
  | None => Ok (mkHandoff (PyStr "") (PyStr "") (PyStr "") true [] now_iso)
  | Some v => handoff_from_dict v
  end.

(** [_get_handoff_raw], which [get_handoff] returns. *)
Definition get_handoff (session_id station_id : string) : M connection (option StationHandoff) :=
  b <- ensure_connected ;;
  match kv_get (handoff_key session_id station_id) b with
  | KeyNotFound | KvEntry None => ret None
  | KvFailed msg =>
      raise (RuntimeError ("Failed to get handoff for session '" +:+ session_id +:+ "' station '"
        +:+ station_id +:+ "': " +:+ msg))
  | KvEntry value => match decode_handoff_entry value with Ok h => ret (Some h) | Raise e => raise e end
  end.

Definition status_of (h : StationHandoff) : HandoffStatus :=
  if sh_pass_fail h then HandoffDone else HandoffFailed.

(** ** The watch *)

(** What the watcher yields: nothing yet, the end, an entry (with whether it is a deletion). *)
Inductive WatchItem : Type :=
  | WatchMarker
  | WatchEnd
  | WatchEntry (key : string) (deletion : bool) (value : option string).

(** The loop of [_drain_watch_until_done] from the time [now], over the items with the times at
    which they come; the watcher is silent after the last. *)
Fixpoint drain_watch (key : string) (deadline now : Z) (l : list (Z * WatchItem)) : res HandoffStatus :=
  if (deadline - now <=? 0)%Z then Ok HandoffTimeout
  else
    match l with
    | [] => Ok HandoffTimeout
    | (t, item) :: l' =>
        if (deadline <? t)%Z then Ok HandoffTimeout
        else
          match item with
          | WatchMarker => drain_watch key deadline t l'
          | WatchEnd => Ok HandoffTimeout
          | WatchEntry k deletion value =>
              if deletion || negb (bool_decide (k = key)) then drain_watch key deadline t l'
              else h ← decode_handoff_entry value; Ok (status_of h)
          end
    end.

(** [wait_for_upstream]; [watch] is what [self._kv.watch] gives: an error or the items to come. *)
Definition wait_for_upstream (session_id upstream : string) (timeout now : Z)
    (watch : string + list (Z * WatchItem)) : M connection HandoffStatus :=
  ensure_connected ;;;
  existing <- get_handoff session_id upstream ;;
  match existing with
  | Some h => ret (status_of h)
  | None =>
      match watch with
      | inl msg =>
          raise (RuntimeError ("Failed to watch handoff key '" +:+ handoff_key session_id upstream
            +:+ "': " +:+ msg))
      | inr items =>
          match drain_watch (handoff_key session_id upstream) (now + timeout) now items with
          | Ok st => ret st
          | Raise e => raise e
          end
      end
  end.
End stations.

(** ** Hand-offs arrive *)

Section results.
Context `{PF : PyFloats} {KV : KvBucket}.
Context (iso : string → option string) (now_iso : string).
Context (float_value : F → pyval).
Context (json_dumps : pyval → option string) (json_loads : string → option pyval).

(** Assumed of the codec, of the bucket, of time stamps and of floats where they are used. *)
Definition codec_law (v : pyval) : Prop := ∀ text, json_dumps v = Some text → json_loads text = Some v.
Definition bucket_law : Prop := ∀ k v b n b', kv_put k v b = (inr n, b') →
  kv_get k b' = KvEntry (Some v) ∧ ∀ k', k' ≠ k → kv_get k' b' = kv_get k' b.

Notation handoff_from_dict := (handoff_from_dict iso now_iso).
Notation decode := (decode_handoff_entry iso now_iso json_loads).
Notation drain := (drain_watch iso now_iso json_loads).
Notation wait := (wait_for_upstream iso now_iso json_loads).
Notation notify := (notify_done json_dumps).
Notation handoff := (get_handoff iso now_iso json_loads).

Lemma connected {A} (b : Bucket) (k : Bucket → M (option Bucket) A) :
  bind ensure_connected k (Some b) = k b (Some b).
Proof. done. Qed.

Lemma put_or_Ok failure key payload b n c :
  put_or failure key payload (Some b) = (Ok n, c) → ∃ b', kv_put key payload b = (inr n, b') ∧ c = Some b'.
Proof.
  unfold put_or. rewrite connected. destruct (kv_put key payload b) as [[msg|m] b'] eqn:Ep; [done|].
  intros [= <- <-]. by exists b'.
Qed.

Lemma timestamp_kept t : iso t = Some t → timestamp_of iso now_iso (PyStr t) = t.
Proof. intros Ht. unfold timestamp_of, mbind, option_bind. cbn. by rewrite Ht. Qed.

Ltac read_entries :=
  unfold dget, str_map; cbn [fmap list_fmap fst snd map_get_default];
  repeat match goal with |- context [decide (?a = ?b :> string)] =>
    first [rewrite (decide_True (P := a = b)) by reflexivity | rewrite (decide_False (P := a = b)) by discriminate]
  end.

Lemma handoff_roundtrip h :
  iso (sh_timestamp h) = Some (sh_timestamp h) → handoff_from_dict (handoff_to_dict h) = Ok h.
Proof.
  intros Ht. unfold Stations.handoff_from_dict, handoff_to_dict. cbn [str_map as_dict mbind res_mbind res_bind].
  read_entries. rewrite timestamp_kept by done. cbn. by destruct h.
Qed.

Lemma stations_roundtrip l :
  (∀ x, py_float (float_value x) = Ok x) → mapM station_from_dict (station_to_dict float_value <$> l) = Ok l.
Proof.
  intros Hf. apply res_mapM_Ok. induction l as [|s l IH]; [constructor|]. constructor; [|exact IH].
  unfold station_from_dict, station_to_dict. cbn [str_map as_dict mbind res_mbind res_bind].
  read_entries. cbn. rewrite Hf. cbn. by destruct s.
Qed.

(** A registered workflow is read back as it was. *)
Theorem workflow_read_back (w : StationWorkflow) (b : Bucket) (n : Z) (c : option Bucket) (id : string)
    (Hcodec : codec_law (workflow_to_dict float_value w)) (Hbucket : bucket_law)
    (Hiso : iso (wf_created_at w) = Some (wf_created_at w))
    (Hfloat : ∀ x, py_float (float_value x) = Ok x) (Hid : wf_workflow_id w = PyStr id)
    (Hreg : register_workflow float_value json_dumps w (Some b) = (Ok n, c)) :
  get_workflow iso now_iso json_loads id c = (Ok (Some w), c).
Proof.
  unfold register_workflow in Hreg. rewrite connected in Hreg. rewrite Hid in Hreg.
  change (py_str (PyStr id)) with id in Hreg.
  unfold encode in Hreg. destruct (json_dumps _) as [text|] eqn:Ed; [|done].
  rewrite bind_ret_l in Hreg. apply put_or_Ok in Hreg as (b' & Hp & ->).
  destruct (Hbucket _ _ _ _ _ Hp) as [Hget _].
  unfold get_workflow. rewrite connected, Hget, (Hcodec _ Ed).
  assert (workflow_from_dict iso now_iso (workflow_to_dict float_value w) = Ok w) as ->; [|done].
  pose proof (stations_roundtrip (wf_stations w) Hfloat) as Hs. revert Hs.
  unfold workflow_from_dict, workflow_to_dict. generalize (station_to_dict float_value <$> wf_stations w) as l.
  intros l Hs. cbn [str_map as_dict mbind res_mbind res_bind].
  read_entries. cbn [py_iter mbind res_mbind res_bind].
  rewrite timestamp_kept, Hs by done.
  cbn. by destruct w.
Qed.

Lemma get_handoff_at sid st b value h :
  kv_get (handoff_key sid st) b = KvEntry (Some value) → decode (Some value) = Ok h →
  handoff sid st (Some b) = (Ok (Some h), Some b).
Proof.
  intros Hk Hd. unfold get_handoff. by rewrite connected, Hk, Hd.
Qed.

Lemma wait_existing sid st timeout now watch b h :
  handoff sid st (Some b) = (Ok (Some h), Some b) →
  wait sid st timeout now watch (Some b) = (Ok (status_of h), Some b).
Proof.
  intros Hg. unfold wait_for_upstream. by rewrite connected, (bind_ok _ _ _ _ _ Hg).
Qed.

(** Sessions without a dot have keys of their own. *)
Lemma first_dot a b x y :
  free_of "." a = true → free_of "." b = true → a +:+ String "." x = b +:+ String "." y → a = b ∧ x = y.
Proof.
  intros Ha Hb H. pose proof (f_equal (split_max "." 1) H) as Hs.
  rewrite !split_max_app, !split_max_0 in Hs by done. by injection Hs.
Qed.

Lemma str_length_app (a b : string) : String.length (a +:+ b) = (String.length a + String.length b)%nat.
Proof. induction a as [|x a IH]; [done|]. str_simp. cbn. by rewrite IH. Qed.

Lemma str_app_inj_r (a b c : string) : a +:+ c = b +:+ c → a = b.
Proof.
  revert b. induction a as [|x a IH]; intros [|y b]; str_simp; intros H; try done.
  - apply (f_equal String.length) in H. cbn in H. rewrite str_length_app in H. lia.
  - apply (f_equal String.length) in H. cbn in H. rewrite str_length_app in H. lia.
  - injection H as -> H. f_equal. by apply IH.
Qed.

Lemma handoff_key_inj a s b t :
  free_of "." a = true → free_of "." b = true → handoff_key a s = handoff_key b t → a = b ∧ s = t.
Proof.
  intros Ha Hb Hk%str_app_inj_l. apply first_dot in Hk as [-> Hk]; [|done..].
  apply (str_app_inj_l "station.") in Hk. split; [done|]. by apply str_app_inj_r in Hk.
Qed.

(** A hand-off that a station reports reaches whoever waits for it afterwards: the wait
    answers at once, DONE if the unit passed and FAILED if not, whatever its time-out and
    whatever the watch would give. And it reaches nobody else: what other stations and other
    sessions have reported stays as it was, as long as session identifiers have no dot. *)
Theorem handoff_arrives (sid st : string) (h : StationHandoff) (b : Bucket) (n : Z) (c : option Bucket)
    (Hcodec : codec_law (handoff_to_dict h)) (Hbucket : bucket_law) (Hiso : iso (sh_timestamp h) = Some (sh_timestamp h))
    (Hdone : notify sid st h (Some b) = (Ok n, c)) :
  (∀ timeout now watch, wait sid st timeout now watch c = (Ok (status_of h), c))
  ∧ handoff sid st c = (Ok (Some h), c)
  ∧ ∀ sid' st', free_of "." sid = true → free_of "." sid' = true → (sid', st') ≠ (sid, st) →
      (handoff sid' st' c).1 = (handoff sid' st' (Some b)).1.
Proof.
  unfold notify_done in Hdone. do 2 (destruct (negb _); [done|]). rewrite connected in Hdone.
  unfold encode in Hdone. destruct (json_dumps _) as [text|] eqn:Ed; [|done].
  rewrite bind_ret_l in Hdone. apply put_or_Ok in Hdone as (b' & Hp & ->).
  destruct (Hbucket _ _ _ _ _ Hp) as [Hget Hother].
  assert (handoff sid st (Some b') = (Ok (Some h), Some b')) as Hh.
  { eapply get_handoff_at; [exact Hget|]. unfold decode_handoff_entry. cbn [mbind option_bind].
    rewrite (Hcodec _ Ed). by apply handoff_roundtrip. }
  split_and!; [|done|].
  - intros timeout now watch. by apply wait_existing.
  - intros sid' st' H1 H2 Hne. unfold get_handoff. rewrite !connected, Hother; [by repeat case_match|].
    intros Hk. apply handoff_key_inj in Hk as [-> ->]; done.
Qed.

(** ** What a wait answers *)

(** An item the loop passes over, and the time left after it. *)
Definition passed_over (key : string) (deadline : Z) (x : Z * WatchItem) : Prop :=
  (x.1 < deadline)%Z ∧
  match x.2 with
  | WatchMarker => True
  | WatchEnd => False
  | WatchEntry k deletion _ => deletion = true ∨ k ≠ key
  end.

Lemma drain_answers key deadline l : ∀ now, (now < deadline)%Z →
  ∀ answer, answer ≠ Ok HandoffTimeout →
  drain key deadline now l = answer ↔
  ∃ pre t value post, l = pre ++ (t, WatchEntry key false value) :: post
    ∧ Forall (passed_over key deadline) pre ∧ (t <= deadline)%Z
    ∧ (h ← decode value; Ok (status_of h)) = answer.
Proof.
  induction l as [|[t item] l IH]; intros now Hnow answer Hans; cbn [drain_watch];
    destruct (Z.leb_spec (deadline - now) 0); try lia.
  { split; [congruence|]. by intros ([|] & ? & ? & ? & ? & _). }
  destruct (Z.ltb_spec deadline t) as [Ht|Ht].
  { split; [congruence|]. intros (pre & t' & v & post & Heq & Hpre & Hle & _).
    destruct pre as [|x pre]; injection Heq as <-; subst; [lia|].
    apply Forall_cons in Hpre as [[Hlt _] _]. cbn in Hlt. lia. }
  assert (∀ passed : passed_over key deadline (t, item) ∨ t = deadline,
    (∀ v, item ≠ WatchEntry key false v) →
    (drain key deadline t l = answer ↔ ∃ pre t0 value post,
       (t, item) :: l = pre ++ (t0, WatchEntry key false value) :: post
       ∧ Forall (passed_over key deadline) pre ∧ (t0 <= deadline)%Z
       ∧ (h ← decode value; Ok (status_of h)) = answer)) as Hskip.
  { intros Hp Hitem. destruct (decide (t = deadline)) as [->|Hne].
    - assert (drain key deadline deadline l = Ok HandoffTimeout) as ->.
      { destruct l as [|[] l]; cbn; by rewrite Z.sub_diag. }
      split; [congruence|]. intros (pre & t' & v & post & Heq & Hpre & _).
      destruct pre as [|x pre]; injection Heq as <- Hrest; [by destruct (Hitem v)|].
      apply Forall_cons in Hpre as [[Hlt _] _]. cbn in Hlt. lia.
    - destruct Hp as [Hp|]; [|done]. rewrite (IH t ltac:(lia) answer Hans). split.
      + intros (pre & t' & v & post & -> & Hpre & Hrest). exists ((t, item) :: pre), t', v, post.
        split; [done|]. split; [by constructor|done].
      + intros (pre & t' & v & post & Heq & Hpre & Hrest).
        destruct pre as [|x pre]; injection Heq as <- Heq; [by destruct (Hitem v)|].
        apply Forall_cons in Hpre as [_ Hpre]. by exists pre, t', v, post. }
  assert (t = deadline ∨ (t < deadline)%Z) as Hlt by lia.
  destruct item as [| |k deletion value].
  - apply Hskip; [|done]. destruct Hlt; [by right|left; by split].
  - split; [congruence|]. intros (pre & t' & v & post & Heq & Hpre & _).
    destruct pre as [|x pre]; injection Heq as <- Heq; [done|].
    apply Forall_cons in Hpre as [[_ []] _].
  - destruct (deletion || negb (bool_decide (k = key))) eqn:Ed.
    + assert (deletion = true ∨ k ≠ key) as Hd.
      { apply orb_true_iff in Ed as [->|Hk]; [by left|right]. by apply negb_true_iff, bool_decide_eq_false in Hk. }
      apply Hskip; [|intros v [= -> -> _]; by destruct Hd]. destruct Hlt; [by right|left; by split].
    + apply orb_false_iff in Ed as [-> Hk]. apply negb_false_iff, bool_decide_eq_true in Hk as ->. split.
      * intros Ha. by exists [], t, value, l.
      * intros (pre & t' & v & post & Heq & Hpre & _ & Ha).
        destruct pre as [|x pre]; [by injection Heq as -> -> ->|]. injection Heq as <- _.
        apply Forall_cons in Hpre as [[_ [?|?]] _]; done.
Qed.

(** What a wait answers when nothing has been reported yet and the watch works: the verdict of
    the first entry written under the key, if it comes by the deadline and everything before it
    came earlier than that, and TIMEOUT otherwise. An exception comes only from decoding such an
    entry; and an entry that is not JSON counts as a unit that passed. *)
Theorem wait_answers (sid st : string) (timeout now : Z) (b : Bucket) (l : list (Z * WatchItem))
    (Hnone : kv_get (handoff_key sid st) b = KeyNotFound) (Htime : (0 < timeout)%Z) :
  let key := handoff_key sid st in
  let answer := (wait sid st timeout now (inr l) (Some b)).1 in
  (answer ≠ Ok HandoffTimeout →
     ∃ pre t value post, l = pre ++ (t, WatchEntry key false value) :: post
       ∧ Forall (passed_over key (now + timeout)) pre ∧ (t <= now + timeout)%Z
       ∧ answer = (h ← decode value; Ok (status_of h))
       ∧ (value ≫= json_loads = None → answer = Ok HandoffDone))
  ∧ ∀ pre t value post, l = pre ++ (t, WatchEntry key false value) :: post →
      Forall (passed_over key (now + timeout)) pre → (t <= now + timeout)%Z →
      answer = (h ← decode value; Ok (status_of h)).
Proof.
  cbn zeta. assert ((wait sid st timeout now (inr l) (Some b)).1
    = drain (handoff_key sid st) (now + timeout) now l) as ->.
  { unfold wait_for_upstream. rewrite connected.
    assert (handoff sid st (Some b) = (Ok None, Some b)) as Hg
      by (unfold get_handoff; by rewrite connected, Hnone).
    rewrite (bind_ok _ _ _ _ _ Hg). cbn. by destruct (drain_watch _ _ _ _ _ _ _). }
  assert (∀ value, (h ← decode value; Ok (status_of h)) ≠ Ok HandoffTimeout) as Hno.
  { intros value. destruct (decode value) as [h|e]; [|done]. cbn. unfold status_of. by destruct (sh_pass_fail h). }
  pose proof (drain_answers (handoff_key sid st) (now + timeout) l now ltac:(lia)) as Hd. split.
  - intros Hans. destruct (proj1 (Hd _ Hans) eq_refl) as (pre & t & value & post & Hl & Hpre & Ht & Ha).
    exists pre, t, value, post. split_and!; try done. intros Hbad. rewrite <- Ha.
    unfold decode_handoff_entry. by rewrite Hbad.
  - intros pre t value post Hl Hpre Ht. apply Hd; [apply Hno|]. by exists pre, t, value, post.
Qed.
End results.

(** ** Witnesses and examples *)

(** A bucket that keeps the last value of each key, and counts. *)
#[local] Instance map_bucket : KvBucket := {|
  Bucket := gmap string string * Z;
  kv_get k b := match b.1 !! k with Some v => KvEntry (Some v) | None => KeyNotFound end;
  kv_put k v b := (inr (b.2 + 1)%Z, (<[k := v]> b.1, (b.2 + 1)%Z))
|}.
#[local] Existing Instance whole_floats.

Lemma map_bucket_law : bucket_law.
Proof.
  intros k v [m r] n b' [= <- <-]. cbn. rewrite lookup_insert_eq. split; [done|].
  intros k' Hk. by rewrite lookup_insert_ne.
Qed.

Definition keep_iso (s : string) : option string := Some s.
Definition failed_unit : StationHandoff :=
  mkHandoff (PyStr "s1") (PyStr "ict") (PyStr "SN7") false [] "2026-01-01T00:00:00".
(** A codec for that hand-off; "false" is a text for a hand-off with a string for a verdict. *)
Definition one_dump (v : pyval) : option string := Some "handoff".
Definition one_load (text : string) : option pyval :=
  if decide (text = "handoff") then Some (handoff_to_dict failed_unit)
  else if decide (text = "false") then Some (PyMap [(PyStr "pass_fail", PyStr "false")])
  else if decide (text = "list") then Some (PyList [])
  else None.
Definition empty_bucket : Bucket := (∅, 0%Z).
Definition waited (l : list (Z * WatchItem)) : res HandoffStatus :=
  (wait_for_upstream keep_iso "now" one_load "s1" "ict" 300 0 (inr l) (Some empty_bucket)).1.
Definition key1 : string := handoff_key "s1" "ict".

Example nothing_comes : waited [(10%Z, WatchMarker); (20%Z, WatchEntry key1 true None)] = Ok HandoffTimeout.
Proof. vm_compute. reflexivity. Qed.
Example too_late : waited [(301%Z, WatchEntry key1 false (Some "handoff"))] = Ok HandoffTimeout.
Proof. vm_compute. reflexivity. Qed.
Example in_time : waited [(10%Z, WatchMarker); (299%Z, WatchEntry key1 false (Some "handoff"))] = Ok HandoffFailed.
Proof. vm_compute. reflexivity. Qed.

(** A record that cannot be decoded lets the unit through. *)
Example garbage_passes : waited [(10%Z, WatchEntry key1 false (Some "garbage"))] = Ok HandoffDone.
Proof. vm_compute. reflexivity. Qed.
(** So does the string "false". *)
Example false_string_passes : waited [(10%Z, WatchEntry key1 false (Some "false"))] = Ok HandoffDone.
Proof. vm_compute. reflexivity. Qed.
(** JSON that is not an object raises out of the wait. *)
Example list_raises : is_ok (waited [(10%Z, WatchEntry key1 false (Some "list"))]) = false.
Proof. vm_compute. reflexivity. Qed.

(** With a dot in a session identifier two sessions can share a key. *)
Example sessions_share_a_key : handoff_key "s1" "a.station.b" = handoff_key "s1.station.a" "b".
Proof. vm_compute. reflexivity. Qed.

Definition reported : option Bucket := (notify_done one_dump "s1" "ict" failed_unit (Some empty_bucket)).2.

Lemma handoff_arrives_witness :
  (wait_for_upstream keep_iso "now" one_load "s1" "ict" 0 0 (inr []) reported).1 = Ok HandoffFailed.
Proof.
  assert (codec_law one_dump one_load (handoff_to_dict failed_unit)) as Hc by (intros text [= <-]; reflexivity).
  destruct (handoff_arrives keep_iso "now" one_dump one_load "s1" "ict" failed_unit empty_bucket 1%Z reported
    Hc map_bucket_law eq_refl eq_refl) as [Hw _].
  rewrite Hw. reflexivity.
Defined.

Lemma wait_answers_witness :
  waited [(10%Z, WatchEntry key1 false (Some "garbage"))] = Ok HandoffDone.
Proof.
  exact (proj2 (wait_answers keep_iso "now" one_load "s1" "ict" 300 0 empty_bucket
    [(10%Z, WatchEntry key1 false (Some "garbage"))] eq_refl eq_refl)
    [] 10%Z (Some "garbage") [] eq_refl (List.Forall_nil _) ltac:(discriminate)).
Defined.

Definition int_value (z : @F whole_floats) : pyval := PyInt z.
Definition one_station : StationWorkflow :=
  mkWorkflow (PyStr "w") (PyStr "line") [mkStation (PyStr "ict") (PyStr "") (PyStr "") [] (30%Z : F)] [] "2026-01-01".
Definition workflow_load (text : string) : option pyval :=
  Some (workflow_to_dict int_value one_station).

Definition registered : option Bucket := (register_workflow int_value one_dump one_station (Some empty_bucket)).2.

Lemma workflow_read_back_witness :
  (get_workflow keep_iso "now" workflow_load "w"
     registered).1
  = Ok (Some one_station).
Proof.
  assert (codec_law one_dump workflow_load (workflow_to_dict int_value one_station)) as Hc
    by (intros text [= <-]; reflexivity).
  by rewrite (workflow_read_back keep_iso "now" int_value one_dump workflow_load one_station
    empty_bucket 1%Z registered "w" Hc map_bucket_law eq_refl (λ x, eq_refl) eq_refl eq_refl).
Defined.
