(* ===== verification/CloudBreakpoints.v ===== *)
(** * Breakpoints in the cloud (src/src/ate_cloud/services/breakpoint_registry.py)

    The cloud keeps the breakpoints of every run, matches the status events it relays against
    them, and pauses the run at a hit with the control message that the worker of Worker.v
    understands. [ast_walk] is [ast.walk(ast.parse(s, mode="eval"))]: the class names of the nodes,
    or the message of the SyntaxError; [simple_eval_names] is [simple_eval]. *)

From S2P Require Import Prelude PyDict PyStr Types VariableSpace EdgeBreakpoints StateSnapshot Scheduler Parser Recovery Worker.

Definition BREAKPOINT_KINDS : list string := ["step"; "instrument_call"; "variable_change"; "condition"].

(** [_ALLOWED_CONDITION_NODES] of this module. *)
Definition CONDITION_NODES : list string :=
  ["Expression"; "BoolOp"; "And"; "Or"; "BinOp"; "Add"; "Sub"; "Mult"; "Div"; "FloorDiv";
   "Mod"; "UnaryOp"; "Not"; "USub"; "UAdd"; "Compare"; "Eq"; "NotEq"; "Lt"; "LtE"; "Gt";
   "GtE"; "In"; "NotIn"; "Name"; "Load"; "Constant"].

Record TypedBreakpoint : Type := mkTyped {
  tb_id : string;
  tb_run_id : string;
  tb_kind : string;
  tb_target : string;
  tb_condition : option string;
  tb_enabled : bool
}.

(** [TypedBreakpoint.to_dict] *)
Definition to_dict (bp : TypedBreakpoint) : pyval :=
  PyMap [(PyStr "id", PyStr (tb_id bp)); (PyStr "run_id", PyStr (tb_run_id bp));
         (PyStr "kind", PyStr (tb_kind bp)); (PyStr "target", PyStr (tb_target bp));
         (PyStr "condition", match tb_condition bp with Some s => PyStr s | None => PyNone end);
         (PyStr "enabled", PyBool (tb_enabled bp))].

(** [_by_run] *)
Abbreviation registry := (pydict string (pydict string TypedBreakpoint)).

Section breakpoints.
Context (ast_walk : string → string + list string).
Context (simple_eval_names : pydict string pyval → string → option pyval).

(** ** Validation *)

Definition first_unsupported (nodes : list string) : option string :=
  head (base.filter (λ n, n ∉ CONDITION_NODES) nodes).

Definition validate_condition_syntax (expression : string) : res unit :=
  if is_blank expression then Raise (ValueError "condition must be a non-empty expression")
  else
    match ast_walk (py_strip expression) with
    | inl msg => Raise (ValueError ("malformed condition expression: " +:+ msg))
    | inr nodes =>
        match first_unsupported nodes with
        | Some n => Raise (ValueError ("condition uses unsupported syntax: " +:+ n))
        | None => Ok tt
        end
    end.

Definition validate_breakpoint (kind target : string) (condition : option string) : res unit :=
  if negb (str_in kind BREAKPOINT_KINDS) then
    Raise (ValueError ("unknown breakpoint kind " +:+ repr_str kind +:+ "; allowed: "
      +:+ repr_strs BREAKPOINT_KINDS))
  else if is_blank target then Raise (ValueError "target must be a non-empty string")
  else if decide (kind = "condition") then validate_condition_syntax (default "" condition)
  else
    match condition with
    | Some c => if is_blank c then Ok tt
                else Raise (ValueError "condition is only allowed for the 'condition' kind")
    | None => Ok tt
    end.

(** [evaluate_condition]: whatever goes wrong is no hit. *)
Definition evaluate_condition (expression : string) (names : pydict string pyval) : bool :=
  default false (py_bool <$> simple_eval_names names expression).

(** ** The registry *)

Definition add (bp : TypedBreakpoint) (r : registry) : registry :=
  <[tb_run_id bp := <[tb_id bp := bp]> (get_default (tb_run_id bp) ∅ r)]> r.

Definition remove (run_id bp_id : string) (r : registry) : bool * registry :=
  match r !! run_id with
  | None => (false, r)
  | Some bps =>
      if has_key bp_id bps then
        let bps' := delete bp_id bps in
        (true, match items bps' with [] => delete run_id r | _ => <[run_id := bps']> r end)
      else (false, r)
  end.

(** [get]: the first run that has the identifier. *)
Definition get_bp (bp_id : string) (r : registry) : option TypedBreakpoint :=
  head (omap (λ bps, bps !! bp_id) (values r)).

Definition disable (bp_id : string) (r : registry) : bool * registry :=
  match get_bp bp_id r with
  | None => (false, r)
  | Some bp =>
      (true, add (mkTyped (tb_id bp) (tb_run_id bp) (tb_kind bp) (tb_target bp) (tb_condition bp) false) r)
  end.

Definition list_for_run (run_id : string) (r : registry) : list TypedBreakpoint :=
  values (get_default run_id ∅ r).
Definition clear_run (run_id : string) (r : registry) : registry := delete run_id r.

(** The string entries of a payload: the names a condition may use. *)
Definition names_of (ctx : ydict) : pydict string pyval :=
  dict_of_list (omap (λ kv, (λ k, (k, kv.2)) <$> as_str kv.1) ctx).

(** [bp.target.partition(".")] *)
Definition partition_dot (s : string) : string * string :=
  match split_max "." 1 s with [a; b] => (a, b) | _ => (s, "") end.

(** The test of [check_hit] on one breakpoint. *)
Definition is_hit (kind : string) (target : pyval) (ctx : ydict) (bp : TypedBreakpoint) : bool :=
  tb_enabled bp && bool_decide (tb_kind bp = kind)
  && (if decide (kind = "step") then is_str target (tb_target bp)
      else if decide (kind = "instrument_call") then
        let '(resource, method) := partition_dot (tb_target bp) in
        is_str target resource
        && (bool_decide (method = "") || is_str (dget ctx "method" PyNone) method)
      else if decide (kind = "variable_change") then is_str target (tb_target bp)
      else if decide (kind = "condition") then
        evaluate_condition (default "" (tb_condition bp)) (names_of ctx)
      else false).

Definition check_hit (run_id kind : string) (target : pyval) (ctx : ydict) (r : registry) :
    list TypedBreakpoint :=
  base.filter (λ bp, is_hit kind target ctx bp = true) (list_for_run run_id r).

(** ** Status events *)

(** [{k: v for k, v in event.items() if k != "type"}] *)
Definition context_of (event : ydict) : ydict :=
  base.filter (λ kv, as_str kv.1 ≠ Some "type") event.

Definition is_scalar (v : pyval) : bool :=
  match v with PyBool _ | PyInt _ | PyFloat _ | PyStr _ => true | _ => false end.

(** [name.rsplit(".", 1)[-1]] *)
Definition last_part (name : string) : string := default "" (last (split_max "." (String.length name) name)).

(** A measurement is visible to conditions under its name and under its last part. *)
Definition eval_names (event : ydict) : res ydict :=
  let context := context_of event in
  let name := dget event "name" PyNone in
  let value := dget event "new_value" PyNone in
  if py_bool name && is_scalar value then
    match name with
    | PyStr s => Ok (dset (dset context s value) (last_part s) value)
    | PyList _ | PyMap _ => Raise (TypeError "unhashable type")
    | _ => Raise (AttributeError name "rsplit")
    end
  else Ok context.

(** Kind, target and context of what the event is checked against. *)
Definition observations (event names : ydict) : list (string * pyval * ydict) :=
  let context := context_of event in
  let get k := dget event k PyNone in
  (if is_str (dget event "type" (PyStr "")) "STEP_STARTED" && py_bool (get "step_id") then
     [("step", get "step_id", context)]
   else if is_str (dget event "type" (PyStr "")) "measurement_recorded" then
     (if py_bool (get "instrument_id") then
        [("instrument_call", get "instrument_id", dset context "method" (get "method"))] else [])
     ++ (if py_bool (get "name") then
           [("variable_change", get "name", dset context "value" (get "new_value"))] else [])
   else [])
  ++ [("condition", PyStr "*", names)].

Inductive Action : Type :=
  | Hit (run_id : string) (bp : TypedBreakpoint) (ctx : ydict)     (* the SSE event BREAKPOINT_HIT *)
  | PauseSent (run_id : string).                                   (* on ate.control.<run> *)

(** What the bridge and the NATS client do with the next message: [bridge] may raise, [nats]
    says whether a client is there and takes it. *)
Context (bridge : list Action → option exc) (nats : list Action → bool).

Definition publish_hit (run_id : string) (ctx : ydict) (bp : TypedBreakpoint) : M (list Action) unit :=
  sent <- get ;;
  (match bridge sent with Some e => raise e | None => modify (λ l, l ++ [Hit run_id bp ctx]) end) ;;;
  modify (λ l, if nats l then l ++ [PauseSent run_id] else l).

(** [handle_status_event]; a run identifier that is not a string has no breakpoints. *)
Definition handle_status_event (r : registry) (event : ydict) : M (list Action) unit :=
  let run := dget event "run_id" PyNone in
  if negb (py_bool run) then ret tt
  else
    match eval_names event with
    | Raise e => raise e
    | Ok names =>
        match run with
        | PyStr run_id =>
            for_each (observations event names) (λ '(kind, target, ctx),
              for_each (check_hit run_id kind target ctx r) (publish_hit run_id ctx))
        | PyList _ | PyMap _ => raise (TypeError "unhashable type")
        | _ => ret tt
        end
    end.
End breakpoints.

(** ** Cloud and edge agree on what a breakpoint is *)

Lemma is_blank_strip s : is_blank s = true ↔ py_strip s = "".
Proof.
  unfold is_blank. rewrite orb_true_iff, !bool_decide_eq_true. split; [intros [->|H]; done|by right].
Qed.

Lemma nonblank_PyStr s : nonblank_str (PyStr s) = if is_blank s then None else Some s.
Proof.
  unfold nonblank_str. case_decide as H; [by rewrite (proj2 (is_blank_strip s))|].
  destruct (is_blank s) eqn:Hb; [by apply is_blank_strip in Hb|done].
Qed.

Lemma first_unsupported_None nodes :
  first_unsupported nodes = None ↔ forallb (λ n, str_in n ALLOWED_CONDITION_NODES) nodes = true.
Proof.
  unfold first_unsupported. change ALLOWED_CONDITION_NODES with CONDITION_NODES.
  rewrite head_None, list_filter_empty, forallb_forall. split.
  - intros H n Hn%list_elem_of_In. apply bool_decide_eq_true.
    destruct (decide (n ∈ CONDITION_NODES)); [done|by destruct (H n Hn)].
  - intros H n Hn Hno. apply list_elem_of_In, H, bool_decide_eq_true in Hn. done.
Qed.

(** The cloud accepts a breakpoint exactly when the edge keeps it: the entry it sends for it
    is parsed by the worker to a breakpoint with the same identifier, kind, target and state, and
    with its condition for the kind "condition", or is dropped there as well. *)
Theorem accepted_iff_armed (ast_walk : string → string + list string)
    (ast_nodes : string → option (list string)) (bp : TypedBreakpoint)
    (Hast : ∀ s, ast_nodes s = match ast_walk s with inr nodes => Some nodes | inl _ => None end)
    (Hid : is_blank (tb_id bp) = false) :
  parse_one ast_nodes (to_dict bp) =
    if is_ok (validate_breakpoint ast_walk (tb_kind bp) (tb_target bp) (tb_condition bp)) then
      Some (mkBp (tb_id bp) (tb_kind bp) (tb_target bp)
              (if decide (tb_kind bp = "condition") then tb_condition bp else None) (tb_enabled bp))
    else None.
Proof.
  destruct bp as [id run kind target cond en]. unfold to_dict, validate_breakpoint.
  cbn [tb_id tb_run_id tb_kind tb_target tb_condition tb_enabled] in *.
  unfold parse_one. cbn [map_get_default].
  repeat match goal with |- context [decide (?a = ?b :> string)] =>
    first [rewrite (decide_True (P := a = b)) by reflexivity | rewrite (decide_False (P := a = b)) by discriminate]
  end.
  rewrite !nonblank_PyStr, Hid. cbn [mbind option_bind].
  change EDGE_BREAKPOINT_KINDS with BREAKPOINT_KINDS.
  destruct (str_in kind BREAKPOINT_KINDS); [|done]. cbn [negb].
  destruct (is_blank target); [done|]. cbn [mbind option_bind]. unfold parse_condition.
  destruct (decide (kind = "condition")) as [->|Hk].
  - unfold validate_condition_syntax. destruct cond as [c|]; [|done].
    change (default "" (Some c)) with c.
    rewrite nonblank_PyStr. destruct (is_blank c); [done|]. cbn [mbind option_bind].
    unfold condition_is_safe. rewrite Hast. destruct (ast_walk (py_strip c)) as [msg|nodes]; [done|].
    destruct (first_unsupported nodes) as [n|] eqn:Ef.
    + destruct (forallb _ nodes) eqn:Ea; [|done]. apply first_unsupported_None in Ea. congruence.
    + apply first_unsupported_None in Ef. by rewrite Ef.
  - destruct cond as [c|]; [|done]. cbn [is_none negb andb py_str].
    destruct (is_blank c) eqn:Hc.
    + apply is_blank_strip in Hc. by rewrite bool_decide_true.
    + rewrite bool_decide_false; [done|]. intros Hs. apply is_blank_strip in Hs. congruence.
Qed.

(** ** Hits *)

Section results.
Context (simple_eval_names : pydict string pyval → string → option pyval).
Context (bridge : list Action → option exc) (nats : list Action → bool).



(** Every breakpoint is under its own run and identifier. *)
Definition registered_well (r : registry) : Prop :=
  ∀ run bps id bp, r !! run = Some bps → bps !! id = Some bp → tb_run_id bp = run ∧ tb_id bp = id.










End results.

(** ** From a status event to a paused run *)

Section delivery.
Context {E : SchedulerEnv}.
Context (ast_nodes : string → option (list string)).
Context (load_rule : ydict → FaultInjector → res (string * string) * FaultInjector).
Context (simple_eval_names : pydict string pyval → string → option pyval).
Context (bridge : list Action → option exc) (nats : list Action → bool).

Abbreviation control := (on_control_message ast_nodes load_rule).

Definition pause_payload (run_id : string) : option pyval :=
  Some (PyMap [(PyStr "action", PyStr "pause"); (PyStr "run_id", PyStr run_id)]).

(** What an action means to the worker: it only hears the control messages. *)
Definition deliver (k : Worker) (a : Action) : Worker :=
  match a with
  | Hit _ _ _ => k
  | PauseSent run_id => (control run_id (pause_payload run_id) k).2
  end.






End delivery.

(** ** Witnesses and examples *)

Section examples.
#[local] Existing Instance codec_env.

(** Parser and evaluator of the fragment of bare names. *)
Definition name_ast (s : string) : string + list string :=
  if decide (s = "") then inl "invalid syntax" else inr ["Expression"; "Name"; "Load"].
Definition name_nodes (s : string) : option (list string) :=
  match name_ast s with inr nodes => Some nodes | inl _ => None end.
Definition name_eval (names : pydict string pyval) (e : string) : option pyval := names !! e.

Definition on_step : TypedBreakpoint := mkTyped "b1" "run-1" "step" "a" None true.
Definition on_dmm : TypedBreakpoint := mkTyped "b2" "run-1" "instrument_call" "dmm.read" None true.
Definition on_vcc : TypedBreakpoint := mkTyped "b3" "run-1" "variable_change" "rail.vcc" None true.
Definition on_truth : TypedBreakpoint := mkTyped "b4" "run-1" "condition" "*" (Some "vcc") true.
Definition armed : registry := foldl (λ r bp, add bp r) ∅ [on_step; on_dmm; on_vcc; on_truth].

Definition step_started (s : string) : ydict :=
  [(PyStr "type", PyStr "STEP_STARTED"); (PyStr "run_id", PyStr "run-1"); (PyStr "step_id", PyStr s)].
Definition measured : ydict :=
  [(PyStr "type", PyStr "measurement_recorded"); (PyStr "run_id", PyStr "run-1");
   (PyStr "instrument_id", PyStr "dmm"); (PyStr "method", PyStr "read");
   (PyStr "name", PyStr "rail.vcc"); (PyStr "new_value", PyInt 3)].

Definition handled (event : ydict) : list Action :=
  (handle_status_event name_eval (λ _, None) (λ _, true) armed event []).2.
Definition hit_ids (l : list Action) : list string :=
  omap (λ a, match a with Hit _ bp _ => Some (tb_id bp) | _ => None end) l.

Lemma accepted_iff_armed_witness :
  parse_one name_nodes (to_dict on_truth) = Some (mkBp "b4" "condition" "*" (Some "vcc") true).
Proof.
  rewrite (accepted_iff_armed name_ast name_nodes on_truth (λ s, eq_refl) ltac:(vm_compute; reflexivity)).
  vm_compute. reflexivity.
Defined.


(** A step event hits the breakpoint of the step; the run is paused. *)
Example started_step_pauses :
  hit_ids (handled (step_started "a")) = ["b1"] ∧ handled (step_started "b") = []
  ∧ run_flags (foldl (deliver name_nodes (λ _ i, (Ok ("f", "scheduler"), i))) busy_worker
      (handled (step_started "a"))) = [(true, true)].
Proof. vm_compute. done. Qed.

(** A measurement of an instrument is checked as a change of its variable as well, and sends one
    pause for each breakpoint. *)
Example measurement_hits_three :
  hit_ids (handled measured) = ["b2"; "b3"; "b4"]
  ∧ omap (λ a, match a with PauseSent run => Some run | _ => None end) (handled measured)
     = ["run-1"; "run-1"; "run-1"].
Proof. vm_compute. done. Qed.

(** A payload without the names of the condition is no hit. *)
Example broken_condition_is_silent :
  check_hit name_eval "run-1" "condition" (PyStr "*") (step_started "b") armed = [].
Proof. vm_compute. done. Qed.

(** [disable] stops at the first run that has the identifier. *)
Example disable_first_run_only :
  let other := mkTyped "b1" "run-2" "step" "a" None true in
  let r := (disable "b1" (add other armed)).2 in
  tb_enabled <$> list_for_run "run-2" r = [true]
  ∧ tb_enabled <$> list_for_run "run-1" r = [false; true; true; true].
Proof. vm_compute. done. Qed.

(** The last breakpoint removed takes its run along. *)
Example remove_last :
  let r := add on_step ∅ in
  remove "run-1" "b1" r = (true, ∅) ∧ remove "run-1" "b9" r = (false, r) ∧ remove "run-7" "b1" r = (false, r).
Proof. vm_compute. done. Qed.
End examples.
